(* ===== verification/_CoqProject ===== *)
-Q . S2P
Prelude.v
StdSet.v
CxxInt.v
SafeMath.v
MinMax.v
DivideRound.v
SeqNum.v
Units.v
UnitsFacts.v
TaskQueue.v
TaskQueueFacts.v
ThreadPool.v
ThreadPoolFacts.v
ThreadPoolSpec.v
Chars.v
Ascii.v
AsciiFacts.v
RefCount.v
Memory.v
Buffer.v
BufferFacts.v
SharedBuffer.v
SharedBufferFacts.v
SharedBufferSystem.v
Base64.v
Base64Codec.v
Crc32.v
StringEncode.v
StrSplit.v
IdRegistry.v
Random.v
BitList.v
Bits.v
BitBuffer.v
BitReaderFacts.v
BitWriterFacts.v
BitBufferCodec.v
RawHashSet.v
RawHashSetFacts.v
RawHashSetSpec.v
Event.v
Kernel.v
KernelInv.v
ObjectTree.v
KernelDestroy.v
KernelLoop.v
KernelMove.v
KernelWitness.v
CopyOnWrite.v
Signals.v
SignalsFacts.v
SignalCombine.v
SignalEmit.v
SignalScripts.v
SignalThreads.v
SignalWitness.v
Metrics.v
MetricsFacts.v
PercentileFilter.v
DateTime.v
SocketTypes.v
TcpSocket.v
TcpSocketFacts.v
TcpSocketRun.v
UdpSocket.v
UdpSocketFacts.v
UdpSocketRun.v
SpinLock.v
OnceFlag.v
Semaphore.v
Barrier.v
UvDispatcher.v
UvDispatcherFacts.v
FramePool.v
