(* ===== verification/Prelude.v ===== *)
(** * CxxKit: a verification development

    CxxKit is a C++ toolkit in the manner of Qt's core: an object tree with event
    loops, signals and slots, containers, numeric templates, units of measure, text
    codecs and task queues. This library models the parts that carry logic of their own
    and proves what makes them correct. A C++ object is an identifier into a heap when
    it is shared (objects, events, loops, slots, payloads) and a value when it is not;
    integers are [Z] with the wrap-around written where the code wraps; code that may go
    wrong returns [run] (below), so that "never [Undef]" is a statement of memory safety
    and "never [Timeout]" one of termination.

    ** The parts and their files

    - [Prelude] (this file): the outcome monad [run], its notations and lemmas, 64-bit
      [wrap], the facts about lists, the hint databases.
    - [CxxInt]: the exact-width integer types, promotions and the usual arithmetic
      conversions; the numeric templates are instantiated with these.
    - [SafeMath], [MinMax], [DivideRound], [SeqNum], [Bits]: [src/cxxkit/numerics]
      ([safe_compare.hpp], [safe_conversions.hpp], [safe_minmax.hpp],
      [divide_round.hpp], [sequence_number_util.hpp], [sequence_number_unwrapper.hpp],
      [bits.hpp]). [DivideRound] and [MinMax] use the comparisons of [SafeMath].
    - [Units], [UnitsFacts]: [src/cxxkit/units]; a unit is its 64-bit value with the two
      sentinels, an operator that fails a debug check is [Fatal].
    - [Base64], [Base64Codec]: [src/cxxkit/text/base64.cpp].
    - [BitBuffer] over [BitList]: [src/cxxkit/text/bit_buffer.cpp]; [BitReaderFacts],
      [BitWriterFacts] and [BitBufferCodec] hold its theorems. [BitList] is the
      specification side: a buffer is the string of its bits.
    - [RawHashSet], [RawHashSetFacts], [RawHashSetSpec]: the open-addressing table of
      [src/cxxkit/containers/detail/raw_hash_set.hpp].
    - [TaskQueue], [TaskQueueFacts]: [src/cxxkit/thread/task_queue_thread.cpp].
    - [Event], [Kernel]: [src/cxxkit/kernel/event.cpp], [object.cpp], [event_loop.cpp]:
      one heap of objects, events and loops. [KernelInv] states its invariants,
      [ObjectTree] (tree operations), [KernelDestroy] (the destructor), [KernelLoop]
      (posting, delivery, the loop) and [KernelMove] (migration) prove the operations,
      [KernelWitness] applies them to a concrete heap.
    - [CopyOnWrite], [Signals]: [src/cxxkit/kernel/signals.hpp]. [SignalsFacts] has the
      invariant and the operations, [SignalEmit] the contract of emission for arbitrary
      callables, [SignalCombine] the result-collecting emission, [SignalScripts]
      callables that are programs over the library, [SignalThreads] the interleavings of
      the thread-safe variant, [SignalWitness] the concrete states.
    - [StdSet]: an ordered [std::set] as a sorted list; [Chars]: buffers written by index.
    - [ThreadPool], [ThreadPoolFacts], [ThreadPoolSpec]: [src/cxxkit/thread/thread_pool.cpp]
      and its private header: the task queue, the starting of threads, the body of a pooled
      thread cut where it gives up the mutex, the operations and [reset]. [ThreadPoolFacts]
      proves each section, [ThreadPoolSpec] every interleaving.
    - [Crc32], [StringEncode]: [src/cxxkit/text/crc32.cpp] and [string_encode.cpp].
    - [IdRegistry], [Random]: [src/cxxkit/tools/id_registry.cpp] and [random.cpp].
    - [Ascii], [AsciiFacts]: [src/cxxkit/text/ascii.cpp] and [ascii.hpp]; [StrSplit]:
      [str_split.hpp], its delimiters as instances of a class; [DateTime]:
      [src/cxxkit/time/date_time.cpp]; [PercentileFilter]:
      [src/cxxkit/numerics/percentile_filter.hpp].
    - [Memory]: blocks of cells that may not have been written yet, the world of [Buffer]
      ([src/cxxkit/tools/buffer.hpp], theorems in [BufferFacts]). [RefCount]: the counted
      objects of [src/cxxkit/memory]. [SharedBuffer] puts the two together
      ([src/cxxkit/tools/shared_buffer.cpp]); [SharedBufferFacts] has its operations one
      by one, [SharedBufferSystem] programs over names that share buffers.
    - [Metrics], [MetricsFacts]: [src/cxxkit/tools/metrics.cpp] and the macros of
      [metrics.hpp].
    - [SocketTypes], [TcpSocket], [UdpSocket]: [src/cxxkit/network/tcp_socket.cpp] and
      [udp_socket.cpp] with the libuv backends of [network/detail]. [TcpSocketFacts] and
      [UdpSocketFacts] prove the calls for arbitrary callbacks, [TcpSocketRun] and
      [UdpSocketRun] the socket in its environment.
    - [UvDispatcher], [UvDispatcherFacts]: the driver behind the event loop,
      [src/cxxkit/kernel/uv/detail/uv_event_dispatcher.cpp].
    - [SpinLock], [OnceFlag], [Semaphore], [Barrier]: [src/cxxkit/thread/spinlock.hpp],
      [src/cxxkit/tools/once_flag.hpp], [src/cxxkit/thread/semaphore.hpp] and
      [barrier.hpp], each with its theorems; a turn of a thread is one access to the
      atomic, or one section under the mutex.
    - [FramePool]: [src/cxxkit/media/video_frame_buffer_pool.cpp] over [RefCount].

    ** How states and operations correspond

    Each operation has the name it has in the source, in the file listed above, and takes
    and returns the state explicitly. The kernel's [World] holds what the source reaches
    by pointers: [object_at] dereferences an [Object], [event_at] an [Event], [loop_at]
    an [EventLoop]; a dead one is [Undef]. The virtual functions an application may
    override, the callables it posts and the event dispatcher's back end are fields of
    [Kernel.hooks], about which a theorem assumes only what it names. The kernel's world also
    has a [history] that no code reads: the posted callables that were run and the events
    that were given to a receiver, from which [process_events_correct] tells what a round
    did; the task queue's [called] likewise is what the turns returned. In [Signals] a slot lives in
    a heap with strong references from the signals' lists and the running snapshots; the
    function it calls is the section's parameter [body], an arbitrary function on the
    state, so a callable may connect, disconnect, block, emit again or destroy what it
    likes; [SignalEmit.Body] is the interface between emission and callables, which may use
    every operation of the library but destroy no signal. [TaskQueue]
    and [SignalThreads] give the operations of other threads as rules of a step relation,
    one rule per section under the mutex; in [SignalThreads] a slot's disconnect is two
    steps, the exchange of its flag and the removal under the lock, and a callable is
    entered and left in steps of their own, with anything in between. A socket and its backend are two records that
    call each other as the source does; what the user gives them are finite trees of
    calls, libuv and the posted work of the program are parameters ([answer], [uv_run],
    [has_posted]; [SocketTypes.process_events] is what a round of the loop makes of them), and
    [reachable] says what a program and the network may do with them.

    ** What the theorems show

    - Memory safety and termination: destroying an object removes exactly its subtree and
      every reference to it ([delete_object_correct]); a round of events, [exec], moves
      between loops and tree searches end in a well-formed heap; the base64 decoder ends
      inside its input; bit readers and writers touch only their buffer.
      A call on a socket ends whatever its callbacks do short of destroying it, and never hands libuv a handle
      that is missing or closing ([socket_runs], [udp_runs]).
    - The driver of the event loop calls what is registered when it fires, keeps no
      handle open that is not registered, and closes all of them ([dispatcher_runs],
      [expired_is_called], [dispatcher_destroyed]); locks exclude, barriers hold back and
      semaphores count under every interleaving.
    - Invariants: parent and child links, filter registries, event queues, slot lists with
      their indices, the hash table's control bytes, the task queue's two sets and
      the thread pool's lists and counters are preserved by every operation, slots, tasks
      and pools under every interleaving.
      Every request made of a socket has exactly one answer or is still due.
    - Functional behaviour and refinement: buffers and shared buffers against lists of their
      elements, the metrics against a book of what was recorded, bit operations against the bit string, the hash
      table against the collection of its values, the copy-on-write container against
      independent values, unit sums against the integers with two infinities, safe
      comparisons against the integers, the lazy combiners against a fold over the calls,
      the percentile filter against sorting, the frame pool against owners of buffers, the seconds of a date against counting days.
    - Ordering: priorities of posted events, the order of tasks by time and number, the
      order of slot calls by group, at-most-once calls of one-shot slots, the order in which
      a socket writes.
    - Liveness: a task queue with nothing new runs everything once; a pool left alone comes
      to rest with nothing queued; a socket that is destroyed outside of libuv's callbacks
      closes its handle, given one idle round of the loop in its thousand, and a TCP socket
      answers what is due; inside of them it stops the program
      ([destroyed_in_callback_stops]).
    - Round trips: base64, hexadecimal text, the five bit encodings, sequence numbers,
      integers as text in every base, splitting and joining; a
      CRC-32 tells apart messages that differ in a burst of four bytes.
    - Where the code departs from its contract, a closed theorem shows the history, such as
      [erase_loses_other_key] and [bulk_disconnect_still_called].

    ** Bounds and fuel

    Loops whose end depends on the data take fuel: the probe loops of the hash table (the
    theorems show that one turn per control byte is enough when the table has an empty
    one, and that no fuel is enough when it has none), the tree walks of the kernel (as
    many turns as there are objects), delivery rounds (as many as queued events), the
    loops of the bit encodings and the decoder (the length of the input), the
    pool's loop that starts threads (the queue and the waiting threads), the signals'
    scripts (the nesting), the calls of a socket ([stimulus_weight], the size of the
    callbacks it holds; for UDP when the handlers of errors and states only watch, since a
    handler that retries a bind need not end). Each is covered by a theorem that a stated amount of fuel
    gives a result, so that no statement rests on the fuel running out. Sizes of
    containers and reference counts are unbounded where an overflow would need more
    objects than there are addresses.

    ** Not modelled

    Code whose whole effect is outside the program is not modelled: files, clocks, threads
    of the operating system, crash reporting, graphics and media bindings, TLS over
    mbedtls, HTTP over its client library, the asio backends and the dispatcher over Qt. Floating point is left out of the numeric templates, the units and the
    text conversions; in the percentile filter one product is rounded, and modelled so.
    Destructors of captured callables and of user data are taken to be silent, the type
    traits that pick an overload are resolved by hand, and debug printing, [to_string] and
    the preprocessor layer ([src/cxxkit/base]) have no counterpart. Callbacks that destroy
    the socket they belong to, callables that destroy the signal they are called from
    (but for closed examples), and application classes that override the virtual [event] are
    not modelled. [process_events] with a
    deadline is left to the driver's parameter. The delivery of queued connections
    ([connect_queued.hpp]) is glue of [Signals] and [Kernel] by templates without a state of
    their own; the containers that wrap those of the standard library add nothing to them.
*)

From stdpp Require Import prelude list numbers gmap.
From Stdlib Require Import ZArith Lia.

#[local] Open Scope Z_scope.

(** ** Outcome of running a piece of C++ code

    [Ret a]: the code returns [a]; [Undef]: it performs an operation whose
    behaviour the language leaves undefined (null dereference, access outside an
    array, read of a dead object, shift by the width or more); [Fatal]: a
    [CXXKIT_CHECK] fails and the process aborts; [Timeout]: the fuel that bounds a
    loop ran out. *)
Inductive run (A : Type) : Type :=
| Ret (a : A)
| Undef
| Fatal
| Timeout.
Arguments Ret {A} _.
Arguments Undef {A}.
Arguments Fatal {A}.
Arguments Timeout {A}.

Definition run_bind {A B : Type} (m : run A) (k : A -> run B) : run B :=
  match m with
  | Ret a => k a
  | Undef => Undef
  | Fatal => Fatal
  | Timeout => Timeout
  end.

Declare Scope cxx_scope.
Delimit Scope cxx_scope with cxx.
Notation "'do' x '<-' m ';' k" := (run_bind m (fun x => k))
  (at level 200, x pattern, m at level 100, k at level 200, right associativity) : cxx_scope.

(** [CXXKIT_CHECK(b)] *)
Definition check (b : bool) : run unit := if b then Ret tt else Fatal.

(** Read of an array cell or of a live object: [None] is undefined behaviour. *)
Definition deref {A : Type} (o : option A) : run A :=
  match o with Some a => Ret a | None => Undef end.

(** ** Machine integers

    A [w]-bit unsigned value is a [Z] in [0, 2^w); arithmetic wraps. *)
Definition wrap (w z : Z) : Z := z mod 2 ^ w.
Definition is_u (w z : Z) : Prop := 0 <= z < 2 ^ w.
Definition is_s (w z : Z) : Prop := - 2 ^ (w - 1) <= z < 2 ^ (w - 1).
Definition to_signed (w z : Z) : Z :=
  let u := z mod 2 ^ w in if u <? 2 ^ (w - 1) then u else u - 2 ^ w.

(** C++ left shift of a [w]-bit unsigned value: undefined when the shift count is
    not in [0, w). *)
Definition shl (w v n : Z) : run Z :=
  if (0 <=? n) && (n <? w) then Ret (wrap w (Z.shiftl v n)) else Undef.
Definition shr (w v n : Z) : run Z :=
  if (0 <=? n) && (n <? w) then Ret (Z.shiftr v n) else Undef.

(** ** Automation *)
Create HintDb cxx.

Ltac zbool :=
  repeat match goal with
  | H : (_ && _)%bool = true |- _ => apply andb_true_iff in H; destruct H
  | H : (_ || _)%bool = false |- _ => apply orb_false_iff in H; destruct H
  | H : (_ <? _) = true |- _ => apply Z.ltb_lt in H
  | H : (_ <? _) = false |- _ => apply Z.ltb_ge in H
  | H : (_ <=? _) = true |- _ => apply Z.leb_le in H
  | H : (_ <=? _) = false |- _ => apply Z.leb_gt in H
  | H : (_ =? _) = true |- _ => apply Z.eqb_eq in H
  | H : (_ =? _) = false |- _ => apply Z.eqb_neq in H
  | H : (_ >=? _) = _ |- _ => rewrite Z.geb_leb in H
  | H : (_ >? _) = _ |- _ => rewrite Z.gtb_ltb in H
  | H : negb _ = true |- _ => apply negb_true_iff in H
  | H : negb _ = false |- _ => apply negb_false_iff in H
  end.

(** Splits the boolean test of the goal's outermost conditional. *)
Ltac case_test :=
  match goal with
  | |- context [if ?b then _ else _] => destruct b eqn:?; zbool
  end.

(** ** Integers *)
Lemma pow2_pos (n : Z) : 0 <= n -> 0 < 2 ^ n.
Proof. intros. apply Z.pow_pos_nonneg; lia. Qed.
#[export] Hint Resolve pow2_pos : cxx.

Lemma wrap_small (w z : Z) : 0 <= z < 2 ^ w -> wrap w z = z.
Proof. apply Z.mod_small. Qed.

Lemma wrap_range (w z : Z) : 0 <= w -> is_u w (wrap w z).
Proof. intros. unfold is_u, wrap. apply Z.mod_pos_bound. auto with cxx. Qed.
#[export] Hint Resolve wrap_range : cxx.

Lemma land_ones_mod (a n : Z) : 0 <= n -> Z.land a (2 ^ n - 1) = a mod 2 ^ n.
Proof. intros. rewrite <- Z.land_ones by lia. rewrite Z.ones_equiv. f_equal. Qed.

Lemma lor_add (a b n : Z) : 0 <= n -> 0 <= b < 2 ^ n -> Z.lor (a * 2 ^ n) b = a * 2 ^ n + b.
Proof.
  intros Hn Hb. rewrite <- Z.lxor_lor; [symmetry; apply Z.add_nocarry_lxor|];
  apply Z.bits_inj'; intros i Hi; rewrite Z.land_spec, Z.bits_0;
  rewrite <- Z.shiftl_mul_pow2 by lia;
  (destruct (Z.lt_ge_cases i n);
   [rewrite Z.shiftl_spec_low by lia; reflexivity|
    rewrite <- (Z.mod_small b (2 ^ n)) by lia; rewrite Z.mod_pow2_bits_high by lia; apply andb_false_r]).
Qed.

Lemma mod_pow2_le (v n m : Z) : 0 <= n <= m -> (v mod 2 ^ m) mod 2 ^ n = v mod 2 ^ n.
Proof.
  intros. replace m with (n + (m - n)) by lia.
  rewrite Z.pow_add_r by lia. rewrite Z.rem_mul_r by (try apply Z.pow_nonzero; lia).
  rewrite Z.mul_comm, Z.mod_add by (apply Z.pow_nonzero; lia). apply Z.mod_mod. apply Z.pow_nonzero; lia.
Qed.

Lemma mod_div_pow2 (v a b : Z) : 0 <= a -> 0 <= b -> (v mod 2 ^ (a + b)) / 2 ^ a = (v / 2 ^ a) mod 2 ^ b.
Proof.
  intros. assert (2 ^ a <> 0) by (apply Z.pow_nonzero; lia).
  rewrite Z.pow_add_r, Z.rem_mul_r by (try apply Z.pow_nonzero; lia).
  rewrite (Z.mul_comm (2 ^ a)), Z.div_add, Z.div_small by (done || (apply Z.mod_pos_bound; auto with cxx)). lia.
Qed.

(** Unsigned values by their bits *)
Lemma bits_small (n v : Z) : 0 <= n -> is_u n v <-> (0 <= v /\ forall i, n <= i -> Z.testbit v i = false).
Proof.
  intros Hn. unfold is_u. split.
  - intros [H0 H1]. split; [done|]. intros i Hi. rewrite <- (Z.mod_small v (2 ^ n)) by lia. apply Z.mod_pow2_bits_high. lia.
  - intros [H0 H]. split; [done|]. destruct (Z.lt_ge_cases v (2 ^ n)) as [|Hge]; [done|]. exfalso.
    assert (Hpos : 0 < v) by (pose proof (pow2_pos n Hn); lia).
    assert (Hlog : n <= Z.log2 v) by (apply Z.log2_le_pow2; lia).
    pose proof (Z.bit_log2 v Hpos) as Hb. rewrite (H _ Hlog) in Hb. done.
Qed.

Lemma is_u_lxor (n a b : Z) : 0 <= n -> is_u n a -> is_u n b -> is_u n (Z.lxor a b).
Proof.
  intros Hn [Ha Ha']%bits_small [Hb Hb']%bits_small; try done. apply bits_small; [done|]. split; [by apply Z.lxor_nonneg|].
  intros i Hi. by rewrite Z.lxor_spec, Ha', Hb'.
Qed.

Lemma is_u_shiftr (n a k : Z) : 0 <= n -> 0 <= k -> is_u n a -> is_u n (Z.shiftr a k).
Proof.
  intros Hn Hk [Ha Ha']%bits_small; [|done]. apply bits_small; [done|]. split; [by apply Z.shiftr_nonneg|].
  intros i Hi. rewrite Z.shiftr_spec by lia. apply Ha'. lia.
Qed.

(** A decidable property of a small range of integers, checked by evaluation. *)
Lemma Z_range_check (n : nat) (P : Z -> bool) :
  forallb P (Z.of_nat <$> seq 0 n) = true -> forall k, 0 <= k < Z.of_nat n -> P k = true.
Proof.
  intros H k Hk. rewrite forallb_forall in H. apply H.
  apply list_elem_of_In, list_elem_of_fmap. exists (Z.to_nat k).
  split; [lia|]. apply elem_of_seq. lia.
Qed.

(** ** Lists *)
Lemma take_drop_split {A} (n : nat) (l : list A) : l = take n l ++ drop n l.
Proof. symmetry. apply take_drop. Qed.

Lemma filter_all {A} (P : A -> Prop) `{forall x, Decision (P x)} (l : list A) : Forall P l -> filter P l = l.
Proof. induction 1 as [|x l Hx Hl IH]; [done|]. rewrite filter_cons, decide_True by done. by rewrite IH. Qed.

Lemma filter_none {A} (P : A -> Prop) `{forall x, Decision (P x)} (l : list A) : Forall (fun x => ~ P x) l -> filter P l = [].
Proof. induction 1 as [|x l Hx Hl IH]; [done|]. by rewrite filter_cons, decide_False. Qed.
