(* ===== verification/StdSet.v ===== *)
(** * Ordered sets

    A [std::set] with its comparison object is the list of its elements in order. The
    components that queue work share its insertion and the loop that erases the elements
    a predicate selects. *)

From stdpp Require Import prelude list sorting.
From S2P Require Import Prelude.

(** [std::set::insert]: in order, nothing when an equivalent element is there. *)
Fixpoint set_insert {A : Type} (lt : A -> A -> bool) (x : A) (l : list A) : list A :=
  match l with
  | [] => [x]
  | y :: l' => if lt x y then x :: l else if lt y x then y :: set_insert lt x l' else l
  end.

(** The loop over iterators that erases the elements with [P]: the elements kept, and
    whether one was erased. *)
Fixpoint erase_if {A : Type} (P : A -> Prop) `{forall x, Decision (P x)} (l : list A) : list A * bool :=
  match l with
  | [] => ([], false)
  | e :: l' =>
      let (kept, erased) := erase_if P l' in
      if decide (P e) then (kept, true) else (e :: kept, erased)
  end.

Section SetInsert.
Context {A : Type} (lt : A -> A -> bool) (R : A -> A -> Prop) (HR : forall x y, lt x y = true <-> R x y) `{!Transitive R}.
Context (x : A) (l : list A) (Hcmp : Forall (fun y => R x y \/ R y x) l).

Lemma set_insert_perm : set_insert lt x l ≡ₚ x :: l.
Proof using HR Hcmp.
  induction Hcmp as [|y l' Hy Hl IH]; [done|]. cbn [set_insert].
  destruct (lt x y) eqn:E; [done|]. destruct (lt y x) eqn:E'; [rewrite (IH Hl); apply perm_swap|].
  destruct Hy as [H|H]; apply HR in H; congruence.
Qed.

Lemma set_insert_sorted : StronglySorted R l -> StronglySorted R (set_insert lt x l).
Proof using HR Hcmp Transitive0.
  intros Hs. induction Hs as [|y l' Hs IH Hy]; cbn [set_insert]; [repeat constructor|].
  inversion Hcmp as [|? ? Hxy Hl]; subst.
  destruct (lt x y) eqn:E.
  - apply HR in E. constructor; [by constructor|]. constructor; [done|].
    eapply Forall_impl; [exact Hy|]. intros z Hz. by transitivity y.
  - destruct (lt y x) eqn:E'; [|by constructor]. constructor; [by apply IH|].
    apply HR in E'. assert (Hp : set_insert lt x l' ≡ₚ x :: l').
    { clear -HR Hl. induction Hl as [|y l' Hy Hl IH]; [done|]. cbn [set_insert].
      destruct (lt x y) eqn:E; [done|]. destruct (lt y x) eqn:E'; [rewrite IH; apply perm_swap|].
      destruct Hy as [H|H]; apply HR in H; congruence. }
    rewrite Hp. by constructor.
Qed.
End SetInsert.

Lemma StronglySorted_filter {A} (R : A -> A -> Prop) (P : A -> Prop) `{forall x, Decision (P x)} (l : list A) :
  StronglySorted R l -> StronglySorted R (filter P l).
Proof.
  induction 1 as [|y l Hs IH Hy]; [constructor|]. rewrite filter_cons. destruct (decide (P y)); [|done].
  constructor; [done|]. rewrite Forall_forall in Hy |- *. intros z [_ Hz]%list_elem_of_filter. by apply Hy.
Qed.

Lemma erase_if_spec {A} (P : A -> Prop) `{forall x, Decision (P x)} (l : list A) :
  erase_if P l = (filter (fun e => ~ P e) l, bool_decide (Exists P l)).
Proof.
  induction l as [|e l IH]; [done|]. cbn [erase_if]. rewrite IH, filter_cons. destruct (decide (P e)) as [E|E].
  - rewrite decide_False by tauto. f_equal. symmetry. apply bool_decide_eq_true. by left.
  - rewrite decide_True by done. f_equal. apply bool_decide_ext. rewrite Exists_cons. tauto.
Qed.
