(* ===== verification/CxxInt.v ===== *)
(** * The integer types of the language

    The eight exact-width integer types, their limits, value conversion, integral
    promotion and the usual arithmetic conversions, and the arithmetic operators
    on typed values: what the numeric templates of [src/cxxkit/numerics] are
    instantiated with. [int] is 32 bits wide and a pointer 8 bytes, as on the
    targets of the build. *)

From stdpp Require Import prelude.
From Stdlib Require Import ZArith Lia.
From S2P Require Import Prelude.

#[local] Open Scope Z_scope.
#[local] Open Scope cxx_scope.

(** ** Types *)
Inductive itype := I8 | I16 | I32 | I64 | U8 | U16 | U32 | U64.

#[export] Instance itype_eq_dec : EqDecision itype.
Proof. solve_decision. Defined.

Definition all_itypes : list itype := [I8; I16; I32; I64; U8; U16; U32; U64].

Definition sizeof (T : itype) : Z :=
  match T with I8 | U8 => 1 | I16 | U16 => 2 | I32 | U32 => 4 | I64 | U64 => 8 end.

Definition is_signed (T : itype) : bool :=
  match T with I8 | I16 | I32 | I64 => true | _ => false end.

Definition make_unsigned_t (T : itype) : itype :=
  match T with I8 | U8 => U8 | I16 | U16 => U16 | I32 | U32 => U32 | I64 | U64 => U64 end.

(** [std::numeric_limits<T>::lowest()] and [::max()] *)
Definition lowest (T : itype) : Z := if is_signed T then - 2 ^ (8 * sizeof T - 1) else 0.
Definition max (T : itype) : Z := if is_signed T then 2 ^ (8 * sizeof T - 1) - 1 else 2 ^ (8 * sizeof T) - 1.

Definition in_type (T : itype) (z : Z) : Prop := lowest T <= z <= max T.
Definition in_typeb (T : itype) (z : Z) : bool := (lowest T <=? z) && (z <=? max T).

(** [static_cast<T>(z)]: the value of the type congruent to [z]. *)
Definition convert (T : itype) (z : Z) : Z :=
  if is_signed T then to_signed (8 * sizeof T) z else wrap (8 * sizeof T) z.

(** Integral promotion: what is narrower than [int] becomes [int]. *)
Definition promote (T : itype) : itype :=
  match T with I8 | I16 | U8 | U16 => I32 | _ => T end.

(** The usual arithmetic conversions on two promoted types. *)
Definition common_type (T1 T2 : itype) : itype :=
  let P := promote T1 in let Q := promote T2 in
  if sizeof P <? sizeof Q then Q
  else if sizeof Q <? sizeof P then P
  else if is_signed P then Q else P.

(** ** Typed values *)
Record tval := TV { ty : itype; val : Z }.

Definition well_typed (a : tval) : Prop := in_type (ty a) (val a).

Definition cast (T : itype) (a : tval) : tval := TV T (convert T (val a)).
Definition unary_plus (a : tval) : tval := TV (promote (ty a)) (val a).

(** An arithmetic result of type [T]: unsigned types wrap, signed overflow is
    undefined. *)
Definition arith (T : itype) (z : Z) : run tval :=
  if is_signed T then (if in_typeb T z then Ret (TV T z) else Undef)
  else Ret (TV T (convert T z)).

Definition binary (f : Z -> Z -> Z) (a b : tval) : run tval :=
  let C := common_type (ty a) (ty b) in
  arith C (f (convert C (val a)) (convert C (val b))).

Definition add := binary Z.add.
Definition sub := binary Z.sub.

Definition div (a b : tval) : run tval :=
  let C := common_type (ty a) (ty b) in
  if convert C (val b) =? 0 then Undef
  else arith C (Z.quot (convert C (val a)) (convert C (val b))).

(** The remainder is undefined exactly where the quotient is. *)
Definition modulo (a b : tval) : run tval :=
  let C := common_type (ty a) (ty b) in
  do _ <- div a b;
  Ret (TV C (Z.rem (convert C (val a)) (convert C (val b)))).

Definition opp (a : tval) : run tval :=
  let P := promote (ty a) in arith P (- val a).

(** [++x] and [--x] on a promoted type. *)
Definition increment (a : tval) : run tval := arith (ty a) (val a + 1).
Definition decrement (a : tval) : run tval := arith (ty a) (val a - 1).

(** A literal of type [int]. *)
Definition int (z : Z) : tval := TV I32 z.

(** A built-in comparison operator: both sides are converted to the common type. *)
Definition compare (op : Z -> Z -> bool) (a b : tval) : bool :=
  let C := common_type (ty a) (ty b) in
  op (convert C (val a)) (convert C (val b)).

(** ** Facts *)
Lemma in_typeb_spec (T : itype) (z : Z) : in_typeb T z = true <-> in_type T z.
Proof. unfold in_typeb, in_type. rewrite andb_true_iff, !Z.leb_le. done. Qed.

Ltac types_by_cases :=
  repeat match goal with T : itype |- _ => destruct T end.

(** Opens the limits of a type that is a constructor. *)
Ltac limits := unfold well_typed, in_type, lowest, max in *; cbn in *.

Lemma sizeof_pos (T : itype) : 0 < sizeof T.
Proof. destruct T; cbn; lia. Qed.

Lemma to_signed_id (w z : Z) : 0 < w -> is_s w z -> to_signed w z = z.
Proof.
  intros Hw [Hl Hu]. unfold to_signed. cbv zeta.
  assert (E : 2 ^ w = 2 * 2 ^ (w - 1)) by (rewrite <- Z.pow_succ_r by lia; f_equal; lia).
  destruct (Z.lt_ge_cases z 0).
  - replace (z mod 2 ^ w) with (z + 2 ^ w);
      [destruct (Z.ltb_spec (z + 2 ^ w) (2 ^ (w - 1))); lia|].
    apply (Z.mod_unique _ _ (-1)); lia.
  - rewrite Z.mod_small by lia. destruct (Z.ltb_spec z (2 ^ (w - 1))); lia.
Qed.

Lemma to_signed_range (w z : Z) : 0 < w -> is_s w (to_signed w z).
Proof.
  intros Hw. unfold to_signed, is_s. cbv zeta.
  assert (E : 2 ^ w = 2 * 2 ^ (w - 1)) by (rewrite <- Z.pow_succ_r by lia; f_equal; lia).
  pose proof (Z.mod_pos_bound z (2 ^ w) (pow2_pos w ltac:(lia))).
  destruct (Z.ltb_spec (z mod 2 ^ w) (2 ^ (w - 1))); lia.
Qed.

Lemma convert_id (T : itype) (z : Z) : in_type T z -> convert T z = z.
Proof.
  intros H. unfold convert. pose proof (sizeof_pos T). destruct (is_signed T) eqn:E.
  - apply to_signed_id; [lia|]. unfold in_type, lowest, max in H. rewrite E in H. unfold is_s. lia.
  - apply wrap_small. unfold in_type, lowest, max in H. rewrite E in H. lia.
Qed.

Lemma convert_range (T : itype) (z : Z) : in_type T (convert T z).
Proof.
  unfold convert, in_type, lowest, max. pose proof (sizeof_pos T). destruct (is_signed T).
  - pose proof (to_signed_range (8 * sizeof T) z ltac:(lia)) as H'. unfold is_s in H'. lia.
  - pose proof (wrap_range (8 * sizeof T) z ltac:(lia)) as H'. unfold is_u in H'. lia.
Qed.
#[export] Hint Resolve convert_range : cxx.

Lemma convert_mod (T : itype) (z : Z) : convert T z mod 2 ^ (8 * sizeof T) = z mod 2 ^ (8 * sizeof T).
Proof.
  unfold convert, to_signed, wrap. pose proof (sizeof_pos T).
  assert (0 < 2 ^ (8 * sizeof T)) by (apply pow2_pos; lia).
  destruct (is_signed T); cbv zeta; [destruct (_ <? _)|]; rewrite ?Z.mod_mod by lia; try done.
  rewrite <- (Z.mod_add _ 1) by lia. rewrite Z.mul_1_l, Z.sub_add. apply Z.mod_mod. lia.
Qed.

(** A promoted value is unchanged. *)
Lemma promote_in (T : itype) (z : Z) : in_type T z -> in_type (promote T) z.
Proof. destruct T; limits; lia. Qed.
#[export] Hint Resolve promote_in : cxx.

Lemma promote_idem (T : itype) : promote (promote T) = promote T.
Proof. by destruct T. Qed.

Lemma common_type_promoted (T1 T2 : itype) : promote (common_type T1 T2) = common_type T1 T2.
Proof. by destruct T1, T2. Qed.

(** The common type represents the non-negative values of both types; it represents
    all of them when it is signed. *)
Lemma common_in_l (T1 T2 : itype) (z : Z) :
  in_type T1 z -> 0 <= z \/ is_signed (common_type T1 T2) = true -> in_type (common_type T1 T2) z.
Proof. intros H [H0|H0]; destruct T1, T2; try discriminate H0; clear -H H0; limits; lia. Qed.

Lemma common_in_r (T1 T2 : itype) (z : Z) :
  in_type T2 z -> 0 <= z \/ is_signed (common_type T1 T2) = true -> in_type (common_type T1 T2) z.
Proof. intros H [H0|H0]; destruct T1, T2; try discriminate H0; clear -H H0; limits; lia. Qed.

Lemma arith_in (T : itype) (z : Z) : in_type T z -> arith T z = Ret (TV T z).
Proof.
  intros H. unfold arith. rewrite (proj2 (in_typeb_spec T z) H), convert_id by done. by destruct (is_signed T).
Qed.

Lemma in_type_0 (T : itype) : in_type T 0.
Proof. destruct T; limits; lia. Qed.
#[export] Hint Resolve in_type_0 : cxx.

Lemma in_type_le (T : itype) (x z : Z) : 0 <= x <= z -> in_type T z -> in_type T x.
Proof. intros Hx [_ H]. split; [|lia]. destruct (in_type_0 T). lia. Qed.

(** Between two values of a type lie only values of the type. *)
Lemma in_type_between (T : itype) (lo hi z : Z) : lo <= z <= hi -> in_type T lo -> in_type T hi -> in_type T z.
Proof. unfold in_type. lia. Qed.
