(* ===== verification/SafeMath.v ===== *)
(** * Comparisons, conversions, minimum and maximum across integer types

    Models [src/cxxkit/numerics/safe_compare.hpp], [safe_conversions.hpp],
    [safe_minmax.hpp] and [divide_round.hpp] on the integer types. What a template
    decides at compile time is a function of its type arguments; a failing
    [static_assert] is [None]. *)

From stdpp Require Import prelude.
From Stdlib Require Import ZArith Lia.
From S2P Require Import Prelude CxxInt.

#[local] Open Scope Z_scope.
#[local] Open Scope cxx_scope.

(** ** safe_compare.hpp *)
Module SafeCompare.

(** [LargerIntImpl<N>]: the signed type twice as wide as [N] bytes. *)
Definition LargerIntImpl (n : Z) : option itype :=
  if n =? sizeof I8 then Some I16
  else if n =? sizeof I16 then Some I32
  else if n =? sizeof I32 then Some I64
  else None.

Definition sizeof_pointer : Z := 8.

Definition LargerInt (T1 T2 : itype) : option itype :=
  LargerIntImpl (if (sizeof T1 <? sizeof T2) || (sizeof T1 <? sizeof_pointer) then sizeof T1 else 0).

Definition make_unsigned (a : tval) : tval := cast (make_unsigned_t (ty a)) a.

(** The overloads of [cmp], chosen by the signedness of the two types and by
    whether a larger signed type exists. *)
Definition cmp (op : Z -> Z -> bool) (a b : tval) : bool :=
  if Bool.eqb (is_signed (ty a)) (is_signed (ty b)) then compare op a b
  else if is_signed (ty a) then
    match LargerInt (ty b) (ty a) with
    | Some L => compare op a (cast L b)
    | None => if val a <? 0 then compare op (int (-1)) (int 0) else compare op (make_unsigned a) b
    end
  else
    match LargerInt (ty a) (ty b) with
    | Some L => compare op (cast L a) b
    | None => if val b <? 0 then compare op (int 0) (int (-1)) else compare op a (make_unsigned b)
    end.

Definition safe (op : Z -> Z -> bool) (a b : tval) : bool := cmp op (unary_plus a) (unary_plus b).

Definition safe_eq := safe Z.eqb.
Definition safe_ne := safe (fun x y => negb (x =? y)).
Definition safe_lt := safe Z.ltb.
Definition safe_le := safe Z.leb.
Definition safe_gt := safe Z.gtb.
Definition safe_ge := safe Z.geb.

(** An operator that the sign of its operands decides when one of them is negative. *)
Class SignOp (op : Z -> Z -> bool) : Prop := {
  neg_l : forall a b, a < 0 -> 0 <= b -> op a b = op (-1) 0;
  neg_r : forall a b, 0 <= a -> b < 0 -> op a b = op 0 (-1);
}.

#[export] Instance eq_SignOp : SignOp Z.eqb.
Proof. split; intros a b Ha Hb; cbn; apply Z.eqb_neq; lia. Qed.
#[export] Instance ne_SignOp : SignOp (fun x y => negb (x =? y)).
Proof. split; intros a b Ha Hb; cbn; apply negb_true_iff, Z.eqb_neq; lia. Qed.
#[export] Instance lt_SignOp : SignOp Z.ltb.
Proof. split; intros a b Ha Hb; cbn; [apply Z.ltb_lt|apply Z.ltb_ge]; lia. Qed.
#[export] Instance le_SignOp : SignOp Z.leb.
Proof. split; intros a b Ha Hb; cbn; [apply Z.leb_le|apply Z.leb_gt]; lia. Qed.
#[export] Instance gt_SignOp : SignOp Z.gtb.
Proof. split; intros a b Ha Hb; cbn; rewrite Z.gtb_ltb; [apply Z.ltb_ge|apply Z.ltb_lt]; lia. Qed.
#[export] Instance ge_SignOp : SignOp Z.geb.
Proof. split; intros a b Ha Hb; cbn; rewrite Z.geb_leb; [apply Z.leb_gt|apply Z.leb_le]; lia. Qed.

(** A comparison whose common type holds both values compares the values. *)
Lemma compare_exact (op : Z -> Z -> bool) (T1 T2 : itype) (a b : Z) :
  in_type (common_type T1 T2) a -> in_type (common_type T1 T2) b ->
  compare op (TV T1 a) (TV T2 b) = op a b.
Proof. intros Ha Hb. unfold compare. cbn [ty val]. by rewrite !convert_id. Qed.

Lemma unsigned_nonneg (T : itype) (z : Z) : is_signed T = false -> in_type T z -> 0 <= z.
Proof. intros E [H _]. unfold lowest in H. by rewrite E in H. Qed.

(** The comparison of two promoted values is the comparison of the integers. *)
Lemma cmp_exact (op : Z -> Z -> bool) `{SignOp op} (a b : tval) :
  well_typed a -> well_typed b -> promote (ty a) = ty a -> promote (ty b) = ty b ->
  cmp op a b = op (val a) (val b).
Proof.
  destruct a as [T1 a], b as [T2 b]. unfold well_typed. cbn [ty val]. intros Ha Hb P1 P2.
  unfold cmp. cbn [ty val].
  destruct (Bool.eqb_spec (is_signed T1) (is_signed T2)) as [E|E].
  { apply compare_exact; destruct T1, T2; try discriminate; clear -Ha Hb; limits; lia. }
  destruct (is_signed T1) eqn:E1; destruct (is_signed T2) eqn:E2; try congruence; clear E.
  - destruct (LargerInt T2 T1) as [L|] eqn:EL.
    + unfold cast. cbn [ty val].
      assert (in_type L b) by (destruct T2, T1; try discriminate; injection EL as <-; clear -Hb; limits; lia).
      rewrite convert_id by done.
      apply compare_exact; destruct T1, T2; try discriminate; injection EL as <-; clear -Ha Hb; limits; lia.
    + pose proof (unsigned_nonneg _ _ E2 Hb) as Hb0.
      destruct (Z.ltb_spec a 0) as [Hn|Hn]; [by rewrite (neg_l (op:=op) a b Hn Hb0)|].
      unfold make_unsigned, cast. cbn [ty val].
      rewrite convert_id by (destruct T1; try discriminate; clear -Ha Hn; limits; lia).
      apply compare_exact; destruct T1, T2; try discriminate; clear -Ha Hb Hn; limits; lia.
  - destruct (LargerInt T1 T2) as [L|] eqn:EL.
    + unfold cast. cbn [ty val].
      assert (in_type L a) by (destruct T2, T1; try discriminate; injection EL as <-; clear -Ha; limits; lia).
      rewrite convert_id by done.
      apply compare_exact; destruct T1, T2; try discriminate; injection EL as <-; clear -Ha Hb; limits; lia.
    + pose proof (unsigned_nonneg _ _ E1 Ha) as Ha0.
      destruct (Z.ltb_spec b 0) as [Hn|Hn]; [by rewrite (neg_r (op:=op) a b Ha0 Hn)|].
      unfold make_unsigned, cast. cbn [ty val].
      rewrite convert_id by (destruct T2; try discriminate; clear -Hb Hn; limits; lia).
      apply compare_exact; destruct T1, T2; try discriminate; clear -Ha Hb Hn; limits; lia.
Qed.

Lemma safe_exact (op : Z -> Z -> bool) `{SignOp op} (a b : tval) :
  well_typed a -> well_typed b -> safe op a b = op (val a) (val b).
Proof.
  intros Ha Hb. unfold safe. rewrite cmp_exact; try done; unfold unary_plus, well_typed; cbn [ty val];
    auto using promote_idem with cxx.
Qed.

(** Each of the six [safe_] comparisons on any two integer types gives the
    comparison of the mathematical values of its arguments, whatever their
    signedness and width. *)
Theorem safe_compare_correct (a b : tval) :
  well_typed a -> well_typed b ->
  safe_eq a b = (val a =? val b) /\ safe_ne a b = negb (val a =? val b) /\
  safe_lt a b = (val a <? val b) /\ safe_le a b = (val a <=? val b) /\
  safe_gt a b = (val a >? val b) /\ safe_ge a b = (val a >=? val b).
Proof.
  intros Ha Hb. unfold safe_eq, safe_ne, safe_lt, safe_le, safe_gt, safe_ge.
  rewrite (safe_exact (fun x y => negb (x =? y)) a b Ha Hb).
  by rewrite !(safe_exact _ a b Ha Hb).
Qed.

Lemma safe_compare_correct_witness :
  safe_lt (TV I64 (-1)) (TV U64 (2 ^ 64 - 1)) = true /\ compare Z.ltb (TV I64 (-1)) (TV U64 (2 ^ 64 - 1)) = false.
Proof.
  split; [|reflexivity].
  refine (proj1 (proj2 (proj2 (safe_compare_correct (TV I64 (-1)) (TV U64 (2 ^ 64 - 1)) _ _)))); split; cbn; lia.
Defined.

End SafeCompare.

(** ** safe_conversions.hpp *)
Module SafeConversions.

Inductive DstRange := OVERLAPS_RANGE | CONTAINS_RANGE.

Definition max_exponent (T : itype) : Z := if is_signed T then sizeof T * 8 - 1 else sizeof T * 8.

(** [StaticRangeCheck<Dst, Src>::value] *)
Definition StaticRangeCheck (Dst Src : itype) : DstRange :=
  match is_signed Dst, is_signed Src with
  | true, true => if sizeof Dst * 8 - 1 >=? sizeof Src * 8 - 1 then CONTAINS_RANGE else OVERLAPS_RANGE
  | false, false => if sizeof Dst >=? sizeof Src then CONTAINS_RANGE else OVERLAPS_RANGE
  | true, false => if sizeof Dst * 8 - 1 >=? sizeof Src * 8 then CONTAINS_RANGE else OVERLAPS_RANGE
  | false, true => OVERLAPS_RANGE
  end.

Inductive RangeCheckResult := TYPE_VALID | TYPE_UNDERFLOW | TYPE_OVERFLOW | TYPE_INVALID.

(** [BASE_NUMERIC_RANGE_CHECK_RESULT]: the two flags or'ed together. *)
Definition range_check_result (in_upper in_lower : bool) : RangeCheckResult :=
  match in_upper, in_lower with
  | true, true => TYPE_VALID
  | true, false => TYPE_UNDERFLOW
  | false, true => TYPE_OVERFLOW
  | false, false => TYPE_INVALID
  end.

(** [RangeCheckImpl<Dst, Src>::check] at integer types: comparisons at type [Src]
    against limits of [Dst] cast to [Src]. *)
Definition range_check (Dst : itype) (value : tval) : RangeCheckResult :=
  let Src := ty value in
  let le_max := compare Z.leb value (TV Src (convert Src (max Dst))) in
  let ge_min := compare Z.geb value (TV Src (convert Src (lowest Dst))) in
  let ge_zero := compare Z.geb value (TV Src (convert Src 0)) in
  match StaticRangeCheck Dst Src with
  | CONTAINS_RANGE => TYPE_VALID
  | OVERLAPS_RANGE =>
      match is_signed Dst, is_signed Src with
      | true, true => range_check_result le_max ge_min
      | false, false => range_check_result le_max true
      | true, false => if sizeof Dst >? sizeof Src then TYPE_VALID else range_check_result le_max true
      | false, true =>
          if sizeof Dst * 8 >=? sizeof Src * 8 - 1 then range_check_result true ge_zero
          else range_check_result le_max ge_zero
      end
  end.

Definition is_value_in_range_for_numeric_type (Dst : itype) (value : tval) : bool :=
  match range_check Dst value with TYPE_VALID => true | _ => false end.

(** The range test of both is commented out in the source. *)
Definition checked_cast (Dst : itype) (value : tval) : tval := cast Dst value.
Definition dchecked_cast (Dst : itype) (value : tval) : tval := cast Dst value.

Definition saturated_cast (Dst : itype) (value : tval) : run tval :=
  match range_check Dst value with
  | TYPE_VALID => Ret (cast Dst value)
  | TYPE_UNDERFLOW => Ret (TV Dst (lowest Dst))
  | TYPE_OVERFLOW => Ret (TV Dst (max Dst))
  | TYPE_INVALID => Fatal
  end.

Lemma compare_same (op : Z -> Z -> bool) (T : itype) (a b : Z) :
  in_type T a -> in_type T b -> compare op (TV T a) (TV T b) = op a b.
Proof. intros Ha Hb. apply SafeCompare.compare_exact; destruct T; clear -Ha Hb; limits; lia. Qed.

(** The range test classifies the value against the limits of the destination. *)
Lemma range_check_spec (Dst : itype) (value : tval) :
  well_typed value ->
  range_check Dst value = range_check_result (val value <=? max Dst) (lowest Dst <=? val value).
Proof.
  destruct value as [Src v]. unfold well_typed. cbn [ty val]. intros Hv. unfold range_check. cbn [ty val].
  rewrite !compare_same by auto with cxx. rewrite !Z.geb_leb. rewrite (convert_id Src 0) by auto with cxx.
  destruct Dst, Src; cbn [StaticRangeCheck is_signed sizeof];
    repeat match goal with |- context [?x >=? ?y] => let b := eval vm_compute in (x >=? y) in
                                                     change (x >=? y) with b; cbv iota end;
    repeat match goal with |- context [?x >? ?y] => let b := eval vm_compute in (x >? y) in
                                                    change (x >? y) with b; cbv iota end;
    rewrite ?convert_id by (split; cbn; lia);
    limits; unfold range_check_result;
    repeat match goal with |- context [?x <=? ?y] => destruct (Z.leb_spec x y); try lia end; reflexivity.
Qed.

(** A saturated cast returns the value of the destination type nearest to its
    argument, for every pair of integer types; the branch that aborts the process is
    not taken. *)
Theorem saturated_cast_correct (Dst : itype) (value : tval) :
  well_typed value ->
  saturated_cast Dst value = Ret (TV Dst (Z.max (lowest Dst) (Z.min (val value) (max Dst)))) /\
  is_value_in_range_for_numeric_type Dst value = in_typeb Dst (val value).
Proof.
  intros Hv. unfold saturated_cast, is_value_in_range_for_numeric_type, in_typeb. rewrite range_check_spec by done.
  assert (lowest Dst <= max Dst) by (destruct Dst; cbn; lia).
  destruct (Z.leb_spec (val value) (max Dst)), (Z.leb_spec (lowest Dst) (val value)); cbn [range_check_result];
    split; try done; try lia; do 2 f_equal; try lia.
  unfold cast. rewrite convert_id by (split; lia). f_equal. lia.
Qed.

Lemma saturated_cast_correct_witness : saturated_cast U8 (TV I32 300) = Ret (TV U8 255).
Proof. exact (proj1 (saturated_cast_correct U8 (TV I32 300) ltac:(split; cbn; lia))). Defined.

(** The cast documented to abort on a value out of range returns it reduced modulo
    the width. *)
Lemma checked_cast_unchecked :
  is_value_in_range_for_numeric_type U8 (TV I32 300) = false /\ checked_cast U8 (TV I32 300) = TV U8 44.
Proof. split; reflexivity. Qed.

End SafeConversions.
