(* ===== verification/MinMax.v ===== *)
(** * Minimum, maximum and clamping across integer types

    Models [src/cxxkit/numerics/safe_minmax.hpp] on the integer types, over [SafeMath.SafeCompare]. *)

From stdpp Require Import prelude.
From Stdlib Require Import ZArith Lia.
From S2P Require Import Prelude CxxInt SafeMath.
Import SafeCompare.

#[local] Open Scope Z_scope.
#[local] Open Scope cxx_scope.

(** ** safe_minmax.hpp *)
Module SafeMinMax.

(** [Limits<T>::lowest] and [Limits<T>::max]: constants of type [T]. *)
Definition Limits_lowest (T : itype) : tval := TV T (lowest T).
Definition Limits_max (T : itype) : tval := TV T (max T).

(** [MType<T1, T2>::min_t]: the type with the lowest minimum, on a tie the one with
    the lowest maximum. *)
Definition min_t (T1 T2 : itype) : itype :=
  if safe_lt (Limits_lowest T1) (Limits_lowest T2) then T1
  else if safe_gt (Limits_lowest T1) (Limits_lowest T2) then T2
  else if safe_le (Limits_max T1) (Limits_max T2) then T1 else T2.

(** [MType<T1, T2>::max_t] *)
Definition max_t (T1 T2 : itype) : itype :=
  if safe_ge (Limits_max T1) (Limits_max T2) then T1 else T2.

(** [TypeOr<A, B>]: the requested type or the default one; [None] is the
    [static_assert] on its range. *)
Definition TypeOr (A : option itype) (B : itype) : option itype :=
  let type := default B A in
  if safe_le (Limits_lowest type) (Limits_lowest B) && safe_ge (Limits_max type) (Limits_max B)
  then Some type else None.

Definition safe_min_as (R2 : itype) (a b : tval) : tval := if safe_lt a b then cast R2 a else cast R2 b.
Definition safe_max_as (R2 : itype) (a b : tval) : tval := if safe_gt a b then cast R2 a else cast R2 b.

Definition safe_min (R : option itype) (a b : tval) : option tval :=
  R2 ← TypeOr R (min_t (ty a) (ty b)); Some (safe_min_as R2 a b).
Definition safe_max (R : option itype) (a b : tval) : option tval :=
  R2 ← TypeOr R (max_t (ty a) (ty b)); Some (safe_max_as R2 a b).

(** [ClampType<T, L, H>] *)
Definition r_min (T L H : itype) : option tval :=
  m ← safe_min None (Limits_lowest H) (Limits_lowest T); safe_max None (Limits_lowest L) m.
Definition r_max (T L H : itype) : option tval :=
  m ← safe_max None (Limits_max L) (Limits_max T); safe_min None (Limits_max H) m.

Definition AcceptableType (T L H A : itype) : bool :=
  let not_too_large := (sizeof A <=? sizeof L) || (sizeof A <=? sizeof H) || (sizeof A <=? sizeof T) in
  let range_contained :=
    match r_min T L H, r_max T L H with
    | Some lo, Some hi => safe_le (Limits_lowest A) lo && safe_le hi (Limits_max A)
    | _, _ => false
    end in
  not_too_large && range_contained.

Definition best_signed_type (T L H : itype) : itype :=
  if AcceptableType T L H I8 then I8
  else if AcceptableType T L H I16 then I16
  else if AcceptableType T L H I32 then I32 else I64.

Definition best_unsigned_type (T L H : itype) : itype :=
  if AcceptableType T L H U8 then U8
  else if AcceptableType T L H U16 then U16
  else if AcceptableType T L H U32 then U32 else U64.

Definition ClampType (T L H : itype) : option itype :=
  let type :=
    if is_signed T then
      if AcceptableType T L H (best_signed_type T L H) then best_signed_type T L H else best_unsigned_type T L H
    else
      if AcceptableType T L H (best_unsigned_type T L H) then best_unsigned_type T L H else best_signed_type T L H in
  if AcceptableType T L H type then Some type else None.

Definition safe_clamp_as (R2 : itype) (x lo hi : tval) : run tval :=
  do _ <- check (safe_le lo hi);
  Ret (if safe_le x lo then cast R2 lo else if safe_ge x hi then cast R2 hi else cast R2 x).

Definition safe_clamp (R : option itype) (x lo hi : tval) : option (run tval) :=
  type ← ClampType (ty x) (ty lo) (ty hi);
  R2 ← TypeOr R type;
  Some (safe_clamp_as R2 x lo hi).

(** *** The compile-time choices, by evaluation over all types *)
Definition for_types2 (P : itype -> itype -> bool) : bool :=
  forallb (fun T => forallb (P T) all_itypes) all_itypes.
Definition for_types3 (P : itype -> itype -> itype -> bool) : bool :=
  forallb (fun T => for_types2 (P T)) all_itypes.

Lemma in_all_itypes (T : itype) : In T all_itypes.
Proof. destruct T; cbn; tauto. Qed.

Lemma for_types2_spec (P : itype -> itype -> bool) : for_types2 P = true -> forall T L, P T L = true.
Proof.
  unfold for_types2. rewrite forallb_forall. intros H T L.
  specialize (H T (in_all_itypes T)). rewrite forallb_forall in H. exact (H L (in_all_itypes L)).
Qed.

Lemma for_types3_spec (P : itype -> itype -> itype -> bool) : for_types3 P = true -> forall T L H, P T L H = true.
Proof.
  unfold for_types3. rewrite forallb_forall. intros HP T. apply for_types2_spec, HP, in_all_itypes.
Qed.

Lemma type_or_default (T : itype) : TypeOr None T = Some T.
Proof. by destruct T. Qed.

Lemma min_t_range (T1 T2 : itype) (a b : Z) :
  in_type T1 a -> in_type T2 b -> in_type (min_t T1 T2) (Z.min a b).
Proof.
  intros Ha Hb.
  assert (E : (lowest (min_t T1 T2) <=? Z.min (lowest T1) (lowest T2)) &&
              (Z.min (max T1) (max T2) <=? max (min_t T1 T2)) = true).
  { exact (for_types2_spec (fun T1 T2 => (lowest (min_t T1 T2) <=? Z.min (lowest T1) (lowest T2)) &&
              (Z.min (max T1) (max T2) <=? max (min_t T1 T2))) ltac:(vm_compute; reflexivity) T1 T2). }
  zbool. unfold in_type in *. lia.
Qed.

Lemma max_t_range (T1 T2 : itype) (a b : Z) :
  in_type T1 a -> in_type T2 b -> in_type (max_t T1 T2) (Z.max a b).
Proof.
  intros Ha Hb.
  assert (E : (lowest (max_t T1 T2) <=? Z.max (lowest T1) (lowest T2)) &&
              (Z.max (max T1) (max T2) <=? max (max_t T1 T2)) = true).
  { exact (for_types2_spec (fun T1 T2 => (lowest (max_t T1 T2) <=? Z.max (lowest T1) (lowest T2)) &&
              (Z.max (max T1) (max T2) <=? max (max_t T1 T2))) ltac:(vm_compute; reflexivity) T1 T2). }
  zbool. unfold in_type in *. lia.
Qed.

(** [safe_min] and [safe_max] on any two integer types compile at their default
    return type and return the smaller and the larger of the two values, untruncated,
    in one of the two argument types. *)
Theorem safe_min_max_correct (a b : tval) :
  well_typed a -> well_typed b ->
  safe_min None a b = Some (TV (min_t (ty a) (ty b)) (Z.min (val a) (val b))) /\
  safe_max None a b = Some (TV (max_t (ty a) (ty b)) (Z.max (val a) (val b))) /\
  min_t (ty a) (ty b) ∈ [ty a; ty b] /\ max_t (ty a) (ty b) ∈ [ty a; ty b].
Proof.
  intros Ha Hb. unfold safe_min, safe_max. rewrite !type_or_default. cbn [mbind option_bind].
  unfold safe_min_as, safe_max_as, cast, safe_lt, safe_gt.
  rewrite !safe_exact by (done || apply _).
  pose proof (min_t_range _ _ _ _ Ha Hb) as Hmin. pose proof (max_t_range _ _ _ _ Ha Hb) as Hmax.
  rewrite Z.gtb_ltb. split; [|split].
  - destruct (Z.ltb_spec (val a) (val b)); rewrite convert_id; f_equal; (f_equal; lia) ||
      (first [replace (val a) with (Z.min (val a) (val b)) by lia|replace (val b) with (Z.min (val a) (val b)) by lia]; done).
  - destruct (Z.ltb_spec (val b) (val a)); rewrite convert_id; f_equal; (f_equal; lia) ||
      (first [replace (val a) with (Z.max (val a) (val b)) by lia|replace (val b) with (Z.max (val a) (val b)) by lia]; done).
  - unfold min_t, max_t. split; repeat case_match; set_solver.
Qed.

Lemma safe_min_max_correct_witness :
  safe_min None (TV I8 (-5)) (TV U64 7) = Some (TV I8 (-5)) /\
  safe_max None (TV I8 (-5)) (TV U64 7) = Some (TV U64 7).
Proof.
  destruct (safe_min_max_correct (TV I8 (-5)) (TV U64 7) ltac:(split; cbn; lia) ltac:(split; cbn; lia))
    as (H1 & H2 & _).
  split; [exact H1|exact H2].
Defined.

(** What the clamp type promises, as a test on the three types: it exists, holds the
    range of the result, is no larger than the largest argument, and keeps the
    signedness of the first argument, at the smallest size, when a type can. *)
Definition clamp_range (T L H : itype) : Z * Z :=
  (Z.max (lowest L) (Z.min (lowest H) (lowest T)), Z.min (max H) (Z.max (max L) (max T))).

Definition clamp_type_test (T L H : itype) : bool :=
  match ClampType T L H with
  | Some A =>
      (lowest A <=? fst (clamp_range T L H)) && (snd (clamp_range T L H) <=? max A) &&
      (sizeof A <=? Z.max (sizeof T) (Z.max (sizeof L) (sizeof H))) &&
      forallb (fun B => negb (Bool.eqb (is_signed B) (is_signed T) && AcceptableType T L H B) ||
                        Bool.eqb (is_signed A) (is_signed T) && (sizeof A <=? sizeof B)) all_itypes
  | None => false
  end.

Lemma clamp_type_ok (T L H : itype) : clamp_type_test T L H = true.
Proof. apply for_types3_spec. vm_compute. reflexivity. Qed.

(** C40: [safe_clamp] compiles for every triple of integer types and, when the bounds
    are ordered, returns the value of the closed interval nearest to its argument,
    without truncation, in a type no larger than the largest argument type and, where an
    acceptable type of the first argument's signedness exists, the smallest such type;
    when the bounds are not ordered the check aborts. *)
Theorem safe_clamp_correct (x lo hi : tval) :
  well_typed x -> well_typed lo -> well_typed hi ->
  exists R, ClampType (ty x) (ty lo) (ty hi) = Some R /\
    sizeof R <= Z.max (sizeof (ty x)) (Z.max (sizeof (ty lo)) (sizeof (ty hi))) /\
    (forall A, is_signed A = is_signed (ty x) -> AcceptableType (ty x) (ty lo) (ty hi) A = true ->
       is_signed R = is_signed (ty x) /\ sizeof R <= sizeof A) /\
    safe_clamp None x lo hi =
      Some (if val lo <=? val hi then Ret (TV R (Z.max (val lo) (Z.min (val x) (val hi)))) else Fatal).
Proof.
  intros Hx Hl Hh. pose proof (clamp_type_ok (ty x) (ty lo) (ty hi)) as E. unfold clamp_type_test in E.
  unfold safe_clamp. destruct (ClampType (ty x) (ty lo) (ty hi)) as [R|] eqn:EC; [|done].
  cbn [mbind option_bind]. rewrite type_or_default. cbn [mbind option_bind].
  unfold clamp_range in E. cbn [fst snd] in E. zbool.
  exists R. split; [done|]. split; [done|]. split.
  { intros A EA HA. rewrite forallb_forall in H0. specialize (H0 A (in_all_itypes A)).
    rewrite EA, HA, Bool.eqb_reflx in H0. cbn in H0. zbool. split; [by apply Bool.eqb_prop|done]. }
  f_equal.
  unfold safe_clamp_as, check, safe_le, safe_ge, cast. rewrite !safe_exact by (done || apply _).
  destruct (Z.leb_spec (val lo) (val hi)); cbn [run_bind]; [|done]. f_equal.
  unfold well_typed, in_type in *. rewrite Z.geb_leb.
  destruct (Z.leb_spec (val x) (val lo)); [|destruct (Z.leb_spec (val hi) (val x))];
    rewrite convert_id by (unfold in_type; lia); f_equal; lia.
Qed.

Lemma safe_clamp_correct_witness :
  exists R, ClampType I32 U8 I64 = Some R /\
    safe_clamp None (TV I32 (-9)) (TV U8 3) (TV I64 (2 ^ 40)) = Some (Ret (TV R 3)).
Proof.
  destruct (safe_clamp_correct (TV I32 (-9)) (TV U8 3) (TV I64 (2 ^ 40))) as (R & H1 & _ & _ & H2);
    [split; cbn; lia|split; cbn; lia|split; cbn; lia|].
  exists R. split; [exact H1|exact H2].
Defined.

End SafeMinMax.
