(* ===== verification/DivideRound.v ===== *)
(** * Rounded integer division

    Models [src/cxxkit/numerics/divide_round.hpp], with the typed arithmetic of
    [CxxInt] and the comparisons of [SafeMath]. *)

From stdpp Require Import prelude.
From Stdlib Require Import ZArith Lia.
From S2P Require Import Prelude CxxInt SafeMath.
Import SafeCompare.

#[local] Open Scope Z_scope.
#[local] Open Scope cxx_scope.

(** The declared result type is that of [dividend / divisor]. *)
Definition divide_round_up (dividend divisor : tval) : run tval :=
  let R := common_type (ty dividend) (ty divisor) in
  do _ <- check (safe_ge dividend (int 0));
  do _ <- check (safe_gt divisor (int 0));
  do quotient <- div dividend divisor;
  do remainder <- modulo dividend divisor;
  do r <- add quotient (int (if compare Z.gtb remainder (int 0) then 1 else 0));
  Ret (cast R r).

Definition divide_round_to_nearest (dividend divisor : tval) : run tval :=
  let R := common_type (ty dividend) (ty divisor) in
  do _ <- check (safe_gt divisor (int 0));
  if compare Z.ltb dividend (TV (ty dividend) 0) then
    do half_of_divisor <- div divisor (int 2);
    do quotient <- div dividend divisor;
    do remainder <- modulo dividend divisor;
    do minus_remainder <- opp remainder;
    do quotient <- (if safe_gt minus_remainder half_of_divisor then decrement quotient else Ret quotient);
    Ret (cast R quotient)
  else
    do less_one <- sub divisor (int 1);
    do half_of_divisor <- div less_one (int 2);
    do quotient <- div dividend divisor;
    do remainder <- modulo dividend divisor;
    do quotient <- (if safe_gt remainder half_of_divisor then increment quotient else Ret quotient);
    Ret (cast R quotient).

(** ** Division on values that the common type holds *)
Lemma int_well_typed (z : Z) : - 2 ^ 31 <= z < 2 ^ 31 -> well_typed (int z).
Proof. intros H. limits. lia. Qed.

Lemma common_int_in (T : itype) (a k : Z) :
  in_type T a -> 0 <= a -> 0 <= k < 2 ^ 31 -> in_type (common_type T I32) a /\ in_type (common_type T I32) k.
Proof. intros H Ha Hk. destruct T; clear -H Ha Hk; limits; lia. Qed.

Lemma quot_between (a b : Z) : 0 < b -> Z.min a 0 <= Z.quot a b <= Z.max a 0.
Proof.
  intros Hb. destruct (Z.lt_ge_cases a 0).
  - rewrite <- (Z.opp_involutive a), Z.quot_opp_l by lia.
    rewrite Z.quot_div_nonneg by lia.
    pose proof (Z.div_pos (- a) b ltac:(lia) Hb). pose proof (Z.div_le_upper_bound (- a) b (- a) Hb ltac:(nia)). lia.
  - rewrite Z.quot_div_nonneg by lia. pose proof (Z.div_pos a b ltac:(lia) Hb).
    pose proof (Z.div_le_upper_bound a b a Hb ltac:(nia)). lia.
Qed.

Section Exact.
Context (T1 T2 : itype) (a b : Z).
Let C := common_type T1 T2.
Context (Ha : in_type C a) (Hb : in_type C b) (Hpos : 0 < b).

Lemma quot_in : in_type C (Z.quot a b).
Proof. apply (in_type_between C (Z.min a 0) (Z.max a 0)); [by apply quot_between| |];
  [destruct (Z.min_spec a 0) as [[_ ->]|[_ ->]]|destruct (Z.max_spec a 0) as [[_ ->]|[_ ->]]]; auto with cxx. Qed.

Lemma div_exact : div (TV T1 a) (TV T2 b) = Ret (TV C (Z.quot a b)).
Proof.
  unfold div. cbn [ty val]. fold C. rewrite !convert_id by done.
  destruct (Z.eqb_spec b 0); [lia|]. apply arith_in, quot_in.
Qed.

Lemma modulo_exact : modulo (TV T1 a) (TV T2 b) = Ret (TV C (Z.rem a b)).
Proof. unfold modulo. rewrite div_exact. cbn [run_bind ty val]. fold C. by rewrite !convert_id. Qed.

Lemma rem_in : in_type C (Z.rem a b).
Proof.
  destruct (Z.lt_ge_cases a 0) as [H|H].
  - pose proof (Z.rem_nonpos a b ltac:(lia) ltac:(lia)). pose proof (Z.mul_quot_le a b) as Hq.
    apply (in_type_between C a 0); auto with cxx. split; [|lia].
    pose proof (Z.quot_rem' a b). pose proof (quot_between a b Hpos). nia.
  - pose proof (Z.rem_nonneg a b ltac:(lia) ltac:(lia)).
    apply (in_type_le C _ a); [|done]. split; [lia|].
    pose proof (Z.quot_rem' a b). pose proof (quot_between a b Hpos). nia.
Qed.
End Exact.

(** The rounding of the exact quotient, halves going up. *)
Definition round_half_up (a b : Z) : Z := (2 * a + b) / (2 * b).
Definition round_up (a b : Z) : Z := - ((- a) / b).

Lemma round_up_steps (a b : Z) : 0 <= a -> 0 < b ->
  round_up a b = Z.quot a b + (if Z.rem a b >? 0 then 1 else 0).
Proof.
  intros Ha Hb. unfold round_up. rewrite Z.quot_div_nonneg, Z.rem_mod_nonneg by lia.
  pose proof (Z.div_mod a b ltac:(lia)). pose proof (Z.mod_pos_bound a b Hb).
  rewrite Z.gtb_ltb. destruct (Z.ltb_spec 0 (a mod b)).
  - rewrite <- (Z.div_unique (- a) b (- (a / b) - 1) (b - a mod b)); nia.
  - rewrite <- (Z.div_unique (- a) b (- (a / b)) 0); nia.
Qed.

Lemma round_half_up_nonneg (a b : Z) : 0 <= a -> 0 < b ->
  round_half_up a b = Z.quot a b + (if Z.rem a b >? Z.quot (b - 1) 2 then 1 else 0).
Proof.
  intros Ha Hb. unfold round_half_up. rewrite (Z.quot_div_nonneg a b), Z.rem_mod_nonneg, (Z.quot_div_nonneg (b - 1)) by lia.
  pose proof (Z.div_mod a b ltac:(lia)). pose proof (Z.mod_pos_bound a b Hb).
  pose proof (Z.div_mod (b - 1) 2 ltac:(lia)). pose proof (Z.mod_pos_bound (b - 1) 2 ltac:(lia)).
  rewrite Z.gtb_ltb. symmetry. destruct (Z.ltb_spec ((b - 1) / 2) (a mod b)).
  - apply (Z.div_unique _ _ _ (2 * (a mod b) - b)); nia.
  - apply (Z.div_unique _ _ _ (2 * (a mod b) + b)); nia.
Qed.

Lemma round_half_up_neg (a b : Z) : a < 0 -> 0 < b ->
  round_half_up a b = Z.quot a b - (if - Z.rem a b >? Z.quot b 2 then 1 else 0).
Proof.
  intros Ha Hb. unfold round_half_up. rewrite (Z.quot_div_nonneg b) by lia.
  pose proof (Z.quot_rem' a b). pose proof (Z.rem_nonpos a b ltac:(lia) ltac:(lia)).
  pose proof (Z.rem_bound_abs a b ltac:(lia)).
  pose proof (Z.div_mod b 2 ltac:(lia)). pose proof (Z.mod_pos_bound b 2 ltac:(lia)).
  rewrite Z.gtb_ltb. symmetry. destruct (Z.ltb_spec (b / 2) (- Z.rem a b)).
  - apply (Z.div_unique _ _ _ (2 * Z.rem a b + 3 * b)); nia.
  - apply (Z.div_unique _ _ _ (2 * Z.rem a b + b)); nia.
Qed.

(** ** The two functions *)
Lemma common_promoted_int (T1 T2 : itype) : common_type (common_type T1 T2) I32 = common_type T1 T2.
Proof. by destruct T1, T2. Qed.

Lemma quot_succ_in (C : itype) (a b : Z) : in_type C a -> 0 < b -> 0 <= a -> 0 < Z.rem a b ->
  in_type C (Z.quot a b + 1).
Proof.
  intros Ha Hb H0 Hr. apply (in_type_le C _ a); [|done].
  pose proof (Z.quot_rem' a b). pose proof (quot_between a b Hb). pose proof (Z.rem_bound_abs a b ltac:(lia)). nia.
Qed.

Lemma quot_pred_in (C : itype) (a b : Z) : in_type C a -> 0 < b -> a < 0 -> Z.rem a b < 0 ->
  in_type C (Z.quot a b - 1).
Proof.
  intros Ha Hb H0 Hr. apply (in_type_between C a 0); auto with cxx.
  pose proof (Z.quot_rem' a b). pose proof (quot_between a b Hb). pose proof (Z.rem_bound_abs a b ltac:(lia)). nia.
Qed.

Section Correct.
Context (T1 T2 : itype) (a b : Z).
Let C := common_type T1 T2.
Context (Ha1 : in_type T1 a) (Hb2 : in_type T2 b) (Hb : 0 < b).

Lemma common_C : common_type C I32 = C.
Proof. apply common_promoted_int. Qed.

Lemma check_positive : check (safe_gt (TV T2 b) (int 0)) = Ret tt.
Proof.
  unfold safe_gt. rewrite safe_exact by (done || apply _ || (apply int_well_typed; lia)).
  cbn [val int]. rewrite Z.gtb_ltb. by destruct (Z.ltb_spec 0 b); [|lia].
Qed.

Lemma up_correct : 0 <= a -> divide_round_up (TV T1 a) (TV T2 b) = Ret (TV C (round_up a b)).
Proof.
  intros H0.
  assert (Ha : in_type C a) by (apply common_in_l; auto).
  assert (HbC : in_type C b) by (apply common_in_r; auto with lia).
  unfold divide_round_up. cbn [ty]. fold C.
  unfold safe_ge. rewrite safe_exact by (done || apply _ || (apply int_well_typed; lia)).
  cbn [val int]. rewrite Z.geb_leb, (proj2 (Z.leb_le 0 a)) by done.
  rewrite check_positive. cbn [check run_bind].
  rewrite (div_exact T1 T2), (modulo_exact T1 T2) by done. cbn [run_bind]. fold C.
  unfold int. rewrite compare_exact by (rewrite common_C; first [by apply (rem_in T1 T2)|auto with cxx]).
  rewrite round_up_steps by done.
  assert (Hq : in_type C (Z.quot a b + (if Z.rem a b >? 0 then 1 else 0))).
  { rewrite Z.gtb_ltb. destruct (Z.ltb_spec 0 (Z.rem a b)); [by apply quot_succ_in|].
    rewrite Z.add_0_r. by apply (quot_in T1 T2). }
  unfold add, binary. cbn [ty val int]. rewrite !common_C.
  rewrite (convert_id C (Z.quot a b)) by (by apply (quot_in T1 T2)).
  rewrite (convert_id C (if _ >? _ then 1 else 0)).
  2:{ destruct (common_int_in C 0 1 (in_type_0 C)) as [_ H]; [lia|lia|].
      rewrite common_C in H. destruct (_ >? _); auto with cxx. }
  rewrite arith_in by done. cbn [run_bind]. unfold cast. cbn [val]. by rewrite convert_id.
Qed.

Lemma nearest_nonneg : 0 <= a -> divide_round_to_nearest (TV T1 a) (TV T2 b) = Ret (TV C (round_half_up a b)).
Proof.
  intros H0.
  assert (Ha : in_type C a) by (apply common_in_l; auto).
  assert (HbC : in_type C b) by (apply common_in_r; auto with lia).
  unfold divide_round_to_nearest. cbn [ty]. fold C. rewrite check_positive. cbn [run_bind].
  rewrite SafeConversions.compare_same by auto with cxx. rewrite (proj2 (Z.ltb_ge a 0)) by done.
  destruct (common_int_in T2 b 1 Hb2 ltac:(lia) ltac:(lia)) as [Hb' H1'].
  assert (Hm : in_type (common_type T2 I32) (b - 1)) by (apply (in_type_le _ _ b); [lia|done]).
  unfold sub, binary. cbn [ty val int]. rewrite !convert_id by done. rewrite arith_in by done. cbn [run_bind].
  destruct (common_int_in (common_type T2 I32) (b - 1) 2 Hm ltac:(lia) ltac:(lia)) as [Hm2 H2].
  rewrite (div_exact (common_type T2 I32) I32) by (done || lia). cbn [run_bind].
  rewrite (div_exact T1 T2), (modulo_exact T1 T2) by done. cbn [run_bind]. fold C.
  unfold safe_gt. rewrite safe_exact; [|apply _|by apply (rem_in T1 T2)|].
  2:{ unfold well_typed. cbn [ty val]. apply (quot_in (common_type T2 I32) I32); done || lia. }
  cbn [val]. rewrite round_half_up_nonneg by done. rewrite Z.gtb_ltb.
  pose proof (quot_in T1 T2 a b Ha Hb) as Hq. fold C in Hq.
  destruct (Z.ltb_spec (Z.quot (b - 1) 2) (Z.rem a b)) as [Hr|Hr].
  - assert (0 < Z.rem a b). { pose proof (Z.quot_pos (b - 1) 2 ltac:(lia) ltac:(lia)). lia. }
    pose proof (quot_succ_in C a b Ha Hb H0 ltac:(done)).
    unfold increment. cbn [ty val]. rewrite arith_in by done. cbn [run_bind]. unfold cast. cbn [val]. by rewrite convert_id.
  - cbn [run_bind]. unfold cast. cbn [val]. rewrite Z.add_0_r. by rewrite convert_id.
Qed.

Lemma nearest_neg : a < 0 -> is_signed C = true ->
  divide_round_to_nearest (TV T1 a) (TV T2 b) = Ret (TV C (round_half_up a b)).
Proof.
  intros H0 Hs.
  assert (Ha : in_type C a) by (apply common_in_l; auto).
  assert (HbC : in_type C b) by (apply common_in_r; auto with lia).
  unfold divide_round_to_nearest. cbn [ty]. fold C. rewrite check_positive. cbn [run_bind].
  rewrite SafeConversions.compare_same by auto with cxx. rewrite (proj2 (Z.ltb_lt a 0)) by done.
  destruct (common_int_in T2 b 2 Hb2 ltac:(lia) ltac:(lia)) as [Hb' H2'].
  rewrite (div_exact T2 I32) by (done || lia). cbn [run_bind].
  rewrite (div_exact T1 T2), (modulo_exact T1 T2) by done. cbn [run_bind]. fold C.
  assert (Hrem : - b < Z.rem a b <= 0).
  { pose proof (Z.rem_nonpos a b ltac:(lia) ltac:(lia)). pose proof (Z.rem_bound_abs a b ltac:(lia)). lia. }
  assert (Hop : in_type C (- Z.rem a b)) by (apply (in_type_le C _ b); [lia|done]).
  unfold opp. cbn [ty val]. unfold C at 1 2. rewrite common_type_promoted. fold C.
  rewrite arith_in by done. cbn [run_bind].
  unfold safe_gt. rewrite safe_exact; [|apply _|done|].
  2:{ unfold well_typed. cbn [ty val]. apply (quot_in T2 I32); done || lia. }
  cbn [val]. rewrite round_half_up_neg by done. rewrite Z.gtb_ltb.
  pose proof (quot_in T1 T2 a b Ha Hb) as Hq. fold C in Hq.
  destruct (Z.ltb_spec (Z.quot b 2) (- Z.rem a b)) as [Hr|Hr].
  - assert (Z.rem a b < 0). { pose proof (Z.quot_pos b 2 ltac:(lia) ltac:(lia)). lia. }
    pose proof (quot_pred_in C a b Ha Hb H0 ltac:(done)).
    unfold decrement. cbn [ty val]. rewrite arith_in by done. cbn [run_bind]. unfold cast. cbn [val]. by rewrite convert_id.
  - cbn [run_bind]. unfold cast. cbn [val]. rewrite Z.sub_0_r. by rewrite convert_id.
Qed.
End Correct.

(** For a positive divisor, [divide_round_up] of a non-negative dividend is the
    least integer not below the quotient, and [divide_round_to_nearest] is the nearest
    integer, halves going up, for every pair of integer types; a negative dividend
    needs a signed common type. No step overflows. *)
Theorem divide_round_correct (dividend divisor : tval) :
  well_typed dividend -> well_typed divisor -> 0 < val divisor ->
  (0 <= val dividend ->
   divide_round_up dividend divisor
   = Ret (TV (common_type (ty dividend) (ty divisor)) (round_up (val dividend) (val divisor)))) /\
  (0 <= val dividend \/ is_signed (common_type (ty dividend) (ty divisor)) = true ->
   divide_round_to_nearest dividend divisor
   = Ret (TV (common_type (ty dividend) (ty divisor)) (round_half_up (val dividend) (val divisor)))).
Proof.
  destruct dividend as [T1 a], divisor as [T2 b]. cbn [ty val]. intros Ha Hb Hpos. split; [by apply up_correct|].
  intros Hc. destruct (Z.lt_ge_cases a 0); [apply nearest_neg|apply nearest_nonneg]; try done. by destruct Hc; [lia|].
Qed.

Lemma divide_round_correct_witness :
  divide_round_up (TV U8 255) (TV I64 2) = Ret (TV I64 128) /\
  divide_round_to_nearest (TV I64 (-7)) (TV U32 3) = Ret (TV I64 (-2)).
Proof.
  split.
  - destruct (divide_round_correct (TV U8 255) (TV I64 2)) as [H _]; [split; cbn; lia|split; cbn; lia|cbn; lia|].
    exact (H ltac:(cbn; lia)).
  - destruct (divide_round_correct (TV I64 (-7)) (TV U32 3)) as [_ H]; [split; cbn; lia|split; cbn; lia|cbn; lia|].
    exact (H (or_intror eq_refl)).
Defined.

(** Ties of negative dividends round towards zero, not away from it. *)
Lemma negative_ties_round_to_zero :
  divide_round_to_nearest (TV I32 (-5)) (TV I32 2) = Ret (TV I32 (-2)) /\
  divide_round_to_nearest (TV I32 5) (TV I32 2) = Ret (TV I32 3).
Proof. split; reflexivity. Qed.

(** A negative dividend over an unsigned divisor of the same width is divided as a
    large positive number. *)
Lemma negative_over_unsigned_diverges :
  divide_round_to_nearest (TV I32 (-6)) (TV U32 2) = Ret (TV U32 2147483645).
Proof. reflexivity. Qed.
