(* ===== verification/SeqNum.v ===== *)
(** * Wrapping sequence numbers

    Models [src/cxxkit/numerics/sequence_number_util.hpp] and
    [sequence_number_unwrapper.hpp]. A template argument pair [T, M] is an unsigned
    type and a modulus of that type, zero for the full range. *)

From stdpp Require Import prelude.
From Stdlib Require Import ZArith Lia.
From S2P Require Import Prelude CxxInt.

#[local] Open Scope Z_scope.
#[local] Open Scope cxx_scope.

(** ** sequence_number_util.hpp *)

(** [x - y] for two values of type [T], in the promoted type. *)
Definition minus (T : itype) (x y : Z) : Z := convert (promote T) (x - y).

Definition forward_diff (T : itype) (M a b : Z) : Z :=
  if 0 <? M then convert T (if a <=? b then minus T b a else minus T M (minus T a b))
  else convert T (minus T b a).

Definition reverse_diff (T : itype) (M a b : Z) : Z :=
  if 0 <? M then convert T (if b <=? a then minus T a b else minus T M (minus T b a))
  else convert T (minus T a b).

Definition min_diff (T : itype) (M a b : Z) : Z := Z.min (forward_diff T M a b) (reverse_diff T M a b).

Definition ahead_or_at (T : itype) (M a b : Z) : bool :=
  if 0 <? M then
    let max_dist := M / 2 in
    if negb (Z.odd M) && (min_diff T M a b =? max_dist) then b <? a
    else forward_diff T M b a <=? max_dist
  else
    let max_dist := max T / 2 + 1 in
    if minus T a b =? max_dist then b <? a
    else forward_diff T 0 b a <? max_dist.

Definition ahead_of (T : itype) (M a b : Z) : bool := negb (a =? b) && ahead_or_at T M a b.

(** The two comparators. *)
Definition AscendingSeqNumComp (T : itype) (M a b : Z) : bool := ahead_of T M a b.
Definition DescendingSeqNumComp (T : itype) (M a b : Z) : bool := ahead_of T M b a.

(** ** sequence_number_unwrapper.hpp *)
Definition unwrapper_delta (T : itype) (M last_value new_value : Z) : Z :=
  let backward_adjustment := if M =? 0 then max T + 1 else M in
  let result := forward_diff T M last_value new_value in
  if negb (ahead_or_at T M new_value last_value) then result - backward_adjustment else result.

Record SeqNumUnwrapper := { mLastUnwrapped : Z; mLastValue : option Z }.

Definition SeqNumUnwrapper_init : SeqNumUnwrapper := {| mLastUnwrapped := 0; mLastValue := None |}.

(** An [int64_t] sum, undefined on overflow. *)
Definition add_int64 (x y : Z) : run Z := if in_typeb I64 (x + y) then Ret (x + y) else Undef.

Definition unwrap (T : itype) (M : Z) (u : SeqNumUnwrapper) (value : Z) : run (Z * SeqNumUnwrapper) :=
  do n <- match mLastValue u with
          | None => Ret value
          | Some last => add_int64 (mLastUnwrapped u) (unwrapper_delta T M last value)
          end;
  Ret (n, {| mLastUnwrapped := n; mLastValue := Some value |}).

Definition peek_unwrap (T : itype) (M : Z) (u : SeqNumUnwrapper) (value : Z) : run Z :=
  match mLastValue u with
  | None => Ret value
  | Some last => add_int64 (mLastUnwrapped u) (unwrapper_delta T M last value)
  end.

Definition reset (u : SeqNumUnwrapper) : SeqNumUnwrapper := SeqNumUnwrapper_init.

(** The values given by a run of calls to [unwrap]. *)
Fixpoint unwrap_all (T : itype) (M : Z) (u : SeqNumUnwrapper) (values : list Z) : run (list Z) :=
  match values with
  | [] => Ret []
  | v :: vs => do (n, u') <- unwrap T M u v; do ns <- unwrap_all T M u' vs; Ret (n :: ns)
  end.

(** ** The distances *)

(** The modulus in force. *)
Definition modulus (T : itype) (M : Z) : Z := if 0 <? M then M else max T + 1.

Section Modulus.
Context (T : itype) (M : Z).
Let N := modulus T M.
Context (HT : is_signed T = false) (HM : in_type T M).

Lemma modulus_bound : 0 < N <= max T + 1.
Proof.
  unfold N, modulus. assert (0 < max T + 1) by (clear; destruct T; cbn; lia).
  destruct (Z.ltb_spec 0 M); [|lia]. destruct HM. lia.
Qed.

Lemma value_in (z : Z) : 0 <= z < N -> in_type T z.
Proof. intros H. pose proof modulus_bound. unfold in_type, lowest. rewrite HT. lia. Qed.

(** A conversion of the right residue that is in range. *)
Lemma convert_unique (z d : Z) : 0 <= d <= max T -> z mod (max T + 1) = d -> convert T z = d.
Proof.
  intros Hd Hz. unfold convert. rewrite HT. unfold wrap. rewrite <- Hz. f_equal.
  unfold max. rewrite HT. lia.
Qed.

Lemma minus_mod (x y : Z) : minus T x y mod (max T + 1) = (x - y) mod (max T + 1).
Proof.
  unfold minus. assert (E : max T + 1 = 2 ^ (8 * sizeof T)) by (unfold max; rewrite HT; lia).
  rewrite E. pose proof (sizeof_pos T).
  rewrite <- (mod_pow2_le (convert _ _) (8 * sizeof T) (8 * sizeof (promote T))) by (clear -H; destruct T; cbn; lia).
  rewrite convert_mod. apply mod_pow2_le. clear -H. destruct T; cbn; lia.
Qed.

Lemma convert_minus (x y : Z) : 0 <= x - y <= max T -> convert T (minus T x y) = x - y.
Proof. intros H. apply convert_unique; [done|]. rewrite minus_mod. apply Z.mod_small. lia. Qed.

Lemma convert_minus_minus (m x y : Z) : 0 <= m - (x - y) <= max T ->
  convert T (minus T m (minus T x y)) = m - (x - y).
Proof.
  intros H. apply convert_unique; [done|]. rewrite minus_mod.
  rewrite <- (Z.mod_small (m - (x - y)) (max T + 1)) by lia.
  rewrite Zminus_mod, minus_mod, <- Zminus_mod. done.
Qed.

Lemma forward_diff_spec (a b : Z) : 0 <= a < N -> 0 <= b < N -> forward_diff T M a b = (b - a) mod N.
Proof.
  intros Ha Hb. pose proof modulus_bound as HN. unfold forward_diff.
  assert (EN : N = if 0 <? M then M else max T + 1) by done.
  destruct (Z.ltb_spec 0 M) as [Hm|Hm]; rewrite EN in *.
  - destruct (Z.leb_spec a b).
    + rewrite convert_minus by lia. symmetry. apply Z.mod_small. lia.
    + rewrite convert_minus_minus by lia. apply (Z.mod_unique _ _ (-1)); lia.
  - apply convert_unique; [|apply minus_mod]. pose proof (Z.mod_pos_bound (b - a) (max T + 1)). lia.
Qed.

Lemma reverse_forward (a b : Z) : reverse_diff T M a b = forward_diff T M b a.
Proof. done. Qed.

(** [a] is [d] steps ahead of [b], less than half the modulus, or exactly half with
    [a] the larger value. *)
Lemma ahead_or_at_spec (a b : Z) : 0 <= a < N -> 0 <= b < N ->
  ahead_or_at T M a b = (2 * ((a - b) mod N) <? N) || ((2 * ((a - b) mod N) =? N) && (b <? a)).
Proof.
  intros Ha Hb. pose proof modulus_bound as HN.
  assert (Hsum : (a - b) mod N + (b - a) mod N = (if a =? b then 0 else N)).
  { destruct (Z.eqb_spec a b) as [->|Hne]; [rewrite !Z.sub_diag; rewrite Z.mod_0_l; lia|].
    destruct (Z.lt_ge_cases a b).
    - rewrite (Z.mod_small (b - a)) by lia. rewrite <- (Z.mod_unique (a - b) N (-1) (a - b + N)); lia.
    - rewrite (Z.mod_small (a - b)) by lia. rewrite <- (Z.mod_unique (b - a) N (-1) (b - a + N)); lia. }
  pose proof (Z.mod_pos_bound (a - b) N ltac:(lia)).
  pose proof (Z.mod_pos_bound (b - a) N ltac:(lia)).
  assert (Hz : a = b -> (a - b) mod N = 0) by (intros ->; rewrite Z.sub_diag; apply Z.mod_0_l; lia).
  unfold ahead_or_at, min_diff. rewrite reverse_forward.
  destruct (Z.ltb_spec 0 M) as [Hm|Hm].
  - assert (EN : N = M) by (unfold N, modulus; destruct (Z.ltb_spec 0 M); lia).
    rewrite !forward_diff_spec by done. cbv zeta. fold N.
    pose proof (Zdiv2_odd_eqn M) as Hodd. rewrite Z.div2_div in Hodd.
    destruct (Z.odd M); cbn [negb andb]; destruct (Z.eqb_spec a b);
      repeat match goal with
      | |- context [?x =? ?y] => destruct (Z.eqb_spec x y); cbn [andb orb]
      | |- context [?x <? ?y] => destruct (Z.ltb_spec x y); cbn [andb orb]
      | |- context [?x <=? ?y] => destruct (Z.leb_spec x y); cbn [andb orb]
      end; try reflexivity; lia.
  - assert (EM : M = 0) by (destruct HM as [H' _]; unfold lowest in H'; rewrite HT in H'; lia).
    assert (EN : N = max T + 1) by (unfold N, modulus; destruct (Z.ltb_spec 0 M); lia).
    replace 0 with M at 1 by done. rewrite forward_diff_spec by done. cbv zeta.
    assert (Ehalf : 2 * (max T / 2 + 1) = N) by (rewrite EN; clear -HT; destruct T; try discriminate; reflexivity).
    assert (Emin : minus T a b = max T / 2 + 1 -> (a - b) mod N = max T / 2 + 1).
    { intros E. rewrite EN, <- minus_mod, E. apply Z.mod_small. lia. }
    assert (Emin' : b < a -> (a - b) mod N = max T / 2 + 1 -> minus T a b = max T / 2 + 1).
    { intros Hlt E. rewrite Z.mod_small in E by lia. unfold minus. rewrite convert_id; [lia|].
      rewrite E. clear -HT. destruct T; try discriminate; split; vm_compute; discriminate. }
    destruct (Z.eqb_spec (minus T a b) (max T / 2 + 1)) as [E|E]; [specialize (Emin E)|];
      repeat match goal with
      | |- context [?x =? ?y] => destruct (Z.eqb_spec x y); cbn [andb orb]
      | |- context [?x <? ?y] => destruct (Z.ltb_spec x y); cbn [andb orb]
      end; try reflexivity; try lia; exfalso; apply E, Emin'; lia.
Qed.

(** The signed step from one value to another: congruent, at most half the modulus. *)
Lemma unwrapper_delta_spec (last new : Z) : 0 <= last < N -> 0 <= new < N ->
  exists k, unwrapper_delta T M last new = new - last + k * N /\ 2 * Z.abs (unwrapper_delta T M last new) <= N.
Proof.
  intros Hl Hn. pose proof modulus_bound as HN. unfold unwrapper_delta.
  assert (EN : (if M =? 0 then max T + 1 else M) = N).
  { unfold N, modulus. destruct HM as [H0 _]. unfold lowest in H0. rewrite HT in H0.
    destruct (Z.eqb_spec M 0), (Z.ltb_spec 0 M); lia. }
  rewrite EN. cbv zeta. rewrite forward_diff_spec by done. rewrite ahead_or_at_spec by done.
  pose proof (Z.mod_pos_bound (new - last) N ltac:(lia)).
  pose proof (Z.div_mod (new - last) N ltac:(lia)).
  destruct (Z.ltb_spec (2 * ((new - last) mod N)) N); cbn [orb negb].
  { exists (- ((new - last) / N)). lia. }
  destruct ((_ =? _) && _) eqn:E; cbn [negb]; zbool.
  - exists (- ((new - last) / N)). lia.
  - exists (- ((new - last) / N) - 1). split; lia.
Qed.

(** The step recovers a difference smaller than half the modulus. *)
Lemma unwrapper_delta_recovers (x y : Z) :
  2 * Z.abs (y - x) < N -> unwrapper_delta T M (x mod N) (y mod N) = y - x.
Proof.
  intros H. pose proof modulus_bound as HN.
  pose proof (Z.mod_pos_bound x N ltac:(lia)) as Hx. pose proof (Z.mod_pos_bound y N ltac:(lia)) as Hy.
  destruct (unwrapper_delta_spec _ _ Hx Hy) as (k & E & B). rewrite E in B |- *.
  pose proof (Z.div_mod x N ltac:(lia)). pose proof (Z.div_mod y N ltac:(lia)).
  assert (x / N - y / N + k = 0); nia.
Qed.
End Modulus.

(** ** Properties *)

(** The types the unwrapper is instantiated with: unsigned, narrower than [int64_t]. *)
Definition unwrap_type (T : itype) : Prop := is_signed T = false /\ T <> U64.

(** On the residues of a modulus the two comparators are strict total orders up to
    wrap-around: of two distinct values exactly one is ahead of the other, none is ahead
    of itself, and a value is ahead of those at most half the modulus behind it (short of
    the tie at exactly half, which the larger value wins). *)
Theorem ahead_of_correct (T : itype) (M a b : Z) :
  is_signed T = false -> in_type T M -> 0 <= a < modulus T M -> 0 <= b < modulus T M ->
  (a <> b -> AscendingSeqNumComp T M a b = negb (AscendingSeqNumComp T M b a)) /\
  ahead_of T M a a = false /\
  DescendingSeqNumComp T M a b = AscendingSeqNumComp T M b a /\
  (ahead_of T M a b = true <->
   exists d, 0 < d /\ a = (b + d) mod modulus T M /\
     (2 * d < modulus T M \/ 2 * d = modulus T M /\ b < a)).
Proof.
  intros HT HM Ha Hb. set (N := modulus T M) in *.
  unfold AscendingSeqNumComp, DescendingSeqNumComp, ahead_of. rewrite Z.eqb_refl, (Z.eqb_sym b a).
  rewrite !ahead_or_at_spec by done. fold N.
  assert (HN : 0 < N) by lia.
  pose proof (Z.mod_pos_bound (a - b) N HN) as B1. pose proof (Z.mod_pos_bound (b - a) N HN) as B2.
  assert (E : a <> b -> (a - b) mod N + (b - a) mod N = N).
  { intros Hne. destruct (Z.lt_ge_cases a b).
    - rewrite (Z.mod_small (b - a)) by lia. rewrite <- (Z.mod_unique (a - b) N (-1) (a - b + N)); lia.
    - rewrite (Z.mod_small (a - b)) by lia. rewrite <- (Z.mod_unique (b - a) N (-1) (b - a + N)); lia. }
  split; [|split; [done|split; [done|]]].
  - intros Hne. specialize (E Hne). destruct (Z.eqb_spec a b); [done|]. cbn [negb andb].
    repeat match goal with
    | |- context [?x =? ?y] => destruct (Z.eqb_spec x y); cbn [andb orb negb]
    | |- context [?x <? ?y] => destruct (Z.ltb_spec x y); cbn [andb orb negb]
    end; try reflexivity; lia.
  - rewrite andb_true_iff, negb_true_iff, Z.eqb_neq, orb_true_iff, andb_true_iff, !Z.ltb_lt, Z.eqb_eq. split.
    + intros [Hne Hd]. exists ((a - b) mod N). split.
      { destruct (Z.eq_dec ((a - b) mod N) 0) as [E0|]; [|lia]. specialize (E Hne). lia. }
      split; [|tauto]. rewrite Zplus_mod_idemp_r. replace (b + (a - b)) with a by lia. symmetry. by apply Z.mod_small.
    + intros (d & Hd & -> & Hh).
      assert (Ed : ((b + d) mod N - b) mod N = d).
      { rewrite Zminus_mod_idemp_l. replace (b + d - b) with d by lia. apply Z.mod_small. lia. }
      rewrite Ed. split; [|tauto]. intros Heq. rewrite Heq, Z.sub_diag, Z.mod_0_l in Ed by lia. lia.
Qed.

Lemma ahead_of_correct_witness : ahead_of U8 0 2 253 = true /\ AscendingSeqNumComp U8 0 253 2 = false.
Proof.
  assert (H0 : 0 <= 2 < modulus U8 0) by (cbn; lia). assert (H1 : 0 <= 253 < modulus U8 0) by (cbn; lia).
  destruct (ahead_of_correct U8 0 253 2 eq_refl (in_type_0 U8) H1 H0) as (H & _ & H' & _).
  split; [reflexivity|]. rewrite H by lia. reflexivity.
Defined.

(** The true sequence advances by less than half the modulus at every step. *)
Inductive small_steps (N : Z) : list Z -> Prop :=
| small_nil : small_steps N []
| small_one x : small_steps N [x]
| small_cons x y l : 2 * Z.abs (y - x) < N -> small_steps N (y :: l) -> small_steps N (x :: y :: l).

Lemma unwrap_all_from (T : itype) (M x : Z) (l : list Z) :
  unwrap_type T -> in_type T M -> small_steps (modulus T M) (x :: l) -> Forall (in_type I64) l ->
  unwrap_all T M {| mLastUnwrapped := x; mLastValue := Some (x mod modulus T M) |}
    ((fun u => u mod modulus T M) <$> l) = Ret l.
Proof.
  intros [HT HU] HM. revert x. induction l as [|y l IH]; intros x Hs Hl; [done|].
  inversion Hs as [| |? ? ? Hd Hs']; subst. inversion Hl; subst.
  cbn [fmap list_fmap unwrap_all]. unfold unwrap at 1. cbn [mLastValue mLastUnwrapped].
  rewrite unwrapper_delta_recovers by done. unfold add_int64.
  replace (x + (y - x)) with y by lia. rewrite (proj2 (in_typeb_spec I64 y)) by done. cbn [run_bind].
  rewrite IH by done. done.
Qed.

(** Feeding the residues of a sequence whose steps stay below half the modulus gives
    the sequence back, from a fresh or reset unwrapper, as long as it fits [int64_t]. *)
Theorem unwrap_recovers (T : itype) (M x : Z) (l : list Z) (u : SeqNumUnwrapper) :
  unwrap_type T -> in_type T M -> 0 <= x < modulus T M ->
  small_steps (modulus T M) (x :: l) -> Forall (in_type I64) l ->
  unwrap_all T M (reset u) ((fun z => z mod modulus T M) <$> x :: l) = Ret (x :: l).
Proof.
  intros HT HM Hx Hs Hl. unfold reset. cbn [fmap list_fmap unwrap_all]. unfold unwrap at 1.
  cbn [mLastValue SeqNumUnwrapper_init run_bind]. rewrite (Z.mod_small x) by done.
  rewrite <- (Z.mod_small x (modulus T M)) at 2 by done.
  rewrite unwrap_all_from by done. done.
Qed.

Lemma unwrap_recovers_witness :
  unwrap_all U16 0 SeqNumUnwrapper_init [65534; 2; 65000; 3] = Ret [65534; 65538; 65000; 65539].
Proof.
  refine (unwrap_recovers U16 0 65534 [65538; 65000; 65539] SeqNumUnwrapper_init _ _ _ _ _).
  - split; done.
  - exact (in_type_0 U16).
  - cbn. lia.
  - repeat constructor; cbn; lia.
  - repeat constructor; cbn; lia.
Defined.

(** The unwrapper's invariant: the last unwrapped value has the residue last seen. *)
Definition unwrapper_ok (T : itype) (M : Z) (u : SeqNumUnwrapper) : Prop :=
  forall last, mLastValue u = Some last -> 0 <= last < modulus T M /\ mLastUnwrapped u mod modulus T M = last.

(** Whatever the input, a call keeps the unwrapped value congruent to the value
    given, moves it by at most half the modulus, and agrees with [peek_unwrap]; it is
    undefined only when the result leaves [int64_t]. *)
Theorem unwrap_step (T : itype) (M v : Z) (u : SeqNumUnwrapper) :
  unwrap_type T -> in_type T M -> 0 <= v < modulus T M -> unwrapper_ok T M u ->
  match unwrap T M u v with
  | Ret (n, u') =>
      peek_unwrap T M u v = Ret n /\ n mod modulus T M = v /\ unwrapper_ok T M u' /\
      (mLastValue u <> None -> 2 * Z.abs (n - mLastUnwrapped u) <= modulus T M) /\
      (mLastValue u = None -> n = v)
  | Undef => peek_unwrap T M u v = Undef /\ mLastValue u <> None
  | _ => False
  end.
Proof.
  intros [HT HU] HM Hv Hok. pose proof (modulus_bound T M HM) as HN. unfold unwrap, peek_unwrap.
  destruct (mLastValue u) as [last|] eqn:E; cbn [run_bind].
  - destruct (Hok last E) as [Hl Er].
    destruct (unwrapper_delta_spec T M HT HM last v Hl Hv) as (k & Ed & Bd).
    unfold add_int64. destruct (in_typeb I64 _); cbn [run_bind]; [|done].
    set (n := mLastUnwrapped u + unwrapper_delta T M last v).
    assert (En : n mod modulus T M = v).
    { unfold n. rewrite Ed, Z.add_assoc, Z.mod_add by lia. rewrite <- Zplus_mod_idemp_l, Er.
      replace (last + (v - last)) with v by lia. by apply Z.mod_small. }
    split; [done|]. split; [done|]. split; [|split; [|done]].
    + intros l [= <-]. cbn [mLastUnwrapped]. done.
    + intros _. unfold n. replace (_ + _ - _) with (unwrapper_delta T M last v) by lia. done.
  - split; [done|]. split; [by apply Z.mod_small|]. split; [|done].
    intros l [= <-]. cbn [mLastUnwrapped]. split; [done|]. by apply Z.mod_small.
Qed.

Lemma unwrap_step_witness :
  match unwrap U32 10 {| mLastUnwrapped := 29; mLastValue := Some 9 |} 1 with
  | Ret (n, _) => n = 31 /\ n mod 10 = 1
  | _ => False
  end.
Proof.
  pose proof (unwrap_step U32 10 1 {| mLastUnwrapped := 29; mLastValue := Some 9 |}) as H.
  assert (Hm : modulus U32 10 = 10) by reflexivity. rewrite Hm in H.
  change (unwrap U32 10 {| mLastUnwrapped := 29; mLastValue := Some 9 |} 1)
    with (Ret (31, {| mLastUnwrapped := 31; mLastValue := Some 1 |})) in H |- *.
  destruct H as (_ & H & _); [split; done|split; cbn; lia|lia| |split; [reflexivity|exact H]].
  intros last [= <-]. split; [lia|reflexivity].
Defined.
