(* ===== verification/Units.v ===== *)
(** * Units: durations, instants, rates, sizes and frequencies

    Models [src/cxxkit/units]: [UnitBase] and [RelativeUnit] of [unit_base.hpp], the
    five units built on them, and the operators between units of [timestamp.hpp],
    [data_rate.hpp] and [frequency.hpp]. The floating-point overloads are left out.
    [CXXKIT_DCHECK] is on, as in a debug build. *)

From stdpp Require Import prelude.
From Stdlib Require Import ZArith Lia.
From S2P Require Import Prelude CxxInt SafeMath DivideRound.
Import SafeCompare.

#[local] Open Scope Z_scope.
#[local] Open Scope cxx_scope.

(** ** unit_base.hpp *)
Inductive unit_kind := TimeDelta | Timestamp | DataRate | DataSize | Frequency.

Definition kOneSided (k : unit_kind) : bool := match k with TimeDelta => false | _ => true end.

(** A value of a unit: the stored [int64_t]. *)
Record quantity (k : unit_kind) := Quantity { mValue : Z }.
Arguments Quantity {k} _.
Arguments mValue {k} _.

Definition plus_infinity_val : Z := max I64.
Definition minus_infinity_val : Z := lowest I64.

Definition int64 (z : Z) : tval := TV I64 z.
Definition mul := binary Z.mul.

Section UnitBase.
Context {k : unit_kind}.
Implicit Types x y : quantity k.

Definition Zero : quantity k := Quantity 0.
Definition plus_infinity : quantity k := Quantity plus_infinity_val.
Definition minus_infinity : quantity k := Quantity minus_infinity_val.

Definition is_zero x : bool := mValue x =? 0.
Definition is_infinite x : bool := (mValue x =? plus_infinity_val) || (mValue x =? minus_infinity_val).
Definition is_finite x : bool := negb (is_infinite x).
Definition is_plus_infinity x : bool := mValue x =? plus_infinity_val.
Definition is_minus_infinity x : bool := mValue x =? minus_infinity_val.

Definition unit_eq x y : bool := mValue x =? mValue y.
Definition unit_le x y : bool := mValue x <=? mValue y.
Definition unit_lt x y : bool := mValue x <? mValue y.

(** [from_value] and [from_fraction] of a value of an integer type *)
Definition from_value (value : tval) : run (quantity k) :=
  do _ <- (if kOneSided k then check (safe_ge value (int 0)) else Ret tt);
  do _ <- check (safe_gt value (int64 minus_infinity_val));
  do _ <- check (safe_lt value (int64 plus_infinity_val));
  Ret (Quantity (val (SafeConversions.dchecked_cast I64 value))).

Definition from_fraction (denominator : Z) (value : tval) : run (quantity k) :=
  do _ <- (if kOneSided k then check (safe_ge value (int 0)) else Ret tt);
  do lo <- div (int64 minus_infinity_val) (int64 denominator);
  do hi <- div (int64 plus_infinity_val) (int64 denominator);
  do _ <- check (safe_gt value lo);
  do _ <- check (safe_lt value hi);
  do v <- mul value (int64 denominator);
  Ret (Quantity (val (SafeConversions.dchecked_cast I64 v))).

Definition to_value (T : itype) x : tval := SafeConversions.dchecked_cast T (int64 (mValue x)).
Definition to_value_or x (fallbackValue : Z) : Z := if is_finite x then mValue x else fallbackValue.

Definition to_fraction (Denominator : Z) (T : itype) x : run tval :=
  do _ <- check (is_finite x);
  do q <- divide_round_to_nearest (int64 (mValue x)) (int64 Denominator);
  Ret (SafeConversions.dchecked_cast T q).

Definition to_fraction_or (Denominator : Z) x (fallbackValue : Z) : run Z :=
  if is_finite x then
    do q <- divide_round_to_nearest (int64 (mValue x)) (int64 Denominator); Ret (val q)
  else Ret fallbackValue.

Definition to_multiple (Factor : Z) (T : itype) x : run tval :=
  do lo <- div (TV T (lowest T)) (int64 Factor);
  do hi <- div (TV T (max T)) (int64 Factor);
  do _ <- check (safe_ge (to_value I64 x) lo);
  do _ <- check (safe_le (to_value I64 x) hi);
  do m <- mul (to_value I64 x) (int64 Factor);
  Ret (SafeConversions.dchecked_cast T m).

(** [operator*] by a scalar of type [int64_t], [int32_t] or [size_t], and
    [operator/] by an integer. *)
Definition times x (scalar : tval) : run (quantity k) :=
  do m <- mul (to_value I64 x) scalar; from_value m.
Definition divided_by x (scalar : tval) : run (quantity k) :=
  do q <- div (to_value I64 x) scalar; from_value q.

Definition round_to x (resolution : quantity k) : run (quantity k) :=
  do _ <- check (is_finite x);
  do _ <- check (is_finite resolution);
  do _ <- check (safe_gt (int64 (mValue resolution)) (int 0));
  do half <- div (int64 (mValue resolution)) (int 2);
  do s <- add (int64 (mValue x)) half;
  do n <- div s (int64 (mValue resolution));
  times (Quantity (val n)) (int64 (mValue resolution)).

Definition round_up_to x (resolution : quantity k) : run (quantity k) :=
  do _ <- check (is_finite x);
  do _ <- check (is_finite resolution);
  do _ <- check (is_finite resolution);
  do _ <- check (safe_gt (int64 (mValue resolution)) (int 0));
  do s <- add (int64 (mValue x)) (int64 (mValue resolution));
  do s <- sub s (int 1);
  do n <- div s (int64 (mValue resolution));
  times (Quantity (val n)) (int64 (mValue resolution)).

Definition round_down_to x (resolution : quantity k) : run (quantity k) :=
  do _ <- check (is_finite x);
  do _ <- check (is_finite resolution);
  do _ <- check (safe_gt (int64 (mValue resolution)) (int 0));
  do n <- div (int64 (mValue x)) (int64 (mValue resolution));
  times (Quantity (val n)) (int64 (mValue resolution)).

(** [RelativeUnit]: [utils::math_min] and [math_max] are [std::min] and [std::max]. *)
Definition clamped x (min_value max_value : quantity k) : quantity k :=
  let m := if unit_lt max_value x then max_value else x in
  if unit_lt min_value m then m else min_value.

Definition plus x (other : quantity k) : run (quantity k) :=
  if is_plus_infinity x || is_plus_infinity other then
    do _ <- check (negb (is_minus_infinity x));
    do _ <- check (negb (is_minus_infinity other));
    Ret plus_infinity
  else if is_minus_infinity x || is_minus_infinity other then
    do _ <- check (negb (is_plus_infinity x));
    do _ <- check (negb (is_plus_infinity other));
    Ret minus_infinity
  else do s <- add (to_value I64 x) (to_value I64 other); from_value s.

Definition minus x (other : quantity k) : run (quantity k) :=
  if is_plus_infinity x || is_minus_infinity other then
    do _ <- check (negb (is_minus_infinity x));
    do _ <- check (negb (is_plus_infinity other));
    Ret plus_infinity
  else if is_minus_infinity x || is_plus_infinity other then
    do _ <- check (negb (is_plus_infinity x));
    do _ <- check (negb (is_minus_infinity other));
    Ret minus_infinity
  else do s <- sub (to_value I64 x) (to_value I64 other); from_value s.

Definition negate (other : quantity k) : run (quantity k) :=
  if is_plus_infinity other then Ret minus_infinity
  else if is_minus_infinity other then Ret plus_infinity
  else times other (int (-1)).

End UnitBase.

(** ** The units *)

(** time_delta.hpp *)
Module TimeDeltaUnit.
Definition seconds_of (value : tval) : run (quantity TimeDelta) := from_fraction 1000000 value.
Definition minutes (value : tval) : run (quantity TimeDelta) :=
  do v <- mul value (int 60); seconds_of v.
Definition millis (value : tval) : run (quantity TimeDelta) := from_fraction 1000 value.
Definition micros (value : tval) : run (quantity TimeDelta) := from_value value.

Definition us (x : quantity TimeDelta) : Z := val (to_value I64 x).
Definition seconds (x : quantity TimeDelta) : run tval := to_fraction 1000000 I64 x.
Definition ms (x : quantity TimeDelta) : run tval := to_fraction 1000 I64 x.
Definition ns (x : quantity TimeDelta) : run tval := to_multiple 1000 I64 x.
Definition seconds_or (x : quantity TimeDelta) (fallback_value : Z) : run Z := to_fraction_or 1000000 x fallback_value.
Definition ms_or (x : quantity TimeDelta) (fallback_value : Z) : run Z := to_fraction_or 1000 x fallback_value.
Definition us_or (x : quantity TimeDelta) (fallback_value : Z) : Z := to_value_or x fallback_value.
Definition abs (x : quantity TimeDelta) : run (quantity TimeDelta) :=
  if us x <? 0 then do n <- opp (to_value I64 x); micros n else Ret x.
End TimeDeltaUnit.

(** timestamp.hpp *)
Module TimestampUnit.
Definition seconds_of (value : tval) : run (quantity Timestamp) := from_fraction 1000000 value.
Definition millis (value : tval) : run (quantity Timestamp) := from_fraction 1000 value.
Definition micros (value : tval) : run (quantity Timestamp) := from_value value.
Definition us (x : quantity Timestamp) : Z := val (to_value I64 x).
Definition ms (x : quantity Timestamp) : run tval := to_fraction 1000 I64 x.
Definition seconds (x : quantity Timestamp) : run tval := to_fraction 1000000 I64 x.

(** [operator+] and [operator-] with a duration, and the difference of two instants *)
Definition plus_delta (t : quantity Timestamp) (delta : quantity TimeDelta) : run (quantity Timestamp) :=
  if is_plus_infinity t || is_plus_infinity delta then
    do _ <- check (negb (is_minus_infinity t));
    do _ <- check (negb (is_minus_infinity delta));
    Ret plus_infinity
  else if is_minus_infinity t || is_minus_infinity delta then
    do _ <- check (negb (is_plus_infinity t));
    do _ <- check (negb (is_plus_infinity delta));
    Ret minus_infinity
  else do s <- add (to_value I64 t) (to_value I64 delta); micros s.

Definition minus_delta (t : quantity Timestamp) (delta : quantity TimeDelta) : run (quantity Timestamp) :=
  if is_plus_infinity t || is_minus_infinity delta then
    do _ <- check (negb (is_minus_infinity t));
    do _ <- check (negb (is_plus_infinity delta));
    Ret plus_infinity
  else if is_minus_infinity t || is_plus_infinity delta then
    do _ <- check (negb (is_plus_infinity t));
    do _ <- check (negb (is_minus_infinity delta));
    Ret minus_infinity
  else do s <- sub (to_value I64 t) (to_value I64 delta); micros s.

Definition difference (t other : quantity Timestamp) : run (quantity TimeDelta) :=
  if is_plus_infinity t || is_minus_infinity other then
    do _ <- check (negb (is_minus_infinity t));
    do _ <- check (negb (is_plus_infinity other));
    Ret plus_infinity
  else if is_minus_infinity t || is_plus_infinity other then
    do _ <- check (negb (is_plus_infinity t));
    do _ <- check (negb (is_minus_infinity other));
    Ret minus_infinity
  else do s <- sub (to_value I64 t) (to_value I64 other); TimeDeltaUnit.micros s.
End TimestampUnit.

(** data_size.hpp, data_rate.hpp and frequency.hpp *)
Module RateUnits.
Definition bytes_of (value : tval) : run (quantity DataSize) := from_value value.
Definition bytes (x : quantity DataSize) : Z := val (to_value I64 x).

Definition bits_per_sec (value : tval) : run (quantity DataRate) := from_value value.
Definition bytes_per_sec_of (value : tval) : run (quantity DataRate) := from_fraction 8 value.
Definition kilobits_per_sec (value : tval) : run (quantity DataRate) := from_fraction 1000 value.
Definition bps (x : quantity DataRate) : Z := val (to_value I64 x).
Definition bytes_per_sec (x : quantity DataRate) : run tval := to_fraction 8 I64 x.
Definition kbps (x : quantity DataRate) : run tval := to_fraction 1000 I64 x.

Definition milli_hertz (value : tval) : run (quantity Frequency) := from_value value.
Definition hertz_of (value : tval) : run (quantity Frequency) := from_fraction 1000 value.
Definition kilo_hertz (value : tval) : run (quantity Frequency) := from_fraction 1000000 value.
Definition hertz (x : quantity Frequency) : run tval := to_fraction 1000 I64 x.
Definition millihertz (x : quantity Frequency) : Z := val (to_value I64 x).

Definition microbits (size : quantity DataSize) : run tval :=
  do _ <- check (safe_le (int64 (bytes size)) (int64 (max I64 / 8000000)));
  mul (int64 (bytes size)) (int 8000000).

Definition millibyte_per_sec (rate : quantity DataRate) : run tval :=
  do _ <- check (safe_le (int64 (bps rate)) (int64 (max I64 / (1000 / 8))));
  mul (int64 (bps rate)) (int (1000 / 8)).

(** The operators between units, by the types of their operands. *)
Definition size_per_duration (size : quantity DataSize) (duration : quantity TimeDelta) : run (quantity DataRate) :=
  do m <- microbits size;
  do q <- div m (int64 (TimeDeltaUnit.us duration));
  bits_per_sec q.

Definition size_per_rate (size : quantity DataSize) (rate : quantity DataRate) : run (quantity TimeDelta) :=
  do m <- microbits size;
  do q <- div m (int64 (bps rate));
  TimeDeltaUnit.micros q.

Definition rate_times_duration (rate : quantity DataRate) (duration : quantity TimeDelta) : run (quantity DataSize) :=
  do microbits <- mul (int64 (bps rate)) (int64 (TimeDeltaUnit.us duration));
  do s <- add microbits (int 4000000);
  do q <- div s (int 8000000);
  bytes_of q.

Definition rate_per_frequency (rate : quantity DataRate) (frequency : quantity Frequency) : run (quantity DataSize) :=
  do m <- millibyte_per_sec rate;
  do q <- div m (int64 (millihertz frequency));
  bytes_of q.

Definition rate_per_size (rate : quantity DataRate) (size : quantity DataSize) : run (quantity Frequency) :=
  do m <- millibyte_per_sec rate;
  do q <- div m (int64 (bytes size));
  milli_hertz q.

Definition size_times_frequency (size : quantity DataSize) (frequency : quantity Frequency) : run (quantity DataRate) :=
  do _ <- (if is_zero frequency then Ret tt
           else do q <- div (int64 (max I64 / 8)) (int64 (millihertz frequency));
                check (compare Z.leb (int64 (bytes size)) q));
  do b <- mul (int64 (bytes size)) (int 8);
  do m <- mul b (int64 (millihertz frequency));
  do s <- add m (int 500);
  do q <- div s (int 1000);
  bits_per_sec q.

(** frequency.hpp: [1 / interval] and [1 / frequency]; the two [CXXKIT_CHECK]s are
    always on *)
Definition per_interval (nominator : Z) (interval : quantity TimeDelta) : run (quantity Frequency) :=
  let kKiloPerMicro := 1000 * 1000000 in
  do _ <- check (safe_le (int64 nominator) (int64 (max I64 / kKiloPerMicro)));
  do _ <- check (is_finite interval);
  do _ <- check (negb (is_zero interval));
  do m <- mul (int64 nominator) (int64 kKiloPerMicro);
  do q <- div m (int64 (TimeDeltaUnit.us interval));
  milli_hertz q.

Definition per_frequency (nominator : Z) (frequency : quantity Frequency) : run (quantity TimeDelta) :=
  let kMegaPerMilli := 1000000 * 1000 in
  do _ <- check (safe_le (int64 nominator) (int64 (max I64 / kMegaPerMilli)));
  do _ <- check (is_finite frequency);
  do _ <- check (negb (is_zero frequency));
  do m <- mul (int64 nominator) (int64 kMegaPerMilli);
  do q <- div m (int64 (millihertz frequency));
  TimeDeltaUnit.micros q.
End RateUnits.
