(* ===== verification/UnitsFacts.v ===== *)
(** * Unit arithmetic: sums over the extended integers, rounding, rates

    The theorems on [Units]: the sums and differences of all units refine one
    partial operation on the integers with two infinities, the three roundings give
    multiples of the resolution, and the rate operators invert each other up to the
    documented rounding. *)

From stdpp Require Import prelude.
From Stdlib Require Import ZArith Lia.
From S2P Require Import Prelude CxxInt SafeMath DivideRound Units.
Import SafeCompare.

#[local] Open Scope Z_scope.
#[local] Open Scope cxx_scope.

(** ** Arithmetic on [int64_t] operands *)
Definition in64 (z : Z) : Prop := in_type I64 z.

Definition arith64 (z : Z) : run tval := if in_typeb I64 z then Ret (int64 z) else Undef.

Lemma in64_range (z : Z) : in64 z <-> - 2 ^ 63 <= z <= 2 ^ 63 - 1.
Proof. done. Qed.

Lemma convert64 (z : Z) : in64 z -> convert I64 z = z.
Proof. apply convert_id. Qed.

Lemma binary64 (f : Z -> Z -> Z) (a b : tval) :
  ty a = I64 -> common_type I64 (ty b) = I64 -> in64 (val a) -> in64 (val b) ->
  binary f a b = arith64 (f (val a) (val b)).
Proof.
  destruct a as [Ta a], b as [Tb b]. cbn [ty val]. intros -> E Ha Hb. unfold binary. cbn [ty val].
  rewrite E, !convert64 by done. reflexivity.
Qed.

Lemma arith64_in (z : Z) : in64 z -> arith64 z = Ret (int64 z).
Proof. intros H. unfold arith64. by rewrite (proj2 (in_typeb_spec I64 z)). Qed.

Lemma div64 (a b : Z) (T : itype) : common_type I64 T = I64 -> in64 a -> in64 b -> 0 < b ->
  div (int64 a) (TV T b) = Ret (int64 (Z.quot a b)).
Proof. intros E Ha Hb Hpos. rewrite (div_exact I64 T) by (rewrite ?E; done). by rewrite E. Qed.

Lemma safe64 (op : Z -> Z -> bool) `{SignOp op} (a b : Z) (T : itype) :
  in64 a -> in_type T b -> safe op (int64 a) (TV T b) = op a b.
Proof. intros Ha Hb. by rewrite safe_exact. Qed.

(** What a finite value of the unit may be. *)
Definition valid_finite (k : unit_kind) (z : Z) : bool :=
  (negb (kOneSided k) || (0 <=? z)) && (minus_infinity_val <? z) && (z <? plus_infinity_val).

Lemma from_value64 (k : unit_kind) (z : Z) : in64 z ->
  from_value (k:=k) (int64 z) = if valid_finite k z then Ret (Quantity z) else Fatal.
Proof.
  intros H. unfold from_value, valid_finite.
  unfold safe_ge, safe_gt, safe_lt, int, int64.
  rewrite !safe_exact by (done || apply _ || (split; cbn; lia) || (apply convert_range)).
  cbn [val]. unfold SafeConversions.dchecked_cast, cast. cbn [ty val]. rewrite convert64 by done.
  rewrite Z.geb_leb, Z.gtb_ltb.
  destruct (kOneSided k), (0 <=? z), (minus_infinity_val <? z), (z <? plus_infinity_val); reflexivity.
Qed.

(** ** Sums *)

(** The integers with two infinities; the sum of opposite infinities has no value. *)
Inductive ext := NegInf | Fin (z : Z) | PosInf.

Definition ext_add (x y : ext) : option ext :=
  match x, y with
  | Fin a, Fin b => Some (Fin (a + b))
  | PosInf, NegInf | NegInf, PosInf => None
  | PosInf, _ | _, PosInf => Some PosInf
  | NegInf, _ | _, NegInf => Some NegInf
  end.

Definition ext_opp (x : ext) : ext :=
  match x with NegInf => PosInf | Fin z => Fin (- z) | PosInf => NegInf end.

Definition denote {k} (x : quantity k) : ext :=
  if is_plus_infinity x then PosInf else if is_minus_infinity x then NegInf else Fin (mValue x).

(** How a result is delivered: a check aborts on a finite value the unit does not
    have, and [int64_t] overflow is undefined. *)
Definition deliver (k : unit_kind) (r : option ext) : run (quantity k) :=
  match r with
  | None => Fatal
  | Some PosInf => Ret plus_infinity
  | Some NegInf => Ret minus_infinity
  | Some (Fin z) =>
      if in_typeb I64 z then (if valid_finite k z then Ret (Quantity z) else Fatal) else Undef
  end.

Definition stored {k} (x : quantity k) : Prop := in64 (mValue x).

Lemma to_value64 {k} (x : quantity k) : stored x -> to_value I64 x = int64 (mValue x).
Proof. intros H. unfold to_value, SafeConversions.dchecked_cast, cast. cbn [val int64]. by rewrite convert64. Qed.

Lemma arith_deliver (k : unit_kind) (z : Z) :
  (do s <- arith64 z; from_value (k:=k) s) = deliver k (Some (Fin z)).
Proof.
  unfold arith64, deliver. destruct (in_typeb I64 z) eqn:E; [|done]. cbn [run_bind].
  apply from_value64. by apply in_typeb_spec.
Qed.

Ltac open_sum :=
  unfold denote, is_plus_infinity, is_minus_infinity;
  repeat match goal with
  | |- context [mValue ?x =? ?v] => destruct (Z.eqb_spec (mValue x) v); cbn [orb negb]
  end; try reflexivity;
  try (exfalso; unfold plus_infinity_val, minus_infinity_val, max, lowest in *; cbn in *; lia).

Section Sums.
Context {k : unit_kind} (x y : quantity k) (Hx : stored x) (Hy : stored y).

Lemma plus_refines : plus x y = deliver k (ext_add (denote x) (denote y)).
Proof.
  unfold plus. rewrite !to_value64 by done. unfold add. rewrite binary64 by done. rewrite arith_deliver.
  open_sum.
Qed.

Lemma minus_refines : minus x y = deliver k (ext_add (denote x) (ext_opp (denote y))).
Proof.
  unfold minus. rewrite !to_value64 by done. unfold sub. rewrite binary64 by done. rewrite arith_deliver.
  open_sum; cbn [ext_opp ext_add]; by rewrite Z.sub_opp_r || by rewrite Z.add_opp_r.
Qed.
End Sums.

Section TimestampSums.
Context (t u : quantity Timestamp) (d : quantity TimeDelta) (Ht : stored t) (Hu : stored u) (Hd : stored d).

Lemma plus_delta_refines : TimestampUnit.plus_delta t d = deliver Timestamp (ext_add (denote t) (denote d)).
Proof.
  unfold TimestampUnit.plus_delta, TimestampUnit.micros. rewrite !to_value64 by done.
  unfold add. rewrite binary64 by done. rewrite arith_deliver. open_sum.
Qed.

Lemma minus_delta_refines : TimestampUnit.minus_delta t d = deliver Timestamp (ext_add (denote t) (ext_opp (denote d))).
Proof.
  unfold TimestampUnit.minus_delta, TimestampUnit.micros. rewrite !to_value64 by done.
  unfold sub. rewrite binary64 by done. rewrite arith_deliver. open_sum; cbn [ext_opp ext_add]; by rewrite Z.add_opp_r.
Qed.

Lemma difference_refines : TimestampUnit.difference t u = deliver TimeDelta (ext_add (denote t) (ext_opp (denote u))).
Proof.
  unfold TimestampUnit.difference, TimeDeltaUnit.micros. rewrite !to_value64 by done.
  unfold sub. rewrite binary64 by done. rewrite arith_deliver. open_sum; cbn [ext_opp ext_add]; by rewrite Z.add_opp_r.
Qed.
End TimestampSums.

(** The sum and the difference of two values of any unit, and of an instant and a
    duration, refine addition of extended integers: infinities absorb, opposite
    infinities abort, a finite result the unit cannot hold aborts, and only a result
    outside [int64_t] is undefined. *)
Theorem unit_sums_refine (k : unit_kind) (x y : quantity k) (t u : quantity Timestamp) (d : quantity TimeDelta) :
  stored x -> stored y -> stored t -> stored u -> stored d ->
  plus x y = deliver k (ext_add (denote x) (denote y)) /\
  minus x y = deliver k (ext_add (denote x) (ext_opp (denote y))) /\
  TimestampUnit.plus_delta t d = deliver Timestamp (ext_add (denote t) (denote d)) /\
  TimestampUnit.minus_delta t d = deliver Timestamp (ext_add (denote t) (ext_opp (denote d))) /\
  TimestampUnit.difference t u = deliver TimeDelta (ext_add (denote t) (ext_opp (denote u))).
Proof.
  intros. split; [by apply plus_refines|]. split; [by apply minus_refines|].
  split; [by apply plus_delta_refines|]. split; [by apply minus_delta_refines|by apply difference_refines].
Qed.

Lemma unit_sums_refine_witness :
  plus (k:=DataRate) (Quantity 7) plus_infinity = Ret plus_infinity /\
  TimestampUnit.difference (Quantity 5) (Quantity 9) = Ret (Quantity (-4)) /\
  TimestampUnit.minus_delta (Quantity 5) (Quantity 9) = Fatal.
Proof.
  destruct (unit_sums_refine DataRate (Quantity 7) plus_infinity (Quantity 5) (Quantity 9) (Quantity 9))
    as (H1 & _ & _ & H2 & H3); [split; cbn; lia| split; cbn; lia|split; cbn; lia|split; cbn; lia|split; cbn; lia|].
  split; [exact H1|]. split; [exact H3|exact H2].
Defined.

(** ** Rounding to a multiple *)
Lemma mul64 (a b : Z) (T : itype) : common_type I64 T = I64 -> in64 a -> in64 b ->
  mul (int64 a) (TV T b) = arith64 (a * b).
Proof. intros E Ha Hb. unfold mul. by rewrite binary64. Qed.

Lemma times64 {k} (a b : Z) : in64 a -> in64 b -> in64 (a * b) ->
  times (k:=k) (Quantity a) (int64 b) = if valid_finite k (a * b) then Ret (Quantity (a * b)) else Fatal.
Proof.
  intros Ha Hb Hab. unfold times. rewrite to_value64 by done. cbn [mValue].
  unfold int64 at 2. rewrite mul64, arith64_in by done. cbn [run_bind]. by rewrite from_value64.
Qed.

(** A finite stored value. *)
Definition finite64 (z : Z) : Prop := minus_infinity_val < z < plus_infinity_val.

Lemma finite64_stored (z : Z) : finite64 z -> in64 z.
Proof. unfold finite64, plus_infinity_val, minus_infinity_val, in_type. unfold in64, in_type. lia. Qed.

Lemma is_finite_spec {k} (z : Z) : finite64 z -> is_finite (k:=k) (Quantity z) = true.
Proof.
  unfold finite64, is_finite, is_infinite. cbn [mValue]. intros H.
  rewrite (proj2 (Z.eqb_neq _ _)), (proj2 (Z.eqb_neq _ _)) by lia. done.
Qed.

Lemma valid_nonneg (k : unit_kind) (z : Z) : 0 <= z < plus_infinity_val -> valid_finite k z = true.
Proof.
  intros H. unfold valid_finite. assert (minus_infinity_val < 0) by done.
  rewrite (proj2 (Z.leb_le 0 z)), orb_true_r, !andb_true_iff, !Z.ltb_lt by lia. lia.
Qed.

Section Rounding.
Context {k : unit_kind} (x r : Z) (Hx : 0 <= x) (Hr : 0 < r) (Hsum : x + r < plus_infinity_val).

Lemma rounding_inputs : finite64 x /\ finite64 r /\ in64 (x + r) /\ in64 x /\ in64 r.
Proof. unfold finite64. assert (minus_infinity_val < 0) by done. unfold in64, in_type, plus_infinity_val in *. cbn in *. lia. Qed.

(** The multiple reached from a value below [x + r]. *)
Lemma multiple (s : Z) : 0 <= s <= x + r ->
  (do n <- div (int64 s) (int64 r); times (k:=k) (Quantity (val n)) (int64 r)) = Ret (Quantity (s / r * r)).
Proof.
  intros Hs. destruct rounding_inputs as (_ & _ & Hin & _ & Hr').
  assert (Hs' : in64 s) by (apply (in_type_le I64 s (x + r)); done).
  unfold int64 at 2. rewrite div64 by done. cbn [run_bind val int64].
  rewrite Z.quot_div_nonneg by lia. pose proof (Z.div_mod s r ltac:(lia)). pose proof (Z.mod_pos_bound s r Hr).
  pose proof (Z.div_pos s r ltac:(lia) Hr).
  rewrite times64; [|apply (in_type_le I64 _ (x + r)); [nia|done]|done|apply (in_type_le I64 _ (x + r)); [nia|done]].
  rewrite valid_nonneg by nia. done.
Qed.

Lemma resolution_positive : check (safe_gt (int64 r) (int 0)) = Ret tt.
Proof. apply (check_positive I64 r); [|done]. apply rounding_inputs. Qed.

Lemma add64 (a b : Z) (T : itype) : common_type I64 T = I64 -> 0 <= a -> 0 <= b -> a + b <= x + r ->
  add (int64 a) (TV T b) = Ret (int64 (a + b)).
Proof.
  intros E Ha Hb Hab. destruct rounding_inputs as (_ & _ & Hin & _).
  unfold add. rewrite binary64; try done; cbn [val int64]; [|apply (in_type_le I64 _ (x + r)); [lia|done]..].
  apply arith64_in, (in_type_le I64 _ (x + r)); [cbn [val int64]; lia|done].
Qed.

Lemma round_to_spec : round_to (k:=k) (Quantity x) (Quantity r) = Ret (Quantity (round_half_up x r * r)).
Proof.
  destruct rounding_inputs as (Fx & Fr & Hin & Hx' & Hr'). unfold round_to.
  rewrite !is_finite_spec by done. cbn [mValue check run_bind]. rewrite resolution_positive. cbn [run_bind].
  unfold int. rewrite div64 by (done || lia || (split; cbn; lia)). cbn [run_bind].
  rewrite (Z.quot_div_nonneg r 2) by lia.
  pose proof (Z.div_mod r 2 ltac:(lia)). pose proof (Z.mod_pos_bound r 2 ltac:(lia)).
  unfold int64 at 2. rewrite add64 by (done || lia). cbn [run_bind]. rewrite multiple by lia. do 2 f_equal.
  unfold round_half_up. f_equal.
  pose proof (Z.div_mod (x + r / 2) r ltac:(lia)). pose proof (Z.mod_pos_bound (x + r / 2) r Hr).
  apply (Z.div_unique _ _ _ (2 * ((x + r / 2) mod r) + r mod 2)); lia.
Qed.

Lemma round_up_to_spec : round_up_to (k:=k) (Quantity x) (Quantity r) = Ret (Quantity (round_up x r * r)).
Proof.
  destruct rounding_inputs as (Fx & Fr & Hin & Hx' & Hr'). unfold round_up_to.
  rewrite !is_finite_spec by done. cbn [mValue check run_bind]. rewrite resolution_positive. cbn [run_bind].
  unfold int64 at 2. rewrite add64 by (done || lia). cbn [run_bind].
  unfold sub, int. rewrite binary64 by (done || (split; cbn; lia)). cbn [val int64].
  rewrite arith64_in by (apply (in_type_le I64 _ (x + r)); [lia|done]). cbn [run_bind].
  rewrite multiple by lia. do 2 f_equal. f_equal. unfold round_up.
  pose proof (Z.div_mod (- x) r ltac:(lia)). pose proof (Z.mod_pos_bound (- x) r Hr).
  symmetry. apply (Z.div_unique _ _ _ (r - 1 - (- x) mod r)); lia.
Qed.

Lemma round_down_to_spec : round_down_to (k:=k) (Quantity x) (Quantity r) = Ret (Quantity (x / r * r)).
Proof.
  destruct rounding_inputs as (Fx & Fr & Hin & Hx' & Hr'). unfold round_down_to.
  rewrite !is_finite_spec by done. cbn [mValue check run_bind]. rewrite resolution_positive. cbn [run_bind].
  rewrite multiple by lia. done.
Qed.
End Rounding.

(** Rounding a non-negative finite quantity to a positive resolution, up and down,
    gives the nearest multiple (halves going up), the least multiple not below and the
    greatest not above it, as long as the sum of the two stays finite. *)
Theorem rounding_correct (k : unit_kind) (x r : Z) :
  0 <= x -> 0 < r -> x + r < plus_infinity_val ->
  round_to (k:=k) (Quantity x) (Quantity r) = Ret (Quantity (round_half_up x r * r)) /\
  round_up_to (k:=k) (Quantity x) (Quantity r) = Ret (Quantity (round_up x r * r)) /\
  round_down_to (k:=k) (Quantity x) (Quantity r) = Ret (Quantity (x / r * r)) /\
  (x / r * r <= x <= round_up x r * r) /\ round_up x r * r - x < r /\
  2 * Z.abs (round_half_up x r * r - x) <= r.
Proof.
  intros Hx Hr Hs. split; [by apply round_to_spec|]. split; [by apply round_up_to_spec|].
  split; [by apply round_down_to_spec|].
  unfold round_up, round_half_up.
  pose proof (Z.div_mod (- x) r ltac:(lia)). pose proof (Z.mod_pos_bound (- x) r Hr).
  pose proof (Z.div_mod x r ltac:(lia)). pose proof (Z.mod_pos_bound x r Hr).
  pose proof (Z.div_mod (2 * x + r) (2 * r) ltac:(lia)). pose proof (Z.mod_pos_bound (2 * x + r) (2 * r) ltac:(lia)).
  lia.
Qed.

Lemma rounding_correct_witness :
  round_to (k:=TimeDelta) (Quantity 1500) (Quantity 1000) = Ret (Quantity 2000) /\
  round_down_to (k:=TimeDelta) (Quantity 1500) (Quantity 1000) = Ret (Quantity 1000).
Proof.
  destruct (rounding_correct TimeDelta 1500 1000 ltac:(lia) ltac:(lia) ltac:(cbn; lia)) as (H1 & _ & H2 & _).
  split; [exact H1|exact H2].
Defined.

(** A negative duration is not rounded to the nearest multiple, nor down. *)
Lemma negative_rounding_truncates :
  round_to (k:=TimeDelta) (Quantity (-7)) (Quantity 10) = Ret (Quantity 0) /\
  round_down_to (k:=TimeDelta) (Quantity (-7)) (Quantity 10) = Ret (Quantity 0).
Proof. split; reflexivity. Qed.

(** A negative duration multiplied by a [size_t] is multiplied as an unsigned value
    and aborts; by an [int64_t] it is not. *)
Lemma negative_times_size_aborts :
  times (k:=TimeDelta) (Quantity (-1)) (TV U64 2) = Fatal /\
  times (k:=TimeDelta) (Quantity (-1)) (TV I64 2) = Ret (Quantity (-2)).
Proof. split; reflexivity. Qed.

(** ** Rates *)

Import RateUnits.

Definition max_size : Z := max I64 / 8000000.

Lemma max_size_eq : max_size = 1152921504606. Proof. reflexivity. Qed.
Lemma plus_infinity_eq : plus_infinity_val = 9223372036854775807. Proof. reflexivity. Qed.
Lemma in64_eq (z : Z) : in64 z <-> -9223372036854775808 <= z <= 9223372036854775807. Proof. reflexivity. Qed.

(** Bounds of [int64_t] as linear arithmetic. *)
Ltac lia64 := rewrite ?in64_eq, ?max_size_eq, ?plus_infinity_eq in *; lia.
Ltac nia64 := rewrite ?in64_eq, ?max_size_eq, ?plus_infinity_eq in *; nia.

Lemma microbits_spec (s : Z) : 0 <= s <= max_size -> microbits (Quantity s) = Ret (int64 (s * 8000000)).
Proof.
  intros Hs. assert (Hs' : in64 s) by lia64.
  unfold microbits, bytes. rewrite to_value64 by done. cbn [mValue val int64].
  unfold safe_le. rewrite safe_exact by (done || apply _ || (split; vm_compute; discriminate)).
  cbn [val int64]. fold max_size. rewrite (proj2 (Z.leb_le s max_size)) by lia. cbn [check run_bind].
  unfold int. rewrite mul64 by (done || (split; vm_compute; discriminate)).
  apply arith64_in. lia64.
Qed.

Lemma scaled_quotient (k : unit_kind) (s d : Z) : 0 <= s <= max_size -> 0 < d -> in64 d ->
  (do q <- div (int64 (s * 8000000)) (int64 d); from_value (k:=k) q) = Ret (Quantity (s * 8000000 / d)).
Proof.
  intros Hs Hd Hd'.
  assert (Hm : 0 <= s * 8000000 < plus_infinity_val) by lia64.
  assert (Hm' : in64 (s * 8000000)) by lia64.
  unfold int64 at 2. rewrite div64 by done. cbn [run_bind]. rewrite Z.quot_div_nonneg by lia.
  pose proof (Z.div_pos (s * 8000000) d ltac:(lia) Hd).
  pose proof (Z.div_le_upper_bound (s * 8000000) d (s * 8000000) Hd ltac:(nia)).
  rewrite from_value64 by (apply (in_type_le I64 _ (s * 8000000)); [lia|done]).
  by rewrite valid_nonneg by lia.
Qed.

Lemma rate_times_duration_spec (b d : Z) : 0 <= b -> 0 < d -> in64 d -> b * d + 4000000 < plus_infinity_val ->
  rate_times_duration (Quantity b) (Quantity d) = Ret (Quantity (round_half_up (b * d) 8000000)).
Proof.
  intros Hb Hd Hd' Hm.
  assert (Hall : forall z, 0 <= z <= b * d + 4000000 -> in64 z)
    by (intros; lia64).
  unfold rate_times_duration, bps, TimeDeltaUnit.us. 
  assert (Hb' : in64 b) by (apply Hall; nia). rewrite !to_value64 by done.
  cbn [mValue val int64]. unfold int64 at 2. rewrite mul64 by (done || (apply Hall; nia)).
  rewrite arith64_in by (apply Hall; nia). cbn [run_bind].
  unfold add, int. rewrite binary64 by (done || (cbn [val int64]; apply Hall; nia)).
  cbn [val int64]. rewrite arith64_in by (apply Hall; nia). cbn [run_bind].
  rewrite div64 by (done || (apply Hall; nia)). cbn [run_bind].
  rewrite Z.quot_div_nonneg by nia.
  assert (E : round_half_up (b * d) 8000000 = (b * d + 4000000) / 8000000).
  { unfold round_half_up. rewrite <- (Z.div_mul_cancel_r (b * d + 4000000) 8000000 2) by lia. f_equal; lia. }
  rewrite E. pose proof (Z.div_mod (b * d + 4000000) 8000000 ltac:(lia)).
  pose proof (Z.mod_pos_bound (b * d + 4000000) 8000000 ltac:(lia)).
  unfold bytes_of. rewrite from_value64, valid_nonneg; [done|lia|apply Hall; nia].
Qed.

(** Dividing a size by a duration or a rate gives the integer part of the exact
    quotient; multiplying a rate by a duration gives the nearest size; and the size
    carried for a duration at the rate computed from both falls short of the size by no
    more than the rounding of the two steps. *)
Theorem data_rate_correct (s d : Z) :
  0 <= s <= max_size -> 0 < d -> in64 d -> s * 8000000 + 4000000 < plus_infinity_val ->
  exists b s',
    size_per_duration (Quantity s) (Quantity d) = Ret (Quantity b) /\ b = s * 8000000 / d /\
    (0 < b -> size_per_rate (Quantity s) (Quantity b) = Ret (Quantity (s * 8000000 / b))) /\
    rate_times_duration (Quantity b) (Quantity d) = Ret (Quantity s') /\
    s' <= s /\ 8000000 * (s - s') < d + 4000000.
Proof.
  intros Hs Hd Hd' Hm. set (b := s * 8000000 / d).
  pose proof (Z.div_mod (s * 8000000) d ltac:(lia)) as E. pose proof (Z.mod_pos_bound (s * 8000000) d Hd).
  assert (Hb : 0 <= b) by (apply Z.div_pos; lia).
  fold b in E. assert (Hbd : b * d <= s * 8000000) by nia.
  exists b, (round_half_up (b * d) 8000000). split; [|split; [done|split; [|split; [|]]]].
  - unfold size_per_duration, TimeDeltaUnit.us. rewrite microbits_spec by done. cbn [run_bind].
    rewrite to_value64 by done. by apply scaled_quotient.
  - intros Hb0. unfold size_per_rate, bps. rewrite microbits_spec by done. cbn [run_bind].
    assert (in64 b) by nia64.
    rewrite to_value64 by done. by apply scaled_quotient.
  - apply rate_times_duration_spec; try done. lia.
  - unfold round_half_up.
    pose proof (Z.div_mod (2 * (b * d) + 8000000) (2 * 8000000) ltac:(lia)).
    pose proof (Z.mod_pos_bound (2 * (b * d) + 8000000) (2 * 8000000) ltac:(lia)). lia.
Qed.

Lemma data_rate_correct_witness :
  size_per_duration (Quantity 1000) (Quantity 3000000) = Ret (Quantity 2666) /\
  rate_times_duration (Quantity 2666) (Quantity 3000000) = Ret (Quantity 1000).
Proof.
  destruct (data_rate_correct 1000 3000000) as (b & s' & H1 & Hb & _ & H2 & _);
    [rewrite max_size_eq; lia|lia|split; cbn; lia|rewrite plus_infinity_eq; lia|].
  subst b. split; [exact H1|]. change (Quantity 2666) with (Quantity (k:=DataRate) (1000 * 8000000 / 3000000)).
  rewrite H2. f_equal. change (rate_times_duration _ _) with (Ret (Quantity (k:=DataSize) 1000)) in H2. congruence.
Defined.
