(* ===== verification/TaskQueue.v ===== *)
(** * The task-queue thread

    Models [src/cxxkit/thread/task_queue_thread.cpp] and [.hpp]: the two ordered sets
    of pending and delayed tasks, posting, cancelling, the choice of the next task, and
    the worker loop as a step relation interleaved with the calls of other threads.
    Every member function takes [mMutex] for its whole body, except that the clock is
    read before the lock is taken in [pop_next_task]; the steps below are therefore
    atomic. The steady clock of [DateTime] is the argument [now]. *)

From stdpp Require Import prelude list sorting.
From Stdlib Require Import ZArith Lia.
From S2P Require Import Prelude StdSet CxxInt SafeMath DivideRound Units.

#[local] Open Scope Z_scope.
#[local] Open Scope cxx_scope.

(** ** Data *)

(** A [Task::SharedPtr]: null, or the address of a task. *)
Definition task_ptr : Type := option positive.

Record PendingTask := { pid : Z; ptask : task_ptr }.
Record DelayedTask := { did : Z; timestamp : Z; dtask : task_ptr }.

Definition PendingTask_Compare (lhs rhs : PendingTask) : bool := pid lhs <? pid rhs.

(** [std::tie(lhs.timestamp, lhs.id) < std::tie(rhs.timestamp, rhs.id)] *)
Definition DelayedTask_Compare (lhs rhs : DelayedTask) : bool :=
  (timestamp lhs <? timestamp rhs) || ((timestamp lhs =? timestamp rhs) && (did lhs <? did rhs)).

Record TaskQueueThread := {
  mQuit : bool;
  mTaskIdCounter : Z;
  mPendingTasks : list PendingTask;  (* a [std::set], in its order *)
  mDelayedTasks : list DelayedTask;
}.

Definition TaskQueueThread_init : TaskQueueThread :=
  {| mQuit := false; mTaskIdCounter := 0; mPendingTasks := []; mDelayedTasks := [] |}.

Record NextTask := { finalTask : bool; runTask : task_ptr; sleepTime : quantity TimeDelta }.

(** ** Operations *)
Definition next_id (d : TaskQueueThread) : Z := wrap 64 (mTaskIdCounter d + 1).

Definition post_task (d : TaskQueueThread) (task : task_ptr) : TaskQueueThread :=
  {| mQuit := mQuit d; mTaskIdCounter := next_id d;
     mPendingTasks := set_insert PendingTask_Compare {| pid := next_id d; ptask := task |} (mPendingTasks d);
     mDelayedTasks := mDelayedTasks d |}.

Definition post_delayed_task (now : Z) (d : TaskQueueThread) (task : task_ptr) (delay : quantity TimeDelta)
    : run TaskQueueThread :=
  do ts <- add (int64 now) (int64 (TimeDeltaUnit.us delay));
  Ret {| mQuit := mQuit d; mTaskIdCounter := next_id d; mPendingTasks := mPendingTasks d;
         mDelayedTasks := set_insert DelayedTask_Compare
           {| did := next_id d; timestamp := val ts; dtask := task |} (mDelayedTasks d) |}.

Definition cancel_task (d : TaskQueueThread) (task : task_ptr) : TaskQueueThread * bool :=
  let (pending, c1) := erase_if (fun e => ptask e = task) (mPendingTasks d) in
  let (delayed, c2) := erase_if (fun e => dtask e = task) (mDelayedTasks d) in
  ({| mQuit := mQuit d; mTaskIdCounter := mTaskIdCounter d; mPendingTasks := pending; mDelayedTasks := delayed |},
   c1 || c2).

Definition no_task : NextTask := {| finalTask := false; runTask := None; sleepTime := plus_infinity |}.

Definition with_pending (d : TaskQueueThread) (l : list PendingTask) : TaskQueueThread :=
  {| mQuit := mQuit d; mTaskIdCounter := mTaskIdCounter d; mPendingTasks := l; mDelayedTasks := mDelayedTasks d |}.
Definition with_delayed (d : TaskQueueThread) (l : list DelayedTask) : TaskQueueThread :=
  {| mQuit := mQuit d; mTaskIdCounter := mTaskIdCounter d; mPendingTasks := mPendingTasks d; mDelayedTasks := l |}.

Definition next_of (task : task_ptr) (sleep : quantity TimeDelta) : NextTask :=
  {| finalTask := false; runTask := task; sleepTime := sleep |}.

(** [sleepTime] until the first delayed task, when it is not due *)
Definition sleep_until (tickUSecs ts : Z) : run (quantity TimeDelta) :=
  do gap <- sub (int64 ts) (int64 tickUSecs);
  do n <- divide_round_up gap (int 1000);
  TimeDeltaUnit.millis n.

(** The tail of [pop_next_task]: the first pending task, else the capped sleep. *)
Definition pop_pending (d : TaskQueueThread) (sleep : quantity TimeDelta) : run (NextTask * TaskQueueThread) :=
  let (result, d') :=
    match mPendingTasks d with
    | p :: rest => (next_of (ptask p) sleep, with_pending d rest)
    | [] => (next_of None sleep, d)
    end in
  match runTask result with
  | None =>
      if 1000 <? TimeDeltaUnit.us (sleepTime result) then
        do short <- TimeDeltaUnit.millis (int 1);
        Ret ({| finalTask := finalTask result; runTask := None; sleepTime := short |}, d')
      else Ret (result, d')
  | Some _ => Ret (result, d')
  end.

Definition pop_next_task (tickUSecs : Z) (d : TaskQueueThread) : run (NextTask * TaskQueueThread) :=
  if mQuit d then Ret ({| finalTask := true; runTask := None; sleepTime := plus_infinity |}, d)
  else
    match mDelayedTasks d with
    | delayedTask :: delayed_rest =>
        if timestamp delayedTask <=? tickUSecs then
          match mPendingTasks d with
          | pendingTask :: pending_rest =>
              if pid pendingTask <? did delayedTask
              then Ret (next_of (ptask pendingTask) plus_infinity, with_pending d pending_rest)
              else Ret (next_of (dtask delayedTask) plus_infinity, with_delayed d delayed_rest)
          | [] => Ret (next_of (dtask delayedTask) plus_infinity, with_delayed d delayed_rest)
          end
        else
          do sleep <- sleep_until tickUSecs (timestamp delayedTask);
          pop_pending d sleep
    | [] => pop_pending d plus_infinity
    end.

(** [destroy]: the part before the join. *)
Definition request_quit (d : TaskQueueThread) : TaskQueueThread :=
  {| mQuit := true; mTaskIdCounter := mTaskIdCounter d; mPendingTasks := mPendingTasks d;
     mDelayedTasks := mDelayedTasks d |}.

(** The predicate the worker waits on. *)
Definition wake_predicate (now : Z) (d : TaskQueueThread) : bool :=
  mQuit d || negb (bool_decide (mPendingTasks d = [])) ||
  match mDelayedTasks d with t :: _ => timestamp t <=? now | [] => false end.

(** One turn of the loop of [process_tasks]: the task run, the microseconds waited at
    most, or the end, which drops the pending tasks. *)
Inductive turn := Runs (t : positive) | Waits (us : Z) | Ends.

Definition process_turn (now : Z) (d : TaskQueueThread) : run (turn * TaskQueueThread) :=
  do (next, d) <- pop_next_task now d;
  if finalTask next then Ret (Ends, with_pending d [])
  else
    match runTask next with
    | Some t => Ret (Runs t, d)
    | None => Ret (Waits (Z.min (TimeDeltaUnit.us (sleepTime next)) 1000000), d)
    end.

(** ** The queue among other threads

    The queue, the clock, the tasks the turns so far gave to be run, the entries they took
    out of the queue (both latest first), and whether the worker has left its loop. *)
Inductive entry := Immediate (p : PendingTask) | Delayed (e : DelayedTask).

Definition entry_id (e : entry) : Z := match e with Immediate p => pid p | Delayed e => did e end.
Definition entry_task (e : entry) : task_ptr := match e with Immediate p => ptask p | Delayed e => dtask e end.

Record system := {
  queue : TaskQueueThread;
  clock : Z;
  called : list (positive * Z);  (* with the time read by the turn that ran it *)
  ran : list (entry * Z);
  ended : bool;
}.

(** The entry a turn took out of the queue. *)
Definition taken (now : Z) (d : TaskQueueThread) : option entry :=
  if mQuit d then None
  else
    match mPendingTasks d, mDelayedTasks d with
    | p :: _, e :: _ =>
        if (timestamp e <=? now) && negb (pid p <? did e) then Some (Delayed e) else Some (Immediate p)
    | p :: _, [] => Some (Immediate p)
    | [], e :: _ => if timestamp e <=? now then Some (Delayed e) else None
    | [], [] => None
    end.

Inductive sys_step : system -> system -> Prop :=
| step_post s t :
    mTaskIdCounter (queue s) + 1 < 2 ^ 64 ->
    sys_step s {| queue := post_task (queue s) t; clock := clock s; called := called s; ran := ran s; ended := ended s |}
| step_post_delayed s t delay q :
    mTaskIdCounter (queue s) + 1 < 2 ^ 64 ->
    post_delayed_task (clock s) (queue s) t delay = Ret q ->
    sys_step s {| queue := q; clock := clock s; called := called s; ran := ran s; ended := ended s |}
| step_cancel s t :
    sys_step s {| queue := fst (cancel_task (queue s) t); clock := clock s; called := called s; ran := ran s; ended := ended s |}
| step_quit s :
    sys_step s {| queue := request_quit (queue s); clock := clock s; called := called s; ran := ran s; ended := ended s |}
| step_clock s now :
    clock s <= now ->
    sys_step s {| queue := queue s; clock := now; called := called s; ran := ran s; ended := ended s |}
| step_turn s now r q :
    now <= clock s -> ended s = false ->
    process_turn now (queue s) = Ret (r, q) ->
    sys_step s {| queue := q; clock := clock s;
                  called := match r with Runs t => (t, now) :: called s | _ => called s end;
                  ran := match taken now (queue s) with Some e => (e, now) :: ran s | None => ran s end;
                  ended := match r with Ends => true | _ => false end |}.

Inductive reachable : system -> Prop :=
| reach_start now : reachable {| queue := TaskQueueThread_init; clock := now; called := []; ran := []; ended := false |}
| reach_step s s' : reachable s -> sys_step s s' -> reachable s'.
