(* ===== verification/TaskQueueFacts.v ===== *)
(** * The task-queue thread: order, timeliness, cancellation, draining

    The invariant of the queue, the invariant of the system under every
    interleaving, and the properties of [TaskQueue]. *)

From stdpp Require Import prelude list sorting.
From Stdlib Require Import ZArith Lia.
From S2P Require Import Prelude StdSet CxxInt SafeMath DivideRound Units UnitsFacts TaskQueue.
Import SafeCompare.

#[local] Open Scope Z_scope.
#[local] Open Scope cxx_scope.

(** ** Ordered sets *)
Definition pending_lt (p q : PendingTask) : Prop := pid p < pid q.
Definition delayed_lt (e f : DelayedTask) : Prop :=
  timestamp e < timestamp f \/ timestamp e = timestamp f /\ did e < did f.

Lemma pending_lt_spec (p q : PendingTask) : PendingTask_Compare p q = true <-> pending_lt p q.
Proof. apply Z.ltb_lt. Qed.

Lemma delayed_lt_spec (e f : DelayedTask) : DelayedTask_Compare e f = true <-> delayed_lt e f.
Proof. unfold DelayedTask_Compare, delayed_lt. rewrite orb_true_iff, andb_true_iff, !Z.ltb_lt, Z.eqb_eq. done. Qed.

#[export] Instance pending_lt_trans : Transitive pending_lt.
Proof. unfold pending_lt. intros x y z. lia. Qed.
#[export] Instance delayed_lt_trans : Transitive delayed_lt.
Proof. unfold delayed_lt. intros x y z. lia. Qed.

(** ** The queue's invariant *)
Definition queued (d : TaskQueueThread) : list entry :=
  (Immediate <$> mPendingTasks d) ++ (Delayed <$> mDelayedTasks d).

Record queue_ok (d : TaskQueueThread) : Prop := {
  ok_counter : 0 <= mTaskIdCounter d < 2 ^ 64;
  ok_pending : StronglySorted pending_lt (mPendingTasks d);
  ok_delayed : StronglySorted delayed_lt (mDelayedTasks d);
  ok_ids : NoDup (entry_id <$> queued d);
  ok_bound : Forall (fun e => 1 <= entry_id e <= mTaskIdCounter d) (queued d);
}.

Lemma init_ok : queue_ok TaskQueueThread_init.
Proof. split; cbn; try constructor; lia. Qed.

Lemma next_id_small (d : TaskQueueThread) : queue_ok d -> mTaskIdCounter d + 1 < 2 ^ 64 -> next_id d = mTaskIdCounter d + 1.
Proof. intros [] H. apply wrap_small. lia. Qed.

Lemma fresh_id (d : TaskQueueThread) (e : entry) : queue_ok d -> e ∈ queued d -> entry_id e < mTaskIdCounter d + 1.
Proof. intros [] H. rewrite Forall_forall in ok_bound0. specialize (ok_bound0 e H). lia. Qed.

Lemma queued_pending (d : TaskQueueThread) (p : PendingTask) : p ∈ mPendingTasks d -> Immediate p ∈ queued d.
Proof. intros H. apply elem_of_app. left. by apply list_elem_of_fmap_2. Qed.

Lemma queued_delayed (d : TaskQueueThread) (e : DelayedTask) : e ∈ mDelayedTasks d -> Delayed e ∈ queued d.
Proof. intros H. apply elem_of_app. right. by apply list_elem_of_fmap_2. Qed.

(** A queue with a fresh entry added is well formed. *)
Lemma grown_ok (d d' : TaskQueueThread) (e : entry) :
  queue_ok d -> mTaskIdCounter d + 1 < 2 ^ 64 ->
  mTaskIdCounter d' = mTaskIdCounter d + 1 -> entry_id e = mTaskIdCounter d + 1 ->
  queued d' ≡ₚ e :: queued d ->
  StronglySorted pending_lt (mPendingTasks d') -> StronglySorted delayed_lt (mDelayedTasks d') -> queue_ok d'.
Proof.
  intros Hok Hc Ec Ee Hp H1 H2. pose proof Hok as [Hc0 _ _ Hn Hb]. split; try done.
  - lia.
  - rewrite Hp. cbn [fmap list_fmap]. constructor; [|done]. rewrite list_elem_of_fmap.
    intros (e' & E & H). pose proof (fresh_id d e' Hok H). lia.
  - rewrite Hp, Ec. constructor; [lia|]. eapply Forall_impl; [exact Hb|]. cbn. lia.
Qed.

Lemma post_task_queued (d : TaskQueueThread) (t : task_ptr) :
  queue_ok d -> mTaskIdCounter d + 1 < 2 ^ 64 ->
  queued (post_task d t) ≡ₚ Immediate {| pid := mTaskIdCounter d + 1; ptask := t |} :: queued d /\
  queue_ok (post_task d t).
Proof.
  intros Hok Hc. assert (Hcmp : Forall (fun y => pending_lt {| pid := next_id d; ptask := t |} y \/
    pending_lt y {| pid := next_id d; ptask := t |}) (mPendingTasks d)).
  { apply Forall_forall. intros p Hp. right. unfold pending_lt. cbn [pid]. rewrite next_id_small by done.
    exact (fresh_id d (Immediate p) Hok (queued_pending d p Hp)). }
  assert (Hp : queued (post_task d t) ≡ₚ Immediate {| pid := mTaskIdCounter d + 1; ptask := t |} :: queued d).
  { unfold queued. cbn [post_task mPendingTasks mDelayedTasks].
    rewrite (set_insert_perm _ _ pending_lt_spec) by done. by rewrite next_id_small. }
  split; [done|]. apply (grown_ok d (post_task d t) (Immediate {| pid := mTaskIdCounter d + 1; ptask := t |})); try done.
  - cbn [post_task mTaskIdCounter]. by apply next_id_small.
  - apply (set_insert_sorted _ _ pending_lt_spec); [done|apply Hok].
  - apply Hok.
Qed.

Lemma post_delayed_queued (now : Z) (d q : TaskQueueThread) (t : task_ptr) (delay : quantity TimeDelta) :
  queue_ok d -> mTaskIdCounter d + 1 < 2 ^ 64 -> post_delayed_task now d t delay = Ret q ->
  (exists ts, queued q ≡ₚ Delayed {| did := mTaskIdCounter d + 1; timestamp := ts; dtask := t |} :: queued d) /\
  queue_ok q /\ mTaskIdCounter q = mTaskIdCounter d + 1.
Proof.
  intros Hok Hc. unfold post_delayed_task. destruct (add _ _) as [ts| | |]; try done.
  cbn [run_bind]. intros [= <-].
  set (e := {| did := next_id d; timestamp := val ts; dtask := t |}).
  assert (Hcmp : Forall (fun y => delayed_lt e y \/ delayed_lt y e) (mDelayedTasks d)).
  { apply Forall_forall. intros f Hf. unfold delayed_lt. cbn [did timestamp e].
    rewrite next_id_small by done. pose proof (fresh_id d (Delayed f) Hok (queued_delayed d f Hf)) as H.
    cbn [entry_id] in H. lia. }
  set (q := {| mQuit := mQuit d; mTaskIdCounter := next_id d; mPendingTasks := mPendingTasks d;
               mDelayedTasks := set_insert DelayedTask_Compare e (mDelayedTasks d) |}).
  assert (Hp : queued q ≡ₚ Delayed e :: queued d).
  { unfold queued, q. cbn [mPendingTasks mDelayedTasks].
    rewrite (set_insert_perm _ _ delayed_lt_spec) by done. cbn [fmap list_fmap]. symmetry. apply Permutation_middle. }
  split; [|split].
  - exists (val ts). rewrite <- next_id_small by done. exact Hp.
  - apply (grown_ok d q (Delayed e)); try done.
    + by apply next_id_small.
    + cbn [entry_id e did]. by apply next_id_small.
    + apply Hok.
    + apply (set_insert_sorted _ _ delayed_lt_spec); [done|apply Hok].
  - by apply next_id_small.
Qed.

Lemma sublist_map {A B} (f : A -> B) (l k : list A) : l `sublist_of` k -> (f <$> l) `sublist_of` (f <$> k).
Proof. induction 1; cbn; by constructor. Qed.

Lemma sublist_elem {A} (x : A) (l k : list A) : l `sublist_of` k -> x ∈ l -> x ∈ k.
Proof. intros Hs. induction Hs; set_solver. Qed.

(** A queue some of whose entries were dropped is well formed. *)
Lemma shrunk_ok (d d' : TaskQueueThread) :
  queue_ok d -> mTaskIdCounter d' = mTaskIdCounter d ->
  StronglySorted pending_lt (mPendingTasks d') -> StronglySorted delayed_lt (mDelayedTasks d') ->
  queued d' `sublist_of` queued d -> queue_ok d'.
Proof.
  intros [] Ec H1 H2 Hs. split; try done.
  - lia.
  - eapply sublist_NoDup; [exact ok_ids0|]. by apply sublist_map.
  - rewrite Ec. apply Forall_forall. intros e He. rewrite Forall_forall in ok_bound0. apply ok_bound0.
    by apply (sublist_elem e _ _ Hs).
Qed.

Lemma cancel_ok (d : TaskQueueThread) (t : task_ptr) :
  queue_ok d -> queue_ok (fst (cancel_task d t)) /\ queued (fst (cancel_task d t)) `sublist_of` queued d.
Proof.
  intros Hok. unfold cancel_task. rewrite !erase_if_spec. cbn [fst].
  assert (Hs : queued {| mQuit := mQuit d; mTaskIdCounter := mTaskIdCounter d;
      mPendingTasks := filter (fun e => ptask e <> t) (mPendingTasks d);
      mDelayedTasks := filter (fun e => dtask e <> t) (mDelayedTasks d) |} `sublist_of` queued d).
  { apply sublist_app; apply sublist_map, sublist_filter. }
  split; [|done]. eapply shrunk_ok; try done; cbn; apply StronglySorted_filter, Hok.
Qed.

(** ** One turn of the worker *)
Definition drop_taken (d : TaskQueueThread) (e : entry) : TaskQueueThread :=
  match e with
  | Immediate _ => with_pending d (tail (mPendingTasks d))
  | Delayed _ => with_delayed d (tail (mDelayedTasks d))
  end.

Definition after_turn (now : Z) (d : TaskQueueThread) : TaskQueueThread :=
  match taken now d with Some e => drop_taken d e | None => d end.
Definition task_of_turn (now : Z) (d : TaskQueueThread) : task_ptr :=
  match taken now d with Some e => entry_task e | None => None end.

Lemma pop_pending_result (d : TaskQueueThread) (sleep : quantity TimeDelta) :
  exists n, pop_pending d sleep = Ret (n, with_pending d (tail (mPendingTasks d))) /\ finalTask n = false /\
    runTask n = match mPendingTasks d with p :: _ => ptask p | [] => None end /\
    (runTask n = None -> sleepTime n = if 1000 <? TimeDeltaUnit.us sleep then Quantity 1000 else sleep).
Proof.
  unfold pop_pending. assert (Hm : TimeDeltaUnit.millis (int 1) = Ret (Quantity 1000)) by reflexivity.
  assert (Hd : with_pending d (mPendingTasks d) = d) by (by destruct d).
  set (cap := 1000 <? TimeDeltaUnit.us sleep).
  destruct (mPendingTasks d) as [|p rest] eqn:Ep; cbn [runTask next_of sleepTime tail].
  - fold cap. rewrite Hd. destruct cap; [rewrite Hm; cbn [run_bind]|];
      (eexists; split; [reflexivity|split; [reflexivity|split; [reflexivity|reflexivity]]]).
  - destruct (ptask p); cbn [runTask sleepTime].
    { eexists. split; [reflexivity|]. cbn. split; [reflexivity|]. split; [reflexivity|discriminate]. }
    fold cap. destruct cap; [rewrite Hm; cbn [run_bind]|];
      (eexists; split; [reflexivity|split; [reflexivity|split; [reflexivity|reflexivity]]]).
Qed.

Lemma pop_result (now : Z) (d q : TaskQueueThread) (n : NextTask) :
  mQuit d = false -> pop_next_task now d = Ret (n, q) ->
  finalTask n = false /\ q = after_turn now d /\ runTask n = task_of_turn now d.
Proof.
  unfold pop_next_task, after_turn, task_of_turn, taken. intros ->.
  assert (Hd : with_pending d (mPendingTasks d) = d) by (by destruct d).
  destruct (mDelayedTasks d) as [|e es] eqn:Ee.
  - destruct (pop_pending_result d plus_infinity) as (n' & -> & Hf & Hr & _). intros [= <- <-].
    destruct (mPendingTasks d) as [|p ps] eqn:Ep; cbn [drop_taken tail] in *; rewrite ?Ep; cbn [tail]; auto.
  - destruct (Z.leb_spec (timestamp e) now).
    + destruct (mPendingTasks d) as [|p ps] eqn:Ep.
      * intros [= <- <-]. cbn [drop_taken]. by rewrite Ee.
      * destruct (Z.ltb_spec (pid p) (did e)); intros [= <- <-]; cbn [andb negb drop_taken]; by rewrite ?Ep, ?Ee.
    + destruct (sleep_until _ _) as [sl| | |]; try done. cbn [run_bind].
      destruct (pop_pending_result d sl) as (n' & -> & Hf & Hr & _). intros [= <- <-].
      destruct (mPendingTasks d) as [|p ps] eqn:Ep; cbn [drop_taken tail andb] in *; rewrite ?Ep; cbn [tail]; auto.
Qed.

(** [later] may run after [earlier]: an immediate task was posted after it; a delayed
    task has a later deadline than an earlier delayed task, or was posted after it. *)
Definition in_order (earlier later : entry) : Prop :=
  match later, earlier with
  | Immediate p, _ => entry_id earlier < pid p
  | Delayed e, Delayed e' => delayed_lt e' e \/ did e' < did e
  | Delayed _, Immediate _ => True
  end.

Definition timely (e : entry) (now : Z) : Prop :=
  match e with Immediate _ => True | Delayed e => timestamp e <= now end.

Lemma taken_spec (now : Z) (d : TaskQueueThread) (e : entry) :
  queue_ok d -> taken now d = Some e ->
  queued d ≡ₚ e :: queued (drop_taken d e) /\ timely e now /\ Forall (in_order e) (queued (drop_taken d e)) /\
  queue_ok (drop_taken d e).
Proof.
  intros Hok Ht. pose proof Hok as [_ Hp Hd Hn _]. unfold taken in Ht.
  destruct (mQuit d); [done|].
  assert (Hcase : (exists p ps, mPendingTasks d = p :: ps /\ e = Immediate p) \/
                  (exists f fs, mDelayedTasks d = f :: fs /\ e = Delayed f /\ timestamp f <= now /\
                     Forall (fun p => did f < pid p) (mPendingTasks d))).
  { destruct (mPendingTasks d) as [|p ps] eqn:Ep, (mDelayedTasks d) as [|f fs] eqn:Ef; try done.
    - destruct (Z.leb_spec (timestamp f) now); [|done]. injection Ht as <-. right. eauto 6.
    - injection Ht as <-. left. eauto.
    - destruct (Z.leb_spec (timestamp f) now); cbn [andb] in Ht; [|injection Ht as <-; left; eauto].
      destruct (Z.ltb_spec (pid p) (did f)); cbn [negb] in Ht; injection Ht as <-; [left; eauto|].
      right. exists f, fs. repeat split; try done.
      assert (Hne : pid p <> did f).
      { unfold queued in Hn. rewrite Ep, Ef in Hn. cbn [fmap list_fmap app] in Hn.
        apply NoDup_cons in Hn as [Hn _]. intros E. apply Hn. cbn [entry_id]. rewrite fmap_app. cbn.
        rewrite E. set_solver. }
      constructor; [lia|]. inversion Hp as [|? ? _ Hps]; subst.
      eapply Forall_impl; [exact Hps|]. unfold pending_lt. cbn. lia. }
  destruct Hcase as [(p & ps & Ep & ->)|(f & fs & Ef & -> & Hdue & Hids)]; cbn [drop_taken].
  - rewrite Ep. cbn [tail]. rewrite Ep in Hp. inversion Hp as [|? ? Hp' Hps]; subst.
    assert (Hq : queued d = Immediate p :: queued (with_pending d ps)) by (unfold queued; rewrite Ep; done).
    split; [by rewrite Hq|]. split; [done|]. split.
    + apply Forall_app. split; [|by apply Forall_fmap, Forall_true].
      apply Forall_fmap. exact Hps.
    + apply (shrunk_ok d); try done. rewrite Hq. by constructor.
  - rewrite Ef. cbn [tail]. rewrite Ef in Hd. inversion Hd as [|? ? Hd' Hds]; subst.
    assert (Hq : queued d ≡ₚ Delayed f :: queued (with_delayed d fs))
      by (unfold queued; rewrite Ef; cbn; symmetry; apply Permutation_middle).
    split; [done|]. split; [done|]. split.
    + apply Forall_app. split; apply Forall_fmap; [done|]. eapply Forall_impl; [exact Hds|]. cbn. tauto.
    + apply (shrunk_ok d); try done. unfold queued. rewrite Ef. cbn.
      apply sublist_app; [done|]. by constructor.
Qed.

Lemma turn_result (now : Z) (d q : TaskQueueThread) (r : turn) :
  process_turn now d = Ret (r, q) ->
  if mQuit d then r = Ends /\ q = with_pending d [] /\ taken now d = None
  else q = after_turn now d /\ r <> Ends /\ (forall t, r = Runs t <-> task_of_turn now d = Some t).
Proof.
  unfold process_turn. destruct (pop_next_task now d) as [[n d']| | |] eqn:E; try done. cbn [run_bind].
  destruct (mQuit d) eqn:Eq.
  - unfold pop_next_task in E. rewrite Eq in E. injection E as <- <-. cbn [finalTask].
    intros [= <- <-]. repeat split. unfold taken. by rewrite Eq.
  - apply pop_result in E as (-> & -> & ->); [|done].
    destruct (task_of_turn now d) eqn:Et; intros [= <- <-]; repeat split; try done; congruence.
Qed.

(** ** The system's invariant *)
Definition ids_of (s : system) : list Z := (entry_id <$> (fst <$> ran s)) ++ (entry_id <$> queued (queue s)).

(** What running an entry calls: its task, unless that is null. *)
Definition call_of (r : entry * Z) : option (positive * Z) := (fun t => (t, snd r)) <$> entry_task (fst r).

Record sys_inv (s : system) : Prop := {
  inv_queue : queue_ok (queue s);
  inv_ids : NoDup (ids_of s);
  inv_ran_bound : Forall (fun r => entry_id (fst r) <= mTaskIdCounter (queue s)) (ran s);
  inv_ran_order : StronglySorted (fun later earlier => in_order (fst earlier) (fst later)) (ran s);
  inv_queue_order : Forall (fun r => Forall (in_order (fst r)) (queued (queue s))) (ran s);
  inv_timely : Forall (fun r => timely (fst r) (snd r) /\ snd r <= clock s) (ran s);
  inv_called : called s = omap call_of (ran s);
}.

(** Whatever ran is in order with an entry posted now. *)
Lemma in_order_fresh (e new : entry) : entry_id e < entry_id new -> in_order e new.
Proof. destruct new, e; cbn; lia. Qed.

(** The invariant does not see the flag, nor entries dropped from the queue. *)
Lemma sys_inv_shrink (s : system) (q : TaskQueueThread) (e : bool) :
  sys_inv s -> queue_ok q -> mTaskIdCounter q = mTaskIdCounter (queue s) -> queued q `sublist_of` queued (queue s) ->
  sys_inv {| queue := q; clock := clock s; called := called s; ran := ran s; ended := e |}.
Proof.
  intros [] Hq Hc Hs. split; cbn; try done.
  - eapply sublist_NoDup; [exact inv_ids0|]. apply sublist_app; [done|]. by apply sublist_map.
  - by rewrite Hc.
  - eapply Forall_impl; [exact inv_queue_order0|]. intros r H. rewrite Forall_forall in H |- *.
    intros x Hx. apply H. by eapply sublist_elem.
Qed.

(** A fresh entry joins the queue. *)
Lemma sys_inv_grow (s : system) (q : TaskQueueThread) (new : entry) (e : bool) :
  sys_inv s -> queue_ok q -> mTaskIdCounter q = mTaskIdCounter (queue s) + 1 ->
  entry_id new = mTaskIdCounter (queue s) + 1 -> queued q ≡ₚ new :: queued (queue s) ->
  sys_inv {| queue := q; clock := clock s; called := called s; ran := ran s; ended := e |}.
Proof.
  intros [] Hq Hc He Hp. split; unfold ids_of in *; cbn; try done.
  - rewrite Hp. cbn [fmap list_fmap]. rewrite <- Permutation_middle. constructor; [|done].
    rewrite elem_of_app, !list_elem_of_fmap. intros [(x & Ex & Hx)|(x & Ex & Hx)].
    + apply list_elem_of_fmap in Hx as (r & -> & Hr). rewrite Forall_forall in inv_ran_bound0.
      specialize (inv_ran_bound0 r Hr). lia.
    + pose proof (fresh_id (queue s) x inv_queue0 Hx). lia.
  - rewrite Hc. eapply Forall_impl; [exact inv_ran_bound0|]. cbn. lia.
  - rewrite Forall_forall in inv_queue_order0 |- *. intros r Hr. rewrite Hp. constructor.
    + apply in_order_fresh. rewrite Forall_forall in inv_ran_bound0. specialize (inv_ran_bound0 r Hr). lia.
    + by apply inv_queue_order0.
Qed.

(** The worker takes an entry. *)
Lemma sys_inv_take (s : system) (now : Z) (e : entry) (fin : bool) :
  sys_inv s -> now <= clock s -> taken now (queue s) = Some e ->
  sys_inv {| queue := drop_taken (queue s) e; clock := clock s;
             called := match entry_task e with Some t => (t, now) :: called s | None => called s end; ran := (e, now) :: ran s; ended := fin |}.
Proof.
  intros [] Hnow Ht. destruct (taken_spec now (queue s) e inv_queue0 Ht) as (Hp & Htime & Hord & Hok).
  assert (Hc : mTaskIdCounter (drop_taken (queue s) e) = mTaskIdCounter (queue s)) by (by destruct e).
  assert (Hmem : e ∈ queued (queue s)) by (rewrite Hp; by left).
  split; cbn; try done.
  - unfold ids_of in *. cbn. rewrite Hp in inv_ids0. cbn [fmap list_fmap] in inv_ids0.
    by rewrite <- Permutation_middle in inv_ids0.
  - rewrite Hc. constructor; [|done]. pose proof (fresh_id _ _ inv_queue0 Hmem). cbn. lia.
  - constructor; [done|]. rewrite Forall_forall in inv_queue_order0 |- *. intros r Hr.
    specialize (inv_queue_order0 r Hr). rewrite Forall_forall in inv_queue_order0. by apply inv_queue_order0.
  - constructor; [done|]. rewrite Forall_forall in inv_queue_order0 |- *. intros r Hr.
    specialize (inv_queue_order0 r Hr). rewrite Hp in inv_queue_order0. by inversion inv_queue_order0.
  - by constructor.
  - unfold call_of. cbn [fst snd]. rewrite inv_called0. by destruct (entry_task e).
Qed.

Lemma sys_step_inv (s s' : system) : sys_inv s -> sys_step s s' -> sys_inv s'.
Proof.
  intros Hi Hs. pose proof (inv_queue s Hi) as Hok.
  destruct Hs as [s t Hc|s t delay q Hc Hq|s t|s|s now Hnow|s now r q Hnow _ Ht].
  - destruct (post_task_queued (queue s) t Hok Hc) as [Hp Hok'].
    refine (sys_inv_grow s _ _ _ Hi Hok' _ _ Hp); [by apply next_id_small|done].
  - destruct (post_delayed_queued _ _ _ _ _ Hok Hc Hq) as ([ts Hp] & Hok' & Hc').
    refine (sys_inv_grow s _ _ _ Hi Hok' Hc' _ Hp). done.
  - destruct (cancel_ok (queue s) t Hok) as [Hok' Hsub]. apply sys_inv_shrink; try done.
    unfold cancel_task. by rewrite !erase_if_spec.
  - apply sys_inv_shrink; try done. by destruct Hok.
  - destruct Hi. split; try done. eapply Forall_impl; [exact inv_timely0|]. cbn.
    intros r [? ?]. split; [done|lia].
  - apply turn_result in Ht. destruct (mQuit (queue s)).
    + destruct Ht as (-> & -> & ->). apply sys_inv_shrink; try done.
      * eapply shrunk_ok; try done; [constructor|apply Hok|]. unfold queued. cbn. by apply sublist_inserts_l.
      * unfold queued. cbn. by apply sublist_inserts_l.
    + destruct Ht as (-> & Hne & Ht). unfold after_turn, task_of_turn in *.
      destruct (taken now (queue s)) as [e|] eqn:Et.
      * assert (Hr : match r with Runs t => (t, now) :: called s | _ => called s end =
          match entry_task e with Some t => (t, now) :: called s | None => called s end).
        { destruct (entry_task e) as [t|]; [by rewrite (proj2 (Ht t) eq_refl)|]. destruct r as [t| |]; try done.
          discriminate (proj1 (Ht t) eq_refl). }
        rewrite Hr. by apply sys_inv_take.
      * destruct r as [t| |]; [discriminate (proj1 (Ht t) eq_refl)| |done]. by apply sys_inv_shrink.
Qed.

Lemma reachable_inv (s : system) : reachable s -> sys_inv s.
Proof.
  induction 1 as [now|s s' _ IH Hs]; [|by eapply sys_step_inv].
  split; [apply init_ok|cbn; constructor..].
Qed.

(** C6: under every interleaving of posts, delayed posts, cancellations, a quit, the
    clock and turns of the worker that may read a stale clock: the tasks the turns gave to
    be run are those of the entries taken out of the queue, in that order; no entry is
    taken twice, or both taken and still queued; a delayed task never runs before its
    deadline; whatever ran before an immediate task was posted before it, so immediate tasks
    run in posting order; and of two delayed tasks the one with the later deadline runs
    first only if the other was posted after it. A delayed task may run after immediate
    tasks posted after it. *)
Theorem task_order_correct (s : system) :
  reachable s ->
  called s = omap call_of (ran s) /\
  NoDup ((entry_id <$> (fst <$> ran s)) ++ (entry_id <$> queued (queue s))) /\
  Forall (fun r => timely (fst r) (snd r) /\ snd r <= clock s) (ran s) /\
  StronglySorted (fun later earlier => in_order (fst earlier) (fst later)) (ran s) /\
  StronglySorted pending_lt (mPendingTasks (queue s)) /\
  StronglySorted delayed_lt (mDelayedTasks (queue s)).
Proof. intros Hr. destruct (reachable_inv s Hr) as [Hq]. destruct Hq. done. Qed.

(** A run: two posts, the second delayed, then a turn after the deadline. *)
Definition sample_posted : TaskQueueThread := post_task TaskQueueThread_init (Some 7%positive).
Definition sample_queue : TaskQueueThread :=
  {| mQuit := false; mTaskIdCounter := 2; mPendingTasks := [{| pid := 1; ptask := Some 7%positive |}];
     mDelayedTasks := [{| did := 2; timestamp := 150; dtask := Some 9%positive |}] |}.

Lemma sample_reachable :
  reachable {| queue := with_pending sample_queue []; clock := 200; called := [(7%positive, 200)];
               ran := [(Immediate {| pid := 1; ptask := Some 7%positive |}, 200)]; ended := false |}.
Proof.
  eapply reach_step; [eapply reach_step; [eapply reach_step; [eapply reach_step; [exact (reach_start 100)|]|]|]|].
  - apply (step_post _ (Some 7%positive)). reflexivity.
  - apply (step_post_delayed _ (Some 9%positive) (Quantity 50) sample_queue); [reflexivity|reflexivity].
  - apply (step_clock _ 200). cbn. lia.
  - refine (step_turn {| queue := sample_queue; clock := 200; called := []; ran := []; ended := false |} 200 (Runs 7)
      (with_pending sample_queue []) _ _ _); [cbn; lia|reflexivity|reflexivity].
Defined.

Lemma task_order_correct_witness :
  [(7%positive, 200)] = omap call_of [(Immediate {| pid := 1; ptask := Some 7%positive |}, 200)] /\ NoDup [1; 2].
Proof. destruct (task_order_correct _ sample_reachable) as (H1 & H2 & _). split; [exact H1|exact H2]. Defined.

(** ** Cancelling *)

(** Cancelling removes every entry of the task, immediate or delayed, and no other,
    keeps the order of the rest, and tells whether there was one. *)
Theorem cancel_task_correct (d : TaskQueueThread) (t : task_ptr) :
  let (d', canceled) := cancel_task d t in
  queued d' = filter (fun e => entry_task e <> t) (queued d) /\
  (canceled = true <-> exists e, e ∈ queued d /\ entry_task e = t) /\
  mQuit d' = mQuit d /\ mTaskIdCounter d' = mTaskIdCounter d /\
  (queue_ok d -> queue_ok d').
Proof.
  pose proof (cancel_ok d t) as Hok. unfold cancel_task in *. rewrite !erase_if_spec in *. cbn [fst] in Hok.
  split; [|split; [|split; [done|split; [done|intros H; apply Hok, H]]]].
  - unfold queued. cbn [mPendingTasks mDelayedTasks]. rewrite filter_app. f_equal;
      [generalize (mPendingTasks d)|generalize (mDelayedTasks d)]; intros l;
      (induction l as [|x l IH]; [done|]); rewrite fmap_cons, !filter_cons; cbn [entry_task];
      destruct (decide _); cbn [fmap list_fmap]; by rewrite <- IH.
  - rewrite orb_true_iff, !bool_decide_eq_true, !Exists_exists. unfold queued. split.
    + intros [(x & Hx & E)|(x & Hx & E)]; [exists (Immediate x)|exists (Delayed x)]; (split; [|done]);
        apply elem_of_app; [left|right]; by apply list_elem_of_fmap_2.
    + intros (e & [(x & -> & Hx)%list_elem_of_fmap|(x & -> & Hx)%list_elem_of_fmap]%elem_of_app & E); [left|right]; by exists x.
Qed.

(** ** Draining *)

(** The worker left alone at time [now]: the tasks its next turns run, until one turn
    runs none. *)
Fixpoint drain (fuel : nat) (now : Z) (d : TaskQueueThread) : run (list positive * TaskQueueThread) :=
  match fuel with
  | O => Timeout
  | S fuel =>
      do (r, d) <- process_turn now d;
      match r with
      | Runs t => do (ts, d) <- drain fuel now d; Ret (t :: ts, d)
      | _ => Ret ([], d)
      end
  end.

(** Every delayed task is due at [now]. *)
Definition all_due (now : Z) (d : TaskQueueThread) : Prop := Forall (fun e => timestamp e <= now) (mDelayedTasks d).

Definition has_task (e : entry) (t : positive) : Prop := entry_task e = Some t.

Lemma taken_due (now : Z) (d : TaskQueueThread) :
  mQuit d = false -> all_due now d -> queued d <> [] -> taken now d <> None.
Proof.
  unfold taken, all_due, queued. intros -> Hdue Hne.
  destruct (mPendingTasks d), (mDelayedTasks d) as [|e es]; cbn in *; try done.
  - inversion Hdue; subst. by rewrite (proj2 (Z.leb_le _ _)).
  - by destruct (_ && _).
Qed.

Lemma drop_taken_due (now : Z) (d : TaskQueueThread) (e : entry) : all_due now d -> all_due now (drop_taken d e).
Proof. unfold all_due. destruct e; cbn; [done|]. destruct (mDelayedTasks d); [done|]. by inversion 1. Qed.

Lemma pop_due (now : Z) (d : TaskQueueThread) :
  mQuit d = false -> all_due now d -> exists n, pop_next_task now d = Ret (n, after_turn now d).
Proof.
  intros Hq Hdue.
  assert (H : exists n q, pop_next_task now d = Ret (n, q)).
  { unfold pop_next_task. rewrite Hq. unfold all_due in Hdue. destruct (mDelayedTasks d) as [|e es].
    - destruct (pop_pending_result d plus_infinity) as (n & -> & _). eauto.
    - inversion Hdue; subst. rewrite (proj2 (Z.leb_le _ _)) by done.
      destruct (mPendingTasks d); [eauto|]. destruct (_ <? _); eauto. }
  destruct H as (n & q & H). exists n. rewrite H. apply pop_result in H as (_ & -> & _); done.
Qed.

Lemma drain_spec (now : Z) (fuel : nat) (d : TaskQueueThread) :
  mQuit d = false -> queue_ok d -> all_due now d -> Forall (fun e => is_Some (entry_task e)) (queued d) ->
  (length (queued d) < fuel)%nat ->
  exists es ts d', drain fuel now d = Ret (ts, d') /\ queued d' = [] /\ es ≡ₚ queued d /\
    Forall2 has_task es ts /\ StronglySorted in_order es.
Proof.
  revert d. induction fuel as [|fuel IH]; intros d Hq Hok Hdue Hsome Hf; [lia|].
  destruct (pop_due now d Hq Hdue) as [n En]. pose proof (pop_result now d _ n Hq En) as (Hfin & _ & Hrun).
  cbn [drain]. unfold process_turn. rewrite En. cbn [run_bind]. rewrite Hfin, Hrun.
  unfold task_of_turn, after_turn. destruct (taken now d) as [e|] eqn:Et.
  - destruct (taken_spec now d e Hok Et) as (Hp & _ & Hord & Hok').
    rewrite Hp in Hsome. inversion Hsome as [|? ? [t Hte] Hsome']; subst. rewrite Hte. cbn [run_bind].
    assert (Hq' : mQuit (drop_taken d e) = false) by (by destruct e).
    destruct (IH (drop_taken d e) Hq' Hok' (drop_taken_due now d e Hdue) Hsome') as (es & ts & d' & E & Hd' & Hes & H2 & Hs).
    { rewrite Hp in Hf. cbn in Hf. lia. }
    rewrite E. cbn [run_bind]. exists (e :: es), (t :: ts), d'. split; [done|]. split; [done|].
    split; [by rewrite Hp, Hes|]. split; [by constructor|]. constructor; [done|]. by rewrite Hes.
  - destruct (queued d) eqn:Eq; [|exfalso; eapply (taken_due now d); try done; by rewrite Eq].
    cbn [run_bind]. exists [], [], d. repeat split; try done; constructor.
Qed.

(** When every delayed task is due and nothing is posted any more, the worker runs
    every queued task exactly once, in an order where no entry is overtaken against
    posting order and deadline, and then finds the queue empty; as many turns as there
    are entries, and one more, are enough. *)
Theorem drain_correct (now : Z) (d : TaskQueueThread) :
  mQuit d = false -> queue_ok d -> all_due now d -> Forall (fun e => is_Some (entry_task e)) (queued d) ->
  exists es ts d', drain (S (length (queued d))) now d = Ret (ts, d') /\ queued d' = [] /\
    es ≡ₚ queued d /\ Forall2 has_task es ts /\ StronglySorted in_order es.
Proof. intros. apply drain_spec; try done. lia. Qed.

Lemma sample_queue_ok : queue_ok sample_queue.
Proof.
  split; [split; done|repeat constructor|repeat constructor| |].
  - apply NoDup_cons. split; [set_solver|]. apply NoDup_singleton.
  - apply Forall_forall. cbn. set_solver by lia.
Qed.

Lemma drain_correct_witness :
  exists es, es ≡ₚ queued sample_queue /\ Forall2 has_task es [7%positive; 9%positive].
Proof.
  destruct (drain_correct 200 sample_queue eq_refl sample_queue_ok) as (es & ts & d' & E & _ & Hes & H2 & _).
  - repeat constructor.  cbn. lia.
  - repeat constructor; eexists; reflexivity.
  - exists es. split; [exact Hes|].
    change (drain _ _ _) with (Ret ([7%positive; 9%positive], {| mQuit := false; mTaskIdCounter := 2;
      mPendingTasks := []; mDelayedTasks := [] |})) in E.
    injection E as E _. rewrite E. exact H2.
Defined.

(** ** Idling, quitting, and an infinite delay *)
Lemma quotient_min (denominator : Z) : 0 < denominator -> in64 denominator ->
  div (int64 minus_infinity_val) (int64 denominator) = Ret (int64 (Z.quot minus_infinity_val denominator)) /\
  div (int64 plus_infinity_val) (int64 denominator) = Ret (int64 (Z.quot plus_infinity_val denominator)).
Proof. intros H H'. unfold int64 at 2 5. rewrite !div64 by (done || (split; vm_compute; discriminate)). done. Qed.

Lemma millis_spec (n : Z) : 0 <= n < 9223372036854775 -> TimeDeltaUnit.millis (int64 n) = Ret (Quantity (n * 1000)).
Proof.
  intros Hn. unfold TimeDeltaUnit.millis, from_fraction. cbn [kOneSided run_bind].
  destruct (quotient_min 1000) as [E1 E2]; [lia|split; vm_compute; discriminate|]. rewrite E1, E2. cbn [run_bind].
  assert (Hn' : well_typed (int64 n)) by (change (in64 n); apply in64_eq; lia).
  assert (Q1 : Z.quot minus_infinity_val 1000 = -9223372036854775) by reflexivity.
  assert (Q2 : Z.quot plus_infinity_val 1000 = 9223372036854775) by reflexivity.
  rewrite Q1, Q2.
  unfold SafeCompare.safe_gt, SafeCompare.safe_lt.
  assert (W : forall z, -9223372036854775 <= z <= 9223372036854775 -> well_typed (int64 z))
    by (intros; change (in64 z); apply in64_eq; lia).
  rewrite (SafeCompare.safe_exact Z.gtb _ _ Hn' (W (-9223372036854775) ltac:(lia))).
  rewrite (SafeCompare.safe_exact Z.ltb _ _ Hn' (W 9223372036854775 ltac:(lia))). cbn [val int64].
  rewrite Z.gtb_ltb, (proj2 (Z.ltb_lt _ _)), (proj2 (Z.ltb_lt _ _)) by lia. cbn [check run_bind].
  unfold int64 at 2. rewrite (mul64 n 1000 I64 eq_refl) by (apply in64_eq; lia).
  rewrite arith64_in by (apply in64_eq; lia). cbn [run_bind].
  unfold SafeConversions.dchecked_cast, cast. cbn [val int64]. rewrite convert64 by (apply in64_eq; lia). done.
Qed.

(** The sleep until a deadline is a whole number of milliseconds, at least one. *)
Lemma sleep_until_spec (now ts : Z) :
  now < ts -> in64 now -> in64 ts -> ts - now <= 2 ^ 62 ->
  exists n, sleep_until now ts = Ret (Quantity (n * 1000)) /\ 1 <= n /\ ts - now <= n * 1000 < ts - now + 1000.
Proof.
  intros Hlt Hn Ht Hg. unfold sleep_until.
  unfold sub. rewrite binary64 by done. cbn [val int64]. rewrite arith64_in by (apply in64_eq; lia). cbn [run_bind].
  unfold int64. rewrite (up_correct I64 I32) by ((apply in64_eq; lia) || (split; cbn; lia) || lia).
  cbn [run_bind]. change (common_type I64 I32) with I64.
  pose proof (round_up_steps (ts - now) 1000 ltac:(lia) ltac:(lia)) as E.
  unfold round_up in *. pose proof (Z.div_mod (- (ts - now)) 1000 ltac:(lia)).
  pose proof (Z.mod_pos_bound (- (ts - now)) 1000 ltac:(lia)).
  fold (int64 (- (- (ts - now) / 1000))). rewrite millis_spec by lia.
  eexists. split; [done|]. lia.
Qed.

(** With nothing to run the worker waits exactly one millisecond, whatever the first
    deadline, and leaves the queue as it is. *)
Theorem idle_wait_correct (now : Z) (d : TaskQueueThread) :
  mQuit d = false -> mPendingTasks d = [] -> in64 now ->
  match mDelayedTasks d with
  | [] => True
  | e :: _ => now < timestamp e /\ in64 (timestamp e) /\ timestamp e - now <= 2 ^ 62
  end ->
  process_turn now d = Ret (Waits 1000, d).
Proof.
  intros Hq Hp Hn He.
  assert (Hd : with_pending d (tail (mPendingTasks d)) = d) by (rewrite Hp; destruct d; cbn in *; by subst).
  assert (H : exists sleep, pop_next_task now d = pop_pending d sleep /\ 1000 <= TimeDeltaUnit.us sleep).
  { unfold pop_next_task. rewrite Hq. destruct (mDelayedTasks d) as [|e es].
    - exists plus_infinity. split; [done|]. vm_compute. discriminate.
    - destruct He as (Hlt & Ht & Hg). rewrite (proj2 (Z.leb_gt _ _)) by done.
      destruct (sleep_until_spec now (timestamp e) Hlt Hn Ht Hg) as (n & -> & H1 & Hn'). cbn [run_bind].
      exists (Quantity (n * 1000)). split; [done|]. unfold TimeDeltaUnit.us, to_value.
      unfold SafeConversions.dchecked_cast, cast. cbn [val int64 mValue].
      rewrite convert64 by (apply in64_eq; lia). lia. }
  destruct H as (sleep & E & Hs). unfold process_turn. rewrite E.
  destruct (pop_pending_result d sleep) as (n & -> & Hf & Hr & Hsl). cbn [run_bind].
  rewrite Hf, Hd. rewrite Hsl by (by rewrite Hr, Hp). rewrite Hr, Hp.
  assert (E1000 : 1000 < TimeDeltaUnit.us sleep \/ TimeDeltaUnit.us sleep = 1000) by lia.
  destruct E1000 as [H1|H1]; [rewrite (proj2 (Z.ltb_lt _ _)) by done; reflexivity|].
  rewrite H1, Z.ltb_irrefl, H1. reflexivity.
Qed.

Lemma idle_wait_correct_witness :
  process_turn 100 (with_pending sample_queue []) = Ret (Waits 1000, with_pending sample_queue []).
Proof.
  apply idle_wait_correct; [reflexivity|reflexivity|split; vm_compute; discriminate|].
  split; [reflexivity|]. split; [split; vm_compute; discriminate|vm_compute; discriminate].
Defined.

(** After [destroy] has set the flag the next turn ends the loop: no task runs, the
    pending tasks are dropped there and the delayed ones are not. *)
Lemma quit_ends (now : Z) (d : TaskQueueThread) :
  process_turn now (request_quit d) = Ret (Ends, with_pending (request_quit d) []).
Proof. reflexivity. Qed.

Lemma quit_keeps_delayed :
  exists d, process_turn 500 (request_quit sample_queue) = Ret (Ends, d) /\
    mPendingTasks d = [] /\ mDelayedTasks d = mDelayedTasks sample_queue.
Proof. eexists. split; [apply quit_ends|]. split; reflexivity. Qed.

(** A delay of [plus_infinity] overflows the deadline. *)
Lemma infinite_delay_overflows :
  post_delayed_task 1 TaskQueueThread_init (Some 1%positive) plus_infinity = Undef.
Proof. reflexivity. Qed.
