(* ===== verification/ThreadPool.v ===== *)
(** * The thread pool

    Models [src/cxxkit/thread/thread_pool.cpp] and [detail/thread_pool_p.hpp]: the queue of
    tasks by priority, the pool's lists of waiting and expired threads and its counters,
    the body of a pooled thread cut at the points where it gives up the mutex, and the
    operations of the pool. [SystemThreads] puts them together as a step relation.

    [ThreadPoolPrivate::mMutex] protects everything but the flags of a thread, so a
    section of code between taking the mutex and giving it up is one function. A thread
    waiting on [mTaskReadyCondition] may go on at any moment (notified, by the expiry
    timeout, or spuriously), so notifications leave no trace in the state. Assertions are on,
    as in a debug build. Counts of threads, of reservations and of tasks are exact. *)

From stdpp Require Import prelude list sorting gmap.
From Stdlib Require Import ZArith Lia.
From S2P Require Import Prelude StdSet.

#[local] Open Scope Z_scope.
#[local] Open Scope cxx_scope.

(** A [Task *] and a [ThreadPoolTaskThread *]; a task handed to the pool is not null. *)
Definition task_ptr := positive.
Definition thread_ptr := positive.
Bind Scope positive_scope with task_ptr thread_ptr.

(** ** The queue of tasks *)
Record Item := mkItem { task : task_ptr; sequenceId : Z; priority : Z }.

Definition Compare (lhs rhs : Item) : bool :=
  if negb (priority lhs =? priority rhs) then priority rhs <? priority lhs
  else sequenceId lhs <? sequenceId rhs.

Record ThreadPoolTaskQueue := mkTaskQueue { mIdCounter : Z; mTasks : list Item }.

Definition push (q : ThreadPoolTaskQueue) (t : task_ptr) (p : Z) : ThreadPoolTaskQueue * Z :=
  (mkTaskQueue (mIdCounter q + 1) (set_insert Compare (mkItem t (mIdCounter q) p) (mTasks q)), mIdCounter q).
Definition first (q : ThreadPoolTaskQueue) : option task_ptr :=
  match mTasks q with [] => None | i :: _ => Some (task i) end.
Definition pop (q : ThreadPoolTaskQueue) : ThreadPoolTaskQueue * option task_ptr :=
  match first q with
  | Some t => (mkTaskQueue (mIdCounter q) (tail (mTasks q)), Some t)
  | None => (q, None)
  end.
Definition queue_clear (q : ThreadPoolTaskQueue) : ThreadPoolTaskQueue := mkTaskQueue (mIdCounter q) [].
Definition queue_cancel (q : ThreadPoolTaskQueue) (t : task_ptr) : ThreadPoolTaskQueue * bool :=
  let (l, canceled) := erase_if (fun i => task i = t) (mTasks q) in (mkTaskQueue (mIdCounter q) l, canceled).
Definition queue_cancel_id (q : ThreadPoolTaskQueue) (id : Z) : ThreadPoolTaskQueue * bool :=
  let (l, canceled) := erase_if (fun i => sequenceId i = id) (mTasks q) in (mkTaskQueue (mIdCounter q) l, canceled).
Definition queue_size (q : ThreadPoolTaskQueue) : Z := Z.of_nat (length (mTasks q)).
Definition queue_empty (q : ThreadPoolTaskQueue) : bool := bool_decide (mTasks q = []).

Definition kLowest : Z := -128.
Definition kLow : Z := -64.
Definition kNormal : Z := 0.
Definition kHigh : Z := 64.
Definition kHighest : Z := 127.

(** ** Threads *)

(** Where the [std::thread] of a pooled thread is: not started; before the mutex in [run];
    in [run] with the mutex; inside [task->run()]; in [wait_for]; after [run], with its
    thread-local data alive; in the destructor of that data, after the flags are cleared;
    over. *)
Inductive Phase := NotStarted | Starting | Locked | Running (t : task_ptr) | Waiting | Finished | Leaving | Over.
#[export] Instance Phase_eq_dec : EqDecision Phase.
Proof. solve_decision. Defined.

Record Thread := mkThread { mTask : option task_ptr; mExit : bool; mRunning : bool; mInFinish : bool; phase : Phase }.

Definition new_Thread : Thread := mkThread None true false false NotStarted.
Definition is_finished (th : Thread) : bool := negb (mRunning th) && negb (mInFinish th).
Definition is_running (th : Thread) : bool := mRunning th.

Definition with_task (th : Thread) (t : option task_ptr) : Thread := mkThread t (mExit th) (mRunning th) (mInFinish th) (phase th).
Definition with_exit (th : Thread) (b : bool) : Thread := mkThread (mTask th) b (mRunning th) (mInFinish th) (phase th).
Definition with_flags (th : Thread) (running in_finish : bool) : Thread :=
  mkThread (mTask th) (mExit th) running in_finish (phase th).
Definition with_phase (th : Thread) (p : Phase) : Thread := mkThread (mTask th) (mExit th) (mRunning th) (mInFinish th) p.

(** ** The pool

    [threads] holds the thread objects that are alive. The last five fields record what
    has happened: the tasks the pool accepted, those whose [run] was entered and left, those
    taken out of the queue by [cancel] and [clear], and those destroyed with a thread that
    had them in its hands. *)
Record Pool := mkPool {
  mTaskQueue : ThreadPoolTaskQueue;
  mWaitingThreads : list thread_ptr;
  mExpiredThreads : list thread_ptr;
  mAllThreads : gset thread_ptr;
  mTasksCompletedCount : Z;
  mTasksDispatchedCount : Z;
  mExpiryTimeout : Z;
  mActiveThreadCount : Z;
  mReservedThreadCount : Z;
  mMaxThreadCount : Z;
  threads : gmap thread_ptr Thread;
  next_thread : thread_ptr;
  accepted : list task_ptr;
  begun : list task_ptr;
  ended : list task_ptr;
  removed : list task_ptr;
  dropped : list task_ptr
}.

Definition new_Pool (ideal_thread_count : Z) : Pool :=
  mkPool (mkTaskQueue 0 []) [] [] ∅ 0 0 30000 0 0 ideal_thread_count ∅ 1 [] [] [] [] [].

Definition with_queue (d : Pool) (q : ThreadPoolTaskQueue) : Pool :=
  mkPool q (mWaitingThreads d) (mExpiredThreads d) (mAllThreads d) (mTasksCompletedCount d) (mTasksDispatchedCount d)
    (mExpiryTimeout d) (mActiveThreadCount d) (mReservedThreadCount d) (mMaxThreadCount d) (threads d) (next_thread d)
    (accepted d) (begun d) (ended d) (removed d) (dropped d).
Definition with_lists (d : Pool) (waiting expired : list thread_ptr) (all : gset thread_ptr) : Pool :=
  mkPool (mTaskQueue d) waiting expired all (mTasksCompletedCount d) (mTasksDispatchedCount d)
    (mExpiryTimeout d) (mActiveThreadCount d) (mReservedThreadCount d) (mMaxThreadCount d) (threads d) (next_thread d)
    (accepted d) (begun d) (ended d) (removed d) (dropped d).
Definition with_counts (d : Pool) (active reserved max : Z) : Pool :=
  mkPool (mTaskQueue d) (mWaitingThreads d) (mExpiredThreads d) (mAllThreads d) (mTasksCompletedCount d) (mTasksDispatchedCount d)
    (mExpiryTimeout d) active reserved max (threads d) (next_thread d) (accepted d) (begun d) (ended d) (removed d) (dropped d).
Definition with_expiry (d : Pool) (msecs : Z) : Pool :=
  mkPool (mTaskQueue d) (mWaitingThreads d) (mExpiredThreads d) (mAllThreads d) (mTasksCompletedCount d) (mTasksDispatchedCount d)
    msecs (mActiveThreadCount d) (mReservedThreadCount d) (mMaxThreadCount d) (threads d) (next_thread d)
    (accepted d) (begun d) (ended d) (removed d) (dropped d).
Definition with_threads (d : Pool) (m : gmap thread_ptr Thread) (next : thread_ptr) : Pool :=
  mkPool (mTaskQueue d) (mWaitingThreads d) (mExpiredThreads d) (mAllThreads d) (mTasksCompletedCount d) (mTasksDispatchedCount d)
    (mExpiryTimeout d) (mActiveThreadCount d) (mReservedThreadCount d) (mMaxThreadCount d) m next
    (accepted d) (begun d) (ended d) (removed d) (dropped d).
Definition with_dispatched (d : Pool) (t : task_ptr) : Pool :=
  mkPool (mTaskQueue d) (mWaitingThreads d) (mExpiredThreads d) (mAllThreads d) (mTasksCompletedCount d)
    (wrap 64 (mTasksDispatchedCount d + 1)) (mExpiryTimeout d) (mActiveThreadCount d) (mReservedThreadCount d)
    (mMaxThreadCount d) (threads d) (next_thread d) (accepted d) (t :: begun d) (ended d) (removed d) (dropped d).
Definition with_completed (d : Pool) (t : task_ptr) : Pool :=
  mkPool (mTaskQueue d) (mWaitingThreads d) (mExpiredThreads d) (mAllThreads d) (wrap 64 (mTasksCompletedCount d + 1))
    (mTasksDispatchedCount d) (mExpiryTimeout d) (mActiveThreadCount d) (mReservedThreadCount d)
    (mMaxThreadCount d) (threads d) (next_thread d) (accepted d) (begun d) (t :: ended d) (removed d) (dropped d).
Definition with_accepted (d : Pool) (t : task_ptr) : Pool :=
  mkPool (mTaskQueue d) (mWaitingThreads d) (mExpiredThreads d) (mAllThreads d) (mTasksCompletedCount d) (mTasksDispatchedCount d)
    (mExpiryTimeout d) (mActiveThreadCount d) (mReservedThreadCount d) (mMaxThreadCount d) (threads d) (next_thread d)
    (t :: accepted d) (begun d) (ended d) (removed d) (dropped d).
Definition with_removed (d : Pool) (l : list task_ptr) : Pool :=
  mkPool (mTaskQueue d) (mWaitingThreads d) (mExpiredThreads d) (mAllThreads d) (mTasksCompletedCount d) (mTasksDispatchedCount d)
    (mExpiryTimeout d) (mActiveThreadCount d) (mReservedThreadCount d) (mMaxThreadCount d) (threads d) (next_thread d)
    (accepted d) (begun d) (ended d) (l ++ removed d) (dropped d).

Definition with_dropped (d : Pool) (l : list task_ptr) : Pool :=
  mkPool (mTaskQueue d) (mWaitingThreads d) (mExpiredThreads d) (mAllThreads d) (mTasksCompletedCount d) (mTasksDispatchedCount d)
    (mExpiryTimeout d) (mActiveThreadCount d) (mReservedThreadCount d) (mMaxThreadCount d) (threads d) (next_thread d)
    (accepted d) (begun d) (ended d) (removed d) (l ++ dropped d).

Definition with_active (d : Pool) (n : Z) : Pool := with_counts d n (mReservedThreadCount d) (mMaxThreadCount d).
Definition with_waiting (d : Pool) (l : list thread_ptr) : Pool := with_lists d l (mExpiredThreads d) (mAllThreads d).
Definition with_expired (d : Pool) (l : list thread_ptr) : Pool := with_lists d (mWaitingThreads d) l (mAllThreads d).

Definition thread_at (d : Pool) (t : thread_ptr) : run Thread := deref (threads d !! t).
Definition upd_thread (d : Pool) (t : thread_ptr) (f : Thread -> Thread) : run Pool :=
  do th <- thread_at d t; Ret (with_threads d (<[t := f th]> (threads d)) (next_thread d)).

Definition active_thread_count (d : Pool) : Z :=
  Z.of_nat (size (mAllThreads d)) - Z.of_nat (length (mExpiredThreads d)) - Z.of_nat (length (mWaitingThreads d))
  + mReservedThreadCount d.

Definition is_too_many_threads_active (d : Pool) : bool :=
  let active := active_thread_count d in
  (mMaxThreadCount d <? active) && (1 <? active - mReservedThreadCount d).

Definition is_done (d : Pool) : bool := queue_empty (mTaskQueue d) && (mActiveThreadCount d =? 0).

Definition find_thread (d : Pool) (t : thread_ptr) : option thread_ptr :=
  if bool_decide (t ∈ mAllThreads d) then Some t else None.

(** ** Starting threads *)

(** [mThread.join()]: waits for a thread past its last use of the mutex to end; a thread that
    still needs the mutex, which the caller holds, is waited for forever. *)
Definition join (th : Thread) : run Thread :=
  match phase th with
  | NotStarted => Ret th
  | Finished | Leaving | Over => Ret (with_phase (with_flags th false false) Over)
  | _ => Timeout
  end.

Definition thread_start (d : Pool) (t : thread_ptr) : run Pool :=
  do th <- thread_at d t;
  do _ <- check (negb (is_running th));
  do th <- join th;
  Ret (with_threads d (<[t := with_phase th Starting]> (threads d)) (next_thread d)).

Definition set_task (d : Pool) (t : thread_ptr) (k : task_ptr) : run Pool :=
  do th <- thread_at d t;
  do _ <- check (bool_decide (mTask th = None));
  upd_thread d t (fun th => with_task th (Some k)).

Definition enqueue_task (d : Pool) (k : task_ptr) (p : Z) : Pool := with_queue d (fst (push (mTaskQueue d) k p)).

Definition start_thread (d : Pool) (k : task_ptr) : run Pool :=
  let t := next_thread d in
  let d := with_threads d (<[t := new_Thread]> (threads d)) (Pos.succ t) in
  do _ <- check (negb (bool_decide (t ∈ mAllThreads d)));
  let d := with_lists d (mWaitingThreads d) (mExpiredThreads d) ({[t]} ∪ mAllThreads d) in
  let d := with_active d (mActiveThreadCount d + 1) in
  do d <- set_task d t k;
  thread_start d t.

Definition try_start (d : Pool) (k : task_ptr) : run (Pool * bool) :=
  if bool_decide (mAllThreads d = ∅) then do d <- start_thread d k; Ret (d, true)
  else if mMaxThreadCount d <=? active_thread_count d then Ret (d, false)
  else
    match mWaitingThreads d with
    | t :: waiting =>
        let d := enqueue_task d k kHighest in
        do th <- thread_at d t;
        do _ <- check (bool_decide (mTask th = None));
        Ret (with_waiting d waiting, true)
    | [] =>
        match mExpiredThreads d with
        | t :: expired =>
            do th <- thread_at d t;
            do _ <- check (bool_decide (mTask th = None));
            let d := with_expired d expired in
            let d := with_active d (mActiveThreadCount d + 1) in
            do d <- set_task d t k;
            do d <- thread_start d t;
            Ret (d, true)
        | [] => do d <- start_thread d k; Ret (d, true)
        end
    end.

(** The loop of [try_to_start_more_threads]; [fuel] bounds the turns. *)
Fixpoint start_more_loop (fuel : nat) (d : Pool) : run Pool :=
  match fuel with
  | O => Timeout
  | S fuel =>
      match first (mTaskQueue d) with
      | None => Ret d
      | Some k =>
          do (d, started) <- try_start d k;
          if (started : bool) then start_more_loop fuel (with_queue d (fst (pop (mTaskQueue d)))) else Ret d
      end
  end.

Definition try_to_start_more_threads (d : Pool) : run Pool :=
  start_more_loop (S (length (mTasks (mTaskQueue d)) + length (mWaitingThreads d))) d.

(** ** The body of a pooled thread *)
Definition register_thread_inactive (d : Pool) : run Pool :=
  do _ <- check (0 <? mActiveThreadCount d); Ret (with_active d (mActiveThreadCount d - 1)).

(** [run] is left: the flags are set and the mutex is given up. *)
Definition run_exit (d : Pool) (t : thread_ptr) : run Pool :=
  upd_thread d t (fun th => with_phase (with_flags th false true) Finished).

Definition run_expire (d : Pool) (t : thread_ptr) : run Pool :=
  let d := with_expired d (mExpiredThreads d ++ [t]) in
  do d <- register_thread_inactive d;
  run_exit d t.

(** The task is taken, the mutex is given up and [task->run()] is entered. *)
Definition run_task (d : Pool) (t : thread_ptr) (k : task_ptr) : run Pool :=
  upd_thread (with_dispatched d k) t (fun th => with_phase th (Running k)).

(** [std::find] and [erase] of what it found *)
Fixpoint erase_first (t : thread_ptr) (l : list thread_ptr) : list thread_ptr :=
  match l with
  | [] => []
  | u :: l' => if decide (u = t) then l' else u :: erase_first t l'
  end.

(** After the wait: out of the waiting list, and out of [run] when the thread is expired or no
    longer in the pool; [true]: another turn. *)
Definition run_leave_wait (d : Pool) (t : thread_ptr) (expired : bool) : run (Pool * bool) :=
  let expired := expired || bool_decide (t ∈ mWaitingThreads d) in
  let d := with_waiting d (erase_first t (mWaitingThreads d)) in
  if negb (bool_decide (t ∈ mAllThreads d)) then
    do d <- register_thread_inactive d;
    do d <- run_exit d t;
    Ret (d, false)
  else if expired then do d <- run_expire d t; Ret (d, false)
  else Ret (d, true).

(** After the loop over tasks: to [wait_for], or out. *)
Definition run_idle (d : Pool) (t : thread_ptr) : run Pool :=
  do th <- thread_at d t;
  if is_too_many_threads_active d || mExit th then run_expire d t
  else
    do _ <- check (bool_decide (mTask th = None));
    let d := with_waiting d (mWaitingThreads d ++ [t]) in
    do d <- register_thread_inactive d;
    do th <- thread_at d t;
    if mExit th then do (d, _) <- run_leave_wait d t true; Ret d
    else upd_thread d t (fun th => with_phase th Waiting).

(** The loop over tasks from the test for too many threads: one more task, or out of it. *)
Definition run_next (d : Pool) (t : thread_ptr) : run Pool :=
  if is_too_many_threads_active d then run_idle d t
  else
    let (q, k) := pop (mTaskQueue d) in
    match k with
    | None => run_idle d t
    | Some k =>
        do th <- thread_at d t;
        if mExit th then run_idle (with_queue d q) t else run_task (with_queue d q) t k
    end.

(** A turn of the outer loop: the task handed to the thread, or one of the queue. *)
Definition run_turn (d : Pool) (t : thread_ptr) : run Pool :=
  do th <- thread_at d t;
  if mExit th then run_exit d t
  else
    do d <- upd_thread d t (fun th => with_task th None);
    match mTask th with
    | Some k => run_task d t k
    | None => run_next d t
    end.

(** The start of [run], to the first time the mutex is given up. *)
Definition run_start (d : Pool) (t : thread_ptr) : run Pool :=
  do d <- upd_thread d t (fun th => with_phase (with_flags (with_exit th false) true false) Locked);
  run_turn d t.

(** [task->run()] has returned. *)
Definition run_finish_task (d : Pool) (t : thread_ptr) (k : task_ptr) : run Pool :=
  do d <- upd_thread (with_completed d k) t (fun th => with_phase th Locked);
  run_next d t.

(** The end of [wait_for]. *)
Definition run_resume (d : Pool) (t : thread_ptr) : run Pool :=
  do d <- upd_thread (with_active d (mActiveThreadCount d + 1)) t (fun th => with_phase th Locked);
  do (d, again) <- run_leave_wait d t false;
  if (again : bool) then run_turn d t else Ret d.

(** The destructor of the thread-local data: the flags are cleared, then the reference to the
    thread is dropped. Dropping the last one destroys the thread object on its own thread,
    where [exit_wait] joins the thread with itself and the process ends. *)
Definition local_data_clear (d : Pool) (t : thread_ptr) : run Pool :=
  upd_thread d t (fun th => with_phase (with_flags th false false) Leaving).
Definition local_data_release (d : Pool) (t : thread_ptr) (last_reference : bool) : run Pool :=
  do _ <- check (negb last_reference);
  upd_thread d t (fun th => with_phase th Over).

(** ** Operations of the pool *)
Definition start (d : Pool) (k : option task_ptr) (p : Z) : run Pool :=
  match k with
  | None => Ret d
  | Some k =>
      do (d, started) <- try_start (with_accepted d k) k;
      if (started : bool) then Ret d
      else
        match mWaitingThreads d with
        | t :: waiting =>
            do th <- thread_at d t;
            do _ <- check (bool_decide (mTask th = None));
            set_task (with_waiting d waiting) t k
        | [] => Ret (enqueue_task d k p)
        end
  end.

Definition try_start_now (d : Pool) (k : option task_ptr) : run (Pool * bool) :=
  match k with
  | None => Ret (d, false)
  | Some k =>
      if negb (bool_decide (mAllThreads d = ∅)) && (mMaxThreadCount d <=? active_thread_count d) then Ret (d, false)
      else
        do (d', started) <- try_start (with_accepted d k) k;
        if (started : bool) then Ret (d', true) else Ret (d, false)
  end.

Definition set_max_thread_count (d : Pool) (count : Z) : run Pool :=
  if negb (count =? mMaxThreadCount d) then
    try_to_start_more_threads (with_counts d (mActiveThreadCount d) (mReservedThreadCount d) count)
  else Ret d.

Definition set_expiry_timeout (d : Pool) (msecs : Z) : Pool :=
  if negb (msecs =? mExpiryTimeout d) then with_expiry d msecs else d.

Definition cancel (d : Pool) (k : task_ptr) : Pool * bool :=
  let (q, canceled) := queue_cancel (mTaskQueue d) k in
  (with_removed (with_queue d q) (filter (fun k' => k' = k) (task <$> mTasks (mTaskQueue d))), canceled).

Definition clear (d : Pool) : Pool :=
  with_removed (with_queue d (queue_clear (mTaskQueue d))) (task <$> mTasks (mTaskQueue d)).

Definition reserve_thread (d : Pool) : Pool :=
  with_counts d (mActiveThreadCount d) (mReservedThreadCount d + 1) (mMaxThreadCount d).

Definition release_thread (d : Pool) : run Pool :=
  try_to_start_more_threads (with_counts d (mActiveThreadCount d) (mReservedThreadCount d - 1) (mMaxThreadCount d)).

(** [reset], up to giving up the mutex: the threads of the pool are its local variable now. *)
Definition reset_detach (d : Pool) : Pool * list thread_ptr := (with_lists d [] [] ∅, elements (mAllThreads d)).

(** [reset] comes to a detached thread: [exit_wait] unless it is finished. *)
Definition reset_exit (d : Pool) (t : thread_ptr) : run Pool :=
  upd_thread d t (fun th => if is_finished th then th else with_exit th true).

(** The local variable of [reset] is destroyed, and with it the thread objects whose
    thread-local data is gone, and what they have in their hands. *)
Definition destroy_thread (d : Pool) (t : thread_ptr) : run Pool :=
  do th <- thread_at d t;
  if bool_decide (phase th = Over) then
    Ret (with_dropped (with_threads d (delete t (threads d)) (next_thread d)) (match mTask th with Some k => [k] | None => [] end))
  else Ret d.
Fixpoint reset_destroy (d : Pool) (l : list thread_ptr) : run Pool :=
  match l with
  | [] => Ret d
  | t :: l => do d <- destroy_thread d t; reset_destroy d l
  end.

(** [wait_for_done] woken with the mutex: what it does next. *)
Inductive wait_result := WaitAgain | ReturnFalse | Reset (l : list thread_ptr).
Definition wait_for_done_woken (d : Pool) (forever : bool) : Pool * wait_result :=
  if is_done d then let (d, l) := reset_detach d in (d, Reset l)
  else (d, if forever then WaitAgain else ReturnFalse).

(** ** The pool among threads

    Any thread may call an operation, a pooled one from inside its task too. [resets] has
    the local variables of the calls of [reset] in progress. An action that is not enabled
    has no result. *)
Record SystemThreads := mkSystem { pool : Pool; resets : gmap positive (list thread_ptr) }.

Definition referenced (S : SystemThreads) (t : thread_ptr) : bool :=
  bool_decide (t ∈ mAllThreads (pool S)) || bool_decide (map_Exists (fun _ l => t ∈ l) (resets S)).

Inductive thread_act := Begin | EndTask | Wake | ClearLocalData | ReleaseLocalData.
Inductive action :=
| OfThread (t : thread_ptr) (a : thread_act)
| Start (k : option task_ptr) (p : Z)
| TryStartNow (k : option task_ptr)
| SetMaxThreadCount (n : Z)
| SetExpiryTimeout (n : Z)
| Cancel (k : task_ptr)
| Clear
| ReserveThread
| ReleaseThread
| WaitForDone (c : positive) (forever : bool)
| ResetExit (c : positive) (t : thread_ptr)
| ResetDestroy (c : positive).

Definition thread_step (S : SystemThreads) (t : thread_ptr) (a : thread_act) : option (run Pool) :=
  th ← threads (pool S) !! t;
  match a, phase th with
  | Begin, Starting => Some (run_start (pool S) t)
  | EndTask, Running k => Some (run_finish_task (pool S) t k)
  | Wake, Waiting => Some (run_resume (pool S) t)
  | ClearLocalData, Finished => Some (local_data_clear (pool S) t)
  | ReleaseLocalData, Leaving => Some (local_data_release (pool S) t (negb (referenced S t)))
  | _, _ => None
  end.

Definition on_pool (S : SystemThreads) (r : run Pool) : run SystemThreads := do d <- r; Ret (mkSystem d (resets S)).

Definition perform (S : SystemThreads) (a : action) : option (run SystemThreads) :=
  let d := pool S in
  match a with
  | OfThread t a => on_pool S <$> thread_step S t a
  | Start k p => Some (on_pool S (start d k p))
  | TryStartNow k => Some (on_pool S (do (d, _) <- try_start_now d k; Ret d))
  | SetMaxThreadCount n => Some (on_pool S (set_max_thread_count d n))
  | SetExpiryTimeout n => Some (on_pool S (Ret (set_expiry_timeout d n)))
  | Cancel k => Some (on_pool S (Ret (fst (cancel d k))))
  | Clear => Some (on_pool S (Ret (clear d)))
  | ReserveThread => Some (on_pool S (Ret (reserve_thread d)))
  | ReleaseThread => Some (on_pool S (release_thread d))
  | WaitForDone c forever =>
      match resets S !! c with
      | Some _ => None
      | None =>
          let (d, r) := wait_for_done_woken d forever in
          Some (Ret (mkSystem d (match r with Reset l => <[c := l]> (resets S) | _ => resets S end)))
      end
  | ResetExit c t =>
      match resets S !! c with
      | Some l => if bool_decide (t ∈ l) then Some (on_pool S (reset_exit d t)) else None
      | None => None
      end
  | ResetDestroy c =>
      match resets S !! c with
      | Some l =>
          if forallb (fun t => match threads d !! t with Some th => is_finished th | None => false end) l
          then Some (do d <- reset_destroy d l; Ret (mkSystem d (delete c (resets S))))
          else None
      | None => None
      end
  end.
