(* ===== verification/ThreadPoolFacts.v ===== *)
(** * The thread pool: invariant, order of tasks, one section at a time

    The invariant of the pool between sections and inside them, and that each section of a
    pooled thread and each operation returns and keeps it: no assertion fails, no dead thread
    is used, the count of active threads is exact and no task is lost or run twice. *)

From stdpp Require Import prelude list sorting gmap.
From Stdlib Require Import ZArith Lia.
From S2P Require Import Prelude StdSet ThreadPool.

#[local] Open Scope Z_scope.
#[local] Open Scope cxx_scope.

(** ** Sums over the threads *)
Definition tally (g : Thread -> nat) (m : gmap thread_ptr Thread) : nat := map_fold (fun _ th n => (g th + n)%nat) 0%nat m.

Lemma tally_new (g : Thread -> nat) (m : gmap thread_ptr Thread) (t : thread_ptr) (th : Thread) :
  m !! t = None -> tally g (<[t := th]> m) = (g th + tally g m)%nat.
Proof. intros H. unfold tally. rewrite map_fold_insert_L; [done| |done]. intros. lia. Qed.

Lemma tally_delete (g : Thread -> nat) (m : gmap thread_ptr Thread) (t : thread_ptr) (th : Thread) :
  m !! t = Some th -> tally g m = (g th + tally g (delete t m))%nat.
Proof. intros H. rewrite <- (insert_delete_id m t th H) at 1. rewrite <- insert_delete_eq, delete_delete_eq. apply tally_new, lookup_delete_eq. Qed.

Lemma tally_update (g : Thread -> nat) (m : gmap thread_ptr Thread) (t : thread_ptr) (th th' : Thread) :
  m !! t = Some th -> (tally g (<[t := th']> m) + g th = tally g m + g th')%nat.
Proof.
  intros H. rewrite (tally_delete g m t th H), <- insert_delete_eq, tally_new by apply lookup_delete_eq. lia.
Qed.

Lemma tally_zero (g : Thread -> nat) (m : gmap thread_ptr Thread) : (forall t th, m !! t = Some th -> g th = 0%nat) -> tally g m = 0%nat.
Proof.
  unfold tally. induction m as [|t th m Hm IH] using map_ind; intros H; [apply map_fold_empty|].
  rewrite map_fold_insert_L by (done || (intros; lia)). rewrite (H t th) by apply lookup_insert_eq.
  apply IH. intros u th' Hu. apply (H u). rewrite lookup_insert_ne; [done|]. intros ->. congruence.
Qed.

(** ** The queue's order *)
Definition item_lt (i j : Item) : Prop :=
  priority j < priority i \/ priority i = priority j /\ sequenceId i < sequenceId j.

Lemma item_lt_spec (i j : Item) : Compare i j = true <-> item_lt i j.
Proof.
  unfold Compare, item_lt. destruct (Z.eqb_spec (priority i) (priority j)); cbn; rewrite Z.ltb_lt; lia.
Qed.

#[export] Instance item_lt_trans : Transitive item_lt.
Proof. unfold item_lt. intros x y z. lia. Qed.

Definition queue_ok (q : ThreadPoolTaskQueue) : Prop :=
  StronglySorted item_lt (mTasks q) /\ Forall (fun i => sequenceId i < mIdCounter q) (mTasks q).

Lemma push_spec (q : ThreadPoolTaskQueue) (k : task_ptr) (p : Z) :
  queue_ok q -> queue_ok (fst (push q k p)) /\ mTasks (fst (push q k p)) ≡ₚ mkItem k (mIdCounter q) p :: mTasks q.
Proof.
  intros [Hs Hid]. set (x := mkItem k (mIdCounter q) p). cbn [push fst mTasks].
  assert (Hcmp : Forall (fun y => item_lt x y \/ item_lt y x) (mTasks q)).
  { eapply Forall_impl; [exact Hid|]. intros y Hy. unfold item_lt, x. cbn in *. lia. }
  assert (Hp : set_insert Compare x (mTasks q) ≡ₚ x :: mTasks q) by exact (set_insert_perm _ _ item_lt_spec _ _ Hcmp).
  split; [|exact Hp]. split; cbn [mTasks mIdCounter].
  - by apply (set_insert_sorted _ _ item_lt_spec).
  - fold x. rewrite Hp. constructor; [cbn; lia|]. eapply Forall_impl; [exact Hid|]. cbn. lia.
Qed.

Lemma queue_ok_filter (q : ThreadPoolTaskQueue) (P : Item -> Prop) `{forall i, Decision (P i)} :
  queue_ok q -> queue_ok (mkTaskQueue (mIdCounter q) (filter P (mTasks q))).
Proof.
  intros [Hs Hid]. split; cbn; [by apply StronglySorted_filter|]. rewrite Forall_forall in Hid |- *.
  intros i [_ Hi]%list_elem_of_filter. by apply Hid.
Qed.

Lemma pop_spec (q : ThreadPoolTaskQueue) :
  match mTasks q with
  | [] => pop q = (q, None)
  | i :: l => pop q = (mkTaskQueue (mIdCounter q) l, Some (task i))
  end.
Proof. unfold pop, first. by destruct q as [? [|i l]]. Qed.

Lemma queue_ok_tail (n : Z) (i : Item) (l : list Item) : queue_ok (mkTaskQueue n (i :: l)) -> queue_ok (mkTaskQueue n l).
Proof. intros [Hs Hid]. inversion Hs; inversion Hid; by split. Qed.

(** ** The invariant *)
Notation occ k l := (count_occ Pos.eq_dec l k).
Definition opt_list {A : Type} (o : option A) : list A := match o with Some a => [a] | None => [] end.

(** What a thread contributes: it is counted as active; the task handed to it; the task it runs. *)
Definition active (th : Thread) : nat := match phase th with Starting | Locked | Running _ => 1 | _ => 0 end%nat.
Definition run_of (th : Thread) : list task_ptr := match phase th with Running k => [k] | _ => [] end.
Definition handed (k : task_ptr) (th : Thread) : nat := occ k (opt_list (mTask th)).
Definition runs (k : task_ptr) (th : Thread) : nat := occ k (run_of th).

(** A thread in the pool ([a]), in the waiting list ([w]), in the expired list ([e]) *)
Definition thread_ok (a w e : Prop) (th : Thread) : Prop :=
  match phase th with
  | NotStarted => False
  | Starting => a /\ ~ w /\ ~ e /\ mRunning th = false /\ mInFinish th = false
  | Locked => a /\ ~ w /\ ~ e /\ mExit th = false /\ mRunning th = true /\ mInFinish th = false
  | Running _ => a /\ ~ w /\ ~ e /\ mExit th = false /\ mRunning th = true /\ mInFinish th = false /\ mTask th = None
  | Waiting => ~ e /\ (a -> mExit th = false) /\ mRunning th = true /\ mInFinish th = false /\ (w -> mTask th = None)
  | Finished => ~ w /\ (a -> e) /\ mRunning th = false /\ mInFinish th = true /\ (e -> mTask th = None)
  | Leaving | Over => ~ w /\ (a -> e) /\ mRunning th = false /\ mInFinish th = false /\ (e -> mTask th = None)
  end.

Definition status (d : Pool) (t : thread_ptr) : Thread -> Prop :=
  thread_ok (t ∈ mAllThreads d) (t ∈ mWaitingThreads d) (t ∈ mExpiredThreads d).

(** Where the accepted tasks are, the threads apart. *)
Definition load (d : Pool) (k : task_ptr) : nat :=
  (occ k (task <$> mTasks (mTaskQueue d)) + occ k (begun d) + occ k (removed d) + occ k (dropped d))%nat.

(** Tasks in a section's hands: neither in the queue nor with a thread, or in two places. *)
Definition hands := task_ptr -> Z.
Definition none : hands := fun _ => 0.
Definition one (k : task_ptr) : hands := fun k' => Z.of_nat (occ k' [k]).
Definition twice (k : task_ptr) : hands := fun k' => - Z.of_nat (occ k' [k]).

Record pool_ok (L : hands) (d : Pool) : Prop := {
  ok_queue : queue_ok (mTaskQueue d);
  ok_nodup : NoDup (mWaitingThreads d ++ mExpiredThreads d);
  ok_subset : forall t, t ∈ mWaitingThreads d ++ mExpiredThreads d -> t ∈ mAllThreads d;
  ok_alive : forall t, t ∈ mAllThreads d -> is_Some (threads d !! t);
  ok_next : forall t, is_Some (threads d !! t) -> (t < next_thread d)%positive;
  ok_thread : forall t th, threads d !! t = Some th -> status d t th;
  ok_active : mActiveThreadCount d = Z.of_nat (tally active (threads d));
  ok_tasks : forall k, Z.of_nat (occ k (accepted d)) = Z.of_nat (load d k + tally (handed k) (threads d)) + L k;
  ok_runs : forall k, occ k (begun d) = (occ k (ended d) + tally (runs k) (threads d))%nat
}.

Lemma thread_ok_iff (a a' w w' e e' : Prop) (th : Thread) :
  (a <-> a') -> (w <-> w') -> (e <-> e') -> thread_ok a w e th -> thread_ok a' w' e' th.
Proof. intros Ha Hw He. unfold thread_ok. destruct (phase th); tauto. Qed.

(** What the thread [t], alive or not, adds to a sum *)
Definition share (g : Thread -> nat) (o : option Thread) : nat := match o with Some th => g th | None => 0%nat end.

Lemma tally_share (g : Thread -> nat) (m : gmap thread_ptr Thread) (t : thread_ptr) (th : Thread) :
  (tally g (<[t := th]> m) + share g (m !! t) = tally g m + g th)%nat.
Proof.
  destruct (m !! t) as [th0|] eqn:E; cbn [share]; [by apply tally_update|]. rewrite tally_new by done. lia.
Qed.

(** A section of code that changes the thread [t], its place in the lists, and the queue *)
Lemma pool_ok_update (L L' : hands) (d d' : Pool) (t : thread_ptr) (th : Thread) :
  pool_ok L d -> queue_ok (mTaskQueue d') -> threads d' = <[t := th]> (threads d) ->
  (t < next_thread d')%positive -> (next_thread d <= next_thread d')%positive ->
  NoDup (mWaitingThreads d' ++ mExpiredThreads d') -> (t ∈ mWaitingThreads d' ++ mExpiredThreads d' -> t ∈ mAllThreads d') ->
  (forall u, u <> t -> (u ∈ mAllThreads d <-> u ∈ mAllThreads d') /\ (u ∈ mWaitingThreads d <-> u ∈ mWaitingThreads d') /\
    (u ∈ mExpiredThreads d <-> u ∈ mExpiredThreads d')) ->
  status d' t th ->
  mActiveThreadCount d' + Z.of_nat (share active (threads d !! t)) = mActiveThreadCount d + Z.of_nat (active th) ->
  (forall k, Z.of_nat (occ k (accepted d') + load d k + share (handed k) (threads d !! t)) + L k =
    Z.of_nat (occ k (accepted d) + load d' k + handed k th) + L' k) ->
  (forall k, (occ k (begun d') + occ k (ended d) + share (runs k) (threads d !! t) = occ k (begun d) + occ k (ended d') + runs k th)%nat) ->
  pool_ok L' d'.
Proof.
  intros Hok Hq Hth Hn Hn' Hnd Hsub Hlists Hst Hact Htasks Hruns. split; try done.
  - intros u Hu. destruct (decide (u = t)) as [->|Hne]; [by apply Hsub|]. destruct (Hlists u Hne) as (Ha & Hw & He).
    apply Ha, (ok_subset _ _ Hok). rewrite elem_of_app in Hu |- *. tauto.
  - intros u Hu. rewrite Hth. destruct (decide (u = t)) as [->|Hne]; [rewrite lookup_insert_eq; eauto|].
    rewrite lookup_insert_ne by done. apply (ok_alive _ _ Hok). by apply Hlists.
  - intros u. rewrite Hth. destruct (decide (u = t)) as [->|Hne]; [done|]. rewrite lookup_insert_ne by done.
    intros Hu. pose proof (ok_next _ _ Hok u Hu). lia.
  - intros u th'. rewrite Hth. destruct (decide (u = t)) as [->|Hne].
    + rewrite lookup_insert_eq. by intros [= <-].
    + rewrite lookup_insert_ne by done. intros Hu%(ok_thread _ _ Hok). destruct (Hlists u Hne) as (Ha & Hw & He).
      revert Hu. by apply thread_ok_iff.
  - pose proof (ok_active _ _ Hok). pose proof (tally_share active (threads d) t th). rewrite Hth. lia.
  - intros k. pose proof (ok_tasks _ _ Hok k). pose proof (tally_share (handed k) (threads d) t th). specialize (Htasks k). rewrite Hth. lia.
  - intros k. pose proof (ok_runs _ _ Hok k). pose proof (tally_share (runs k) (threads d) t th). specialize (Hruns k). rewrite Hth. lia.
Qed.

Lemma new_Pool_ok (n : Z) : pool_ok none (new_Pool n).
Proof.
  split; cbn; try done.
  - split; constructor.
  - constructor.
  - intros t Ht. by apply elem_of_nil in Ht.
  - intros t [x Hx]. by rewrite lookup_empty in Hx.
Qed.

(** ** Occurrences *)
Lemma occ_cons (k x : task_ptr) (l : list task_ptr) : occ k (x :: l) = (occ k [x] + occ k l)%nat.
Proof. cbn. destruct (Pos.eq_dec x k); lia. Qed.
Lemma occ_nil (k : task_ptr) : occ k [] = 0%nat.
Proof. done. Qed.
Lemma occ_app (k : task_ptr) (l l' : list task_ptr) : occ k (l ++ l') = (occ k l + occ k l')%nat.
Proof. apply count_occ_app. Qed.
Lemma occ_perm (k : task_ptr) (l l' : list task_ptr) : l ≡ₚ l' -> occ k l = occ k l'.
Proof. intros H. by apply (Permutation_count_occ Pos.eq_dec). Qed.
#[local] Arguments count_occ : simpl never.

(** The equations on occurrences that remain when the states are computed *)
Ltac occs :=
  intros; unfold load, share, handed, runs, none, one, twice, active, run_of, opt_list in *; cbn in *;
  repeat match goal with
  | |- context [occ ?k (?x :: ?l)] => lazymatch l with [] => fail | _ => rewrite (occ_cons k x l) end
  end; rewrite ?occ_nil, ?occ_app; try lia.

(** ** Threads at work *)
Definition busy_set (d : Pool) : gset thread_ptr := mAllThreads d ∖ list_to_set (mWaitingThreads d ++ mExpiredThreads d).

Lemma size_busy (L : hands) (d : Pool) :
  pool_ok L d -> Z.of_nat (size (busy_set d)) = active_thread_count d - mReservedThreadCount d.
Proof.
  intros Hok. unfold busy_set, active_thread_count.
  assert (Hs : list_to_set (mWaitingThreads d ++ mExpiredThreads d) ⊆ mAllThreads d).
  { intros t Ht%elem_of_list_to_set. by apply (ok_subset _ _ Hok). }
  pose proof (subseteq_size _ _ Hs) as Hle. rewrite size_difference by done.
  rewrite size_list_to_set in * by apply Hok. rewrite length_app in *. lia.
Qed.

(** When work is queued, a thread is at work, unless the reservations use up the limit. *)
Definition work_ok (d : Pool) : Prop :=
  mTasks (mTaskQueue d) = [] \/ busy_set d <> ∅ \/ mMaxThreadCount d <= mReservedThreadCount d.

Lemma another_busy (L : hands) (d : Pool) (t : thread_ptr) :
  pool_ok L d -> is_too_many_threads_active d = true -> exists u, u <> t /\ u ∈ busy_set d.
Proof.
  intros Hok Htoo. unfold is_too_many_threads_active in Htoo. zbool. pose proof (size_busy L d Hok) as Hsz.
  destruct (set_choose_or_empty (busy_set d ∖ {[t]})) as [[u Hu]|He].
  { apply elem_of_difference in Hu as [Hu Ht]. exists u. split; [|done]. intros ->. by apply Ht, elem_of_singleton. }
  assert (Hle : busy_set d ⊆ {[t]}).
  { intros u Hu. destruct (decide (u = t)) as [->|]; [by apply elem_of_singleton|].
    exfalso. apply (not_elem_of_empty (C := gset thread_ptr) u). rewrite <- He. set_solver. } apply subseteq_size in Hle. rewrite size_singleton in Hle. lia.
Qed.

(** ** Sections of a thread *)
Definition rank (th : Thread) : nat :=
  (match phase th with NotStarted => 7 | Starting => 6 | Locked | Running _ | Waiting => 4 | Finished => 2 | Leaving => 1 | Over => 0 end
   + length (opt_list (mTask th)))%nat.
Definition measure (d : Pool) : Z :=
  Z.of_nat (length (mTasks (mTaskQueue d))) + Z.of_nat (tally rank (threads d)) - Z.of_nat (length (mWaitingThreads d)).

Definition locked (d : Pool) (u : thread_ptr) : Prop := exists th, threads d !! u = Some th /\ phase th = Locked.

(** What no section of the thread [t] changes, and the bound on how far it can go *)
Record frame (t : thread_ptr) (d d' : Pool) : Prop := {
  fr_all : mAllThreads d' = mAllThreads d;
  fr_next : next_thread d' = next_thread d;
  fr_dom : dom (threads d') = dom (threads d);
  fr_accepted : accepted d' = accepted d;
  fr_removed : removed d' = removed d;
  fr_max : mMaxThreadCount d' = mMaxThreadCount d;
  fr_reserved : mReservedThreadCount d' = mReservedThreadCount d;
  fr_locked : forall u, locked d' u -> locked d u \/ u = t;
  fr_measure : measure d' <= measure d
}.

#[export] Instance frame_preorder (t : thread_ptr) : PreOrder (frame t).
Proof.
  split; [by intros d; split; auto|]. intros d1 d2 d3 [] []. split; try congruence; [|lia].
  intros u Hu. destruct (fr_locked1 u Hu); auto.
Qed.

Definition section (t : thread_ptr) (d d' : Pool) : Prop :=
  pool_ok none d' /\ work_ok d' /\ frame t d d' /\ (forall u, locked d' u -> locked d u /\ u <> t) /\ measure d' < measure d.

Lemma section_after (t : thread_ptr) (d d1 d' : Pool) : frame t d d1 -> section t d1 d' -> section t d d'.
Proof.
  intros H (? & ? & H' & Hl & ?). split; [done|]. split; [done|]. split; [by transitivity d1|]. split.
  - intros u Hu. destruct (Hl u Hu) as [Hu1 Hne]. split; [|done]. by destruct (fr_locked _ _ _ H u Hu1).
  - pose proof (fr_measure _ _ _ H). lia.
Qed.

Lemma upd_thread_eq (d : Pool) (t : thread_ptr) (th : Thread) (f : Thread -> Thread) :
  threads d !! t = Some th -> upd_thread d t f = Ret (with_threads d (<[t := f th]> (threads d)) (next_thread d)).
Proof. intros H. unfold upd_thread, thread_at. by rewrite H. Qed.

(** Frames of an update of one thread *)
Lemma frame_update (d d' : Pool) (t : thread_ptr) (th th' : Thread) :
  threads d !! t = Some th -> threads d' = <[t := th']> (threads d) ->
  mAllThreads d' = mAllThreads d -> next_thread d' = next_thread d -> accepted d' = accepted d -> removed d' = removed d ->
  mMaxThreadCount d' = mMaxThreadCount d -> mReservedThreadCount d' = mReservedThreadCount d ->
  (length (mTasks (mTaskQueue d')) + rank th' + length (mWaitingThreads d) <=
   length (mTasks (mTaskQueue d)) + rank th + length (mWaitingThreads d'))%nat -> frame t d d'.
Proof.
  intros Ht Hth. split; try done.
  - rewrite Hth. apply set_eq. intros u. rewrite !elem_of_dom. destruct (decide (u = t)) as [->|].
    + rewrite lookup_insert_eq, Ht. split; eauto.
    + by rewrite lookup_insert_ne.
  - intros u (x & Hx & Hp). rewrite Hth in Hx. destruct (decide (u = t)) as [->|]; [by right|].
    rewrite lookup_insert_ne in Hx by done. left. by exists x.
  - unfold measure. pose proof (tally_update rank (threads d) t th th' Ht). rewrite Hth. lia.
Qed.

Lemma section_update (d d' : Pool) (t : thread_ptr) (th th' : Thread) :
  threads d !! t = Some th -> threads d' = <[t := th']> (threads d) -> phase th' <> Locked -> frame t d d' ->
  pool_ok none d' -> work_ok d' ->
  (length (mTasks (mTaskQueue d')) + rank th' + length (mWaitingThreads d) <
   length (mTasks (mTaskQueue d)) + rank th + length (mWaitingThreads d'))%nat -> section t d d'.
Proof.
  intros Ht Hth Hp Hf Hok Hw Hlt. split; [done|]. split; [done|]. split; [done|]. split.
  - intros u Hu. assert (Hne : u <> t) by (intros ->; destruct Hu as (x & Hx & Hl); rewrite Hth, lookup_insert_eq in Hx; congruence).
    split; [|done]. by destruct (fr_locked _ _ _ Hf u Hu).
  - unfold measure. pose proof (tally_update rank (threads d) t th th' Ht). rewrite Hth. lia.
Qed.

(** A thread with the mutex is in the pool and in neither list. *)
Lemma locked_status (L : hands) (d : Pool) (t : thread_ptr) (th : Thread) :
  pool_ok L d -> threads d !! t = Some th -> phase th = Locked ->
  t ∈ mAllThreads d /\ t ∉ mWaitingThreads d /\ t ∉ mExpiredThreads d /\
  mExit th = false /\ mRunning th = true /\ mInFinish th = false /\ 0 < mActiveThreadCount d.
Proof.
  intros Hok Ht Hp. pose proof (ok_thread _ _ Hok t th Ht) as Hst. unfold status, thread_ok in Hst. rewrite Hp in Hst.
  pose proof (ok_active _ _ Hok) as Ha. rewrite (tally_delete active (threads d) t th Ht) in Ha. unfold active in Ha at 1.
  rewrite Hp in Ha. repeat (split; [tauto|]). lia.
Qed.

Lemma busy_intro (d : Pool) (t : thread_ptr) :
  t ∈ mAllThreads d -> t ∉ mWaitingThreads d -> t ∉ mExpiredThreads d -> busy_set d <> ∅.
Proof.
  intros Ha Hw He Hb. apply (not_elem_of_empty (C := gset thread_ptr) t). rewrite <- Hb.
  unfold busy_set. apply elem_of_difference. split; [done|]. rewrite elem_of_list_to_set, elem_of_app. tauto.
Qed.

Lemma busy_elim (d : Pool) (t : thread_ptr) :
  t ∈ busy_set d -> t ∈ mAllThreads d /\ t ∉ mWaitingThreads d /\ t ∉ mExpiredThreads d.
Proof.
  unfold busy_set. rewrite elem_of_difference, elem_of_list_to_set, elem_of_app. tauto.
Qed.

(** Closes the side conditions of [pool_ok_update] on lists that do not change *)
Ltac pool_sides Hok :=
  try done; try (by apply (ok_queue _ _ Hok)); try (by apply (ok_nodup _ _ Hok));
  try (by apply (ok_subset _ _ Hok)); try (by cbn; apply (ok_next _ _ Hok); eauto); try (by cbn; lia); try (by intros; cbn; tauto).

Lemma run_task_spec (d : Pool) (t : thread_ptr) (k : task_ptr) (th : Thread) :
  pool_ok (one k) d -> threads d !! t = Some th -> phase th = Locked -> mTask th = None ->
  exists d', run_task d t k = Ret d' /\ pool_ok none d' /\ work_ok d' /\ threads d' = <[t := with_phase th (Running k)]> (threads d) /\ frame t d d' /\
  mTaskQueue d' = mTaskQueue d /\ mWaitingThreads d' = mWaitingThreads d.
Proof.
  intros Hok Ht Hp Hk. destruct (locked_status _ _ _ _ Hok Ht Hp) as (Ha & Hw & He & Hx & Hr & Hf & _).
  unfold run_task. rewrite (upd_thread_eq _ t th) by done. eexists. split; [done|]. split; [|split; [|split; [done|split; [|done]]]].
  - apply (pool_ok_update (one k) none d _ t (with_phase th (Running k)) Hok); pool_sides Hok.
    + rewrite Ht. unfold share, active. by rewrite Hp.
    + rewrite Ht. destruct th; cbn in *; subst; occs.
    + rewrite Ht. destruct th; cbn in *; subst; occs.
  - right. left. by apply (busy_intro _ t).
  - apply (frame_update _ _ t th (with_phase th (Running k))); try done. unfold rank. rewrite Hp. cbn. lia.
Qed.

(** The thread leaves [run] for good: it is one of the expired threads. *)
Lemma run_expire_spec (d : Pool) (t : thread_ptr) (th : Thread) :
  pool_ok none d -> threads d !! t = Some th -> phase th = Locked -> mTask th = None ->
  mTasks (mTaskQueue d) = [] \/ is_too_many_threads_active d = true ->
  exists d', run_expire d t = Ret d' /\ section t d d'.
Proof.
  intros Hok Ht Hp Hk Hq. destruct (locked_status _ _ _ _ Hok Ht Hp) as (Ha & Hw & He & Hx & Hr & Hf & Hpos).
  unfold run_expire, register_thread_inactive, run_exit. cbn. rewrite (proj2 (Z.ltb_lt 0 _)) by done. cbn.
  rewrite (upd_thread_eq _ t th) by done. eexists. split; [done|].
  set (th' := with_phase (with_flags th false true) Finished).
  apply (section_update _ _ t th th'); try done.
  - apply (frame_update _ _ t th th'); try done. unfold rank. rewrite Hp. cbn. lia.
  - apply (pool_ok_update none none d _ t th' Hok); cbn; pool_sides Hok.
    + rewrite app_assoc. apply NoDup_app. split; [apply Hok|]. split; [|apply NoDup_singleton].
      intros u Hu ->%list_elem_of_singleton. rewrite elem_of_app in Hu. tauto.
    + intros u Hu. split; [done|]. split; [done|]. rewrite elem_of_app, list_elem_of_singleton. tauto.
    + unfold status, thread_ok; cbn. rewrite elem_of_app, list_elem_of_singleton. tauto.
    + rewrite Ht. unfold share, active. rewrite Hp. cbn. lia.
    + rewrite Ht. destruct th; cbn in *; subst; occs.
    + rewrite Ht. destruct th; cbn in *; subst; occs.
  - destruct Hq as [Hq|Hq]; [by left|]. destruct (another_busy _ _ t Hok Hq) as (u & Hu & Hb).
    apply busy_elim in Hb as (Hua & Huw & Hue). right. left. apply (busy_intro _ u); try done. cbn.
    rewrite elem_of_app, list_elem_of_singleton. tauto.
  - cbn. unfold rank. rewrite Hp. cbn. lia.
Qed.

Lemma run_idle_spec (d : Pool) (t : thread_ptr) (th : Thread) :
  pool_ok none d -> threads d !! t = Some th -> phase th = Locked -> mTask th = None ->
  mTasks (mTaskQueue d) = [] \/ is_too_many_threads_active d = true ->
  exists d', run_idle d t = Ret d' /\ section t d d'.
Proof.
  intros Hok Ht Hp Hk Hq. destruct (locked_status _ _ _ _ Hok Ht Hp) as (Ha & Hw & He & Hx & Hr & Hf & Hpos).
  unfold run_idle, thread_at at 1. rewrite Ht. cbn [deref run_bind]. rewrite Hx, orb_false_r.
  destruct (is_too_many_threads_active d) eqn:Htoo; [apply (run_expire_spec d t th); auto|]. destruct Hq as [Hq|]; [|done].
  rewrite Hk. cbn [bool_decide decide decide_rel option_eq_None_dec check run_bind].
  unfold register_thread_inactive. cbn. rewrite (proj2 (Z.ltb_lt 0 _)) by done. cbn.
  unfold thread_at. cbn. rewrite Ht. cbn. rewrite Hx, (upd_thread_eq _ t th) by done. eexists. split; [done|].
  set (th' := with_phase th Waiting).
  assert (Hlt : (length (mTasks (mTaskQueue d)) + rank th' + length (mWaitingThreads d) <
    length (mTasks (mTaskQueue d)) + rank th + length (mWaitingThreads d ++ [t]))%nat).
  { rewrite length_app. unfold rank. rewrite Hp. cbn. lia. }
  apply (section_update _ _ t th th'); try done.
  - apply (frame_update _ _ t th th'); try done. apply Nat.lt_le_incl, Hlt.
  - apply (pool_ok_update none none d _ t th' Hok); cbn; pool_sides Hok.
    + rewrite <- app_assoc. cbn. rewrite <- Permutation_middle. constructor; [|apply Hok]. rewrite elem_of_app. tauto.
    + intros u Hu. split; [done|]. split; [|done]. rewrite elem_of_app, list_elem_of_singleton. tauto.
    + rewrite Ht. unfold share, active. rewrite Hp. cbn. lia.
    + rewrite Ht. destruct th; cbn in *; subst; occs.
    + rewrite Ht. destruct th; cbn in *; subst; occs.
  - by left.
Qed.

(** A task leaves the queue for the section's hands. *)
Lemma pool_ok_pop (L L' : hands) (d : Pool) (i : Item) (l : list Item) :
  pool_ok L d -> mTasks (mTaskQueue d) = i :: l -> (forall k, L' k = L k + one (task i) k) ->
  pool_ok L' (with_queue d (mkTaskQueue (mIdCounter (mTaskQueue d)) l)).
Proof.
  intros Hok Hq HL. pose proof (ok_queue _ _ Hok) as Hqo. destruct (mTaskQueue d) as [n items] eqn:E. cbn in Hq. subst items.
  destruct Hok. split; try done; cbn.
  - by apply (queue_ok_tail n i).
  - intros k. pose proof (ok_tasks0 k) as H. revert H. rewrite HL. unfold load, one. rewrite E. cbn.
    rewrite (occ_cons k (task i) (task <$> l)). lia.
Qed.

Lemma frame_pop (t : thread_ptr) (d : Pool) (i : Item) (l : list Item) :
  mTasks (mTaskQueue d) = i :: l -> frame t d (with_queue d (mkTaskQueue (mIdCounter (mTaskQueue d)) l)).
Proof. intros Hq. split; try done; [by left|]. unfold measure. cbn. rewrite Hq. cbn. lia. Qed.

Lemma run_next_spec (d : Pool) (t : thread_ptr) (th : Thread) :
  pool_ok none d -> threads d !! t = Some th -> phase th = Locked -> mTask th = None ->
  exists d', run_next d t = Ret d' /\ section t d d'.
Proof.
  intros Hok Ht Hp Hk. destruct (locked_status _ _ _ _ Hok Ht Hp) as (_ & _ & _ & Hx & _).
  unfold run_next. destruct (is_too_many_threads_active d) eqn:Htoo; [apply (run_idle_spec d t th); auto|].
  pose proof (pop_spec (mTaskQueue d)) as Hpop. destruct (mTasks (mTaskQueue d)) as [|i l] eqn:Hq; rewrite Hpop.
  - replace (run_idle d t) with (run_idle d t) by done. apply (run_idle_spec d t th); auto.
  - unfold thread_at. rewrite Ht. cbn [deref run_bind]. rewrite Hx.
    pose proof (pool_ok_pop none (one (task i)) d i l Hok Hq (fun _ => eq_refl)) as Hok'. destruct (run_task_spec _ t (task i) th Hok' Ht Hp Hk)
      as (d' & E & Hok1 & Hw & Hth & Hfr & Hqe & Hwe).
    exists d'. split; [done|]. apply (section_update d d' t th (with_phase th (Running (task i)))); try done.
    + transitivity (with_queue d (mkTaskQueue (mIdCounter (mTaskQueue d)) l)); [by apply (frame_pop t d i)|done].
    + rewrite Hqe, Hwe. cbn. rewrite Hq. unfold rank. rewrite Hp. cbn. lia.
Qed.

Lemma run_turn_spec (d : Pool) (t : thread_ptr) (th : Thread) :
  pool_ok none d -> threads d !! t = Some th -> phase th = Locked -> exists d', run_turn d t = Ret d' /\ section t d d'.
Proof.
  intros Hok Ht Hp. destruct (locked_status _ _ _ _ Hok Ht Hp) as (Ha & Hw & He & Hx & Hr & Hf & Hpos).
  unfold run_turn, thread_at. rewrite Ht. cbn [deref run_bind]. rewrite Hx, (upd_thread_eq _ t th) by done. cbn [run_bind].
  set (th1 := with_task th None). set (d1 := with_threads d _ _).
  assert (Ht1 : threads d1 !! t = Some th1) by apply lookup_insert_eq.
  assert (Hok1 : pool_ok (match mTask th with Some k => one k | None => none end) d1).
  { apply (pool_ok_update none _ d _ t th1 Hok); pool_sides Hok; try by (unfold status, thread_ok, th1; cbn; rewrite Hp).
    all: rewrite Ht; destruct th as [[k|] ? ? ? ?]; cbn in *; subst; occs. }
  assert (Hfr : frame t d d1).
  { apply (frame_update _ _ t th th1); try done. unfold rank. cbn. lia. }
  destruct (mTask th) as [k|] eqn:Hk.
  - destruct (run_task_spec d1 t k th1 Hok1 Ht1 Hp eq_refl) as (d' & E & Hok' & Hw' & Hth' & Hfr' & Hqe & Hwe).
    exists d'. split; [done|]. apply (section_update d d' t th (with_phase th1 (Running k))); try done.
    + rewrite Hth'. cbn. apply insert_insert_eq.
    + by transitivity d1.
    + rewrite Hqe, Hwe. cbn. unfold rank. rewrite Hp, Hk. cbn. lia.
  - destruct (run_next_spec d1 t th1 Hok1 Ht1 Hp eq_refl) as (d' & E & Hs). exists d'. split; [done|]. by apply (section_after t d d1).
Qed.

(** The thread enters a section: it has the mutex. *)
Lemma run_start_spec (d : Pool) (t : thread_ptr) (th : Thread) :
  pool_ok none d -> threads d !! t = Some th -> phase th = Starting -> exists d', run_start d t = Ret d' /\ section t d d'.
Proof.
  intros Hok Ht Hp. pose proof (ok_thread _ _ Hok t th Ht) as Hst. unfold status, thread_ok in Hst. rewrite Hp in Hst.
  destruct Hst as (Ha & Hw & He & _).
  unfold run_start. rewrite (upd_thread_eq _ t th) by done. cbn [run_bind]. set (th1 := with_phase _ Locked). set (d1 := with_threads d _ _).
  assert (Ht1 : threads d1 !! t = Some th1) by apply lookup_insert_eq.
  destruct (run_turn_spec d1 t th1) as (d' & E & Hs); [|done|done|].
  - apply (pool_ok_update none none d _ t th1 Hok); pool_sides Hok; rewrite Ht; destruct th as [[?|] ? ? ? ?]; cbn in *; subst; occs.
  - exists d'. split; [done|]. apply (section_after t d d1); [|done]. apply (frame_update _ _ t th th1); try done.
    unfold rank. rewrite Hp. cbn. lia.
Qed.

Lemma run_finish_task_spec (d : Pool) (t : thread_ptr) (th : Thread) (k : task_ptr) :
  pool_ok none d -> threads d !! t = Some th -> phase th = Running k -> exists d', run_finish_task d t k = Ret d' /\ section t d d'.
Proof.
  intros Hok Ht Hp. pose proof (ok_thread _ _ Hok t th Ht) as Hst. unfold status, thread_ok in Hst. rewrite Hp in Hst.
  destruct Hst as (Ha & Hw & He & Hx & Hr & Hf & Hk).
  unfold run_finish_task. rewrite (upd_thread_eq _ t th) by done. cbn [run_bind]. set (th1 := with_phase th Locked). set (d1 := with_threads _ _ _).
  assert (Ht1 : threads d1 !! t = Some th1) by apply lookup_insert_eq.
  destruct (run_next_spec d1 t th1) as (d' & E & Hs); [|done|done|done|].
  - apply (pool_ok_update none none d _ t th1 Hok); pool_sides Hok; rewrite Ht; destruct th as [[?|] ? ? ? ?]; cbn in *; subst; occs.
  - exists d'. split; [done|]. apply (section_after t d d1); [|done]. apply (frame_update _ _ t th th1); try done.
    unfold rank. rewrite Hp. cbn. lia.
Qed.

Lemma erase_first_absent (t : thread_ptr) (l : list thread_ptr) : t ∉ l -> erase_first t l = l.
Proof.
  induction l as [|u l IH]; [done|]. intros H. cbn. rewrite not_elem_of_cons in H.
  rewrite decide_False by (intros ->; tauto). f_equal. tauto.
Qed.

Lemma erase_first_present (t : thread_ptr) (l : list thread_ptr) : t ∈ l -> l ≡ₚ t :: erase_first t l.
Proof.
  induction l as [|u l IH]; [by intros H%elem_of_nil|]. cbn. destruct (decide (u = t)) as [->|Hne]; [done|].
  intros [->|H]%elem_of_cons; [done|]. rewrite (IH H) at 1. apply perm_swap.
Qed.

(** A waiting thread that the pool let go leaves [run]. *)
Lemma resume_dismissed (d : Pool) (t : thread_ptr) (th : Thread) :
  pool_ok none d -> work_ok d -> threads d !! t = Some th -> phase th = Waiting -> t ∉ mAllThreads d ->
  exists d', run_resume d t = Ret d' /\ section t d d'.
Proof.
  intros Hok Hwork Ht Hp Ha. pose proof (ok_thread _ _ Hok t th Ht) as Hst. unfold status, thread_ok in Hst. rewrite Hp in Hst.
  assert (Hw : t ∉ mWaitingThreads d) by (intros Hin; apply Ha, (ok_subset _ _ Hok); rewrite elem_of_app; tauto).
  unfold run_resume. rewrite (upd_thread_eq _ t th) by done. cbn [run_bind]. unfold run_leave_wait. cbn -[bool_decide].
  rewrite (erase_first_absent t _ Hw), (bool_decide_eq_false_2 (t ∈ mAllThreads d)) by done. cbn [negb].
  unfold register_thread_inactive. cbn. pose proof (ok_active _ _ Hok). rewrite (proj2 (Z.ltb_lt 0 _)) by lia. cbn.
  unfold run_exit. rewrite (upd_thread_eq _ t (with_phase th Locked)) by apply lookup_insert_eq. cbn.
  eexists. split; [done|]. set (th' := with_phase _ Finished).
  apply (section_update _ _ t th th'); cbn; try done.
  - by rewrite insert_insert_eq.
  - apply (frame_update _ _ t th th'); cbn; try done; [by rewrite insert_insert_eq|]. unfold rank. rewrite Hp. cbn. lia.
  - apply (pool_ok_update none none d _ t th' Hok); cbn; pool_sides Hok.
    + by rewrite insert_insert_eq.
    + rewrite Ht. unfold share, active. rewrite Hp. cbn. lia.
    + rewrite Ht. destruct th as [[?|] ? ? ? ?]; cbn in *; subst; occs.
    + rewrite Ht. destruct th as [[?|] ? ? ? ?]; cbn in *; subst; occs.
  - unfold rank. rewrite Hp. cbn. lia.
Qed.

(** A thread still in the waiting list was not given work: it expires. *)
Lemma resume_expired (d : Pool) (t : thread_ptr) (th : Thread) :
  pool_ok none d -> work_ok d -> threads d !! t = Some th -> phase th = Waiting -> t ∈ mWaitingThreads d ->
  exists d', run_resume d t = Ret d' /\ section t d d'.
Proof.
  intros Hok Hwork Ht Hp Hw. pose proof (ok_thread _ _ Hok t th Ht) as Hst. unfold status, thread_ok in Hst. rewrite Hp in Hst.
  assert (Ha : t ∈ mAllThreads d) by (apply (ok_subset _ _ Hok); rewrite elem_of_app; tauto).
  pose proof (erase_first_present t _ Hw) as Hperm. set (rest := erase_first t (mWaitingThreads d)) in *.
  assert (Hnd : NoDup (t :: rest ++ mExpiredThreads d)) by (pose proof (ok_nodup _ _ Hok) as H; by rewrite Hperm in H).
  inversion Hnd as [|? ? Hnin Hnd']; subst. rewrite elem_of_app in Hnin.
  unfold run_resume. rewrite (upd_thread_eq _ t th) by done. cbn [run_bind]. unfold run_leave_wait. cbn -[bool_decide].
  rewrite !bool_decide_eq_true_2 by done. cbn [negb].
  unfold run_expire, register_thread_inactive. cbn. pose proof (ok_active _ _ Hok). rewrite (proj2 (Z.ltb_lt 0 _)) by lia. cbn.
  unfold run_exit. rewrite (upd_thread_eq _ t (with_phase th Locked)) by apply lookup_insert_eq. cbn. fold rest.
  eexists. split; [done|]. set (th' := with_phase _ Finished).
  assert (Hother : forall u, u <> t -> (u ∈ mWaitingThreads d <-> u ∈ rest) /\ (u ∈ mExpiredThreads d <-> u ∈ mExpiredThreads d ++ [t])).
  { intros u Hu. rewrite Hperm, elem_of_cons, elem_of_app, list_elem_of_singleton. tauto. }
  apply (section_update _ _ t th th'); cbn; try done.
  - by rewrite insert_insert_eq.
  - apply (frame_update _ _ t th th'); cbn; try done; [by rewrite insert_insert_eq|]. rewrite Hperm. unfold rank. rewrite Hp. cbn. lia.
  - apply (pool_ok_update none none d _ t th' Hok); cbn; pool_sides Hok.
    + by rewrite insert_insert_eq.
    + rewrite app_assoc, (Permutation_app_comm _ [t]). cbn. constructor; [|done]. rewrite elem_of_app. tauto.
    + intros u Hu. split; [done|]. by apply Hother.
    + unfold status, thread_ok; cbn. rewrite elem_of_app, list_elem_of_singleton. tauto.
    + rewrite Ht. unfold share, active. rewrite Hp. cbn. lia.
    + rewrite Ht. destruct th as [[?|] ? ? ? ?]; cbn in *; subst; occs.
    + rewrite Ht. destruct th as [[?|] ? ? ? ?]; cbn in *; subst; occs.
  - destruct Hwork as [Hq|[Hb|Hm]]; [by left| |by right; right]. right. left.
    apply set_choose_L in Hb as [u Hb]. apply busy_elim in Hb as (Hua & Huw & Hue). assert (Hne : u <> t) by (intros ->; done).
    destruct (Hother u Hne). apply (busy_intro _ u); cbn; tauto.
  - rewrite Hperm. unfold rank. rewrite Hp. cbn. lia.
Qed.

Lemma run_resume_spec (d : Pool) (t : thread_ptr) (th : Thread) :
  pool_ok none d -> work_ok d -> threads d !! t = Some th -> phase th = Waiting -> exists d', run_resume d t = Ret d' /\ section t d d'.
Proof.
  intros Hok Hwork Ht Hp. destruct (decide (t ∈ mAllThreads d)) as [Ha|Ha]; [|by apply (resume_dismissed d t th)].
  destruct (decide (t ∈ mWaitingThreads d)) as [Hw|Hw]; [by apply (resume_expired d t th)|].
  pose proof (ok_thread _ _ Hok t th Ht) as Hst. unfold status, thread_ok in Hst. rewrite Hp in Hst.
  unfold run_resume. rewrite (upd_thread_eq _ t th) by done. cbn [run_bind]. unfold run_leave_wait. cbn -[bool_decide run_turn].
  rewrite (erase_first_absent t _ Hw), bool_decide_eq_true_2, (bool_decide_eq_false_2 (t ∈ mWaitingThreads d)) by done. cbn [negb orb run_bind].
  set (th1 := with_phase th Locked). set (d1 := with_waiting _ _).
  assert (Ht1 : threads d1 !! t = Some th1) by apply lookup_insert_eq.
  destruct (run_turn_spec d1 t th1) as (d' & E & Hs); [|done|done|].
  - apply (pool_ok_update none none d _ t th1 Hok); pool_sides Hok; try (unfold status, thread_ok; cbn; tauto);
    rewrite Ht; destruct th as [[?|] ? ? ? ?]; cbn in *; subst; occs.
  - exists d'. split; [done|]. apply (section_after t d d1); [|done]. apply (frame_update _ _ t th th1); try done.
    unfold rank. rewrite Hp. cbn. lia.
Qed.

(** The thread-local data *)
Lemma local_data_spec (d : Pool) (t : thread_ptr) (th th' : Thread) :
  pool_ok none d -> work_ok d -> threads d !! t = Some th ->
  phase th = Finished /\ th' = with_phase (with_flags th false false) Leaving \/ phase th = Leaving /\ th' = with_phase th Over ->
  section t d (with_threads d (<[t := th']> (threads d)) (next_thread d)).
Proof.
  intros Hok Hwork Ht Hcase. pose proof (ok_thread _ _ Hok t th Ht) as Hst. unfold status, thread_ok in Hst.
  assert (Hrank : (rank th' < rank th)%nat) by (destruct Hcase as [[Hp ->]|[Hp ->]]; unfold rank; rewrite Hp; cbn; lia).
  apply (section_update _ _ t th th'); cbn; try done; try lia.
  - by destruct Hcase as [[_ ->]|[_ ->]].
  - apply (frame_update _ _ t th th'); cbn; try done. lia.
  - apply (pool_ok_update none none d _ t th' Hok); destruct Hcase as [[Hp ->]|[Hp ->]]; rewrite Hp in Hst; pool_sides Hok;
    try (unfold status, thread_ok; cbn; tauto); rewrite Ht; destruct th as [[?|] ? ? ? ?]; cbn in *; subst; occs.
Qed.

(** ** Operations *)

(** What an operation may do to the threads *)
Record grows (d d' : Pool) : Prop := {
  gr_all : forall t, t ∈ mAllThreads d' -> t ∈ mAllThreads d \/ (next_thread d <= t)%positive;
  gr_next : (next_thread d <= next_thread d')%positive;
  gr_alive : forall t, is_Some (threads d !! t) -> is_Some (threads d' !! t);
  gr_locked : forall u, locked d' u -> locked d u;
  gr_max : mMaxThreadCount d' = mMaxThreadCount d;
  gr_reserved : mReservedThreadCount d' = mReservedThreadCount d;
  gr_accepted : accepted d' = accepted d;
  gr_removed : removed d' = removed d
}.

#[export] Instance grows_preorder : PreOrder grows.
Proof.
  split.
  - intros d. split; auto. apply Pos.le_refl.
  - intros d1 d2 d3 [] []. split; try congruence; try lia; [|by auto|by auto].
    intros t Ht. destruct (gr_all1 t Ht) as [H|H]; [by apply gr_all0|]. right. lia.
Qed.

Lemma grows_update (d d' : Pool) (t : thread_ptr) (th : Thread) :
  threads d' = <[t := th]> (threads d) -> phase th <> Locked -> (next_thread d <= next_thread d')%positive ->
  (forall u, u ∈ mAllThreads d' -> u ∈ mAllThreads d \/ (next_thread d <= u)%positive) ->
  mMaxThreadCount d' = mMaxThreadCount d -> mReservedThreadCount d' = mReservedThreadCount d ->
  accepted d' = accepted d -> removed d' = removed d -> grows d d'.
Proof.
  intros Hth Hp Hn Ha. split; try done.
  - intros u Hu. rewrite Hth. destruct (decide (u = t)) as [->|].
    + rewrite lookup_insert_eq. eauto.
    + by rewrite lookup_insert_ne.
  - intros u (x & Hx & Hl). rewrite Hth in Hx. destruct (decide (u = t)) as [->|].
    + rewrite lookup_insert_eq in Hx. congruence.
    + rewrite lookup_insert_ne in Hx by done. by exists x.
Qed.

Definition backlog (d : Pool) : nat := (length (mTasks (mTaskQueue d)) + length (mWaitingThreads d))%nat.

(** A thread was started or woken for the task. *)
Record given (L : hands) (d : Pool) (k : task_ptr) (d' : Pool) : Prop := {
  gv_ok : pool_ok L d';
  gv_busy : busy_set d' <> ∅;
  gv_grows : grows d d';
  gv_backlog : backlog d' = backlog d;
  gv_first : first (mTaskQueue d) = Some k -> first (mTaskQueue d') = Some k;
  gv_count : active_thread_count d' = active_thread_count d + 1
}.

Lemma start_thread_spec (L L' : hands) (d : Pool) (k : task_ptr) :
  pool_ok L d -> (forall k', L k' = L' k' + one k k') ->
  exists d', start_thread d k = Ret d' /\ given L' d k d'.
Proof.
  intros Hok HL. set (t := next_thread d).
  assert (Hfresh : threads d !! t = None).
  { destruct (threads d !! t) eqn:E; [|done]. pose proof (ok_next _ _ Hok t ltac:(eauto)). unfold t in *. lia. }
  assert (Hall : t ∉ mAllThreads d) by (intros H; destruct (ok_alive _ _ Hok t H); congruence).
  assert (Hlists : t ∉ mWaitingThreads d ++ mExpiredThreads d) by (intros H; by apply Hall, (ok_subset _ _ Hok)).
  rewrite elem_of_app in Hlists.
  unfold start_thread. fold t. cbn -[bool_decide]. rewrite bool_decide_eq_false_2 by done. cbn -[bool_decide].
  unfold set_task, thread_at. cbn -[bool_decide]. rewrite lookup_insert_eq. cbn.
  rewrite (upd_thread_eq _ t new_Thread) by apply lookup_insert_eq. cbn.
  unfold thread_start, thread_at. cbn. rewrite lookup_insert_eq. cbn. rewrite !insert_insert_eq.
  eexists. split; [done|]. set (th' := with_phase (with_task new_Thread (Some k)) Starting).
  split; cbn.
  - apply (pool_ok_update L L' d _ t th' Hok); cbn; pool_sides Hok.
    + set_solver.
    + intros u Hu. split; [|done]. rewrite elem_of_union, elem_of_singleton. tauto.
    + unfold status, thread_ok; cbn. rewrite elem_of_union, elem_of_singleton. tauto.
    + rewrite Hfresh. cbn. lia.
    + rewrite Hfresh. occs. rewrite HL. unfold one. lia.
    + rewrite Hfresh. occs.
  - apply (busy_intro _ t); cbn; [set_solver|tauto|tauto].
  - apply (grows_update _ _ t th'); cbn; try done; [lia|]. intros u. rewrite elem_of_union, elem_of_singleton.
    intros [->|]; [right; unfold t; lia|by left].
  - done.
  - done.
  - unfold active_thread_count. cbn. rewrite size_union by set_solver. rewrite size_singleton. lia.
Qed.

Lemma first_insert (q : ThreadPoolTaskQueue) (k : task_ptr) (p : Z) :
  first q = Some k -> first (fst (push q k p)) = Some k.
Proof.
  unfold first, push. cbn. destruct (mTasks q) as [|i l]; [done|]. cbn. intros [= Hi].
  destruct (Compare _ i); [done|]. destruct (Compare i _); cbn; by rewrite Hi.
Qed.

(** A waiting thread is woken, the task in front of the queue. *)
Lemma wake_waiting_spec (L L' : hands) (d : Pool) (k : task_ptr) (t : thread_ptr) (waiting : list thread_ptr) :
  pool_ok L d -> (forall k', L k' = L' k' + one k k') -> mWaitingThreads d = t :: waiting ->
  (exists th, threads d !! t = Some th /\ mTask th = None) /\ given L' d k (with_waiting (enqueue_task d k kHighest) waiting).
Proof.
  intros Hok HL Hw. assert (Hin : t ∈ mWaitingThreads d) by (rewrite Hw; left).
  assert (Ha : t ∈ mAllThreads d) by (apply (ok_subset _ _ Hok); rewrite elem_of_app; tauto).
  destruct (ok_alive _ _ Hok t Ha) as [th Ht]. pose proof (ok_thread _ _ Hok t th Ht) as Hst. unfold status, thread_ok in Hst.
  assert (Hp : phase th = Waiting) by (destruct (phase th); tauto). rewrite Hp in Hst.
  assert (Hk : mTask th = None) by tauto. split; [eauto|].
  pose proof (ok_nodup _ _ Hok) as Hnd. rewrite Hw in Hnd. inversion Hnd as [|? ? Hnin Hnd']; subst. rewrite elem_of_app in Hnin.
  destruct (push_spec (mTaskQueue d) k kHighest (ok_queue _ _ Hok)) as [Hq Hperm].
  assert (Hid : threads d = <[t := th]> (threads d)) by (by rewrite insert_id).
  split; cbn -[push].
  - apply (pool_ok_update L L' d _ t th Hok); cbn -[push]; pool_sides Hok.
    + intros u Hu. split; [done|]. rewrite Hw, elem_of_cons. tauto.
    + unfold status, thread_ok. cbn. rewrite Hp. tauto.
    + rewrite Ht. cbn. lia.
    + rewrite Ht. intros k'. unfold load. cbn -[push]. rewrite (occ_perm k' _ _ (fmap_Permutation _ _ _ Hperm)), HL. cbn.
      rewrite (occ_cons k' k (task <$> mTasks (mTaskQueue d))). unfold one. lia.
    + rewrite Ht. cbn. lia.
  - apply (busy_intro _ t); cbn; tauto.
  - apply (grows_update _ _ t th); try done; [by rewrite Hp|by left].
  - unfold backlog. cbn -[push]. rewrite Hperm, Hw. cbn. lia.
  - apply first_insert.
  - unfold active_thread_count. cbn. rewrite Hw. cbn. lia.
Qed.

(** An expired thread is restarted with the task. *)
Lemma restart_expired_spec (L L' : hands) (d : Pool) (k : task_ptr) (t : thread_ptr) (expired : list thread_ptr) :
  pool_ok L d -> (forall k', L k' = L' k' + one k k') -> mExpiredThreads d = t :: expired ->
  (exists th, threads d !! t = Some th /\ mTask th = None) /\
  exists d', (do d1 <- set_task (with_active (with_expired d expired) (mActiveThreadCount d + 1)) t k; thread_start d1 t) = Ret d' /\
  given L' d k d'.
Proof.
  intros Hok HL He. assert (Hin : t ∈ mExpiredThreads d) by (rewrite He; left).
  assert (Ha : t ∈ mAllThreads d) by (apply (ok_subset _ _ Hok); rewrite elem_of_app; tauto).
  destruct (ok_alive _ _ Hok t Ha) as [th Ht]. pose proof (ok_thread _ _ Hok t th Ht) as Hst. unfold status, thread_ok in Hst.
  assert (Hp : phase th = Finished \/ phase th = Leaving \/ phase th = Over) by (destruct (phase th); tauto).
  assert (Hk : mTask th = None /\ mRunning th = false /\ t ∉ mWaitingThreads d) by (destruct (phase th); tauto).
  destruct Hk as (Hk & Hr & Hwait). split; [eauto|].
  assert (Hnd : NoDup (t :: mWaitingThreads d ++ expired)).
  { pose proof (ok_nodup _ _ Hok) as H. rewrite He in H. by rewrite <- Permutation_middle in H. }
  inversion Hnd as [|? ? Hnin Hnd']; subst. rewrite elem_of_app in Hnin.
  unfold set_task, thread_at. cbn. rewrite Ht. cbn. rewrite Hk. cbn. rewrite (upd_thread_eq _ t th) by done. cbn.
  unfold thread_start, thread_at. cbn. rewrite lookup_insert_eq. cbn. unfold is_running. cbn. rewrite Hr. cbn.
  set (th' := mkThread (Some k) (mExit th) false false Starting).
  assert (Hj : join (with_task th (Some k)) = Ret (with_phase th' Over)).
  { unfold join. cbn. by destruct Hp as [-> | [-> | ->]]. }
  rewrite Hj. cbn. rewrite insert_insert_eq. eexists. split; [done|]. fold th'.
  assert (Hact : active th = 0%nat) by (unfold active; by destruct Hp as [-> | [-> | ->]]).
  assert (Hrun : run_of th = []) by (unfold run_of; by destruct Hp as [-> | [-> | ->]]).
  split; cbn.
  - apply (pool_ok_update L L' d _ t th' Hok); cbn; pool_sides Hok.
    + intros u Hu. split; [done|]. split; [done|]. rewrite He, elem_of_cons. tauto.
    + rewrite Ht. cbn. rewrite Hact. lia.
    + rewrite Ht. intros k'. unfold load, share, handed. cbn. rewrite Hk, HL. unfold one. cbn. rewrite occ_nil. lia.
    + rewrite Ht. intros k'. unfold share, runs. rewrite Hrun. cbn. lia.
  - apply (busy_intro _ t); cbn; tauto.
  - apply (grows_update _ _ t th'); try done; by left.
  - done.
  - done.
  - unfold active_thread_count. cbn. rewrite He. cbn. lia.
Qed.

Lemma try_start_spec (L L' : hands) (d : Pool) (k : task_ptr) :
  pool_ok L d -> (forall k', L k' = L' k' + one k k') ->
  (exists d', try_start d k = Ret (d', true) /\ given L' d k d' /\ (mAllThreads d <> ∅ -> active_thread_count d < mMaxThreadCount d)) \/
  (try_start d k = Ret (d, false) /\ mMaxThreadCount d <= active_thread_count d /\ mAllThreads d <> ∅).
Proof.
  intros Hok HL. unfold try_start. destruct (start_thread_spec L L' d k Hok HL) as (d1 & E1 & Hg1).
  case_bool_decide as Hall.
  { left. exists d1. rewrite E1. split; [done|]. split; [done|]. done. }
  destruct (Z.leb_spec (mMaxThreadCount d) (active_thread_count d)) as [Hle|Hlt]; [by right|]. left.
  destruct (mWaitingThreads d) as [|t waiting] eqn:Hw.
  - destruct (mExpiredThreads d) as [|t expired] eqn:He.
    + exists d1. rewrite E1. done.
    + destruct (restart_expired_spec L L' d k t expired Hok HL He) as [(th & Ht & Hk) (d' & E & Hg)].
      unfold thread_at at 1. rewrite Ht. cbn [deref run_bind]. rewrite bool_decide_eq_true_2 by done. cbn [check run_bind].
      exists d'. split; [|done]. change (mActiveThreadCount (with_expired d expired)) with (mActiveThreadCount d).
      destruct (set_task _ t k) as [d2| | |]; try done. cbn in E |- *. by rewrite E.
  - destruct (wake_waiting_spec L L' d k t waiting Hok HL Hw) as [(th & Ht & Hk) Hg].
    unfold thread_at. cbn -[bool_decide]. rewrite Ht. cbn -[bool_decide]. rewrite bool_decide_eq_true_2 by done.
    eexists. split; [done|]. by split.
Qed.

Lemma work_ok_limit (L : hands) (d : Pool) : pool_ok L d -> mMaxThreadCount d <= active_thread_count d -> work_ok d.
Proof.
  intros Hok Hmax. pose proof (size_busy L d Hok). right. destruct (decide (busy_set d = ∅)) as [Hb|]; [right|by left].
  rewrite Hb, size_empty in H. lia.
Qed.

Lemma grows_queue (d : Pool) (q : ThreadPoolTaskQueue) : grows d (with_queue d q).
Proof. split; auto. apply Pos.le_refl. Qed.

Lemma start_more_spec (fuel : nat) (d : Pool) :
  (backlog d < fuel)%nat -> pool_ok none d ->
  exists d', start_more_loop fuel d = Ret d' /\ pool_ok none d' /\ work_ok d' /\ grows d d'.
Proof.
  revert d. induction fuel as [|fuel IH]; intros d Hf Hok; [lia|]. cbn [start_more_loop].
  destruct (first (mTaskQueue d)) as [k|] eqn:Hk.
  - destruct (try_start_spec none (twice k) d k Hok) as [(d1 & E & Hg & _)|(E & Hmax & _)].
    + intros k'. unfold none, twice, one. lia.
    + rewrite E. cbn [run_bind]. pose proof (gv_first _ _ _ _ Hg Hk) as Hk1. pose proof (pop_spec (mTaskQueue d1)) as Hpop.
      unfold first in Hk1. destruct (mTasks (mTaskQueue d1)) as [|i l] eqn:Hq; [done|]. injection Hk1 as Hi. rewrite Hpop. cbn [fst].
      set (d2 := with_queue d1 _). assert (Hok2 : pool_ok none d2).
      { apply (pool_ok_pop (twice k) none d1 i l (gv_ok _ _ _ _ Hg) Hq). intros k'. rewrite Hi. unfold none, twice, one. lia. }
      assert (Hback : (backlog d2 < backlog d)%nat).
      { rewrite <- (gv_backlog _ _ _ _ Hg). unfold backlog. rewrite Hq. cbn. lia. }
      destruct (IH d2) as (d' & E' & Hok' & Hw' & Hgr'); [lia|done|]. exists d'. split; [done|]. split; [done|]. split; [done|].
      transitivity d1; [apply Hg|]. transitivity d2; [apply grows_queue|done].
    + rewrite E. cbn. exists d. split; [done|]. split; [done|]. split; [by apply (work_ok_limit none)|done].
  - exists d. split; [done|]. split; [done|]. split; [|done]. left. unfold first in Hk. by destruct (mTasks (mTaskQueue d)).
Qed.

Lemma try_to_start_more_threads_spec (d : Pool) :
  pool_ok none d -> exists d', try_to_start_more_threads d = Ret d' /\ pool_ok none d' /\ work_ok d' /\ grows d d'.
Proof. apply start_more_spec. unfold backlog. lia. Qed.

(** ** What every operation keeps *)
Record extends (d d' : Pool) : Prop := {
  ex_all : forall t, t ∈ mAllThreads d' -> t ∈ mAllThreads d \/ (next_thread d <= t)%positive;
  ex_next : (next_thread d <= next_thread d')%positive;
  ex_alive : forall t, is_Some (threads d !! t) -> is_Some (threads d' !! t);
  ex_locked : forall u, locked d' u -> locked d u
}.

Definition operation (d d' : Pool) : Prop := pool_ok none d' /\ work_ok d' /\ extends d d'.

Lemma grows_extends (d d' : Pool) : grows d d' -> extends d d'.
Proof. intros []. by split. Qed.

Lemma extends_same (d d' : Pool) : mAllThreads d' = mAllThreads d -> next_thread d' = next_thread d -> threads d' = threads d -> extends d d'.
Proof. intros Ha Hn Ht. split; unfold locked; rewrite ?Ha, ?Hn, ?Ht; auto. apply Pos.le_refl. Qed.

Lemma extends_from (d d1 d' : Pool) :
  mAllThreads d1 = mAllThreads d -> next_thread d1 = next_thread d -> threads d1 = threads d -> extends d1 d' -> extends d d'.
Proof. intros Ha Hn Ht []. split; [|by rewrite <- Hn|by rewrite <- Ht|unfold locked in *; by rewrite <- Ht]. intros t. rewrite <- Ha, <- Hn. auto. Qed.

(** Changing the limits or the history leaves the invariant. *)
Lemma pool_ok_counts (d : Pool) (reserved max : Z) : pool_ok none d -> pool_ok none (with_counts d (mActiveThreadCount d) reserved max).
Proof. intros []. by split. Qed.

Lemma pool_ok_accepted (d : Pool) (k : task_ptr) : pool_ok none d -> pool_ok (one k) (with_accepted d k).
Proof.
  intros []. split; try done. intros k'. cbn. rewrite (occ_cons k' k (accepted d)). specialize (ok_tasks0 k').
  unfold load, none, one in *. cbn in *. lia.
Qed.

Lemma set_max_thread_count_spec (d : Pool) (n : Z) :
  pool_ok none d -> work_ok d -> exists d', set_max_thread_count d n = Ret d' /\ operation d d'.
Proof.
  intros Hok Hw. unfold set_max_thread_count. destruct (negb _); [|exists d; split; [done|]; split; [done|]; split; [done|]; by apply extends_same].
  destruct (try_to_start_more_threads_spec _ (pool_ok_counts d (mReservedThreadCount d) n Hok)) as (d' & E & Hok' & Hw' & Hg).
  exists d'. split; [done|]. split; [done|]. split; [done|]. by refine (extends_from d _ d' _ _ _ (grows_extends _ _ Hg)).
Qed.

Lemma release_thread_spec (d : Pool) : pool_ok none d -> exists d', release_thread d = Ret d' /\ operation d d'.
Proof.
  intros Hok. unfold release_thread.
  destruct (try_to_start_more_threads_spec _ (pool_ok_counts d (mReservedThreadCount d - 1) (mMaxThreadCount d) Hok)) as (d' & E & Hok' & Hw' & Hg).
  exists d'. split; [done|]. split; [done|]. split; [done|]. by refine (extends_from d _ d' _ _ _ (grows_extends _ _ Hg)).
Qed.

Lemma reserve_thread_spec (d : Pool) : pool_ok none d -> work_ok d -> operation d (reserve_thread d).
Proof.
  intros Hok Hw. split; [by apply pool_ok_counts|]. split; [|by apply extends_same].
  destruct Hw as [Hq|[Hb|Hm]]; [by left|by right; left|right; right]. cbn. lia.
Qed.

Lemma set_expiry_timeout_spec (d : Pool) (n : Z) : pool_ok none d -> work_ok d -> operation d (set_expiry_timeout d n).
Proof.
  intros Hok Hw. unfold set_expiry_timeout. destruct (negb _); (split; [|split; [done|by apply extends_same]]); [|done].
  destruct Hok. by split.
Qed.

(** Tasks leave the queue for good. *)
Lemma remove_spec (d : Pool) (P : Item -> Prop) `{forall i, Decision (P i)} :
  pool_ok none d -> work_ok d ->
  operation d (with_removed (with_queue d (mkTaskQueue (mIdCounter (mTaskQueue d)) (filter (fun i => ~ P i) (mTasks (mTaskQueue d)))))
    (task <$> filter P (mTasks (mTaskQueue d)))).
Proof.
  intros Hok Hw. split; [|split; [|by apply extends_same]].
  - destruct Hok. split; try done; cbn.
    + by apply (queue_ok_filter _ (fun i => ~ P i)).
    + intros k. rewrite (ok_tasks0 k). unfold load. cbn. rewrite occ_app.
      assert (Hsplit : occ k (task <$> mTasks (mTaskQueue d)) =
        (occ k (task <$> filter P (mTasks (mTaskQueue d))) + occ k (task <$> filter (fun i => ~ P i) (mTasks (mTaskQueue d))))%nat).
      { clear. induction (mTasks (mTaskQueue d)) as [|i l IH]; [done|]. rewrite !filter_cons, fmap_cons, occ_cons, IH.
        destruct (decide (P i)); [rewrite decide_False by tauto|rewrite decide_True by done]; rewrite fmap_cons, (occ_cons k (task i) (_ <$> _)); lia. }
      rewrite Hsplit. lia.
  - destruct Hw as [Hq|[Hb|Hm]]; [left|by right; left|by right; right]. cbn. by rewrite Hq.
Qed.

Lemma cancel_eq (d : Pool) (k : task_ptr) :
  fst (cancel d k) = with_removed (with_queue d (mkTaskQueue (mIdCounter (mTaskQueue d)) (filter (fun i => ~ task i = k) (mTasks (mTaskQueue d)))))
    (task <$> filter (fun i => task i = k) (mTasks (mTaskQueue d))).
Proof.
  unfold cancel, queue_cancel. rewrite erase_if_spec. cbn [fst]. f_equal.
  induction (mTasks (mTaskQueue d)) as [|i l IH]; [done|]. rewrite fmap_cons, !filter_cons.
  destruct (decide (task i = k)); [by rewrite IH, fmap_cons|done].
Qed.

Lemma clear_eq (d : Pool) :
  clear d = with_removed (with_queue d (mkTaskQueue (mIdCounter (mTaskQueue d)) (filter (fun i => ~ True) (mTasks (mTaskQueue d)))))
    (task <$> filter (fun _ => True) (mTasks (mTaskQueue d))).
Proof.
  unfold clear, queue_clear. rewrite (filter_none (fun i => ~ True)), (filter_all (fun _ => True)); [done| |]; apply Forall_forall; tauto.
Qed.

Lemma enqueue_spec (L L' : hands) (d : Pool) (k : task_ptr) (p : Z) :
  pool_ok L d -> (forall k', L k' = L' k' + one k k') -> pool_ok L' (enqueue_task d k p).
Proof.
  intros Hok HL. destruct (push_spec (mTaskQueue d) k p (ok_queue _ _ Hok)) as [Hq Hperm].
  destruct Hok. split; try done; cbn -[push]. intros k'. rewrite (ok_tasks0 k'), HL. unfold load. cbn -[push].
  rewrite (occ_perm k' _ _ (fmap_Permutation _ _ _ Hperm)). cbn. rewrite (occ_cons k' k (task <$> _)). unfold one. lia.
Qed.

(** A waiting thread is woken with the task in its hands. *)
Lemma hand_over_spec (L L' : hands) (d : Pool) (k : task_ptr) (t : thread_ptr) (waiting : list thread_ptr) (th : Thread) :
  pool_ok L d -> (forall k', L k' = L' k' + one k k') -> mWaitingThreads d = t :: waiting -> threads d !! t = Some th -> mTask th = None ->
  exists d', set_task (with_waiting d waiting) t k = Ret d' /\ pool_ok L' d' /\ work_ok d' /\ grows d d'.
Proof.
  intros Hok HL Hw Ht Hk. assert (Hin : t ∈ mWaitingThreads d) by (rewrite Hw; left).
  assert (Ha : t ∈ mAllThreads d) by (apply (ok_subset _ _ Hok); rewrite elem_of_app; tauto).
  pose proof (ok_thread _ _ Hok t th Ht) as Hst. unfold status, thread_ok in Hst.
  assert (Hp : phase th = Waiting) by (destruct (phase th); tauto). rewrite Hp in Hst.
  pose proof (ok_nodup _ _ Hok) as Hnd. rewrite Hw in Hnd. inversion Hnd as [|? ? Hnin Hnd']; subst. rewrite elem_of_app in Hnin.
  unfold set_task, thread_at. cbn -[bool_decide]. rewrite Ht. cbn -[bool_decide]. rewrite bool_decide_eq_true_2 by done. cbn.
  rewrite (upd_thread_eq _ t th) by done. eexists. split; [done|]. set (th' := with_task th (Some k)).
  split; [|split].
  - apply (pool_ok_update L L' d _ t th' Hok); cbn; pool_sides Hok.
    + intros u Hu. split; [done|]. rewrite Hw, elem_of_cons. tauto.
    + unfold status, thread_ok. cbn. rewrite Hp. tauto.
    + rewrite Ht. unfold share, active. cbn. rewrite Hp. cbn. lia.
    + rewrite Ht. intros k'. unfold share, handed, load. cbn. rewrite Hk, HL. unfold one. cbn. rewrite occ_nil. lia.
    + rewrite Ht. intros k'. unfold share, runs, run_of. cbn. rewrite Hp. cbn. lia.
  - right. left. apply (busy_intro _ t); cbn; tauto.
  - apply (grows_update _ _ t th'); try done; try (by left); cbn; by rewrite Hp.
Qed.

Lemma start_spec (d : Pool) (k : option task_ptr) (p : Z) :
  pool_ok none d -> work_ok d -> exists d', start d k p = Ret d' /\ operation d d'.
Proof.
  intros Hok Hw. destruct k as [k|]; [|exists d; split; [done|]; split; [done|]; split; [done|]; by apply extends_same].
  cbn [start]. set (d0 := with_accepted d k). pose proof (pool_ok_accepted d k Hok) as Hok0. fold d0 in Hok0.
  destruct (try_start_spec (one k) none d0 k Hok0) as [(d' & E & Hg & _)|(E & Hmax & _)]; [done| |].
  - rewrite E. cbn. exists d'. split; [done|]. split; [apply Hg|]. split; [right; left; apply Hg|].
    by refine (extends_from d _ d' _ _ _ (grows_extends _ _ (gv_grows _ _ _ _ Hg))).
  - rewrite E. cbn [run_bind]. destruct (mWaitingThreads d0) as [|t waiting] eqn:Hwait.
    + pose proof (enqueue_spec (one k) none d0 k p Hok0 (fun _ => eq_refl)) as Hok'. exists (enqueue_task d0 k p). split; [done|].
      split; [done|]. split; [by apply (work_ok_limit none)|]. by apply extends_same.
    + destruct (wake_waiting_spec (one k) none d0 k t waiting Hok0 (fun _ => eq_refl) Hwait) as [(th & Ht & Hk) _].
      unfold thread_at at 1. rewrite Ht. cbn [deref run_bind]. rewrite bool_decide_eq_true_2 by done. cbn [check run_bind].
      destruct (hand_over_spec (one k) none d0 k t waiting th Hok0 (fun _ => eq_refl) Hwait Ht Hk) as (d' & E' & Hok' & Hw' & Hg).
      exists d'. split; [done|]. split; [done|]. split; [done|]. by refine (extends_from d _ d' _ _ _ (grows_extends _ _ Hg)).
Qed.

Lemma try_start_now_spec (d : Pool) (k : option task_ptr) :
  pool_ok none d -> work_ok d -> exists d' b, try_start_now d k = Ret (d', b) /\ operation d d'.
Proof.
  intros Hok Hw. assert (Hsame : operation d d) by (split; [done|]; split; [done|]; by apply extends_same).
  destruct k as [k|]; [|by exists d, false]. cbn [try_start_now]. destruct (_ && _); [by exists d, false|].
  set (d0 := with_accepted d k). pose proof (pool_ok_accepted d k Hok) as Hok0. fold d0 in Hok0.
  destruct (try_start_spec (one k) none d0 k Hok0) as [(d' & E & Hg & _)|(E & _)]; [done| |].
  - rewrite E. cbn. exists d', true. split; [done|]. split; [apply Hg|]. split; [right; left; apply Hg|].
    by refine (extends_from d _ d' _ _ _ (grows_extends _ _ (gv_grows _ _ _ _ Hg))).
  - rewrite E. by exists d, false.
Qed.
