(* ===== verification/ThreadPoolSpec.v ===== *)
(** * The thread pool: every interleaving

    The invariant of the pool together with the calls of [reset] in progress, kept by every
    action; where every accepted task is; that the pool comes to rest; and the histories on
    which tasks handed to a waiting thread are lost, the limit is exceeded, and the last
    reference to a thread is dropped by the thread itself. *)

From stdpp Require Import prelude list sorting gmap relations.
From Stdlib Require Import ZArith Lia.
From S2P Require Import Prelude StdSet ThreadPool ThreadPoolFacts.

#[local] Open Scope Z_scope.
#[local] Open Scope cxx_scope.

Notation occ k l := (count_occ Pos.eq_dec l k).
#[local] Arguments count_occ : simpl never.

(** ** The invariant of the system *)
Record system_ok (S : SystemThreads) : Prop := {
  sys_pool : pool_ok none (pool S);
  sys_work : work_ok (pool S);
  sys_unlocked : forall t, ~ locked (pool S) t;
  sys_detached : forall c l t, resets S !! c = Some l -> t ∈ l -> t ∉ mAllThreads (pool S) /\ is_Some (threads (pool S) !! t);
  sys_nodup : forall c l, resets S !! c = Some l -> NoDup l;
  sys_disjoint : forall c l c' l' t, resets S !! c = Some l -> resets S !! c' = Some l' -> t ∈ l -> t ∈ l' -> c = c'
}.

Lemma system_ok_extends (S : SystemThreads) (d' : Pool) :
  system_ok S -> pool_ok none d' -> work_ok d' -> extends (pool S) d' -> system_ok (mkSystem d' (resets S)).
Proof.
  intros HS Hok Hw Hx. split; try done; cbn; [| |apply HS|apply HS].
  { intros t Ht. by apply (sys_unlocked S HS t), (ex_locked _ _ Hx). }
  intros c l t Hc Ht. destruct (sys_detached S HS c l t Hc Ht) as [Ha Hal]. split; [|by apply Hx].
  intros Hin. destruct (ex_all _ _ Hx t Hin) as [H|H]; [done|].
  pose proof (ok_next _ _ (sys_pool S HS) t Hal). lia.
Qed.

Lemma section_extends (t : thread_ptr) (d d' : Pool) : section t d d' -> extends d d'.
Proof.
  intros (_ & _ & Hf & Hl & _). split.
  - intros u. rewrite (fr_all _ _ _ Hf). auto.
  - rewrite (fr_next _ _ _ Hf). apply Pos.le_refl.
  - intros u. rewrite <- !elem_of_dom, (fr_dom _ _ _ Hf). done.
  - intros u Hu. by apply Hl.
Qed.

(** ** Sections of the threads *)

(** The one thing a thread cannot do: drop the last reference to itself. *)
Definition self_join (S : SystemThreads) (a : action) : Prop :=
  exists t, a = OfThread t ReleaseLocalData /\ referenced S t = false.

Lemma thread_step_spec (S : SystemThreads) (t : thread_ptr) (a : thread_act) (r : run Pool) :
  system_ok S -> thread_step S t a = Some r ->
  (exists d', r = Ret d' /\ section t (pool S) d') \/ (r = Fatal /\ self_join S (OfThread t a)).
Proof.
  intros HS. unfold thread_step. destruct (threads (pool S) !! t) as [th|] eqn:Ht; [|done]. cbn [mbind option_bind].
  pose proof (sys_pool S HS) as Hok. pose proof (sys_work S HS) as Hw.
  destruct a; destruct (phase th) eqn:Hp; try done; intros [= <-].
  - left. apply (run_start_spec _ _ th); done.
  - left. apply (run_finish_task_spec _ _ th); done.
  - left. apply (run_resume_spec _ _ th); done.
  - left. unfold local_data_clear. rewrite (upd_thread_eq _ t th) by done. eexists. split; [done|].
    apply (local_data_spec _ _ th); auto.
  - unfold local_data_release. destruct (referenced S t) eqn:Href; [left|right; split; [done|]; by exists t].
    cbn [negb check run_bind]. rewrite (upd_thread_eq _ t th) by done. eexists. split; [done|].
    apply (local_data_spec _ _ th); auto.
Qed.

(** ** Reset *)
Lemma idle_threads (d : Pool) (t : thread_ptr) (th : Thread) :
  pool_ok none d -> mActiveThreadCount d = 0 -> threads d !! t = Some th -> active th = 0%nat.
Proof.
  intros Hok H0 Ht. pose proof (ok_active _ _ Hok) as Ha. rewrite (tally_delete active (threads d) t th Ht) in Ha. lia.
Qed.

Lemma is_done_spec (d : Pool) : is_done d = true <-> mTasks (mTaskQueue d) = [] /\ mActiveThreadCount d = 0.
Proof. unfold is_done, queue_empty. by rewrite andb_true_iff, bool_decide_eq_true, Z.eqb_eq. Qed.

Lemma reset_detach_spec (d : Pool) :
  pool_ok none d -> is_done d = true -> pool_ok none (fst (reset_detach d)) /\ work_ok (fst (reset_detach d)).
Proof.
  intros Hok [Hq H0]%is_done_spec. split; [|by left]. cbn.
  pose proof (fun t th => idle_threads d t th Hok H0) as Hidle. destruct Hok. split; try done; cbn.
  - apply NoDup_nil_2.
  - intros t Ht. by apply elem_of_nil in Ht.
  - intros t th Ht. specialize (ok_thread t th Ht). unfold status, thread_ok in *. cbn.
    assert (Hact : active th = 0%nat) by by apply (Hidle t).
    assert (Hset : t ∉ (∅ : gset thread_ptr)) by apply not_elem_of_empty.
    assert (Hnil : t ∉ ([] : list thread_ptr)) by apply not_elem_of_nil.
    unfold active in Hact. destruct (phase th); try done; tauto.
Qed.

Lemma reset_exit_spec (S : SystemThreads) (c : positive) (l : list thread_ptr) (t : thread_ptr) :
  system_ok S -> resets S !! c = Some l -> t ∈ l -> exists d', reset_exit (pool S) t = Ret d' /\ operation (pool S) d'.
Proof.
  intros HS Hc Ht. destruct (sys_detached S HS c l t Hc Ht) as [Ha [th Hth]]. pose proof (sys_pool S HS) as Hok.
  unfold reset_exit. rewrite (upd_thread_eq _ t th) by done. eexists. split; [done|].
  pose proof (ok_thread _ _ Hok t th Hth) as Hst. unfold status, thread_ok in Hst.
  set (th' := if is_finished th then th else with_exit th true).
  assert (Heq : phase th' = phase th /\ mTask th' = mTask th /\ mRunning th' = mRunning th /\ mInFinish th' = mInFinish th).
  { unfold th'. destruct (is_finished th); repeat split. }
  destruct Heq as (Hp & Hk & Hr & Hf). split; [|split; [exact (sys_work S HS)|]].
  - apply (pool_ok_update none none (pool S) _ t th' Hok); cbn; pool_sides Hok; try (rewrite Hth; unfold share).
    + unfold status, thread_ok. cbn. rewrite Hp, Hk, Hr, Hf. destruct (phase th); tauto.
    + unfold active. rewrite Hp. lia.
    + intros k. unfold handed, load. cbn. rewrite Hk. lia.
    + intros k. unfold runs, run_of. rewrite Hp. lia.
  - split; cbn; auto; [apply Pos.le_refl| |].
    + intros u [x Hu]. destruct (decide (u = t)) as [->|]; [rewrite lookup_insert_eq; eauto|].
      rewrite lookup_insert_ne by done. eauto.
    + intros u (x & Hu & Hl). cbn in Hu. destruct (decide (u = t)) as [->|].
      * rewrite lookup_insert_eq in Hu. exists th. split; [done|]. rewrite <- Hp. congruence.
      * rewrite lookup_insert_ne in Hu by done. by exists x.
Qed.

(** Destroying a thread object that is over *)
Lemma destroy_thread_spec (d : Pool) (t : thread_ptr) (th : Thread) :
  pool_ok none d -> work_ok d -> threads d !! t = Some th -> t ∉ mAllThreads d ->
  exists d', destroy_thread d t = Ret d' /\ pool_ok none d' /\ work_ok d' /\ mAllThreads d' = mAllThreads d /\ next_thread d' = next_thread d /\
  (forall u, u <> t -> threads d' !! u = threads d !! u) /\ threads d' ⊆ threads d.
Proof.
  intros Hok Hw Ht Ha. unfold destroy_thread, thread_at. rewrite Ht. cbn -[bool_decide].
  case_bool_decide as Hp; [|by exists d]. eexists. split; [done|]. split; [|split; [done|split; [done|split; [done|split]]]].
  - destruct Hok. split; try done; cbn.
    + intros u Hu. destruct (ok_alive u Hu) as [x Hx]. exists x. rewrite lookup_delete_ne; [done|]. by intros <-.
    + intros u [x [_ Hx]%lookup_delete_Some]. eauto.
    + intros u x [_ Hx]%lookup_delete_Some. by apply ok_thread.
    + rewrite ok_active. rewrite (tally_delete active _ t th Ht). unfold active at 1. by rewrite Hp.
    + intros k. rewrite (ok_tasks k), (tally_delete (handed k) _ t th Ht). unfold load, handed, opt_list. cbn.
      destruct (mTask th) as [j|]; cbn; [rewrite (occ_cons k j (dropped d))|rewrite occ_nil]; lia.
    + intros k. rewrite (ok_runs k), (tally_delete (runs k) _ t th Ht). unfold runs, run_of. rewrite Hp, occ_nil. lia.
  - intros u Hu. cbn. by rewrite lookup_delete_ne.
  - apply delete_subseteq.
Qed.

Lemma reset_destroy_spec (l : list thread_ptr) (d : Pool) :
  pool_ok none d -> work_ok d -> NoDup l -> (forall t, t ∈ l -> t ∉ mAllThreads d /\ is_Some (threads d !! t)) ->
  exists d', reset_destroy d l = Ret d' /\ pool_ok none d' /\ work_ok d' /\ mAllThreads d' = mAllThreads d /\ next_thread d' = next_thread d /\
  (forall u, u ∉ l -> threads d' !! u = threads d !! u) /\ threads d' ⊆ threads d.
Proof.
  revert d. induction l as [|t l IH]; intros d Hok Hw Hnd Hl; [by exists d|]. inversion Hnd as [|? ? Hnin Hnd']; subst.
  destruct (Hl t) as [Ha [th Ht]]; [left|]. destruct (destroy_thread_spec d t th Hok Hw Ht Ha) as (d1 & E & Hok1 & Hw1 & Ha1 & Hn1 & Hth1 & Hsub1).
  cbn [reset_destroy]. rewrite E. cbn [run_bind].
  destruct (IH d1 Hok1 Hw1 Hnd') as (d' & E' & Hok' & Hw' & Ha' & Hn' & Hth' & Hsub').
  - intros u Hu. assert (u <> t) by (intros ->; done). rewrite Ha1, Hth1 by done. apply Hl. by right.
  - exists d'. repeat (split; [congruence || done|]). split; [|by transitivity (threads d1)].
    intros u [Hu Hu']%not_elem_of_cons. by rewrite Hth', Hth1.
Qed.

(** ** Every action *)
Lemma operation_ok (S : SystemThreads) (r : run Pool) :
  system_ok S -> (exists d', r = Ret d' /\ operation (pool S) d') -> exists S', on_pool S r = Ret S' /\ system_ok S'.
Proof.
  intros HS (d' & -> & Hok & Hw & Hx). eexists. split; [done|]. by apply system_ok_extends.
Qed.

Lemma wait_ok (S : SystemThreads) (c : positive) :
  system_ok S -> resets S !! c = None -> is_done (pool S) = true ->
  system_ok (mkSystem (fst (reset_detach (pool S))) (<[c := elements (mAllThreads (pool S))]> (resets S))).
Proof.
  intros HS Hc Hd. destruct (reset_detach_spec (pool S) (sys_pool S HS) Hd) as [Hok Hw].
  assert (Hl : forall c' l, <[c := elements (mAllThreads (pool S))]> (resets S) !! c' = Some l ->
    c' = c /\ l = elements (mAllThreads (pool S)) \/ c' <> c /\ resets S !! c' = Some l).
  { intros c' l. destruct (decide (c' = c)) as [->|Hne]; [rewrite lookup_insert_eq; intros [= <-]; auto|].
    rewrite lookup_insert_ne by done. auto. }
  split; cbn; [done|done|apply HS| | |].
  - intros c' l t Hl' Ht. split; [apply not_elem_of_empty|]. destruct (Hl c' l Hl') as [[-> ->]|[_ H]].
    + apply elem_of_elements in Ht. by apply (ok_alive _ _ (sys_pool S HS)).
    + by apply (sys_detached S HS c' l).
  - intros c' l Hl'. destruct (Hl c' l Hl') as [[-> ->]|[_ H]]; [apply NoDup_elements|by apply (sys_nodup S HS c')].
  - intros c1 l1 c2 l2 t H1 H2 Ht1 Ht2.
    destruct (Hl c1 l1 H1) as [[-> ->]|[_ H1']], (Hl c2 l2 H2) as [[-> ->]|[_ H2']]; [done| | |].
    + apply elem_of_elements in Ht1. by destruct (sys_detached S HS c2 l2 t H2' Ht2).
    + apply elem_of_elements in Ht2. by destruct (sys_detached S HS c1 l1 t H1' Ht1).
    + by apply (sys_disjoint S HS c1 l1 c2 l2 t).
Qed.

Lemma destroy_step_ok (S : SystemThreads) (c : positive) (l : list thread_ptr) :
  system_ok S -> resets S !! c = Some l ->
  exists d', reset_destroy (pool S) l = Ret d' /\ system_ok (mkSystem d' (delete c (resets S))).
Proof.
  intros HS Hc. destruct (reset_destroy_spec l (pool S) (sys_pool S HS) (sys_work S HS) (sys_nodup S HS c l Hc))
    as (d' & E & Hok & Hw & Ha & Hn & Hth & Hsub); [intros t; by apply (sys_detached S HS c)|].
  exists d'. split; [done|]. split; cbn; [done|done| | | |].
  - intros t (th & Ht & Hp). apply (sys_unlocked S HS t). exists th. split; [|done]. by apply (lookup_weaken _ _ _ _ Ht).
  - intros c' l' t [Hne Hl']%lookup_delete_Some Ht. rewrite Ha, Hth; [by apply (sys_detached S HS c' l')|].
    intros Hin. by apply Hne, (sys_disjoint S HS c l c' l' t).
  - intros c' l' [_ Hl']%lookup_delete_Some. by apply (sys_nodup S HS c').
  - intros c1 l1 c2 l2 t [_ H1]%lookup_delete_Some [_ H2]%lookup_delete_Some. by apply (sys_disjoint S HS).
Qed.

Lemma perform_spec (S : SystemThreads) (a : action) (r : run SystemThreads) :
  system_ok S -> perform S a = Some r -> (exists S', r = Ret S' /\ system_ok S') \/ (r = Fatal /\ self_join S a).
Proof.
  intros HS. pose proof (sys_pool S HS) as Hok. pose proof (sys_work S HS) as Hw.
  destruct a as [t a|k p|k|n|n|k| | | |c forever|c t|c]; cbn [perform].
  { destruct (thread_step S t a) as [x|] eqn:E; [|done]. intros [= <-].
    destruct (thread_step_spec S t a x HS E) as [(d' & -> & Hs)|[-> Hj]]; [left|by right].
    eexists. split; [done|]. apply system_ok_extends; [done|apply Hs|apply Hs|by apply (section_extends t)]. }
  all: try (intros E; apply (inj Some) in E; subst r; left; apply operation_ok; [done|]).
  - by apply start_spec.
  - destruct (try_start_now_spec (pool S) k Hok Hw) as (d' & b & E & Ho). rewrite E. by exists d'.
  - by apply set_max_thread_count_spec.
  - eexists. split; [done|]. by apply set_expiry_timeout_spec.
  - eexists. split; [done|]. rewrite cancel_eq. by apply (remove_spec _ (fun i => task i = k)).
  - eexists. split; [done|]. rewrite clear_eq. by apply (remove_spec _ (fun _ => True)).
  - eexists. split; [done|]. by apply reserve_thread_spec.
  - by apply release_thread_spec.
  - destruct (resets S !! c) eqn:Hc; [done|]. unfold wait_for_done_woken. destruct (is_done (pool S)) eqn:Hd.
    + intros [= <-]. left. eexists. split; [done|]. by apply wait_ok.
    + intros E. left. exists S. split; [|done]. destruct S. by destruct forever; injection E as <-.
  - destruct (resets S !! c) as [l|] eqn:Hc; [|done]. case_bool_decide as Ht; [|done]. intros [= <-]. left.
    apply operation_ok; [done|]. by apply (reset_exit_spec S c l).
  - destruct (resets S !! c) as [l|] eqn:Hc; [|done]. destruct (forallb _ l); [|done]. intros [= <-]. left.
    destruct (destroy_step_ok S c l HS Hc) as (d' & -> & HS'). by eexists.
Qed.


(** ** Histories *)
Definition pool_step (S S' : SystemThreads) : Prop := exists a, perform S a = Some (Ret S').
Definition initial (n : Z) : SystemThreads := mkSystem (new_Pool n) ∅.
Definition reachable (n : Z) (S : SystemThreads) : Prop := rtc pool_step (initial n) S.

Lemma initial_ok (n : Z) : system_ok (initial n).
Proof.
  split; cbn.
  - apply new_Pool_ok.
  - by left.
  - intros t (th & Ht & _). cbn in Ht. by rewrite lookup_empty in Ht.
  - intros c l t Hc. by rewrite lookup_empty in Hc.
  - intros c l Hc. by rewrite lookup_empty in Hc.
  - intros c l c' l' t Hc. by rewrite lookup_empty in Hc.
Qed.

Lemma pool_steps_ok (S S' : SystemThreads) : system_ok S -> rtc pool_step S S' -> system_ok S'.
Proof.
  intros HS Hst. induction Hst as [|S1 S2 S3 [a Ha] _ IH]; [done|]. apply IH.
  by destruct (perform_spec S1 a (Ret S2) HS Ha) as [(? & [= <-] & H)|[H _]].
Qed.

Lemma reachable_ok (n : Z) (S : SystemThreads) : reachable n S -> system_ok S.
Proof. apply pool_steps_ok, initial_ok. Qed.

Fixpoint performs (S : SystemThreads) (l : list action) : option (run SystemThreads) :=
  match l with
  | [] => Some (Ret S)
  | a :: l => match perform S a with Some (Ret S') => performs S' l | r => r end
  end.

Lemma performs_steps (l : list action) (S S' : SystemThreads) : performs S l = Some (Ret S') -> rtc pool_step S S'.
Proof.
  revert S. induction l as [|a l IH]; intros S; cbn; [by intros [= <-]|].
  destruct (perform S a) as [[S1| | |]|] eqn:E; try done. intros H. apply (rtc_l _ _ S1); [by exists a|by apply IH].
Qed.

(** ** Where the tasks are *)
Definition in_threads (f : Thread -> list task_ptr) (m : gmap thread_ptr Thread) : list task_ptr := mjoin (f ∘ snd <$> map_to_list m).
Definition in_hands (d : Pool) : list task_ptr := in_threads (fun th => opt_list (mTask th)) (threads d).
Definition running (d : Pool) : list task_ptr := in_threads run_of (threads d).

Lemma occ_threads (f : Thread -> list task_ptr) (m : gmap thread_ptr Thread) (k : task_ptr) :
  occ k (in_threads f m) = tally (fun th => occ k (f th)) m.
Proof.
  unfold in_threads. induction m as [|t th m Hm IH] using map_ind.
  - rewrite map_to_list_empty. unfold tally. by rewrite map_fold_empty.
  - rewrite tally_new by done. rewrite <- IH. erewrite occ_perm; [|rewrite map_to_list_insert by done; reflexivity].
    cbn. by rewrite occ_app.
Qed.

Lemma occ_equal (l l' : list task_ptr) : (forall k, occ k l = occ k l') -> l ≡ₚ l'.
Proof. apply (Permutation_count_occ Pos.eq_dec). Qed.

Lemma accepted_perm (d : Pool) :
  pool_ok none d -> accepted d ≡ₚ (task <$> mTasks (mTaskQueue d)) ++ in_hands d ++ begun d ++ removed d ++ dropped d.
Proof.
  intros Hok. apply occ_equal. intros k. rewrite !occ_app. unfold in_hands. rewrite occ_threads.
  pose proof (ok_tasks _ _ Hok k) as H. unfold load, none, handed in H. lia.
Qed.

Lemma begun_perm (d : Pool) : pool_ok none d -> begun d ≡ₚ ended d ++ running d.
Proof.
  intros Hok. apply occ_equal. intros k. rewrite occ_app. unfold running. rewrite occ_threads. apply (ok_runs _ _ Hok).
Qed.

(** ** Coming to rest *)
Definition internal (S S' : SystemThreads) : Prop := exists t a, perform S (OfThread t a) = Some (Ret S').

Lemma internal_measure (S S' : SystemThreads) :
  system_ok S -> internal S S' -> system_ok S' /\ measure (pool S') < measure (pool S).
Proof.
  intros HS (t & a & E). destruct (perform_spec S _ _ HS E) as [(? & [= <-] & HS')|[? _]]; [|done]. split; [done|].
  cbn in E. destruct (thread_step S t a) as [x|] eqn:Ex; [|done]. injection E as E.
  destruct (thread_step_spec S t a x HS Ex) as [(d' & -> & Hs)|[-> _]]; [|done]. cbn in E. injection E as <-. apply Hs.
Qed.

Lemma measure_nonneg (d : Pool) : pool_ok none d -> 0 <= measure d.
Proof.
  intros Hok. unfold measure. enough (length (mWaitingThreads d) <= tally rank (threads d))%nat by lia.
  assert (Hw : forall t, t ∈ mWaitingThreads d -> exists th, threads d !! t = Some th /\ (1 <= rank th)%nat).
  { intros t Ht. assert (Ha : t ∈ mAllThreads d) by (apply (ok_subset _ _ Hok); rewrite elem_of_app; tauto).
    destruct (ok_alive _ _ Hok t Ha) as [th Hth]. exists th. split; [done|].
    pose proof (ok_thread _ _ Hok t th Hth) as Hst. unfold status, thread_ok in Hst. unfold rank.
    destruct (phase th); try tauto; lia. }
  pose proof (ok_nodup _ _ Hok) as Hnd. apply NoDup_app in Hnd as [Hnd _]. revert Hw. generalize (threads d).
  induction Hnd as [|t l Ht Hnd IH]; intros m Hm; [cbn; lia|]. destruct (Hm t) as (th & Hth & Hr); [left|].
  rewrite (tally_delete rank m t th Hth). specialize (IH (delete t m)). cbn. enough (length l <= tally rank (delete t m))%nat by lia.
  apply IH. intros u Hu. destruct (Hm u) as (x & Hx & Hrx); [by right|]. exists x. split; [|done].
  rewrite lookup_delete_ne; [done|]. by intros <-.
Qed.

Lemma internal_bound (k : nat) (S S' : SystemThreads) :
  system_ok S -> nsteps internal k S S' -> system_ok S' /\ Z.of_nat k + measure (pool S') <= measure (pool S).
Proof.
  intros HS Hst. induction Hst as [S|k S S1 S' H1 _ IH]; [split; [done|lia]|].
  destruct (internal_measure S S1 HS H1) as [HS1 Hlt]. destruct (IH HS1). split; [done|]. lia.
Qed.

Lemma at_rest (S : SystemThreads) (t : thread_ptr) (th : Thread) :
  system_ok S -> (forall S', ~ internal S S') -> threads (pool S) !! t = Some th -> phase th = Leaving \/ phase th = Over.
Proof.
  intros HS Hrest Ht.
  assert (Hno : forall a r, a <> ReleaseLocalData -> thread_step S t a <> Some r).
  { intros a r Ha E. destruct (thread_step_spec S t a r HS E) as [(d' & -> & _)|[_ (t' & [= _ ->] & _)]]; [|done].
    apply (Hrest (mkSystem d' (resets S))). exists t, a. cbn. by rewrite E. }
  pose proof (ok_thread _ _ (sys_pool S HS) t th Ht) as Hst. unfold status, thread_ok in Hst.
  destruct (phase th) eqn:Hp; auto.
  - by destruct Hst.
  - exfalso. apply (Hno Begin (run_start (pool S) t)); [done|]. unfold thread_step. rewrite Ht. cbn. by rewrite Hp.
  - exfalso. apply (sys_unlocked S HS t). by exists th.
  - exfalso. apply (Hno EndTask (run_finish_task (pool S) t t0)); [done|]. unfold thread_step. rewrite Ht. cbn. by rewrite Hp.
  - exfalso. apply (Hno Wake (run_resume (pool S) t)); [done|]. unfold thread_step. rewrite Ht. cbn. by rewrite Hp.
  - exfalso. apply (Hno ClearLocalData (local_data_clear (pool S) t)); [done|]. unfold thread_step. rewrite Ht. cbn. by rewrite Hp.
Qed.

Lemma rest_queue (S : SystemThreads) :
  system_ok S -> (forall S', ~ internal S S') -> mReservedThreadCount (pool S) < mMaxThreadCount (pool S) ->
  mTasks (mTaskQueue (pool S)) = [].
Proof.
  intros HS Hrest Hmax. destruct (sys_work S HS) as [|[Hb|]]; [done| |lia]. exfalso.
  apply set_choose_L in Hb as [t Ht]. apply busy_elim in Ht as (Ha & _ & He).
  destruct (ok_alive _ _ (sys_pool S HS) t Ha) as [th Hth]. destruct (at_rest S t th HS Hrest Hth) as [Hp|Hp];
  pose proof (ok_thread _ _ (sys_pool S HS) t th Hth) as Hst; unfold status, thread_ok in Hst; rewrite Hp in Hst; tauto.
Qed.

Lemma rest_running (S : SystemThreads) : system_ok S -> (forall S', ~ internal S S') -> running (pool S) = [].
Proof.
  intros HS Hrest. apply Permutation_nil_r, occ_equal. intros k. unfold running. rewrite occ_threads, occ_nil.
  apply tally_zero. intros t th Ht. unfold run_of. by destruct (at_rest S t th HS Hrest Ht) as [-> | ->].
Qed.

(** ** The properties *)

(** C12: Whatever the threads and the callers do, every section of code and every operation
    returns: no assertion fails, no dead thread is used and no loop runs on. The one
    exception is a thread that drops the last reference to itself. The counter of active
    threads is the number of threads at work, the queue is in order of priority and age,
    and while work is queued a thread is at work unless the reservations use up the limit. *)
Theorem pool_correct (n : Z) (S : SystemThreads) (a : action) (r : run SystemThreads) :
  reachable n S -> perform S a = Some r ->
  ((exists S', r = Ret S' /\ reachable n S') \/ (r = Fatal /\ self_join S a)) /\
  mActiveThreadCount (pool S) = Z.of_nat (tally active (threads (pool S))) /\
  StronglySorted item_lt (mTasks (mTaskQueue (pool S))) /\
  (mTasks (mTaskQueue (pool S)) = [] \/
   (exists t, t ∈ mAllThreads (pool S) /\ t ∉ mWaitingThreads (pool S) /\ t ∉ mExpiredThreads (pool S)) \/
   mMaxThreadCount (pool S) <= mReservedThreadCount (pool S)).
Proof.
  intros Hr E. pose proof (reachable_ok n S Hr) as HS. split; [|split; [|split]].
  - destruct (perform_spec S a r HS E) as [(S' & -> & _)|H]; [left|by right]. exists S'. split; [done|].
    eapply rtc_r; [exact Hr|by exists a].
  - apply (ok_active _ _ (sys_pool S HS)).
  - apply (ok_queue _ _ (sys_pool S HS)).
  - destruct (sys_work S HS) as [|[Hb|]]; [by left| |by right; right]. right. left.
    apply set_choose_L in Hb as [t Ht]. exists t. by apply busy_elim.
Qed.

(** C15: No task is lost or run twice: an accepted task is in the queue, in the hands of a thread,
    begun, removed by [cancel] or [clear], or destroyed with a thread that had it in its
    hands, and in one of these places only; a task that was begun has ended or is running.
    When [wait_for_done] finds the pool done, nothing is queued and nothing is running. *)
Theorem pool_accounting (n : Z) (S : SystemThreads) :
  reachable n S ->
  accepted (pool S) ≡ₚ (task <$> mTasks (mTaskQueue (pool S))) ++ in_hands (pool S) ++ begun (pool S) ++ removed (pool S) ++ dropped (pool S) /\
  begun (pool S) ≡ₚ ended (pool S) ++ running (pool S) /\
  (is_done (pool S) = true ->
   accepted (pool S) ≡ₚ in_hands (pool S) ++ ended (pool S) ++ removed (pool S) ++ dropped (pool S)).
Proof.
  intros Hr. pose proof (reachable_ok n S Hr) as HS. pose proof (sys_pool S HS) as Hok.
  split; [by apply accepted_perm|]. split; [by apply begun_perm|]. intros [Hq H0]%is_done_spec.
  assert (Hrun : running (pool S) = []).
  { apply Permutation_nil_r, occ_equal. intros k. unfold running. rewrite occ_threads, occ_nil. apply tally_zero. intros t th Ht.
    pose proof (idle_threads (pool S) t th Hok H0 Ht) as Ha. unfold active in Ha. unfold run_of. by destruct (phase th). }
  rewrite (accepted_perm _ Hok), (begun_perm _ Hok), Hrun, Hq, app_nil_r. done.
Qed.

(** C24: Left alone, the pool comes to rest: the threads take a bounded number of steps, and when
    none is left the queue is empty and every accepted task has ended, unless it was removed
    or handed to a waiting thread that the pool let go, or the reservations use up the limit. *)
Theorem pool_settles (n : Z) (S S' : SystemThreads) (k : nat) :
  reachable n S -> nsteps internal k S S' ->
  Z.of_nat k <= measure (pool S) /\
  ((forall S'', ~ internal S' S'') -> mReservedThreadCount (pool S') < mMaxThreadCount (pool S') ->
   accepted (pool S') ≡ₚ ended (pool S') ++ removed (pool S') ++ in_hands (pool S') ++ dropped (pool S') /\
   forall t, t ∈ mAllThreads (pool S') -> forall th, threads (pool S') !! t = Some th -> mTask th = None).
Proof.
  intros Hr Hst. destruct (internal_bound k S S' (reachable_ok n S Hr) Hst) as [HS Hle]. pose proof (sys_pool S' HS) as Hok.
  pose proof (measure_nonneg (pool S') Hok). split; [lia|]. intros Hrest Hmax. split.
  - rewrite (accepted_perm _ Hok), (begun_perm _ Hok), (rest_running S' HS Hrest), (rest_queue S' HS Hrest Hmax), app_nil_r.
    cbn. rewrite !app_assoc, (Permutation_app_comm (in_hands (pool S'))), <- !app_assoc. apply Permutation_app_head.
    rewrite !app_assoc. apply Permutation_app_tail, Permutation_app_comm.
  - intros t Ht th Hth. pose proof (ok_thread _ _ Hok t th Hth) as H1. unfold status, thread_ok in H1.
    destruct (at_rest S' t th HS Hrest Hth) as [Hp|Hp]; rewrite Hp in H1; tauto.
Qed.

(** Starting a thread for a task keeps to the limit: the count of active threads goes up by
    one and only from below the limit, or from no threads at all; a task that no thread is
    started for stays with the caller, the count being at the limit. *)
Theorem try_start_correct (n : Z) (S : SystemThreads) (k : task_ptr) :
  reachable n S ->
  (exists d', try_start (with_accepted (pool S) k) k = Ret (d', true) /\
     active_thread_count d' = active_thread_count (pool S) + 1 /\
     (mAllThreads (pool S) <> ∅ -> active_thread_count d' <= mMaxThreadCount d')) \/
  (try_start (with_accepted (pool S) k) k = Ret (with_accepted (pool S) k, false) /\
   mMaxThreadCount (pool S) <= active_thread_count (pool S)).
Proof.
  intros Hr. pose proof (pool_ok_accepted (pool S) k (sys_pool S (reachable_ok n S Hr))) as Hok.
  destruct (try_start_spec (one k) none _ k Hok (fun _ => eq_refl)) as [(d' & E & Hg & Hmax)|(E & Hmax & _)]; [left|by right].
  exists d'. split; [done|]. pose proof (gv_count _ _ _ _ Hg) as Hc. split; [exact Hc|].
  intros Ha. specialize (Hmax Ha). rewrite (gr_max _ _ (gv_grows _ _ _ _ Hg)).
  change (active_thread_count (with_accepted (pool S) k)) with (active_thread_count (pool S)) in *. cbn in *. lia.
Qed.

(** ** Concrete histories *)

(** Two threads: one runs the first task, the other is done with the second and waits; a third
    task is queued by a fourth call. *)
Definition sample_history : list action :=
  [Start (Some 1%positive) kNormal; Start (Some 2%positive) kNormal; OfThread 1 Begin; OfThread 2 Begin;
   Start (Some 3%positive) kLow; Start (Some 4%positive) kHigh; OfThread 2 EndTask].
Definition result (n : Z) (l : list action) : SystemThreads :=
  match performs (initial n) l with Some (Ret s) => s | _ => initial n end.

Lemma result_reachable (n : Z) (l : list action) (S : SystemThreads) : performs (initial n) l = Some (Ret S) -> reachable n S.
Proof. apply performs_steps. Qed.

Lemma pool_correct_witness :
  exists r, perform (result 2 sample_history) (OfThread 2 EndTask) = Some r /\ ((exists S', r = Ret S' /\ reachable 2 S') \/ r = Fatal).
Proof.
  eexists. split; [vm_compute; reflexivity|].
  destruct (pool_correct 2 (result 2 sample_history) (OfThread 2 EndTask)
    (match perform (result 2 sample_history) (OfThread 2 EndTask) with Some r => r | None => Fatal end)) as [[H|[H _]] _].
  - apply (result_reachable 2 sample_history). vm_compute. reflexivity.
  - vm_compute. reflexivity.
  - left. exact H.
  - right. exact H.
Defined.

Lemma pool_accounting_witness :
  begun (pool (result 2 sample_history)) = [4%positive; 2%positive; 1%positive] /\
  begun (pool (result 2 sample_history)) ≡ₚ ended (pool (result 2 sample_history)) ++ running (pool (result 2 sample_history)).
Proof.
  split; [vm_compute; reflexivity|]. destruct (pool_accounting 2 (result 2 sample_history)) as (_ & H & _); [|exact H].
  apply (result_reachable 2 sample_history). vm_compute. reflexivity.
Defined.

Lemma pool_settles_witness :
  Z.of_nat 1 <= measure (pool (result 2 sample_history)).
Proof.
  destruct (pool_settles 2 (result 2 sample_history) (result 2 (sample_history ++ [OfThread 2 EndTask])) 1) as [H _]; [| |exact H].
  - apply (result_reachable 2 sample_history). vm_compute. reflexivity.
  - apply nsteps_once. exists 2%positive, EndTask. vm_compute. reflexivity.
Defined.

Lemma try_start_correct_witness :
  (exists d', try_start (with_accepted (pool (result 2 sample_history)) 5) 5 = Ret (d', true)) \/
  mMaxThreadCount (pool (result 2 sample_history)) <= active_thread_count (pool (result 2 sample_history)).
Proof.
  destruct (try_start_correct 2 (result 2 sample_history) 5) as [(d' & H & _)|[_ H]].
  - apply (result_reachable 2 sample_history). vm_compute. reflexivity.
  - left. exists d'. exact H.
  - right. exact H.
Defined.

(** A task handed to a waiting thread above the limit is in nobody's queue: [wait_for_done]
    finds the pool done, lets the thread go, and the task is destroyed without having run. *)
Theorem handed_over_task_lost :
  let history := [Start (Some 1%positive) kNormal; OfThread 1 Begin; OfThread 1 EndTask; ReserveThread;
    Start (Some 2%positive) kNormal; WaitForDone 1 true; OfThread 1 Wake; OfThread 1 ClearLocalData; OfThread 1 ReleaseLocalData;
    ResetDestroy 1] in
  exists S, performs (initial 1) history = Some (Ret S) /\ is_done (pool S) = true /\
    accepted (pool S) = [2%positive; 1%positive] /\ begun (pool S) = [1%positive] /\ removed (pool S) = [] /\ dropped (pool S) = [2%positive].
Proof. eexists. split; [vm_compute; reflexivity|]. repeat split. Qed.

(** The same branch starts a task above the limit: two tasks run in a pool of one thread. *)
Theorem start_exceeds_limit :
  let history := [Start (Some 1%positive) kNormal; Start (Some 2%positive) kNormal; OfThread 1 Begin; OfThread 2 Begin;
    OfThread 1 EndTask; SetMaxThreadCount 1; Start (Some 3%positive) kNormal; OfThread 1 Wake] in
  exists S, performs (initial 2) history = Some (Ret S) /\ mMaxThreadCount (pool S) = 1 /\
    active_thread_count (pool S) = 2 /\ running (pool S) = [2%positive; 3%positive].
Proof. eexists. split; [vm_compute; reflexivity|]. repeat split. Qed.

(** With a limit of zero the first thread is the last one: once it has expired, a task stays in
    the queue and nothing is left to run it. *)
Theorem zero_limit_starves :
  let history := [SetMaxThreadCount 0; Start (Some 1%positive) kNormal; OfThread 1 Begin; OfThread 1 EndTask; OfThread 1 Wake;
    OfThread 1 ClearLocalData; OfThread 1 ReleaseLocalData; Start (Some 2%positive) kNormal] in
  exists S, performs (initial 1) history = Some (Ret S) /\ (task <$> mTasks (mTaskQueue (pool S))) = [2%positive] /\
    forall S', ~ internal S S'.
Proof.
  intros history. exists (result 1 history). split; [vm_compute; reflexivity|]. split; [vm_compute; reflexivity|].
  assert (Hth : threads (pool (result 1 history)) = {[1%positive := mkThread None false false false Over]}) by (vm_compute; reflexivity).
  intros S' (t & a & E). cbn [perform] in E. unfold thread_step in E. rewrite Hth in E.
  destruct (decide (t = 1%positive)) as [->|Hne]; [by destruct a|]. by rewrite lookup_singleton_ne in E.
Qed.

(** [reset] may see a thread finished between the clearing of its flags and the release of its
    thread-local reference; the thread object is then destroyed by its own thread. *)
Theorem thread_joins_itself :
  let history := [Start (Some 1%positive) kNormal; OfThread 1 Begin; OfThread 1 EndTask; OfThread 1 Wake; WaitForDone 1 true;
    OfThread 1 ClearLocalData; ResetDestroy 1] in
  exists S, performs (initial 1) history = Some (Ret S) /\ perform S (OfThread 1 ReleaseLocalData) = Some Fatal.
Proof. eexists. split; vm_compute; reflexivity. Qed.
