(* ===== verification/Chars.v ===== *)
(** * Characters and byte buffers

    A text is the list of its characters, integers in [0, 256); reading and writing a
    buffer outside its cells is undefined. *)

From stdpp Require Import prelude list strings.
From Stdlib Require Import ZArith Lia.
From S2P Require Import Prelude.

#[local] Open Scope Z_scope.
#[local] Open Scope cxx_scope.

Definition chars (s : string) : list Z := (fun c => Z.of_nat (Ascii.nat_of_ascii c)) <$> String.list_ascii_of_string s.

(** Reads and writes of an array cell. *)
Definition at_ (l : list Z) (i : Z) : run Z := if 0 <=? i then deref (l !! Z.to_nat i) else Undef.
Definition store (l : list Z) (i v : Z) : run (list Z) :=
  if (0 <=? i) && (i <? Z.of_nat (length l)) then Ret (<[Z.to_nat i := v]> l) else Undef.

Lemma at_offset (pre l : list Z) (k : nat) (x : Z) :
  l !! k = Some x -> at_ (pre ++ l) (Z.of_nat (length pre) + Z.of_nat k) = Ret x.
Proof.
  intros H. unfold at_. rewrite (proj2 (Z.leb_le _ _)) by lia.
  replace (Z.to_nat (Z.of_nat (length pre) + Z.of_nat k)) with (length pre + k)%nat by lia.
  rewrite lookup_app_r by lia. replace (length pre + k - length pre)%nat with k by lia. by rewrite H.
Qed.

Lemma store_middle (pre : list Z) (x v : Z) (post : list Z) (i : Z) : i = Z.of_nat (length pre) ->
  store (pre ++ x :: post) i v = Ret ((pre ++ [v]) ++ post).
Proof.
  intros ->. unfold store. rewrite (proj2 (Z.leb_le _ _)), (proj2 (Z.ltb_lt _ _)) by (rewrite ?length_app; cbn; lia).
  rewrite Nat2Z.id. cbn [andb]. rewrite insert_app_r_alt by lia. rewrite Nat.sub_diag. cbn. by rewrite <- app_assoc.
Qed.

Lemma store_insert (l : list Z) (i v : Z) : 0 <= i < Z.of_nat (length l) -> store l i v = Ret (<[Z.to_nat i := v]> l).
Proof. intros H. unfold store. by rewrite (proj2 (Z.leb_le _ _)), (proj2 (Z.ltb_lt _ _)) by lia. Qed.
