(* ===== verification/Ascii.v ===== *)
(** * ASCII characters, and numbers in text

    Models [src/cxxkit/text/ascii.hpp] and [ascii.cpp]: the character tables, the parsing of
    integers, the comparisons and conversions that ignore case. A [char *] points into the
    cells from the string's first character to the end of its array; characters are unsigned,
    and reading past the last cell is undefined. Floating-point text is left out. *)

From stdpp Require Import prelude list.
From Stdlib Require Import ZArith Lia.
From S2P Require Import Prelude Chars.

#[local] Open Scope Z_scope.
#[local] Open Scope cxx_scope.

(** ** Tables *)
Definition ascii_table : list Z :=
  [4; 4; 4; 4; 4; 4; 4; 4; 4; 260; 260; 260; 260; 260; 4; 4; 4; 4; 4; 4; 4; 4; 4; 4;
   4; 4; 4; 4; 4; 4; 4; 4; 320; 208; 208; 208; 208; 208; 208; 208; 208; 208; 208; 208; 208; 208; 208; 208;
   1113; 1113; 1113; 1113; 1113; 1113; 1113; 1113; 1113; 1113; 208; 208; 208; 208; 208; 208; 208; 1619; 1619; 1619; 1619; 1619; 1619; 595;
   595; 595; 595; 595; 595; 595; 595; 595; 595; 595; 595; 595; 595; 595; 595; 595; 595; 595; 595; 208; 208; 208; 208; 208;
   208; 1139; 1139; 1139; 1139; 1139; 1139; 115; 115; 115; 115; 115; 115; 115; 115; 115; 115; 115; 115; 115; 115; 115; 115; 115;
   115; 115; 115; 208; 208; 208; 208; 4] ++ replicate 128 0.

Definition ascii_lower_table : list Z :=
  [0; 1; 2; 3; 4; 5; 6; 7; 8; 9; 10; 11; 12; 13; 14; 15; 16; 17; 18; 19; 20; 21; 22; 23;
   24; 25; 26; 27; 28; 29; 30; 31; 32; 33; 34; 35; 36; 37; 38; 39; 40; 41; 42; 43; 44; 45; 46; 47;
   48; 49; 50; 51; 52; 53; 54; 55; 56; 57; 58; 59; 60; 61; 62; 63; 64; 97; 98; 99; 100; 101; 102; 103;
   104; 105; 106; 107; 108; 109; 110; 111; 112; 113; 114; 115; 116; 117; 118; 119; 120; 121; 122; 91; 92; 93; 94; 95;
   96; 97; 98; 99; 100; 101; 102; 103; 104; 105; 106; 107; 108; 109; 110; 111; 112; 113; 114; 115; 116; 117; 118; 119;
   120; 121; 122; 123; 124; 125; 126; 127; 128; 129; 130; 131; 132; 133; 134; 135; 136; 137; 138; 139; 140; 141; 142; 143;
   144; 145; 146; 147; 148; 149; 150; 151; 152; 153; 154; 155; 156; 157; 158; 159; 160; 161; 162; 163; 164; 165; 166; 167;
   168; 169; 170; 171; 172; 173; 174; 175; 176; 177; 178; 179; 180; 181; 182; 183; 184; 185; 186; 187; 188; 189; 190; 191;
   192; 193; 194; 195; 196; 197; 198; 199; 200; 201; 202; 203; 204; 205; 206; 207; 208; 209; 210; 211; 212; 213; 214; 215;
   216; 217; 218; 219; 220; 221; 222; 223; 224; 225; 226; 227; 228; 229; 230; 231; 232; 233; 234; 235; 236; 237; 238; 239;
   240; 241; 242; 243; 244; 245; 246; 247; 248; 249; 250; 251; 252; 253; 254; 255].

Definition ascii_upper_table : list Z :=
  [0; 1; 2; 3; 4; 5; 6; 7; 8; 9; 10; 11; 12; 13; 14; 15; 16; 17; 18; 19; 20; 21; 22; 23;
   24; 25; 26; 27; 28; 29; 30; 31; 32; 33; 34; 35; 36; 37; 38; 39; 40; 41; 42; 43; 44; 45; 46; 47;
   48; 49; 50; 51; 52; 53; 54; 55; 56; 57; 58; 59; 60; 61; 62; 63; 64; 65; 66; 67; 68; 69; 70; 71;
   72; 73; 74; 75; 76; 77; 78; 79; 80; 81; 82; 83; 84; 85; 86; 87; 88; 89; 90; 91; 92; 93; 94; 95;
   96; 65; 66; 67; 68; 69; 70; 71; 72; 73; 74; 75; 76; 77; 78; 79; 80; 81; 82; 83; 84; 85; 86; 87;
   88; 89; 90; 123; 124; 125; 126; 127; 128; 129; 130; 131; 132; 133; 134; 135; 136; 137; 138; 139; 140; 141; 142; 143;
   144; 145; 146; 147; 148; 149; 150; 151; 152; 153; 154; 155; 156; 157; 158; 159; 160; 161; 162; 163; 164; 165; 166; 167;
   168; 169; 170; 171; 172; 173; 174; 175; 176; 177; 178; 179; 180; 181; 182; 183; 184; 185; 186; 187; 188; 189; 190; 191;
   192; 193; 194; 195; 196; 197; 198; 199; 200; 201; 202; 203; 204; 205; 206; 207; 208; 209; 210; 211; 212; 213; 214; 215;
   216; 217; 218; 219; 220; 221; 222; 223; 224; 225; 226; 227; 228; 229; 230; 231; 232; 233; 234; 235; 236; 237; 238; 239;
   240; 241; 242; 243; 244; 245; 246; 247; 248; 249; 250; 251; 252; 253; 254; 255].

Definition CXXKIT_ASCII_ALNUM : Z := Z.shiftl 1 0.
Definition CXXKIT_ASCII_ALPHA : Z := Z.shiftl 1 1.
Definition CXXKIT_ASCII_CNTRL : Z := Z.shiftl 1 2.
Definition CXXKIT_ASCII_DIGIT : Z := Z.shiftl 1 3.
Definition CXXKIT_ASCII_GRAPH : Z := Z.shiftl 1 4.
Definition CXXKIT_ASCII_LOWER : Z := Z.shiftl 1 5.
Definition CXXKIT_ASCII_PRINT : Z := Z.shiftl 1 6.
Definition CXXKIT_ASCII_PUNCT : Z := Z.shiftl 1 7.
Definition CXXKIT_ASCII_SPACE : Z := Z.shiftl 1 8.
Definition CXXKIT_ASCII_UPPER : Z := Z.shiftl 1 9.
Definition CXXKIT_ASCII_XDIGIT : Z := Z.shiftl 1 10.

(** [c] is an [unsigned char]. *)
Definition in_class (mask c : Z) : bool := negb (Z.land (default 0 (ascii_table !! Z.to_nat c)) mask =? 0).
Definition ascii_isalnum (c : Z) : bool := in_class CXXKIT_ASCII_ALNUM c.
Definition ascii_isalpha (c : Z) : bool := in_class CXXKIT_ASCII_ALPHA c.
Definition ascii_iscntrl (c : Z) : bool := in_class CXXKIT_ASCII_CNTRL c.
Definition ascii_isdigit (c : Z) : bool := in_class CXXKIT_ASCII_DIGIT c.
Definition ascii_isgraph (c : Z) : bool := in_class CXXKIT_ASCII_GRAPH c.
Definition ascii_islower (c : Z) : bool := in_class CXXKIT_ASCII_LOWER c.
Definition ascii_isprint (c : Z) : bool := in_class CXXKIT_ASCII_PRINT c.
Definition ascii_ispunct (c : Z) : bool := in_class CXXKIT_ASCII_PUNCT c.
Definition ascii_isspace (c : Z) : bool := in_class CXXKIT_ASCII_SPACE c.
Definition ascii_isupper (c : Z) : bool := in_class CXXKIT_ASCII_UPPER c.
Definition ascii_isxdigit (c : Z) : bool := in_class CXXKIT_ASCII_XDIGIT c.
Definition ascii_isblank (c : Z) : bool := (32 =? c) || (9 =? c).
Definition ascii_isascii (c : Z) : bool := c <? 128.
Definition ascii_tolower (c : Z) : Z := default 0 (ascii_lower_table !! Z.to_nat c).
Definition ascii_toupper (c : Z) : Z := default 0 (ascii_upper_table !! Z.to_nat c).

(** The macros *)
Definition ISSPACE (c : Z) : bool := (c =? 32) || (c =? 12) || (c =? 10) || (c =? 13) || (c =? 9) || (c =? 11).
Definition ISUPPER (c : Z) : bool := (65 <=? c) && (c <=? 90).
Definition ISLOWER (c : Z) : bool := (97 <=? c) && (c <=? 122).
Definition ISALPHA (c : Z) : bool := ISUPPER c || ISLOWER c.
Definition TOUPPER (c : Z) : Z := if ISLOWER c then c - 97 + 65 else c.
Definition TOLOWER (c : Z) : Z := if ISUPPER c then c - 65 + 97 else c.

Definition ascii_digit_value (c : Z) : Z := if ascii_isdigit c then c - 48 else -1.
Definition ascii_xdigit_value (c : Z) : Z :=
  if (65 <=? c) && (c <=? 70) then c - 65 + 10
  else if (97 <=? c) && (c <=? 102) then c - 97 + 10
  else ascii_digit_value c.

(** ** Integers *)
Inductive errno := EINVAL | ERANGE.
#[export] Instance errno_eq_dec : EqDecision errno. Proof. solve_decision. Defined.

Definition kUInt64Max : Z := 2 ^ 64 - 1.
Definition kInt64Max : Z := 2 ^ 63 - 1.
Definition kInt64Min : Z := - 2 ^ 63.

(** The value, [*endptr], [*negative], and what [errno] is set to *)
Record parsed := mkParsed { value : Z; endptr : Z; negative : bool; error : option errno }.

Fixpoint skip_space (rest : list Z) (s : Z) : run Z :=
  match rest with
  | [] => Undef
  | c :: rest => if ISSPACE c then skip_space rest (s + 1) else Ret s
  end.

Definition digit_of (c : Z) : option Z :=
  if (48 <=? c) && (c <=? 57) then Some (c - 48) else if ISALPHA c then Some (TOUPPER c - 65 + 10) else None.

(** The loop over the digits: where it stops, the value and whether it overflowed *)
Fixpoint digits_loop (base cutoff cutlim : Z) (rest : list Z) (s ui64 : Z) (overflow : bool) : run (Z * Z * bool) :=
  match rest with
  | [] => Undef
  | c :: rest =>
      if c =? 0 then Ret (s, ui64, overflow)
      else
        match digit_of c with
        | None => Ret (s, ui64, overflow)
        | Some d =>
            if base <=? d then Ret (s, ui64, overflow)
            else if (cutoff <? ui64) || ((ui64 =? cutoff) && (cutlim <? d)) then digits_loop base cutoff cutlim rest (s + 1) ui64 true
            else digits_loop base cutoff cutlim rest (s + 1) (wrap 64 (wrap 64 (ui64 * base) + d)) overflow
        end
  end.

Definition noconv (m : list Z) (save : Z) (neg : bool) : run parsed :=
  do hex <-
    (if 2 <=? save then
       do x <- at_ m (save - 1);
       if TOUPPER x =? 88 then do o <- at_ m (save - 2); Ret (o =? 48) else Ret false
     else Ret false);
  Ret (mkParsed 0 (if (hex : bool) then save - 1 else 0) neg None).

(** The prefix that tells the base *)
Definition number_prefix (m : list Z) (base s : Z) : run (Z * Z) :=
  do c <- at_ m s;
  if c =? 48 then
    do x <- (if (base =? 0) || (base =? 16) then do x <- at_ m (s + 1); Ret (TOUPPER x =? 88) else Ret false);
    Ret (if (x : bool) then (16, s + 2) else if base =? 0 then (8, s) else (base, s))
  else Ret (if base =? 0 then (10, s) else (base, s)).

Definition parse_long_long (m : list Z) (base : Z) : run parsed :=
  if (base =? 1) || (36 <? base) then Ret (mkParsed 0 0 false (Some EINVAL))
  else
    do s <- skip_space m 0;
    do c <- at_ m s;
    if c =? 0 then noconv m 0 false
    else
      let neg := c =? 45 in
      let s := if (c =? 45) || (c =? 43) then s + 1 else s in
      do (base, s) <- number_prefix m base s;
      let save := s in
      do (s, ui64, overflow) <- digits_loop base (kUInt64Max / base) (kUInt64Max mod base) (drop (Z.to_nat s) m) s 0 false;
      if s =? save then noconv m save neg
      else Ret (mkParsed (if (overflow : bool) then kUInt64Max else ui64) s neg None).

Definition ascii_strtoull (m : list Z) (base : Z) : run parsed :=
  do p <- parse_long_long m base;
  Ret (mkParsed (if negative p then wrap 64 (- value p) else value p) (endptr p) (negative p) (error p)).

(** The conversion of an unsigned value, and a negation that must fit *)
Definition ascii_strtoll (m : list Z) (base : Z) : run parsed :=
  do p <- parse_long_long m base;
  let result := value p in
  if negative p && (wrap 64 kInt64Min <? result) then Ret (mkParsed kInt64Min (endptr p) true (Some ERANGE))
  else if negb (negative p) && (wrap 64 kInt64Max <? result) then Ret (mkParsed kInt64Max (endptr p) false (Some ERANGE))
  else if negative p then
    let r := to_signed 64 result in
    if r =? kInt64Min then Undef else Ret (mkParsed (- r) (endptr p) true (error p))
  else Ret (mkParsed (to_signed 64 result) (endptr p) false (error p)).

Definition str_has_sign (m : list Z) : run bool := do c <- at_ m 0; Ret ((c =? 45) || (c =? 43)).
Definition str_has_hex_prefix (m : list Z) (s : Z) : run bool :=
  do c <- at_ m s; if c =? 48 then do x <- at_ m (s + 1); Ret (ascii_tolower x =? 120) else Ret false.

(** [support] is computed before the conversion, while [end_ptr] is null. *)
Definition ascii_string_to_signed (m : list Z) (base min max : Z) : run (option Z) :=
  do c <- at_ m 0;
  let isspace := ascii_isspace c in
  let end_ptr := (None : option Z) in
  do support <-
    (do hex <- (if base =? 16 then do sgn <- str_has_sign m; str_has_hex_prefix m (if (sgn : bool) then 1 else 0) else Ret false);
     match end_ptr with
     | None => Ret true
     | Some e => if (hex : bool) then Ret true else do c <- at_ m e; Ret (negb (c =? 0))
     end);
  if c =? 0 then Ret None
  else
    do p <- ascii_strtoll m base;
    if isspace || (support : bool) then Ret None
    else if bool_decide (error p = Some ERANGE) || (value p <? min) || (max <? value p) then Ret None
    else Ret (Some (value p)).

Definition ascii_string_to_unsigned (m : list Z) (base min max : Z) : run (option Z) :=
  do c <- at_ m 0;
  let isspace := ascii_isspace c in
  do has_sign <- str_has_sign m;
  let end_ptr := (None : option Z) in
  do support <-
    (do hex <- (if base =? 16 then str_has_hex_prefix m 0 else Ret false);
     match end_ptr with
     | None => Ret true
     | Some e => if (hex : bool) then Ret true else do c <- at_ m e; Ret (negb (c =? 0))
     end);
  if c =? 0 then Ret None
  else
    do p <- ascii_strtoull m base;
    if isspace || (has_sign : bool) || (support : bool) then Ret None
    else if bool_decide (error p = Some ERANGE) || (value p <? min) || (max <? value p) then Ret None
    else Ret (Some (value p)).

(** ** Comparisons *)
Fixpoint ascii_strcasecmp (m1 m2 : list Z) : run Z :=
  do c1 <- deref (head m1);
  do c2 <- deref (head m2);
  if negb (c1 =? 0) && negb (c2 =? 0) then
    if negb (TOLOWER c1 =? TOLOWER c2) then Ret (TOLOWER c1 - TOLOWER c2)
    else match m1 with [] => Undef | _ :: m1' => ascii_strcasecmp m1' (tail m2) end
  else Ret (c1 - c2).

Fixpoint ascii_strncasecmp (m1 m2 : list Z) (n : nat) : run Z :=
  match n with
  | O => Ret 0
  | S n =>
      do c1 <- deref (head m1);
      do c2 <- deref (head m2);
      if negb (c1 =? 0) && negb (c2 =? 0) then
        if negb (TOLOWER c1 =? TOLOWER c2) then Ret (TOLOWER c1 - TOLOWER c2)
        else ascii_strncasecmp (tail m1) (tail m2) n
      else Ret (c1 - c2)
  end.

(** ** Conversions *)

(** [strlen], and [String::strndup] *)
Fixpoint strlen (m : list Z) : run nat :=
  match m with
  | [] => Undef
  | c :: m => if c =? 0 then Ret O else do n <- strlen m; Ret (S n)
  end.
Definition strndup (m : list Z) (n : nat) : run (list Z) :=
  do len <- strlen m;
  let end_ := Nat.min len n in
  Ret (take end_ m ++ replicate (S n - end_) 0).

(** The loop up to the terminator *)
Fixpoint convert (f : Z -> Z) (m : list Z) : run (list Z) :=
  match m with
  | [] => Undef
  | c :: m => if c =? 0 then Ret (c :: m) else do m <- convert f m; Ret (f c :: m)
  end.

Definition ascii_strlwr (m : list Z) (len : Z) : run (list Z) :=
  do len <- (if len <? 0 then strlen m else Ret (Z.to_nat len));
  do result <- strndup m len;
  convert ascii_tolower result.
Definition ascii_strupr (m : list Z) (len : Z) : run (list Z) :=
  do len <- (if len <? 0 then strlen m else Ret (Z.to_nat len));
  do result <- strndup m len;
  convert ascii_toupper result.

(** The versions on [std::string] *)
Definition ascii_string_tolower (s : list Z) : list Z := ascii_tolower <$> s.
Definition ascii_string_toupper (s : list Z) : list Z := ascii_toupper <$> s.
