(* ===== verification/AsciiFacts.v ===== *)
(** * ASCII characters, and numbers in text: theorems

    The tables against ranges of characters, the parser of integers against a reference on
    lists with unbounded integers, printing and parsing, comparisons against the
    lexicographic order of the lower-case texts. *)

From stdpp Require Import prelude list strings.
From Stdlib Require Import ZArith Lia.
From S2P Require Import Prelude Chars Ascii.

#[local] Open Scope Z_scope.
#[local] Open Scope cxx_scope.

Definition uchar (c : Z) : Prop := 0 <= c < 256.
Definition text (l : list Z) : Prop := Forall (fun c => 0 < c < 256) l.

(** ** Characters *)

(** The tables put every character in the classes its code says, and change the case of the
    letters only. *)
Theorem ascii_classes_correct (c : Z) : uchar c ->
  ascii_isdigit c = (48 <=? c) && (c <=? 57) /\ ascii_isupper c = ISUPPER c /\ ascii_islower c = ISLOWER c /\ ascii_isalpha c = ISALPHA c /\
  ascii_isalnum c = ISALPHA c || ascii_isdigit c /\ ascii_isspace c = ISSPACE c /\
  ascii_isxdigit c = ascii_isdigit c || ((65 <=? c) && (c <=? 70)) || ((97 <=? c) && (c <=? 102)) /\
  ascii_iscntrl c = (c <? 32) || (c =? 127) /\ ascii_isprint c = (32 <=? c) && (c <? 127) /\
  ascii_isgraph c = ascii_isprint c && negb (c =? 32) /\ ascii_ispunct c = ascii_isgraph c && negb (ascii_isalnum c) /\
  ascii_tolower c = TOLOWER c /\ ascii_toupper c = TOUPPER c.
Proof.
  intros Hc. eapply bool_decide_eq_true_1. revert c Hc. apply (Z_range_check 256). vm_compute. reflexivity.
Qed.

(** ** The reference: numbers as lists *)
Fixpoint leading (P : Z -> bool) (l : list Z) : list Z * list Z :=
  match l with
  | [] => ([], [])
  | c :: l' => if P c then let '(p, r) := leading P l' in (c :: p, r) else ([], l)
  end.
Definition sign (l : list Z) : bool * nat * list Z :=
  match l with
  | c :: r => if c =? 45 then (true, 1%nat, r) else if c =? 43 then (false, 1%nat, r) else (false, 0%nat, l)
  | [] => (false, 0%nat, [])
  end.
Definition radix (base : Z) (l : list Z) : Z * nat * list Z :=
  match l with
  | c :: r =>
      if c =? 48 then
        match r with
        | x :: r' => if ((base =? 0) || (base =? 16)) && (TOUPPER x =? 88) then (16, 2%nat, r') else (if base =? 0 then 8 else base, 0%nat, l)
        | [] => (if base =? 0 then 8 else base, 0%nat, l)
        end
      else (if base =? 0 then 10 else base, 0%nat, l)
  | [] => (if base =? 0 then 10 else base, 0%nat, [])
  end.
Fixpoint numeral (base : Z) (l : list Z) : list Z :=
  match l with
  | [] => []
  | c :: l => match digit_of c with Some d => if d <? base then d :: numeral base l else [] | None => [] end
  end.
Definition eval (base a : Z) (ds : list Z) : Z := fold_left (fun a d => a * base + d) ds a.

(** Spaces, a sign, a prefix, digits: the value up to the largest, the place after them *)
Definition read (base : Z) (l : list Z) : parsed :=
  if (base =? 1) || (36 <? base) then mkParsed 0 0 false (Some EINVAL)
  else
    let '(ws, l1) := leading ISSPACE l in
    if bool_decide (l1 = []) then mkParsed 0 0 false None
    else
      let '(neg, n1, l2) := sign l1 in
      let '(b, n2, l3) := radix base l2 in
      let ds := numeral b l3 in
      let pos := Z.of_nat (length ws + n1 + n2) in
      if bool_decide (ds = []) then mkParsed 0 (if (2 <=? n2)%nat then pos - 1 else 0) neg None
      else mkParsed (Z.min (eval b 0 ds) kUInt64Max) (pos + Z.of_nat (length ds)) neg None.

(** ** The parser against the reference *)
Lemma skip_space_spec (l z : list Z) (s : Z) : text l ->
  skip_space (l ++ 0 :: z) s = Ret (s + Z.of_nat (length (fst (leading ISSPACE l)))).
Proof.
  intros H. revert s. induction H as [|c l Hc H IH]; intros s; cbn; [f_equal; lia|]. destruct (ISSPACE c) eqn:E; [|cbn; f_equal; lia].
  rewrite IH. destruct (leading ISSPACE l) as [p r]. cbn. f_equal. lia.
Qed.

Lemma leading_app (P : Z -> bool) (l : list Z) : l = fst (leading P l) ++ snd (leading P l) /\ Forall (fun c => P c = true) (fst (leading P l)).
Proof.
  induction l as [|c l [IH1 IH2]]; [done|]. cbn. destruct (P c) eqn:E; [|done]. destruct (leading P l) as [p r]. cbn in *. split; [by f_equal|by constructor].
Qed.

Lemma eval_grows (b a : Z) (ds : list Z) : 1 <= b -> 0 <= a -> Forall (fun d => 0 <= d) ds -> a <= eval b a ds.
Proof.
  intros Hb Ha H. revert a Ha. induction H as [|d ds Hd H IH]; intros a Ha; cbn; [lia|]. specialize (IH (a * b + d) ltac:(nia)). unfold eval in IH. nia.
Qed.

Lemma digit_of_range (c d : Z) : digit_of c = Some d -> 0 <= d.
Proof.
  unfold digit_of, ISALPHA, TOUPPER, ISUPPER, ISLOWER. destruct (_ && _) eqn:E; [intros [= <-]; zbool; lia|].
  destruct (_ || _) eqn:E2; [|done]. intros [= <-]. destruct ((97 <=? c) && (c <=? 122)) eqn:E3; zbool; [lia|].
  rewrite orb_false_r in E2. zbool. lia.
Qed.

Lemma numeral_range (b : Z) (l : list Z) : Forall (fun d => 0 <= d < b) (numeral b l).
Proof.
  induction l as [|c l IH]; cbn; [constructor|]. destruct (digit_of c) as [d|] eqn:E; [|constructor]. destruct (d <? b) eqn:Ed; zbool; [|constructor].
  constructor; [|done]. pose proof (digit_of_range c d E). lia.
Qed.

(** The test of the code is the overflow of the next step. *)
Lemma cutoff_test (b u d : Z) : 2 <= b -> 0 <= d < b -> 0 <= u ->
  ((kUInt64Max / b <? u) || ((u =? kUInt64Max / b) && (kUInt64Max mod b <? d))) = (kUInt64Max <? u * b + d).
Proof.
  intros Hb Hd Hu. pose proof (Z.div_mod kUInt64Max b ltac:(lia)) as E. pose proof (Z.mod_pos_bound kUInt64Max b ltac:(lia)) as Hm.
  set (q := kUInt64Max / b) in *. set (r := kUInt64Max mod b) in *. apply eq_bool_prop_intro. rewrite !orb_True, !andb_True, !Is_true_true.
  rewrite !Z.ltb_lt, Z.eqb_eq. split; [intros [H|[-> H]]; nia|]. intros H. destruct (Z.lt_trichotomy u q) as [Hlt|[->|Hgt]]; [|right; lia|by left]. nia.
Qed.

Lemma digits_loop_spec (b : Z) (l z : list Z) (s u : Z) (ov : bool) : 2 <= b -> text l -> 0 <= u <= kUInt64Max ->
  exists u' ov', digits_loop b (kUInt64Max / b) (kUInt64Max mod b) (l ++ 0 :: z) s u ov = Ret (s + Z.of_nat (length (numeral b l)), u', ov') /\
    (ov = true -> ov' = true) /\ (ov = false -> ov' = (kUInt64Max <? eval b u (numeral b l)) /\ (ov' = false -> u' = eval b u (numeral b l))).
Proof.
  intros Hb H. revert s u ov. induction H as [|c l Hc H IH]; intros s u ov Hu; cbn [app digits_loop numeral].
  { exists u, ov. split_and!; [cbn; do 3 f_equal; lia|done|]. intros ->. cbn. split; [symmetry; apply Z.ltb_ge; lia|done]. }
  rewrite (proj2 (Z.eqb_neq c 0)) by lia.
  assert (Hstop : exists u' ov', Ret (s, u, ov) = Ret (s + Z.of_nat (length (@nil Z)), u', ov') /\
    (ov = true -> ov' = true) /\ (ov = false -> ov' = (kUInt64Max <? eval b u []) /\ (ov' = false -> u' = eval b u []))).
  { exists u, ov. split_and!; [cbn; do 3 f_equal; lia|done|]. intros ->. cbn. split; [symmetry; apply Z.ltb_ge; lia|done]. }
  destruct (digit_of c) as [d|] eqn:Ed; [|done]. pose proof (digit_of_range c d Ed) as Hd. destruct (b <=? d) eqn:Eb; zbool.
  { by rewrite (proj2 (Z.ltb_ge d b)). }
  rewrite (proj2 (Z.ltb_lt d b)) by done. rewrite cutoff_test by lia. pose proof (numeral_range b l) as Hr.
  assert (Hg : forall a, 0 <= a -> a <= eval b a (numeral b l)).
  { intros a Ha. apply eval_grows; [lia|done|]. eapply Forall_impl; [exact Hr|]. intros x Hx. cbn in Hx. lia. }
  destruct (kUInt64Max <? u * b + d) eqn:Eo; zbool.
  - destruct (IH (s + 1) u true Hu) as (u' & ov' & E & H1 & _). rewrite E. exists u', ov'. split_and!; [cbn [length]; do 3 f_equal; lia|auto|].
    intros ->. rewrite H1 by done. cbn [eval fold_left]. split; [|done]. symmetry. apply Z.ltb_lt. specialize (Hg (u * b + d) ltac:(nia)). unfold eval in *. lia.
  - unfold kUInt64Max in *. rewrite (wrap_small 64 (u * b)) by nia. rewrite wrap_small by nia.
    destruct (IH (s + 1) (u * b + d) ov ltac:(nia)) as (u' & ov' & E & H1 & H2). rewrite E. exists u', ov'. split_and!; [cbn [length]; do 3 f_equal; lia|done|done].
Qed.

Lemma at_app (l z : list Z) (i : nat) (x : Z) : l !! i = Some x -> at_ (l ++ z) (Z.of_nat i) = Ret x.
Proof. intros E. unfold at_. rewrite (proj2 (Z.leb_le 0 _)), Nat2Z.id by lia. by rewrite (lookup_app_l_Some _ _ _ _ E). Qed.

Lemma at_head (p l z : list Z) : at_ (p ++ l ++ 0 :: z) (Z.of_nat (length p)) = Ret (match l with [] => 0 | c :: _ => c end).
Proof.
  replace (Z.of_nat (length p)) with (Z.of_nat (length p) + Z.of_nat 0) by lia. apply at_offset. by destruct l.
Qed.

Lemma sign_spec (c : Z) (r : list Z) : exists p, c :: r = p ++ snd (sign (c :: r)) /\ length p = snd (fst (sign (c :: r))) /\
  fst (fst (sign (c :: r))) = (c =? 45) /\ Forall (fun c => c = 45 \/ c = 43) p /\
  (if (c =? 45) || (c =? 43) then 1 else 0) = Z.of_nat (length p).
Proof.
  cbn. destruct (c =? 45) eqn:E1; zbool; [subst; exists [45]; by split_and!; repeat constructor|].
  destruct (c =? 43) eqn:E2; zbool; [subst; exists [43]; split_and!; try done; by repeat (constructor || right)|]. exists []. by split_and!.
Qed.

(** The prefix of the code *)
Lemma radix_spec (base : Z) (p l z : list Z) :
  number_prefix (p ++ l ++ 0 :: z) base (Z.of_nat (length p)) =
    Ret (fst (fst (radix base l)), Z.of_nat (length p) + Z.of_nat (snd (fst (radix base l)))) /\
  exists q, l = q ++ snd (radix base l) /\ length q = snd (fst (radix base l)) /\ (q = [] \/ exists x, q = [48; x] /\ TOUPPER x = 88).
Proof.
  assert (Hnone : forall b : Z, Ret (b, Z.of_nat (length p)) = Ret (b, Z.of_nat (length p) + Z.of_nat 0) /\
    exists q, l = q ++ l /\ length q = 0%nat /\ (q = [] \/ exists x, q = [48; x] /\ TOUPPER x = 88)).
  { intros b. split; [by rewrite Z.add_0_r|]. exists []. split_and!; [done|done|by left]. }
  unfold number_prefix. rewrite at_head. cbn [run_bind]. destruct l as [|c r]; cbn [radix].
  { change (0 =? 48) with false. cbn [fst snd]. destruct (base =? 0); apply Hnone. }
  destruct (c =? 48) eqn:E; zbool; [|cbn [fst snd]; destruct (base =? 0); apply Hnone]. subst c.
  destruct ((base =? 0) || (base =? 16)) eqn:Eb; [|cbn [run_bind andb]; destruct r as [|x r']; cbn [fst snd]; destruct (base =? 0); apply Hnone].
  replace (p ++ (48 :: r) ++ 0 :: z) with ((p ++ [48]) ++ r ++ 0 :: z) by (by rewrite <- (assoc_L (++))).
  replace (Z.of_nat (length p) + 1) with (Z.of_nat (length (p ++ [48]))) by (rewrite length_app; cbn; lia). rewrite at_head. cbn [run_bind].
  destruct r as [|x r']; cbn [andb].
  - change (TOUPPER 0 =? 88) with false. cbn [fst snd]. destruct (base =? 0); apply Hnone.
  - destruct (TOUPPER x =? 88) eqn:Ex; zbool; cbn [fst snd]; [|destruct (base =? 0); apply Hnone].
    split; [done|]. exists [48; x]. split_and!; [done|done|right]. by exists x.
Qed.

Lemma noconv_spec (p q l z : list Z) (neg : bool) :
  Forall (fun c => TOUPPER c <> 88) p -> q = [] \/ (exists x, q = [48; x] /\ TOUPPER x = 88) ->
  noconv (p ++ q ++ l ++ 0 :: z) (Z.of_nat (length p + length q)) neg =
    Ret (mkParsed 0 (if (2 <=? length q)%nat then Z.of_nat (length p + length q) - 1 else 0) neg None).
Proof.
  intros Hp Hq. unfold noconv. destruct Hq as [->|(x & -> & Hx)].
  - cbn [length app]. rewrite Nat.add_0_r. destruct (2 <=? Z.of_nat (length p)) eqn:E; zbool; [|done].
    destruct (lookup_lt_is_Some_2 p (length p - 1)) as [y Hy]; [lia|].
    replace (Z.of_nat (length p) - 1) with (Z.of_nat (length p - 1)) by lia. rewrite (at_app p _ _ y) by done. cbn [run_bind].
    rewrite (proj2 (Z.eqb_neq _ _)); [done|]. rewrite Forall_lookup in Hp. by apply (Hp _ _ Hy).
  - cbn [length app Nat.leb]. rewrite (proj2 (Z.leb_le 2 _)) by lia.
    replace (Z.of_nat (length p + 2) - 1) with (Z.of_nat (length p) + Z.of_nat 1) by lia. rewrite (at_offset p _ 1 x) by done. cbn [run_bind].
    rewrite Hx. change (88 =? 88) with true. cbn beta iota. replace (Z.of_nat (length p + 2) - 2) with (Z.of_nat (length p) + Z.of_nat 0) by lia.
    by rewrite (at_offset p _ 0 48).
Qed.

Lemma not_x (c : Z) : ISSPACE c = true \/ c = 45 \/ c = 43 -> TOUPPER c <> 88.
Proof.
  intros [H|[->| ->]]; try done. unfold ISSPACE in H. rewrite !orb_true_iff, !Z.eqb_eq in H.
  destruct H as [[[[[->| ->]| ->]| ->]| ->]| ->]; done.
Qed.

Lemma radix_base (base : Z) (l : list Z) : 0 <= base -> base <> 1 -> base <= 36 -> 2 <= fst (fst (radix base l)).
Proof.
  intros H0 H1 H2. unfold radix. repeat case_match; cbn; zbool; lia.
Qed.

(** The parser is the reference, for every base, text and whatever follows it in memory; it
    reads no cell after the terminator. *)
Theorem parse_correct (base : Z) (l z : list Z) : 0 <= base -> text l -> parse_long_long (l ++ 0 :: z) base = Ret (read base l).
Proof.
  intros Hb Ht. unfold parse_long_long, read. destruct ((base =? 1) || (36 <? base)) eqn:Eb; [done|]. apply orb_false_iff in Eb as [Eb1 Eb2]. zbool.
  rewrite skip_space_spec by done. cbn [run_bind]. rewrite Z.add_0_l. destruct (leading_app ISSPACE l) as [El Hws].
  destruct (leading ISSPACE l) as [ws l1]. cbn [fst snd] in *. subst l. rewrite <- (assoc_L (++)), at_head. cbn [run_bind].
  apply Forall_app in Ht as [_ Ht]. destruct l1 as [|c r]; [done|]. rewrite bool_decide_false by done.
  assert (Hc : 0 < c) by (apply Forall_cons in Ht as [? _]; lia). rewrite (proj2 (Z.eqb_neq c 0)) by lia.
  destruct (sign_spec c r) as (p & Ep & Elen & Eneg & Hp & Elen'). destruct (sign (c :: r)) as [[neg n1] l2]. cbn [fst snd] in *. subst n1 neg.
  rewrite Ep in *. apply Forall_app in Ht as [_ Ht].
  replace (if (c =? 45) || (c =? 43) then Z.of_nat (length ws) + 1 else Z.of_nat (length ws)) with (Z.of_nat (length (ws ++ p))) by (rewrite length_app; destruct (_ || _); lia).
  replace (ws ++ (p ++ l2) ++ 0 :: z) with ((ws ++ p) ++ l2 ++ 0 :: z) by (by rewrite <- !(assoc_L (++))).
  destruct (radix_spec base (ws ++ p) l2 z) as [-> (q & Eq & Elq & Hq)].
  pose proof (radix_base base l2 Hb Eb1 Eb2) as Hb2. destruct (radix base l2) as [[b n2] l3]. cbn [fst snd] in *. subst n2 l2.
  apply Forall_app in Ht as [_ Ht]. cbn [run_bind].
  replace ((ws ++ p) ++ (q ++ l3) ++ 0 :: z) with ((ws ++ p) ++ q ++ l3 ++ 0 :: z) by (by rewrite <- !(assoc_L (++))).
  rewrite <- Nat2Z.inj_add, Nat2Z.id, (assoc_L (++)), <- length_app, drop_app_length.
  destruct (digits_loop_spec b l3 z (Z.of_nat (length ((ws ++ p) ++ q))) 0 false Hb2 Ht ltac:(unfold kUInt64Max; lia)) as (u' & ov' & -> & _ & Hov).
  destruct (Hov eq_refl) as [-> Hu]. cbn [run_bind]. destruct (decide (numeral b l3 = [])) as [En|Hn].
  - rewrite En. cbn [length]. rewrite Z.add_0_r, Z.eqb_refl, bool_decide_true by done. rewrite <- (assoc_L (++)), length_app, noconv_spec; [|..].
    + by rewrite !length_app.
    + apply Forall_app. split; (eapply Forall_impl; [eassumption|]); intros x Hx; apply not_x; [by left|by right].
    + done.
  - rewrite bool_decide_false by done. assert (length (numeral b l3) <> 0%nat) by (by destruct (numeral b l3)).
    rewrite (proj2 (Z.eqb_neq _ _)) by lia. rewrite !length_app. do 2 f_equal.
    destruct (kUInt64Max <? eval b 0 (numeral b l3)) eqn:Eo; zbool; [lia|]. rewrite Hu by done. lia.
Qed.

(** ** Signed and unsigned results *)
Lemma read_range (base : Z) (l : list Z) : 0 <= base -> 0 <= value (read base l) <= kUInt64Max.
Proof.
  intros Hb. unfold read. destruct ((base =? 1) || (36 <? base)) eqn:Eb; [done|]. apply orb_false_iff in Eb as [Eb1 Eb2]. zbool.
  destruct (leading ISSPACE l) as [ws l1]. case_bool_decide; [done|]. destruct (sign l1) as [[neg n1] l2].
  pose proof (radix_base base l2 Hb Eb1 Eb2) as Hb2. destruct (radix base l2) as [[b n2] l3]. cbn [fst] in Hb2. case_bool_decide; [done|]. cbn [value].
  assert (Hg : 0 <= eval b 0 (numeral b l3)).
  { apply eval_grows; [lia|lia|]. eapply Forall_impl; [apply numeral_range|]. intros x Hx. cbn in Hx. lia. }
  unfold kUInt64Max in *. lia.
Qed.

Lemma to_signed_small (v : Z) : 0 <= v < 2 ^ 63 -> to_signed 64 v = v.
Proof. intros H. unfold to_signed. rewrite Z.mod_small by lia. change (2 ^ (64 - 1)) with (2 ^ 63). by rewrite (proj2 (Z.ltb_lt _ _)) by lia. Qed.

(** What the text says, before it is made to fit *)
Definition signed (p : parsed) : Z := if negative p then - value p else value p.
Definition saturate (v : Z) : Z := Z.max kInt64Min (Z.min v kInt64Max).

(** The conversions of what the parser has read *)
Lemma conversions_read (base : Z) (l z : list Z) : 0 <= base -> text l ->
  let p := read base l in let v := signed p in
  ascii_strtoll (l ++ 0 :: z) base =
    (if v =? kInt64Min then Undef
     else Ret (mkParsed (saturate v) (endptr p) (negative p) (if saturate v =? v then error p else Some ERANGE))) /\
  ascii_strtoull (l ++ 0 :: z) base = Ret (mkParsed (v mod 2 ^ 64) (endptr p) (negative p) (error p)).
Proof.
  intros Hb Ht p v. unfold ascii_strtoll, ascii_strtoull. rewrite parse_correct by done. cbn [run_bind]. fold p. pose proof (read_range base l Hb) as Hr. fold p in Hr.
  subst v. unfold signed, saturate. unfold kUInt64Max, kInt64Min, kInt64Max in *. rewrite (wrap_small 64 (2 ^ 63 - 1)) by lia.
  change (wrap 64 (- 2 ^ 63)) with (2 ^ 63). destruct p as [v e neg err]. cbn [value endptr negative error] in *. split.
  - destruct neg; cbn [andb negb].
    + destruct (2 ^ 63 <? v) eqn:E; zbool.
      * rewrite (proj2 (Z.eqb_neq (- v) _)) by lia. rewrite (proj2 (Z.eqb_neq _ (- v))) by lia. do 2 f_equal. lia.
      * destruct (- v =? - 2 ^ 63) eqn:E1; zbool.
        { replace v with (2 ^ 63) by lia. done. }
        rewrite to_signed_small, (proj2 (Z.eqb_neq v _)) by lia. replace (Z.max _ _) with (- v) by lia. by rewrite Z.eqb_refl.
    + destruct (2 ^ 63 - 1 <? v) eqn:E; zbool; rewrite (proj2 (Z.eqb_neq v (- 2 ^ 63))) by lia.
      * rewrite (proj2 (Z.eqb_neq _ v)) by lia. do 2 f_equal. lia.
      * rewrite to_signed_small by lia. replace (Z.max _ _) with v by lia. by rewrite Z.eqb_refl.
  - unfold wrap. destruct neg; do 2 f_equal. symmetry. apply Z.mod_small. lia.
Qed.

(** The number the text says, however large: its sign and digits *)
Definition magnitude (base : Z) (l : list Z) : Z :=
  if (base =? 1) || (36 <? base) then 0
  else let '(_, _, l2) := sign (snd (leading ISSPACE l)) in let '(b, _, l3) := radix base l2 in eval b 0 (numeral b l3).
Definition number (base : Z) (l : list Z) : Z := if negative (read base l) then - magnitude base l else magnitude base l.

Lemma read_capped (base : Z) (l : list Z) : value (read base l) = Z.min (magnitude base l) kUInt64Max.
Proof.
  unfold read, magnitude. destruct (_ || _); [done|]. destruct (leading ISSPACE l) as [ws l1]. cbn [snd]. case_bool_decide as Hl; [subst l1; cbn; by repeat case_match|].
  destruct (sign l1) as [[neg n1] l2]. destruct (radix base l2) as [[b n2] l3]. case_bool_decide as Hd; [by rewrite Hd|done].
Qed.


(** The numbers as they are usually written *)
Fixpoint digits (fuel : nat) (b n : Z) : list Z :=
  match fuel with
  | O => []
  | S fuel => if n <? b then [n] else digits fuel b (n / b) ++ [n mod b]
  end.
Definition digit_char (d : Z) : Z := if d <? 10 then 48 + d else 87 + d.
Definition write (b v : Z) : list Z := (if v <? 0 then [45] else []) ++ (digit_char <$> digits 64 b (Z.abs v)).

Lemma digits_spec (b : Z) (fuel : nat) (n : Z) : 2 <= b -> 0 <= n < 2 ^ Z.of_nat fuel -> (0 < fuel)%nat ->
  eval b 0 (digits fuel b n) = n /\ Forall (fun d => 0 <= d < b) (digits fuel b n) /\ (exists d ds, digits fuel b n = d :: ds /\ (d = 0 -> n = 0 /\ ds = [])).
Proof.
  intros Hb. revert n. induction fuel as [|fuel IH]; intros n Hn Hf; [lia|]. cbn [digits]. destruct (n <? b) eqn:E; zbool.
  { split_and!; [cbn; lia|repeat constructor; lia|]. exists n, []. done. }
  assert (0 < fuel)%nat by (destruct fuel; [change (2 ^ Z.of_nat 1) with 2 in Hn|]; lia).
  rewrite Nat2Z.inj_succ, Z.pow_succ_r in Hn by lia. destruct (IH (n / b)) as (H1 & H2 & d & ds & H3 & H4); [|done|].
  { split; [apply Z.div_pos; lia|]. apply Z.div_lt_upper_bound; nia. }
  split_and!.
  - unfold eval in *. rewrite fold_left_app, H1. cbn. pose proof (Z.div_mod n b). lia.
  - apply Forall_app. split; [done|]. repeat constructor; apply Z.mod_pos_bound; lia.
  - exists d, (ds ++ [n mod b]). rewrite H3. split; [done|]. intros Hd. destruct (H4 Hd) as [H5 _]. apply Z.div_small_iff in H5; lia.
Qed.

Lemma digit_char_ok (d : Z) : 0 <= d < 36 ->
  digit_of (digit_char d) = Some d /\ ISSPACE (digit_char d) = false /\ (digit_char d =? 45) = false /\ (digit_char d =? 43) = false /\
  (digit_char d =? 48) = (d =? 0) /\ 0 < digit_char d < 256.
Proof. intros Hd. eapply bool_decide_eq_true_1. revert d Hd. apply (Z_range_check 36). vm_compute. reflexivity. Qed.

Lemma numeral_chars (b : Z) (ds : list Z) : b <= 36 -> Forall (fun d => 0 <= d < b) ds -> numeral b (digit_char <$> ds) = ds.
Proof.
  intros Hb H. induction H as [|d ds Hd H IH]; [done|]. cbn. destruct (digit_char_ok d ltac:(lia)) as (-> & _). rewrite (proj2 (Z.ltb_lt _ _)) by lia. by rewrite IH.
Qed.

Lemma read_write (b v : Z) : 2 <= b <= 36 -> Z.abs v <= kUInt64Max ->
  text (write b v) /\ read b (write b v) = mkParsed (Z.abs v) (Z.of_nat (length (write b v))) (v <? 0) None.
Proof.
  intros Hb Hv. destruct (digits_spec b 64 (Z.abs v)) as (H1 & H2 & d & ds & H3 & H4); [lia| |lia|].
  { unfold kUInt64Max in Hv. change (Z.of_nat 64) with 64. lia. }
  pose proof (numeral_chars b _ ltac:(lia) H2) as Hn. assert (Hd : 0 <= d < b) by (rewrite H3 in H2; by apply Forall_cons in H2 as [? _]).
  destruct (digit_char_ok d ltac:(lia)) as (Hd1 & Hd2 & Hd3 & Hd4 & Hd5 & Hd6).
  assert (Ht : text (digit_char <$> digits 64 b (Z.abs v))).
  { apply Forall_fmap. eapply Forall_impl; [exact H2|]. intros x Hx. cbn in *. apply digit_char_ok. lia. }
  assert (Hr : radix b (digit_char <$> digits 64 b (Z.abs v)) = (b, 0%nat, digit_char <$> digits 64 b (Z.abs v))).
  { rewrite H3. cbn [fmap list_fmap radix]. rewrite Hd5, (proj2 (Z.eqb_neq b 0)) by lia. destruct (d =? 0) eqn:E; zbool; [|done].
    destruct (H4 E) as [_ ->]. done. }
  split; [unfold write; apply Forall_app; split; [destruct (v <? 0); by repeat constructor|done]|].
  unfold read. rewrite (proj2 (Z.eqb_neq b 1)), (proj2 (Z.ltb_ge 36 b)) by lia. cbn [orb].
  assert (El : leading ISSPACE (write b v) = ([], write b v)).
  { unfold write. rewrite H3. destruct (v <? 0); [done|]. cbn. by rewrite Hd2. }
  assert (Es : sign (write b v) = (v <? 0, if v <? 0 then 1%nat else 0%nat, digit_char <$> digits 64 b (Z.abs v))).
  { unfold write. rewrite H3. destruct (v <? 0); [done|]. cbn. by rewrite Hd3, Hd4. }
  rewrite El, Es, Hr. rewrite bool_decide_false by (unfold write; rewrite H3; by destruct (v <? 0)).
  rewrite Hn, bool_decide_false by (by rewrite H3). rewrite H1. unfold kUInt64Max in *. f_equal; [lia|].
  unfold write. rewrite length_app, length_fmap. destruct (v <? 0); cbn [length]; lia.
Qed.

(** A number written in any base is read back, up to its end. *)
Theorem write_read_roundtrip (b v : Z) (z : list Z) : 2 <= b <= 36 ->
  let p := mkParsed v (Z.of_nat (length (write b v))) (v <? 0) None in
  (kInt64Min < v <= kInt64Max -> ascii_strtoll (write b v ++ 0 :: z) b = Ret p) /\
  (0 <= v <= kUInt64Max -> ascii_strtoull (write b v ++ 0 :: z) b = Ret p).
Proof.
  intros Hb p. unfold kInt64Min, kInt64Max, kUInt64Max.
  split; intros Hv; (destruct (read_write b v Hb) as [Ht Er]; [unfold kUInt64Max; lia|]); (destruct (conversions_read b _ z ltac:(lia) Ht) as [E1 E2]).
  - rewrite E1, Er. unfold signed, saturate, kInt64Min, kInt64Max. cbn [negative value endptr error]. assert (Ev : (if v <? 0 then - Z.abs v else Z.abs v) = v) by (case_test; lia).
    rewrite Ev, (proj2 (Z.eqb_neq _ _)) by lia. replace (Z.max _ _) with v by lia. by rewrite Z.eqb_refl.
  - rewrite E2, Er. unfold signed. cbn [negative value endptr error]. rewrite (proj2 (Z.ltb_ge v 0)) by lia. rewrite Z.abs_eq, Z.mod_small by lia.
    unfold p. by rewrite (proj2 (Z.ltb_ge v 0)) by lia.
Qed.

Definition never (r : run (option Z)) : Prop := forall n, r <> Ret (Some n).
Lemma never_bind {A : Type} (m : run A) (k : A -> run (option Z)) : (forall x, never (k x)) -> never (run_bind m k).
Proof. intros H. destruct m; cbn; [apply H|done..]. Qed.

(** No number is ever accepted: the test for what follows it is made before it is read. *)
Theorem string_to_number_rejects (m : list Z) (base min max n : Z) :
  ascii_string_to_signed m base min max <> Ret (Some n) /\ ascii_string_to_unsigned m base min max <> Ret (Some n).
Proof.
  split; revert n; unfold ascii_string_to_signed, ascii_string_to_unsigned; apply never_bind; intros c.
  - destruct (if base =? 16 then _ else _) as [hex| | |]; cbn [run_bind]; try done. destruct (c =? 0); [done|]. apply never_bind. intros p. by rewrite orb_true_r.
  - apply never_bind. intros s. destruct (if base =? 16 then _ else _) as [hex| | |]; cbn [run_bind]; try done.
    destruct (c =? 0); [done|]. apply never_bind. intros p. by rewrite orb_true_r.
Qed.

(** ** Comparisons *)
Fixpoint order (l1 l2 : list Z) : comparison :=
  match l1, l2 with
  | [], [] => Eq
  | [], _ :: _ => Lt
  | _ :: _, [] => Gt
  | x :: l1, y :: l2 => match x ?= y with Eq => order l1 l2 | c => c end
  end.

Lemma order_eq (l1 l2 : list Z) : order l1 l2 = Eq <-> l1 = l2.
Proof.
  revert l2. induction l1 as [|x l1 IH]; intros [|y l2]; cbn; try done. destruct (x ?= y) eqn:E.
  - apply Z.compare_eq in E as ->. rewrite IH. split; [by intros ->|by intros [= ->]].
  - split; [done|]. intros [= -> _]. by rewrite Z.compare_refl in E.
  - split; [done|]. intros [= -> _]. by rewrite Z.compare_refl in E.
Qed.

Lemma compare_diff (a b : Z) : (a - b ?= 0) = (a ?= b).
Proof. destruct (Z.compare_spec (a - b) 0), (Z.compare_spec a b); done || lia. Qed.

Lemma strcasecmp_spec (l1 l2 z1 z2 : list Z) : text l1 -> text l2 ->
  exists d, ascii_strcasecmp (l1 ++ 0 :: z1) (l2 ++ 0 :: z2) = Ret d /\ (d ?= 0) = order (TOLOWER <$> l1) (TOLOWER <$> l2).
Proof.
  intros H1. revert l2. induction H1 as [|c1 l1 Hc1 H1 IH]; intros l2 H2; destruct H2 as [|c2 l2 Hc2 H2]; cbn.
  - by exists 0.
  - exists (- c2). split; [done|]. apply Z.compare_lt_iff. lia.
  - rewrite (proj2 (Z.eqb_neq c1 0)) by lia. cbn. exists (c1 - 0). split; [done|]. apply Z.compare_gt_iff. lia.
  - rewrite (proj2 (Z.eqb_neq c1 0)), (proj2 (Z.eqb_neq c2 0)) by lia. cbn [negb andb].
    destruct (TOLOWER c1 =? TOLOWER c2) eqn:E; zbool; cbn [negb]; [rewrite E, Z.compare_refl; by apply IH|].
    eexists. split; [done|]. rewrite compare_diff. destruct (TOLOWER c1 ?= TOLOWER c2) eqn:E2; [|done|done]. by apply Z.compare_eq in E2.
Qed.

(** The bounded comparison is the other one, on the first characters. *)
Lemma strncasecmp_take (l1 l2 z1 z2 : list Z) (n : nat) : text l1 -> text l2 ->
  ascii_strncasecmp (l1 ++ 0 :: z1) (l2 ++ 0 :: z2) n = ascii_strcasecmp (take n l1 ++ [0]) (take n l2 ++ [0]).
Proof.
  intros H1. revert n l2. induction H1 as [|c1 l1 Hc1 H1 IH]; intros [|n] l2 H2; try done; destruct H2 as [|c2 l2 Hc2 H2]; try done.
  - cbn. by rewrite andb_false_r.
  - cbn. by rewrite IH.
Qed.

(** The comparisons have the sign of the order of the lower-case texts, so they are zero for
    the same text in any case; the bounded one compares the first [n] characters. *)
Theorem strcasecmp_correct (l1 l2 z1 z2 : list Z) (n : nat) : text l1 -> text l2 ->
  (exists d, ascii_strcasecmp (l1 ++ 0 :: z1) (l2 ++ 0 :: z2) = Ret d /\ (d ?= 0) = order (TOLOWER <$> l1) (TOLOWER <$> l2) /\
    (d = 0 <-> TOLOWER <$> l1 = TOLOWER <$> l2)) /\
  (exists d, ascii_strncasecmp (l1 ++ 0 :: z1) (l2 ++ 0 :: z2) n = Ret d /\ (d ?= 0) = order (TOLOWER <$> take n l1) (TOLOWER <$> take n l2)).
Proof.
  intros H1 H2. split.
  - destruct (strcasecmp_spec l1 l2 z1 z2 H1 H2) as (d & Hd & Ho). exists d. split_and!; [done|done|].
    rewrite <- order_eq, <- Ho. symmetry. apply Z.compare_eq_iff.
  - rewrite strncasecmp_take by done. apply strcasecmp_spec; by apply Forall_take.
Qed.

(** ** Conversions *)
Lemma strlen_spec (l z : list Z) : text l -> strlen (l ++ 0 :: z) = Ret (length l).
Proof. induction 1 as [|c l Hc H IH]; [done|]. cbn. rewrite (proj2 (Z.eqb_neq c 0)) by lia. by rewrite IH. Qed.

Lemma convert_spec (f : Z -> Z) (l z : list Z) : text l -> convert f (l ++ 0 :: z) = Ret ((f <$> l) ++ 0 :: z).
Proof. induction 1 as [|c l Hc H IH]; [done|]. cbn. rewrite (proj2 (Z.eqb_neq c 0)) by lia. by rewrite IH. Qed.

(** The copies have the first [len] characters of the text, all of them when [len] is
    negative, in one case, and zeros up to the end of the block. *)
Theorem case_conversion_correct (l z : list Z) (len : Z) : text l ->
  let n := if len <? 0 then length l else Z.to_nat len in
  let zeros := replicate (S n - length (take n l)) 0 in
  ascii_strlwr (l ++ 0 :: z) len = Ret ((TOLOWER <$> take n l) ++ zeros) /\ ascii_strupr (l ++ 0 :: z) len = Ret ((TOUPPER <$> take n l) ++ zeros).
Proof.
  intros H n zeros. assert (Hlen : (if len <? 0 then strlen (l ++ 0 :: z) else Ret (Z.to_nat len)) = Ret n).
  { subst n. destruct (len <? 0); [by apply strlen_spec|done]. }
  assert (Ez : zeros = 0 :: replicate (n - length (take n l)) 0).
  { subst zeros. rewrite length_take. by replace (S n - n `min` length l)%nat with (S (n - n `min` length l)) by lia. }
  assert (Hdup : strndup (l ++ 0 :: z) n = Ret (take n l ++ zeros)).
  { unfold strndup. rewrite strlen_spec by done. cbn [run_bind]. subst zeros. rewrite length_take. f_equal. f_equal; [|f_equal; lia].
    rewrite take_app_le by lia. rewrite Nat.min_comm. destruct (decide (n <= length l)%nat); [by rewrite Nat.min_l|]. rewrite Nat.min_r by lia. by rewrite !take_ge by lia. }
  assert (Hf : forall f g : Z -> Z, (forall c, uchar c -> f c = g c) -> (f <$> take n l) = (g <$> take n l)).
  { intros f g Hfg. apply list_fmap_ext. intros i c Hc. apply Hfg. unfold uchar. assert (0 < c < 256); [|lia].
    apply (proj1 (Forall_lookup _ _) (Forall_take _ n _ H) i c Hc). }
  unfold ascii_strlwr, ascii_strupr. rewrite Hlen. cbn [run_bind]. rewrite Hdup. cbn [run_bind]. rewrite Ez. rewrite !convert_spec by by apply Forall_take.
  rewrite (Hf ascii_tolower TOLOWER), (Hf ascii_toupper TOUPPER); [done|..]; intros c Hc; by apply ascii_classes_correct.
Qed.

(** ** Instances *)
Definition padded : list Z := chars " -0x1fz"%string.
Definition least : list Z := chars "-9223372036854775808"%string.

Lemma ascii_classes_correct_witness : ascii_isdigit 65 = false /\ ascii_tolower 65 = TOLOWER 65.
Proof. destruct (ascii_classes_correct 65 ltac:(split; done)) as (H & _ & _ & _ & _ & _ & _ & _ & _ & _ & _ & Hl & _). by split. Defined.

Lemma parse_correct_witness : text padded /\ parse_long_long (padded ++ [0]) 0 = Ret (mkParsed 31 6 true None).
Proof.
  assert (H : text padded) by (repeat constructor). split; [exact H|]. rewrite (parse_correct 0 padded [] ltac:(lia) H). by vm_compute.
Defined.

(** The least value is refused, its neighbours are not; what does not fit is cut, or wraps. *)
Definition too_large : list Z := chars "18446744073709551616"%string.

(** An overflow of the unsigned conversion is not reported in [errno]. *)
Example unsigned_overflow_is_silent : ascii_strtoull (chars "18446744073709551616"%string ++ [0]) 10 = Ret (mkParsed kUInt64Max 20 false None).
Proof. by vm_compute. Qed.

Lemma write_read_roundtrip_witness : ascii_strtoll (write 36 (-1295) ++ [0]) 36 = Ret (mkParsed (-1295) 3 true None) /\ write 36 (-1295) = chars "-zz"%string.
Proof.
  split; [|by vm_compute]. refine (eq_trans (proj1 (write_read_roundtrip 36 (-1295) [] ltac:(lia)) _) _); [by vm_compute|by vm_compute].
Defined.

Lemma strcasecmp_correct_witness : exists d, ascii_strcasecmp (chars "Content"%string ++ [0]) (chars "cONTENT"%string ++ [0]) = Ret d /\ d = 0.
Proof.
  destruct (strcasecmp_correct (chars "Content"%string) (chars "cONTENT"%string) [] [] 3) as [(d & Hd & _ & H0) _]; [by repeat constructor..|].
  exists d. split; [exact Hd|]. apply H0. by vm_compute.
Defined.

Lemma case_conversion_correct_witness : ascii_strlwr (chars "GeT"%string ++ [0]) 5 = Ret (chars "get"%string ++ [0; 0; 0]).
Proof. refine (eq_trans (proj1 (case_conversion_correct (chars "GeT"%string) [] 5 _)) _); [by repeat constructor|by vm_compute]. Defined.
