(* ===== verification/RefCount.v ===== *)
(** * Reference counts

    Models [src/cxxkit/memory/ref_count.hpp], [ref_counted_object.hpp] and
    [shared_ref_ptr.hpp]: objects with an intrusive 32-bit count on a heap, and the smart
    pointers that own references to them. What the destructor of an object does is a
    parameter. Shows that the count of an object is the number of its owners, so that
    objects are destroyed when, and only when, the last owner lets go. *)

From stdpp Require Import prelude list gmap.
From Stdlib Require Import ZArith Lia.
From S2P Require Import Prelude CxxInt.

#[local] Open Scope Z_scope.
#[local] Open Scope cxx_scope.

(** ** [detail::RefCounter]: an [std::atomic<int>], whose arithmetic wraps *)
Inductive RefCountReleaseStatus := kDroppedLastRef | kOtherRefsRemained.

Definition inc_ref (mRefCount : Z) : Z := to_signed 32 (mRefCount + 1).

(** [fetch_sub] wraps, the subtraction from the value it returns may not. *)
Definition dec_ref (mRefCount : Z) : run (Z * RefCountReleaseStatus) :=
  if mRefCount =? - 2 ^ 31 then Undef
  else
    let ref_count_after_subtract := mRefCount - 1 in
    Ret (to_signed 32 (mRefCount - 1), if ref_count_after_subtract =? 0 then kDroppedLastRef else kOtherRefsRemained).
Definition one_ref (mRefCount : Z) : bool := mRefCount =? 1.

Definition loc := positive.
Definition handle := positive.

Section RefCounted.
Context {T M : Type} (destructor : loc -> T -> M -> run M).

(** ** [FinalRefCountedObject<T>]: the heap of objects, and what their destructors act on *)
Record object := mkObject { mRefCount : Z; value : T }.
Record heap := mkHeap { objects : gmap loc object; next_loc : loc; world : M }.

Definition with_objects (h : heap) x := mkHeap x (next_loc h) (world h).
Definition with_world (h : heap) x := mkHeap (objects h) (next_loc h) x.

(** [new FinalRefCountedObject<T>(v)] *)
Definition new_object (h : heap) (v : T) : heap * loc :=
  (mkHeap (<[next_loc h := mkObject 0 v]> (objects h)) (Pos.succ (next_loc h)) (world h), next_loc h).

Definition add_ref (h : heap) (l : loc) : run heap :=
  do o <- deref (objects h !! l);
  Ret (with_objects h (<[l := mkObject (inc_ref (mRefCount o)) (value o)]> (objects h))).

Definition release (h : heap) (l : loc) : run (heap * RefCountReleaseStatus) :=
  do o <- deref (objects h !! l);
  do (c, status) <- dec_ref (mRefCount o);
  match status with
  | kDroppedLastRef =>
      do m <- destructor l (value o) (world h);
      Ret (mkHeap (delete l (objects h)) (next_loc h) m, status)
  | kOtherRefsRemained => Ret (with_objects h (<[l := mkObject c (value o)]> (objects h)), status)
  end.

Definition has_one_ref (h : heap) (l : loc) : run bool := do o <- deref (objects h !! l); Ret (one_ref (mRefCount o)).

(** The object behind a pointer *)
Definition value_at (h : heap) (l : loc) : run T := do o <- deref (objects h !! l); Ret (value o).
Definition set_value (h : heap) (l : loc) (v : T) : run heap :=
  do o <- deref (objects h !! l);
  Ret (with_objects h (<[l := mkObject (mRefCount o) v]> (objects h))).

(** ** [SharedRefPtr<T>]: the raw pointer it holds *)
Definition SharedRefPtr := option loc.

Definition construct (h : heap) (p : option loc) : run (heap * SharedRefPtr) :=
  match p with
  | None => Ret (h, None)
  | Some l => do h <- add_ref h l; Ret (h, Some l)
  end.
Definition copy_construct (h : heap) (other : SharedRefPtr) : run (heap * SharedRefPtr) := construct h other.

(** [release()]: the pointer, and what is left in the smart pointer *)
Definition relinquish (this : SharedRefPtr) : option loc * SharedRefPtr := (this, None).

(** The new pointer and what is left in [other] *)
Definition move_construct (other : SharedRefPtr) : SharedRefPtr * SharedRefPtr := relinquish other.

Definition destroy (h : heap) (this : SharedRefPtr) : run heap :=
  match this with None => Ret h | Some l => do (h, _) <- release h l; Ret h end.

Definition assign_raw (h : heap) (this : SharedRefPtr) (p : option loc) : run (heap * SharedRefPtr) :=
  do h <- (match p with Some l => add_ref h l | None => Ret h end);
  do h <- (match this with Some l => do (h, _) <- release h l; Ret h | None => Ret h end);
  Ret (h, p).
Definition copy_assign (h : heap) (this other : SharedRefPtr) : run (heap * SharedRefPtr) := assign_raw h this other.
Definition swap (this other : SharedRefPtr) : SharedRefPtr * SharedRefPtr := (other, this).

(** A temporary takes the pointer of [other], is swapped with [this] and destroyed. *)
Definition move_assign (h : heap) (this other : SharedRefPtr) : run (heap * SharedRefPtr * SharedRefPtr) :=
  let (tmp, other) := move_construct other in
  let (tmp, this) := swap tmp this in
  do h <- destroy h tmp;
  Ret (h, this, other).

(** ** Owners

    [refs l] owners of the object at [l], at most as many as the count can hold. *)
Definition owner (p : option loc) (l : loc) : Z := if bool_decide (p = Some l) then 1 else 0.

Record counted (h : heap) (refs : loc -> Z) : Prop := {
  cnt_exact : forall l o, objects h !! l = Some o -> mRefCount o = refs l /\ 0 < refs l < 2 ^ 31;
  cnt_alive : forall l, refs l <> 0 -> is_Some (objects h !! l);
  cnt_next : forall l, is_Some (objects h !! l) -> (l < next_loc h)%positive
}.

Lemma owners_ext (h : heap) (refs refs' : loc -> Z) : (forall l, refs' l = refs l) -> counted h refs -> counted h refs'.
Proof.
  intros He [H1 H2 H3]. split; [| |done].
  - intros l o. rewrite He. apply H1.
  - intros l. rewrite He. apply H2.
Qed.

Lemma owner_same (l : loc) : owner (Some l) l = 1.
Proof. unfold owner. by rewrite bool_decide_true. Qed.
Lemma owner_other (p : option loc) (l : loc) : p <> Some l -> owner p l = 0.
Proof. intros H. unfold owner. by rewrite bool_decide_false. Qed.
Lemma owner_range (p : option loc) (l : loc) : 0 <= owner p l <= 1.
Proof. unfold owner. case_bool_decide; lia. Qed.

(** ** Steps on the count *)
Lemma inc_ref_spec (n : Z) : 0 <= n -> n + 1 < 2 ^ 31 -> inc_ref n = n + 1.
Proof. intros. apply to_signed_id; [|split]; lia. Qed.

Lemma dec_ref_spec (n : Z) : 0 < n < 2 ^ 31 ->
  dec_ref n = Ret (n - 1, if n =? 1 then kDroppedLastRef else kOtherRefsRemained).
Proof.
  intros Hn. unfold dec_ref. rewrite (proj2 (Z.eqb_neq _ _)) by lia. rewrite to_signed_id by (split || idtac; lia).
  do 2 f_equal. destruct (n =? 1) eqn:E; zbool; [by subst|]. by rewrite (proj2 (Z.eqb_neq _ _)) by lia.
Qed.

Lemma new_object_spec (h : heap) (refs : loc -> Z) (v : T) :
  counted h refs -> 
  exists h', add_ref (new_object h v).1 (new_object h v).2 = Ret h' /\
    counted h' (fun l => refs l + owner (Some (next_loc h)) l) /\ world h' = world h /\
    objects h' = <[next_loc h := mkObject 1 v]> (objects h) /\ objects h !! next_loc h = None /\ next_loc h' = Pos.succ (next_loc h).
Proof.
  intros Hc. assert (Hf : objects h !! next_loc h = None).
  { apply eq_None_not_Some. intros Hs%(cnt_next _ _ Hc). lia. }
  assert (Hz : refs (next_loc h) = 0).
  { destruct (decide (refs (next_loc h) = 0)) as [|Hn]; [done|]. destruct (cnt_alive _ _ Hc _ Hn) as [? E]. congruence. }
  unfold add_ref. cbn. rewrite lookup_insert_eq. cbn. rewrite insert_insert_eq. change (inc_ref 0) with 1.
  eexists. split; [reflexivity|]. split_and!; [|done|done|done|done]. destruct Hc as [H1 H2 H3]. split; cbn.
  - intros l o. destruct (decide (l = next_loc h)) as [->|Hne].
    + rewrite lookup_insert_eq. intros [= <-]. rewrite Hz, owner_same. cbn. lia.
    + rewrite lookup_insert_ne by done. rewrite owner_other by congruence. rewrite Z.add_0_r. apply H1.
  - intros l Hl. apply lookup_insert_is_Some'. destruct (decide (next_loc h = l)) as [|Hne]; [by left|right].
    apply H2. rewrite owner_other in Hl by congruence. lia.
  - intros l. rewrite lookup_insert_is_Some'. intros [<-|Hl]; [lia|]. specialize (H3 l Hl). lia.
Qed.

Lemma add_ref_object_spec (h : heap) (refs : loc -> Z) (l : loc) :
  counted h refs -> is_Some (objects h !! l) -> refs l + 1 < 2 ^ 31 ->
  exists h', add_ref h l = Ret h' /\ counted h' (fun k => refs k + owner (Some l) k) /\ world h' = world h /\ next_loc h' = next_loc h /\
    value <$> objects h' = value <$> objects h.
Proof.
  intros Hc [o Ho] Hb. unfold add_ref. rewrite Ho. cbn [deref run_bind].
  destruct (cnt_exact _ _ Hc l o Ho) as [E Hr]. rewrite E, inc_ref_spec by lia.
  eexists. split; [reflexivity|]. split_and!; [|done|done|].
  - destruct Hc as [H1 H2 H3]. split; cbn.
    + intros k x. destruct (decide (k = l)) as [->|Hne].
      * rewrite lookup_insert_eq, owner_same. intros [= <-]. cbn. lia.
      * rewrite lookup_insert_ne, owner_other by congruence. rewrite Z.add_0_r. apply H1.
    + intros k Hk. apply lookup_insert_is_Some'. destruct (decide (l = k)) as [|Hne]; [by left|right].
      apply H2. rewrite owner_other in Hk by congruence. lia.
    + intros k. rewrite lookup_insert_is_Some'. intros [<-|Hk]; apply H3; eauto.
  - cbn. rewrite fmap_insert. cbn. apply insert_id. by rewrite lookup_fmap, Ho.
Qed.

(** One owner less: the object stays with its value, or it was the last one and the
    destructor has run. *)
Lemma release_object_spec (h : heap) (refs : loc -> Z) (l : loc) (o : object) :
  counted h (fun k => refs k + owner (Some l) k) -> (forall k, 0 <= refs k) -> objects h !! l = Some o ->
  (refs l = 0 -> exists m, destructor l (value o) (world h) = Ret m) ->
  exists h' status, release h l = Ret (h', status) /\ counted h' refs /\ next_loc h' = next_loc h /\
    ((refs l = 0 /\ status = kDroppedLastRef /\ objects h' = delete l (objects h) /\ destructor l (value o) (world h) = Ret (world h')) \/
     (refs l <> 0 /\ status = kOtherRefsRemained /\ value <$> objects h' = value <$> objects h /\ world h' = world h)).
Proof.
  intros Hc Hpos Ho Hd. unfold release. rewrite Ho. cbn [deref run_bind].
  destruct (cnt_exact _ _ Hc l o Ho) as [E Hr]. rewrite owner_same in *. rewrite E, dec_ref_spec by lia. cbn [run_bind].
  destruct Hc as [H1 H2 H3]. destruct (refs l + 1 =? 1) eqn:E1; zbool.
  - destruct Hd as [m Hm]; [lia|]. rewrite Hm. cbn [run_bind]. eexists _, _. split; [reflexivity|]. split_and!; [|done|left; split_and!; (done || lia)].
    split; cbn.
    + intros k x [Hne Hk]%lookup_delete_Some. specialize (H1 k x Hk). rewrite owner_other in H1 by congruence. lia.
    + intros k Hk. destruct (decide (k = l)) as [->|Hne]; [lia|]. rewrite lookup_delete_ne by done. apply H2.
      rewrite owner_other by congruence. lia.
    + intros k [x [_ Hk]%lookup_delete_Some]. apply H3. eauto.
  - eexists _, _. split; [reflexivity|]. split_and!; [|done|right; split_and!; [lia|done| |done]].
    + split; cbn.
      * intros k x. destruct (decide (k = l)) as [->|Hne]; [rewrite lookup_insert_eq; intros [= <-]; cbn; lia|].
        rewrite lookup_insert_ne by done. intros Hk. specialize (H1 k x Hk). rewrite owner_other in H1 by congruence. lia.
      * intros k Hk. apply lookup_insert_is_Some'. destruct (decide (l = k)) as [|Hne]; [by left|right]. apply H2.
        rewrite owner_other by congruence. lia.
      * intros k. rewrite lookup_insert_is_Some'. intros [<-|Hk]; apply H3; eauto.
    + cbn. rewrite fmap_insert. cbn. apply insert_id. by rewrite lookup_fmap, Ho.
Qed.
End RefCounted.
