(* ===== verification/Memory.v ===== *)
(** * Blocks of memory

    What the language and the C library give to code that manages its own arrays: blocks
    made by [new T[n]] and released by [delete[]], pointers into them, [memcpy] and the
    zeroing of [src/cxxkit/memory/zero_memory.cpp]. A cell holds an element or nothing yet.
    The contents of released blocks and the number of cells copied are kept as a record of
    what happened; no operation reads them. *)

From stdpp Require Import prelude list gmap.
From Stdlib Require Import ZArith Lia.
From S2P Require Import Prelude.

#[local] Open Scope Z_scope.
#[local] Open Scope cxx_scope.

Definition cell := option Z.
Definition block := positive.

(** A pointer: null, or a block and an offset *)
Definition pointer := option (block * Z).
Definition begin_of (b : option block) : pointer := (fun d => (d, 0)) <$> b.
Definition advance (p : pointer) (n : Z) : pointer := (fun '(d, o) => (d, o + n)) <$> p.

Record memory := mkMemory {
  blocks : gmap block (list cell);
  next_block : block;
  released : list (list cell);
  copied : Z
}.
Definition with_blocks (m : memory) x := mkMemory x (next_block m) (released m) (copied m).

(** [new T[n]]: cells without contents; a request above [limit] throws [std::bad_alloc],
    which nothing here catches. *)
Definition alloc (limit : Z) (m : memory) (n : Z) : run (memory * block) :=
  if n <=? limit then
    Ret (mkMemory (<[next_block m := replicate (Z.to_nat n) None]> (blocks m)) (Pos.succ (next_block m)) (released m) (copied m),
         next_block m)
  else Fatal.

Definition free (m : memory) (d : block) : run memory :=
  do cs <- deref (blocks m !! d);
  Ret (mkMemory (delete d (blocks m)) (next_block m) (cs :: released m) (copied m)).

(** [n] cells from [p] *)
Definition load (m : memory) (p : pointer) (n : Z) : run (list cell) :=
  do (d, o) <- deref p;
  do cs <- deref (blocks m !! d);
  if (0 <=? o) && (o + n <=? Z.of_nat (length cs)) then Ret (take (Z.to_nat n) (drop (Z.to_nat o) cs)) else Undef.

(** [xs] over the cells from offset [o] *)
Definition overwrite (o : nat) (xs cs : list cell) : list cell := take o cs ++ xs ++ drop (o + length xs) cs.

Definition store_cells (m : memory) (p : pointer) (xs : list cell) : run memory :=
  do (d, o) <- deref p;
  do cs <- deref (blocks m !! d);
  if (0 <=? o) && (o + Z.of_nat (length xs) <=? Z.of_nat (length cs))
  then Ret (with_blocks m (<[d := overwrite (Z.to_nat o) xs cs]> (blocks m))) else Undef.

(** The elements in cells that all have one *)
Fixpoint contents (xs : list cell) : run (list Z) :=
  match xs with
  | [] => Ret []
  | c :: xs => do x <- deref c; do l <- contents xs; Ret (x :: l)
  end.

(** [memcpy]: the ranges may not overlap. *)
Definition overlap (p q : pointer) (n : Z) : bool :=
  match p, q with
  | Some (d, o), Some (d', o') => bool_decide (d = d') && (o <? o' + n) && (o' <? o + n)
  | _, _ => false
  end.
Definition memcpy (m : memory) (dst src : pointer) (n : Z) : run memory :=
  do xs <- load m src n;
  if overlap dst src n then Undef
  else
    do m <- store_cells m dst xs;
    Ret (mkMemory (blocks m) (next_block m) (released m) (copied m + n)).

Definition explicit_zero_memory (m : memory) (p : pointer) (len : Z) : run memory :=
  do _ <- check (negb (bool_decide (p = None)) || (len =? 0));
  if len =? 0 then Ret m else store_cells m p (replicate (Z.to_nat len) (Some 0 : cell)).

(** ** Facts *)
Definition memory_ok (m : memory) : Prop := forall d, is_Some (blocks m !! d) -> (d < next_block m)%positive.

Lemma fresh_block (m : memory) : memory_ok m -> blocks m !! next_block m = None.
Proof. intros Hm. apply eq_None_not_Some. intros H%Hm. lia. Qed.

Lemma overwrite_length (o : nat) (xs cs : list cell) : (o + length xs <= length cs)%nat -> length (overwrite o xs cs) = length cs.
Proof. intros H. unfold overwrite. rewrite !length_app, length_take, length_drop. lia. Qed.

(** Over the cells after [l] *)
Lemma overwrite_end (l xs spare : list cell) : (length xs <= length spare)%nat ->
  overwrite (length l) xs (l ++ spare) = (l ++ xs) ++ drop (length xs) spare.
Proof.
  intros H. unfold overwrite. rewrite take_app_length, drop_app_add by lia. by rewrite <- app_assoc.
Qed.

Lemma load_block_spec (m : memory) (d : block) (cs : list cell) (o n : Z) :
  blocks m !! d = Some cs -> 0 <= o -> o + n <= Z.of_nat (length cs) ->
  load m (Some (d, o)) n = Ret (take (Z.to_nat n) (drop (Z.to_nat o) cs)).
Proof.
  intros Hd Ho Hn. unfold load. cbn [deref run_bind]. rewrite Hd. cbn [deref run_bind].
  by rewrite (proj2 (Z.leb_le 0 o)), (proj2 (Z.leb_le (o + n) _)) by lia.
Qed.

Lemma store_cells_spec (m : memory) (d : block) (cs xs : list cell) (o : Z) :
  blocks m !! d = Some cs -> 0 <= o -> o + Z.of_nat (length xs) <= Z.of_nat (length cs) ->
  store_cells m (Some (d, o)) xs = Ret (with_blocks m (<[d := overwrite (Z.to_nat o) xs cs]> (blocks m))).
Proof.
  intros Hd Ho Hn. unfold store_cells. cbn [deref run_bind]. rewrite Hd. cbn [deref run_bind].
  by rewrite (proj2 (Z.leb_le 0 o)), (proj2 (Z.leb_le (o + _) _)) by lia.
Qed.

(** Copying from another block *)
Lemma memcpy_spec (m : memory) (d q : block) (cs ds : list cell) (o p n : Z) :
  d <> q -> blocks m !! d = Some cs -> blocks m !! q = Some ds -> 0 <= n -> 0 <= o -> 0 <= p ->
  o + n <= Z.of_nat (length cs) -> p + n <= Z.of_nat (length ds) ->
  memcpy m (Some (d, o)) (Some (q, p)) n =
    Ret (mkMemory (<[d := overwrite (Z.to_nat o) (take (Z.to_nat n) (drop (Z.to_nat p) ds)) cs]> (blocks m))
      (next_block m) (released m) (copied m + n)).
Proof.
  intros Hne Hd Hq Hn Ho Hp Hon Hpn. unfold memcpy. rewrite (load_block_spec m q ds) by done. cbn [run_bind].
  unfold overlap. rewrite bool_decide_false by done. cbn [andb].
  rewrite (store_cells_spec m d cs); [done|done|done|]. rewrite length_take, length_drop. lia.
Qed.
