(* ===== verification/Buffer.v ===== *)
(** * Growable buffers

    Models [BufferT<T, ZeroOnFree>] of [src/cxxkit/tools/buffer.hpp] over [Memory]: the
    size, the capacity and the owned array; sizes are [size_t]. Copies from a caller's
    array take a pointer, so that a source inside the buffer itself can be told apart. *)

From stdpp Require Import prelude list gmap.
From Stdlib Require Import ZArith Lia.
From S2P Require Import Prelude Memory.

#[local] Open Scope Z_scope.
#[local] Open Scope cxx_scope.

Record BufferT := mkBuffer { mSize : Z; mCapacity : Z; mData : option block }.
Definition with_size (b : BufferT) x := mkBuffer x (mCapacity b) (mData b).

Definition is_consistent (b : BufferT) : bool :=
  (negb (bool_decide (mData b = None)) || (mCapacity b =? 0)) && (mSize b <=? mCapacity b).

Section Buffer.

(** The longest array that can be made, and the template argument *)
Context (limit : Z) (ZeroOnFree : bool).

(** ** Construction and destruction *)
Definition new_buffer : run BufferT :=
  let b := mkBuffer 0 0 None in
  do _ <- check (is_consistent b); Ret b.

Definition new_buffer_sized (m : memory) (size capacity : Z) : run (memory * BufferT) :=
  let cap := Z.max size capacity in
  do (m, d) <- (if 0 <? cap then do (m, d) <- alloc limit m cap; Ret (m, Some d) else Ret (m, None));
  let b := mkBuffer size cap d in
  do _ <- check (is_consistent b); Ret (m, b).

Definition new_buffer_data (m : memory) (data : pointer) (size capacity : Z) : run (memory * BufferT) :=
  do (m, b) <- new_buffer_sized m size capacity;
  if 0 <? size then
    do _ <- check (negb (bool_decide (data = None)));
    do m <- memcpy m (begin_of (mData b)) data size;
    Ret (m, b)
  else Ret (m, b).

Definition maybe_zero_complete_buffer (m : memory) (b : BufferT) : run memory :=
  if ZeroOnFree && (0 <? mCapacity b) then explicit_zero_memory m (begin_of (mData b)) (mCapacity b) else Ret m.

(** [std::unique_ptr<T[]>] lets go of an array. *)
Definition free_array (m : memory) (d : option block) : run memory :=
  match d with Some d => free m d | None => Ret m end.

Definition destroy (m : memory) (b : BufferT) : run memory :=
  do m <- maybe_zero_complete_buffer m b;
  free_array m (mData b).

(** The state a moved-from buffer is left in, on purpose not consistent *)
Definition on_moved_from (b : BufferT) : run BufferT :=
  do _ <- check (bool_decide (mData b = None)); Ret (mkBuffer 1 0 (mData b)).

Definition move_construct (buf : BufferT) : run (BufferT * BufferT) :=
  do _ <- check (is_consistent buf);
  let this := buf in
  do buf <- on_moved_from (mkBuffer (mSize buf) (mCapacity buf) None);
  Ret (this, buf).

(** Move assignment between two buffers: the arrays are swapped, then the one of [buf] is
    released. *)
Definition move_assign (m : memory) (this buf : BufferT) : run (memory * BufferT * BufferT) :=
  do _ <- check (is_consistent buf);
  do m <- maybe_zero_complete_buffer m this;
  let new_this := mkBuffer (mSize buf) (mCapacity buf) (mData buf) in
  do m <- free_array m (mData this);
  do buf <- on_moved_from (mkBuffer (mSize buf) (mCapacity buf) None);
  Ret (m, new_this, buf).

Definition swap (a b : BufferT) : BufferT * BufferT := (b, a).

(** ** Reading *)
Definition data (b : BufferT) : run pointer := do _ <- check (is_consistent b); Ret (begin_of (mData b)).
Definition empty (b : BufferT) : run bool := do _ <- check (is_consistent b); Ret (mSize b =? 0).
Definition size (b : BufferT) : run Z := do _ <- check (is_consistent b); Ret (mSize b).
Definition capacity (b : BufferT) : run Z := do _ <- check (is_consistent b); Ret (mCapacity b).

Definition get (m : memory) (b : BufferT) (index : Z) : run Z :=
  do _ <- check (index <? mSize b);
  do p <- data b;
  do xs <- load m (advance p index) 1;
  do l <- contents xs;
  deref (head l).
Definition set (m : memory) (b : BufferT) (index x : Z) : run memory :=
  do _ <- check (index <? mSize b);
  do p <- data b;
  store_cells m (advance p index) [Some x].

(** Comparing no elements reads nothing. *)
Definition equals (m : memory) (a b : BufferT) : run bool :=
  do _ <- check (is_consistent a);
  if negb (mSize a =? mSize b) then Ret false
  else if mSize a =? 0 then Ret true
  else
    do xs <- load m (begin_of (mData a)) (mSize a);
    do ys <- load m (begin_of (mData b)) (mSize a);
    do xs <- contents xs;
    do ys <- contents ys;
    Ret (bool_decide (xs = ys)).

(** ** Growing *)
Definition zero_trailing_data (m : memory) (b : BufferT) (count : Z) : run memory :=
  do _ <- check (is_consistent b);
  do _ <- check (count <=? mCapacity b - mSize b);
  explicit_zero_memory m (advance (begin_of (mData b)) (mSize b)) count.

Definition ensure_capacity_with_headroom (m : memory) (b : BufferT) (capacity : Z) (extra_headroom : bool)
    : run (memory * BufferT) :=
  do _ <- check (is_consistent b);
  if capacity <=? mCapacity b then Ret (m, b)
  else
    let new_capacity := if extra_headroom then Z.max capacity (wrap 64 (mCapacity b + mCapacity b / 2)) else capacity in
    do (m, new_data) <- alloc limit m new_capacity;
    do m <- (match mData b with
             | Some d => memcpy m (Some (new_data, 0)) (Some (d, 0)) (mSize b)
             | None => Ret m
             end);
    do m <- maybe_zero_complete_buffer m b;
    do m <- free_array m (mData b);
    let b := mkBuffer (mSize b) new_capacity (Some new_data) in
    do _ <- check (is_consistent b); Ret (m, b).

Definition ensure_capacity (m : memory) (b : BufferT) (capacity : Z) : run (memory * BufferT) :=
  ensure_capacity_with_headroom m b capacity false.

(** The zeroing that follows a change of size *)
Definition zero_removed (m : memory) (b : BufferT) (old_size : Z) : run memory :=
  if ZeroOnFree && (mSize b <? old_size) then zero_trailing_data m b (old_size - mSize b) else Ret m.

Definition set_size (m : memory) (b : BufferT) (size : Z) : run (memory * BufferT) :=
  let old_size := mSize b in
  do (m, b) <- ensure_capacity_with_headroom m b size true;
  let b := with_size b size in
  do m <- zero_removed m b old_size; Ret (m, b).

Definition append_data (m : memory) (b : BufferT) (data : pointer) (size : Z) : run (memory * BufferT) :=
  if size =? 0 then Ret (m, b)
  else
    do _ <- check (negb (bool_decide (data = None)));
    do _ <- check (is_consistent b);
    let new_size := wrap 64 (mSize b + size) in
    do (m, b) <- ensure_capacity_with_headroom m b new_size true;
    do m <- memcpy m (advance (begin_of (mData b)) (mSize b)) data size;
    let b := with_size b new_size in
    do _ <- check (is_consistent b); Ret (m, b).

(** The caller's function writes into the view it is given and says how many elements. *)
Definition setter := list cell -> list cell * Z.

Definition append_data_with (m : memory) (b : BufferT) (max_elements : Z) (f : setter) : run (memory * BufferT * Z) :=
  do _ <- check (is_consistent b);
  let old_size := mSize b in
  do (m, b) <- set_size m b (wrap 64 (old_size + max_elements));
  do p <- data b;
  let base_ptr := advance p old_size in
  do (m, written) <-
    (if max_elements =? 0 then Ret (m, snd (f []))
     else
       do view <- load m base_ptr max_elements;
       let (view, written) := f view in
       do m <- store_cells m base_ptr view;
       Ret (m, written));
  do _ <- check (written <=? max_elements);
  let b := with_size b (wrap 64 (old_size + written)) in
  do _ <- check (is_consistent b); Ret (m, b, written).

Definition set_data (m : memory) (b : BufferT) (data : pointer) (size : Z) : run (memory * BufferT) :=
  do _ <- check (is_consistent b);
  let old_size := mSize b in
  do (m, b) <- append_data m (with_size b 0) data size;
  do m <- zero_removed m b old_size; Ret (m, b).

Definition set_data_with (m : memory) (b : BufferT) (max_elements : Z) (f : setter) : run (memory * BufferT * Z) :=
  do _ <- check (is_consistent b);
  let old_size := mSize b in
  do (m, b, written) <- append_data_with m (with_size b 0) max_elements f;
  do m <- zero_removed m b old_size; Ret (m, b, written).

Definition clear (m : memory) (b : BufferT) : run (memory * BufferT) :=
  do m <- maybe_zero_complete_buffer m b;
  let b := with_size b 0 in
  do _ <- check (is_consistent b); Ret (m, b).
End Buffer.
