(* ===== verification/BufferFacts.v ===== *)
(** * Growable buffers: correctness

    A buffer owns one block, whose first cells are its elements. Every operation of
    [Buffer] refines its counterpart on lists of cells and leaves the rest of memory alone;
    a buffer that zeroes on release never leaves an element behind; appending copies each
    element a bounded number of times. *)

From stdpp Require Import prelude list gmap.
From Stdlib Require Import ZArith Lia.
From S2P Require Import Prelude Memory Buffer.

#[local] Open Scope Z_scope.
#[local] Open Scope cxx_scope.

Section Facts.
Context (limit : Z) (ZeroOnFree : bool) (Hlimit : 0 < limit <= 2 ^ 62).

(** A cell that holds no element, or zero *)
Definition blank (c : cell) : Prop := c = None \/ c = Some 0.
Definition clean (cs : list cell) : Prop := ZeroOnFree = true -> Forall blank cs.

(** [m] is the rest [R] of memory and the block of [b], which holds [l] and then spare cells
    that are clean from the [k]-th on. *)
Record holds_with (k : nat) (m : memory) (b : BufferT) (l : list cell) (R : gmap block (list cell)) : Prop := {
  holds_memory : memory_ok m;
  holds_size : mSize b = Z.of_nat (length l);
  holds_capacity : mCapacity b <= limit;
  holds_data :
    match mData b with
    | None => mCapacity b = 0 /\ l = [] /\ blocks m = R
    | Some d => exists spare, R !! d = None /\ blocks m = <[d := l ++ spare]> R /\
        mCapacity b = Z.of_nat (length l + length spare) /\ clean (drop k spare)
    end
}.
Notation holds := (holds_with 0).

Lemma holds_consistent (k : nat) (m : memory) (b : BufferT) (l : list cell) (R : gmap block (list cell)) :
  holds_with k m b l R -> is_consistent b = true.
Proof.
  intros [_ Hs _ Hd]. unfold is_consistent. destruct (mData b) as [d|].
  - destruct Hd as (spare & _ & _ & Hc & _). rewrite bool_decide_false by done. cbn. apply Z.leb_le. lia.
  - destruct Hd as (Hc & -> & _). rewrite Hs, Hc. done.
Qed.

Lemma holds_range (k : nat) (m : memory) (b : BufferT) (l : list cell) (R : gmap block (list cell)) :
  holds_with k m b l R -> 0 <= mSize b <= mCapacity b.
Proof.
  intros [_ Hs _ Hd]. destruct (mData b); [destruct Hd as (spare & _ & _ & Hc & _); lia|].
  destruct Hd as (Hc & -> & _). cbn in *. lia.
Qed.

(** The elements, or fewer of them, with the cells after them blank *)
Lemma holds_resize (k : nat) (m : memory) (d : block) (cap : Z) (l spare : list cell) (R : gmap block (list cell)) :
  memory_ok m -> R !! d = None -> blocks m = <[d := l ++ spare]> R -> cap = Z.of_nat (length l + length spare) ->
  cap <= limit -> clean (drop k spare) -> holds_with k m (mkBuffer (Z.of_nat (length l)) cap (Some d)) l R.
Proof. intros. split; try done. cbn. by exists spare. Qed.

Lemma memory_ok_blocks (m m' : memory) (R : gmap block (list cell)) (d : block) (cs cs' : list cell) :
  memory_ok m -> blocks m = <[d := cs]> R -> blocks m' = <[d := cs']> R -> next_block m' = next_block m -> memory_ok m'.
Proof.
  intros Hm E E' En e. rewrite E', En, lookup_insert_is_Some'. intros H. apply Hm. by rewrite E, lookup_insert_is_Some'.
Qed.

Lemma clean_replicate (n : nat) (c : cell) : blank c -> clean (replicate n c).
Proof. intros Hc _. by apply Forall_replicate. Qed.

(** ** Zeroing *)
Lemma zero_spec (m : memory) (d : block) (pre post : list cell) (n : nat) (xs : list cell) :
  blocks m !! d = Some (pre ++ xs ++ post) -> length xs = n ->
  exists m', explicit_zero_memory m (Some (d, Z.of_nat (length pre))) (Z.of_nat n) = Ret m' /\
    blocks m' = <[d := pre ++ replicate n (Some 0 : cell) ++ post]> (blocks m) /\
    next_block m' = next_block m /\ released m' = released m /\ copied m' = copied m.
Proof.
  intros Hd Hn. unfold explicit_zero_memory. rewrite bool_decide_false by done. cbn [negb orb check run_bind].
  destruct (Z.of_nat n =? 0) eqn:E; zbool.
  - assert (n = 0%nat) as -> by lia. destruct xs; [|done]. exists m. split_and!; try done. cbn. by rewrite insert_id.
  - rewrite (store_cells_spec m d (pre ++ xs ++ post)); [|done|lia|rewrite length_replicate, !length_app; lia].
    eexists. split; [reflexivity|]. split_and!; [|done|done|done]. cbn. f_equal. rewrite Nat2Z.id, Nat2Z.id.
    rewrite overwrite_end by (rewrite length_replicate, length_app; lia).
    rewrite length_replicate, <- Hn, drop_app_length. by rewrite app_assoc.
Qed.

(** The complete block *)
Lemma maybe_zero_spec (k : nat) (m : memory) (b : BufferT) (l : list cell) (R : gmap block (list cell)) :
  holds_with k m b l R ->
  exists m', maybe_zero_complete_buffer ZeroOnFree m b = Ret m' /\
    match mData b with
    | Some d => exists cs, blocks m' = <[d := cs]> R /\ Z.of_nat (length cs) = mCapacity b /\ clean cs /\
        (ZeroOnFree = false -> blocks m' = blocks m)
    | None => blocks m' = R
    end /\ next_block m' = next_block m /\ released m' = released m /\ copied m' = copied m.
Proof.
  intros [Hm Hs Hc Hd]. unfold maybe_zero_complete_buffer. destruct (mData b) as [d|] eqn:Ed.
  2:{ destruct Hd as (Hc0 & -> & HR). rewrite Hc0, andb_false_r. exists m. split_and!; done. }
  destruct Hd as (spare & HRd & HB & Hcap & Hcl). destruct ZeroOnFree eqn:Ez; cbn [andb].
  2:{ exists m. split_and!; try done. exists (l ++ spare). rewrite length_app. split_and!; try done. intros Hz. congruence. }
  destruct (0 <? mCapacity b) eqn:E; zbool.
  - destruct (zero_spec m d [] [] (length (l ++ spare)) (l ++ spare)) as (m' & E' & HB' & Hn & Hr & Hcp).
    { rewrite HB, lookup_insert_eq, app_nil_r. done. } { done. }
    rewrite <- length_app in Hcap. change (Z.of_nat (length [])) with 0 in E'. rewrite <- Hcap in E'.
    change (begin_of (Some d)) with (Some (d, 0)). rewrite E'.
    exists m'. split_and!; try done. eexists. rewrite HB', HB, insert_insert_eq. split; [reflexivity|].
    cbn [app]. rewrite app_nil_r, length_replicate. split; [lia|]. split; [|congruence].
    intros _. apply Forall_replicate. by right.
  - exists m. split_and!; try done. exists (l ++ spare). rewrite length_app. split_and!; try done.
    destruct l, spare; cbn in *; try lia. intros _. constructor.
Qed.
(** What has been released so far held nothing but blank cells. *)
Definition tidy (m : memory) : Prop := Forall clean (released m).

(** The buffer lets go of its block. *)
Lemma free_array_spec (k : nat) (m : memory) (b : BufferT) (l : list cell) (R : gmap block (list cell)) :
  holds_with k m b l R -> tidy m ->
  exists m1 m2, maybe_zero_complete_buffer ZeroOnFree m b = Ret m1 /\ free_array m1 (mData b) = Ret m2 /\
    blocks m2 = R /\ next_block m2 = next_block m /\ copied m2 = copied m /\ tidy m2.
Proof.
  intros Hh Ht. destruct (maybe_zero_spec k m b l R Hh) as (m1 & E & Hd & Hn & Hr & Hc). exists m1.
  destruct Hh as [_ _ _ Hb]. destruct (mData b) as [d|]; cbn [free_array].
  - destruct Hd as (cs & HB & _ & Hcl & _), Hb as (_ & HRd & _). unfold free. rewrite HB, lookup_insert_eq. cbn [deref run_bind].
    eexists. split; [done|]. split; [reflexivity|]. cbn. split_and!; [|done|done|].
    + rewrite delete_insert_eq. by apply delete_id.
    + unfold tidy. cbn. rewrite Hr. by constructor.
  - exists m1. split_and!; try done. unfold tidy. by rewrite Hr.
Qed.

(** The capacity after a request *)
Definition grown (cap capacity : Z) (extra_headroom : bool) : Z :=
  if capacity <=? cap then cap
  else if extra_headroom then Z.max capacity (cap + cap / 2) else capacity.

Lemma grown_wrap (cap capacity : Z) : 0 <= cap <= limit ->
  Z.max capacity (wrap 64 (cap + cap / 2)) = Z.max capacity (cap + cap / 2).
Proof. intros H. rewrite wrap_small; [done|]. assert (cap / 2 <= cap) by (Z.to_euclidean_division_equations; lia).
  assert (0 <= cap / 2) by (Z.to_euclidean_division_equations; lia). lia. Qed.

(** The copy into the new block *)
Lemma relocate_spec (k : nat) (m : memory) (b : BufferT) (l : list cell) (R : gmap block (list cell)) (n : Z) :
  holds_with k m b l R -> mCapacity b < n <= limit ->
  exists m1 m2, alloc limit m n = Ret (m1, next_block m) /\
    match mData b with Some d => memcpy m1 (Some (next_block m, 0)) (Some (d, 0)) (mSize b) | None => Ret m1 end = Ret m2 /\
    holds_with k m2 b l (<[next_block m := l ++ replicate (Z.to_nat n - length l) None]> R) /\
    R !! next_block m = None /\ next_block m2 = Pos.succ (next_block m) /\ released m2 = released m /\ copied m2 = copied m + mSize b.
Proof.
  intros Hh Hn. pose proof (holds_range _ m b l R Hh) as Hrange. destruct Hh as [Hm Hs Hc Hd].
  pose proof (fresh_block m Hm) as Hf. unfold alloc. rewrite (proj2 (Z.leb_le _ _)) by lia.
  assert (Hok : forall d, is_Some (blocks m !! d) -> (d < Pos.succ (next_block m))%positive).
  { intros d H%Hm. lia. }
  destruct (mData b) as [d|] eqn:Ed.
  - destruct Hd as (spare & HRd & HB & Hcap & Hcl).
    assert (Hne : next_block m <> d) by (intros E; rewrite E, HB, lookup_insert_eq in Hf; done).
    assert (HRn : R !! next_block m = None) by (rewrite HB, lookup_insert_ne in Hf; done).
    eexists _, _. split; [reflexivity|]. split.
    { apply (memcpy_spec _ _ _ (replicate (Z.to_nat n) None) (l ++ spare)); cbn; try done; try lia.
      - by rewrite lookup_insert_eq.
      - rewrite lookup_insert_ne, HB by done. by rewrite lookup_insert_eq.
      - rewrite length_replicate. lia.
      - rewrite length_app. lia. }
    assert (HB2 : overwrite 0 (take (Z.to_nat (mSize b)) (drop 0 (l ++ spare))) (replicate (Z.to_nat n) None) =
      l ++ replicate (Z.to_nat n - length l) None).
    { rewrite drop_0, Hs, Nat2Z.id, take_app_length. unfold overwrite. cbn. by rewrite drop_replicate. }
    change (Z.to_nat 0) with 0%nat. rewrite HB2. cbn. split_and!; try done. split; cbn; try done.
    + intros e. cbn. rewrite !lookup_insert_is_Some'. intros [<-|[<-|H]]; [lia|lia|]. by apply Hok.
    + rewrite Ed. exists spare. split_and!; try done; [by rewrite lookup_insert_ne|].
      by rewrite insert_insert_eq, HB, insert_insert_ne.
  - destruct Hd as (Hc0 & -> & HB). assert (HRn : R !! next_block m = None) by (by rewrite <- HB).
    eexists _, _. split; [reflexivity|]. split; [reflexivity|]. rewrite Hs. cbn. split_and!; try done; [|lia]. split; cbn; try done.
    + intros e. cbn. rewrite lookup_insert_is_Some'. intros [<-|H]; [lia|]. by apply Hok.
    + rewrite Ed. split_and!; try done. by rewrite Nat.sub_0_r, HB.
Qed.

Lemma ensure_spec (k : nat) (m : memory) (b : BufferT) (l : list cell) (R : gmap block (list cell)) (capacity : Z) (extra : bool) :
  holds_with k m b l R -> tidy m -> grown (mCapacity b) capacity extra <= limit ->
  exists m' b', ensure_capacity_with_headroom limit ZeroOnFree m b capacity extra = Ret (m', b') /\
    holds_with k m' b' l R /\ tidy m' /\ mCapacity b' = grown (mCapacity b) capacity extra /\
    copied m' = (if capacity <=? mCapacity b then copied m else copied m + mSize b) /\
    (mCapacity b' = 0 \/ is_Some (mData b')) /\ (capacity <= mCapacity b -> mData b' = mData b).
Proof.
  intros Hh Ht Hg. pose proof (holds_range _ m b l R Hh) as Hrange. unfold ensure_capacity_with_headroom.
  rewrite (holds_consistent _ m b l R Hh). cbn [check run_bind]. unfold grown in *.
  destruct (capacity <=? mCapacity b) eqn:Ec; zbool.
  { exists m, b. split_and!; try done. destruct Hh as [_ _ _ Hd]. destruct (mData b); [right; by eexists|by left; destruct Hd]. }
  set (n := if extra then Z.max capacity (wrap 64 (mCapacity b + mCapacity b / 2)) else capacity).
  assert (Hn : n = if extra then Z.max capacity (mCapacity b + mCapacity b / 2) else capacity).
  { unfold n. destruct extra; [|done]. apply grown_wrap. destruct Hh. lia. }
  rewrite <- Hn in *. assert (mCapacity b < n) by (rewrite Hn; destruct extra; lia).
  destruct (relocate_spec k m b l R n Hh) as (m1 & m2 & E1 & E2 & Hh2 & HRn & Hnb & Hr2 & Hc2); [lia|].
  rewrite E1. cbn [run_bind]. rewrite E2. cbn [run_bind].
  destruct (free_array_spec k m2 b l _ Hh2) as (m3 & m4 & E3 & E4 & HB4 & Hn4 & Hc4 & Ht4); [by unfold tidy; rewrite Hr2|].
  rewrite E3. cbn [run_bind]. rewrite E4. cbn [run_bind].
  assert (Hlen : Z.of_nat (length l) = mSize b) by (symmetry; apply Hh).
  assert (Hh' : holds_with k m4 (mkBuffer (mSize b) n (Some (next_block m))) l R).
  { rewrite <- Hlen. apply (holds_resize k m4 (next_block m) n l (replicate (Z.to_nat n - length l) None) R); try done.
    - intros e. rewrite HB4, Hn4, Hnb, lookup_insert_is_Some'. intros [<-|He]; [lia|].
      enough (e < next_block m)%positive by lia. apply (holds_memory _ _ _ _ _ Hh).
      destruct Hh as [_ _ _ Hd]. destruct (mData b) as [d|].
      + destruct Hd as (spare & _ & -> & _). apply lookup_insert_is_Some'. by right.
      + by destruct Hd as (_ & _ & ->).
    - rewrite length_replicate. lia.
    - intros _. rewrite drop_replicate. apply Forall_replicate. by left. }
  rewrite (holds_consistent _ _ _ _ _ Hh'). cbn [check run_bind]. eexists _, _. split; [reflexivity|].
  split_and!; [done|done|done|cbn; lia|right; by eexists|lia].
Qed.

(** ** Changing the size *)
Lemma holds_block (k : nat) (m : memory) (b : BufferT) (l : list cell) (R : gmap block (list cell)) (d : block) :
  holds_with k m b l R -> mData b = Some d ->
  exists spare, R !! d = None /\ blocks m = <[d := l ++ spare]> R /\ mCapacity b = Z.of_nat (length l + length spare) /\
    clean (drop k spare) /\ mCapacity b <= limit /\ mSize b = Z.of_nat (length l) /\ memory_ok m.
Proof. intros [Hm Hs Hc Hd] Ed. rewrite Ed in Hd. destruct Hd as (spare & ? & ? & ? & ?). by exists spare. Qed.

Lemma clean_app (x y : list cell) : clean (x ++ y) <-> clean x /\ clean y.
Proof.
  unfold clean. split.
  - intros H. split; intros Hz; specialize (H Hz); apply Forall_app in H; apply H.
  - intros [H1 H2] Hz. apply Forall_app. auto.
Qed.

Lemma clean_drop (n : nat) (x : list cell) : clean x -> clean (drop n x).
Proof. rewrite <- (take_drop n x) at 1. rewrite clean_app. tauto. Qed.

Lemma dirty_drop (k n : nat) (x : list cell) : clean (drop k x) -> clean (drop (k - n) (drop n x)).
Proof.
  intros H. rewrite drop_drop. destruct (decide (n <= k)%nat); [by replace (n + (k - n))%nat with k by lia|].
  replace (n + (k - n))%nat with (k + (n - k))%nat by lia. rewrite <- drop_drop. by apply clean_drop.
Qed.

Lemma holds_empty (k : nat) (m : memory) (b : BufferT) (l : list cell) (R : gmap block (list cell)) (n : Z) :
  holds_with k m b l R -> mData b = None -> n = 0 -> holds_with 0 m (with_size b n) l R.
Proof. intros [Hm Hs Hc Hd] Ed ->. rewrite Ed in Hd. destruct Hd as (? & -> & ?). split; cbn; try done. by rewrite Ed. Qed.

(** The first [n] elements, the others left behind *)
Lemma shrink_spec (k : nat) (m : memory) (b : BufferT) (l : list cell) (R : gmap block (list cell)) (n : Z) :
  holds_with k m b l R -> 0 <= n <= mSize b ->
  holds_with (k + Z.to_nat (mSize b - n)) m (with_size b n) (take (Z.to_nat n) l) R.
Proof.
  intros Hh Hn. destruct (mData b) as [d|] eqn:Ed.
  - destruct (holds_block k m b l R d Hh Ed) as (spare & HRd & HB & Hcap & Hcl & Hlim & Hs & Hm).
    assert (Hk : length (take (Z.to_nat n) l) = Z.to_nat n) by (rewrite length_take; lia).
    replace (with_size b n) with (mkBuffer (Z.of_nat (length (take (Z.to_nat n) l))) (mCapacity b) (Some d)).
    2:{ unfold with_size. rewrite Ed, Hk. f_equal. lia. }
    apply (holds_resize _ m d _ _ (drop (Z.to_nat n) l ++ spare)); try done.
    + by rewrite app_assoc, take_drop.
    + rewrite length_app, length_drop. lia.
    + rewrite drop_app_ge by (rewrite length_drop; lia). rewrite length_drop.
      by replace (k + Z.to_nat (mSize b - n) - (length l - Z.to_nat n))%nat with k by lia.
  - destruct Hh as [Hm Hs Hc Hd]. rewrite Ed in Hd. destruct Hd as (Hc0 & -> & HB). cbn in Hs. rewrite take_nil.
    split; cbn; try done; [lia|]. by rewrite Ed.
Qed.

(** More elements: cells that were spare *)
Lemma extend_spec (k : nat) (m : memory) (b : BufferT) (l : list cell) (R : gmap block (list cell)) (n : Z) :
  holds_with k m b l R -> mSize b <= n <= mCapacity b ->
  exists x, holds_with (k - length x) m (with_size b n) (l ++ x) R /\ Z.of_nat (length x) = n - mSize b /\ clean (drop k x).
Proof.
  intros Hh Hn. destruct (mData b) as [d|] eqn:Ed.
  - destruct (holds_block k m b l R d Hh Ed) as (spare & HRd & HB & Hcap & Hcl & Hlim & Hs & Hm).
    set (i := Z.to_nat (n - mSize b)). exists (take i spare).
    assert (Hi : length (take i spare) = i) by (rewrite length_take; lia). split; [|split; [lia|]].
    2:{ rewrite <- (take_drop i spare), drop_app in Hcl. by apply clean_app in Hcl as [? _]. }
    replace (with_size b n) with (mkBuffer (Z.of_nat (length (l ++ take i spare))) (mCapacity b) (Some d)).
    2:{ unfold with_size. rewrite Ed, length_app. f_equal. lia. }
    apply (holds_resize _ m d _ _ (drop i spare)); try done.
    + by rewrite <- app_assoc, take_drop.
    + rewrite length_app, length_drop. lia.
    + rewrite Hi. by apply dirty_drop.
  - exists []. destruct (Hh) as [Hm Hs Hc Hd]. rewrite Ed in Hd. destruct Hd as (Hc0 & -> & HB).
    cbn in *. split; [|split; [lia|rewrite drop_nil; intros _; constructor]]. split; cbn; try done; [lia|]. by rewrite Ed.
Qed.

(** The zeroing of the cells that were left behind *)
Lemma zero_removed_spec (m : memory) (b : BufferT) (l : list cell) (R : gmap block (list cell)) (old_size : Z) :
  holds_with (Z.to_nat (old_size - mSize b)) m b l R -> tidy m -> old_size <= mCapacity b ->
  exists m', zero_removed ZeroOnFree m b old_size = Ret m' /\ holds m' b l R /\ tidy m' /\ copied m' = copied m.
Proof.
  intros Hh Ht Ho. unfold zero_removed. pose proof (holds_range _ _ _ _ _ Hh) as Hr0.
  destruct (mData b) as [d|] eqn:Ed.
  2:{ pose proof (holds_empty _ m b l R 0 Hh Ed eq_refl) as He. destruct Hh as [Hm Hs Hc Hd]. rewrite Ed in Hd. destruct Hd as (Hc0 & -> & HB).
      cbn in Hs. rewrite (proj2 (Z.ltb_ge _ _)), andb_false_r by lia. exists m. split_and!; try done.
      assert (Eb : with_size b 0 = b) by (unfold with_size; destruct b; cbn in *; by rewrite Hs). by rewrite Eb in He. }
  destruct (holds_block _ m b l R d Hh Ed) as (spare & HRd & HB & Hcap & Hcl & Hlim & Hs & Hm).
  set (k := Z.to_nat (old_size - mSize b)) in *.
  assert (Heq : b = mkBuffer (Z.of_nat (length l)) (mCapacity b) (Some d)) by (rewrite <- Hs, <- Ed; by destruct b).
  destruct (ZeroOnFree && (mSize b <? old_size)) eqn:Ez.
  - unfold zero_trailing_data. rewrite (holds_consistent _ _ _ _ _ Hh), (proj2 (Z.leb_le _ _)) by lia. cbn [check run_bind].
    rewrite <- (take_drop k spare) in HB.
    destruct (zero_spec m d l (drop k spare) k (take k spare)) as (m' & E & HB' & Hnb & Hr & Hcp).
    { by rewrite HB, lookup_insert_eq. } { rewrite length_take. lia. }
    apply andb_true_iff in Ez as [_ Ez]. zbool.
    rewrite Ed. replace (old_size - mSize b) with (Z.of_nat k) by lia.
    change (advance (begin_of (Some d)) (mSize b)) with (Some (d, 0 + mSize b)). rewrite Z.add_0_l, Hs, E.
    exists m'. split_and!; [done| |by unfold tidy; rewrite Hr|done]. rewrite HB, insert_insert_eq in HB'. rewrite Heq.
    apply (holds_resize 0 m' d _ _ (replicate k (Some 0 : cell) ++ drop k spare)); try done.
    + eapply (memory_ok_blocks m m' R d); try done.
    + rewrite length_app, length_replicate, length_drop. lia.
    + apply clean_app. split; [|done]. intros _. apply Forall_replicate. by right.
  - exists m. split_and!; try done. rewrite Heq. apply (holds_resize 0 m d _ _ spare); try done.
    apply andb_false_iff in Ez as [Ez|Ez]; [intros ?; congruence|]. zbool. by replace k with 0%nat in Hcl by lia.
Qed.

Lemma grow_spec (k : nat) (m : memory) (b : BufferT) (l : list cell) (R : gmap block (list cell)) (n : Z) :
  holds_with k m b l R -> tidy m -> mSize b <= n -> grown (mCapacity b) n true <= limit ->
  exists m' b' x, set_size limit ZeroOnFree m b n = Ret (m', b') /\ holds_with (k - length x) m' b' (l ++ x) R /\ tidy m' /\
    Z.of_nat (length x) = n - mSize b /\ clean (drop k x) /\ mSize b' = n /\ mCapacity b' = grown (mCapacity b) n true.
Proof.
  intros Hh Ht Hn Hg. unfold set_size.
  destruct (ensure_spec k m b l R n true Hh Ht Hg) as (m1 & b1 & E & Hh1 & Ht1 & Hc1 & _ & _). rewrite E. cbn [run_bind].
  pose proof (holds_size _ _ _ _ _ Hh1) as Hs1. pose proof (holds_size _ _ _ _ _ Hh) as Hs0. pose proof (holds_range _ _ _ _ _ Hh) as Hr0.
  destruct (extend_spec k m1 b1 l R n Hh1) as (x & Hh2 & Hx & Hcx).
  { rewrite Hc1. unfold grown in *. destruct (n <=? mCapacity b) eqn:E0; zbool; lia. }
  unfold zero_removed. cbn [mSize with_size]. rewrite (proj2 (Z.ltb_ge _ _)), andb_false_r by lia. cbn [run_bind].
  exists m1, (with_size b1 n), x. split_and!; try done. lia.
Qed.

Lemma set_size_spec (m : memory) (b : BufferT) (l : list cell) (R : gmap block (list cell)) (n : Z) :
  holds m b l R -> tidy m -> 0 <= n -> grown (mCapacity b) n true <= limit ->
  exists m' b' x, set_size limit ZeroOnFree m b n = Ret (m', b') /\ holds m' b' (take (Z.to_nat n) l ++ x) R /\ tidy m' /\
    Z.of_nat (length x) = Z.max 0 (n - mSize b) /\ mSize b' = n /\ mCapacity b' = grown (mCapacity b) n true.
Proof.
  intros Hh Ht Hn Hg. pose proof (holds_size _ _ _ _ _ Hh) as Hs0. destruct (Z.le_gt_cases n (mSize b)) as [Hle|Hgt].
  - unfold set_size. destruct (ensure_spec 0 m b l R n true Hh Ht Hg) as (m1 & b1 & E & Hh1 & Ht1 & Hc1 & _ & _). rewrite E. cbn [run_bind].
    pose proof (holds_range _ _ _ _ _ Hh1) as Hr1. pose proof (holds_size _ _ _ _ _ Hh1) as Hs1.
    pose proof (shrink_spec 0 m1 b1 l R n Hh1 ltac:(lia)) as Hh2. replace (mSize b1) with (mSize b) in Hh2 by lia.
    destruct (zero_removed_spec m1 (with_size b1 n) _ R (mSize b) Hh2 Ht1) as (m2 & E2 & Hh3 & Ht2 & _); [cbn; lia|].
    rewrite E2. cbn [run_bind]. exists m2, (with_size b1 n), []. rewrite app_nil_r. split_and!; try done. cbn. lia.
  - destruct (grow_spec 0 m b l R n Hh Ht) as (m' & b' & x & E & Hh' & Ht' & Hx & _ & H); [lia|done|].
    exists m', b', x. rewrite take_ge by lia. split_and!; try done; try apply H. lia.
Qed.

(** ** Appending *)
Lemma grown_le (cap n : Z) (extra : bool) : n <= grown cap n extra /\ cap <= grown cap n extra.
Proof. unfold grown. destruct (n <=? cap) eqn:E; zbool; [lia|]. destruct extra; lia. Qed.

(** Elements written over the first spare cells *)
Lemma write_end (k : nat) (m m' : memory) (b : BufferT) (l xs spare : list cell) (R : gmap block (list cell)) (d : block) :
  holds_with k m b l R -> mData b = Some d -> blocks m = <[d := l ++ spare]> R -> (length xs <= length spare)%nat ->
  clean (drop k spare) -> mCapacity b = Z.of_nat (length l + length spare) ->
  blocks m' = <[d := overwrite (length l) xs (l ++ spare)]> R -> next_block m' = next_block m ->
  holds_with (k - length xs) m' (with_size b (mSize b + Z.of_nat (length xs))) (l ++ xs) R.
Proof.
  intros Hh Ed HB Hlen Hcl Hcap HB' Hn. rewrite overwrite_end in HB' by done.
  destruct (holds_block k m b l R d Hh Ed) as (_ & HRd & _ & _ & _ & Hlim & Hs & Hm).
  replace (with_size b (mSize b + Z.of_nat (length xs))) with (mkBuffer (Z.of_nat (length (l ++ xs))) (mCapacity b) (Some d)).
  - apply (holds_resize _ m' d _ _ (drop (length xs) spare)); try done.
    + eapply (memory_ok_blocks m m' R d); try done.
    + rewrite length_app, length_drop. lia.
    + by apply dirty_drop.
  - unfold with_size. rewrite Ed, length_app. f_equal. lia.
Qed.

(** A range of a block of the rest of memory; no cells may be asked for anywhere. *)
Definition readable (R : gmap block (list cell)) (p : pointer) (n : Z) (xs : list cell) : Prop :=
  (n = 0 /\ xs = []) \/
  exists q o cs, p = Some (q, o) /\ R !! q = Some cs /\ 0 <= o /\ 0 <= n /\ o + n <= Z.of_nat (length cs) /\
    xs = take (Z.to_nat n) (drop (Z.to_nat o) cs).

Lemma readable_length (R : gmap block (list cell)) (p : pointer) (n : Z) (xs : list cell) :
  readable R p n xs -> 0 <= n /\ Z.of_nat (length xs) = n.
Proof.
  intros [[-> ->]|(q & o & cs & _ & _ & Ho & Hn & Hon & ->)]; [done|]. split; [done|]. rewrite length_take, length_drop. lia.
Qed.

Lemma append_data_spec (k : nat) (m : memory) (b : BufferT) (l xs : list cell) (R : gmap block (list cell)) (p : pointer) (n : Z) :
  holds_with k m b l R -> tidy m -> readable R p n xs -> grown (mCapacity b) (mSize b + n) true <= limit ->
  exists m' b', append_data limit ZeroOnFree m b p n = Ret (m', b') /\ holds_with (k - length xs) m' b' (l ++ xs) R /\ tidy m' /\
    (n <> 0 -> mCapacity b' = grown (mCapacity b) (mSize b + n) true) /\ mCapacity b <= mCapacity b' /\
    copied m' = copied m + n + (if mSize b + n <=? mCapacity b then 0 else mSize b).
Proof.
  intros Hh Ht Hrd Hg. pose proof (readable_length R p n xs Hrd) as [Hn Hxs].
  unfold append_data. pose proof (holds_range _ _ _ _ _ Hh) as Hr0.
  destruct (n =? 0) eqn:E0; zbool.
  { exists m, b. destruct xs; [|cbn in Hxs; lia]. cbn [length]. rewrite Nat.sub_0_r, app_nil_r. split_and!; try done.
    rewrite E0, (proj2 (Z.leb_le _ _)) by lia. lia. }
  destruct Hrd as [[? _]|(q & o & cs & -> & Hq & Ho & _ & Hon & Exs)]; [done|].
  rewrite bool_decide_false by done. rewrite (holds_consistent _ m b l R Hh). cbn [negb check run_bind].
  pose proof (grown_le (mCapacity b) (mSize b + n) true) as Hgl. rewrite wrap_small by lia.
  destruct (ensure_spec k m b l R (mSize b + n) true Hh Ht Hg) as (m1 & b1 & E1 & Hh1 & Ht1 & Hc1 & Hcp1 & Hd1 & _).
  rewrite E1. cbn [run_bind]. assert (Hs1 : mSize b1 = mSize b) by (by rewrite (holds_size _ _ _ _ _ Hh1), (holds_size _ _ _ _ _ Hh)).
  destruct Hd1 as [Hd1|[d Ed]]; [lia|]. destruct (holds_block _ m1 b1 l R d Hh1 Ed) as (spare & HRd & HB & Hcap & Hcl & Hlim & Hs & Hm).
  assert (Hne : d <> q) by (intros ->; congruence). rewrite Ed. cbn [begin_of fmap option_fmap option_map advance].
  rewrite (memcpy_spec m1 d q (l ++ spare) cs); try done; try lia.
  2:{ by rewrite HB, lookup_insert_eq. } 2:{ by rewrite HB, lookup_insert_ne. } 2:{ rewrite length_app. lia. }
  cbn [run_bind]. rewrite <- Exs. set (m2 := mkMemory _ _ _ _).
  assert (Hh2 : holds_with (k - length xs) m2 (with_size b1 (mSize b + n)) (l ++ xs) R).
  { rewrite <- Hs1, <- Hxs. apply (write_end k m1 m2 b1 l xs spare R d); try done; [lia|].
    cbn. rewrite HB, insert_insert_eq. do 3 f_equal. lia. }
  rewrite (holds_consistent _ _ _ _ _ Hh2). cbn [check run_bind]. exists m2, (with_size b1 (mSize b + n)).
  split_and!; [done|done|done|done|cbn; lia|]. cbn. rewrite Hcp1. destruct (mSize b + n <=? mCapacity b); lia.
Qed.

(** What the caller's function may do: it fills the view from the front and says how far. *)
Definition setter_ok (max_elements : Z) (f : setter) : Prop :=
  forall view, Z.of_nat (length view) = max_elements ->
  let (view', written) := f view in
  length view' = length view /\ 0 <= written <= max_elements /\ drop (Z.to_nat written) view' = drop (Z.to_nat written) view.

(** The end of [append_data] with a function, when the view has been written back *)
Lemma written_spec (k : nat) (m : memory) (b : BufferT) (l view' : list cell) (R : gmap block (list cell)) (n written : Z) :
  holds_with (k - length view') m b (l ++ view') R -> Z.of_nat (length view') = n -> 0 <= written <= n ->
  (forall d spare, mData b = Some d -> blocks m = <[d := (l ++ view') ++ spare]> R -> R !! d = None ->
     clean (drop (k - Z.to_nat written) (drop (Z.to_nat written) view' ++ spare))) ->
  exists b', (do _ <- check (written <=? n);
     let b := with_size b (wrap 64 (Z.of_nat (length l) + written)) in
     do _ <- check (is_consistent b); Ret (m, b, written)) = Ret (m, b', written) /\
   holds_with (k - Z.to_nat written) m b' (l ++ take (Z.to_nat written) view') R /\ mCapacity b' = mCapacity b.
Proof.
  intros Hh Hn Hw Hcl. pose proof (holds_range _ _ _ _ _ Hh) as Hr. pose proof (holds_size _ _ _ _ _ Hh) as Hs0. rewrite length_app in Hs0.
  pose proof (holds_capacity _ _ _ _ _ Hh) as Hlim0.
  rewrite (proj2 (Z.leb_le _ _)), wrap_small by lia. cbn [check run_bind].
  assert (Hh' : holds_with (k - Z.to_nat written) m (with_size b (Z.of_nat (length l) + written)) (l ++ take (Z.to_nat written) view') R).
  { destruct (mData b) as [d|] eqn:Ed.
    - destruct (holds_block _ m b _ R d Hh Ed) as (spare & HRd & HB & Hcap & _ & Hlim & _ & Hm). rewrite length_app in Hcap.
      replace (with_size b (Z.of_nat (length l) + written)) with (mkBuffer (Z.of_nat (length (l ++ take (Z.to_nat written) view'))) (mCapacity b) (Some d)).
      2:{ unfold with_size. rewrite Ed, length_app, length_take. f_equal. lia. }
      apply (holds_resize _ m d _ _ (drop (Z.to_nat written) view' ++ spare)); try done.
      + by rewrite HB, <- !app_assoc, (app_assoc (take _ _)), take_drop.
      + rewrite !length_app, length_take, length_drop in *. lia.
      + by apply (Hcl d spare).
    - destruct Hh as [Hm Hs Hc Hd]. rewrite Ed in Hd. destruct Hd as (Hc0 & El & HB). apply app_nil in El as [-> ->].
      cbn in *. rewrite take_nil. split; cbn; try done; [lia|]. by rewrite Ed. }
  rewrite (holds_consistent _ _ _ _ _ Hh'). cbn [check run_bind]. eexists. split; [reflexivity|]. by split.
Qed.

Lemma append_with_spec (k : nat) (m : memory) (b : BufferT) (l : list cell) (R : gmap block (list cell)) (n : Z) (f : setter) :
  holds_with k m b l R -> tidy m -> 0 <= n -> setter_ok n f -> grown (mCapacity b) (mSize b + n) true <= limit ->
  exists m' b' view, append_data_with limit ZeroOnFree m b n f = Ret (m', b', snd (f view)) /\
    Z.of_nat (length view) = n /\ 0 <= snd (f view) <= n /\ length (fst (f view)) = length view /\
    holds_with (k - Z.to_nat (snd (f view))) m' b' (l ++ take (Z.to_nat (snd (f view))) (fst (f view))) R /\ tidy m' /\
    mCapacity b <= mCapacity b'.
Proof.
  intros Hh Ht Hn Hf Hg. unfold append_data_with. rewrite (holds_consistent _ m b l R Hh). cbn [check run_bind].
  pose proof (holds_range _ _ _ _ _ Hh) as Hr0. pose proof (holds_size _ _ _ _ _ Hh) as Hs0.
  pose proof (grown_le (mCapacity b) (mSize b + n) true) as Hgl. rewrite (wrap_small 64 (mSize b + n)) by lia.
  destruct (grow_spec k m b l R (mSize b + n) Hh Ht) as (m1 & b1 & view & E1 & Hh1 & Ht1 & Hlv & Hcv & Hs1 & Hc1); [lia|done|].
  rewrite E1. cbn [run_bind]. unfold data. rewrite (holds_consistent _ _ _ _ _ Hh1). cbn [check run_bind].
  assert (Hv : Z.of_nat (length view) = n) by lia. clear Hlv. specialize (Hf view Hv). destruct (f view) as [view' written] eqn:Ef.
  destruct Hf as (Hl' & Hw & Hdrop). rewrite Hs0.
  destruct (mData b1) as [d|] eqn:Ed.
  - destruct (holds_block _ m1 b1 _ R d Hh1 Ed) as (spare & HRd & HB & Hcap & Hcl & Hlim & Hs & Hm). rewrite length_app in Hcap, Hs.
    cbn [begin_of fmap option_fmap option_map advance].
    assert (Hfin : forall m2, tidy m2 -> blocks m2 = <[d := (l ++ view') ++ spare]> R -> next_block m2 = next_block m1 ->
      exists b', (do _ <- check (written <=? n); let b2 := with_size b1 (wrap 64 (Z.of_nat (length l) + written)) in
         do _ <- check (is_consistent b2); Ret (m2, b2, written)) = Ret (m2, b', written) /\
       holds_with (k - Z.to_nat written) m2 b' (l ++ take (Z.to_nat written) view') R /\ mCapacity b' = mCapacity b1).
    { intros m2 Ht2 HB2 Hn2. apply (written_spec k m2 b1 l view' R n written); [|lia|lia|].
      - replace b1 with (mkBuffer (Z.of_nat (length (l ++ view'))) (mCapacity b1) (Some d)).
        2:{ rewrite length_app, Hl', <- Hs, <- Ed. by destruct b1. }
        apply (holds_resize _ m2 d _ _ spare); try done; [eapply (memory_ok_blocks m1 m2 R d); try done|rewrite length_app; lia|by rewrite Hl'].
      - intros d' spare' Ed' HB' _. rewrite Ed in Ed'. injection Ed' as <-. assert (spare' = spare) as ->.
        { apply (app_inv_head (l ++ view')). rewrite HB2 in HB'. apply (f_equal (lookup d)) in HB'. rewrite !lookup_insert_eq in HB'. by injection HB'. }
        rewrite Hdrop. replace (drop (Z.to_nat written) view ++ spare) with (drop (Z.to_nat written) (view ++ spare)) by (rewrite drop_app_le by lia; done).
        apply dirty_drop. rewrite drop_app. by apply clean_app. }
    destruct (n =? 0) eqn:E0; zbool.
    + destruct view; [|cbn in Hv; lia]. rewrite Ef. cbn [snd run_bind]. destruct view'; [|done].
      destruct (Hfin m1) as (b' & E & Hh' & Hc'); try done. cbv zeta in E. rewrite E. exists m1, b', []. rewrite Ef. cbn [fst snd].
      split_and!; try done; lia.
    + rewrite (load_block_spec m1 d ((l ++ view) ++ spare)).
      2:{ by rewrite HB, lookup_insert_eq. } 2:{ lia. } 2:{ rewrite !length_app in *. lia. }
      cbn [run_bind]. replace (take (Z.to_nat n) (drop (Z.to_nat (0 + Z.of_nat (length l))) ((l ++ view) ++ spare))) with view.
      2:{ rewrite <- app_assoc, drop_app_length' by lia. by rewrite take_app_length' by lia. }
      rewrite Ef. rewrite (store_cells_spec m1 d ((l ++ view) ++ spare)).
      2:{ by rewrite HB, lookup_insert_eq. } 2:{ lia. } 2:{ rewrite !length_app in *. lia. }
      cbn [run_bind]. set (m2 := with_blocks _ _). destruct (Hfin m2) as (b' & E & Hh' & Hc'); try done.
      { cbn. rewrite HB, insert_insert_eq. f_equal. replace (Z.to_nat (0 + Z.of_nat (length l))) with (length l) by lia.
        rewrite <- app_assoc, overwrite_end by (rewrite length_app; lia). by rewrite drop_app_length' by lia. }
      cbv zeta in E. rewrite E. exists m2, b', view. rewrite Ef. cbn [fst snd]. split_and!; try done; lia.
  - destruct Hh1 as [Hm1 Hs2 Hcap1 Hd1]. rewrite Ed in Hd1. destruct Hd1 as (Hc0 & El & HB). apply app_nil in El as [-> ->].
    cbn in Hv. rewrite (proj2 (Z.eqb_eq n 0)), Ef by lia. destruct view'; [|done]. cbn [snd run_bind].
    destruct (written_spec k m1 b1 [] [] R n written) as (b' & E & Hh' & Hc'); try done; try (cbn; lia).
    { split; try done. by rewrite Ed. } { intros d spare Ed'. congruence. }
    cbv zeta in E. rewrite E. exists m1, b', []. rewrite Ef. cbn [fst snd]. split_and!; try done; try lia.
Qed.

(** ** Replacing the contents *)
Lemma reset_spec (m : memory) (b : BufferT) (l : list cell) (R : gmap block (list cell)) :
  holds m b l R -> holds_with (Z.to_nat (mSize b)) m (with_size b 0) [] R.
Proof.
  intros Hh. pose proof (holds_range _ _ _ _ _ Hh). pose proof (shrink_spec 0 m b l R 0 Hh ltac:(lia)) as H1.
  by rewrite Z.sub_0_r in H1.
Qed.

Lemma set_data_spec (m : memory) (b : BufferT) (l xs : list cell) (R : gmap block (list cell)) (p : pointer) (n : Z) :
  holds m b l R -> tidy m -> readable R p n xs -> grown (mCapacity b) n true <= limit ->
  exists m' b', set_data limit ZeroOnFree m b p n = Ret (m', b') /\ holds m' b' xs R /\ tidy m' /\ mCapacity b <= mCapacity b'.
Proof.
  intros Hh Ht Hrd Hg. pose proof (readable_length R p n xs Hrd) as [Hn Hxs]. pose proof (holds_range _ _ _ _ _ Hh) as Hr0.
  unfold set_data. rewrite (holds_consistent _ m b l R Hh). cbn [check run_bind].
  destruct (append_data_spec _ m (with_size b 0) [] xs R p n (reset_spec m b l R Hh) Ht Hrd) as (m1 & b1 & E & Hh1 & Ht1 & _ & Hc1 & _); [done|].
  rewrite E. cbn [run_bind]. cbn [app] in Hh1. cbn in Hc1. pose proof (holds_size _ _ _ _ _ Hh1) as Hs1.
  replace (Z.to_nat (mSize b) - length xs)%nat with (Z.to_nat (mSize b - mSize b1)) in Hh1 by lia.
  destruct (zero_removed_spec m1 b1 xs R (mSize b) Hh1 Ht1) as (m2 & E2 & Hh2 & Ht2 & _); [lia|].
  rewrite E2. cbn [run_bind]. exists m2, b1. by split_and!.
Qed.

Lemma set_data_with_spec (m : memory) (b : BufferT) (l : list cell) (R : gmap block (list cell)) (n : Z) (f : setter) :
  holds m b l R -> tidy m -> 0 <= n -> setter_ok n f -> grown (mCapacity b) n true <= limit ->
  exists m' b' view, set_data_with limit ZeroOnFree m b n f = Ret (m', b', snd (f view)) /\ Z.of_nat (length view) = n /\
    holds m' b' (take (Z.to_nat (snd (f view))) (fst (f view))) R /\ tidy m' /\ mCapacity b <= mCapacity b'.
Proof.
  intros Hh Ht Hn Hf Hg. pose proof (holds_range _ _ _ _ _ Hh) as Hr0.
  unfold set_data_with. rewrite (holds_consistent _ m b l R Hh). cbn [check run_bind].
  destruct (append_with_spec _ m (with_size b 0) [] R n f (reset_spec m b l R Hh) Ht Hn Hf)
    as (m1 & b1 & view & E & Hv & Hw & Hl & Hh1 & Ht1 & Hc1); [done|].
  rewrite E. cbn [run_bind]. cbn [app] in Hh1. cbn in Hc1. pose proof (holds_size _ _ _ _ _ Hh1) as Hs1. rewrite length_take in Hs1.
  replace (Z.to_nat (mSize b) - Z.to_nat (f view).2)%nat with (Z.to_nat (mSize b - mSize b1)) in Hh1 by lia.
  destruct (zero_removed_spec m1 b1 _ R (mSize b) Hh1 Ht1) as (m2 & E2 & Hh2 & Ht2 & _); [lia|].
  rewrite E2. cbn [run_bind]. exists m2, b1, view. by split_and!.
Qed.

Lemma clear_buffer_spec (m : memory) (b : BufferT) (l : list cell) (R : gmap block (list cell)) :
  holds m b l R -> tidy m ->
  exists m', clear ZeroOnFree m b = Ret (m', with_size b 0) /\ holds m' (with_size b 0) [] R /\ tidy m'.
Proof.
  intros Hh Ht. unfold clear. destruct (maybe_zero_spec 0 m b l R Hh) as (m' & E & Hd & Hn & Hr & _). rewrite E. cbn [run_bind].
  assert (Hh' : holds m' (with_size b 0) [] R).
  { destruct (mData b) as [d|] eqn:Ed.
    - destruct Hd as (cs & HB & Hlen & Hcl & _). destruct (holds_block 0 m b l R d Hh Ed) as (spare & HRd & HB0 & Hcap & _ & Hlim & _ & Hm).
      replace (with_size b 0) with (mkBuffer (Z.of_nat (@length cell [])) (mCapacity b) (Some d)) by (unfold with_size; by rewrite Ed).
      apply (holds_resize 0 m' d _ _ cs); try done. eapply (memory_ok_blocks m m' R d); try done.
    - destruct Hh as [Hm Hs Hc Hd0]. rewrite Ed in Hd0. destruct Hd0 as (Hc0 & _ & HB). split; cbn; try done.
      + intros e. rewrite Hd, Hn, <- HB. apply Hm.
      + by rewrite Ed. }
  rewrite (holds_consistent _ _ _ _ _ Hh'). cbn [check run_bind]. exists m'. split_and!; try done. unfold tidy. by rewrite Hr.
Qed.

(** ** Every operation *)
Inductive buffer_op :=
| AppendData (p : pointer) (n : Z)
| AppendWith (n : Z) (f : setter)
| SetData (p : pointer) (n : Z)
| SetDataWith (n : Z) (f : setter)
| SetSize (n : Z)
| EnsureCapacity (n : Z)
| Clear.

Definition perform (m : memory) (b : BufferT) (op : buffer_op) : run (memory * BufferT) :=
  match op with
  | AppendData p n => append_data limit ZeroOnFree m b p n
  | AppendWith n f => do (m, b, _) <- append_data_with limit ZeroOnFree m b n f; Ret (m, b)
  | SetData p n => set_data limit ZeroOnFree m b p n
  | SetDataWith n f => do (m, b, _) <- set_data_with limit ZeroOnFree m b n f; Ret (m, b)
  | SetSize n => set_size limit ZeroOnFree m b n
  | EnsureCapacity n => ensure_capacity limit ZeroOnFree m b n
  | Clear => clear ZeroOnFree m b
  end.

(** What the caller owes: a source outside the buffer, a function that keeps to its view, and a
    size that can be allocated. *)
Definition admissible (R : gmap block (list cell)) (b : BufferT) (op : buffer_op) : Prop :=
  match op with
  | AppendData p n => (exists xs, readable R p n xs) /\ grown (mCapacity b) (mSize b + n) true <= limit
  | AppendWith n f => 0 <= n /\ setter_ok n f /\ grown (mCapacity b) (mSize b + n) true <= limit
  | SetData p n => (exists xs, readable R p n xs) /\ grown (mCapacity b) n true <= limit
  | SetDataWith n f => 0 <= n /\ setter_ok n f /\ grown (mCapacity b) n true <= limit
  | SetSize n => 0 <= n /\ grown (mCapacity b) n true <= limit
  | EnsureCapacity n => n <= limit
  | Clear => True
  end.

(** What it promises, on the list of elements *)
Definition result (R : gmap block (list cell)) (l : list cell) (op : buffer_op) (l' : list cell) : Prop :=
  match op with
  | AppendData p n => exists xs, readable R p n xs /\ l' = l ++ xs
  | AppendWith n f => exists view, Z.of_nat (length view) = n /\ l' = l ++ take (Z.to_nat (snd (f view))) (fst (f view))
  | SetData p n => readable R p n l'
  | SetDataWith n f => exists view, Z.of_nat (length view) = n /\ l' = take (Z.to_nat (snd (f view))) (fst (f view))
  | SetSize n => exists x, l' = take (Z.to_nat n) l ++ x /\ Z.of_nat (length l') = n
  | EnsureCapacity n => l' = l
  | Clear => l' = []
  end.

Lemma perform_op_spec (m : memory) (b : BufferT) (l : list cell) (R : gmap block (list cell)) (op : buffer_op) :
  holds m b l R -> tidy m -> admissible R b op ->
  exists m' b' l', perform m b op = Ret (m', b') /\ holds m' b' l' R /\ tidy m' /\ result R l op l' /\ mCapacity b <= mCapacity b' /\
    (forall n, op = EnsureCapacity n -> n <= mCapacity b').
Proof.
  intros Hh Ht Ha. destruct op; cbn [perform admissible result] in *.
  - destruct Ha as [[xs Hrd] Hg]. destruct (append_data_spec 0 m b l xs R p n Hh Ht Hrd Hg) as (m' & b' & E & Hh' & Ht' & _ & Hc & _).
    exists m', b', (l ++ xs). split_and!; try done. by exists xs.
  - destruct Ha as (Hn & Hf & Hg). destruct (append_with_spec 0 m b l R n f Hh Ht Hn Hf Hg) as (m' & b' & view & E & Hv & _ & _ & Hh' & Ht' & Hc).
    rewrite E. cbn [run_bind]. eexists m', b', _. split_and!; try done. by exists view.
  - destruct Ha as [[xs Hrd] Hg]. destruct (set_data_spec m b l xs R p n Hh Ht Hrd Hg) as (m' & b' & E & Hh' & Ht' & Hc).
    exists m', b', xs. by split_and!.
  - destruct Ha as (Hn & Hf & Hg). destruct (set_data_with_spec m b l R n f Hh Ht Hn Hf Hg) as (m' & b' & view & E & Hv & Hh' & Ht' & Hc).
    rewrite E. cbn [run_bind]. eexists m', b', _. split_and!; try done. by exists view.
  - destruct Ha as [Hn Hg]. destruct (set_size_spec m b l R n Hh Ht Hn Hg) as (m' & b' & x & E & Hh' & Ht' & Hx & Hs & Hc).
    eexists m', b', _. split_and!; try done.
    + exists x. split; [done|]. pose proof (holds_size _ _ _ _ _ Hh'). lia.
    + rewrite Hc. apply grown_le.
  - assert (Hg : grown (mCapacity b) n false <= limit).
    { unfold grown. pose proof (holds_capacity _ _ _ _ _ Hh). destruct (n <=? mCapacity b) eqn:E; zbool; lia. }
    destruct (ensure_spec 0 m b l R n false Hh Ht Hg) as (m' & b' & E & Hh' & Ht' & Hc & _).
    pose proof (grown_le (mCapacity b) n false). exists m', b', l. split_and!; try done; [lia|]. intros ? [= <-]. lia.
  - destruct (clear_buffer_spec m b l R Hh Ht) as (m' & E & Hh' & Ht'). exists m', (with_size b 0), []. by split_and!.
Qed.

Lemma destroy_buffer_spec (m : memory) (b : BufferT) (l : list cell) (R : gmap block (list cell)) :
  holds m b l R -> tidy m -> exists m', destroy ZeroOnFree m b = Ret m' /\ blocks m' = R /\ tidy m' /\ next_block m' = next_block m.
Proof.
  intros Hh Ht. destruct (free_array_spec 0 m b l R Hh Ht) as (m1 & m2 & E1 & E2 & HB & Hn & _ & Ht2).
  unfold destroy. rewrite E1. cbn [run_bind]. by exists m2.
Qed.

Lemma get_element_spec (m : memory) (b : BufferT) (l : list cell) (R : gmap block (list cell)) (i : nat) (x : Z) :
  holds m b l R -> l !! i = Some (Some x : cell) -> get m b (Z.of_nat i) = Ret x.
Proof.
  intros Hh Hi. pose proof (lookup_lt_Some l i (Some x : cell) Hi) as Hlt. unfold get, data. rewrite (holds_consistent _ _ _ _ _ Hh).
  pose proof (holds_size _ _ _ _ _ Hh) as Hs. rewrite (proj2 (Z.ltb_lt _ _)) by lia. cbn [check run_bind].
  destruct (mData b) as [d|] eqn:Ed.
  2:{ destruct Hh as [_ _ _ Hd]. rewrite Ed in Hd. destruct Hd as (_ & -> & _). done. }
  destruct (holds_block _ m b l R d Hh Ed) as (spare & _ & HB & _). cbn [begin_of fmap option_fmap option_map advance].
  rewrite (load_block_spec m d (l ++ spare)); [|by rewrite HB, lookup_insert_eq|lia|rewrite length_app; lia].
  cbn [run_bind]. replace (Z.to_nat (0 + Z.of_nat i)) with i by lia. rewrite drop_app_le by lia.
  rewrite (drop_S l (Some x) i Hi). done.
Qed.

(** ** New buffers *)
Lemma new_buffer_sized_spec (m : memory) (size capacity : Z) :
  memory_ok m -> 0 <= size -> 0 < Z.max size capacity <= limit ->
  exists m' b, new_buffer_sized limit m size capacity = Ret (m', b) /\ holds m' b (replicate (Z.to_nat size) None) (blocks m) /\
    mCapacity b = Z.max size capacity /\ mSize b = size.
Proof.
  intros Hm Hs Hc. unfold new_buffer_sized, alloc. rewrite (proj2 (Z.ltb_lt _ _)), (proj2 (Z.leb_le _ _)) by lia. cbn [run_bind].
  set (m' := mkMemory _ _ _ _). set (b := mkBuffer _ _ _).
  assert (Hh : holds m' b (replicate (Z.to_nat size) None) (blocks m)).
  { split; cbn.
    - intros e. cbn. rewrite lookup_insert_is_Some'. intros [<-|He%Hm]; lia.
    - rewrite length_replicate. lia.
    - lia.
    - exists (replicate (Z.to_nat (Z.max size capacity) - Z.to_nat size) None). split_and!; [by apply fresh_block| | |].
      + rewrite <- replicate_add. do 2 f_equal. lia.
      + rewrite !length_replicate. lia.
      + intros _. apply Forall_replicate. by left. }
  rewrite (holds_consistent _ _ _ _ _ Hh). cbn [check run_bind]. exists m', b. by split_and!.
Qed.

Lemma new_buffer_data_spec (m : memory) (p : pointer) (size capacity : Z) (xs : list cell) :
  memory_ok m -> readable (blocks m) p size xs -> 0 < Z.max size capacity <= limit ->
  exists m' b, new_buffer_data limit m p size capacity = Ret (m', b) /\ holds m' b xs (blocks m) /\ mCapacity b = Z.max size capacity.
Proof.
  intros Hm Hrd Hc. pose proof (readable_length _ _ _ _ Hrd) as [Hs Hxs]. unfold new_buffer_data.
  destruct (new_buffer_sized_spec m size capacity Hm Hs Hc) as (m1 & b & E & Hh & Hcap & Hsz). rewrite E. cbn [run_bind].
  destruct (0 <? size) eqn:E0; zbool.
  2:{ destruct xs; [|cbn in Hxs; lia]. replace size with 0 in * by lia. exists m1, b. by split_and!. }
  destruct Hrd as [[-> _]|(q & o & cs & -> & Hq & Ho & _ & Hon & Exs)]; [lia|]. rewrite bool_decide_false by done. cbn [negb check run_bind].
  destruct (mData b) as [d|] eqn:Ed; [|destruct Hh as [_ _ _ Hd]; rewrite Ed in Hd; lia].
  destruct (holds_block _ m1 b _ _ d Hh Ed) as (spare & HRd & HB & Hcb & Hcl & Hlim & _ & Hm1). rewrite length_replicate in Hcb.
  assert (Hne : d <> q) by (intros ->; congruence). cbn [begin_of fmap option_fmap option_map].
  rewrite (memcpy_spec m1 d q (replicate (Z.to_nat size) None ++ spare) cs); try done; try lia.
  2:{ by rewrite HB, lookup_insert_eq. } 2:{ by rewrite HB, lookup_insert_ne. } 2:{ rewrite length_app, length_replicate. lia. }
  cbn [run_bind]. rewrite <- Exs. eexists _, b. split; [reflexivity|]. split; [|done].
  replace b with (mkBuffer (Z.of_nat (length xs)) (mCapacity b) (Some d)) by (rewrite Hxs, <- Hsz, <- Ed; by destruct b).
  apply (holds_resize 0 _ d _ _ spare); try done.
  - eapply (memory_ok_blocks m1 _ (blocks m) d); try done. cbn. by rewrite HB, insert_insert_eq.
  - cbn. rewrite HB, insert_insert_eq. f_equal. change (Z.to_nat 0) with (length (@nil cell)).
    change (replicate (Z.to_nat size) None ++ spare) with ([] ++ replicate (Z.to_nat size) None ++ spare).
    rewrite overwrite_end by (rewrite length_app, length_replicate; lia). cbn [app]. f_equal.
    rewrite drop_app_length' by (rewrite length_replicate; lia). done.
  - lia.
Qed.

(** ** Histories *)
Inductive history (R : gmap block (list cell)) : memory * BufferT -> list buffer_op -> memory * BufferT -> Prop :=
| history_nil s : history R s [] s
| history_cons m b op s ops s' :
    admissible R b op -> perform m b op = Ret s -> history R s ops s' -> history R (m, b) (op :: ops) s'.

Lemma history_spec (R : gmap block (list cell)) (s s' : memory * BufferT) (ops : list buffer_op) (l : list cell) :
  history R s ops s' -> holds (fst s) (snd s) l R -> tidy (fst s) -> exists l', holds (fst s') (snd s') l' R /\ tidy (fst s').
Proof.
  intros H. revert l. induction H as [s|m b op s ops s' Ha E _ IH]; intros l Hh Ht; [by exists l|].
  destruct (perform_op_spec m b l R op Hh Ht Ha) as (m1 & b1 & l1 & E1 & Hh1 & Ht1 & _).
  rewrite E1 in E. injection E as <-. by apply (IH l1).
Qed.

Lemma new_buffer_holds (m : memory) (b : BufferT) : memory_ok m -> new_buffer = Ret b -> holds m b [] (blocks m).
Proof. intros Hm [= <-]. split; cbn; try done. lia. Qed.

(** The copies made so far by moving to a larger block, against the capacity and the size *)
Lemma append_cost (m : memory) (b : BufferT) (l xs : list cell) (R : gmap block (list cell)) (p : pointer) (n c0 : Z) :
  holds m b l R -> tidy m -> readable R p n xs -> grown (mCapacity b) (mSize b + n) true <= limit ->
  copied m - c0 - mSize b <= 3 * mCapacity b -> copied m - c0 - mSize b <= 4 * mSize b ->
  exists m' b', append_data limit ZeroOnFree m b p n = Ret (m', b') /\ holds m' b' (l ++ xs) R /\ tidy m' /\
    copied m' - c0 - mSize b' <= 3 * mCapacity b' /\ copied m' - c0 - mSize b' <= 4 * mSize b'.
Proof.
  intros Hh Ht Hrd Hg H3 H4. pose proof (readable_length R p n xs Hrd) as [Hn Hxs]. pose proof (holds_range _ _ _ _ _ Hh) as Hr0.
  destruct (append_data_spec 0 m b l xs R p n Hh Ht Hrd Hg) as (m' & b' & E & Hh' & Ht' & Hc & Hle & Hcp).
  assert (Hs' : mSize b' = mSize b + n).
  { pose proof (holds_size _ _ _ _ _ Hh) as Hs. pose proof (holds_size _ _ _ _ _ Hh') as Hs'. rewrite length_app in Hs'. lia. }
  exists m', b'. split_and!; [done|done|done| |]; rewrite Hcp, Hs'; destruct (mSize b + n <=? mCapacity b) eqn:Ec; zbool; try lia.
  rewrite Hc by lia. unfold grown. rewrite (proj2 (Z.leb_gt _ _)) by lia.
  assert (Hhalf : mCapacity b / 2 * 2 <= mCapacity b <= mCapacity b / 2 * 2 + 1) by (Z.to_euclidean_division_equations; lia).
  lia.
Qed.

(** ** The properties *)

(** C9: A buffer behaves as the list of its elements, for operations whose source lies outside of
    the buffer's own storage and whose growth stays within the limit of the allocator
    ([admissible]): each of the operations that add to, set, resize, reserve or clear a
    buffer (moves, swaps and comparisons are not among them) returns, gives the elements
    it promises (cells that were never written have none), readable one by one, keeps at least
    the capacity, leaves all other memory as it was, and hands back its own block when it is
    destroyed. *)
Theorem buffer_op_correct (m : memory) (b : BufferT) (l : list cell) (R : gmap block (list cell)) (op : buffer_op) :
  holds m b l R -> tidy m -> admissible R b op ->
  exists m' b' l', perform m b op = Ret (m', b') /\ holds m' b' l' R /\ result R l op l' /\ mCapacity b <= mCapacity b' /\
    (forall n, op = EnsureCapacity n -> n <= mCapacity b') /\
    (forall i x, l' !! i = Some (Some x) -> get m' b' (Z.of_nat i) = Ret x) /\
    exists m'', destroy ZeroOnFree m' b' = Ret m'' /\ blocks m'' = R.
Proof.
  intros Hh Ht Ha. destruct (perform_op_spec m b l R op Hh Ht Ha) as (m' & b' & l' & E & Hh' & Ht' & Hr & Hc & He).
  destruct (destroy_buffer_spec m' b' l' R Hh' Ht') as (m'' & Ed & HB & _).
  exists m', b', l'. split_and!; try done; [|by exists m'']. intros i x. by apply get_element_spec with R.
Qed.

(** A buffer that zeroes on release leaves no element behind: whatever was done with it, every
    block it has let go of held zeros or nothing, and so does every spare cell it still has. *)
Theorem zero_on_free_correct (m : memory) (b : BufferT) (ops : list buffer_op) (m' : memory) (b' : BufferT) :
  ZeroOnFree = true -> memory_ok m -> released m = [] -> new_buffer = Ret b -> history (blocks m) (m, b) ops (m', b') ->
  exists m'', destroy ZeroOnFree m' b' = Ret m'' /\ blocks m'' = blocks m /\ Forall (Forall blank) (released m'') /\
    forall d cs, mData b' = Some d -> blocks m' !! d = Some cs -> Forall blank (drop (Z.to_nat (mSize b')) cs).
Proof.
  intros Hz Hm Hr Hb H. destruct (history_spec _ _ _ _ [] H) as (l' & Hh & Ht).
  { by apply new_buffer_holds. } { unfold tidy. cbn. rewrite Hr. constructor. }
  destruct (destroy_buffer_spec m' b' l' _ Hh Ht) as (m'' & E & HB & Ht'' & _). exists m''. split_and!; try done.
  - eapply Forall_impl; [exact Ht''|]. intros cs Hcs. by apply Hcs.
  - intros d cs Ed Hd. destruct (holds_block _ m' b' l' _ d Hh Ed) as (spare & _ & HB' & _ & Hcl & _ & Hs & _).
    rewrite HB', lookup_insert_eq in Hd. injection Hd as <-. rewrite Hs, Nat2Z.id, drop_app_length. by apply Hcl.
Qed.

(** Appending is linear: however the elements arrive, at most five cells are copied for each
    element that is in the buffer at the end. *)
Theorem append_linear (m : memory) (b : BufferT) (ops : list buffer_op) (m' : memory) (b' : BufferT) :
  memory_ok m -> released m = [] -> new_buffer = Ret b ->
  Forall (fun op => exists p n, op = AppendData p n) ops -> history (blocks m) (m, b) ops (m', b') ->
  copied m' - copied m <= 5 * mSize b'.
Proof.
  intros Hm Hr Hb Hops H.
  enough (Hgen : forall R s s' ops l c0, history R s ops s' -> Forall (fun op => exists p n, op = AppendData p n) ops ->
    holds (fst s) (snd s) l R -> tidy (fst s) ->
    copied (fst s) - c0 - mSize (snd s) <= 3 * mCapacity (snd s) -> copied (fst s) - c0 - mSize (snd s) <= 4 * mSize (snd s) ->
    copied (fst s') - c0 - mSize (snd s') <= 4 * mSize (snd s')).
  { assert (Ht : tidy m) by (unfold tidy; rewrite Hr; constructor).
    injection Hb as <-.
    pose proof (Hgen _ _ _ _ [] (copied m) H Hops (new_buffer_holds m _ Hm eq_refl) Ht ltac:(cbn; lia) ltac:(cbn; lia)) as Hfin.
    cbn in Hfin. lia. }
  clear - Hlimit. intros R s s' ops l c0 H. revert l. induction H as [s|m b op s ops s' Ha E _ IH]; intros l Hops Hh Ht H3 H4; [done|].
  apply Forall_cons in Hops as [(p & n & ->) Hops]. destruct Ha as [[xs Hrd] Hg]. cbn in Hh, Ht, H3, H4, E.
  destruct (append_cost m b l xs R p n c0 Hh Ht Hrd Hg H3 H4) as (m1 & b1 & E1 & Hh1 & Ht1 & H31 & H41).
  rewrite E1 in E. injection E as <-. by apply (IH (l ++ xs)).
Qed.
End Facts.

(** ** Concrete buffers *)
Definition small_memory : memory := mkMemory {[1%positive := Some <$> [10; 20; 30]]} 2%positive [] 0.

Lemma small_memory_ok : memory_ok small_memory.
Proof. intros d [cs Hd]. cbn in Hd. destruct (decide (d = 1%positive)) as [->|Hne]; [done|]. by rewrite lookup_singleton_ne in Hd. Qed.

Lemma small_readable (o n : Z) : 0 <= o -> 0 <= n -> o + n <= 3 ->
  readable (blocks small_memory) (Some (1%positive, o)) n (take (Z.to_nat n) (drop (Z.to_nat o) (Some <$> [10; 20; 30]))).
Proof. intros. right. exists 1%positive, o, (Some <$> [10; 20; 30]). split_and!; try done. Qed.

Lemma buffer_op_correct_witness :
  exists m' b' l', perform 1000 true small_memory (mkBuffer 0 0 None) (AppendData (Some (1%positive, 1)) 2) = Ret (m', b') /\
    holds_with 1000 true 0 m' b' l' (blocks small_memory) /\ get m' b' 1 = Ret 30.
Proof.
  assert (Hlimit : 0 < 1000 <= 2 ^ 62) by lia.
  destruct (buffer_op_correct 1000 true Hlimit small_memory (mkBuffer 0 0 None) [] (blocks small_memory) (AppendData (Some (1%positive, 1)) 2))
    as (m' & b' & l' & E & Hh & (xs & Hrd & Hl) & _ & _ & Hget & _).
  - apply new_buffer_holds; [lia|apply small_memory_ok|done].
  - constructor.
  - split; [eexists; apply small_readable; lia|]. vm_compute. discriminate.
  - exists m', b', l'. split; [done|]. split; [done|]. apply (Hget 1%nat 30). rewrite Hl. cbn.
    destruct Hrd as [[? _]|(q & o & cs & [= <- <-] & Hq & _ & _ & _ & ->)]; [done|]. cbn in Hq. injection Hq as <-. done.
Defined.

(** Two elements are written, the size is cut to one, the buffer is destroyed. *)
Definition secret_ops : list buffer_op := [AppendData (Some (1%positive, 0)) 2; SetSize 1].
Definition after (ZeroOnFree : bool) (m : memory) (b : BufferT) (op : buffer_op) : memory * BufferT :=
  match perform 1000 ZeroOnFree m b op with Ret s => s | _ => (m, b) end.

Lemma zero_on_free_correct_witness :
  let s1 := after true small_memory (mkBuffer 0 0 None) (AppendData (Some (1%positive, 0)) 2) in
  let s2 := after true (fst s1) (snd s1) (SetSize 1) in
  blocks (fst s2) !! 2%positive = Some [Some 10; Some 0] /\
  exists m'', destroy true (fst s2) (snd s2) = Ret m'' /\ Forall (Forall blank) (released m'').
Proof.
  assert (Hlimit : 0 < 1000 <= 2 ^ 62) by lia. intros s1 s2. split; [vm_compute; reflexivity|].
  destruct (zero_on_free_correct 1000 true Hlimit small_memory (mkBuffer 0 0 None) secret_ops (fst s2) (snd s2)) as (m'' & E & _ & H & _);
    [done|apply small_memory_ok|done|done| |by exists m''].
  apply (history_cons 1000 true _ _ _ _ s1); [|vm_compute; reflexivity|].
  { split; [eexists; apply small_readable; lia|]. vm_compute. discriminate. }
  apply (history_cons 1000 true _ (fst s1) (snd s1) _ s2); [|vm_compute; reflexivity|].
  { split; [lia|]. vm_compute. discriminate. }
  replace (fst s2, snd s2) with s2 by (symmetry; apply surjective_pairing). constructor.
Defined.

Lemma append_linear_witness :
  let s1 := after false small_memory (mkBuffer 0 0 None) (AppendData (Some (1%positive, 0)) 1) in
  let s2 := after false (fst s1) (snd s1) (AppendData (Some (1%positive, 0)) 3) in
  copied (fst s2) = 5 /\ copied (fst s2) - 0 <= 5 * mSize (snd s2).
Proof.
  assert (Hlimit : 0 < 1000 <= 2 ^ 62) by lia. intros s1 s2. split; [vm_compute; reflexivity|].
  apply (append_linear 1000 false Hlimit small_memory (mkBuffer 0 0 None)
    [AppendData (Some (1%positive, 0)) 1; AppendData (Some (1%positive, 0)) 3] (fst s2) (snd s2));
    [apply small_memory_ok|done|done|repeat constructor; by eexists _, _|].
  apply (history_cons 1000 false _ _ _ _ s1); [|vm_compute; reflexivity|].
  { split; [eexists; apply small_readable; lia|]. vm_compute. discriminate. }
  apply (history_cons 1000 false _ (fst s1) (snd s1) _ s2); [|vm_compute; reflexivity|].
  { split; [eexists; apply small_readable; lia|]. vm_compute. discriminate. }
  replace (fst s2, snd s2) with s2 by (symmetry; apply surjective_pairing). constructor.
Defined.

(** Appending a range of the buffer to itself: the block is replaced and released before the
    range is read. *)
Lemma append_of_own_data_dangles :
  let s := after false small_memory (mkBuffer 0 0 None) (AppendData (Some (1%positive, 0)) 2) in
  append_data 1000 false (fst s) (snd s) (begin_of (mData (snd s))) (mSize (snd s)) = Undef.
Proof. vm_compute. reflexivity. Qed.
