(* ===== verification/SharedBuffer.v ===== *)
(** * Shared buffers

    Models [SharedBuffer] of [src/cxxkit/tools/shared_buffer.hpp] and [shared_buffer.cpp]: a
    slice, by offset and size, of a reference-counted [Buffer] that is copied before it is
    changed when others share it. The heap of [RefCount] holds the buffers, its world is the
    memory their arrays live in. *)

From stdpp Require Import prelude list gmap.
From Stdlib Require Import ZArith Lia.
From S2P Require Import Prelude CxxInt RefCount Memory.
From S2P Require Buffer.

#[local] Open Scope Z_scope.
#[local] Open Scope cxx_scope.

Notation BufferT := Buffer.BufferT.
Notation buffer_heap := (@heap BufferT memory).

Record SharedBuffer := mkShared { mBuffer : SharedRefPtr; mOffset : Z; mSize : Z }.

Section SharedBuffer.
Context (limit : Z).

(** [~RefCountedBuffer] *)
Definition delete_buffer (l : loc) (b : BufferT) (m : memory) : run memory := Buffer.destroy false m b.

(** [new RefCountedBuffer(...)], from what the constructor of [Buffer] gives *)
Definition new_counted (h : buffer_heap) (r : run (memory * BufferT)) : run (buffer_heap * loc) :=
  do (m, b) <- r;
  Ret (new_object (with_world h m) b).

(** [mBuffer->f(...)] for an [f] that changes the buffer *)
Definition on_buffer (h : buffer_heap) (l : loc) (f : memory -> BufferT -> run (memory * BufferT)) : run buffer_heap :=
  do b <- value_at h l;
  do (m, b) <- f (world h) b;
  set_value (with_world h m) l b.

(** [mBuffer = p] *)
Definition assign_buffer (h : buffer_heap) (s : SharedBuffer) (p : option loc) : run (buffer_heap * SharedBuffer) :=
  do (h, ptr) <- assign_raw delete_buffer h (mBuffer s) p;
  Ret (h, mkShared ptr (mOffset s) (mSize s)).
Definition with_slice (s : SharedBuffer) (offset size : Z) : SharedBuffer := mkShared (mBuffer s) offset size.

Definition is_consistent (h : buffer_heap) (s : SharedBuffer) : run bool :=
  match mBuffer s with
  | Some l =>
      do b <- value_at h l;
      do c <- Buffer.capacity b;
      do n <- Buffer.size b;
      Ret ((0 <? c) && (mOffset s <=? n) && (wrap 64 (mOffset s + mSize s) <=? n))
  | None => Ret ((mSize s =? 0) && (mOffset s =? 0))
  end.
Definition check_consistent (h : buffer_heap) (s : SharedBuffer) : run unit := do c <- is_consistent h s; check c.

Definition capacity (h : buffer_heap) (s : SharedBuffer) : run Z :=
  do _ <- check_consistent h s;
  match mBuffer s with
  | Some l => do b <- value_at h l; do c <- Buffer.capacity b; Ret (wrap 64 (c - mOffset s))
  | None => Ret 0
  end.

Definition unshare_and_ensure_capacity (h : buffer_heap) (s : SharedBuffer) (new_capacity : Z) : run (buffer_heap * SharedBuffer) :=
  do l <- deref (mBuffer s);
  do one <- has_one_ref h l;
  do enough <- (if one : bool then do c <- capacity h s; Ret (new_capacity <=? c) else Ret false);
  if enough : bool then Ret (h, s)
  else
    do b <- value_at h l;
    do p <- Buffer.data b;
    do (h, n) <- new_counted h (Buffer.new_buffer_data limit (world h) (advance p (mOffset s)) (mSize s) new_capacity);
    do (h, s) <- assign_buffer h s (Some n);
    let s := with_slice s 0 (mSize s) in
    do _ <- check_consistent h s; Ret (h, s).

(** ** Construction, copies and moves *)
Definition new_shared (h : buffer_heap) : run SharedBuffer :=
  let s := mkShared None 0 0 in do _ <- check_consistent h s; Ret s.

Definition new_shared_sized (h : buffer_heap) (size capacity : Z) : run (buffer_heap * SharedBuffer) :=
  do (h, ptr) <-
    (if (0 <? size) || (0 <? capacity) then
       do (h, l) <- new_counted h (Buffer.new_buffer_sized limit (world h) size capacity); construct h (Some l)
     else Ret (h, None));
  let s := mkShared ptr 0 size in
  do _ <- check_consistent h s; Ret (h, s).

Definition new_shared_data (h : buffer_heap) (data : pointer) (size capacity : Z) : run (buffer_heap * SharedBuffer) :=
  do (h, s) <- new_shared_sized h size capacity;
  match mBuffer s with
  | Some l =>
      do h <- on_buffer h l (fun m b => do p <- Buffer.data b; do m <- (if size =? 0 then Ret m else memcpy m p data size); Ret (m, b));
      Ret (h, with_slice s 0 size)
  | None => Ret (h, s)
  end.

Definition copy_shared (h : buffer_heap) (buf : SharedBuffer) : run (buffer_heap * SharedBuffer) :=
  do (h, ptr) <- copy_construct h (mBuffer buf);
  Ret (h, mkShared ptr (mOffset buf) (mSize buf)).

(** The new buffer and what is left in [buf] *)
Definition move_shared (h : buffer_heap) (buf : SharedBuffer) : run (SharedBuffer * SharedBuffer) :=
  let (ptr, rest) := move_construct (mBuffer buf) in
  let s := mkShared ptr (mOffset buf) (mSize buf) in
  let buf := mkShared rest 0 0 in
  do _ <- check_consistent h s; Ret (s, buf).

Definition destroy_shared (h : buffer_heap) (s : SharedBuffer) : run buffer_heap := destroy delete_buffer h (mBuffer s).

Definition assign_shared (h : buffer_heap) (s buf : SharedBuffer) : run (buffer_heap * SharedBuffer) :=
  do _ <- check_consistent h s;
  do _ <- check_consistent h buf;
  do (h, ptr) <- copy_assign delete_buffer h (mBuffer s) (mBuffer buf);
  Ret (h, mkShared ptr (mOffset buf) (mSize buf)).

Definition move_assign_shared (h : buffer_heap) (s buf : SharedBuffer) : run (buffer_heap * SharedBuffer * SharedBuffer) :=
  do _ <- check_consistent h s;
  do _ <- check_consistent h buf;
  do (h, ptr, rest) <- move_assign delete_buffer h (mBuffer s) (mBuffer buf);
  Ret (h, mkShared ptr (mOffset buf) (mSize buf), mkShared rest 0 0).

Definition swap_shared (a b : SharedBuffer) : SharedBuffer * SharedBuffer :=
  let (p, q) := swap (mBuffer a) (mBuffer b) in
  (mkShared p (mOffset b) (mSize b), mkShared q (mOffset a) (mSize a)).

(** The sums are in [size_t]. *)
Definition slice (h : buffer_heap) (s : SharedBuffer) (offset length : Z) : run (buffer_heap * SharedBuffer) :=
  do (h, r) <- copy_shared h s;
  do _ <- check (offset <=? mSize s);
  do _ <- check (wrap 64 (length + offset) <=? mSize s);
  Ret (h, with_slice r (wrap 64 (mOffset r + offset)) length).

(** ** Reading *)
Definition cdata (h : buffer_heap) (s : SharedBuffer) : run pointer :=
  do _ <- check_consistent h s;
  match mBuffer s with
  | Some l => do b <- value_at h l; do p <- Buffer.data b; Ret (advance p (mOffset s))
  | None => Ret None
  end.

Definition get (h : buffer_heap) (s : SharedBuffer) (index : Z) : run Z :=
  do _ <- check_consistent h s;
  do _ <- check (index <? mSize s);
  do p <- cdata h s;
  do xs <- load (world h) (advance p index) 1;
  do l <- contents xs;
  deref (head l).

Definition equals (h : buffer_heap) (s buf : SharedBuffer) : run bool :=
  do _ <- check_consistent h s;
  do _ <- check_consistent h buf;
  if negb (mSize s =? mSize buf) then Ret false
  else
    do p <- cdata h s;
    do q <- cdata h buf;
    if bool_decide (p = q) || (mSize s =? 0) then Ret true
    else
      do xs <- load (world h) p (mSize s);
      do ys <- load (world h) q (mSize s);
      do xs <- contents xs;
      do ys <- contents ys;
      Ret (bool_decide (xs = ys)).

(** ** Changing *)

(** A write through the pointer that [mutable_data] gives *)
Definition mutable_data (h : buffer_heap) (s : SharedBuffer) : run (buffer_heap * SharedBuffer * pointer) :=
  do _ <- check_consistent h s;
  match mBuffer s with
  | None => Ret (h, s, None)
  | Some _ =>
      do c <- capacity h s;
      do (h, s) <- unshare_and_ensure_capacity h s c;
      do l <- deref (mBuffer s);
      do b <- value_at h l;
      do p <- Buffer.data b;
      Ret (h, s, advance p (mOffset s))
  end.
Definition write_through (h : buffer_heap) (p : pointer) (index x : Z) : run buffer_heap :=
  do m <- store_cells (world h) (advance p index) [Some x]; Ret (with_world h m).

Definition set_data (h : buffer_heap) (s : SharedBuffer) (data : pointer) (size : Z) : run (buffer_heap * SharedBuffer) :=
  do _ <- check_consistent h s;
  do (h, s) <-
    (match mBuffer s with
     | None =>
         if 0 <? size then
           do (h, n) <- new_counted h (Buffer.new_buffer_data limit (world h) data size size);
           assign_buffer h s (Some n)
         else assign_buffer h s None
     | Some l =>
         do one <- has_one_ref h l;
         if negb one then
           do c <- capacity h s;
           do (h, n) <- new_counted h (Buffer.new_buffer_data limit (world h) data size c);
           assign_buffer h s (Some n)
         else
           do h <- on_buffer h l (fun m b => Buffer.set_data limit false m b data size);
           Ret (h, s)
     end);
  let s := with_slice s 0 size in
  do _ <- check_consistent h s; Ret (h, s).

Definition append_data (h : buffer_heap) (s : SharedBuffer) (data : pointer) (size : Z) : run (buffer_heap * SharedBuffer) :=
  do _ <- check_consistent h s;
  match mBuffer s with
  | None =>
      do (h, n) <- new_counted h (Buffer.new_buffer_data limit (world h) data size size);
      do (h, s) <- assign_buffer h s (Some n);
      let s := with_slice s 0 size in
      do _ <- check_consistent h s; Ret (h, s)
  | Some _ =>
      do c <- capacity h s;
      do (h, s) <- unshare_and_ensure_capacity h s (Z.max c (wrap 64 (mSize s + size)));
      do l <- deref (mBuffer s);
      do h <- on_buffer h l (fun m b => Buffer.set_size limit false m b (wrap 64 (mOffset s + mSize s)));
      do h <- on_buffer h l (fun m b => Buffer.append_data limit false m b data size);
      let s := with_slice s (mOffset s) (wrap 64 (mSize s + size)) in
      do _ <- check_consistent h s; Ret (h, s)
  end.

Definition set_size (h : buffer_heap) (s : SharedBuffer) (size : Z) : run (buffer_heap * SharedBuffer) :=
  do _ <- check_consistent h s;
  match mBuffer s with
  | None =>
      do (h, s) <-
        (if 0 <? size then
           do (h, n) <- new_counted h (Buffer.new_buffer_sized limit (world h) size size);
           do (h, s) <- assign_buffer h s (Some n);
           Ret (h, with_slice s 0 size)
         else Ret (h, s));
      do _ <- check_consistent h s; Ret (h, s)
  | Some _ =>
      if size <=? mSize s then Ret (h, with_slice s (mOffset s) size)
      else
        do c <- capacity h s;
        do (h, s) <- unshare_and_ensure_capacity h s (Z.max c size);
        do l <- deref (mBuffer s);
        do h <- on_buffer h l (fun m b => Buffer.set_size limit false m b (wrap 64 (size + mOffset s)));
        let s := with_slice s (mOffset s) size in
        do _ <- check_consistent h s; Ret (h, s)
  end.

Definition ensure_capacity (h : buffer_heap) (s : SharedBuffer) (new_capacity : Z) : run (buffer_heap * SharedBuffer) :=
  do _ <- check_consistent h s;
  match mBuffer s with
  | None =>
      do (h, s) <-
        (if 0 <? new_capacity then
           do (h, n) <- new_counted h (Buffer.new_buffer_sized limit (world h) 0 new_capacity);
           do (h, s) <- assign_buffer h s (Some n);
           Ret (h, with_slice s 0 0)
         else Ret (h, s));
      do _ <- check_consistent h s; Ret (h, s)
  | Some _ =>
      do c <- capacity h s;
      if new_capacity <=? c then Ret (h, s)
      else
        do (h, s) <- unshare_and_ensure_capacity h s new_capacity;
        do _ <- check_consistent h s; Ret (h, s)
  end.

Definition clear (h : buffer_heap) (s : SharedBuffer) : run (buffer_heap * SharedBuffer) :=
  match mBuffer s with
  | None => Ret (h, s)
  | Some l =>
      do one <- has_one_ref h l;
      do (h, s) <-
        (if one : bool then do h <- on_buffer h l (fun m b => Buffer.clear false m b); Ret (h, s)
         else
           do c <- capacity h s;
           do (h, n) <- new_counted h (Buffer.new_buffer_sized limit (world h) 0 c);
           assign_buffer h s (Some n));
      let s := with_slice s 0 0 in
      do _ <- check_consistent h s; Ret (h, s)
  end.
End SharedBuffer.
