(* ===== verification/SharedBufferFacts.v ===== *)
(** * Shared buffers: correctness

    Slices of shared buffers behave as independent values. The lemmas are local: an
    operation on one slice sees the heap, its own slice and, for the other slices, only how
    many of them refer to each buffer. *)

From stdpp Require Import prelude list gmap.
From Stdlib Require Import ZArith Lia.
From S2P Require Import Prelude CxxInt RefCount Memory BufferFacts SharedBuffer.
From S2P Require Buffer.

#[local] Open Scope Z_scope.
#[local] Open Scope cxx_scope.

Section Facts.
Context (limit : Z) (Hlimit : 0 < limit <= 2 ^ 62).
Notation holds m b l R := (holds_with limit false 0 m b l R).

Lemma tidy_plain (m : memory) : tidy false m.
Proof. apply Forall_forall. intros cs _ Hz. done. Qed.
#[local] Hint Resolve tidy_plain : core.

(** ** The heap of buffers *)

(** The elements of the buffer at [l] *)
Definition elems (h : buffer_heap) (l : loc) : option (list cell) :=
  o ← objects h !! l; d ← Buffer.mData (value o); cs ← blocks (world h) !! d; Some (take (Z.to_nat (Buffer.mSize (value o))) cs).

(** A buffer with an array of its own, which holds [L] *)
Definition owns (m : memory) (b : BufferT) (L : list cell) : Prop :=
  exists d, Buffer.mData b = Some d /\ is_Some (blocks m !! d) /\ 0 < Buffer.mCapacity b /\ holds m b L (delete d (blocks m)).

Record buffers_ok (h : buffer_heap) : Prop := {
  bufs_memory : memory_ok (world h);
  bufs_own : forall l o, objects h !! l = Some o -> exists L, owns (world h) (value o) L;
  bufs_apart : forall l o l' o', objects h !! l = Some o -> objects h !! l' = Some o' ->
    Buffer.mData (value o) = Buffer.mData (value o') -> l = l'
}.

(** What an operation keeps of the buffers that others refer to *)
Definition kept (others : loc -> Z) (h h' : buffer_heap) : Prop :=
  forall l, others l <> 0 -> elems h' l = elems h l /\ value <$> objects h' !! l = value <$> objects h !! l.

(** The block of the buffer behind a slice *)
Definition own_block (h : buffer_heap) (s : SharedBuffer) : option block := l ← mBuffer s; o ← objects h !! l; Buffer.mData (value o).

Lemma holds_owns (m : memory) (b : BufferT) (L : list cell) (R : gmap block (list cell)) :
  holds m b L R -> 0 < Buffer.mCapacity b -> owns m b L.
Proof.
  intros Hh Hc. destruct (Buffer.mData b) as [d|] eqn:Ed.
  - exists d. destruct (holds_block limit false 0 m b L R d Hh Ed) as (spare & HRd & HB & _). split_and!; try done.
    + by rewrite HB, lookup_insert_eq.
    + assert (delete d (blocks m) = R) as ->; [|done]. rewrite HB, delete_insert_eq. by apply delete_id.
  - destruct Hh as [_ _ _ Hd]. rewrite Ed in Hd. lia.
Qed.

Lemma owns_elems (h : buffer_heap) (l : loc) (o : object) (L : list cell) :
  objects h !! l = Some o -> owns (world h) (value o) L -> elems h l = Some L.
Proof.
  intros Ho (d & Ed & _ & _ & Hh). unfold elems. rewrite Ho. cbn. rewrite Ed. cbn.
  destruct (holds_block limit false 0 _ _ L _ d Hh Ed) as (spare & _ & HB & _ & _ & _ & Hs & _).
  rewrite HB, lookup_insert_eq. cbn. by rewrite Hs, Nat2Z.id, take_app_length.
Qed.

(** Memory in which a buffer's block is what it was *)
Lemma owns_frame (m m' : memory) (b : BufferT) (L : list cell) (d : block) :
  owns m b L -> memory_ok m' -> Buffer.mData b = Some d -> blocks m' !! d = blocks m !! d -> owns m' b L.
Proof.
  intros (d' & Ed' & Hs & Hc & Hh) Hm Ed HB. rewrite Ed in Ed'. injection Ed' as <-. exists d. split_and!; try done; [by rewrite HB|].
  destruct Hh as [_ H2 H3 H4]. split; try done. rewrite Ed in *. destruct H4 as (spare & _ & HB0 & Hcap & Hcl).
  exists spare. split_and!; try done; [apply lookup_delete_eq|]. rewrite insert_delete_eq. symmetry. apply insert_id.
  rewrite HB, HB0. apply lookup_insert_eq.
Qed.

(** ** Changing one buffer *)
Lemma replace_buffer (h : buffer_heap) (refs : loc -> Z) (l : loc) (o : object) (d : block) (m' : memory) (b' : BufferT) (L' : list cell) :
  counted h refs -> buffers_ok h -> objects h !! l = Some o -> Buffer.mData (value o) = Some d ->
  holds m' b' L' (delete d (blocks (world h))) -> 0 < Buffer.mCapacity b' ->
  let h' := mkHeap (<[l := mkObject (mRefCount o) b']> (objects h)) (next_loc h) m' in
  counted h' refs /\ buffers_ok h' /\ elems h' l = Some L' /\ (forall k, k <> l -> elems h' k = elems h k) /\
  (forall q, q <> d -> is_Some (blocks (world h) !! q) -> Buffer.mData b' <> Some q /\ blocks m' !! q = blocks (world h) !! q).
Proof.
  intros [C1 C2 C3] [B1 B2 B3] Ho Ed Hh Hc h'.
  pose proof (holds_owns m' b' L' _ Hh Hc) as Hown.
  assert (Hoth : forall q, q <> d -> is_Some (blocks (world h) !! q) -> Buffer.mData b' <> Some q /\ blocks m' !! q = blocks (world h) !! q).
  { intros q Hq [cs Hcs]. destruct Hown as (d' & Ed' & _). destruct (holds_block limit false 0 _ _ L' _ d' Hh Ed') as (spare & HRd & HB & _).
    assert (Hne : d' <> q) by (intros ->; rewrite lookup_delete_ne in HRd; congruence).
    rewrite Ed', HB, lookup_insert_ne, lookup_delete_ne by done. split; [congruence|done]. }
  assert (Hblock : forall k x, k <> l -> objects h !! k = Some x -> exists e, Buffer.mData (value x) = Some e /\ e <> d /\ is_Some (blocks (world h) !! e)).
  { intros k x Hk Hx. destruct (B2 k x Hx) as (L & e & Ee & He & _). exists e. split_and!; [done| |done].
    intros ->. apply Hk. apply (B3 k x l o Hx Ho). congruence. }
  split_and!.
  - split; cbn; [| |].
    + intros k x. destruct (decide (k = l)) as [->|Hne]; [rewrite lookup_insert_eq; intros [= <-]; by apply (C1 l o)|].
      rewrite lookup_insert_ne by done. apply C1.
    + intros k Hk. apply lookup_insert_is_Some'. right. by apply C2.
    + intros k. rewrite lookup_insert_is_Some'. intros [<-|Hk]; apply C3; eauto.
  - assert (Hm' : memory_ok m') by apply Hh. split; cbn; [done| |].
    + intros k x. destruct (decide (k = l)) as [->|Hne]; [rewrite lookup_insert_eq; intros [= <-]; by exists L'|].
      rewrite lookup_insert_ne by done. intros Hx. destruct (B2 k x Hx) as [L HL]. exists L.
      destruct (Hblock k x Hne Hx) as (e & Ee & Hed & Hes). apply (owns_frame (world h) m' _ L e); try done. by apply Hoth.
    + intros k x k' x'. destruct (decide (k = l)) as [->|Hk], (decide (k' = l)) as [->|Hk']; [done| | |].
      * rewrite lookup_insert_eq, lookup_insert_ne by done. intros [= <-] Hx' E. destruct (Hblock k' x' Hk' Hx') as (e & Ee & Hed & Hes).
        cbn in E. destruct (Hoth e Hed Hes) as [Hno _]. congruence.
      * rewrite lookup_insert_eq, lookup_insert_ne by done. intros Hx [= <-] E. destruct (Hblock k x Hk Hx) as (e & Ee & Hed & Hes).
        cbn in E. destruct (Hoth e Hed Hes) as [Hno _]. congruence.
      * rewrite !lookup_insert_ne by done. apply B3.
  - apply (owns_elems h' l (mkObject (mRefCount o) b')); [apply lookup_insert_eq|done].
  - intros k Hk. unfold elems. cbn. rewrite lookup_insert_ne by done. destruct (objects h !! k) as [x|] eqn:Hx; [|done]. cbn.
    destruct (Hblock k x Hk Hx) as (e & Ee & Hed & Hes). rewrite Ee. cbn. by rewrite (proj2 (Hoth e Hed Hes)).
  - exact Hoth.
Qed.

Lemma on_buffer_spec (h : buffer_heap) (refs : loc -> Z) (l : loc) (o : object) (d : block) (f : memory -> BufferT -> run (memory * BufferT))
    (m' : memory) (b' : BufferT) (L' : list cell) :
  counted h refs -> buffers_ok h -> objects h !! l = Some o -> Buffer.mData (value o) = Some d ->
  f (world h) (value o) = Ret (m', b') -> holds m' b' L' (delete d (blocks (world h))) -> 0 < Buffer.mCapacity b' ->
  exists h', on_buffer h l f = Ret h' /\ counted h' refs /\ buffers_ok h' /\ elems h' l = Some L' /\
    (forall k, k <> l -> elems h' k = elems h k) /\ objects h' = <[l := mkObject (mRefCount o) b']> (objects h) /\ world h' = m' /\
    (forall q, q <> d -> is_Some (blocks (world h) !! q) -> Buffer.mData b' <> Some q /\ blocks m' !! q = blocks (world h) !! q).
Proof.
  intros Hc Hb Ho Ed Ef Hh Hcap. unfold on_buffer, value_at. rewrite Ho. cbn [deref run_bind]. rewrite Ef. cbn [run_bind].
  unfold set_value. cbn. rewrite Ho. cbn [deref run_bind].
  destruct (replace_buffer h refs l o d m' b' L' Hc Hb Ho Ed Hh Hcap) as (H1 & H2 & H3 & H4 & H5).
  eexists. split; [reflexivity|]. by split_and!.
Qed.

(** ** Letting go of a buffer, and taking a new one *)
Lemma elems_same (h h' : buffer_heap) (l : loc) :
  (value <$> objects h') !! l = (value <$> objects h) !! l ->
  (forall o d, objects h !! l = Some o -> Buffer.mData (value o) = Some d -> blocks (world h') !! d = blocks (world h) !! d) ->
  elems h' l = elems h l.
Proof.
  rewrite !lookup_fmap. intros Hv HB. unfold elems. destruct (objects h !! l) as [o|] eqn:Ho, (objects h' !! l) as [o'|]; try done.
  cbn in Hv |- *. injection Hv as ->. destruct (Buffer.mData (value o)) as [d|] eqn:Ed; [|done]. cbn. by rewrite (HB o d).
Qed.

(** Fewer buffers, with the values they had *)
Lemma buffers_ok_sub (h h' : buffer_heap) :
  buffers_ok h -> memory_ok (world h') -> (forall l x, objects h' !! l = Some x -> exists y, objects h !! l = Some y /\ value x = value y) ->
  (forall l x d, objects h' !! l = Some x -> Buffer.mData (value x) = Some d -> blocks (world h') !! d = blocks (world h) !! d) -> buffers_ok h'.
Proof.
  intros [B1 B2 B3] Hm Hsub HB. split; [done| |].
  - intros l x Hx. destruct (Hsub l x Hx) as (y & Hy & Ev). destruct (B2 l y Hy) as [L HL]. exists L. rewrite <- Ev in HL.
    destruct HL as (d & Ed & HL). apply (owns_frame (world h) _ _ L d); [by exists d|done|done|]. by apply (HB l x d).
  - intros l x l' x' Hx Hx' E. destruct (Hsub l x Hx) as (y & Hy & Ev), (Hsub l' x' Hx') as (y' & Hy' & Ev').
    apply (B3 l y l' y'); try done. congruence.
Qed.

Lemma drop_buffer (h : buffer_heap) (refs : loc -> Z) (l : loc) :
  counted h (fun k => refs k + owner (Some l) k) -> (forall k, 0 <= refs k) -> buffers_ok h ->
  exists h' status, release delete_buffer h l = Ret (h', status) /\ counted h' refs /\ buffers_ok h' /\ kept refs h h' /\
    (forall k x, objects h' !! k = Some x -> exists y, objects h !! k = Some y /\ value x = value y) /\
    (forall q o, objects h !! l = Some o -> Buffer.mData (value o) <> Some q -> blocks (world h') !! q = blocks (world h) !! q).
Proof.
  intros Hc Hpos Hb. destruct (cnt_alive _ _ Hc l) as [o Ho]; [rewrite owner_same; specialize (Hpos l); lia|].
  destruct (bufs_own h Hb l o Ho) as (L & d & Ed & Hd & _ & Hh).
  destruct (destroy_buffer_spec limit false _ _ _ _ Hh (tidy_plain _)) as (m & E & HB & _ & Hn).
  destruct (release_object_spec delete_buffer h refs l o Hc Hpos Ho) as (h' & st & Er & Hc' & Hnl & Hcase); [intros _; by exists m|].
  exists h', st. destruct Hcase as [(Hz & _ & Hobj & Ew)|(Hnz & _ & Hval & Hw)].
  - unfold delete_buffer in Ew. rewrite E in Ew. injection Ew as Ew.
    assert (Hsub : forall k x, objects h' !! k = Some x -> k <> l /\ objects h !! k = Some x).
    { intros k x. rewrite Hobj. intros [? ?]%lookup_delete_Some. by split. }
    assert (Hblk : forall k x e, k <> l -> objects h !! k = Some x -> Buffer.mData (value x) = Some e -> blocks (world h') !! e = blocks (world h) !! e).
    { intros k x e Hk Hx Ee. rewrite <- Ew, HB. apply lookup_delete_ne. intros <-. apply Hk. apply (bufs_apart h Hb k x l o); congruence. }
    assert (Hmem : memory_ok (world h')).
    { intros e. rewrite <- Ew, HB, Hn. intros [cs [_ He]%lookup_delete_Some]. apply (bufs_memory h Hb). eauto. }
    split_and!; try done.
    + apply (buffers_ok_sub h h' Hb Hmem); [intros k x [_ Hx]%Hsub; by exists x|]. intros k x e [Hk Hx]%Hsub. by apply (Hblk k x).
    + intros k Hk. assert (Hv : value <$> objects h' !! k = value <$> objects h !! k) by (rewrite Hobj, lookup_delete_ne; [done|]; intros <-; lia).
      split; [|done]. apply elems_same; [by rewrite !lookup_fmap|]. intros x e Hx Ee. apply (Hblk k x); try done. intros ->. lia.
    + intros k x [_ Hx]%Hsub. by exists x.
    + intros q x Hx Hq. rewrite <- Ew, HB. apply lookup_delete_ne. congruence.
  - assert (Hsub : forall k x, objects h' !! k = Some x -> exists y, objects h !! k = Some y /\ value x = value y).
    { intros k x Hx. assert (Hk : (value <$> objects h') !! k = Some (value x)) by (by rewrite lookup_fmap, Hx).
      rewrite Hval, lookup_fmap in Hk. destruct (objects h !! k) as [y|]; [|done]. injection Hk as Hk. by exists y. }
    split_and!; try done.
    + apply (buffers_ok_sub h h' Hb); [rewrite Hw; apply Hb|done|by intros; rewrite Hw].
    + intros k _. split; [|by rewrite <- !lookup_fmap, Hval]. apply elems_same; [by rewrite Hval|]. intros. by rewrite Hw.
    + intros q x _ _. by rewrite Hw.
Qed.

(** A buffer made for the slice [s], which lets go of its own *)
Lemma take_new_buffer (h : buffer_heap) (others : loc -> Z) (s : SharedBuffer) (r : run (memory * BufferT)) (m' : memory) (b' : BufferT) (L' : list cell) :
  counted h (fun k => others k + owner (mBuffer s) k) -> (forall k, 0 <= others k) -> buffers_ok h ->
  r = Ret (m', b') -> holds m' b' L' (blocks (world h)) -> 0 < Buffer.mCapacity b' ->
  exists h' n o, (do (h, n) <- new_counted h r; assign_buffer h s (Some n)) = Ret (h', mkShared (Some n) (mOffset s) (mSize s)) /\
    counted h' (fun k => others k + owner (Some n) k) /\ buffers_ok h' /\ elems h' n = Some L' /\ others n = 0 /\ kept others h h' /\
    objects h' !! n = Some o /\ value o = b' /\
    (forall q, own_block h s <> Some q -> is_Some (blocks (world h) !! q) -> Buffer.mData b' <> Some q /\ blocks (world h') !! q = blocks (world h) !! q).
Proof.
  intros Hc Hpos Hb -> Hh Hcap. unfold new_counted. cbn [run_bind].
  set (h1 := with_world h m').
  assert (Hc1 : counted h1 (fun k => others k + owner (mBuffer s) k)) by (destruct Hc; by split).
  destruct (new_object_spec h1 _ b' Hc1) as (h2 & E2 & Hc2 & Hw2 & Ho2 & Hf2 & _). cbn in Ho2, Hf2, Hw2, Hc2.
  destruct (new_object h1 b') as [h1' n] eqn:En. assert (n = next_loc h) as En' by (by injection En as _ <-). rewrite <- En' in *. clear En'.
  cbn [fst snd] in E2. unfold assign_buffer, assign_raw. rewrite E2. cbn [run_bind].
  destruct (holds_owns _ _ _ _ Hh Hcap) as (d' & Ed' & Hd' & _ & Hh').
  destruct (holds_block limit false 0 _ _ L' _ d' Hh Ed') as (spare & HRd & HB & _).
  assert (Hfr : forall q, is_Some (blocks (world h) !! q) -> q <> d' /\ blocks m' !! q = blocks (world h) !! q).
  { intros q [cs Hq]. assert (q <> d') by congruence. by rewrite HB, lookup_insert_ne. }
  assert (Hn0 : others n = 0).
  { destruct (decide (others n = 0)) as [|Hne]; [done|]. destruct (cnt_alive _ _ Hc n) as [x Hx]; [|congruence].
    pose proof (owner_range (mBuffer s) n). specialize (Hpos n). lia. }
  assert (Hb2 : buffers_ok h2).
  { destruct Hb as [B1 B2 B3]. split.
    - rewrite Hw2. apply Hh.
    - intros k x. rewrite Ho2, Hw2. destruct (decide (k = n)) as [->|Hne]; [rewrite lookup_insert_eq; intros [= <-]; exists L'; by apply (holds_owns _ _ _ (blocks (world h)))|].
      rewrite lookup_insert_ne by done. intros Hx. destruct (B2 k x Hx) as (L & e & Ee & He & HL). exists L.
      apply (owns_frame (world h) _ _ L e); [by exists e|apply Hh|done|by apply Hfr].
    - intros k x k' x'. rewrite !Ho2. destruct (decide (k = n)) as [->|Hk], (decide (k' = n)) as [->|Hk']; [done| | |].
      + rewrite lookup_insert_eq, lookup_insert_ne by done. intros [= <-] Hx E. cbn in E. destruct (B2 k' x' Hx) as (L & e & Ee & He & _).
        destruct (Hfr e He). congruence.
      + rewrite lookup_insert_eq, lookup_insert_ne by done. intros Hx [= <-] E. cbn in E. destruct (B2 k x Hx) as (L & e & Ee & He & _).
        destruct (Hfr e He). congruence.
      + rewrite !lookup_insert_ne by done. apply B3. }
  assert (He2 : elems h2 n = Some L').
  { apply (owns_elems h2 n (mkObject 1 b')); [by rewrite Ho2, lookup_insert_eq|]. rewrite Hw2. by apply (holds_owns _ _ _ (blocks (world h))). }
  assert (Hk2 : forall k, k <> n -> elems h2 k = elems h k /\ value <$> objects h2 !! k = value <$> objects h !! k).
  { intros k Hk. split; [|by rewrite Ho2, lookup_insert_ne]. apply elems_same; [by rewrite !lookup_fmap, Ho2, lookup_insert_ne|]. intros x e Hx Ee. rewrite Hw2.
    destruct (bufs_own h Hb k x Hx) as (L & e' & Ee' & He' & _). apply Hfr. congruence. }
  assert (Hf2' : forall q, is_Some (blocks (world h) !! q) -> Buffer.mData b' <> Some q /\ blocks (world h2) !! q = blocks (world h) !! q).
  { intros q Hs. destruct (Hfr q Hs) as [Hne HBq]. rewrite Hw2. split; [congruence|done]. }
  destruct (mBuffer s) as [l|] eqn:Es; cbn [run_bind].
  - assert (Hc2' : counted h2 (fun k => others k + owner (Some n) k + owner (Some l) k)).
    { eapply owners_ext; [|exact Hc2]. intros k. cbn. lia. }
    destruct (drop_buffer h2 _ l Hc2') as (h3 & st & E3 & Hc3 & Hb3 & Hk3 & Hsub3 & Hf3); [intros k; pose proof (owner_range (Some n) k); specialize (Hpos k); lia|done|].
    rewrite E3. cbn [run_bind].
    assert (Hn3 : elems h3 n = Some L').
    { destruct (Hk3 n) as [-> _]; [rewrite owner_same; specialize (Hpos n); lia|done]. }
    assert (Ho3 : exists o, objects h3 !! n = Some o /\ value o = b').
    { destruct (cnt_alive _ _ Hc3 n) as [o Ho]; [rewrite owner_same; specialize (Hpos n); lia|]. exists o. split; [done|].
      destruct (Hsub3 n o Ho) as (y & Hy & ->). rewrite Ho2, lookup_insert_eq in Hy. by injection Hy as <-. }
    destruct Ho3 as (o & Ho3 & Ev). exists h3, n, o. split_and!; try done.
    + intros k Hk. destruct (Hk2 k) as [E1 E2']; [congruence|]. rewrite <- E1, <- E2'. apply Hk3. pose proof (owner_range (Some n) k). specialize (Hpos k). lia.
    + intros q Hq Hs. destruct (Hf2' q Hs) as [Hq2 HB2]. split; [done|]. rewrite <- HB2.
      destruct (cnt_alive _ _ Hc l) as [x Hx]; [rewrite owner_same; specialize (Hpos l); lia|].
      assert (Hln : l <> n) by (intros ->; congruence).
      apply (Hf3 q x); [by rewrite Ho2, lookup_insert_ne|]. unfold own_block in Hq. rewrite Es in Hq. cbn in Hq. by rewrite Hx in Hq.
  - exists h2, n, (mkObject 1 b'). split_and!; try done.
    + eapply owners_ext; [|exact Hc2]. intros k. cbn. pose proof (owner_other None k). rewrite H by done. lia.
    + intros k Hk. apply Hk2. congruence.
    + by rewrite Ho2, lookup_insert_eq.
    + intros q _. apply Hf2'.
Qed.

(** ** Slices *)
Definition slice_ok (h : buffer_heap) (s : SharedBuffer) (L : list cell) : Prop :=
  match mBuffer s with
  | None => mOffset s = 0 /\ mSize s = 0 /\ L = []
  | Some l => exists E, elems h l = Some E /\ 0 <= mOffset s /\ 0 <= mSize s /\ mOffset s + mSize s <= Z.of_nat (length E) /\
      L = take (Z.to_nat (mSize s)) (drop (Z.to_nat (mOffset s)) E)
  end.

Lemma slice_length (h : buffer_heap) (s : SharedBuffer) (L : list cell) : slice_ok h s L -> Z.of_nat (length L) = mSize s.
Proof.
  unfold slice_ok. destruct (mBuffer s); [|by intros (_ & -> & ->)].
  intros (E & _ & H1 & H2 & H3 & ->). rewrite length_take, length_drop. lia.
Qed.

Lemma slice_kept (others : loc -> Z) (h h' : buffer_heap) (t : SharedBuffer) (L : list cell) :
  kept others h h' -> (forall l, mBuffer t = Some l -> others l <> 0) -> slice_ok h t L -> slice_ok h' t L.
Proof.
  unfold slice_ok. intros Hk Ho. destruct (mBuffer t) as [l|]; [|done]. intros (E & HE & H). exists E. by rewrite (proj1 (Hk l (Ho l eq_refl))).
Qed.

(** The buffer behind a slice *)
Record behind (h : buffer_heap) (l : loc) (o : object) (d : block) (E : list cell) : Prop := {
  behind_object : objects h !! l = Some o;
  behind_data : Buffer.mData (value o) = Some d;
  behind_holds : holds (world h) (value o) E (delete d (blocks (world h)));
  behind_capacity : 0 < Buffer.mCapacity (value o) <= limit;
  behind_size : Buffer.mSize (value o) = Z.of_nat (length E);
  behind_room : Z.of_nat (length E) <= Buffer.mCapacity (value o);
  behind_elems : elems h l = Some E;
  behind_block : is_Some (blocks (world h) !! d)
}.

Lemma behind_spec (h : buffer_heap) (l : loc) (E : list cell) : buffers_ok h -> elems h l = Some E -> exists o d, behind h l o d E.
Proof.
  intros Hb HE. pose proof HE as HE'. unfold elems in HE. destruct (objects h !! l) as [o|] eqn:Ho; [|done]. cbn in HE.
  destruct (bufs_own h Hb l o Ho) as [L HL]. pose proof (owns_elems h l o L Ho HL) as HE2. assert (L = E) as -> by congruence.
  destruct HL as (d & Ed & Hd & Hc & Hh). exists o, d.
  pose proof (holds_range _ _ _ _ _ _ _ Hh). pose proof (holds_size _ _ _ _ _ _ _ Hh). pose proof (holds_capacity _ _ _ _ _ _ _ Hh).
  split; try done; lia.
Qed.

Lemma value_at_behind (h : buffer_heap) (l : loc) (o : object) (d : block) (E : list cell) :
  behind h l o d E -> value_at h l = Ret (value o).
Proof. intros H. unfold value_at. by rewrite (behind_object _ _ _ _ _ H). Qed.

Lemma buffer_consistent (h : buffer_heap) (l : loc) (o : object) (d : block) (E : list cell) :
  behind h l o d E -> Buffer.is_consistent (value o) = true.
Proof. intros H. eapply holds_consistent, behind_holds, H. Qed.

Lemma check_consistent_spec (h : buffer_heap) (s : SharedBuffer) (L : list cell) :
  buffers_ok h -> slice_ok h s L -> check_consistent h s = Ret tt.
Proof.
  intros Hb Hs. unfold check_consistent, is_consistent, slice_ok in *. destruct (mBuffer s) as [l|].
  - destruct Hs as (E & HE & H1 & H2 & H3 & _). destruct (behind_spec h l E Hb HE) as (o & d & Hbh).
    rewrite (value_at_behind h l o d E Hbh). cbn [run_bind]. unfold Buffer.capacity, Buffer.size.
    rewrite (buffer_consistent h l o d E Hbh). cbn [check run_bind]. rewrite (behind_size _ _ _ _ _ Hbh).
    pose proof (behind_capacity _ _ _ _ _ Hbh). pose proof (behind_room _ _ _ _ _ Hbh).
    rewrite wrap_small by lia. by rewrite (proj2 (Z.ltb_lt 0 _)), !(proj2 (Z.leb_le _ _)) by lia.
  - destruct Hs as (-> & -> & _). done.
Qed.

Lemma capacity_spec (h : buffer_heap) (s : SharedBuffer) (l : loc) (o : object) (d : block) (E L : list cell) :
  buffers_ok h -> slice_ok h s L -> mBuffer s = Some l -> behind h l o d E ->
  capacity h s = Ret (Buffer.mCapacity (value o) - mOffset s) /\ mSize s <= Buffer.mCapacity (value o) - mOffset s.
Proof.
  intros Hb Hs Es Hbh. unfold capacity. rewrite (check_consistent_spec h s L Hb Hs). cbn [run_bind]. rewrite Es.
  rewrite (value_at_behind h l o d E Hbh). cbn [run_bind]. unfold Buffer.capacity. rewrite (buffer_consistent h l o d E Hbh). cbn [check run_bind].
  unfold slice_ok in Hs. rewrite Es in Hs. destruct Hs as (E' & HE' & H1 & H2 & H3 & _).
  assert (E' = E) as -> by (pose proof (behind_elems _ _ _ _ _ Hbh); congruence).
  pose proof (behind_capacity _ _ _ _ _ Hbh). pose proof (behind_room _ _ _ _ _ Hbh). rewrite wrap_small by lia. split; [done|lia].
Qed.

Lemma has_one_ref_spec (h : buffer_heap) (others : loc -> Z) (l : loc) :
  counted h (fun k => others k + owner (Some l) k) -> 0 <= others l -> has_one_ref h l = Ret (others l =? 0).
Proof.
  intros Hc Hp. destruct (cnt_alive _ _ Hc l) as [o Ho]; [rewrite owner_same; lia|]. unfold has_one_ref. rewrite Ho. cbn.
  destruct (cnt_exact _ _ Hc l o Ho) as [-> _]. rewrite owner_same. unfold one_ref. f_equal.
  destruct (others l =? 0) eqn:E; zbool; [by rewrite E|]. apply Z.eqb_neq. lia.
Qed.

(** What an operation on [s] leaves: a slice [s'] with elements [L'], everything that the other
    slices refer to, and the blocks of all other buffers and arrays, as they were. *)
Record outcome (others : loc -> Z) (h : buffer_heap) (s : SharedBuffer) (h' : buffer_heap) (s' : SharedBuffer) (L' : list cell) : Prop := {
  out_counted : counted h' (fun k => others k + owner (mBuffer s') k);
  out_buffers : buffers_ok h';
  out_slice : slice_ok h' s' L';
  out_kept : kept others h h';
  out_blocks : forall q, own_block h s <> Some q -> is_Some (blocks (world h) !! q) ->
    own_block h' s' <> Some q /\ blocks (world h') !! q = blocks (world h) !! q
}.

Lemma outcome_refl (others : loc -> Z) (h : buffer_heap) (s s' : SharedBuffer) (L : list cell) :
  counted h (fun k => others k + owner (mBuffer s) k) -> buffers_ok h -> slice_ok h s' L -> mBuffer s' = mBuffer s ->
  outcome others h s h s' L.
Proof. intros Hc Hb Hs E. split; try done; [by rewrite E|]. unfold own_block. by rewrite E. Qed.

Lemma outcome_trans (others : loc -> Z) (h h1 h2 : buffer_heap) (s s1 s2 : SharedBuffer) (L1 L2 : list cell) :
  outcome others h s h1 s1 L1 -> outcome others h1 s1 h2 s2 L2 -> outcome others h s h2 s2 L2.
Proof.
  intros [_ _ _ Hk1 Hf1] [Hc2 Hb2 Hs2 Hk2 Hf2]. split; try done.
  - intros l Hl. destruct (Hk1 l Hl) as [<- <-]. by apply Hk2.
  - intros q Hq Hs. destruct (Hf1 q Hq Hs) as [Hq1 HB1]. destruct (Hf2 q Hq1) as [Hq2 HB2]; [by rewrite HB1|]. split; [done|congruence].
Qed.

(** A new buffer for a slice, from its start *)
Lemma outcome_new (others : loc -> Z) (h : buffer_heap) (s : SharedBuffer) (r : run (memory * BufferT)) (m' : memory) (b' : BufferT) (L' : list cell) (n : Z) :
  counted h (fun k => others k + owner (mBuffer s) k) -> (forall k, 0 <= others k) -> buffers_ok h ->
  r = Ret (m', b') -> holds m' b' L' (blocks (world h)) -> 0 < Buffer.mCapacity b' -> n = Z.of_nat (length L') ->
  exists h' s' l o, (do (h, l) <- new_counted h r; assign_buffer h s (Some l)) = Ret (h', s') /\ mBuffer s' = Some l /\ others l = 0 /\
    mSize s' = mSize s /\ objects h' !! l = Some o /\ value o = b' /\ outcome others h s h' (with_slice s' 0 n) L'.
Proof.
  intros Hc Hp Hb E Hh Hcap ->. destruct (take_new_buffer h others s r m' b' L' Hc Hp Hb E Hh Hcap) as (h' & l & o & E' & Hc' & Hb' & He & Hn & Hk & Ho & Ev & Hf).
  exists h', (mkShared (Some l) (mOffset s) (mSize s)), l, o. split_and!; try done. split; try done.
  - unfold slice_ok. cbn. exists L'. split_and!; try done; try lia. by rewrite drop_0, Nat2Z.id, take_ge.
  - intros q Hq Hs. destruct (Hf q Hq Hs) as [Hq' HB]. split; [|done]. unfold own_block. cbn. rewrite Ho. cbn. by rewrite Ev.
Qed.

(** A copy of one's own, with room *)
Lemma unshare_spec (others : loc -> Z) (h : buffer_heap) (s : SharedBuffer) (l : loc) (o : object) (d : block) (E L : list cell) (nc : Z) :
  counted h (fun k => others k + owner (mBuffer s) k) -> (forall k, 0 <= others k) -> buffers_ok h -> slice_ok h s L ->
  mBuffer s = Some l -> behind h l o d E ->
  (others l = 0 /\ nc <= Buffer.mCapacity (value o) - mOffset s \/ 0 < Z.max (mSize s) nc <= limit) ->
  exists h' s' l' o' d' E', unshare_and_ensure_capacity limit h s nc = Ret (h', s') /\ outcome others h s h' s' L /\
    mBuffer s' = Some l' /\ others l' = 0 /\ behind h' l' o' d' E' /\ nc <= Buffer.mCapacity (value o') - mOffset s' /\ mSize s' = mSize s.
Proof.
  intros Hc Hp Hb Hs Es Hbh Hor. destruct (capacity_spec h s l o d E L Hb Hs Es Hbh) as [Ec Hroom].
  pose proof (slice_length h s L Hs) as HL. pose proof Hs as Hs'. unfold slice_ok in Hs'. rewrite Es in Hs'. destruct Hs' as (E' & HE' & H1 & H2 & H3 & HLE).
  assert (E' = E) as -> by (pose proof (behind_elems _ _ _ _ _ Hbh); congruence).
  unfold unshare_and_ensure_capacity. rewrite Es. cbn [deref run_bind]. pose proof Hc as Hc'. rewrite Es in Hc'.
  rewrite (has_one_ref_spec h others l Hc' (Hp l)). cbn [run_bind].
  assert (Hcase : (others l = 0 /\ nc <= Buffer.mCapacity (value o) - mOffset s) \/
    ((if others l =? 0 then do c <- capacity h s; Ret (nc <=? c) else Ret false) = Ret false /\ 0 < Z.max (mSize s) nc <= limit)).
  { destruct (others l =? 0) eqn:E0; zbool; [|right; split; [done|destruct Hor as [[? _]|?]; [done|done]]].
    rewrite Ec. cbn [run_bind]. destruct (nc <=? Buffer.mCapacity (value o) - mOffset s) eqn:E1; zbool; [by left|right]. split; [done|].
    destruct Hor as [[_ ?]|?]; [lia|done]. }
  destruct Hcase as [[H0 Hle]|[-> Hmax]].
  - rewrite H0, Ec. cbn [Z.eqb run_bind]. rewrite (proj2 (Z.leb_le _ _)) by done. cbn [run_bind].
    exists h, s, l, o, d, E. split_and!; try done.
  - cbn [run_bind]. rewrite (value_at_behind h l o d E Hbh). cbn [run_bind]. unfold Buffer.data. rewrite (buffer_consistent h l o d E Hbh).
    cbn [check run_bind]. rewrite (behind_data _ _ _ _ _ Hbh). change (advance (begin_of (Some d)) (mOffset s)) with (Some (d, 0 + mOffset s)).
    destruct (holds_block limit false 0 _ _ E _ d (behind_holds _ _ _ _ _ Hbh) (behind_data _ _ _ _ _ Hbh)) as (spare & _ & HB & _ & _ & _ & _ & Hm).
    rewrite insert_delete_eq in HB.
    destruct (new_buffer_data_spec limit false (world h) (Some (d, 0 + mOffset s)) (mSize s) nc L Hm) as (m' & b' & Er & Hh' & Hcap'); [|done|].
    { right. exists d, (0 + mOffset s), (E ++ spare). split_and!; try done; try lia; [|rewrite length_app; lia|].
      - rewrite HB at 1. apply lookup_insert_eq.
      - rewrite Z.add_0_l, HLE, drop_app_le by lia. rewrite take_app_le by (rewrite length_drop; lia). done. }
    destruct (outcome_new others h s _ m' b' L (mSize s) Hc Hp Hb Er Hh') as (h2 & s2 & l2 & o2 & E2 & Es2 & Hl2 & Hsz & Ho2 & Ev2 & Hout); [lia|done|].
    destruct (new_counted h _) as [[h1 n1]| | |]; try done. cbn [run_bind] in E2 |- *. rewrite E2. cbn [run_bind]. rewrite Hsz.
    rewrite (check_consistent_spec h2 _ L (out_buffers _ _ _ _ _ _ Hout) (out_slice _ _ _ _ _ _ Hout)). cbn [run_bind].
    pose proof (out_slice _ _ _ _ _ _ Hout) as Hsl. unfold slice_ok in Hsl. cbn in Hsl. rewrite Es2 in Hsl. destruct Hsl as (E3 & HE3 & _).
    destruct (behind_spec h2 l2 E3 (out_buffers _ _ _ _ _ _ Hout) HE3) as (o3 & d3 & Hbh3).
    assert (o3 = o2) as -> by (pose proof (behind_object _ _ _ _ _ Hbh3); congruence).
    exists h2, (with_slice s2 0 (mSize s)), l2, o2, d3, E3. split_and!; try done. cbn. rewrite Ev2. lia.
Qed.

(** ** Operations *)

(** Memory without the block of the slice's buffer *)
Definition elsewhere (h : buffer_heap) (s : SharedBuffer) : gmap block (list cell) :=
  match own_block h s with Some d => delete d (blocks (world h)) | None => blocks (world h) end.

Lemma readable_delete (B : gmap block (list cell)) (d : block) (p : pointer) (n : Z) (xs : list cell) :
  readable (delete d B) p n xs -> readable B p n xs.
Proof.
  intros [?|(q & o & cs & -> & Hq & H)]; [by left|right]. apply lookup_delete_Some in Hq as [_ Hq]. by exists q, o, cs.
Qed.

Lemma readable_all (h : buffer_heap) (s : SharedBuffer) (p : pointer) (n : Z) (xs : list cell) :
  readable (elsewhere h s) p n xs -> readable (blocks (world h)) p n xs.
Proof. unfold elsewhere. destruct (own_block h s); [apply readable_delete|done]. Qed.

Lemma own_block_behind (h : buffer_heap) (s : SharedBuffer) (l : loc) (o : object) (d : block) (E : list cell) :
  mBuffer s = Some l -> behind h l o d E -> own_block h s = Some d.
Proof.
  intros Es H. unfold own_block. rewrite Es. cbn. rewrite (behind_object _ _ _ _ _ H). cbn. apply (behind_data _ _ _ _ _ H).
Qed.

(** A source that an operation has left alone is still readable. *)
Lemma readable_outcome (others : loc -> Z) (h h' : buffer_heap) (s s' : SharedBuffer) (L : list cell) (p : pointer) (n : Z) (xs : list cell) :
  outcome others h s h' s' L -> readable (elsewhere h s) p n xs -> readable (elsewhere h' s') p n xs.
Proof.
  intros Hout [?|(q & o & cs & -> & Hq & H)]; [by left|right].
  assert (Hq' : own_block h s <> Some q /\ blocks (world h) !! q = Some cs).
  { unfold elsewhere in Hq. destruct (own_block h s) as [d|]; [|by split]. apply lookup_delete_Some in Hq as [? ?]. split; congruence. }
  destruct Hq' as [Hne HB]. destruct (out_blocks _ _ _ _ _ _ Hout q Hne) as [Hne' HB']; [by rewrite HB|].
  exists q, o, cs. split; [done|]. split; [|done]. unfold elsewhere. destruct (own_block h' s') as [d|]; [|congruence].
  rewrite lookup_delete_ne; congruence.
Qed.

(** Room for an operation that may have to make a new buffer for a slice with nothing in it *)
Definition stocked (h : buffer_heap) (s : SharedBuffer) : Prop :=
  match mBuffer s with
  | None => True
  | Some l => has_one_ref h l = Ret true \/ exists c, capacity h s = Ret c /\ 0 < c
  end.

Section Operations.
Context (others : loc -> Z) (h : buffer_heap) (s : SharedBuffer) (L : list cell).
Context (Hc : counted h (fun k => others k + owner (mBuffer s) k)) (Hp : forall k, 0 <= others k) (Hb : buffers_ok h) (Hs : slice_ok h s L).

Lemma own_buffer (l : loc) : mBuffer s = Some l ->
  exists o d E, behind h l o d E /\ has_one_ref h l = Ret (others l =? 0) /\ capacity h s = Ret (Buffer.mCapacity (value o) - mOffset s) /\
    own_block h s = Some d /\ 0 <= mOffset s /\ 0 <= mSize s /\ mOffset s + mSize s <= Z.of_nat (length E) /\
    L = take (Z.to_nat (mSize s)) (drop (Z.to_nat (mOffset s)) E).
Proof.
  intros Es. pose proof Hs as Hs'. unfold slice_ok in Hs'. rewrite Es in Hs'. destruct Hs' as (E & HE & H1 & H2 & H3 & HL).
  destruct (behind_spec h l E Hb HE) as (o & d & Hbh). exists o, d, E.
  destruct (capacity_spec h s l o d E L Hb Hs Es Hbh) as [Ec _]. rewrite Es in Hc.
  split_and!; try done; [by apply has_one_ref_spec|by apply (own_block_behind h s l o d E)].
Qed.

Lemma empty_slice : mBuffer s = None -> mOffset s = 0 /\ mSize s = 0 /\ L = [].
Proof. intros Es. unfold slice_ok in Hs. by rewrite Es in Hs. Qed.

(** One's own buffer, changed in place *)
Lemma change_own (l : loc) (o : object) (d : block) (E : list cell) (f : memory -> BufferT -> run (memory * BufferT)) (m' : memory) (b' : BufferT)
    (E' L' : list cell) (s' : SharedBuffer) :
  mBuffer s = Some l -> others l = 0 -> behind h l o d E -> f (world h) (value o) = Ret (m', b') ->
  holds m' b' E' (delete d (blocks (world h))) -> 0 < Buffer.mCapacity b' -> mBuffer s' = Some l ->
  0 <= mOffset s' -> 0 <= mSize s' -> mOffset s' + mSize s' <= Z.of_nat (length E') ->
  L' = take (Z.to_nat (mSize s')) (drop (Z.to_nat (mOffset s')) E') ->
  exists h' o' d', on_buffer h l f = Ret h' /\ outcome others h s h' s' L' /\ behind h' l o' d' E' /\ value o' = b'.
Proof.
  intros Es H0 Hbh Ef Hh Hcap Es' H1 H2 H3 HL'.
  destruct (on_buffer_spec h _ l o d f m' b' E' Hc Hb (behind_object _ _ _ _ _ Hbh) (behind_data _ _ _ _ _ Hbh) Ef Hh Hcap)
    as (h' & E1 & Hc' & Hb' & He & Hk & Hobj & Hw & Hf).
  destruct (behind_spec h' l E' Hb' He) as (o' & d' & Hbh').
  exists h', o', d'. split; [done|]. split; [|split; [done|]].
  2:{ pose proof (behind_object _ _ _ _ _ Hbh') as Ho'. rewrite Hobj, lookup_insert_eq in Ho'. by injection Ho' as <-. }
  split; try done.
  - by rewrite Es', <- Es.
  - unfold slice_ok. rewrite Es'. exists E'. by split_and!.
  - intros k Hk0. assert (k <> l) by congruence. split; [by apply Hk|]. by rewrite Hobj, lookup_insert_ne.
  - intros q Hq Hqs. rewrite (own_block_behind h s l o d E Es Hbh) in Hq. destruct (Hf q) as [Hq' HB]; [congruence|done|].
    split; [|by rewrite Hw]. unfold own_block. rewrite Es'. cbn. rewrite Hobj, lookup_insert_eq. done.
Qed.

(** The slice after the check that ends an operation *)
Lemma finish_spec (h1 : buffer_heap) (s1 : SharedBuffer) (L1 : list cell) : outcome others h s h1 s1 L1 ->
  exists h' s', (do _ <- check_consistent h1 s1; Ret (h1, s1)) = Ret (h', s') /\ outcome others h s h' s' L1.
Proof.
  intros Hout. rewrite (check_consistent_spec h1 _ L1 (out_buffers _ _ _ _ _ _ Hout) (out_slice _ _ _ _ _ _ Hout)).
  cbn [run_bind]. by eexists _, _.
Qed.

(** A new buffer in place of the slice's *)
Lemma renew_spec (r : run (memory * BufferT)) (m' : memory) (b' : BufferT) (L' : list cell) (n : Z) :
  r = Ret (m', b') -> holds m' b' L' (blocks (world h)) -> 0 < Buffer.mCapacity b' -> n = Z.of_nat (length L') ->
  exists h1 s1 h' s', (do (h, l) <- new_counted h r; assign_buffer h s (Some l)) = Ret (h1, s1) /\
    (do _ <- check_consistent h1 (with_slice s1 0 n); Ret (h1, with_slice s1 0 n)) = Ret (h', s') /\ outcome others h s h' s' L'.
Proof.
  intros Er Hh Hcap Hn. destruct (outcome_new others h s r m' b' L' n Hc Hp Hb Er Hh Hcap Hn) as (h1 & s1 & l1 & o1 & E1 & _ & _ & _ & _ & _ & Hout).
  destruct (finish_spec h1 _ L' Hout) as (h' & s' & E & Hout'). by exists h1, s1, h', s'.
Qed.

Lemma clear_shared_spec : stocked h s ->
  exists h' s', clear limit h s = Ret (h', s') /\ outcome others h s h' s' [].
Proof.
  intros Hst. unfold clear. destruct (mBuffer s) as [l|] eqn:Es in |- *.
  2:{ destruct (empty_slice Es) as (_ & _ & HL). exists h, s. split; [done|]. rewrite <- HL. by apply outcome_refl. }
  destruct (own_buffer l Es) as (o & d & E & Hbh & E1 & Ec & Ed & H1 & _). rewrite E1. cbn [run_bind].
  unfold stocked in Hst. rewrite Es, E1, Ec in Hst.
  destruct (others l =? 0) eqn:E0; zbool.
  - destruct (clear_buffer_spec limit false _ _ E _ (behind_holds _ _ _ _ _ Hbh) (tidy_plain _)) as (m' & Ef & Hh & _).
    destruct (change_own l o d E (fun m b => Buffer.clear false m b) m' _ [] [] (with_slice s 0 0) Es E0 Hbh Ef Hh) as (h' & o' & d' & E' & Hout & _);
      try done; [apply Hbh|]. rewrite E'. cbn [run_bind]. by apply finish_spec.
  - rewrite Ec. cbn [run_bind]. destruct Hst as [?|(c & [= <-] & Hpos)]; [congruence|]. pose proof (behind_capacity _ _ _ _ _ Hbh) as Hcap.
    destruct (new_buffer_sized_spec limit false (world h) 0 (Buffer.mCapacity (value o) - mOffset s) (bufs_memory h Hb)) as (m' & b' & Er & Hh & Hcb & _); [done|lia|].
    destruct (renew_spec _ m' b' [] 0 Er Hh) as (h1 & s1 & h2 & s2 & Ea & Ef & Hout); [lia|done|].
    destruct (new_counted h _) as [[h0 n0]| | |]; try done. cbn [run_bind] in Ea |- *. rewrite Ea. cbn [run_bind]. rewrite Ef. by exists h2, s2.
Qed.

Lemma set_data_shared_spec (p : pointer) (n : Z) (xs : list cell) :
  readable (elsewhere h s) p n xs -> 2 * n <= limit -> (stocked h s \/ 0 < n) ->
  exists h' s', set_data limit h s p n = Ret (h', s') /\ outcome others h s h' s' xs.
Proof.
  intros Hrd Hn Hst. pose proof (readable_length _ _ _ _ Hrd) as [Hn0 Hxs]. unfold set_data.
  rewrite (check_consistent_spec h s L Hb Hs). cbn [run_bind]. destruct (mBuffer s) as [l|] eqn:Es in |- *.
  - destruct (own_buffer l Es) as (o & d & E & Hbh & E1 & Ec & Ed & H1 & H2 & H3 & _). rewrite E1. cbn [run_bind].
    pose proof (behind_capacity _ _ _ _ _ Hbh) as Hcap. destruct (others l =? 0) eqn:E0; zbool; cbn [negb].
    + assert (Hrd' : readable (delete d (blocks (world h))) p n xs) by (unfold elsewhere in Hrd; by rewrite Ed in Hrd).
      destruct (set_data_spec limit false Hlimit _ _ E xs _ p n (behind_holds _ _ _ _ _ Hbh) (tidy_plain _) Hrd') as (m' & b' & Ef & Hh & _ & Hle).
      { unfold grown. destruct (n <=? Buffer.mCapacity (value o)) eqn:E2; zbool; [lia|].
        assert (Buffer.mCapacity (value o) / 2 <= Buffer.mCapacity (value o)) by (Z.to_euclidean_division_equations; lia). lia. }
      destruct (change_own l o d E (fun m b => Buffer.set_data limit false m b p n) m' b' xs xs (with_slice s 0 n) Es E0 Hbh Ef Hh) as (h' & o' & d' & E' & Hout & _);
        try done; try (cbn; lia).
      { cbn. by rewrite drop_0, take_ge by lia. }
      rewrite E'. cbn [run_bind]. by apply finish_spec.
    + rewrite Ec. cbn [run_bind].
      assert (Hmax : 0 < Z.max n (Buffer.mCapacity (value o) - mOffset s) <= limit).
      { destruct Hst as [Hst|]; [|lia]. unfold stocked in Hst. rewrite Es, E1, Ec in Hst. destruct Hst as [?|(c & [= <-] & Hpos)]; [congruence|lia]. }
      destruct (new_buffer_data_spec limit false (world h) p n _ xs (bufs_memory h Hb) (readable_all _ _ _ _ _ Hrd) Hmax) as (m' & b' & Er & Hh & Hcb).
      destruct (renew_spec _ m' b' xs n Er Hh) as (h1 & s1 & h2 & s2 & Ea & Ef & Hout); [lia|done|].
      destruct (new_counted h _) as [[h0 n0]| | |]; try done. cbn [run_bind] in Ea |- *. rewrite Ea. cbn [run_bind]. rewrite Ef. by exists h2, s2.
  - destruct (0 <? n) eqn:En; zbool.
    + destruct (new_buffer_data_spec limit false (world h) p n n xs (bufs_memory h Hb) (readable_all _ _ _ _ _ Hrd)) as (m' & b' & Er & Hh & Hcb); [lia|].
      destruct (renew_spec _ m' b' xs n Er Hh) as (h1 & s1 & h2 & s2 & Ea & Ef & Hout); [lia|done|].
      destruct (new_counted h _) as [[h0 n0]| | |]; try done. cbn [run_bind] in Ea |- *. rewrite Ea. cbn [run_bind]. rewrite Ef. by exists h2, s2.
    + unfold assign_buffer, assign_raw. rewrite Es. cbn [run_bind]. destruct (empty_slice Es) as (_ & _ & _).
      replace n with 0 in * by lia. destruct xs; [|cbn in Hxs; lia]. apply finish_spec. by apply outcome_refl.
Qed.

End Operations.

(** A slice whose buffer nobody else refers to, at least as large as asked for *)
Record exclusive (others : loc -> Z) (h : buffer_heap) (s : SharedBuffer) (l : loc) (o : object) (d : block) (E : list cell) (nc : Z) : Prop := {
  exc_counted : counted h (fun k => others k + owner (mBuffer s) k);
  exc_buffers : buffers_ok h;
  exc_pointer : mBuffer s = Some l;
  exc_alone : others l = 0;
  exc_behind : behind h l o d E;
  exc_room : nc <= Buffer.mCapacity (value o) - mOffset s;
  exc_offset : 0 <= mOffset s;
  exc_size : 0 <= mSize s;
  exc_end : mOffset s + mSize s <= Z.of_nat (length E)
}.

Section Growing.
Context (others : loc -> Z) (h : buffer_heap) (s : SharedBuffer) (L : list cell).
Context (Hc : counted h (fun k => others k + owner (mBuffer s) k)) (Hp : forall k, 0 <= others k) (Hb : buffers_ok h) (Hs : slice_ok h s L).

(** The slice after [unshare_and_ensure_capacity] *)
Lemma exclusive_spec (l : loc) (nc : Z) : mBuffer s = Some l -> nc <= limit ->
  (stocked h s /\ (forall c, capacity h s = Ret c -> c <= nc) \/ 0 < nc) ->
  exists h1 s1 l1 o1 d1 E1, unshare_and_ensure_capacity limit h s nc = Ret (h1, s1) /\ outcome others h s h1 s1 L /\
    exclusive others h1 s1 l1 o1 d1 E1 nc /\ mSize s1 = mSize s /\
    L = take (Z.to_nat (mSize s1)) (drop (Z.to_nat (mOffset s1)) E1).
Proof.
  intros Es Hlim Hor. destruct (own_buffer others h s L Hc Hp Hb Hs l Es) as (o & d & E & Hbh & Eo & Ec & Ed & H1 & H2 & H3 & HL).
  pose proof (behind_capacity _ _ _ _ _ Hbh) as Hcap. pose proof (behind_room _ _ _ _ _ Hbh) as Hroom.
  destruct (unshare_spec others h s l o d E L nc Hc Hp Hb Hs Es Hbh) as (h1 & s1 & l1 & o1 & d1 & E1 & Eu & Hout & Es1 & H01 & Hbh1 & Hroom1 & Hsz1).
  { destruct Hor as [[Hst Hle]|Hnc]; [|right; lia]. specialize (Hle _ Ec). unfold stocked in Hst. rewrite Es, Eo, Ec in Hst.
    destruct Hst as [E0|(c & [= <-] & Hpos)]; [|right; lia]. injection E0 as E0. zbool.
    destruct (Z.le_gt_cases nc (Buffer.mCapacity (value o) - mOffset s)); [by left|right; lia]. }
  exists h1, s1, l1, o1, d1, E1. pose proof (out_slice _ _ _ _ _ _ Hout) as Hs1. unfold slice_ok in Hs1. rewrite Es1 in Hs1.
  destruct Hs1 as (E2 & HE2 & H11 & H12 & H13 & HL1). assert (E2 = E1) as -> by (pose proof (behind_elems _ _ _ _ _ Hbh1); congruence).
  split_and!; try done. split; try done; apply Hout.
Qed.

(** The elements of a slice at the end of what its buffer holds *)
Lemma slice_end (off size : nat) (E x : list cell) : (off + size <= length E)%nat ->
  take (size + length x) (drop off (take (off + size) E ++ x)) = take size (drop off E) ++ x.
Proof.
  intros H. rewrite drop_app_le by (rewrite length_take; lia).
  assert (Hd : drop off (take (off + size) E) = take size (drop off E)) by (rewrite skipn_firstn_comm; f_equal; lia).
  rewrite Hd. apply take_ge. rewrite length_app, length_take, length_drop. lia.
Qed.

Lemma append_shared_spec (p : pointer) (n : Z) (xs : list cell) :
  readable (elsewhere h s) p n xs -> mSize s + n <= limit -> (mBuffer s <> None /\ stocked h s \/ 0 < n) ->
  exists h' s', append_data limit h s p n = Ret (h', s') /\ outcome others h s h' s' (L ++ xs).
Proof.
  intros Hrd Hn Hst. pose proof (readable_length _ _ _ _ Hrd) as [Hn0 Hxs]. unfold append_data.
  rewrite (check_consistent_spec h s L Hb Hs). cbn [run_bind]. destruct (mBuffer s) as [l|] eqn:Es in |- *.
  - destruct (own_buffer others h s L Hc Hp Hb Hs l Es) as (o & d & E & Hbh & Eo & Ec & Ed & H1 & H2 & H3 & HL).
    pose proof (behind_capacity _ _ _ _ _ Hbh) as Hcap. rewrite Ec. cbn [run_bind]. rewrite (wrap_small 64) by lia.
    set (nc := Z.max (Buffer.mCapacity (value o) - mOffset s) (mSize s + n)).
    destruct (exclusive_spec l nc Es) as (h1 & s1 & l1 & o1 & d1 & E1 & Eu & Hout1 & [Hc1 Hb1 Es1 H01 Hbh1 Hroom1 Ho1 Hz1 He1] & Hsz1 & HL1); [lia| |].
    { destruct Hst as [[_ Hst]|Hst]; [left|right; lia]. split; [done|]. intros c Ec'. rewrite Ec in Ec'. injection Ec' as <-. lia. }
    pose proof (behind_capacity _ _ _ _ _ Hbh1) as Hcap1. pose proof (behind_size _ _ _ _ _ Hbh1) as Hbs1.
    rewrite Eu. cbn [run_bind]. rewrite Es1. cbn [deref run_bind]. rewrite !wrap_small by lia.
    destruct (set_size_spec limit false Hlimit _ _ E1 _ (mOffset s1 + mSize s1) (behind_holds _ _ _ _ _ Hbh1) (tidy_plain _))
      as (m2 & b2 & x & Ef2 & Hh2 & _ & Hx & Hsz2 & Hcb2); [lia|unfold grown; rewrite (proj2 (Z.leb_le _ _)) by lia; lia|].
    destruct x; [|cbn in Hx; lia]. rewrite app_nil_r in Hh2. unfold grown in Hcb2. rewrite (proj2 (Z.leb_le _ _)) in Hcb2 by lia.
    replace (Z.to_nat (mOffset s1 + mSize s1)) with (Z.to_nat (mOffset s1) + Z.to_nat (mSize s1))%nat in Hh2 by lia.
    set (E2 := take (Z.to_nat (mOffset s1) + Z.to_nat (mSize s1)) E1) in *.
    assert (HE2 : Z.of_nat (length E2) = mOffset s1 + mSize s1) by (unfold E2; rewrite length_take; lia).
    destruct (change_own others h1 s1 Hc1 Hb1 l1 o1 d1 E1
      (fun m b => Buffer.set_size limit false m b (mOffset s1 + mSize s1)) m2 b2 E2 L s1 Es1 H01 Hbh1 Ef2 Hh2) as (h2 & o2 & d2 & Eb2 & Hout2 & Hbh2 & Hv2); try done; try lia.
    { rewrite HL1. pose proof (slice_end (Z.to_nat (mOffset s1)) (Z.to_nat (mSize s1)) E1 []) as Hse. cbn [length] in Hse.
      rewrite Nat.add_0_r, !app_nil_r in Hse. symmetry. apply Hse. lia. }
    rewrite Eb2. cbn [run_bind].
    pose proof (outcome_trans _ _ _ _ _ _ _ _ _ Hout1 Hout2) as Hout12. pose proof (readable_outcome _ _ _ _ _ _ _ _ _ Hout12 Hrd) as Hrd2.
    unfold elsewhere in Hrd2. rewrite (own_block_behind h2 s1 l1 o2 d2 E2 Es1 Hbh2) in Hrd2.
    pose proof (behind_size _ _ _ _ _ Hbh2) as Hbs2. pose proof (behind_capacity _ _ _ _ _ Hbh2) as Hcap2. rewrite Hv2 in *.
    destruct (append_data_spec limit false Hlimit 0 _ _ E2 xs _ p n (behind_holds _ _ _ _ _ Hbh2) (tidy_plain _) Hrd2) as (m3 & b3 & Ef3 & Hh3 & _ & _ & Hcb3 & _).
    { rewrite Hv2. unfold grown. rewrite (proj2 (Z.leb_le _ _)) by lia. lia. }
    rewrite Hv2 in Hcb3.
    set (s3 := with_slice s1 (mOffset s1) (mSize s1 + n)).
    destruct (change_own others h2 s1 (out_counted _ _ _ _ _ _ Hout2) (out_buffers _ _ _ _ _ _ Hout2) l1 o2 d2 E2
      (fun m b => Buffer.append_data limit false m b p n) m3 b3 (E2 ++ xs) (L ++ xs) s3 Es1 H01 Hbh2 Ef3 Hh3) as (h3 & o3 & d3 & Eb3 & Hout3 & _); try done; try lia; cbn.
    { lia. } { rewrite length_app. lia. }
    { rewrite HL1. replace (Z.to_nat (mSize s1 + n)) with (Z.to_nat (mSize s1) + length xs)%nat by lia. symmetry. apply slice_end. lia. }
    rewrite Eb3. cbn [run_bind]. apply (finish_spec others h s). by apply (outcome_trans _ _ h2 _ _ s1 _ L).
  - destruct Hst as [[? _]|Hpos]; [done|]. destruct (empty_slice h s L Hs Es) as (_ & Hz & ->).
    destruct (new_buffer_data_spec limit false (world h) p n n xs (bufs_memory h Hb) (readable_all _ _ _ _ _ Hrd)) as (m' & b' & Er & Hh & Hcb); [lia|].
    destruct (renew_spec others h s Hc Hp Hb _ m' b' xs n Er Hh) as (h1 & s1 & h2 & s2 & Ea & Ef & Hout); [lia|done|].
    destruct (new_counted h _) as [[h0 n0]| | |]; try done. cbn [run_bind] in Ea |- *. rewrite Ea. cbn [run_bind]. rewrite Ef. by exists h2, s2.
Qed.

Lemma slice_grown (off size n : nat) (E x : list cell) : (off + size <= length E)%nat -> (size <= n)%nat ->
  take size (take n (drop off (take (off + n) E ++ x))) = take size (drop off E).
Proof.
  intros H Hn. rewrite take_take, Nat.min_l by lia. rewrite drop_app_le by (rewrite length_take; lia).
  replace (drop off (take (off + n) E)) with (take n (drop off E)) by (rewrite skipn_firstn_comm; f_equal; lia).
  rewrite take_app_le by (rewrite length_take, length_drop; lia). rewrite take_take. by rewrite Nat.min_l by lia.
Qed.

Lemma set_size_shared_spec (n : Z) : 0 <= n <= limit ->
  exists h' s' x, set_size limit h s n = Ret (h', s') /\ outcome others h s h' s' (take (Z.to_nat n) L ++ x) /\ mSize s' = n.
Proof.
  intros Hn. unfold set_size. pose proof (slice_length h s L Hs) as Hlen.
  rewrite (check_consistent_spec h s L Hb Hs). cbn [run_bind]. destruct (mBuffer s) as [l|] eqn:Es in |- *.
  - destruct (own_buffer others h s L Hc Hp Hb Hs l Es) as (o & d & E & Hbh & Eo & Ec & Ed & H1 & H2 & H3 & HL).
    pose proof (behind_capacity _ _ _ _ _ Hbh) as Hcap. destruct (n <=? mSize s) eqn:En; zbool.
    + exists h, (with_slice s (mOffset s) n), []. split_and!; try done. rewrite app_nil_r. apply outcome_refl; try done.
      unfold slice_ok. cbn. rewrite Es. exists E. split_and!; try done; try lia; [apply Hbh|].
      rewrite HL, take_take. f_equal. lia.
    + rewrite Ec. cbn [run_bind]. set (nc := Z.max (Buffer.mCapacity (value o) - mOffset s) n).
      destruct (exclusive_spec l nc Es) as (h1 & s1 & l1 & o1 & d1 & E1 & Eu & Hout1 & [Hc1 Hb1 Es1 H01 Hbh1 Hroom1 Ho1 Hz1 He1] & Hsz1 & HL1); [lia|right; lia|].
      pose proof (behind_capacity _ _ _ _ _ Hbh1) as Hcap1. pose proof (behind_size _ _ _ _ _ Hbh1) as Hbs1.
      rewrite Eu. cbn [run_bind]. rewrite Es1. cbn [deref run_bind]. rewrite wrap_small by lia.
      destruct (set_size_spec limit false Hlimit _ _ E1 _ (n + mOffset s1) (behind_holds _ _ _ _ _ Hbh1) (tidy_plain _))
        as (m2 & b2 & x & Ef2 & Hh2 & _ & Hx & Hsz2 & Hcb2); [lia|unfold grown; rewrite (proj2 (Z.leb_le _ _)) by lia; lia|].
      unfold grown in Hcb2. rewrite (proj2 (Z.leb_le _ _)) in Hcb2 by lia.
      replace (Z.to_nat (n + mOffset s1)) with (Z.to_nat (mOffset s1) + Z.to_nat n)%nat in Hh2 by lia.
      set (E2 := take (Z.to_nat (mOffset s1) + Z.to_nat n) E1 ++ x) in *. set (L2 := take (Z.to_nat n) (drop (Z.to_nat (mOffset s1)) E2)).
      assert (HE2 : Z.of_nat (length E2) = mOffset s1 + n) by (rewrite <- (holds_size _ _ _ _ _ _ _ Hh2), Hsz2; lia).
      destruct (change_own others h1 s1 Hc1 Hb1 l1 o1 d1 E1 (fun m b => Buffer.set_size limit false m b (n + mOffset s1)) m2 b2 E2 L2
        (with_slice s1 (mOffset s1) n) Es1 H01 Hbh1 Ef2 Hh2) as (h2 & o2 & d2 & Eb2 & Hout2 & _ & _); try done; try lia; cbn.
      { lia. } { lia. }
      rewrite Eb2. cbn [run_bind]. assert (Hpre : L2 = take (Z.to_nat n) L ++ drop (Z.to_nat (mSize s1)) L2).
      { rewrite <- (take_drop (Z.to_nat (mSize s1)) L2) at 1. f_equal. unfold L2, E2. rewrite slice_grown by lia.
        rewrite <- HL1. symmetry. apply take_ge. lia. }
      destruct (finish_spec others h s h2 (with_slice s1 (mOffset s1) n) L2) as (h' & s' & Ef & Hout).
      { by apply (outcome_trans _ _ h1 _ _ s1 _ L). }
      rewrite Ef. exists h', s', (drop (Z.to_nat (mSize s1)) L2). rewrite <- Hpre. split_and!; try done.
      rewrite <- (slice_length _ _ _ (out_slice _ _ _ _ _ _ Hout)). unfold L2. rewrite length_take, length_drop. lia.
  - destruct (empty_slice h s L Hs Es) as (Ho & Hz & HL). destruct (0 <? n) eqn:En; zbool.
    + destruct (new_buffer_sized_spec limit false (world h) n n (bufs_memory h Hb)) as (m' & b' & Er & Hh & Hcb & _); [lia|lia|].
      destruct (renew_spec others h s Hc Hp Hb _ m' b' _ n Er Hh) as (h1 & s1 & h2 & s2 & Ea & Ef & Hout); [lia|rewrite length_replicate; lia|].
      destruct (new_counted h _) as [[h0 n0]| | |]; try done. cbn [run_bind] in Ea |- *. rewrite Ea. cbn [run_bind]. rewrite Ef.
      exists h2, s2, (replicate (Z.to_nat n) None). rewrite HL, take_nil. split_and!; try done.
      rewrite <- (slice_length _ _ _ (out_slice _ _ _ _ _ _ Hout)), length_replicate. lia.
    + cbn [run_bind]. replace n with 0 by lia. destruct (finish_spec others h s h s L) as (h' & s' & Ef & Hout); [by apply outcome_refl|].
      rewrite Ef. exists h', s', []. rewrite HL in *. split_and!; try done. rewrite <- (slice_length _ _ _ (out_slice _ _ _ _ _ _ Hout)). done.
Qed.

Lemma ensure_capacity_shared_spec (nc : Z) : nc <= limit ->
  exists h' s' c, ensure_capacity limit h s nc = Ret (h', s') /\ outcome others h s h' s' L /\ capacity h' s' = Ret c /\ nc <= c.
Proof.
  intros Hn. unfold ensure_capacity. rewrite (check_consistent_spec h s L Hb Hs). cbn [run_bind].
  destruct (mBuffer s) as [l|] eqn:Es in |- *.
  - destruct (own_buffer others h s L Hc Hp Hb Hs l Es) as (o & d & E & Hbh & Eo & Ec & Ed & H1 & H2 & H3 & HL).
    rewrite Ec. cbn [run_bind]. destruct (nc <=? Buffer.mCapacity (value o) - mOffset s) eqn:En; zbool.
    { eexists h, s, _. split_and!; [done|by apply outcome_refl|exact Ec|done]. }
    pose proof (behind_room _ _ _ _ _ Hbh).
    destruct (exclusive_spec l nc Es) as (h1 & s1 & l1 & o1 & d1 & E1 & Eu & Hout1 & [Hc1 Hb1 Es1 H01 Hbh1 Hroom1 Ho1 Hz1 He1] & Hsz1 & HL1); [lia|right; lia|].
    rewrite Eu. cbn [run_bind]. destruct (finish_spec others h s h1 s1 L Hout1) as (h' & s' & Ef & Hout). pose proof Ef as Ef'. 
    rewrite (check_consistent_spec h1 s1 L Hb1 (out_slice _ _ _ _ _ _ Hout1)) in Ef |- *. cbn [run_bind] in Ef |- *. injection Ef as <- <-.
    eexists h1, s1, _. split_and!; [done|done|apply (capacity_spec h1 s1 l1 o1 d1 E1 L Hb1 (out_slice _ _ _ _ _ _ Hout1) Es1 Hbh1)|done].
  - destruct (empty_slice h s L Hs Es) as (Ho & Hz & HL). destruct (0 <? nc) eqn:En; zbool.
    + destruct (new_buffer_sized_spec limit false (world h) 0 nc (bufs_memory h Hb)) as (m' & b' & Er & Hh & Hcb & _); [lia|lia|].
      destruct (outcome_new others h s _ m' b' [] 0 Hc Hp Hb Er Hh) as (h1 & s1 & l1 & o1 & Ea & Es1 & _ & _ & Hobj & Hv & Hout); [lia|done|].
      destruct (new_counted h _) as [[h0 n0]| | |]; try done. cbn [run_bind] in Ea |- *. rewrite Ea. cbn [run_bind].
      set (s2 := with_slice s1 0 0) in *. pose proof (out_slice _ _ _ _ _ _ Hout) as Hs2. pose proof (out_buffers _ _ _ _ _ _ Hout) as Hb2.
      rewrite (check_consistent_spec h1 s2 [] Hb2 Hs2). cbn [run_bind]. pose proof Hs2 as Hs2'. unfold slice_ok in Hs2'. cbn in Hs2'. rewrite Es1 in Hs2'.
      destruct Hs2' as (E2 & HE2 & _). destruct (behind_spec h1 l1 E2 Hb2 HE2) as (o2 & d2 & Hbh2).
      assert (o2 = o1) as -> by (pose proof (behind_object _ _ _ _ _ Hbh2); congruence).
      eexists h1, s2, _. rewrite HL. split_and!; [done|done|by apply (capacity_spec h1 s2 l1 o1 d2 E2 [] Hb2 Hs2 Es1 Hbh2)|]. rewrite Hv. cbn. lia.
    + cbn [run_bind]. rewrite (check_consistent_spec h s L Hb Hs). cbn [run_bind]. exists h, s, 0. split_and!; [done|by apply outcome_refl| |done].
      unfold capacity. rewrite (check_consistent_spec h s L Hb Hs). cbn [run_bind]. by rewrite Es.
Qed.

Lemma slice_insert (off size i : nat) (E : list cell) (x : cell) : (i < size)%nat ->
  take size (drop off (<[(off + i)%nat := x]> E)) = <[i := x]> (take size (drop off E)).
Proof. intros Hi. rewrite drop_insert_ge by lia. replace (off + i - off)%nat with i by lia. by apply take_insert_lt. Qed.

(** A write at an index, through the pointer *)
Lemma write_shared_spec (i : nat) (x : Z) : (i < length L)%nat ->
  exists h1 s1 p h2, mutable_data limit h s = Ret (h1, s1, p) /\ write_through h1 p (Z.of_nat i) x = Ret h2 /\
    outcome others h s h2 s1 (<[i := Some x]> L).
Proof.
  intros Hi. pose proof (slice_length h s L Hs) as Hlen. unfold mutable_data. rewrite (check_consistent_spec h s L Hb Hs). cbn [run_bind].
  destruct (mBuffer s) as [l|] eqn:Es in |- *; [|destruct (empty_slice h s L Hs Es) as (_ & ? & _); lia].
  destruct (own_buffer others h s L Hc Hp Hb Hs l Es) as (o & d & E & Hbh & Eo & Ec & Ed & H1 & H2 & H3 & HL).
  pose proof (behind_capacity _ _ _ _ _ Hbh) as Hcap. pose proof (behind_room _ _ _ _ _ Hbh). rewrite Ec. cbn [run_bind].
  destruct (exclusive_spec l (Buffer.mCapacity (value o) - mOffset s) Es) as (h1 & s1 & l1 & o1 & d1 & E1 & Eu & Hout1 & [Hc1 Hb1 Es1 H01 Hbh1 Hroom1 Ho1 Hz1 He1] & Hsz1 & HL1);
    [lia|right; lia|].
  rewrite Eu. cbn [run_bind]. rewrite Es1. cbn [deref run_bind]. rewrite (value_at_behind h1 l1 o1 d1 E1 Hbh1). cbn [run_bind].
  unfold Buffer.data. rewrite (buffer_consistent h1 l1 o1 d1 E1 Hbh1). cbn [check run_bind]. rewrite (behind_data _ _ _ _ _ Hbh1).
  destruct (holds_block limit false 0 _ _ E1 _ d1 (behind_holds _ _ _ _ _ Hbh1) (behind_data _ _ _ _ _ Hbh1)) as (spare & HRd & HB & Hcb & _ & Hlim & Hsz & Hm).
  set (k := (Z.to_nat (mOffset s1) + i)%nat). assert (Hk : (k < length E1)%nat) by (unfold k; lia). set (m2 := with_blocks (world h1) (<[d1 := <[k := Some x]> E1 ++ spare]> (blocks (world h1)))).
  assert (Est : store_cells (world h1) (Some (d1, 0 + mOffset s1 + Z.of_nat i)) [Some x] = Ret m2).
  { rewrite (store_cells_spec _ d1 (E1 ++ spare)); [|by rewrite HB, lookup_insert_eq|lia|rewrite length_app; cbn; lia].
    unfold m2. do 2 f_equal. replace (Z.to_nat (0 + mOffset s1 + Z.of_nat i)) with k by lia. unfold overwrite. cbn [length].
    rewrite take_app_le, drop_app_le by lia. rewrite insert_take_drop by exact Hk. rewrite <- app_assoc. cbn. by rewrite Nat.add_1_r. }
  assert (Hh2 : holds m2 (value o1) (<[k := Some x]> E1) (delete d1 (blocks (world h1)))).
  { replace (value o1) with (Buffer.mkBuffer (Z.of_nat (length (<[k := Some x]> E1))) (Buffer.mCapacity (value o1)) (Some d1)).
    - apply (holds_resize limit false 0 m2 d1 _ _ spare); try done.
      + eapply (memory_ok_blocks (world h1) m2 (delete d1 (blocks (world h1))) d1); try done. unfold m2. cbn. by rewrite insert_delete_eq.
      + unfold m2. cbn. by rewrite insert_delete_eq.
      + by rewrite length_insert.
    - rewrite length_insert, <- Hsz, <- (behind_data _ _ _ _ _ Hbh1). by destruct (value o1). }
  destruct (change_own others h1 s1 Hc1 Hb1 l1 o1 d1 E1
    (fun m b => do m <- store_cells m (Some (d1, 0 + mOffset s1 + Z.of_nat i)) [Some x]; Ret (m, b)) m2 (value o1) (<[k := Some x]> E1) (<[i := Some x]> L) s1 Es1 H01 Hbh1)
    as (h2 & o2 & d2 & Eb2 & Hout2 & _); try done; try lia.
  { by rewrite Est. } { rewrite length_insert. lia. }
  { rewrite HL1. symmetry. apply slice_insert. lia. }
  eexists h1, s1, _, h2. split; [reflexivity|]. split; [|by apply (outcome_trans _ _ h1 _ _ s1 _ L)].
  unfold write_through. change (advance (advance (begin_of (Some d1)) (mOffset s1)) (Z.of_nat i)) with (Some (d1, 0 + mOffset s1 + Z.of_nat i)).
  rewrite Est. cbn [run_bind]. revert Eb2. unfold on_buffer. rewrite (value_at_behind h1 l1 o1 d1 E1 Hbh1). cbn [run_bind]. rewrite Est. cbn [run_bind].
  unfold set_value. cbn. rewrite (behind_object _ _ _ _ _ Hbh1). cbn. intros [= <-]. f_equal. unfold with_objects, with_world. cbn. f_equal.
  symmetry. apply insert_id. rewrite (behind_object _ _ _ _ _ Hbh1). by destruct o1.
Qed.
End Growing.
End Facts.
