(* ===== verification/SharedBufferSystem.v ===== *)
(** * Programs with shared buffers

    Named [SharedBuffer]s over one heap, and every operation as a step. Shows that each name
    behaves as a list of its own, whatever is shared underneath. *)

From stdpp Require Import prelude list gmap.
From Stdlib Require Import ZArith Lia.
From S2P Require Import Prelude CxxInt RefCount Memory BufferFacts SharedBuffer SharedBufferFacts.
From S2P Require Buffer.

#[local] Open Scope Z_scope.
#[local] Open Scope cxx_scope.

Record system := mkSystem { sys_heap : buffer_heap; vars : gmap handle SharedBuffer }.

(** Data comes from a pointer to an array that is not the program's buffers. *)
Inductive op :=
  | New (v : handle)
  | NewSized (v : handle) (size capacity : Z)
  | SetData (v : handle) (p : pointer) (size : Z)
  | AppendData (v : handle) (p : pointer) (size : Z)
  | SetSize (v : handle) (size : Z)
  | EnsureCapacity (v : handle) (capacity : Z)
  | Clear (v : handle)
  | Write (v : handle) (index : nat) (x : Z)
  | Copy (v w : handle)
  | Slice (v w : handle) (offset length : Z)
  | Assign (v w : handle)
  | Move (v w : handle)
  | MoveAssign (v w : handle)
  | Swap (v w : handle)
  | Destroy (v : handle).

Section System.
Context (limit : Z).

Definition on_var (σ : system) (v : handle) (f : buffer_heap -> SharedBuffer -> run (buffer_heap * SharedBuffer)) : run system :=
  do s <- deref (vars σ !! v);
  do (h, s) <- f (sys_heap σ) s;
  Ret (mkSystem h (<[v := s]> (vars σ))).

Definition step (o : op) (σ : system) : run system :=
  let h := sys_heap σ in
  match o with
  | New v => do s <- new_shared h; Ret (mkSystem h (<[v := s]> (vars σ)))
  | NewSized v n c => do (h, s) <- new_shared_sized limit h n c; Ret (mkSystem h (<[v := s]> (vars σ)))
  | SetData v p n => on_var σ v (fun h s => set_data limit h s p n)
  | AppendData v p n => on_var σ v (fun h s => append_data limit h s p n)
  | SetSize v n => on_var σ v (fun h s => set_size limit h s n)
  | EnsureCapacity v c => on_var σ v (fun h s => ensure_capacity limit h s c)
  | Clear v => on_var σ v (fun h s => clear limit h s)
  | Write v i x =>
      on_var σ v (fun h s => do (h, s, p) <- mutable_data limit h s; do h <- write_through h p (Z.of_nat i) x; Ret (h, s))
  | Copy v w =>
      do t <- deref (vars σ !! w); do (h, s) <- copy_shared h t; Ret (mkSystem h (<[v := s]> (vars σ)))
  | Slice v w o n =>
      do t <- deref (vars σ !! w); do (h, s) <- slice h t o n; Ret (mkSystem h (<[v := s]> (vars σ)))
  | Assign v w => do t <- deref (vars σ !! w); if decide (v = w) then Ret σ else on_var σ v (fun h s => assign_shared h s t)
  | Move v w =>
      do t <- deref (vars σ !! w); do (s, t) <- move_shared h t; Ret (mkSystem h (<[v := s]> (<[w := t]> (vars σ))))
  | MoveAssign v w =>
      do s <- deref (vars σ !! v); do t <- deref (vars σ !! w);
      do (h, s, t) <- move_assign_shared h s t; Ret (mkSystem h (<[v := s]> (<[w := t]> (vars σ))))
  | Swap v w =>
      do s <- deref (vars σ !! v); do t <- deref (vars σ !! w);
      let (s, t) := swap_shared s t in Ret (mkSystem h (<[v := s]> (<[w := t]> (vars σ))))
  | Destroy v => do s <- deref (vars σ !! v); do h <- destroy_shared h s; Ret (mkSystem h (delete v (vars σ)))
  end.
End System.

(** ** How many names refer to a buffer *)
Definition owners (vs : gmap handle SharedBuffer) (l : loc) : Z := map_fold (fun _ s n => owner (mBuffer s) l + n) 0 vs.

Lemma owners_delete (vs : gmap handle SharedBuffer) (v : handle) (s : SharedBuffer) (l : loc) :
  vs !! v = Some s -> owners vs l = owner (mBuffer s) l + owners (delete v vs) l.
Proof. intros Hv. unfold owners. rewrite (map_fold_delete_L _ _ v s); [done| |done]. intros. lia. Qed.

Lemma owners_insert (vs : gmap handle SharedBuffer) (v : handle) (s : SharedBuffer) (l : loc) :
  owners (<[v := s]> vs) l = owner (mBuffer s) l + owners (delete v vs) l.
Proof. rewrite (owners_delete _ v s) by apply lookup_insert_eq. by rewrite delete_insert_eq. Qed.

Lemma owners_fresh (vs : gmap handle SharedBuffer) (v : handle) (s : SharedBuffer) (l : loc) :
  vs !! v = None -> owners (<[v := s]> vs) l = owners vs l + owner (mBuffer s) l.
Proof. intros Hv. rewrite owners_insert, delete_id by done. lia. Qed.

Lemma owners_range (vs : gmap handle SharedBuffer) (l : loc) : 0 <= owners vs l <= Z.of_nat (size vs).
Proof.
  induction vs as [|v s vs Hv IH] using map_ind; [by vm_compute|].
  rewrite owners_fresh, map_size_insert_None by done. pose proof (owner_range (mBuffer s) l). lia.
Qed.

Lemma owners_refer (vs : gmap handle SharedBuffer) (v : handle) (s : SharedBuffer) (l : loc) :
  vs !! v = Some s -> mBuffer s = Some l -> 0 < owners vs l.
Proof. intros Hv Hl. rewrite (owners_delete _ _ _ _ Hv), Hl, owner_same. pose proof (owners_range (delete v vs) l). lia. Qed.

Section Facts.
Context (limit : Z) (Hlimit : 0 < limit <= 2 ^ 62) (ext : gmap block (list cell)).

(** The heap between operations: arrays of the buffers, and the arrays of others, [ext] *)
Record at_rest (h : buffer_heap) : Prop := {
  rest_buffers : buffers_ok limit h;
  rest_ext : forall q cs, ext !! q = Some cs -> blocks (world h) !! q = Some cs;
  rest_apart : forall l o q, objects h !! l = Some o -> Buffer.mData (value o) = Some q -> ext !! q = None
}.

(** What [s] and the names in [vs] hold *)
Definition slices_ok (h : buffer_heap) (vs : gmap handle SharedBuffer) (vals : gmap handle (list cell)) : Prop :=
  map_Forall2 (fun _ => slice_ok h) vs vals.

Record system_ok (σ : system) (vals : gmap handle (list cell)) : Prop := {
  sys_counted : counted (sys_heap σ) (owners (vars σ));
  sys_rest : at_rest (sys_heap σ);
  sys_slices : slices_ok (sys_heap σ) (vars σ) vals
}.

(** ** Changes to counts alone *)
Lemma same_values (h h' : buffer_heap) :
  value <$> objects h' = value <$> objects h -> world h' = world h -> at_rest h ->
  at_rest h' /\ (forall s L, slice_ok h s L -> slice_ok h' s L).
Proof.
  intros Hv Hw [Hb Hx Ha].
  assert (Hsub : forall k x, objects h' !! k = Some x -> exists y, objects h !! k = Some y /\ value x = value y).
  { intros k x Hk. assert (E : (value <$> objects h') !! k = Some (value x)) by (by rewrite lookup_fmap, Hk).
    rewrite Hv, lookup_fmap in E. destruct (objects h !! k) as [y|]; [|done]. injection E as E. by exists y. }
  split; [split|].
  - apply (buffers_ok_sub limit h h' Hb); [rewrite Hw; apply Hb|done|intros; by rewrite Hw].
  - rewrite Hw. apply Hx.
  - intros l o q Ho Eq. destruct (Hsub l o Ho) as (y & Hy & E). apply (Ha l y q); [done|congruence].
  - intros s L. unfold slice_ok. destruct (mBuffer s) as [l|]; [|done]. intros (E & HE & H). exists E. split; [|done].
    rewrite <- HE. apply elems_same; [by rewrite Hv|]. intros. by rewrite Hw.
Qed.

Lemma construct_spec (h : buffer_heap) (refs : loc -> Z) (p : SharedRefPtr) :
  counted h refs -> at_rest h -> (forall l, p = Some l -> 0 < refs l /\ refs l + 1 < 2 ^ 31) ->
  exists h', construct h p = Ret (h', p) /\ counted h' (fun k => refs k + owner p k) /\ at_rest h' /\
    (forall s L, slice_ok h s L -> slice_ok h' s L).
Proof.
  intros Hc Hr Hp. destruct p as [l|]; cbn [construct].
  - destruct (Hp l eq_refl) as [H0 H1]. destruct (add_ref_object_spec h refs l Hc) as (h' & E & Hc' & Hw & _ & Hv); [apply (cnt_alive _ _ Hc l); lia|lia|].
    rewrite E. cbn [run_bind]. destruct (same_values h h' Hv Hw Hr) as [? ?]. by exists h'.
  - exists h. split_and!; try done. eapply owners_ext; [|exact Hc]. intros k. cbn. rewrite owner_other by done. lia.
Qed.

(** ** Letting go *)
Lemma destroy_spec (h : buffer_heap) (refs : loc -> Z) (p : SharedRefPtr) :
  counted h (fun k => refs k + owner p k) -> (forall k, 0 <= refs k) -> at_rest h ->
  exists h', destroy delete_buffer h p = Ret h' /\ counted h' refs /\ at_rest h' /\
    (forall s L, (forall l, mBuffer s = Some l -> refs l <> 0) -> slice_ok h s L -> slice_ok h' s L).
Proof.
  intros Hc Hp [Hb Hx Ha]. destruct p as [l|]; cbn [destroy].
  - destruct (drop_buffer limit h refs l Hc Hp Hb) as (h' & st & E & Hc' & Hb' & Hk & Hsub & Hblk). rewrite E. cbn [run_bind].
    exists h'. split_and!; try done.
    + split; [done| |].
      * intros q cs Hq. destruct (cnt_alive _ _ Hc l) as [o Ho]; [rewrite owner_same; specialize (Hp l); lia|].
        rewrite (Hblk q o Ho); [by apply Hx|]. intros Eq. rewrite (Ha l o q Ho Eq) in Hq. done.
      * intros k o q Ho Eq. destruct (Hsub k o Ho) as (y & Hy & Ev). apply (Ha k y q); [done|congruence].
    + intros s L Hs. by apply (slice_kept refs).
  - exists h. split_and!; try done. eapply owners_ext; [|exact Hc]. intros k. cbn. rewrite owner_other by done. lia.
Qed.

(** [assign_raw] is a construction and a destruction. *)
Lemma assign_raw_steps (h : buffer_heap) (this p : SharedRefPtr) :
  assign_raw delete_buffer h this p = (do (h, q) <- construct h p; do h <- destroy delete_buffer h this; Ret (h, q)).
Proof. unfold assign_raw, construct, destroy. destruct p as [l|]; [destruct (add_ref h l)|]; done. Qed.

(** ** After an operation on one name *)
Lemma settle (h h' : buffer_heap) (s s' : SharedBuffer) (rest : gmap handle SharedBuffer) (vals : gmap handle (list cell)) (L' : list cell) (v : handle) :
  at_rest h -> slices_ok h rest vals -> rest !! v = None ->
  outcome limit (owners rest) h s h' s' L' -> (forall q, own_block h s = Some q -> ext !! q = None) ->
  system_ok (mkSystem h' (<[v := s']> rest)) (<[v := L']> vals).
Proof.
  intros [Hb Hx Ha] Hsl Hv [Hc' Hb' Hs' Hk Hblk] Hown. split; cbn [sys_heap vars].
  - eapply owners_ext; [|exact Hc']. intros l. by rewrite owners_fresh.
  - split; [done| |].
    + intros q cs Hq. destruct (Hblk q) as [_ HB]; [intros E%Hown; congruence|by rewrite (Hx q cs Hq)|]. rewrite HB. by apply Hx.
    + intros l o q Ho Eq. destruct (ext !! q) as [cs|] eqn:Hq; [exfalso|done].
      destruct (decide (owners rest l = 0)) as [H0|H0].
      * destruct (Hblk q) as [Hne _]; [intros E%Hown; congruence|by rewrite (Hx q cs Hq)|]. apply Hne. unfold own_block.
        destruct (cnt_exact _ _ Hc' l o Ho) as [_ Hr]. unfold owner in Hr. case_bool_decide as E; [|lia]. rewrite E. cbn. by rewrite Ho.
      * destruct (Hk l H0) as [_ Ev]. rewrite Ho in Ev. cbn in Ev. destruct (objects h !! l) as [y|] eqn:Hy; [|done]. cbn in Ev. injection Ev as Ev.
        rewrite (Ha l y q Hy) in Hq; [done|congruence].
  - apply map_Forall2_insert_2; [done|]. intros w. specialize (Hsl w). destruct (rest !! w) as [t|] eqn:Ht, (vals !! w) as [L|]; inversion Hsl as [? ? Hok|]; subst; constructor.
    apply (slice_kept (owners rest) h); [done| |done]. intros l Hl. pose proof (owners_refer rest w t l Ht Hl). lia.
Qed.

Lemma sys_lookup (σ : system) (vals : gmap handle (list cell)) (v : handle) (L : list cell) :
  system_ok σ vals -> vals !! v = Some L -> exists s, vars σ !! v = Some s /\ slice_ok (sys_heap σ) s L /\
    counted (sys_heap σ) (fun k => owners (delete v (vars σ)) k + owner (mBuffer s) k) /\
    slices_ok (sys_heap σ) (delete v (vars σ)) (delete v vals) /\ (forall q, own_block (sys_heap σ) s = Some q -> ext !! q = None).
Proof.
  intros [Hc [Hb Hx Ha] Hsl] Hv. pose proof (Hsl v) as H. rewrite Hv in H. inversion H as [s ? Hok E|]; subst. exists s. split_and!; try done.
  - eapply owners_ext; [|exact Hc]. intros k. rewrite (owners_delete (vars σ) v s) by done. lia.
  - by apply map_Forall2_delete.
  - intros q. unfold own_block. destruct (mBuffer s) as [l|]; [|done]. cbn. destruct (objects (sys_heap σ) !! l) as [o|] eqn:Ho; [|done]. by apply (Ha l o q Ho).
Qed.

Lemma on_var_spec (σ : system) (vals : gmap handle (list cell)) (v : handle) (L : list cell) (f : buffer_heap -> SharedBuffer -> run (buffer_heap * SharedBuffer)) (P : list cell -> Prop) :
  system_ok σ vals -> vals !! v = Some L ->
  (forall s, vars σ !! v = Some s -> slice_ok (sys_heap σ) s L ->
    counted (sys_heap σ) (fun k => owners (delete v (vars σ)) k + owner (mBuffer s) k) -> (forall q, own_block (sys_heap σ) s = Some q -> ext !! q = None) ->
    exists h' s' L', f (sys_heap σ) s = Ret (h', s') /\ outcome limit (owners (delete v (vars σ))) (sys_heap σ) s h' s' L' /\ P L') ->
  exists σ' L', on_var σ v f = Ret σ' /\ system_ok σ' (<[v := L']> vals) /\ P L'.
Proof.
  intros Hσ Hv Hf. destruct (sys_lookup σ vals v L Hσ Hv) as (s & Hs & Hok & Hc & Hsl & Hq).
  destruct (Hf s Hs Hok Hc Hq) as (h' & s' & L' & E & Hout & HP). unfold on_var. rewrite Hs. cbn [deref run_bind]. rewrite E. cbn [run_bind].
  eexists _, L'. split; [reflexivity|]. split; [|done].
  pose proof (settle _ h' s s' (delete v (vars σ)) (delete v vals) L' v (sys_rest _ _ Hσ) Hsl (lookup_delete_eq _ _) Hout Hq) as Hn. by rewrite !insert_delete_eq in Hn.
Qed.

(** ** After an operation on references *)
Lemma put_one (h : buffer_heap) (s : SharedBuffer) (rest : gmap handle SharedBuffer) (vals : gmap handle (list cell)) (L : list cell) (v : handle) :
  counted h (fun k => owners rest k + owner (mBuffer s) k) -> at_rest h -> slices_ok h rest vals -> slice_ok h s L -> rest !! v = None ->
  system_ok (mkSystem h (<[v := s]> rest)) (<[v := L]> vals).
Proof.
  intros Hc Hr Hsl Hs Hv. split; cbn; [|done|by apply map_Forall2_insert_2].
  eapply owners_ext; [|exact Hc]. intros k. by rewrite owners_fresh.
Qed.

Lemma put_two (h : buffer_heap) (s t : SharedBuffer) (vs : gmap handle SharedBuffer) (vals : gmap handle (list cell)) (L M : list cell) (v w : handle) :
  v <> w -> counted h (fun k => owners (delete w (delete v vs)) k + owner (mBuffer s) k + owner (mBuffer t) k) -> at_rest h ->
  slices_ok h (delete w (delete v vs)) (delete w (delete v vals)) -> slice_ok h s L -> slice_ok h t M ->
  system_ok (mkSystem h (<[v := s]> (<[w := t]> vs))) (<[v := L]> (<[w := M]> vals)).
Proof.
  intros Hne Hc Hr Hsl Hs Ht. split; cbn; [|done|].
  - eapply owners_ext; [|exact Hc]. intros k. rewrite owners_insert, delete_insert_ne, owners_insert by done. lia.
  - intros k. specialize (Hsl k). destruct (decide (k = v)) as [->|Hkv]; [rewrite !lookup_insert_eq; by constructor|].
    rewrite !(lookup_insert_ne _ v) by done. destruct (decide (k = w)) as [->|Hkw]; [rewrite !lookup_insert_eq; by constructor|].
    rewrite !(lookup_insert_ne _ w) by done. by rewrite !lookup_delete_ne in Hsl.
Qed.

Lemma sys_size (σ : system) (vals : gmap handle (list cell)) : system_ok σ vals -> size (vars σ) = size vals.
Proof. intros [_ _ Hsl]. rewrite <- !size_dom. by rewrite (map_Forall2_dom_L _ _ _ Hsl). Qed.

Lemma sys_fresh (σ : system) (vals : gmap handle (list cell)) (v : handle) : system_ok σ vals -> vals !! v = None -> vars σ !! v = None.
Proof. intros [_ _ Hsl] Hv. specialize (Hsl v). rewrite Hv in Hsl. by inversion Hsl. Qed.

(** One more reference to what [w] refers to *)
Lemma share_spec (σ : system) (vals : gmap handle (list cell)) (w : handle) (M : list cell) :
  system_ok σ vals -> vals !! w = Some M -> Z.of_nat (size vals) + 1 < 2 ^ 31 ->
  exists t h', vars σ !! w = Some t /\ slice_ok (sys_heap σ) t M /\ construct (sys_heap σ) (mBuffer t) = Ret (h', mBuffer t) /\
    counted h' (fun k => owners (vars σ) k + owner (mBuffer t) k) /\ at_rest h' /\ slices_ok h' (vars σ) vals /\ slice_ok h' t M.
Proof.
  intros Hσ Hw Hn. destruct (sys_lookup σ vals w M Hσ Hw) as (t & Ht & Hok & _).
  destruct (construct_spec (sys_heap σ) (owners (vars σ)) (mBuffer t)) as (h' & E & Hc & Hr & Hkeep); [apply Hσ|apply Hσ| |].
  { intros l Hl. pose proof (owners_range (vars σ) l). rewrite (sys_size σ vals Hσ) in *. pose proof (owners_refer _ w t l Ht Hl). lia. }
  exists t, h'. split_and!; try done; [|by apply Hkeep]. eapply map_Forall2_impl; [apply Hσ|]. intros k s L. apply Hkeep.
Qed.

(** A part of a slice *)
Lemma subslice (h : buffer_heap) (t : SharedBuffer) (L : list cell) (o n : Z) :
  slice_ok h t L -> 0 <= o -> 0 <= n -> o + n <= mSize t ->
  slice_ok h (mkShared (mBuffer t) (mOffset t + o) n) (take (Z.to_nat n) (drop (Z.to_nat o) L)).
Proof.
  unfold slice_ok. cbn. destruct (mBuffer t) as [l|].
  - intros (E & HE & H1 & H2 & H3 & ->) Ho Hn Hon. exists E. split_and!; try done; try lia.
    rewrite skipn_firstn_comm, drop_drop, take_take. f_equal; [lia|]. f_equal. lia.
  - intros (-> & E & ->). rewrite E. intros. replace o with 0 by lia. replace n with 0 by lia. done.
Qed.

Lemma slice_bound (h : buffer_heap) (t : SharedBuffer) (L : list cell) : at_rest h -> slice_ok h t L -> 0 <= mOffset t /\ 0 <= mSize t /\ mOffset t + mSize t <= limit.
Proof.
  intros [Hb _ _] Hs. unfold slice_ok in Hs. destruct (mBuffer t) as [l|]; [|by destruct Hs as (-> & -> & _); lia].
  destruct Hs as (E & HE & H1 & H2 & H3 & _). destruct (behind_spec limit h l E Hb HE) as (o & d & Hbh).
  pose proof (behind_capacity _ _ _ _ _ _ Hbh). pose proof (behind_room _ _ _ _ _ _ Hbh). lia.
Qed.

(** ** Two names at once *)
Lemma sys_two (σ : system) (vals : gmap handle (list cell)) (v w : handle) (L M : list cell) :
  system_ok σ vals -> v <> w -> vals !! v = Some L -> vals !! w = Some M ->
  exists s t, vars σ !! v = Some s /\ vars σ !! w = Some t /\ slice_ok (sys_heap σ) s L /\ slice_ok (sys_heap σ) t M /\
    counted (sys_heap σ) (fun k => owners (delete w (delete v (vars σ))) k + owner (mBuffer t) k + owner (mBuffer s) k) /\
    slices_ok (sys_heap σ) (delete w (delete v (vars σ))) (delete w (delete v vals)).
Proof.
  intros Hσ Hne Hv Hw. destruct (sys_lookup σ vals v L Hσ Hv) as (s & Hs & Hsok & Hc & Hsl & _), (sys_lookup σ vals w M Hσ Hw) as (t & Ht & Htok & _).
  exists s, t. split_and!; try done; [|by apply map_Forall2_delete].
  eapply owners_ext; [|exact Hc]. intros k. cbn. rewrite (owners_delete (delete v (vars σ)) w t); [lia|]. by rewrite lookup_delete_ne.
Qed.

Lemma check_slice (h : buffer_heap) (s : SharedBuffer) (L : list cell) : at_rest h -> slice_ok h s L -> check_consistent h s = Ret tt.
Proof. intros [Hb _ _] Hs. by apply (check_consistent_spec limit Hlimit h s L). Qed.

Lemma empty_ok (h : buffer_heap) : slice_ok h (mkShared None 0 0) [].
Proof. done. Qed.

(** ** What each operation asks for, and what it does *)
Definition stocked_name (σ : system) (v : handle) : Prop := exists s, vars σ !! v = Some s /\ stocked (sys_heap σ) s.

Definition admissible (σ : system) (vals : gmap handle (list cell)) (o : op) : Prop :=
  match o with
  | New v => vals !! v = None
  | NewSized v n c => vals !! v = None /\ 0 <= n <= limit /\ 0 <= c <= limit
  | SetData v p n => is_Some (vals !! v) /\ (exists xs, readable ext p n xs) /\ 2 * n <= limit /\ (stocked_name σ v \/ 0 < n)
  | AppendData v p n =>
      exists L s, vals !! v = Some L /\ vars σ !! v = Some s /\ (exists xs, readable ext p n xs) /\ Z.of_nat (length L) + n <= limit /\
        (mBuffer s <> None /\ stocked (sys_heap σ) s \/ 0 < n)
  | SetSize v n => is_Some (vals !! v) /\ 0 <= n <= limit
  | EnsureCapacity v c => is_Some (vals !! v) /\ 0 <= c <= limit
  | Clear v => stocked_name σ v
  | Write v i _ => exists L, vals !! v = Some L /\ (i < length L)%nat
  | Copy v w => vals !! v = None /\ is_Some (vals !! w) /\ Z.of_nat (size vals) + 1 < 2 ^ 31
  | Slice v w o n =>
      vals !! v = None /\ (exists M, vals !! w = Some M /\ 0 <= o /\ 0 <= n /\ o + n <= Z.of_nat (length M)) /\ Z.of_nat (size vals) + 1 < 2 ^ 31
  | Assign v w => is_Some (vals !! v) /\ is_Some (vals !! w) /\ Z.of_nat (size vals) + 1 < 2 ^ 31
  | Move v w => vals !! v = None /\ is_Some (vals !! w)
  | MoveAssign v w | Swap v w => v <> w /\ is_Some (vals !! v) /\ is_Some (vals !! w)
  | Destroy v => is_Some (vals !! v)
  end.

Definition effect (o : op) (vals vals' : gmap handle (list cell)) : Prop :=
  match o with
  | New v => vals' = <[v := []]> vals
  | NewSized v n _ => vals' = <[v := replicate (Z.to_nat n) None]> vals
  | SetData v p n => exists xs, readable ext p n xs /\ vals' = <[v := xs]> vals
  | AppendData v p n => exists L xs, vals !! v = Some L /\ readable ext p n xs /\ vals' = <[v := L ++ xs]> vals
  | SetSize v n => exists L x, vals !! v = Some L /\ Z.of_nat (length (take (Z.to_nat n) L ++ x)) = n /\ vals' = <[v := take (Z.to_nat n) L ++ x]> vals
  | EnsureCapacity _ _ => vals' = vals
  | Clear v => vals' = <[v := []]> vals
  | Write v i x => exists L, vals !! v = Some L /\ vals' = <[v := <[i := Some x]> L]> vals
  | Copy v w | Assign v w => exists M, vals !! w = Some M /\ vals' = <[v := M]> vals
  | Slice v w o n => exists M, vals !! w = Some M /\ vals' = <[v := take (Z.to_nat n) (drop (Z.to_nat o) M)]> vals
  | Move v w | MoveAssign v w => exists M, vals !! w = Some M /\ vals' = <[v := M]> (<[w := []]> vals)
  | Swap v w => exists L M, vals !! v = Some L /\ vals !! w = Some M /\ vals' = <[v := M]> (<[w := L]> vals)
  | Destroy v => vals' = delete v vals
  end.

(** Nothing is left when no name is. *)
Lemma nothing_left (σ : system) (vals : gmap handle (list cell)) : system_ok σ vals -> vars σ = ∅ -> objects (sys_heap σ) = ∅.
Proof.
  intros Hσ Hv. apply map_empty. intros l. destruct (objects (sys_heap σ) !! l) as [o|] eqn:Ho; [|done].
  destruct (cnt_exact _ _ (sys_counted _ _ Hσ) l o Ho) as [_ Hr]. rewrite Hv in Hr. unfold owners in Hr. rewrite map_fold_empty in Hr. lia.
Qed.

(** ** The steps *)
Section Steps.
Context (σ : system) (vals : gmap handle (list cell)) (Hσ : system_ok σ vals).

Definition step_correct (o : op) : Prop :=
  exists σ' vals', step limit o σ = Ret σ' /\ system_ok σ' vals' /\ effect o vals vals'.

Lemma others_pos (v : handle) (l : loc) : 0 <= owners (delete v (vars σ)) l.
Proof. apply owners_range. Qed.

(** External data is outside the slice's own buffer. *)
Lemma readable_ext (s : SharedBuffer) (p : pointer) (n : Z) (xs : list cell) :
  (forall q, own_block (sys_heap σ) s = Some q -> ext !! q = None) -> readable ext p n xs -> readable (elsewhere (sys_heap σ) s) p n xs.
Proof.
  intros Hq [?|(q & o & cs & -> & Hcs & H)]; [by left|right]. exists q, o, cs. split_and!; try apply H; [done|].
  pose proof (rest_ext _ (sys_rest _ _ Hσ) q cs Hcs) as HB. unfold elsewhere. destruct (own_block (sys_heap σ) s) as [d|] eqn:E; [|done].
  rewrite lookup_delete_ne; [done|]. intros <-. rewrite Hq in Hcs; done.
Qed.


(** A step on one name *)
Lemma step_local (o : op) (v : handle) (L : list cell) (f : buffer_heap -> SharedBuffer -> run (buffer_heap * SharedBuffer)) :
  vals !! v = Some L -> step limit o σ = on_var σ v f ->
  (forall s, vars σ !! v = Some s -> slice_ok (sys_heap σ) s L ->
    counted (sys_heap σ) (fun k => owners (delete v (vars σ)) k + owner (mBuffer s) k) -> (forall q, own_block (sys_heap σ) s = Some q -> ext !! q = None) ->
    exists h' s' L', f (sys_heap σ) s = Ret (h', s') /\ outcome limit (owners (delete v (vars σ))) (sys_heap σ) s h' s' L' /\
      effect o vals (<[v := L']> vals)) -> step_correct o.
Proof.
  intros Hv E Hf. destruct (on_var_spec σ vals v L f (fun L' => effect o vals (<[v := L']> vals)) Hσ Hv Hf) as (σ' & L' & E' & Hσ' & He).
  exists σ', (<[v := L']> vals). by rewrite E.
Qed.

Notation heap_ok := (rest_buffers _ (sys_rest _ _ Hσ)).

Lemma set_data_step (v : handle) (p : pointer) (n : Z) : admissible σ vals (SetData v p n) -> step_correct (SetData v p n).
Proof.
  intros ([L Hv] & [xs Hxs] & Hn & Hst). eapply (step_local _ v L); [done|reflexivity|]. intros s Hs Hok Hc Hq.
  destruct (set_data_shared_spec limit Hlimit _ _ s L Hc (others_pos v) heap_ok Hok p n xs) as (h' & s' & E & Hout);
    [by apply readable_ext|done|destruct Hst as [(s0 & Hs0 & Hst)|Hst]; [left; congruence|by right]|].
  exists h', s', xs. split_and!; try done. by exists xs.
Qed.

Lemma append_step (v : handle) (p : pointer) (n : Z) : admissible σ vals (AppendData v p n) -> step_correct (AppendData v p n).
Proof.
  intros (L & s0 & Hv & Hs0 & [xs Hxs] & Hn & Hst). eapply (step_local _ v L); [done|reflexivity|]. intros s Hs Hok Hc Hq.
  assert (s0 = s) as -> by congruence.
  destruct (append_shared_spec limit Hlimit _ _ s L Hc (others_pos v) heap_ok Hok p n xs) as (h' & s' & E & Hout);
    [by apply readable_ext|by rewrite <- (slice_length _ _ _ Hok)|done|].
  exists h', s', (L ++ xs). split_and!; try done. by exists L, xs.
Qed.

Lemma set_size_step (v : handle) (n : Z) : admissible σ vals (SetSize v n) -> step_correct (SetSize v n).
Proof.
  intros ([L Hv] & Hn). eapply (step_local _ v L); [done|reflexivity|]. intros s Hs Hok Hc Hq.
  destruct (set_size_shared_spec limit Hlimit _ _ s L Hc (others_pos v) heap_ok Hok n Hn) as (h' & s' & x & E & Hout & Hsz).
  exists h', s', (take (Z.to_nat n) L ++ x). split_and!; try done. exists L, x. split_and!; try done. by rewrite (slice_length _ _ _ (out_slice _ _ _ _ _ _ _ Hout)).
Qed.

Lemma ensure_capacity_step (v : handle) (c : Z) : admissible σ vals (EnsureCapacity v c) -> step_correct (EnsureCapacity v c).
Proof.
  intros ([L Hv] & Hc0). eapply (step_local _ v L); [done|reflexivity|]. intros s Hs Hok Hc Hq.
  destruct (ensure_capacity_shared_spec limit Hlimit _ _ s L Hc (others_pos v) heap_ok Hok c) as (h' & s' & c' & E & Hout & _); [lia|].
  exists h', s', L. split_and!; try done. by apply insert_id.
Qed.

Lemma clear_step (v : handle) : admissible σ vals (Clear v) -> step_correct (Clear v).
Proof.
  intros (s0 & Hs0 & Hst). pose proof (sys_slices _ _ Hσ v) as Hv. rewrite Hs0 in Hv. inversion Hv as [? L Hok0 E1 EL|]; subst. clear Hok0 Hv. symmetry in EL. rename EL into Hv.
  eapply (step_local _ v L); [done|reflexivity|]. intros s Hs Hok Hc Hq. assert (s0 = s) as -> by congruence.
  destruct (clear_shared_spec limit Hlimit _ _ s L Hc (others_pos v) heap_ok Hok Hst) as (h' & s' & E & Hout). by exists h', s', [].
Qed.

Lemma write_step (v : handle) (i : nat) (x : Z) : admissible σ vals (Write v i x) -> step_correct (Write v i x).
Proof.
  intros (L & Hv & Hi). eapply (step_local _ v L); [done|reflexivity|]. intros s Hs Hok Hc Hq.
  destruct (write_shared_spec limit Hlimit _ _ s L Hc (others_pos v) heap_ok Hok i x Hi) as (h1 & s' & p & h' & E1 & E2 & Hout).
  exists h', s', (<[i := Some x]> L). rewrite E1. cbn [run_bind]. rewrite E2. split_and!; try done. by exists L.
Qed.

Lemma new_step (v : handle) : admissible σ vals (New v) -> step_correct (New v).
Proof.
  intros Hv. pose proof (sys_fresh σ vals v Hσ Hv) as Hf. eexists _, _. split_and!; [reflexivity| |done]. apply put_one; try done; [|apply Hσ..].
  eapply owners_ext; [|apply Hσ]. intros k. cbn. rewrite owner_other by done. lia.
Qed.

Lemma new_sized_step (v : handle) (n c : Z) : admissible σ vals (NewSized v n c) -> step_correct (NewSized v n c).
Proof.
  intros (Hv & Hn & Hc). pose proof (sys_fresh σ vals v Hσ Hv) as Hf. cbn [step]. unfold step_correct, step, new_shared_sized.
  destruct ((0 <? n) || (0 <? c)) eqn:Enc; zbool.
  - destruct (new_buffer_sized_spec limit false (world (sys_heap σ)) n c (bufs_memory _ _ heap_ok)) as (m' & b' & Er & Hh & Hcb & _); [lia|lia|].
    destruct (outcome_new limit (owners (vars σ)) (sys_heap σ) (mkShared None 0 0) _ m' b' _ n ltac:(eapply owners_ext; [|apply Hσ]; intros k; cbn; rewrite owner_other by done; lia)
      (fun k => proj1 (owners_range (vars σ) k)) heap_ok Er Hh) as (h1 & s1 & l1 & o1 & E1 & Es1 & _ & _ & _ & _ & Hout); [lia|rewrite length_replicate; lia|].
    destruct (new_counted _ _) as [[h0 n0]| | |]; try done. cbn [run_bind] in E1 |- *.
    unfold assign_buffer, assign_raw, construct in *. cbn [mBuffer run_bind] in E1 |- *. destruct (add_ref h0 n0) as [h2| | |]; try done.
    cbn [run_bind] in E1 |- *. injection E1 as <- <-. cbn in Es1. injection Es1 as ->. change (with_slice (mkShared (Some l1) 0 0) 0 n) with (mkShared (Some l1) 0 n) in Hout.
    rewrite (check_consistent_spec limit Hlimit _ _ _ (out_buffers _ _ _ _ _ _ _ Hout) (out_slice _ _ _ _ _ _ _ Hout)). cbn [run_bind].
    eexists _, _. split_and!; [reflexivity| |reflexivity]. apply (settle (sys_heap σ) h2 (mkShared None 0 0)); [apply Hσ|apply Hσ|done|done|done].
  - replace n with 0 by lia. cbn [run_bind]. rewrite (check_slice (sys_heap σ) (mkShared None 0 0) []) by (done || apply Hσ). apply (new_step v Hv).
Qed.

(** *** References *)
Lemma copy_step (v w : handle) : admissible σ vals (Copy v w) -> step_correct (Copy v w).
Proof.
  intros (Hv & [M Hw] & Hn). destruct (share_spec σ vals w M Hσ Hw Hn) as (t & h' & Ht & Hok & E & Hc & Hr & Hsl & Hok').
  eexists _, _. split_and!; [|apply (put_one h' t (vars σ) vals M v); try done; by apply (sys_fresh σ vals)|by exists M].
  cbn [step]. rewrite Ht. cbn [deref run_bind]. unfold copy_shared, copy_construct. rewrite E. by destruct t.
Qed.

Lemma slice_step (v w : handle) (o n : Z) : admissible σ vals (Slice v w o n) -> step_correct (Slice v w o n).
Proof.
  intros (Hv & (M & Hw & Ho & Hn0 & Hon) & Hn). destruct (share_spec σ vals w M Hσ Hw Hn) as (t & h' & Ht & Hok & E & Hc & Hr & Hsl & Hok').
  pose proof (slice_length _ _ _ Hok) as Hlen. destruct (slice_bound _ _ _ (sys_rest _ _ Hσ) Hok) as (H1 & H2 & H3).
  pose proof (subslice h' t M o n Hok' Ho Hn0) as Hs. rewrite <- Hlen in Hs. specialize (Hs Hon).
  eexists _, _. split_and!; [|apply (put_one h' (mkShared (mBuffer t) (mOffset t + o) n) (vars σ) vals); try done; by apply (sys_fresh σ vals)|by exists M].
  cbn [step]. rewrite Ht. cbn [deref run_bind]. unfold slice, copy_shared, copy_construct. rewrite E. cbn [run_bind].
  rewrite wrap_small by lia. rewrite (proj2 (Z.leb_le o _)), (proj2 (Z.leb_le (n + o) _)) by lia. cbn. by rewrite wrap_small by lia.
Qed.

Lemma assign_step (v w : handle) : admissible σ vals (Assign v w) -> step_correct (Assign v w).
Proof.
  intros ([L Hv] & [M Hw] & Hn). destruct (share_spec σ vals w M Hσ Hw Hn) as (t & h1 & Ht & Hok & E & Hc & Hr & Hsl & Hok').
  unfold step_correct. cbn [step]. rewrite Ht. cbn [deref run_bind]. destruct (decide (v = w)) as [->|Hne].
  { exists σ, vals. split_and!; try done. exists M. split; [done|]. symmetry. by apply insert_id. }
  destruct (sys_lookup σ vals v L Hσ Hv) as (s & Hs & Hsok & _). unfold on_var. rewrite Hs. cbn [deref run_bind]. unfold assign_shared.
  rewrite (check_slice _ s L), (check_slice _ t M) by (done || apply Hσ). cbn [run_bind]. unfold copy_assign. rewrite assign_raw_steps, E. cbn [run_bind].
  destruct (destroy_spec h1 (fun k => owners (delete v (vars σ)) k + owner (mBuffer t) k) (mBuffer s)) as (h2 & E2 & Hc2 & Hr2 & Hkeep); [| |done|].
  { eapply owners_ext; [|exact Hc]. intros k. cbn. rewrite (owners_delete (vars σ) v s) by done. lia. }
  { intros k. pose proof (others_pos v k). pose proof (owner_range (mBuffer t) k). lia. }
  rewrite E2. cbn [run_bind]. eexists _, (<[v := M]> vals). split_and!; [reflexivity| |by exists M].
  rewrite <- (insert_delete_eq (vars σ)), <- (insert_delete_eq vals). apply put_one; [done|done| | |apply lookup_delete_eq].
  - intros k. pose proof (map_Forall2_delete _ _ _ v Hsl k) as H. destruct (delete v (vars σ) !! k) as [u|] eqn:Hu; inversion H as [? ? Hu'|]; subst; constructor.
    apply Hkeep; [|done]. intros l Hl. pose proof (owners_refer _ k u l Hu Hl). pose proof (owner_range (mBuffer t) l). lia.
  - apply Hkeep; [|by destruct t]. cbn. intros l Hl. rewrite Hl, owner_same. pose proof (others_pos v l). lia.
Qed.

Lemma move_name_step (v w : handle) : admissible σ vals (Move v w) -> step_correct (Move v w).
Proof.
  intros (Hv & [M Hw]). pose proof (sys_fresh σ vals v Hσ Hv) as Hf. destruct (sys_lookup σ vals w M Hσ Hw) as (t & Ht & Hok & Hc & Hsl & _).
  assert (Hne : v <> w) by congruence. unfold step_correct. cbn [step]. rewrite Ht. cbn [deref run_bind]. unfold move_shared, move_construct, relinquish.
  rewrite (check_slice _ _ M (sys_rest _ _ Hσ)) by (by destruct t). cbn [run_bind]. eexists _, _. split_and!; [reflexivity| |by exists M].
  apply put_two; [done| |apply Hσ| |by destruct t|done]; rewrite !(delete_id _ v) by done; [|done].
  eapply owners_ext; [|exact Hc]. intros k. cbn. rewrite (owner_other None) by done. lia.
Qed.

Lemma swap_step (v w : handle) : admissible σ vals (Swap v w) -> step_correct (Swap v w).
Proof.
  intros (Hne & [L Hv] & [M Hw]). destruct (sys_two σ vals v w L M Hσ Hne Hv Hw) as (s & t & Hs & Ht & Hsok & Htok & Hc & Hsl).
  unfold step_correct. cbn [step]. rewrite Hs, Ht. cbn [deref run_bind]. eexists _, _. split_and!; [reflexivity| |by exists L, M].
  apply put_two; [done| |apply Hσ|done|by destruct t|by destruct s]. done.
Qed.

Lemma move_assign_step (v w : handle) : admissible σ vals (MoveAssign v w) -> step_correct (MoveAssign v w).
Proof.
  intros (Hne & [L Hv] & [M Hw]). destruct (sys_two σ vals v w L M Hσ Hne Hv Hw) as (s & t & Hs & Ht & Hsok & Htok & Hc & Hsl).
  unfold step_correct. cbn [step]. rewrite Hs, Ht. cbn [deref run_bind]. unfold move_assign_shared.
  rewrite (check_slice _ s L), (check_slice _ t M) by (done || apply Hσ). cbn [run_bind]. unfold move_assign, move_construct, relinquish, swap.
  destruct (destroy_spec (sys_heap σ) (fun k => owners (delete w (delete v (vars σ))) k + owner (mBuffer t) k) (mBuffer s) Hc) as (h' & E & Hc' & Hr & Hkeep);
    [intros k; pose proof (owners_range (delete w (delete v (vars σ))) k); pose proof (owner_range (mBuffer t) k); lia|apply Hσ|].
  rewrite E. cbn [run_bind]. eexists _, _. split_and!; [reflexivity| |by exists M]. apply put_two; [done| |done| | |done].
  - eapply owners_ext; [|exact Hc']. intros k. cbn. rewrite (owner_other None) by done. lia.
  - intros k. specialize (Hsl k). destruct (delete w (delete v (vars σ)) !! k) as [u|] eqn:Hu; inversion Hsl as [? ? Hu'|]; subst; constructor.
    apply Hkeep; [|done]. intros l Hl. pose proof (owners_refer _ k u l Hu Hl). pose proof (owner_range (mBuffer t) l). lia.
  - apply Hkeep; [|by destruct t]. cbn. intros l Hl. rewrite Hl, owner_same. pose proof (owners_range (delete w (delete v (vars σ))) l). lia.
Qed.

Lemma destroy_step (v : handle) : admissible σ vals (Destroy v) -> step_correct (Destroy v).
Proof.
  intros [L Hv]. destruct (sys_lookup σ vals v L Hσ Hv) as (s & Hs & Hok & Hc & Hsl & _). unfold step_correct. cbn [step]. rewrite Hs. cbn [deref run_bind].
  destruct (destroy_spec (sys_heap σ) _ (mBuffer s) Hc (others_pos v) (sys_rest _ _ Hσ)) as (h' & E & Hc' & Hr & Hkeep).
  unfold destroy_shared. rewrite E. cbn [run_bind]. eexists _, _. split_and!; [reflexivity| |done]. split; [done|done|].
  intros k. cbn. specialize (Hsl k). destruct (delete v (vars σ) !! k) as [u|] eqn:Hu; inversion Hsl as [? ? Hu'|]; subst; constructor.
  apply Hkeep; [|done]. intros l Hl. pose proof (owners_refer _ k u l Hu Hl). lia.
Qed.

(** *** Reading *)
Lemma cdata_spec (s : SharedBuffer) (L : list cell) (l : loc) : slice_ok (sys_heap σ) s L -> mBuffer s = Some l ->
  exists d, cdata (sys_heap σ) s = Ret (Some (d, mOffset s)) /\
    forall i n, 0 <= i -> 0 <= n -> i + n <= mSize s ->
      load (world (sys_heap σ)) (Some (d, mOffset s + i)) n = Ret (take (Z.to_nat n) (drop (Z.to_nat i) L)).
Proof.
  intros Hs Es. unfold cdata. rewrite (check_slice _ _ _ (sys_rest _ _ Hσ) Hs). cbn [run_bind]. rewrite Es.
  unfold slice_ok in Hs. rewrite Es in Hs. destruct Hs as (E & HE & H1 & H2 & H3 & HL).
  destruct (behind_spec limit _ l E heap_ok HE) as (o & d & Hbh). rewrite (value_at_behind limit _ l o d E Hbh). cbn [run_bind].
  unfold Buffer.data. rewrite (buffer_consistent limit _ l o d E Hbh), (behind_data _ _ _ _ _ _ Hbh). exists d. split; [done|]. intros i n Hi Hn Hin.
  destruct (holds_block limit false 0 _ _ E _ d (behind_holds _ _ _ _ _ _ Hbh) (behind_data _ _ _ _ _ _ Hbh)) as (spare & _ & HB & _).
  rewrite (load_block_spec _ d (E ++ spare)); [|by rewrite HB, lookup_insert_eq|lia|rewrite length_app; lia]. f_equal.
  rewrite HL, drop_app_le by lia. rewrite take_app_le by (rewrite length_drop; lia).
  rewrite skipn_firstn_comm, drop_drop, take_take. f_equal; [lia|]. f_equal. lia.
Qed.

Lemma get_slice_spec (s : SharedBuffer) (L : list cell) (i : nat) (x : Z) : slice_ok (sys_heap σ) s L -> L !! i = Some (Some x) ->
  get (sys_heap σ) s (Z.of_nat i) = Ret x.
Proof.
  intros Hs Hi. pose proof (slice_length _ _ _ Hs) as Hlen. assert (Hlt : (i < length L)%nat) by (eapply lookup_lt_Some; exact Hi).
  destruct (mBuffer s) as [l|] eqn:Es; [|unfold slice_ok in Hs; rewrite Es in Hs; destruct Hs as (_ & _ & ->); done].
  destruct (cdata_spec s L l Hs Es) as (d & Ed & Hload). unfold get. rewrite (check_slice _ _ _ (sys_rest _ _ Hσ) Hs). cbn [run_bind].
  rewrite (proj2 (Z.ltb_lt _ _)) by lia. cbn [check run_bind]. rewrite Ed. cbn [run_bind advance fmap option_fmap option_map].
  rewrite (Hload (Z.of_nat i) 1) by lia. cbn [run_bind]. rewrite Nat2Z.id, (drop_S L (Some x) i Hi). done.
Qed.

Lemma contents_length (xs : list cell) (l : list Z) : contents xs = Ret l -> xs = Some <$> l.
Proof.
  revert l. induction xs as [|c xs IH]; intros l; cbn; [by intros [= <-]|]. destruct c as [x|]; [|done]. cbn [deref run_bind].
  destruct (contents xs) as [ys| | |]; try done. cbn. intros [= <-]. cbn. by rewrite <- (IH ys).
Qed.

Lemma contents_fmap (l : list Z) : contents (Some <$> l) = Ret l.
Proof. induction l as [|x l IH]; [done|]. cbn. by rewrite IH. Qed.

Lemma equals_spec (s t : SharedBuffer) (a b : list Z) : slice_ok (sys_heap σ) s (Some <$> a) -> slice_ok (sys_heap σ) t (Some <$> b) ->
  equals (sys_heap σ) s t = Ret (bool_decide (a = b)).
Proof.
  intros Hs Ht. pose proof (slice_length _ _ _ Hs) as Hl. pose proof (slice_length _ _ _ Ht) as Hl'. rewrite length_fmap in Hl, Hl'.
  unfold equals. rewrite (check_slice _ _ _ (sys_rest _ _ Hσ) Hs), (check_slice _ _ _ (sys_rest _ _ Hσ) Ht). cbn [run_bind].
  destruct (mSize s =? mSize t) eqn:E; zbool; cbn [negb]; [|rewrite bool_decide_false; [done|intros ->; congruence]].
  assert (Hcd : forall u xs, slice_ok (sys_heap σ) u xs -> mSize u <> 0 -> exists d, cdata (sys_heap σ) u = Ret (Some (d, mOffset u)) /\
    load (world (sys_heap σ)) (Some (d, mOffset u)) (mSize u) = Ret xs).
  { intros u xs Hu Hne. destruct (mBuffer u) as [l|] eqn:Eu; [|unfold slice_ok in Hu; rewrite Eu in Hu; by destruct Hu as (_ & ? & _)].
    pose proof (slice_length _ _ _ Hu). destruct (cdata_spec u xs l Hu Eu) as (d & Ed & Hload). exists d. split; [done|].
    specialize (Hload 0 (mSize u)). rewrite Z.add_0_r in Hload. rewrite Hload by lia. by rewrite drop_0, take_ge by lia. }
  destruct (decide (mSize s = 0)) as [E0|Hne].
  - destruct a; [|cbn in Hl; lia]. destruct b; [|cbn in Hl'; lia].
    assert (Hp : forall u xs, slice_ok (sys_heap σ) u xs -> exists p, cdata (sys_heap σ) u = Ret p).
    { intros u xs Hu. destruct (mBuffer u) as [l|] eqn:Eu; [destruct (cdata_spec u xs l Hu Eu) as (d & Ed & _); by eexists|].
      unfold cdata. rewrite (check_slice _ _ _ (sys_rest _ _ Hσ) Hu). cbn [run_bind]. rewrite Eu. by eexists. }
    destruct (Hp s _ Hs) as [p ->], (Hp t _ Ht) as [q ->]. cbn [run_bind]. rewrite E0. by rewrite orb_true_r.
  - destruct (Hcd s _ Hs) as (d & -> & Hd); [done|]. destruct (Hcd t _ Ht) as (e & -> & He); [congruence|]. cbn [run_bind].
    rewrite (proj2 (Z.eqb_neq _ _)), orb_false_r by done. case_bool_decide as Eq.
    + injection Eq as <- Eo. rewrite Eo, E in Hd. rewrite bool_decide_true; [done|]. assert (Hab : Some <$> a = Some <$> b) by congruence.
      apply (f_equal contents) in Hab. rewrite !contents_fmap in Hab. congruence.
    + rewrite Hd. rewrite E. rewrite He. cbn [run_bind]. by rewrite !contents_fmap.
Qed.

(** C7: Refinement: each name is a list of its own. From any state that stands for [vals], an
    operation whose demands are met runs without error to a state that stands for [vals] with
    the one change that the operation is for, so that no other name sees it, however the
    buffers underneath are shared. *)
Theorem shared_buffer_correct (o : op) : admissible σ vals o ->
  exists σ' vals', step limit o σ = Ret σ' /\ system_ok σ' vals' /\ effect o vals vals' /\ (vars σ' = ∅ -> objects (sys_heap σ') = ∅).
Proof.
  intros Ha. enough (step_correct o) as (σ' & vals' & E & Hσ' & He).
  { exists σ', vals'. split_and!; try done. by apply (nothing_left σ' vals'). }
  revert Ha. destruct o; [apply new_step|apply new_sized_step|apply set_data_step|apply append_step|apply set_size_step|apply ensure_capacity_step|apply clear_step
    |apply write_step|apply copy_step|apply slice_step|apply assign_step|apply move_name_step|apply move_assign_step|apply swap_step|apply destroy_step].
Qed.

(** Reading: an element that a name stands for is what indexing gives, and two names whose
    elements are all there compare as their lists do. *)
Theorem shared_buffer_reads (v w : handle) (s t : SharedBuffer) (a b : list Z) :
  vars σ !! v = Some s -> vars σ !! w = Some t -> vals !! v = Some (Some <$> a) -> vals !! w = Some (Some <$> b) ->
  (forall i x, a !! i = Some x -> get (sys_heap σ) s (Z.of_nat i) = Ret x) /\ equals (sys_heap σ) s t = Ret (bool_decide (a = b)).
Proof.
  intros Hv Hw Ha Hb. destruct (sys_lookup σ vals v _ Hσ Ha) as (s' & Hs' & Hs & _), (sys_lookup σ vals w _ Hσ Hb) as (t' & Ht' & Ht & _).
  assert (s' = s) as -> by congruence. assert (t' = t) as -> by congruence. split; [|by apply equals_spec].
  intros i x Hi. apply (get_slice_spec s (Some <$> a)); [done|]. by rewrite list_lookup_fmap, Hi.
Qed.
End Steps.
End Facts.

(** ** Concrete programs *)
Definition array_memory : memory := mkMemory {[1%positive := (fun x => Some x : cell) <$> [10; 20; 30]]} 2%positive [] 0.
Definition empty_system : system := mkSystem (mkHeap ∅ 1%positive array_memory) ∅.
Definition after_ops (ops : list op) (σ : system) : run system := foldl (fun r o => do σ <- r; step 1000 o σ) (Ret σ) ops.
Definition array_ptr (o : Z) : pointer := Some (1%positive, o).

Lemma array_readable : readable (blocks array_memory) (array_ptr 0) 3 [Some 10; Some 20; Some 30].
Proof. right. exists 1%positive, 0, [Some 10; Some 20; Some 30]. by split_and!. Qed.

Lemma empty_system_ok : system_ok 1000 (blocks array_memory) empty_system ∅.
Proof.
  split; cbn; [split; cbn; [done|intros l Hl; by vm_compute in Hl|intros l [? ?]; done]| |apply map_Forall2_empty].
  split; [split; cbn|done|done]; [|done|done]. intros d [cs Hd]. cbn in Hd.
  destruct (decide (d = 1%positive)) as [->|Hne]; [done|]. by rewrite lookup_singleton_ne in Hd.
Qed.

(** Two names that share one buffer *)
Definition shared_values : gmap handle (list cell) := {[1%positive := [Some 10; Some 20; Some 30]; 2%positive := [Some 10; Some 20; Some 30]]}.
Definition sharing (ops : list op) : system := match after_ops ops empty_system with Ret σ => σ | _ => empty_system end.
Definition shared_ops : list op := [New 1%positive; AppendData 1%positive (array_ptr 0) 3; Copy 2%positive 1%positive].

Lemma shared_state_ok : system_ok 1000 (blocks array_memory) (sharing shared_ops) shared_values.
Proof.
  assert (Hlimit : 0 < 1000 <= 2 ^ 62) by lia.
  destruct (new_step 1000 _ _ _ empty_system_ok 1%positive) as (σ1 & vals1 & E1 & H1 & He1); [done|].
  assert (σ1 = sharing [New 1%positive]) as -> by (vm_compute in E1 |- *; congruence). cbn in He1. subst vals1.
  destruct (append_step 1000 Hlimit _ _ _ H1 1%positive (array_ptr 0) 3) as (σ2 & vals2 & E2 & H2 & L & xs & HL & Hxs & He2).
  { exists [], (mkShared None 0 0). split_and!; try done; [by eexists; apply array_readable|by right]. }
  assert (σ2 = sharing [New 1%positive; AppendData 1%positive (array_ptr 0) 3]) as -> by (vm_compute in E2 |- *; congruence).
  vm_compute in HL. injection HL as <-.
  assert (xs = [Some 10; Some 20; Some 30]) as -> by (destruct Hxs as [[? _]|(q & o & cs & [= <- <-] & Hq & _ & _ & _ & ->)]; [done|]; by injection Hq as <-).
  destruct (copy_step 1000 _ _ _ H2 2%positive 1%positive) as (σ3 & vals3 & E3 & H3 & M & HM & He3).
  { subst vals2. split_and!; [done|by eexists|vm_compute; done]. }
  assert (σ3 = sharing shared_ops) as -> by (vm_compute in E3 |- *; congruence).
  assert (vals3 = shared_values) as ->; [|done]. subst vals3 vals2. vm_compute in HM. injection HM as <-. by vm_compute.
Qed.

(** A write through one name, seen by it alone *)
Lemma shared_buffer_correct_witness :
  exists σ' vals', step 1000 (Write 1%positive 0 99) (sharing shared_ops) = Ret σ' /\ system_ok 1000 (blocks array_memory) σ' vals' /\
    vals' !! 1%positive = Some [Some 99; Some 20; Some 30] /\ vals' !! 2%positive = Some [Some 10; Some 20; Some 30].
Proof.
  assert (Hlimit : 0 < 1000 <= 2 ^ 62) by lia.
  destruct (shared_buffer_correct 1000 Hlimit (blocks array_memory) (sharing shared_ops) shared_values shared_state_ok (Write 1%positive 0 99))
    as (σ' & vals' & E & Hσ & (L & HL & He) & _).
  - exists [Some 10; Some 20; Some 30]. split; [by vm_compute|]. cbn. lia.
  - exists σ', vals'. split; [done|]. split; [done|]. vm_compute in HL. injection HL as <-. subst vals'. by vm_compute.
Defined.

Lemma shared_buffer_reads_witness :
  exists s t, vars (sharing shared_ops) !! 1%positive = Some s /\ vars (sharing shared_ops) !! 2%positive = Some t /\
    get (sys_heap (sharing shared_ops)) s 2 = Ret 30 /\ equals (sys_heap (sharing shared_ops)) s t = Ret true.
Proof.
  assert (Hlimit : 0 < 1000 <= 2 ^ 62) by lia. eexists _, _. split; [by vm_compute|]. split; [by vm_compute|].
  destruct (shared_buffer_reads 1000 Hlimit (blocks array_memory) (sharing shared_ops) shared_values shared_state_ok 1%positive 2%positive
    (mkShared (Some 1%positive) 0 3) (mkShared (Some 1%positive) 0 3) [10; 20; 30] [10; 20; 30]) as [Hg He]; [by vm_compute..|].
  split; [by apply (Hg 2%nat 30)|exact He].
Defined.

(** ** Where a slice at the end of its buffer is refused

    A slice that starts where its buffer's capacity ends has no capacity left; while its buffer
    is shared, the operations that make a new buffer of that capacity make one of capacity
    zero, and stop at their own check. *)
Definition end_ops : list op := [NewSized 1%positive 4 4; Slice 2%positive 1%positive 4 0].

Lemma clear_at_end_aborts : after_ops (end_ops ++ [Clear 2%positive]) empty_system = Fatal.
Proof. vm_compute. reflexivity. Qed.

Lemma set_empty_at_end_aborts : after_ops (end_ops ++ [SetData 2%positive (array_ptr 0) 0]) empty_system = Fatal.
Proof. vm_compute. reflexivity. Qed.

Lemma append_nothing_at_end_aborts : after_ops (end_ops ++ [AppendData 2%positive (array_ptr 0) 0]) empty_system = Fatal.
Proof. vm_compute. reflexivity. Qed.

(** Appending nothing to a name that has no buffer does as well. *)
Lemma append_nothing_to_new_aborts : after_ops [New 1%positive; AppendData 1%positive (array_ptr 0) 0] empty_system = Fatal.
Proof. vm_compute. reflexivity. Qed.
