(* ===== verification/Base64.v ===== *)
(** * Base64

    Models [src/cxxkit/text/base64.cpp] and [base64.hpp]: the two tables, the
    predicates, the encoder that fills a preallocated string by index, and the decoder
    with its parsing, padding and termination options. Characters and bytes are
    integers in [0, 256). *)

From stdpp Require Import prelude list strings.
From Stdlib Require Import ZArith Lia.
From S2P Require Import Prelude Chars.

#[local] Open Scope Z_scope.
#[local] Open Scope cxx_scope.

(** ** Tables *)
Definition kPad : Z := 61.
Definition pd : Z := 0xFD.
Definition sp : Z := 0xFE.
Definition il : Z := 0xFF.

(** [Base64Table], without the terminating null. *)
Definition Base64Table : list Z := chars "ABCDEFGHIJKLMNOPQRSTUVWXYZabcdefghijklmnopqrstuvwxyz0123456789+/".

Definition DecodeTable : list Z :=
  [il; il; il; il; il; il; il; il; il; sp;
   sp; sp; sp; sp; il; il; il; il; il; il;
   il; il; il; il; il; il; il; il; il; il;
   il; il; sp; il; il; il; il; il; il; il;
   il; il; il; 62; il; il; il; 63; 52; 53;
   54; 55; 56; 57; 58; 59; 60; 61; il; il;
   il; pd; il; il; il;  0;  1;  2;  3;  4;
    5;  6;  7;  8;  9; 10; 11; 12; 13; 14;
   15; 16; 17; 18; 19; 20; 21; 22; 23; 24;
   25; il; il; il; il; il; il; 26; 27; 28;
   29; 30; 31; 32; 33; 34; 35; 36; 37; 38;
   39; 40; 41; 42; 43; 44; 45; 46; 47; 48;
   49; 50; 51; il; il; il; il; il; il; il] ++ replicate 126 il.

(** ** Predicates *)
Definition is_base64_char (ch : Z) : bool :=
  ((65 <=? ch) && (ch <=? 90)) || ((97 <=? ch) && (ch <=? 122)) || ((48 <=? ch) && (ch <=? 57)) ||
  (ch =? 43) || (ch =? 47).

(** [strchr] over a null-terminated array: the position of the first occurrence, the
    terminator included. *)
Fixpoint strchr (l : list Z) (ch : Z) : option Z :=
  match l with
  | [] => if ch =? 0 then Some 0 else None
  | c :: l => if c =? ch then Some 0 else (fun n => n + 1) <$> strchr l ch
  end.

(** The result is the character written to [next_ch]. *)
Definition get_next_base64_char (ch : Z) : run (option Z) :=
  match strchr Base64Table ch with
  | None => Ret None
  | Some p =>
      do c <- at_ (Base64Table ++ [0]) (p + 1);
      if negb (c =? 0) then Ret (Some c) else do c0 <- at_ Base64Table 0; Ret (Some c0)
  end.

Definition is_base64_encoded (str : list Z) : bool := forallb is_base64_char str.

(** ** Encoding *)

(** One turn of the loop of [encode_from_array]: from positions [i] and [dest_ix] to
    the next ones, with the string written so far. *)
Definition encode_quantum (byte_data : list Z) (len i : Z) (result : list Z) (dest_ix : Z)
    : run (Z * list Z * Z) :=
  do b <- at_ byte_data i;
  let c := Z.land (Z.shiftr b 2) 0x3f in
  do ch <- at_ Base64Table c;
  do result <- store result dest_ix ch;
  let dest_ix := dest_ix + 1 in
  let c := Z.land (wrap 8 (Z.shiftl b 4)) 0x3f in
  let i := i + 1 in
  do c <- (if i <? len then do b <- at_ byte_data i; Ret (Z.lor c (Z.land (Z.shiftr b 4) 0x0f)) else Ret c);
  do ch <- at_ Base64Table c;
  do result <- store result dest_ix ch;
  let dest_ix := dest_ix + 1 in
  do (i, result) <-
    (if i <? len then
       do b <- at_ byte_data i;
       let c := Z.land (wrap 8 (Z.shiftl b 2)) 0x3f in
       let i := i + 1 in
       do c <- (if i <? len then do b <- at_ byte_data i; Ret (Z.lor c (Z.land (Z.shiftr b 6) 0x03)) else Ret c);
       do ch <- at_ Base64Table c;
       do result <- store result dest_ix ch;
       Ret (i, result)
     else do result <- store result dest_ix kPad; Ret (i, result));
  let dest_ix := dest_ix + 1 in
  if i <? len then
    do b <- at_ byte_data i;
    do ch <- at_ Base64Table (Z.land b 0x3f);
    do result <- store result dest_ix ch;
    Ret (i + 1, result, dest_ix + 1)
  else do result <- store result dest_ix kPad; Ret (i, result, dest_ix + 1).

Fixpoint encode_loop (fuel : nat) (byte_data : list Z) (len i : Z) (result : list Z) (dest_ix : Z) : run (list Z) :=
  match fuel with
  | O => Timeout
  | S fuel =>
      if i <? len then
        do (i, result, dest_ix) <- encode_quantum byte_data len i result dest_ix;
        encode_loop fuel byte_data len i result dest_ix
      else Ret result
  end.

Definition encode_from_array (byte_data : list Z) : run (list Z) :=
  let len := Z.of_nat (length byte_data) in
  encode_loop (S (length byte_data)) byte_data len 0 (replicate (Z.to_nat ((len + 2) / 3 * 4)) 0) 0.

(** ** Decoding *)
Definition DO_PARSE_STRICT : Z := 1.
Definition DO_PARSE_WHITE : Z := 2.
Definition DO_PARSE_ANY : Z := 3.
Definition DO_PARSE_MASK : Z := 3.
Definition DO_PAD_YES : Z := 4.
Definition DO_PAD_ANY : Z := 8.
Definition DO_PAD_NO : Z := 12.
Definition DO_PAD_MASK : Z := 12.
Definition DO_TERM_BUFFER : Z := 16.
Definition DO_TERM_CHAR : Z := 32.
Definition DO_TERM_ANY : Z := 48.
Definition DO_TERM_MASK : Z := 48.
Definition DO_STRICT : Z := Z.lor (Z.lor DO_PARSE_STRICT DO_PAD_YES) DO_TERM_BUFFER.
Definition DO_LAX : Z := Z.lor (Z.lor DO_PARSE_ANY DO_PAD_ANY) DO_TERM_CHAR.

(** The locals of [get_next_quantum]. *)
Record quantum := Quantum { byte_len : Z; pad_len : Z; pad_start : Z; dpos : Z; qbuf : list Z }.

(** One turn of its loop on the character at [dpos]: the locals, and whether to break. *)
Definition quantum_step (parse_flags : Z) (illegal_pads : bool) (data : list Z) (q : quantum) : run (quantum * bool) :=
  do ch <- at_ data (dpos q);
  do v <- at_ DecodeTable ch;
  do buf <- store (qbuf q) (byte_len q) v;
  let q := Quantum (byte_len q) (pad_len q) (pad_start q) (dpos q) buf in
  if (v =? il) || (illegal_pads && (v =? pd)) then Ret (q, negb (parse_flags =? DO_PARSE_ANY))
  else if v =? sp then Ret (q, parse_flags =? DO_PARSE_STRICT)
  else if v =? pd then
    if byte_len q <? 2 then Ret (q, negb (parse_flags =? DO_PARSE_ANY))
    else if 4 <=? byte_len q + pad_len q then Ret (q, negb (parse_flags =? DO_PARSE_ANY))
    else
      let pad_len' := pad_len q + 1 in
      Ret (Quantum (byte_len q) pad_len' (if pad_len' =? 1 then dpos q else pad_start q) (dpos q) (qbuf q), false)
  else if 0 <? pad_len q then
    if negb (parse_flags =? DO_PARSE_ANY) then Ret (q, true)
    else Ret (Quantum (byte_len q + 1) 0 (pad_start q) (dpos q) (qbuf q), false)
  else Ret (Quantum (byte_len q + 1) (pad_len q) (pad_start q) (dpos q) (qbuf q), false).

Fixpoint quantum_loop (fuel : nat) (parse_flags : Z) (illegal_pads : bool) (data : list Z) (len : Z) (q : quantum)
    : run quantum :=
  match fuel with
  | O => Timeout
  | S fuel =>
      if (byte_len q <? 4) && (dpos q <? len) then
        do (q, stop) <- quantum_step parse_flags illegal_pads data q;
        if stop then Ret q
        else quantum_loop fuel parse_flags illegal_pads data len
               (Quantum (byte_len q) (pad_len q) (pad_start q) (dpos q + 1) (qbuf q))
      else Ret q
  end.

(** Zeroes [qbuf] from position [i] on. *)
Definition zero_from (buf : list Z) (i : Z) : list Z := take (Z.to_nat i) buf ++ replicate (4 - Z.to_nat i) 0.

(** The result: bytes in the quantum, the new [dpos], [qbuf] and [padded]. *)
Definition get_next_quantum (parse_flags : Z) (illegal_pads : bool) (data : list Z) (dpos0 : Z) (buf : list Z)
    : run (Z * Z * list Z * bool) :=
  let len := Z.of_nat (length data) in
  do q <- quantum_loop (S (length data)) parse_flags illegal_pads data len (Quantum 0 0 0 dpos0 buf);
  let buf := zero_from (qbuf q) (byte_len q) in
  if byte_len q + pad_len q =? 4 then Ret (byte_len q, dpos q, buf, true)
  else Ret (byte_len q, if negb (pad_len q =? 0) then pad_start q else dpos q, buf, false).

(** The bytes a quantum of [qlen] characters pushes, and the bits left over in [c]. *)
Definition quantum_bytes (qlen : Z) (q0 q1 q2 q3 : Z) : list Z * Z :=
  let c0 := Z.lor (wrap 8 (Z.shiftl q0 2)) (Z.land (Z.shiftr q1 4) 0x3) in
  if qlen <? 2 then ([], c0)
  else
    let c1 := Z.lor (Z.land (Z.shiftl q1 4) 0xf0) (Z.land (Z.shiftr q2 2) 0xf) in
    if qlen <? 3 then ([c0], c1)
    else
      let c2 := Z.lor (Z.land (Z.shiftl q2 6) 0xc0) q3 in
      if qlen <? 4 then ([c0; c1], c2) else ([c0; c1; c2], 0).

Fixpoint decode_loop (fuel : nat) (parse_flags pad_flags term_flags : Z) (data : list Z) (dpos : Z)
    (buf result : list Z) : run (bool * list Z * Z) :=
  match fuel with
  | O => Timeout
  | S fuel =>
      if dpos <? Z.of_nat (length data) then
        do (qlen, dpos, buf, padded) <- get_next_quantum parse_flags (DO_PAD_NO =? pad_flags) data dpos buf;
        do q0 <- at_ buf 0; do q1 <- at_ buf 1; do q2 <- at_ buf 2; do q3 <- at_ buf 3;
        let (pushed, c) := quantum_bytes qlen q0 q1 q2 q3 in
        let result := result ++ pushed in
        if qlen <? 4 then
          let success := negb (negb (DO_TERM_ANY =? term_flags) && negb (c =? 0)) &&
                         negb ((DO_PAD_YES =? pad_flags) && negb padded) in
          Ret (success, result, dpos)
        else decode_loop fuel parse_flags pad_flags term_flags data dpos buf result
      else Ret (true, result, dpos)
  end.

(** [junk]: the contents of [qbuf] before the first quantum. The result: success, the
    bytes, and [*data_used]. *)
Definition decode_from_array (junk : list Z) (data : list Z) (flags : Z) : run (bool * list Z * Z) :=
  do _ <- check (flags <=? Z.lor (Z.lor DO_PARSE_MASK DO_PAD_MASK) DO_TERM_MASK);
  let parse_flags := Z.land flags DO_PARSE_MASK in
  let pad_flags := Z.land flags DO_PAD_MASK in
  let term_flags := Z.land flags DO_TERM_MASK in
  do _ <- check (negb (0 =? parse_flags));
  do _ <- check (negb (0 =? pad_flags));
  do _ <- check (negb (0 =? term_flags));
  do (success, result, dpos) <- decode_loop (S (length data)) parse_flags pad_flags term_flags data 0 junk [];
  let success := success && negb ((DO_TERM_BUFFER =? term_flags) && negb (dpos =? Z.of_nat (length data))) in
  Ret (success, result, dpos).
