(* ===== verification/Base64Codec.v ===== *)
(** * Base64: the encoder's output, and decoding it

    The reference encoding by groups of three bytes, the encoder's loop shown equal to
    it with every write in bounds, and the round trip through the decoder; the decoder
    terminates inside its input on any text. *)

From stdpp Require Import prelude list strings.
From Stdlib Require Import ZArith Lia.
From S2P Require Import Prelude Chars Base64.

#[local] Open Scope Z_scope.
#[local] Open Scope cxx_scope.

Definition byte (b : Z) : Prop := 0 <= b < 256.
Definition digit (v : Z) : Z := nth (Z.to_nat v) Base64Table 0.

(** ** The reference encoding *)
Fixpoint encode_spec (l : list Z) : list Z :=
  match l with
  | [] => []
  | [a] => [digit (a / 4); digit (a mod 4 * 16); kPad; kPad]
  | [a; b] => [digit (a / 4); digit (a mod 4 * 16 + b / 16); digit (b mod 16 * 4); kPad]
  | a :: b :: c :: l =>
      digit (a / 4) :: digit (a mod 4 * 16 + b / 16) :: digit (b mod 16 * 4 + c / 64) :: digit (c mod 64) :: encode_spec l
  end.

(** Induction by groups of three. *)
Lemma groups_ind {A} (P : list A -> Prop) :
  P [] -> (forall a, P [a]) -> (forall a b, P [a; b]) -> (forall a b c l, P l -> P (a :: b :: c :: l)) -> forall l, P l.
Proof.
  intros H0 H1 H2 H3. fix IH 1. intros [|a [|b [|c l]]]; [done|done|done|]. apply H3, IH.
Qed.

Lemma encode_spec_length (l : list Z) : Z.of_nat (length (encode_spec l)) = (Z.of_nat (length l) + 2) / 3 * 4.
Proof.
  induction l as [|a|a b|a b c l IH] using groups_ind; try done. cbn [encode_spec length].
  rewrite !Nat2Z.inj_succ, IH.
  replace (Z.succ (Z.succ (Z.succ (Z.of_nat (length l)))) + 2) with (Z.of_nat (length l) + 2 + 1 * 3) by lia.
  rewrite Z.div_add by lia. lia.
Qed.

(** ** Cells *)
Lemma at_middle (pre : list Z) (x : Z) (post : list Z) : at_ (pre ++ x :: post) (Z.of_nat (length pre)) = Ret x.
Proof.
  unfold at_. rewrite (proj2 (Z.leb_le _ _)) by lia. rewrite Nat2Z.id.
  rewrite lookup_app_r by lia. by rewrite Nat.sub_diag.
Qed.

Lemma at_digit (v : Z) : 0 <= v < 64 -> at_ Base64Table v = Ret (digit v).
Proof.
  intros H.
  pose proof (Z_range_check 64 (fun v => match at_ Base64Table v with Ret c => c =? digit v | _ => false end)
    ltac:(vm_compute; reflexivity) v ltac:(cbn; lia)) as Hc.
  cbn beta in Hc. destruct (at_ Base64Table v); try done. apply Z.eqb_eq in Hc. by subst.
Qed.

(** ** Bits of a byte *)
Lemma six_bits (a : Z) : byte a ->
  Z.land (Z.shiftr a 2) 0x3f = a / 4 /\ Z.land (wrap 8 (Z.shiftl a 4)) 0x3f = a mod 4 * 16 /\
  Z.land (Z.shiftr a 4) 0x0f = a / 16 /\ Z.land (wrap 8 (Z.shiftl a 2)) 0x3f = a mod 16 * 4 /\
  Z.land (Z.shiftr a 6) 0x03 = a / 64 /\ Z.land a 0x3f = a mod 64.
Proof.
  intros H.
  pose proof (Z_range_check 256 (fun a => (Z.land (Z.shiftr a 2) 0x3f =? a / 4) &&
    (Z.land (wrap 8 (Z.shiftl a 4)) 0x3f =? a mod 4 * 16) && (Z.land (Z.shiftr a 4) 0x0f =? a / 16) &&
    (Z.land (wrap 8 (Z.shiftl a 2)) 0x3f =? a mod 16 * 4) && (Z.land (Z.shiftr a 6) 0x03 =? a / 64) &&
    (Z.land a 0x3f =? a mod 64)) ltac:(vm_compute; reflexivity) a H) as Hc.
  cbn beta in Hc. zbool. done.
Qed.

Lemma lor_4 (x y : Z) : 0 <= y < 16 -> Z.lor (x * 16) y = x * 16 + y.
Proof. exact (lor_add x y 4 ltac:(lia)). Qed.
Lemma lor_2 (x y : Z) : 0 <= y < 4 -> Z.lor (x * 4) y = x * 4 + y.
Proof. exact (lor_add x y 2 ltac:(lia)). Qed.
Lemma lor_6 (x y : Z) : 0 <= y < 64 -> Z.lor (x * 64) y = x * 64 + y.
Proof. exact (lor_add x y 6 ltac:(lia)). Qed.

(** The parts a byte is cut in, and their ranges. *)
Lemma byte_parts (a : Z) : byte a ->
  a = a / 4 * 4 + a mod 4 /\ 0 <= a / 4 < 64 /\ 0 <= a mod 4 < 4 /\
  a = a / 16 * 16 + a mod 16 /\ 0 <= a / 16 < 16 /\ 0 <= a mod 16 < 16 /\
  a = a / 64 * 64 + a mod 64 /\ 0 <= a / 64 < 4 /\ 0 <= a mod 64 < 64.
Proof.
  intros H. unfold byte in H.
  pose proof (Z.div_mod a 4 ltac:(lia)). pose proof (Z.mod_pos_bound a 4 ltac:(lia)).
  pose proof (Z.div_mod a 16 ltac:(lia)). pose proof (Z.mod_pos_bound a 16 ltac:(lia)).
  pose proof (Z.div_mod a 64 ltac:(lia)). pose proof (Z.mod_pos_bound a 64 ltac:(lia)). lia.
Qed.

(** ** The encoder *)
Lemma four_cells (w z : list Z) (c0 c1 c2 c3 d : Z) (k : list Z -> run (Z * list Z * Z)) :
  d = Z.of_nat (length w) ->
  (do r <- store (w ++ 0 :: 0 :: 0 :: 0 :: z) d c0;
   do r <- store r (d + 1) c1; do r <- store r (d + 1 + 1) c2; do r <- store r (d + 1 + 1 + 1) c3; k r)
  = k ((w ++ [c0; c1; c2; c3]) ++ z).
Proof.
  intros ->. rewrite store_middle by done. cbn [run_bind].
  do 3 (rewrite store_middle by (rewrite !length_app; cbn [length]; lia); cbn [run_bind]).
  by rewrite <- !app_assoc.
Qed.

Section Quantum.
Context (data w z : list Z) (len i a : Z) (Ha : byte a) (Hi : at_ data i = Ret a).
Let d := Z.of_nat (length w).
Let result := w ++ 0 :: 0 :: 0 :: 0 :: z.

Lemma encode_three (b c : Z) : byte b -> byte c -> at_ data (i + 1) = Ret b -> at_ data (i + 1 + 1) = Ret c -> i + 1 + 1 < len ->
  encode_quantum data len i result d
  = Ret (i + 1 + 1 + 1, (w ++ [digit (a / 4); digit (a mod 4 * 16 + b / 16); digit (b mod 16 * 4 + c / 64); digit (c mod 64)]) ++ z,
         d + 1 + 1 + 1 + 1).
Proof.
  intros Hb Hc H1 H2 Hlen.
  destruct (six_bits a Ha) as (A1 & A2 & _). destruct (six_bits b Hb) as (_ & _ & B3 & B4 & _).
  destruct (six_bits c Hc) as (_ & _ & _ & _ & C5 & C6).
  pose proof (byte_parts a Ha). pose proof (byte_parts b Hb). pose proof (byte_parts c Hc).
  unfold encode_quantum. rewrite Hi. cbn [run_bind]. cbv zeta. rewrite A1, A2.
  rewrite (proj2 (Z.ltb_lt (i + 1) _)), (proj2 (Z.ltb_lt (i + 1 + 1) _)), H1, H2 by lia. cbn [run_bind].
  rewrite B3, B4, C5.
  rewrite lor_4, lor_2 by lia.
  rewrite !at_digit by lia. cbn [run_bind].
  pose proof (four_cells w z (digit (a / 4)) (digit (a mod 4 * 16 + b / 16)) (digit (b mod 16 * 4 + c / 64)) (digit (c mod 64)) d
    (fun r => Ret (i + 1 + 1 + 1, r, d + 1 + 1 + 1 + 1)) eq_refl) as E. cbn beta in E. rewrite <- E.
  fold result. destruct (store result d _); cbn [run_bind]; try done.
  destruct (store _ (d + 1) _); cbn [run_bind]; try done.
  destruct (store _ (d + 1 + 1) _); cbn [run_bind]; try done.
  rewrite (proj2 (Z.ltb_lt _ _)), H2 by lia. cbn [run_bind]. rewrite C6, at_digit by lia. done.
Qed.

Lemma encode_two (b : Z) : byte b -> at_ data (i + 1) = Ret b -> len = i + 1 + 1 ->
  encode_quantum data len i result d
  = Ret (len, (w ++ [digit (a / 4); digit (a mod 4 * 16 + b / 16); digit (b mod 16 * 4); kPad]) ++ z, d + 1 + 1 + 1 + 1).
Proof.
  intros Hb H1 Hlen.
  destruct (six_bits a Ha) as (A1 & A2 & _). destruct (six_bits b Hb) as (_ & _ & B3 & B4 & _).
  pose proof (byte_parts a Ha). pose proof (byte_parts b Hb).
  unfold encode_quantum. rewrite Hi. cbn [run_bind]. cbv zeta. rewrite A1, A2.
  rewrite (proj2 (Z.ltb_lt (i + 1) _)), (proj2 (Z.ltb_ge (i + 1 + 1) _)), H1 by lia. cbn [run_bind].
  rewrite B3, B4. rewrite lor_4 by lia.
  rewrite !at_digit by lia. cbn [run_bind].
  pose proof (four_cells w z (digit (a / 4)) (digit (a mod 4 * 16 + b / 16)) (digit (b mod 16 * 4)) kPad d
    (fun r => Ret (len, r, d + 1 + 1 + 1 + 1)) eq_refl) as E. cbn beta in E. rewrite <- E.
  fold result. destruct (store result d _); cbn [run_bind]; try done.
  destruct (store _ (d + 1) _); cbn [run_bind]; try done.
  destruct (store _ (d + 1 + 1) _); cbn [run_bind]; try done. rewrite (proj2 (Z.ltb_ge _ _)) by lia.
  by rewrite Hlen.
Qed.

Lemma encode_one : len = i + 1 ->
  encode_quantum data len i result d
  = Ret (len, (w ++ [digit (a / 4); digit (a mod 4 * 16); kPad; kPad]) ++ z, d + 1 + 1 + 1 + 1).
Proof.
  intros Hlen. destruct (six_bits a Ha) as (A1 & A2 & _). pose proof (byte_parts a Ha).
  unfold encode_quantum. rewrite Hi. cbn [run_bind]. cbv zeta. rewrite A1, A2.
  rewrite (proj2 (Z.ltb_ge (i + 1) _)) by lia. cbn [run_bind].
  rewrite !at_digit by lia. cbn [run_bind].
  pose proof (four_cells w z (digit (a / 4)) (digit (a mod 4 * 16)) kPad kPad d
    (fun r => Ret (len, r, d + 1 + 1 + 1 + 1)) eq_refl) as E. cbn beta in E. rewrite <- E.
  fold result. destruct (store result d _); cbn [run_bind]; try done.
  destruct (store _ (d + 1) _); cbn [run_bind]; try done.
  destruct (store _ (d + 1 + 1) _); cbn [run_bind]; try done. rewrite (proj2 (Z.ltb_ge _ _)) by lia.
  by rewrite Hlen.
Qed.
End Quantum.

Lemma encode_loop_spec (l pre w z : list Z) (fuel : nat) :
  Forall byte l -> (length l < fuel)%nat -> length z = 0%nat ->
  encode_loop fuel (pre ++ l) (Z.of_nat (length (pre ++ l))) (Z.of_nat (length pre))
    (w ++ replicate (length (encode_spec l)) 0 ++ z) (Z.of_nat (length w)) = Ret (w ++ encode_spec l).
Proof.
  intros Hb Hf Hz%nil_length_inv. subst z. rewrite app_nil_r. revert pre w fuel Hb Hf.
  induction l as [|a|a b|a b c l IH] using groups_ind; intros pre w [|fuel] Hb Hf; try (cbn in Hf; lia); cbn [encode_loop].
  - rewrite (proj2 (Z.ltb_ge _ _)) by (rewrite app_nil_r; lia). done.
  - inversion Hb; subst. destruct fuel as [|fuel]; [cbn in Hf; lia|].
    rewrite (proj2 (Z.ltb_lt _ _)) by (rewrite length_app; cbn [length]; lia).
    rewrite (encode_one _ _ [] _ _ a) by (done || apply at_middle || (rewrite length_app; cbn [length]; lia)).
    cbn [run_bind encode_loop]. rewrite (proj2 (Z.ltb_ge _ _)) by lia. by rewrite app_nil_r.
  - inversion Hb as [|? ? ? Hb']; inversion Hb'; subst. destruct fuel as [|fuel]; [cbn in Hf; lia|].
    rewrite (proj2 (Z.ltb_lt _ _)) by (rewrite length_app; cbn [length]; lia).
    rewrite (encode_two _ _ [] _ _ a) with (b := b)
      by (done || apply at_middle || exact (at_offset pre [a; b] 1 b eq_refl) || (rewrite length_app; cbn [length]; lia)).
    cbn [run_bind encode_loop]. rewrite (proj2 (Z.ltb_ge _ _)) by lia. by rewrite app_nil_r.
  - inversion Hb as [|? ? Ha Hb']; inversion Hb' as [|? ? Hb0 Hb'']; inversion Hb'' as [|? ? Hc Hl]; subst.
    rewrite (proj2 (Z.ltb_lt _ _)) by (rewrite length_app; cbn [length]; lia).
    cbn [encode_spec length replicate app].
    rewrite (encode_three _ w _ _ _ a Ha) with (b := b) (c := c); try done; try apply at_middle.
    2:{ exact (at_offset pre (a :: b :: c :: l) 1 b eq_refl). }
    2:{ rewrite <- Z.add_assoc. exact (at_offset pre (a :: b :: c :: l) 2 c eq_refl). }
    2:{ rewrite length_app; cbn [length]; lia. }
    cbn [run_bind].
    specialize (IH (pre ++ [a; b; c]) (w ++ [digit (a / 4); digit (a mod 4 * 16 + b / 16); digit (b mod 16 * 4 + c / 64); digit (c mod 64)])
      fuel Hl ltac:(cbn in Hf; lia)).
    rewrite <- !app_assoc in IH. cbn [app] in IH. rewrite <- !app_assoc. cbn [app].
    rewrite !length_app in IH. cbn [length] in IH. rewrite !length_app. cbn [length].
    rewrite <- IH. f_equal; lia.
Qed.

(** The encoder fills exactly the string it allocated with the reference encoding. *)
Lemma encode_from_array_spec (l : list Z) : Forall byte l -> encode_from_array l = Ret (encode_spec l).
Proof.
  intros Hb. unfold encode_from_array. rewrite <- encode_spec_length, Nat2Z.id.
  pose proof (encode_loop_spec l [] [] [] (S (length l)) Hb ltac:(lia) eq_refl) as E.
  cbn [app] in E. rewrite app_nil_r in E. exact E.
Qed.

(** ** The decoder *)
Lemma table_digit (v : Z) : 0 <= v < 64 -> at_ DecodeTable (digit v) = Ret v.
Proof.
  intros H.
  pose proof (Z_range_check 64 (fun v => match at_ DecodeTable (digit v) with Ret c => c =? v | _ => false end)
    ltac:(vm_compute; reflexivity) v H) as Hc.
  cbn beta in Hc. destruct (at_ DecodeTable (digit v)); try done. apply Z.eqb_eq in Hc. by subst.
Qed.

Section Steps.
Context (pf : Z) (ip : bool) (data : list Z) (len : Z) (fuel : nat).

Lemma loop_digit (k ps d v : Z) (buf : list Z) :
  0 <= k < 4 -> d < len -> at_ data d = Ret (digit v) -> 0 <= v < 64 -> length buf = 4%nat ->
  quantum_loop (S fuel) pf ip data len (Quantum k 0 ps d buf)
  = quantum_loop fuel pf ip data len (Quantum (k + 1) 0 ps (d + 1) (<[Z.to_nat k := v]> buf)).
Proof.
  intros Hk Hd Ha Hv Hb. cbn [quantum_loop byte_len dpos].
  rewrite (proj2 (Z.ltb_lt k 4)), (proj2 (Z.ltb_lt d len)) by lia. cbn [andb].
  unfold quantum_step. cbn [dpos byte_len pad_len pad_start qbuf].
  rewrite Ha. cbn [run_bind]. rewrite table_digit by done. cbn [run_bind].
  rewrite store_insert by lia. cbn [run_bind]. unfold il, sp, pd.
  rewrite !(proj2 (Z.eqb_neq v _)) by lia. rewrite andb_false_r. reflexivity.
Qed.

Lemma loop_pad (k p ps d : Z) (buf : list Z) :
  ip = false -> 2 <= k < 4 -> 0 <= p -> k + p < 4 -> d < len -> at_ data d = Ret kPad -> length buf = 4%nat ->
  quantum_loop (S fuel) pf ip data len (Quantum k p ps d buf)
  = quantum_loop fuel pf ip data len (Quantum k (p + 1) (if p + 1 =? 1 then d else ps) (d + 1) (<[Z.to_nat k := pd]> buf)).
Proof.
  intros -> Hk Hp Hkp Hd Ha Hb. cbn [quantum_loop byte_len dpos].
  rewrite (proj2 (Z.ltb_lt k 4)), (proj2 (Z.ltb_lt d len)) by lia. cbn [andb].
  unfold quantum_step. cbn [dpos byte_len pad_len pad_start qbuf].
  rewrite Ha. cbn [run_bind]. change (at_ DecodeTable kPad) with (Ret pd). cbn [run_bind].
  rewrite store_insert by lia. cbn [run_bind].
  change (pd =? il) with false. change (pd =? sp) with false. rewrite Z.eqb_refl. cbn [andb orb].
  cbn [byte_len pad_len pad_start dpos qbuf].
  rewrite (proj2 (Z.ltb_ge k 2)), (proj2 (Z.leb_gt 4 (k + p))) by lia. reflexivity.
Qed.
End Steps.

Lemma loop_stop (pf : Z) (ip : bool) (data : list Z) (len : Z) (fuel : nat) (q : quantum) :
  4 <= byte_len q \/ len <= dpos q -> quantum_loop (S fuel) pf ip data len q = Ret q.
Proof.
  intros H. cbn [quantum_loop].
  destruct (Z.ltb_spec (byte_len q) 4), (Z.ltb_spec (dpos q) len); cbn [andb]; try done. lia.
Qed.

(** Whole quanta at the position [d] of the input, the last one padded. *)
Section Quanta.
Context (pf : Z) (ip : bool) (pre l : list Z) (x0 x1 x2 x3 : Z).
Let d := Z.of_nat (length pre).
Let len := Z.of_nat (length (pre ++ l)).

Lemma char_at (k : nat) (x : Z) : l !! k = Some x -> at_ (pre ++ l) (d + Z.of_nat k) = Ret x.
Proof. apply at_offset. Qed.

Lemma length_input : len = d + Z.of_nat (length l).
Proof. unfold len, d. rewrite length_app. lia. Qed.

(** A digit of the input. *)
Definition digit_at (k : nat) (v : Z) : Prop := l !! k = Some (digit v) /\ 0 <= v < 64.

Lemma quantum_full (v0 v1 v2 v3 : Z) :
  digit_at 0 v0 -> digit_at 1 v1 -> digit_at 2 v2 -> digit_at 3 v3 -> (4 <= length l)%nat ->
  get_next_quantum pf ip (pre ++ l) d [x0; x1; x2; x3] = Ret (4, d + 4, [v0; v1; v2; v3], true).
Proof.
  intros [C0 H0] [C1 H1] [C2 H2] [C3 H3] Hl. unfold get_next_quantum. fold len.
  pose proof length_input as HL.
  pose proof (char_at 0 _ C0) as A0. pose proof (char_at 1 _ C1) as A1.
  pose proof (char_at 2 _ C2) as A2. pose proof (char_at 3 _ C3) as A3.
  rewrite Z.add_0_r in A0. change (Z.of_nat 1) with 1 in A1. change (Z.of_nat 2) with 2 in A2. change (Z.of_nat 3) with 3 in A3.
  assert (HF : exists f, S (length (pre ++ l)) = S (S (S (S (S f))))).
  { exists (length (pre ++ l) - 4)%nat. rewrite length_app. lia. }
  destruct HF as [f ->].
  rewrite (loop_digit _ _ _ _ _ 0 0 d v0) by (done || lia). replace (d + 1 + 1) with (d + 2) by lia.
  rewrite (loop_digit _ _ _ _ _ (0 + 1) 0 (d + 1) v1) by (done || lia). replace (d + 1 + 1) with (d + 2) by lia.
  rewrite (loop_digit _ _ _ _ _ (0 + 1 + 1) 0 (d + 2) v2) by (done || lia). replace (d + 2 + 1) with (d + 3) by lia.
  rewrite (loop_digit _ _ _ _ _ (0 + 1 + 1 + 1) 0 (d + 3) v3) by (done || lia). replace (d + 3 + 1) with (d + 4) by lia.
  rewrite loop_stop by (left; cbn [byte_len]; lia). reflexivity.
Qed.

Lemma quantum_padded (v0 v1 : Z) :
  ip = false -> digit_at 0 v0 -> digit_at 1 v1 -> length l = 4%nat -> l !! 3%nat = Some kPad ->
  (l !! 2%nat = Some kPad ->
   get_next_quantum pf ip (pre ++ l) d [x0; x1; x2; x3] = Ret (2, d + 4, [v0; v1; 0; 0], true)) /\
  (forall v2, digit_at 2 v2 ->
   get_next_quantum pf ip (pre ++ l) d [x0; x1; x2; x3] = Ret (3, d + 4, [v0; v1; v2; 0], true)).
Proof.
  intros Hip [C0 H0] [C1 H1] Hl C3. pose proof length_input as HL.
  pose proof (char_at 0 _ C0) as A0. pose proof (char_at 1 _ C1) as A1. pose proof (char_at 3 _ C3) as A3.
  rewrite Z.add_0_r in A0. change (Z.of_nat 1) with 1 in A1. change (Z.of_nat 3) with 3 in A3.
  assert (HF : exists f, S (length (pre ++ l)) = S (S (S (S (S f))))).
  { exists (length (pre ++ l) - 4)%nat. rewrite length_app. lia. }
  destruct HF as [f HF].
  assert (Hstart : forall fuel', quantum_loop (S (S fuel')) pf ip (pre ++ l) len (Quantum 0 0 0 d [x0; x1; x2; x3])
            = quantum_loop fuel' pf ip (pre ++ l) len (Quantum 2 0 0 (d + 2) [v0; v1; x2; x3])).
  { intros fuel'. rewrite (loop_digit _ _ _ _ _ 0 0 d v0) by (done || lia).
    rewrite (loop_digit _ _ _ _ _ (0 + 1) 0 (d + 1) v1) by (done || lia). by replace (d + 1 + 1) with (d + 2) by lia. }
  unfold get_next_quantum. fold len. rewrite HF, Hstart. split.
  - intros C2. pose proof (char_at 2 _ C2) as A2. change (Z.of_nat 2) with 2 in A2.
    rewrite (loop_pad _ _ _ _ _ 2 0 0 (d + 2)) by (done || lia). replace (d + 2 + 1) with (d + 3) by lia.
    rewrite (loop_pad _ _ _ _ _ 2 (0 + 1) _ (d + 3)) by (done || lia). replace (d + 3 + 1) with (d + 4) by lia.
    rewrite loop_stop by (right; cbn [dpos]; lia). reflexivity.
  - intros v2 [C2 H2]. pose proof (char_at 2 _ C2) as A2. change (Z.of_nat 2) with 2 in A2.
    rewrite (loop_digit _ _ _ _ _ 2 0 (d + 2) v2) by (done || lia). replace (d + 2 + 1) with (d + 3) by lia.
    rewrite (loop_pad _ _ _ _ _ (2 + 1) 0 0 (d + 3)) by (done || lia). replace (d + 3 + 1) with (d + 4) by lia.
    rewrite loop_stop by (right; cbn [dpos]; lia). reflexivity.
Qed.
End Quanta.

(** The bytes of the quanta the encoder writes, with no bit left over. *)
Lemma combine_0 (a b : Z) : byte a -> byte b ->
  Z.lor (wrap 8 (Z.shiftl (a / 4) 2)) (Z.land (Z.shiftr (a mod 4 * 16 + b / 16) 4) 0x3) = a.
Proof.
  intros Ha Hb. pose proof (byte_parts a Ha). pose proof (byte_parts b Hb).
  rewrite Z.shiftr_div_pow2, Z.shiftl_mul_pow2 by lia. change (2 ^ 4) with 16. change (2 ^ 2) with 4.
  rewrite (Z.add_comm (a mod 4 * 16)), Z.div_add, (Z.div_small (b / 16)) by lia.
  change 0x3 with (Z.ones 2). rewrite Z.land_ones by lia. change (2 ^ 2) with 4.
  rewrite Z.add_0_l, Z.mod_small by lia. unfold wrap. change (2 ^ 8) with 256.
  rewrite Z.mod_small by lia. rewrite lor_2 by lia. lia.
Qed.

Lemma mask_high (x k m : Z) : 0 <= k -> 0 <= m -> Z.land (Z.shiftl x k) (Z.shiftl (Z.ones m) k) = x mod 2 ^ m * 2 ^ k.
Proof.
  intros Hk Hm. rewrite <- Z.shiftl_land, Z.land_ones, Z.shiftl_mul_pow2 by lia. done.
Qed.

Lemma combine_1 (a b c : Z) : byte a -> byte b -> byte c ->
  Z.lor (Z.land (Z.shiftl (a mod 4 * 16 + b / 16) 4) 0xf0) (Z.land (Z.shiftr (b mod 16 * 4 + c / 64) 2) 0xf) = b.
Proof.
  intros Ha Hb Hc. pose proof (byte_parts a Ha). pose proof (byte_parts b Hb). pose proof (byte_parts c Hc).
  change 0xf0 with (Z.shiftl (Z.ones 4) 4). rewrite mask_high by lia. change (2 ^ 4) with 16.
  rewrite (Z.add_comm (a mod 4 * 16)), Z.mod_add, (Z.mod_small (b / 16)) by lia.
  rewrite Z.shiftr_div_pow2 by lia. change (2 ^ 2) with 4.
  rewrite (Z.add_comm (b mod 16 * 4)), Z.div_add, (Z.div_small (c / 64)) by lia.
  change 0xf with (Z.ones 4). rewrite Z.land_ones by lia. change (2 ^ 4) with 16.
  rewrite Z.add_0_l, Z.mod_small by lia. rewrite lor_4 by lia. lia.
Qed.

Lemma combine_2 (b c : Z) : byte b -> byte c ->
  Z.lor (Z.land (Z.shiftl (b mod 16 * 4 + c / 64) 6) 0xc0) (c mod 64) = c.
Proof.
  intros Hb Hc. pose proof (byte_parts b Hb). pose proof (byte_parts c Hc).
  change 0xc0 with (Z.shiftl (Z.ones 2) 6). rewrite mask_high by lia. change (2 ^ 2) with 4. change (2 ^ 6) with 64.
  rewrite (Z.add_comm (b mod 16 * 4)), Z.mod_add, (Z.mod_small (c / 64)) by lia.
  rewrite lor_6 by lia. lia.
Qed.

Lemma byte_0 : byte 0.
Proof. unfold byte. lia. Qed.

Lemma bytes_three (a b c : Z) : byte a -> byte b -> byte c ->
  quantum_bytes 4 (a / 4) (a mod 4 * 16 + b / 16) (b mod 16 * 4 + c / 64) (c mod 64) = ([a; b; c], 0).
Proof. intros Ha Hb Hc. unfold quantum_bytes. by rewrite combine_0, combine_1, combine_2. Qed.

Lemma bytes_two (a b : Z) : byte a -> byte b ->
  quantum_bytes 3 (a / 4) (a mod 4 * 16 + b / 16) (b mod 16 * 4) 0 = ([a; b], 0).
Proof.
  intros Ha Hb. unfold quantum_bytes. rewrite combine_0 by done.
  pose proof (combine_1 a b 0 Ha Hb byte_0) as E1. pose proof (combine_2 b 0 Hb byte_0) as E2.
  change (0 / 64) with 0 in E1, E2. change (0 mod 64) with 0 in E2.
  rewrite !Z.add_0_r in E1, E2. by rewrite E1, E2.
Qed.

Lemma bytes_one (a : Z) : byte a -> quantum_bytes 2 (a / 4) (a mod 4 * 16) 0 0 = ([a], 0).
Proof.
  intros Ha. unfold quantum_bytes.
  pose proof (combine_0 a 0 Ha byte_0) as E0. pose proof (combine_1 a 0 0 Ha byte_0 byte_0) as E1.
  change (0 / 16) with 0 in E0, E1. change (0 mod 16 * 4 + 0 / 64) with 0 in E1.
  rewrite !Z.add_0_r in E0, E1. by rewrite E0, E1.
Qed.

(** ** The round trip *)
Lemma decode_loop_step (pf padf tf : Z) (data buf out : list Z) (d qlen d' v0 v1 v2 v3 : Z) (ip padded : bool) (fuel : nat) :
  d < Z.of_nat (length data) -> (DO_PAD_NO =? padf) = ip ->
  get_next_quantum pf ip data d buf = Ret (qlen, d', [v0; v1; v2; v3], padded) ->
  decode_loop (S fuel) pf padf tf data d buf out
  = let (pushed, c) := quantum_bytes qlen v0 v1 v2 v3 in
    if qlen <? 4 then
      Ret (negb (negb (DO_TERM_ANY =? tf) && negb (c =? 0)) && negb ((DO_PAD_YES =? padf) && negb padded), out ++ pushed, d')
    else decode_loop fuel pf padf tf data d' [v0; v1; v2; v3] (out ++ pushed).
Proof.
  intros Hd <- E. cbn [decode_loop]. rewrite (proj2 (Z.ltb_lt _ _)) by done. rewrite E. reflexivity.
Qed.

Section Decode.
Context (pf padf tf : Z) (Hpad : (DO_PAD_NO =? padf) = false).

Lemma decode_loop_spec (l pre out buf : list Z) (fuel : nat) :
  Forall byte l -> length buf = 4%nat -> (length l < fuel)%nat ->
  decode_loop fuel pf padf tf (pre ++ encode_spec l) (Z.of_nat (length pre)) buf out
  = Ret (true, out ++ l, Z.of_nat (length (pre ++ encode_spec l))).
Proof.
  revert pre out buf fuel.
  induction l as [|a|a b|a b c l IH] using groups_ind; intros pre out buf [|fuel] Hl Hbuf Hf; try (cbn in Hf; lia);
    destruct buf as [|x0 [|x1 [|x2 [|x3 []]]]]; try done.
  - cbn [decode_loop]. rewrite !app_nil_r, (proj2 (Z.ltb_ge _ _)) by lia. done.
  - apply Forall_cons in Hl as [Ha _]. pose proof (byte_parts a Ha).
    destruct (quantum_padded pf false pre (encode_spec [a]) x0 x1 x2 x3 (a / 4) (a mod 4 * 16)) as [E _];
      [done|split; [done|lia]|split; [done|lia]|done|done|].
    erewrite decode_loop_step; [|rewrite length_app; cbn [encode_spec length]; lia|exact Hpad|exact (E eq_refl)].
    rewrite bytes_one by done. cbn [Z.ltb Z.compare Pos.compare Pos.compare_cont Z.eqb negb]. rewrite !andb_false_r.
    rewrite length_app, Nat2Z.inj_add. reflexivity.
  - apply Forall_cons in Hl as [Ha [Hb _]%Forall_cons]. pose proof (byte_parts a Ha). pose proof (byte_parts b Hb).
    destruct (quantum_padded pf false pre (encode_spec [a; b]) x0 x1 x2 x3 (a / 4) (a mod 4 * 16 + b / 16)) as [_ E];
      [done|split; [done|lia]|split; [done|lia]|done|done|].
    erewrite decode_loop_step; [|rewrite length_app; cbn [encode_spec length]; lia|exact Hpad
                                |exact (E (b mod 16 * 4) ltac:(split; [done|lia]))].
    rewrite bytes_two by done. cbn [Z.ltb Z.compare Pos.compare Pos.compare_cont Z.eqb negb]. rewrite !andb_false_r.
    rewrite length_app, Nat2Z.inj_add. reflexivity.
  - apply Forall_cons in Hl as [Ha [Hb [Hc Hl]%Forall_cons]%Forall_cons].
    pose proof (byte_parts a Ha). pose proof (byte_parts b Hb). pose proof (byte_parts c Hc).
    erewrite decode_loop_step; [|rewrite length_app; cbn [encode_spec length]; lia|exact Hpad
      |apply (quantum_full pf false pre (encode_spec (a :: b :: c :: l)) x0 x1 x2 x3
               (a / 4) (a mod 4 * 16 + b / 16) (b mod 16 * 4 + c / 64) (c mod 64));
       [split; [done|lia]..|cbn [encode_spec length]; lia]].
    rewrite bytes_three by done. cbn [Z.ltb Z.compare Pos.compare Pos.compare_cont].
    specialize (IH (pre ++ take 4 (encode_spec (a :: b :: c :: l))) (out ++ [a; b; c])
      [a / 4; a mod 4 * 16 + b / 16; b mod 16 * 4 + c / 64; c mod 64] fuel Hl eq_refl ltac:(cbn in Hf; lia)).
    cbn [encode_spec take] in IH. rewrite <- !app_assoc in IH. cbn [app] in IH.
    rewrite length_app, Nat2Z.inj_add in IH. exact IH.
Qed.
End Decode.

(** The encoding uses the alphabet and is longer than the data. *)
Lemma digit_char (v : Z) : 0 <= v < 64 -> is_base64_char (digit v) = true /\ digit v <> kPad.
Proof.
  intros H.
  pose proof (Z_range_check 64 (fun v => is_base64_char (digit v) && negb (digit v =? kPad))
    ltac:(vm_compute; reflexivity) v H) as Hc.
  cbn beta in Hc. zbool. done.
Qed.

Lemma encoded_chars (l : list Z) : Forall byte l -> is_base64_encoded (filter (fun c => c <> kPad) (encode_spec l)) = true.
Proof.
  intros Hl. apply Is_true_true. unfold is_base64_encoded. apply forallb_True, Forall_forall. intros x [Hx Hin]%list_elem_of_filter. revert Hin.
  induction l as [|a|a b|a b c l IH] using groups_ind; cbn [encode_spec].
  - by intros ?%elem_of_nil.
  - apply Forall_cons in Hl as [Ha _]. pose proof (byte_parts a Ha).
    rewrite !elem_of_cons. intros [->|[->|[->|[->|?%elem_of_nil]]]]; try done; apply Is_true_true, digit_char; lia.
  - apply Forall_cons in Hl as [Ha [Hb _]%Forall_cons]. pose proof (byte_parts a Ha). pose proof (byte_parts b Hb).
    rewrite !elem_of_cons. intros [->|[->|[->|[->|?%elem_of_nil]]]]; try done; apply Is_true_true, digit_char; lia.
  - apply Forall_cons in Hl as [Ha [Hb [Hc Hl]%Forall_cons]%Forall_cons].
    pose proof (byte_parts a Ha). pose proof (byte_parts b Hb). pose proof (byte_parts c Hc).
    rewrite !elem_of_cons. intros [->|[->|[->|[->|?]]]]; try (by apply IH); apply Is_true_true, digit_char; lia.
Qed.

Lemma encode_spec_long (l : list Z) : (length l <= length (encode_spec l))%nat.
Proof. induction l using groups_ind; cbn [encode_spec length] in *; lia. Qed.

(** C34: decoding the encoding of any bytes, under every option that does not reject
    padding, reports success, gives the bytes back and consumes the whole text. *)
Theorem decode_encode (l junk : list Z) (flags : Z) :
  Forall byte l -> length junk = 4%nat -> 0 <= flags < 64 ->
  Z.land flags DO_PARSE_MASK <> 0 -> Z.land flags DO_PAD_MASK <> 0 -> Z.land flags DO_PAD_MASK <> DO_PAD_NO ->
  Z.land flags DO_TERM_MASK <> 0 ->
  exists text, encode_from_array l = Ret text /\ Z.of_nat (length text) = (Z.of_nat (length l) + 2) / 3 * 4 /\
    is_base64_encoded (filter (fun c => c <> kPad) text) = true /\
    decode_from_array junk text flags = Ret (true, l, Z.of_nat (length text)).
Proof.
  intros Hl Hj Hf H1 H2 H3 H4. exists (encode_spec l). split; [by apply encode_from_array_spec|].
  split; [apply encode_spec_length|]. split; [by apply encoded_chars|].
  unfold decode_from_array. rewrite (proj2 (Z.leb_le flags _)) by (change (Z.lor _ DO_TERM_MASK) with 63; lia).
  rewrite !(proj2 (Z.eqb_neq 0 _)) by congruence. cbn [check negb run_bind].
  pose proof (decode_loop_spec (Z.land flags DO_PARSE_MASK) _ (Z.land flags DO_TERM_MASK)
    (proj2 (Z.eqb_neq _ _) (not_eq_sym H3)) l [] [] junk
    (S (length (encode_spec l))) Hl Hj ltac:(pose proof (encode_spec_long l); lia)) as E.
  cbn [app length] in E. change (Z.of_nat 0) with 0 in E. rewrite E. cbn [run_bind].
  rewrite Z.eqb_refl. cbn [negb]. by rewrite andb_false_r.
Qed.

Lemma decode_encode_witness :
  exists text, encode_from_array [72; 105; 33; 255] = Ret text /\
    Z.of_nat (length text) = (Z.of_nat (length [72; 105; 33; 255]) + 2) / 3 * 4 /\
    is_base64_encoded (filter (fun c => c <> kPad) text) = true /\
    decode_from_array [1; 2; 3; 4] text DO_STRICT = Ret (true, [72; 105; 33; 255], Z.of_nat (length text)).
Proof.
  apply (decode_encode [72; 105; 33; 255] [1; 2; 3; 4] DO_STRICT); try done.
  repeat (apply Forall_cons; split; [split; lia|]). by apply Forall_nil.
Defined.

(** [strchr] finds the terminating null, and the character after it is read. *)
Lemma next_char_of_null : get_next_base64_char 0 = Undef.
Proof. reflexivity. Qed.

(** ** Any input *)
Section Total.
Context (pf : Z) (ip : bool) (data : list Z) (Hdata : Forall byte data).
Let len := Z.of_nat (length data).

(** The locals of [get_next_quantum] between two turns of its loop started at [d0]. *)
Definition quantum_ok (d0 : Z) (q : quantum) : Prop :=
  length (qbuf q) = 4%nat /\ 0 <= byte_len q <= 4 /\ 0 <= pad_len q /\ 0 <= d0 /\
  d0 + byte_len q <= dpos q <= len /\ (pad_len q <> 0 -> byte_len q < 4 /\ d0 + byte_len q <= pad_start q <= dpos q).

Lemma at_byte (d : Z) : 0 <= d < len -> exists ch, at_ data d = Ret ch /\ byte ch.
Proof.
  intros H. destruct (lookup_lt_is_Some_2 data (Z.to_nat d) ltac:(unfold len in H; lia)) as [ch Hch].
  exists ch. unfold at_. rewrite (proj2 (Z.leb_le _ _)), Hch by lia. split; [done|].
  by apply (Forall_lookup_1 _ _ _ _ Hdata Hch).
Qed.

Lemma table_total (ch : Z) : byte ch -> exists v, at_ DecodeTable ch = Ret v.
Proof.
  intros H. unfold at_. rewrite (proj2 (Z.leb_le _ _)) by (unfold byte in H; lia).
  destruct (lookup_lt_is_Some_2 DecodeTable (Z.to_nat ch)) as [v ->]; [|by exists v].
  change (length DecodeTable) with 256%nat. unfold byte in H. lia.
Qed.

Lemma quantum_step_total (d0 : Z) (q : quantum) : quantum_ok d0 q -> byte_len q < 4 -> dpos q < len ->
  exists q' stop, quantum_step pf ip data q = Ret (q', stop) /\ dpos q' = dpos q /\
    quantum_ok d0 (if stop : bool then q' else Quantum (byte_len q') (pad_len q') (pad_start q') (dpos q' + 1) (qbuf q')).
Proof.
  intros (Hl & Hb & Hp & H0 & Hd & Hps) Hb4 Hdl. unfold quantum_step.
  destruct (at_byte (dpos q)) as (ch & -> & Hch); [lia|]. cbn [run_bind].
  destruct (table_total ch Hch) as [v ->]. cbn [run_bind].
  rewrite store_insert by lia. cbn [run_bind byte_len pad_len pad_start dpos qbuf].
  assert (Hgo : forall b l s (stop : bool), 0 <= l -> (b = byte_len q \/ b = byte_len q + 1 /\ l = 0 /\ stop = false) ->
    (l <> 0 -> b < 4 /\ d0 + b <= s <= dpos q) ->
    exists q' stop', Ret (Quantum b l s (dpos q) (<[Z.to_nat (byte_len q) := v]> (qbuf q)), stop) = Ret (q', stop') /\
      dpos q' = dpos q /\
      quantum_ok d0 (if stop' : bool then q' else Quantum (byte_len q') (pad_len q') (pad_start q') (dpos q' + 1) (qbuf q'))).
  { intros b l s stop Hl' Hb' Hs. eexists _, _. split; [reflexivity|]. split; [reflexivity|]. unfold quantum_ok.
    destruct stop; cbn [byte_len pad_len pad_start dpos qbuf]; rewrite length_insert; naive_solver lia. }
  repeat case_match; zbool; apply Hgo; try lia; naive_solver lia.
Qed.

Lemma quantum_loop_total (d0 : Z) (fuel : nat) (q : quantum) :
  quantum_ok d0 q -> (Z.to_nat (len - dpos q) < fuel)%nat ->
  exists q', quantum_loop fuel pf ip data len q = Ret q' /\ quantum_ok d0 q' /\ (byte_len q' < 4 \/ d0 + 4 <= dpos q').
Proof.
  revert q. induction fuel as [|fuel IH]; intros q Hq Hf; [lia|]. cbn [quantum_loop].
  pose proof Hq as (_ & Hb & _ & _ & Hd & _).
  destruct (Z.ltb_spec (byte_len q) 4) as [Hlt|]; cbn [andb]; [|exists q; repeat split; try done; try apply Hq; lia].
  destruct (Z.ltb_spec (dpos q) len) as [Hlt'|]; [|exists q; repeat split; try apply Hq; lia].
  destruct (quantum_step_total d0 q Hq Hlt Hlt') as (q' & stop & E & Hdp & Hok). rewrite E. cbn [run_bind].
  destruct stop.
  - exists q'. split; [done|]. split; [done|]. destruct Hok as (_ & ? & _ & _ & ? & _). lia.
  - apply IH; [done|]. cbn [dpos]. destruct Hok as (_ & _ & _ & _ & Hd' & _). cbn [dpos byte_len] in Hd'.
    lia.
Qed.

Lemma get_next_quantum_total (d0 : Z) (buf : list Z) : 0 <= d0 < len -> length buf = 4%nat ->
  exists n d buf' padded, get_next_quantum pf ip data d0 buf = Ret (n, d, buf', padded) /\
    length buf' = 4%nat /\ 0 <= n <= 4 /\ d0 + n <= d <= len.
Proof.
  intros Hd Hb. unfold get_next_quantum. fold len.
  destruct (quantum_loop_total d0 (S (length data)) (Quantum 0 0 0 d0 buf)) as (q & -> & Hq & _);
    [unfold quantum_ok; cbn; lia|cbn; unfold len; lia|]. cbn [run_bind].
  destruct Hq as (Hl & Hn & Hp & _ & Hdp & Hps).
  assert (length (zero_from (qbuf q) (byte_len q)) = 4%nat).
  { unfold zero_from. rewrite length_app, length_take, length_replicate. lia. }
  destruct (_ =? 4); [by eexists _, _, _, _; repeat split; try done; lia|].
  eexists _, _, _, _. split; [reflexivity|]. destruct (Z.eqb_spec (pad_len q) 0); cbn [negb]; repeat split; try done; lia.
Qed.

End Total.

Lemma pushed_length (n q0 q1 q2 q3 : Z) : 0 <= n <= 4 ->
  4 * Z.of_nat (length (fst (quantum_bytes n q0 q1 q2 q3))) <= 3 * n.
Proof. intros H. unfold quantum_bytes. repeat case_match; zbool; cbn; lia. Qed.

Section DecodeTotal.
Context (pf padf tf : Z) (data : list Z) (Hdata : Forall byte data).
Let len := Z.of_nat (length data).

Lemma decode_loop_total (fuel : nat) (d : Z) (buf out : list Z) :
  0 <= d <= len -> (Z.to_nat (len - d) < fuel)%nat -> length buf = 4%nat -> 4 * Z.of_nat (length out) <= 3 * d ->
  exists ok out' d', decode_loop fuel pf padf tf data d buf out = Ret (ok, out', d') /\
    out `prefix_of` out' /\ d <= d' <= len /\ 4 * Z.of_nat (length out') <= 3 * d'.
Proof.
  revert d buf out. induction fuel as [|fuel IH]; intros d buf out Hd Hf Hb Ho; [lia|]. 
  destruct (Z.ltb_spec d len) as [Hlt|Hge].
  2:{ cbn [decode_loop]. fold len. rewrite (proj2 (Z.ltb_ge _ _)) by lia. eexists _, _, _. split; [done|]. repeat split; try done; lia. }
  destruct (get_next_quantum_total pf (DO_PAD_NO =? padf) data Hdata d buf) as (n & d1 & buf1 & padded & E & Hb1 & Hn & Hd1);
    [fold len; lia|done|]. fold len in Hd1. destruct buf1 as [|q0 [|q1 [|q2 [|q3 []]]]]; try done.
  erewrite decode_loop_step; [|exact Hlt|reflexivity|exact E].
  pose proof (pushed_length n q0 q1 q2 q3 Hn) as Hp. destruct (quantum_bytes n q0 q1 q2 q3) as [pushed c]. cbn [fst] in Hp.
  assert (4 * Z.of_nat (length (out ++ pushed)) <= 3 * d1) by (rewrite length_app; lia).
  destruct (Z.ltb_spec n 4).
  - eexists _, _, _. split; [reflexivity|]. split; [by apply prefix_app_r|]. lia.
  - destruct (IH d1 [q0; q1; q2; q3] (out ++ pushed)) as (ok & out' & d' & E' & Hpre & ?); [lia..|done|done|].
    exists ok, out', d'. split; [done|]. split; [|lia]. by eapply prefix_app_l.
Qed.
End DecodeTotal.

(** C35: on any text and under any valid options the decoder terminates with every
    access in bounds; it uses at most the whole text and produces at most three bytes
    for every four characters used. *)
Theorem decode_total (data junk : list Z) (flags : Z) :
  Forall byte data -> length junk = 4%nat -> 0 <= flags < 64 ->
  Z.land flags DO_PARSE_MASK <> 0 -> Z.land flags DO_PAD_MASK <> 0 -> Z.land flags DO_TERM_MASK <> 0 ->
  exists ok out used, decode_from_array junk data flags = Ret (ok, out, used) /\
    0 <= used <= Z.of_nat (length data) /\ 4 * Z.of_nat (length out) <= 3 * used /\
    (Z.land flags DO_TERM_MASK = DO_TERM_BUFFER -> ok = true -> used = Z.of_nat (length data)).
Proof.
  intros Hd Hj Hf H1 H2 H3. unfold decode_from_array.
  rewrite (proj2 (Z.leb_le flags _)) by (change (Z.lor _ DO_TERM_MASK) with 63; lia).
  rewrite !(proj2 (Z.eqb_neq 0 _)) by congruence. cbn [check negb run_bind].
  destruct (decode_loop_total (Z.land flags DO_PARSE_MASK) (Z.land flags DO_PAD_MASK) (Z.land flags DO_TERM_MASK) data Hd
    (S (length data)) 0 junk []) as (ok & out & d & -> & _ & ? & ?); [lia|lia|done|cbn; lia|]. cbn [run_bind].
  eexists _, _, _. split; [reflexivity|]. split; [lia|]. split; [done|].
  intros -> Hok. rewrite Z.eqb_refl in Hok. apply andb_true_iff in Hok as [_ Hok].
  cbn [andb] in Hok. rewrite negb_involutive in Hok. by apply Z.eqb_eq.
Qed.

(** The text is [Q=Z], with padding in the middle. *)
Lemma decode_total_witness :
  exists ok out used, decode_from_array [1; 2; 3; 4] [81; 61; 90] DO_LAX = Ret (ok, out, used) /\
    0 <= used <= Z.of_nat (length [81; 61; 90]) /\ 4 * Z.of_nat (length out) <= 3 * used /\
    (Z.land DO_LAX DO_TERM_MASK = DO_TERM_BUFFER -> ok = true -> used = Z.of_nat (length [81; 61; 90])).
Proof.
  apply (decode_total [81; 61; 90] [1; 2; 3; 4] DO_LAX); try done.
  repeat (apply Forall_cons; split; [split; lia|]). by apply Forall_nil.
Defined.
