(* ===== verification/Crc32.v ===== *)
(** * CRC-32

    Models [src/cxxkit/text/crc32.cpp]: the generated table and the byte loop. The reference
    is the shift register that takes one bit at a time; the table loop is shown equal to it,
    a checksum continues over a split text, and a change confined to four neighbouring
    bytes always changes the checksum. *)

From stdpp Require Import prelude list.
From Stdlib Require Import ZArith Lia.
From S2P Require Import Prelude.

#[local] Open Scope Z_scope.
#[local] Open Scope cxx_scope.

(** ** The code *)
Definition kCrc32Polynomial : Z := 0xEDB88320.

(** One turn of the inner loop of the table's generation *)
Definition crc_bit (c : Z) : Z := if Z.land c 1 =? 0 then Z.shiftr c 1 else Z.lxor kCrc32Polynomial (Z.shiftr c 1).
Definition crc_byte (c : Z) : Z := Nat.iter 8 crc_bit c.
Definition load_crc32_table : list Z := crc_byte ∘ Z.of_nat <$> seq 0 256.

(** The byte loop: [bytes[i]] is the head of the list. *)
Fixpoint crc32_loop (table : list Z) (c : Z) (bytes : list Z) : run Z :=
  match bytes with
  | [] => Ret c
  | b :: bytes =>
      do t <- deref (table !! Z.to_nat (Z.land (Z.lxor c b) 0xFF));
      crc32_loop table (Z.lxor t (Z.shiftr c 8)) bytes
  end.
Definition crc32 (bytes : list Z) (crc : Z) : run Z :=
  do c <- crc32_loop load_crc32_table (Z.lxor crc 0xFFFFFFFF) bytes; Ret (Z.lxor c 0xFFFFFFFF).

(** ** The reference: the shift register *)
Definition register (c : Z) (bytes : list Z) : Z := fold_left (fun c b => crc_byte (Z.lxor c b)) bytes c.
Definition checksum (bytes : list Z) (crc : Z) : Z := Z.lxor (register (Z.lxor crc 0xFFFFFFFF) bytes) 0xFFFFFFFF.

(** ** The register is linear *)
Lemma land_1 (c : Z) : Z.land c 1 = Z.b2z (Z.testbit c 0).
Proof. change 1 with (Z.ones 1). rewrite Z.land_ones by lia. rewrite Z.bit0_mod. reflexivity. Qed.

Lemma crc_bit_eq (c : Z) : crc_bit c = Z.lxor (if Z.testbit c 0 then kCrc32Polynomial else 0) (Z.shiftr c 1).
Proof. unfold crc_bit. rewrite land_1. by destruct (Z.testbit c 0). Qed.

Lemma crc_bit_lxor (a b : Z) : crc_bit (Z.lxor a b) = Z.lxor (crc_bit a) (crc_bit b).
Proof.
  rewrite !crc_bit_eq, Z.lxor_spec, Z.shiftr_lxor. apply Z.bits_inj'. intros i _. rewrite !Z.lxor_spec.
  destruct (Z.testbit a 0), (Z.testbit b 0); rewrite ?Z.bits_0; cbn [xorb];
  destruct (Z.testbit kCrc32Polynomial i), (Z.testbit (Z.shiftr a 1) i), (Z.testbit (Z.shiftr b 1) i); reflexivity.
Qed.

Lemma crc_iter_lxor (n : nat) (a b : Z) : Nat.iter n crc_bit (Z.lxor a b) = Z.lxor (Nat.iter n crc_bit a) (Nat.iter n crc_bit b).
Proof. induction n as [|n IH]; [done|]. rewrite !Nat.iter_succ. by rewrite IH, crc_bit_lxor. Qed.

(** While only zeros are shifted out the register just shifts. *)
Lemma crc_iter_shift (n : nat) (a : Z) : Nat.iter n crc_bit (Z.shiftl a (Z.of_nat n)) = a.
Proof.
  induction n as [|n IH] in a |- *; [apply Z.shiftl_0_r|].
  replace (Z.of_nat (S n)) with (1 + Z.of_nat n) by lia. rewrite <- Z.shiftl_shiftl by lia.
  rewrite Nat.iter_succ, IH, crc_bit_eq, Z.shiftl_spec_low by lia. rewrite Z.shiftr_shiftl_l by lia. by rewrite Z.shiftl_0_r.
Qed.

Lemma split_low (x : Z) (n : nat) : x = Z.lxor (Z.land x (Z.ones (Z.of_nat n))) (Z.shiftl (Z.shiftr x (Z.of_nat n)) (Z.of_nat n)).
Proof.
  apply Z.bits_inj'. intros i Hi. rewrite Z.lxor_spec, Z.land_spec. destruct (Z.lt_ge_cases i (Z.of_nat n)).
  - rewrite Z.ones_spec_low, Z.shiftl_spec_low by lia. destruct (Z.testbit x i); reflexivity.
  - rewrite Z.ones_spec_high, Z.shiftl_spec, Z.shiftr_spec by lia. rewrite andb_false_r. cbn. f_equal. lia.
Qed.

Lemma crc_byte_table (x : Z) : crc_byte x = Z.lxor (crc_byte (Z.land x 0xFF)) (Z.shiftr x 8).
Proof.
  unfold crc_byte. rewrite (split_low x 8) at 1. rewrite crc_iter_lxor. f_equal. apply (crc_iter_shift 8).
Qed.

Lemma table_lookup (x : Z) : load_crc32_table !! Z.to_nat (Z.land x 0xFF) = Some (crc_byte (Z.land x 0xFF)).
Proof.
  pose proof (land_ones_mod x 8 ltac:(lia)) as Hm. change (2 ^ 8 - 1) with 255 in Hm. change (2 ^ 8) with 256 in Hm.
  assert (0 <= Z.land x 255 < 256) by (rewrite Hm; apply Z.mod_pos_bound; lia).
  unfold load_crc32_table. rewrite list_lookup_fmap. rewrite lookup_seq_lt by lia. cbn [fmap option_fmap option_map].
  unfold compose. by rewrite Nat.add_0_l, Z2Nat.id by lia.
Qed.

Lemma crc32_loop_register (c : Z) (bytes : list Z) :
  Forall (is_u 8) bytes -> crc32_loop load_crc32_table c bytes = Ret (register c bytes).
Proof.
  intros H. induction H as [|b bytes Hb _ IH] in c |- *; [done|]. cbn [crc32_loop register fold_left].
  rewrite table_lookup. cbn [deref run_bind]. rewrite IH. unfold register. do 2 f_equal.
  rewrite (crc_byte_table (Z.lxor c b)). f_equal. rewrite Z.shiftr_lxor.
  rewrite (Z.shiftr_div_pow2 b 8) by lia. unfold is_u in Hb. rewrite (Z.div_small b) by lia. by rewrite Z.lxor_0_r.
Qed.

(** ** The register keeps to 32 bits and forgets nothing *)
Lemma crc_bit_range (c : Z) : is_u 32 c -> is_u 32 (crc_bit c).
Proof.
  intros H. rewrite crc_bit_eq. apply is_u_lxor; [lia| |by apply is_u_shiftr].
  unfold kCrc32Polynomial. destruct (Z.testbit c 0); unfold is_u; lia.
Qed.

(** The top bit of the polynomial tells which way the low bit went. *)
Lemma crc_bit_zero (c : Z) : is_u 32 c -> crc_bit c = 0 -> c = 0.
Proof.
  intros Hc H. rewrite crc_bit_eq in H. apply bits_small in Hc as [Hc0 Hc]; [|lia].
  assert (H31 : Z.testbit c 0 = false).
  { apply (f_equal (fun z => Z.testbit z 31)) in H. rewrite Z.lxor_spec, Z.shiftr_spec in H by lia. rewrite (Hc (31 + 1)) in H by lia.
    destruct (Z.testbit c 0); [by vm_compute in H|done]. }
  rewrite H31, Z.lxor_0_l in H. apply Z.bits_inj'. intros i Hi. rewrite Z.bits_0. destruct (decide (i = 0)) as [->|Hne]; [done|].
  apply (f_equal (fun z => Z.testbit z (i - 1))) in H. rewrite Z.shiftr_spec, Z.bits_0 in H by lia.
  by replace (i - 1 + 1) with i in H by lia.
Qed.

Lemma crc_iter_range (n : nat) (c : Z) : is_u 32 c -> is_u 32 (Nat.iter n crc_bit c).
Proof. intros H. induction n as [|n IH]; [done|]. rewrite Nat.iter_succ. by apply crc_bit_range. Qed.

Lemma crc_iter_inj (n : nat) (a b : Z) :
  is_u 32 a -> is_u 32 b -> Nat.iter n crc_bit a = Nat.iter n crc_bit b -> a = b.
Proof.
  intros Ha Hb H. apply Z.lxor_eq. assert (Hz : Nat.iter n crc_bit (Z.lxor a b) = 0) by (rewrite crc_iter_lxor, H; apply Z.lxor_nilpotent).
  assert (Hr : is_u 32 (Z.lxor a b)) by (by apply is_u_lxor). clear H. revert Hz.
  induction n as [|n IH]; [done|]. rewrite Nat.iter_succ. intros Hz. apply IH, crc_bit_zero; [by apply crc_iter_range|done].
Qed.

Lemma is_u_byte (b : Z) : is_u 8 b -> is_u 32 b.
Proof. unfold is_u. lia. Qed.
#[local] Hint Resolve is_u_byte is_u_lxor crc_iter_range : cxx.

Lemma register_range (c : Z) (bytes : list Z) : is_u 32 c -> Forall (is_u 8) bytes -> is_u 32 (register c bytes).
Proof.
  intros Hc H. unfold register. induction H as [|b bytes Hb _ IH] in c, Hc |- *; [done|]. cbn. apply IH.
  apply (crc_iter_range 8). auto 10 with cxx lia.
Qed.

Lemma register_inj (a b : Z) (bytes : list Z) :
  is_u 32 a -> is_u 32 b -> Forall (is_u 8) bytes -> register a bytes = register b bytes -> a = b.
Proof.
  intros Ha Hb H. unfold register. induction H as [|x bytes Hx _ IH] in a, b, Ha, Hb |- *; [done|]. cbn. intros E.
  apply IH in E; [|apply (crc_iter_range 8); auto 10 with cxx lia..].
  apply (crc_iter_inj 8) in E; [|auto 10 with cxx lia..].
  apply (f_equal (Z.lxor x)) in E. rewrite !(Z.lxor_comm x), !Z.lxor_assoc, !Z.lxor_nilpotent, !Z.lxor_0_r in E. done.
Qed.

Lemma register_app (c : Z) (l l' : list Z) : register c (l ++ l') = register (register c l) l'.
Proof. apply fold_left_app. Qed.

(** Four bytes taken one after the other are a 32-bit word taken at once. *)
Definition word (l : list Z) : Z := foldr (fun b w => Z.lxor b (Z.shiftl w 8)) 0 l.

Lemma register_word (l : list Z) (c : Z) :
  register c l = Nat.iter (8 * length l) crc_bit (Z.lxor c (word l)).
Proof.
  unfold register. induction l as [|b l IH] in c |- *; [cbn; by rewrite Z.lxor_0_r|]. cbn [fold_left]. rewrite IH.
  replace (8 * length (b :: l))%nat with (8 * length l + 8)%nat by (cbn; lia).
  rewrite Nat.iter_add. f_equal. cbn [word foldr]. fold (word l). unfold crc_byte.
  rewrite <- Z.lxor_assoc, (crc_iter_lxor 8 _ (Z.shiftl (word l) 8)). f_equal. symmetry. apply (crc_iter_shift 8).
Qed.

Lemma word_range (l : list Z) : Forall (is_u 8) l -> is_u (8 * Z.of_nat (length l)) (word l).
Proof.
  induction 1 as [|b l Hb _ IH]; [done|]. cbn [word foldr length]. fold (word l). unfold is_u in *.
  pose proof (pow2_pos (8 * Z.of_nat (length l)) ltac:(lia)) as Hp.
  replace (8 * Z.of_nat (S (length l))) with (8 * Z.of_nat (length l) + 8) by lia. rewrite Z.pow_add_r by lia.
  assert (Hz : Z.lxor b (Z.shiftl (word l) 8) = word l * 2 ^ 8 + b).
  { rewrite Z.lxor_comm, Z.shiftl_mul_pow2 by lia. rewrite <- (lor_add (word l) b 8) by lia.
    apply Z.lxor_lor. apply Z.bits_inj'. intros i Hi. rewrite Z.land_spec, Z.bits_0, <- Z.shiftl_mul_pow2 by lia.
    destruct (Z.lt_ge_cases i 8); [by rewrite Z.shiftl_spec_low|]. rewrite <- (Z.mod_small b (2 ^ 8)) by lia.
    rewrite Z.mod_pow2_bits_high by lia. apply andb_false_r. }
  rewrite Hz. lia.
Qed.

Lemma word_inj (l l' : list Z) :
  Forall (is_u 8) l -> Forall (is_u 8) l' -> length l = length l' -> word l = word l' -> l = l'.
Proof.
  intros H. induction H as [|b l Hb _ IH] in l' |- *; intros H' Hlen E; [by destruct l'|].
  destruct l' as [|b' l']; [done|]. inversion H' as [|? ? Hb' H'']; subst. cbn [word foldr] in E. fold (word l) (word l') in E.
  assert (Hlow : forall x i, is_u 8 x -> 8 <= i -> Z.testbit x i = false) by (intros x i Hx; apply (bits_small 8); [lia|done]).
  assert (Hbit : forall i, Z.testbit (Z.lxor b (Z.shiftl (word l) 8)) i = Z.testbit (Z.lxor b' (Z.shiftl (word l') 8)) i) by (by rewrite E).
  assert (Heq : b = b').
  { apply Z.bits_inj'. intros i Hi. destruct (Z.lt_ge_cases i 8); [|by rewrite !Hlow]. specialize (Hbit i).
    rewrite !Z.lxor_spec, !Z.shiftl_spec_low, !xorb_false_r in Hbit by lia. done. }
  subst b'. f_equal. apply IH; [done|by injection Hlen|]. apply Z.bits_inj'. intros i Hi. specialize (Hbit (i + 8)).
  rewrite !Z.lxor_spec, !Z.shiftl_spec, (Hlow b), !xorb_false_l in Hbit by (done || lia). by replace (i + 8 - 8) with i in Hbit by lia.
Qed.

Lemma register_burst (c : Z) (x y : list Z) :
  is_u 32 c -> Forall (is_u 8) x -> Forall (is_u 8) y -> length x = length y -> (length x <= 4)%nat ->
  register c x = register c y -> x = y.
Proof.
  intros Hc Hx Hy Hlen H4 E. assert (Hw : forall l, Forall (is_u 8) l -> (length l <= 4)%nat -> is_u 32 (word l)).
  { intros l Hl Hn. pose proof (word_range l Hl) as [H0 H1]. split; [done|].
    apply Z.lt_le_trans with (1 := H1). apply Z.pow_le_mono_r; lia. }
  rewrite !register_word, Hlen in E. apply crc_iter_inj in E; [|apply is_u_lxor; auto with lia..].
  apply word_inj; [done..|]. apply (f_equal (Z.lxor c)) in E. by rewrite <- !Z.lxor_assoc, Z.lxor_nilpotent, !Z.lxor_0_l in E.
Qed.

Lemma crc32_checksum (bytes : list Z) (crc : Z) :
  Forall (is_u 8) bytes -> crc32 bytes crc = Ret (checksum bytes crc).
Proof. intros H. unfold crc32. by rewrite crc32_loop_register. Qed.

Lemma checksum_range (bytes : list Z) (crc : Z) : Forall (is_u 8) bytes -> is_u 32 crc -> is_u 32 (checksum bytes crc).
Proof.
  intros H Hc. unfold checksum. apply is_u_lxor; [lia| |unfold is_u; lia]. apply register_range; [|done].
  apply is_u_lxor; [lia|done|unfold is_u; lia].
Qed.

(** ** The properties *)

(** The table loop computes the checksum of the shift register, without reading outside the
    table, and the checksum of a text is the checksum of its second part continued from that
    of its first. *)
Theorem crc32_correct (l l' : list Z) (crc : Z) :
  Forall (is_u 8) l -> Forall (is_u 8) l' -> is_u 32 crc ->
  crc32 (l ++ l') crc = Ret (checksum (l ++ l') crc) /\ is_u 32 (checksum (l ++ l') crc) /\
  crc32 (l ++ l') crc = (do c <- crc32 l crc; crc32 l' c).
Proof.
  intros Hl Hl' Hc. assert (H : Forall (is_u 8) (l ++ l')) by (by apply Forall_app).
  rewrite !crc32_checksum by done. cbn [run_bind]. rewrite !crc32_checksum by done.
  split; [done|]. split; [by apply checksum_range|]. unfold checksum. rewrite register_app.
  by rewrite Z.lxor_assoc, Z.lxor_nilpotent, Z.lxor_0_r.
Qed.

(** Two texts that differ within four neighbouring bytes have different checksums. *)
Theorem crc32_detects_bursts (before x y after : list Z) (crc : Z) :
  Forall (is_u 8) (before ++ x ++ after) -> Forall (is_u 8) y -> is_u 32 crc ->
  length x = length y -> (length x <= 4)%nat -> x <> y ->
  crc32 (before ++ x ++ after) crc <> crc32 (before ++ y ++ after) crc.
Proof.
  intros H Hy Hc Hlen H4 Hne E. rewrite !Forall_app in H. destruct H as (Hb & Hx & Ha).
  rewrite !crc32_checksum in E by (by rewrite !Forall_app). injection E as E. unfold checksum in E.
  apply (f_equal (fun z => Z.lxor z 0xFFFFFFFF)) in E. rewrite !Z.lxor_assoc, !Z.lxor_nilpotent, !Z.lxor_0_r, !register_app in E.
  assert (H0 : is_u 32 (register (Z.lxor crc 0xFFFFFFFF) before)).
  { apply register_range; [|done]. apply is_u_lxor; [lia|done|unfold is_u; lia]. }
  apply register_inj in E; [|by apply register_range..|done]. by apply register_burst in E.
Qed.

Lemma crc32_correct_witness :
  crc32 ([0x31; 0x32; 0x33; 0x34] ++ [0x35; 0x36; 0x37; 0x38; 0x39]) 0 = Ret 0xCBF43926 /\
  crc32 ([0x31; 0x32; 0x33; 0x34] ++ [0x35; 0x36; 0x37; 0x38; 0x39]) 0 =
  (do c <- crc32 [0x31; 0x32; 0x33; 0x34] 0; crc32 [0x35; 0x36; 0x37; 0x38; 0x39] c).
Proof.
  split; [vm_compute; reflexivity|].
  destruct (crc32_correct [0x31; 0x32; 0x33; 0x34] [0x35; 0x36; 0x37; 0x38; 0x39] 0) as (_ & _ & H);
  [repeat constructor; unfold is_u; lia|repeat constructor; unfold is_u; lia|unfold is_u; lia|exact H].
Defined.

Lemma crc32_detects_bursts_witness : crc32 ([1; 2] ++ [3; 4; 5; 6] ++ [7]) 0 <> crc32 ([1; 2] ++ [3; 4; 255; 6] ++ [7]) 0.
Proof.
  apply (crc32_detects_bursts [1; 2] [3; 4; 5; 6] [3; 4; 255; 6] [7] 0);
  [repeat constructor; unfold is_u; lia|repeat constructor; unfold is_u; lia|unfold is_u; lia|reflexivity|cbn; lia|discriminate].
Defined.
