(* ===== verification/StringEncode.v ===== *)
(** * Hexadecimal text and tokens

    Models [src/cxxkit/text/string_encode.cpp]: the hexadecimal encoder and decoder with an
    optional delimiter between bytes, both filling a buffer by index, and the two
    tokenizers. The references are a printer and a parser on lists and the splitting of a
    list at a delimiter. *)

From stdpp Require Import prelude list strings.
From Stdlib Require Import ZArith Lia.
From S2P Require Import Prelude Chars.

#[local] Open Scope Z_scope.
#[local] Open Scope cxx_scope.

(** ** The code: hexadecimal *)
Definition HEX : list Z := chars "0123456789abcdef".

Definition hex_encode_char (val : Z) : run Z :=
  do _ <- check (val <? 16);
  if val <? 16 then at_ HEX val else Ret 33.

Definition hex_decode_char (ch : Z) : option Z :=
  if (48 <=? ch) && (ch <=? 57) then Some (ch - 48)
  else if (65 <=? ch) && (ch <=? 70) then Some (ch - 65 + 10)
  else if (97 <=? ch) && (ch <=? 102) then Some (ch - 97 + 10)
  else None.

Definition hex_encode_output_length (srclen delimiter : Z) : Z :=
  if negb (delimiter =? 0) && (0 <? srclen) then srclen * 3 - 1 else srclen * 2.

(** The loop of the encoder over the rest of the source *)
Fixpoint hex_encode_loop (buffer source : list Z) (delimiter bufpos : Z) : run (list Z) :=
  match source with
  | [] => Ret buffer
  | ch :: source =>
      do c1 <- hex_encode_char (Z.land (Z.shiftr ch 4) 0xF);
      do buffer <- store buffer bufpos c1;
      do c2 <- hex_encode_char (Z.land ch 0xF);
      do buffer <- store buffer (bufpos + 1) c2;
      if negb (delimiter =? 0) && negb (bool_decide (source = [])) then
        do buffer <- store buffer (bufpos + 2) delimiter;
        hex_encode_loop buffer source delimiter (bufpos + 2 + 1)
      else hex_encode_loop buffer source delimiter (bufpos + 2)
  end.

Definition hex_encode_with_delimiter (source : list Z) (delimiter : Z) : run (list Z) :=
  let s := replicate (Z.to_nat (hex_encode_output_length (Z.of_nat (length source)) delimiter)) 0 in
  hex_encode_loop s source delimiter 0.
Definition hex_encode (str : list Z) : run (list Z) := hex_encode_with_delimiter str 0.

(** The loop of the decoder: the number of bytes written, and the buffer *)
Fixpoint hex_decode_loop (fuel : nat) (cbuffer source : list Z) (delimiter srcpos bufpos : Z) : run (Z * list Z) :=
  match fuel with
  | O => Timeout
  | S fuel =>
      let srclen := Z.of_nat (length source) in
      if negb (srcpos <? srclen) then Ret (bufpos, cbuffer)
      else if srclen - srcpos <? 2 then Ret (0, cbuffer)
      else
        do a <- at_ source srcpos;
        do b <- at_ source (srcpos + 1);
        match hex_decode_char a, hex_decode_char b with
        | Some h1, Some h2 =>
            do cbuffer <- store cbuffer bufpos (wrap 8 (Z.lor (Z.shiftl h1 4) h2));
            let srcpos := srcpos + 2 in
            if negb (delimiter =? 0) && (1 <? srclen - srcpos) then
              do d <- at_ source srcpos;
              if negb (d =? delimiter) then Ret (0, cbuffer)
              else hex_decode_loop fuel cbuffer source delimiter (srcpos + 1) (bufpos + 1)
            else hex_decode_loop fuel cbuffer source delimiter srcpos (bufpos + 1)
        | _, _ => Ret (0, cbuffer)
        end
  end.

Definition hex_decode_with_delimiter (cbuffer source : list Z) (delimiter : Z) : run (Z * list Z) :=
  if bool_decide (cbuffer = []) then Ret (0, cbuffer)
  else
    let srclen := Z.of_nat (length source) in
    let needed := if negb (delimiter =? 0) then (srclen + 1) / 3 else srclen / 2 in
    if Z.of_nat (length cbuffer) <? needed then Ret (0, cbuffer)
    else hex_decode_loop (S (length source)) cbuffer source delimiter 0 0.
Definition hex_decode (buffer source : list Z) : run (Z * list Z) := hex_decode_with_delimiter buffer source 0.

(** ** The code: tokens *)

(** [source.substr(pos, count)]; [pos] beyond the end throws. *)
Definition substr (source : list Z) (pos count : nat) : run (list Z) :=
  if bool_decide (pos <= length source)%nat then Ret (take count (drop pos source)) else Fatal.

Fixpoint tokenize_loop (source : list Z) (delimiter : Z) (rest : list Z) (i last : nat) (fields : list (list Z))
    : run (nat * list (list Z)) :=
  match rest with
  | [] => Ret (last, fields)
  | c :: rest =>
      if c =? delimiter then
        do fields <- (if negb (bool_decide (i = last)) then do f <- substr source last (i - last); Ret (fields ++ [f])
                      else Ret fields);
        tokenize_loop source delimiter rest (S i) (S i) fields
      else tokenize_loop source delimiter rest (S i) last fields
  end.

Definition tokenize (source : list Z) (delimiter : Z) : run (nat * list (list Z)) :=
  do (last, fields) <- tokenize_loop source delimiter source 0 0 [];
  do fields <- (if negb (bool_decide (last = length source))
                then do f <- substr source last (length source - last); Ret (fields ++ [f])
                else Ret fields);
  Ret (length fields, fields).

(** [source.find(delimiter)] *)
Fixpoint find_char (source : list Z) (delimiter : Z) : option nat :=
  match source with
  | [] => None
  | c :: source => if c =? delimiter then Some 0%nat else S <$> find_char source delimiter
  end.
(** The loop that skips the occurrences of the delimiter from [right_pos] *)
Fixpoint skip_delimiters (rest : list Z) (delimiter : Z) (right_pos : nat) : nat :=
  match rest with
  | c :: rest => if c =? delimiter then skip_delimiters rest delimiter (S right_pos) else right_pos
  | [] => right_pos
  end.
Definition tokenize_first (source : list Z) (delimiter : Z) : run (option (list Z * list Z)) :=
  match find_char source delimiter with
  | None => Ret None
  | Some left_pos =>
      let right_pos := skip_delimiters (drop (left_pos + 1) source) delimiter (left_pos + 1) in
      do token <- substr source 0 left_pos;
      do rest <- substr source right_pos (length source);
      Ret (Some (token, rest))
  end.

Definition from_string_bool (s : list Z) : option bool :=
  if bool_decide (s = chars "false") then Some false
  else if bool_decide (s = chars "true") then Some true
  else None.

(** ** The references *)
Definition hex_digit (v : Z) : Z := nth (Z.to_nat v) HEX 0.

Fixpoint hex_text (delimiter : Z) (bytes : list Z) : list Z :=
  match bytes with
  | [] => []
  | b :: bytes =>
      hex_digit (Z.shiftr b 4) :: hex_digit (Z.land b 15) ::
      (if negb (delimiter =? 0) && negb (bool_decide (bytes = [])) then [delimiter] else []) ++ hex_text delimiter bytes
  end.

(** Pairs of digits, with one delimiter between two of them *)
Fixpoint hex_parse (delimiter : Z) (text : list Z) : option (list Z) :=
  match text with
  | [] => Some []
  | [_] => None
  | a :: b :: rest =>
      match hex_decode_char a, hex_decode_char b with
      | Some h1, Some h2 =>
          cons (h1 * 16 + h2) <$>
          match rest with
          | [] => Some []
          | d :: rest' =>
              if (delimiter =? 0) || bool_decide (rest' = []) then hex_parse delimiter rest
              else if d =? delimiter then hex_parse delimiter rest' else None
          end
      | _, _ => None
      end
  end.

Fixpoint split (delimiter : Z) (l : list Z) : list (list Z) :=
  match l with
  | [] => [[]]
  | c :: l =>
      if c =? delimiter then [] :: split delimiter l
      else match split delimiter l with [] => [[c]] | f :: fs => (c :: f) :: fs end
  end.

(** ** Digits *)
Lemma hex_digit_decode (v : Z) : 0 <= v < 16 -> hex_decode_char (hex_digit v) = Some v.
Proof.
  intros H. pose proof (Z_range_check 16 (fun v => match hex_decode_char (hex_digit v) with Some x => x =? v | None => false end)
    ltac:(vm_compute; reflexivity) v H) as Hv.
  cbn beta in Hv. destruct (hex_decode_char (hex_digit v)) as [x|]; [|done]. zbool. by subst.
Qed.

Lemma hex_encode_char_digit (v : Z) : 0 <= v < 16 -> hex_encode_char v = Ret (hex_digit v).
Proof.
  intros H. unfold hex_encode_char. rewrite (proj2 (Z.ltb_lt v 16)) by lia. cbn [check run_bind].
  unfold at_, hex_digit. rewrite (proj2 (Z.leb_le 0 v)) by lia.
  destruct (lookup_lt_is_Some_2 HEX (Z.to_nat v)) as [x Hx]; [change (length HEX) with 16%nat; lia|].
  rewrite Hx. cbn [deref]. f_equal. symmetry. by apply nth_lookup_Some.
Qed.

Lemma hex_decode_char_range (ch v : Z) : hex_decode_char ch = Some v -> 0 <= v < 16.
Proof. unfold hex_decode_char. repeat case_test; intros [= <-]; lia. Qed.

Lemma nibbles (b : Z) : is_u 8 b ->
  Z.land (Z.shiftr b 4) 15 = Z.shiftr b 4 /\ 0 <= Z.shiftr b 4 < 16 /\ 0 <= Z.land b 15 < 16 /\ Z.shiftr b 4 * 16 + Z.land b 15 = b.
Proof.
  unfold is_u. intros H. change (2 ^ 8) with 256 in H.
  pose proof (Z_range_check 256 (fun b => (Z.land (Z.shiftr b 4) 15 =? Z.shiftr b 4) && (0 <=? Z.shiftr b 4) && (Z.shiftr b 4 <? 16) &&
    (0 <=? Z.land b 15) && (Z.land b 15 <? 16) && (Z.shiftr b 4 * 16 + Z.land b 15 =? b)) ltac:(vm_compute; reflexivity) b H) as Hb.
  cbn beta in Hb. zbool. repeat split; lia.
Qed.

Lemma join_nibbles (h1 h2 : Z) : 0 <= h1 < 16 -> 0 <= h2 < 16 -> wrap 8 (Z.lor (Z.shiftl h1 4) h2) = h1 * 16 + h2.
Proof.
  intros H1 H2. rewrite Z.shiftl_mul_pow2 by lia. rewrite lor_add by lia. apply wrap_small. lia.
Qed.

(** ** The encoder *)
Lemma hex_text_length (delimiter : Z) (bytes : list Z) :
  Z.of_nat (length (hex_text delimiter bytes)) = hex_encode_output_length (Z.of_nat (length bytes)) delimiter.
Proof.
  unfold hex_encode_output_length. induction bytes as [|b bytes IH]; [by destruct (delimiter =? 0)|].
  cbn [hex_text length]. rewrite length_app. destruct (delimiter =? 0) eqn:Hd; cbn [negb andb] in *; [cbn; lia|].
  rewrite (proj2 (Z.ltb_lt 0 _)) by lia. destruct bytes as [|b' bytes]; [done|].
  rewrite bool_decide_eq_false_2 by done. cbn [negb length] in *. rewrite (proj2 (Z.ltb_lt 0 _)) in IH by lia. lia.
Qed.

Lemma hex_encode_loop_spec (delimiter : Z) (source w : list Z) (n : nat) :
  Forall (is_u 8) source -> n = length (hex_text delimiter source) ->
  hex_encode_loop (w ++ replicate n 0) source delimiter (Z.of_nat (length w)) = Ret (w ++ hex_text delimiter source).
Proof.
  intros H. induction H as [|ch source Hch Hs IH] in w, n |- *; intros ->; [done|].
  destruct (nibbles ch Hch) as (E1 & H1 & H2 & _). cbn [hex_encode_loop hex_text length]. rewrite length_app.
  change 0xF with 15. rewrite E1, hex_encode_char_digit by done. cbn [run_bind replicate].
  rewrite (store_middle w) by done. cbn [run_bind]. rewrite hex_encode_char_digit by done. cbn [run_bind].
  rewrite store_middle by (rewrite length_app; cbn; lia). cbn [run_bind].
  destruct (negb (delimiter =? 0) && negb (bool_decide (source = []))).
  - cbn [length app Nat.add replicate]. rewrite store_middle by (rewrite !length_app; cbn; lia). cbn [run_bind].
    replace (Z.of_nat (length w) + 2 + 1) with (Z.of_nat (length (((w ++ [hex_digit (Z.shiftr ch 4)]) ++ [hex_digit (Z.land ch 15)]) ++ [delimiter])))
      by (rewrite !length_app; cbn; lia).
    rewrite IH by done. f_equal. by rewrite <- !app_assoc.
  - cbn [length app Nat.add replicate].
    replace (Z.of_nat (length w) + 2) with (Z.of_nat (length ((w ++ [hex_digit (Z.shiftr ch 4)]) ++ [hex_digit (Z.land ch 15)])))
      by (rewrite !length_app; cbn; lia).
    rewrite IH by done. f_equal. by rewrite <- !app_assoc.
Qed.

Lemma hex_encode_spec (source : list Z) (delimiter : Z) :
  Forall (is_u 8) source -> hex_encode_with_delimiter source delimiter = Ret (hex_text delimiter source).
Proof.
  intros H. unfold hex_encode_with_delimiter. apply (hex_encode_loop_spec delimiter source []); [done|].
  pose proof (hex_text_length delimiter source). lia.
Qed.

(** ** The decoder *)
Lemma at_here (pre l : list Z) (x : Z) : l !! 0%nat = Some x -> at_ (pre ++ l) (Z.of_nat (length pre)) = Ret x.
Proof. intros H. pose proof (at_offset pre l 0 x H) as Hx. by rewrite Z.add_0_r in Hx. Qed.

(** The cells needed for a text of [n] characters are there. *)
Definition room (delimiter : Z) (n cells : nat) : Prop :=
  if delimiter =? 0 then (n <= 2 * cells + 1)%nat else (n <= 3 * cells + 1)%nat.

Lemma hex_decode_loop_spec (fuel : nat) (delimiter : Z) (pre l w z : list Z) :
  (length l < fuel)%nat -> room delimiter (length l) (length z) ->
  let r := hex_decode_loop fuel (w ++ z) (pre ++ l) delimiter (Z.of_nat (length pre)) (Z.of_nat (length w)) in
  match hex_parse delimiter l with
  | Some bytes => r = Ret (Z.of_nat (length w + length bytes), w ++ bytes ++ drop (length bytes) z) /\ (length bytes <= length z)%nat
  | None => exists cbuffer, r = Ret (0, cbuffer) /\ length cbuffer = length (w ++ z)
  end.
Proof.
  revert pre l w z. induction fuel as [|fuel IH]; intros pre l w z Hf Hroom; [lia|]. cbn zeta. cbn [hex_decode_loop].
  rewrite length_app. destruct l as [|a [|b rest]].
  - rewrite (proj2 (Z.ltb_ge _ _)) by (cbn; lia). cbn. split; [|lia]. do 2 f_equal. lia.
  - rewrite (proj2 (Z.ltb_lt (Z.of_nat (length pre)) _)), (proj2 (Z.ltb_lt _ 2)) by (cbn; lia). cbn. eauto using length_app.
  - rewrite (proj2 (Z.ltb_lt (Z.of_nat (length pre)) _)), (proj2 (Z.ltb_ge _ 2)) by (cbn; lia). cbn [negb].
    rewrite (at_here pre (a :: b :: rest) a) by done. cbn [run_bind].
    pose proof (at_offset pre (a :: b :: rest) 1 b eq_refl) as Hb. change (Z.of_nat 1) with 1 in Hb. rewrite Hb. cbn [run_bind hex_parse].
    destruct (hex_decode_char a) as [h1|] eqn:E1; [|by exists (w ++ z)]. destruct (hex_decode_char b) as [h2|] eqn:E2; [|by exists (w ++ z)].
    rewrite join_nibbles by (by eapply hex_decode_char_range). unfold room in *. cbn [length] in *.
    destruct z as [|x z]; [exfalso; cbn in Hroom; destruct (delimiter =? 0); lia|]. rewrite store_middle by done. cbn [run_bind].
    set (v := h1 * 16 + h2).
    assert (Hstep : forall (pre' l' : list Z), pre' ++ l' = pre ++ a :: b :: rest -> (length l' < fuel)%nat ->
      (if delimiter =? 0 then (length l' <= 2 * length z + 1)%nat else (length l' <= 3 * length z + 1)%nat) ->
      let r := hex_decode_loop fuel ((w ++ [v]) ++ z) (pre ++ a :: b :: rest) delimiter (Z.of_nat (length pre')) (Z.of_nat (length w) + 1) in
      match cons v <$> hex_parse delimiter l' with
      | Some bytes => r = Ret (Z.of_nat (length w + length bytes), w ++ bytes ++ drop (length bytes) (x :: z)) /\ (length bytes <= length (x :: z))%nat
      | None => exists cbuffer, r = Ret (0, cbuffer) /\ length cbuffer = length (w ++ x :: z)
      end).
    { intros pre' l' <- Hl Hr. specialize (IH pre' l' (w ++ [v]) z Hl Hr). cbn zeta in IH |- *.
      rewrite length_app in IH. cbn [length] in IH. replace (Z.of_nat (length w + 1)) with (Z.of_nat (length w) + 1) in IH by lia.
      destruct (hex_parse delimiter l') as [bytes|]; cbn [fmap option_fmap option_map].
      - destruct IH as [-> Hle]. cbn [length drop app]. split; [|lia]. do 2 f_equal; [lia|]. by rewrite <- app_assoc.
      - destruct IH as (cb & -> & Hlen). exists cb. split; [done|]. rewrite Hlen, !length_app. cbn. lia. }
    assert (Hpre : forall k : list Z, Z.of_nat (length pre) + 2 = Z.of_nat (length (pre ++ [a; b])) /\
      Z.of_nat (length pre) + 2 + 1 = Z.of_nat (length (pre ++ a :: b :: take 1 k)) + 1 - Z.of_nat (length (take 1 k))) by (intros k; rewrite !length_app; cbn; lia).
    destruct rest as [|d rest'].
    + rewrite (proj2 (Z.ltb_ge 1 _)), andb_false_r by (cbn; lia). rewrite (proj1 (Hpre [])). apply (Hstep (pre ++ [a; b]) []).
      * by rewrite <- app_assoc.
      * cbn; lia.
      * cbn. destruct (delimiter =? 0); lia.
    + destruct (delimiter =? 0) eqn:Hd; cbn [negb andb orb].
      * rewrite (proj1 (Hpre [])). apply (Hstep (pre ++ [a; b]) (d :: rest')); [by rewrite <- app_assoc|cbn in *; lia|cbn in *; lia].
      * destruct rest' as [|e rest''].
        -- rewrite (proj2 (Z.ltb_ge 1 _)) by (cbn; lia). rewrite (proj1 (Hpre [])). cbn [bool_decide].
           apply (Hstep (pre ++ [a; b]) [d]); [by rewrite <- app_assoc|cbn in *; lia|cbn in *; lia].
        -- rewrite (proj2 (Z.ltb_lt 1 _)) by (cbn; lia). rewrite bool_decide_eq_false_2 by done. rewrite (proj1 (Hpre [])).
           pose proof (at_here (pre ++ [a; b]) (d :: e :: rest'') d eq_refl) as Hat. rewrite <- app_assoc in Hat. cbn [app] in Hat.
           rewrite Hat. cbn [run_bind]. destruct (d =? delimiter); cbn [negb].
           ++ replace (Z.of_nat (length (pre ++ [a; b])) + 1) with (Z.of_nat (length (pre ++ [a; b; d]))) by (rewrite !length_app; cbn; lia).
              apply (Hstep (pre ++ [a; b; d]) (e :: rest'')); [by rewrite <- app_assoc|cbn in *; lia|cbn in *; lia].
           ++ exists ((w ++ [v]) ++ z). split; [done|]. rewrite !length_app. cbn. lia.
Qed.

Lemma hex_parse_text (delimiter : Z) (bytes : list Z) :
  Forall (is_u 8) bytes -> hex_parse delimiter (hex_text delimiter bytes) = Some bytes.
Proof.
  induction 1 as [|b bytes Hb _ IH]; [done|]. destruct (nibbles b Hb) as (_ & H1 & H2 & Hj).
  cbn [hex_text]. destruct bytes as [|b' bytes].
  - rewrite andb_false_r. cbn [app hex_text hex_parse]. rewrite !hex_digit_decode by done. cbn. by rewrite Hj.
  - rewrite (bool_decide_eq_false_2 (b' :: bytes = [])), andb_true_r by done. cbn [hex_parse]. rewrite !hex_digit_decode by done.
    destruct (delimiter =? 0) eqn:Hd; cbn [negb app]; rewrite ?Z.eqb_refl.
    + cbn [hex_text] in IH |- *. cbn [orb] in *. rewrite IH. cbn. by rewrite Hj.
    + cbn [orb]. rewrite (bool_decide_eq_false_2 (hex_text delimiter (b' :: bytes) = [])) by done. rewrite IH. cbn. by rewrite Hj.
Qed.

(** Upper-case digits read like lower-case ones. *)
Definition lower (c : Z) : Z := if (65 <=? c) && (c <=? 70) then c + 32 else c.

Lemma hex_decode_char_lower (a h : Z) : hex_decode_char a = Some h -> lower a = hex_digit h.
Proof.
  unfold hex_decode_char, lower. repeat case_test; intros [= <-]; try lia.
  - assert (Hr : 0 <= a - 48 < 10) by lia.
    pose proof (Z_range_check 10 (fun k => hex_digit k =? k + 48) ltac:(vm_compute; reflexivity) _ Hr) as E. cbn beta in E. zbool. lia.
  - assert (Hr : 0 <= a - 65 < 6) by lia.
    pose proof (Z_range_check 6 (fun k => hex_digit (k + 10) =? k + 97) ltac:(vm_compute; reflexivity) _ Hr) as E. cbn beta in E. zbool. lia.
  - assert (Hr : 0 <= a - 97 < 6) by lia.
    pose proof (Z_range_check 6 (fun k => hex_digit (k + 10) =? k + 97) ltac:(vm_compute; reflexivity) _ Hr) as E. cbn beta in E. zbool. lia.
Qed.

(** Tokens *)
Lemma split_no_delimiter (d : Z) (cur : list Z) : d ∉ cur -> split d cur = [cur].
Proof.
  induction cur as [|c cur IH]; [done|]. intros [Hc H]%not_elem_of_cons. cbn. rewrite (proj2 (Z.eqb_neq c d)) by done. by rewrite IH.
Qed.

Lemma split_app (d : Z) (cur rest : list Z) : d ∉ cur -> split d (cur ++ d :: rest) = cur :: split d rest.
Proof.
  induction cur as [|c cur IH]; [cbn; by rewrite Z.eqb_refl|]. intros [Hc H]%not_elem_of_cons. cbn.
  rewrite (proj2 (Z.eqb_neq c d)) by done. by rewrite IH.
Qed.

Definition nonempty (f : list Z) : Prop := f <> [].
#[local] Instance nonempty_dec (f : list Z) : Decision (nonempty f) := ltac:(unfold nonempty; apply _).

Lemma substr_middle (pre cur rest : list Z) : substr (pre ++ cur ++ rest) (length pre) (length cur) = Ret cur.
Proof.
  unfold substr. rewrite bool_decide_eq_true_2 by (rewrite length_app; lia). rewrite drop_app_length. by rewrite take_app_length.
Qed.

(** The field that ends at the position reached, when there is one *)
Lemma take_field (pre cur rest : list Z) (i : nat) (fields : list (list Z)) :
  i = (length pre + length cur)%nat ->
  (if negb (bool_decide (i = length pre)) then do f <- substr (pre ++ cur ++ rest) (length pre) (i - length pre); Ret (fields ++ [f]) else Ret fields)
  = Ret (fields ++ filter nonempty [cur]).
Proof.
  intros ->. replace (length pre + length cur - length pre)%nat with (length cur) by lia. rewrite substr_middle. cbn [run_bind].
  rewrite filter_cons, filter_nil. destruct cur as [|c cur].
  - rewrite bool_decide_eq_true_2 by (cbn; lia). rewrite decide_False by (unfold nonempty; tauto). cbn. by rewrite app_nil_r.
  - rewrite bool_decide_eq_false_2 by (cbn; lia). by rewrite decide_True.
Qed.

Lemma tokenize_loop_spec (d : Z) (rest pre cur : list Z) (fields : list (list Z)) (source : list Z) :
  source = pre ++ cur ++ rest -> d ∉ cur ->
  (do (last, fields) <- tokenize_loop source d rest (length pre + length cur) (length pre) fields;
   do fields <- (if negb (bool_decide (last = length source))
                 then do f <- substr source last (length source - last); Ret (fields ++ [f])
                 else Ret fields);
   Ret (length fields, fields))
  = let fields' := fields ++ filter nonempty (split d (cur ++ rest)) in Ret (length fields', fields').
Proof.
  intros -> Hcur. revert pre cur fields Hcur. induction rest as [|c rest IH]; intros pre cur fields Hcur.
  - cbn [tokenize_loop run_bind]. rewrite app_nil_r, split_no_delimiter by done.
    pose proof (take_field pre cur [] (length (pre ++ cur)) fields (length_app _ _)) as H. rewrite app_nil_r in H.
    rewrite (bool_decide_ext _ (length (pre ++ cur) = length pre)) by (split; auto). by rewrite H.
  - cbn [tokenize_loop]. destruct (Z.eqb_spec c d) as [->|Hne].
    + rewrite (take_field pre cur (d :: rest)) by done. cbn [run_bind].
      specialize (IH (pre ++ cur ++ [d]) [] (fields ++ filter nonempty [cur]) (not_elem_of_nil d)).
      assert (El : length (pre ++ cur ++ [d]) = S (length pre + length cur)) by (rewrite !length_app; cbn; lia).
      assert (Ea : (pre ++ cur ++ [d]) ++ [] ++ rest = pre ++ cur ++ d :: rest) by (by rewrite <- !app_assoc).
      rewrite El, Ea, Nat.add_0_r in IH. rewrite IH. cbn [app]. rewrite split_app by done.
      cbn zeta. rewrite (filter_cons nonempty cur (split d rest)), filter_cons, filter_nil. destruct (decide (nonempty cur)); cbn; by rewrite <- ?app_assoc.
    + specialize (IH pre (cur ++ [c]) fields).
      assert (El : (length pre + length (cur ++ [c]))%nat = S (length pre + length cur)) by (rewrite length_app; cbn; lia).
      assert (Ea : (cur ++ [c]) ++ rest = cur ++ c :: rest) by (by rewrite <- app_assoc).
      rewrite El, Ea in IH. apply IH.
      intros [H|H%list_elem_of_singleton]%elem_of_app; [done|]. by subst.
Qed.

Lemma find_char_spec (d : Z) (l : list Z) :
  match find_char l d with
  | Some n => exists token rest, l = token ++ d :: rest /\ n = length token /\ d ∉ token
  | None => d ∉ l
  end.
Proof.
  induction l as [|c l IH]; [apply not_elem_of_nil|]. cbn. destruct (Z.eqb_spec c d) as [->|Hne].
  - exists [], l. split; [done|]. split; [done|]. apply not_elem_of_nil.
  - destruct (find_char l d) as [n|]; cbn.
    + destruct IH as (token & rest & -> & -> & H). exists (c :: token), rest. split; [done|]. split; [done|].
      apply not_elem_of_cons. by split.
    + apply not_elem_of_cons. by split.
Qed.

Lemma skip_delimiters_spec (d : Z) (l : list Z) (n : nat) :
  exists k rest, l = replicate k d ++ rest /\ skip_delimiters l d n = (n + k)%nat /\ head rest <> Some d.
Proof.
  induction l as [|c l IH] in n |- *; [exists 0%nat, []; split; [done|]; split; [cbn; lia|done]|]. cbn.
  destruct (Z.eqb_spec c d) as [->|Hne].
  - destruct (IH (S n)) as (k & rest & -> & -> & H). exists (S k), rest. split; [done|]. split; [lia|done].
  - exists 0%nat, (c :: l). split; [done|]. split; [lia|]. cbn. congruence.
Qed.

(** ** The properties *)

(** Encoding bytes as hexadecimal text fills its buffer exactly, and decoding the text into a
    buffer with room gives the bytes back, whatever the delimiter. *)
Theorem hex_roundtrip (bytes cbuffer : list Z) (delimiter : Z) :
  Forall (is_u 8) bytes -> (length bytes <= length cbuffer)%nat ->
  exists text, hex_encode_with_delimiter bytes delimiter = Ret text /\
    Z.of_nat (length text) = hex_encode_output_length (Z.of_nat (length bytes)) delimiter /\
    hex_decode_with_delimiter cbuffer text delimiter = Ret (Z.of_nat (length bytes), bytes ++ drop (length bytes) cbuffer).
Proof.
  intros H Hlen. exists (hex_text delimiter bytes). split; [by apply hex_encode_spec|]. split; [apply hex_text_length|].
  unfold hex_decode_with_delimiter. case_bool_decide as Hc; [subst; destruct bytes; [done|cbn in Hlen; lia]|].
  pose proof (hex_text_length delimiter bytes) as Hl. unfold hex_encode_output_length in Hl.
  assert (Hroom : room delimiter (length (hex_text delimiter bytes)) (length cbuffer)).
  { unfold room. destruct (delimiter =? 0); cbn [negb andb] in Hl; [lia|].
    destruct (Z.ltb_spec 0 (Z.of_nat (length bytes))); lia. }
  assert (Hneed : Z.of_nat (length cbuffer) <? (if negb (delimiter =? 0) then (Z.of_nat (length (hex_text delimiter bytes)) + 1) / 3
      else Z.of_nat (length (hex_text delimiter bytes)) / 2) = false).
  { apply Z.ltb_ge. unfold room in Hroom. destruct (delimiter =? 0); cbn [negb]; Z.to_euclidean_division_equations; lia. }
  rewrite Hneed.
  pose proof (hex_decode_loop_spec (S (length (hex_text delimiter bytes))) delimiter [] (hex_text delimiter bytes) [] cbuffer ltac:(lia) Hroom) as Hd.
  rewrite hex_parse_text in Hd by done. destruct Hd as [Hd _]. exact Hd.
Qed.

(** On any text the decoder stays inside its buffer and agrees with the parser: it returns the
    bytes of a well-formed text when they fit, and zero otherwise. *)
Theorem hex_decode_correct (text cbuffer : list Z) (delimiter : Z) :
  (exists n cbuffer', hex_decode_with_delimiter cbuffer text delimiter = Ret (n, cbuffer') /\ length cbuffer' = length cbuffer /\
     (n <> 0 -> exists bytes, hex_parse delimiter text = Some bytes /\ n = Z.of_nat (length bytes) /\
        cbuffer' = bytes ++ drop (length bytes) cbuffer)) /\
  (forall bytes, hex_parse delimiter text = Some bytes -> (length text <= 2 * length cbuffer)%nat -> cbuffer <> [] ->
     hex_decode_with_delimiter cbuffer text delimiter = Ret (Z.of_nat (length bytes), bytes ++ drop (length bytes) cbuffer)).
Proof.
  unfold hex_decode_with_delimiter. case_bool_decide as Hc.
  { subst. split; [|done]. by exists 0, []. }
  destruct (Z.ltb_spec (Z.of_nat (length cbuffer)) (if negb (delimiter =? 0) then (Z.of_nat (length text) + 1) / 3 else Z.of_nat (length text) / 2)) as [Hlt|Hge].
  { split; [by exists 0, cbuffer|]. intros bytes _ Hlen _. exfalso.
    destruct (delimiter =? 0); cbn [negb] in Hlt; Z.to_euclidean_division_equations; lia. }
  assert (Hroom : room delimiter (length text) (length cbuffer)).
  { unfold room. destruct (delimiter =? 0); cbn [negb] in Hge; Z.to_euclidean_division_equations; lia. }
  pose proof (hex_decode_loop_spec (S (length text)) delimiter [] text [] cbuffer ltac:(lia) Hroom) as Hd. cbn [app length] in Hd.
  change (Z.of_nat 0) with 0 in Hd. destruct (hex_parse delimiter text) as [bytes|].
  - destruct Hd as [-> Hle]. split.
    + eexists _, _. split; [done|]. split; [rewrite length_app, length_drop; lia|]. intros _. by exists bytes.
    + by intros bytes' [= <-].
  - destruct Hd as (cb & -> & Hlen). split; [|done]. exists 0, cb. split; [done|]. split; [done|]. done.
Qed.

(** The tokens are the nonempty pieces between delimiters, in order. *)
Theorem tokenize_correct (source : list Z) (delimiter : Z) :
  let fields := filter nonempty (split delimiter source) in tokenize source delimiter = Ret (length fields, fields).
Proof. apply (tokenize_loop_spec delimiter source [] [] []); [done|]. apply not_elem_of_nil. Qed.

(** The first token ends at the first delimiter; the rest starts after the delimiters that
    follow it; without a delimiter there is neither. *)
Theorem tokenize_first_correct (source : list Z) (delimiter : Z) :
  (delimiter ∉ source /\ tokenize_first source delimiter = Ret None) \/
  (exists token k rest, source = token ++ replicate (S k) delimiter ++ rest /\ delimiter ∉ token /\ head rest <> Some delimiter /\
     tokenize_first source delimiter = Ret (Some (token, rest))).
Proof.
  unfold tokenize_first. pose proof (find_char_spec delimiter source) as Hf. destruct (find_char source delimiter) as [n|]; [right|by left].
  destruct Hf as (token & tl & -> & -> & Hn). destruct (skip_delimiters_spec delimiter tl (length token + 1)) as (k & rest & -> & Es & Hh).
  assert (Hdrop : drop (length token + 1) (token ++ delimiter :: replicate k delimiter ++ rest) = replicate k delimiter ++ rest).
  { rewrite <- drop_drop, drop_app_length. done. }
  rewrite Hdrop, Es. exists token, k, rest. split; [done|]. split; [done|]. split; [done|].
  pose proof (substr_middle [] token (delimiter :: replicate k delimiter ++ rest)) as H1. cbn [app length] in H1. rewrite H1. cbn [run_bind].
  unfold substr. rewrite bool_decide_eq_true_2 by (rewrite !length_app; cbn; rewrite length_app, length_replicate; lia). cbn [run_bind].
  do 3 f_equal. rewrite take_ge by (rewrite length_drop; lia).
  replace (length token + 1 + k)%nat with (length token + (1 + k))%nat by lia. rewrite <- drop_drop, drop_app_length.
  cbn [drop Nat.add]. by rewrite drop_app_ge, length_replicate, Nat.sub_diag by (rewrite length_replicate; lia).
Qed.

Lemma hex_roundtrip_witness :
  hex_decode_with_delimiter [0; 0; 0; 0] (chars "12:ab:ff") 58 = Ret (3, [0x12; 0xab; 0xff; 0]) /\
  exists text, hex_encode_with_delimiter [0x12; 0xab; 0xff] 58 = Ret text /\
    hex_decode_with_delimiter [0; 0; 0; 0] text 58 = Ret (3, [0x12; 0xab; 0xff] ++ [0]).
Proof.
  split; [vm_compute; reflexivity|].
  destruct (hex_roundtrip [0x12; 0xab; 0xff] [0; 0; 0; 0] 58) as (text & H1 & _ & H2);
  [repeat constructor; unfold is_u; lia|cbn; lia|]. exists text. split; [exact H1|exact H2].
Defined.
