(* ===== verification/StrSplit.v ===== *)
(** * Splitting of strings

    Models [src/cxxkit/text/str_split.hpp]. A token is a view: an offset into the text and
    a length. The overloads of [str_split] share the interface [Delimiter], what it takes to
    find the next delimiter; [Delimits] is what a delimiter promises, and the theorems about
    splitting are proved from it alone. *)

From stdpp Require Import prelude list.
From Stdlib Require Import ZArith Lia.
From S2P Require Import Prelude StringEncode.

#[local] Open Scope nat_scope.
#[local] Open Scope cxx_scope.

(** [StringView] into a text: where it starts and how long it is *)
Definition view := (nat * nat)%type.
Definition sub (text : list Z) (pos n : nat) : list Z := take n (drop pos text).
Definition view_text (text : list Z) (v : view) : list Z := sub text (fst v) (snd v).

(** A view is made of characters of the text. *)
Definition make_view (text : list Z) (start end_ : nat) : run view :=
  if (start <=? end_) && (end_ <=? length text) then Ret (start, end_ - start) else Undef.

(** ** Delimiters *)
Definition table := list bool.

(** The constructor of [by_any_of]; [delims] are unsigned characters. *)
Definition by_any_of (delims : list Z) : table := foldl (fun t c => <[Z.to_nat c := true]> t) (replicate 256 false) delims.

Fixpoint find_any_loop (t : table) (text : list Z) (i : nat) : option nat :=
  match text with
  | [] => None
  | c :: text => if default false (t !! Z.to_nat c) then Some i else find_any_loop t text (S i)
  end.
Definition find_any (t : table) (text : list Z) (pos : nat) : view :=
  if pos <? length text then
    match find_any_loop t (drop pos text) pos with Some i => (i, 1) | None => (length text, 0) end
  else (length text, 0).

(** [StringView::find]: the first place at or after [pos] where [s] stands *)
Fixpoint find_sub_loop (s text : list Z) (i : nat) : option nat :=
  if decide (take (length s) text = s) then Some i
  else match text with [] => None | _ :: text => find_sub_loop s text (S i) end.
Definition find_sub (s text : list Z) (pos : nat) : option nat :=
  if length text <? pos then None else find_sub_loop s (drop pos text) pos.

Record by_string := mkByString { mDelims : list Z }.
Definition find_string (d : by_string) (text : list Z) (pos : nat) : view :=
  if bool_decide (mDelims d = []) && negb (bool_decide (text = [])) then (pos + 1, 0)
  else match find_sub (mDelims d) text pos with Some i => (i, length (mDelims d)) | None => (length text, 0) end.

Definition find_char (c : Z) (text : list Z) (pos : nat) : view :=
  match find_sub [c] text pos with Some i => (i, 1) | None => (length text, 0) end.

Class Delimiter (D : Type) := find_delim : D -> list Z -> nat -> view.
#[export] Instance char_delimiter : Delimiter Z := find_char.
#[export] Instance any_delimiter : Delimiter table := find_any.
#[export] Instance string_delimiter : Delimiter by_string := find_string.

(** ** Splitting *)

(** The overload for a character has loops of its own. *)
Fixpoint scan (delim : Z) (rest : list Z) (i : nat) : nat :=
  match rest with
  | [] => i
  | c :: rest => if (c =? delim)%Z then i else scan delim rest (S i)
  end.
Fixpoint split_char_loop (fuel : nat) (delim : Z) (text : list Z) (start : nat) : run (list view) :=
  match fuel with
  | O => Timeout
  | S fuel =>
      if start <=? length text then
        let i := scan delim (drop start text) start in
        do v <- make_view text start i;
        do tokens <- split_char_loop fuel delim text (i + 1);
        Ret (v :: tokens)
      else Ret []
  end.
Definition str_split_char (text : list Z) (delim : Z) : run (list view) := split_char_loop (S (S (length text))) delim text 0.

Section Splitting.
Context {D : Type} `{!Delimiter D}.

Fixpoint split_loop (fuel : nat) (delim : D) (text : list Z) (start : nat) : run (list view) :=
  match fuel with
  | O => Timeout
  | S fuel =>
      if start <=? length text then
        let '(end_, size) := find_delim delim text start in
        do v <- make_view text start (if size =? 0 then length text else end_);
        if size =? 0 then Ret [v]
        else
          do tokens <- split_loop fuel delim text (end_ + size);
          Ret (v :: tokens)
      else Ret []
  end.
Definition str_split (text : list Z) (delim : D) : run (list view) := split_loop (S (length text)) delim text 0.

(** With [skip_empty] *)
Fixpoint split_skip_loop (fuel : nat) (delim : D) (text : list Z) (start : nat) : run (list view) :=
  match fuel with
  | O => Timeout
  | S fuel =>
      if start <=? length text then
        let '(end_, size) := find_delim delim text start in
        do v <- make_view text start (if size =? 0 then length text else end_);
        if size =? 0 then Ret (if 0 <? snd v then [v] else [])
        else
          do tokens <- split_skip_loop fuel delim text (end_ + size);
          Ret (if 0 <? snd v then v :: tokens else tokens)
      else Ret []
  end.
Definition str_split_skip (text : list Z) (delim : D) : run (list view) := split_skip_loop (S (length text)) delim text 0.
End Splitting.

(** ** What a delimiter promises

    [matches d s]: [s] is one occurrence of the delimiter. The next one at or after a
    position is the first; an empty view stands for none. *)
Class Delimits (D : Type) `{!Delimiter D} (proper : D -> Prop) (matches : D -> list Z -> Prop) := {
  delimits_found d text pos p n : proper d -> pos <= length text -> find_delim d text pos = (p, n) -> n <> 0 ->
    pos <= p /\ p + n <= length text /\ matches d (sub text p n) /\ forall q m, pos <= q < p -> ~ matches d (sub text q m);
  delimits_none d text pos p : proper d -> pos <= length text -> find_delim d text pos = (p, 0) ->
    forall q m, pos <= q -> ~ matches d (sub text q m);
  delimits_nonempty d s : proper d -> matches d s -> s <> []
}.

Lemma sub_split (text : list Z) (a b c : nat) : a <= b <= c -> sub text a (c - a) = sub text a (b - a) ++ sub text b (c - b).
Proof.
  intros H. unfold sub. replace (drop b text) with (drop (b - a) (drop a text)) by (rewrite drop_drop; f_equal; lia).
  rewrite (take_drop_commute (drop a text)). replace (b - a + (c - b)) with (c - a) by lia.
  rewrite <- (take_drop (b - a) (take (c - a) (drop a text))) at 1. rewrite take_take, Nat.min_l by lia. done.
Qed.

Lemma sub_all (text : list Z) : sub text 0 (length text) = text.
Proof. unfold sub. by rewrite drop_0, firstn_all. Qed.

Lemma sub_none (text : list Z) (q m : nat) : length text <= q -> sub text q m = [].
Proof. intros H. unfold sub. by rewrite drop_ge, take_nil. Qed.

(** *** The three delimiters keep the promise. *)
Lemma find_sub_loop_spec (s text : list Z) (i : nat) :
  match find_sub_loop s text i with
  | Some p => i <= p /\ take (length s) (drop (p - i) text) = s /\ forall q, q < p - i -> take (length s) (drop q text) <> s
  | None => forall q, take (length s) (drop q text) <> s
  end.
Proof.
  revert i. induction text as [|c text IH]; intros i; cbn [find_sub_loop].
  - case_decide as H; [rewrite Nat.sub_diag, drop_0; by split_and!; [lia|..|lia]|]. intros q. by destruct q.
  - case_decide as H; [rewrite Nat.sub_diag, drop_0; by split_and!; [lia|..|lia]|]. specialize (IH (S i)).
    destruct (find_sub_loop s text (S i)) as [p|].
    + destruct IH as (H1 & H2 & H3). split_and!; [lia| |].
      * by replace (p - i) with (S (p - S i)) by lia.
      * intros [|q] Hq; [done|]. apply H3. lia.
    + intros [|q]; [done|]. apply IH.
Qed.

Lemma find_sub_spec (s text : list Z) (pos : nat) : pos <= length text ->
  match find_sub s text pos with
  | Some p => pos <= p /\ sub text p (length s) = s /\ forall q, pos <= q < p -> sub text q (length s) <> s
  | None => forall q, pos <= q -> sub text q (length s) <> s
  end.
Proof.
  intros Hp. unfold find_sub, sub. rewrite (proj2 (Nat.ltb_ge _ _)) by done. pose proof (find_sub_loop_spec s (drop pos text) pos) as H.
  destruct (find_sub_loop s (drop pos text) pos) as [p|].
  - destruct H as (H1 & H2 & H3). rewrite drop_drop in H2. replace (pos + (p - pos)) with p in H2 by lia. split_and!; [done|done|].
    intros q Hq. specialize (H3 (q - pos) ltac:(lia)). rewrite drop_drop in H3. by replace (pos + (q - pos)) with q in H3 by lia.
  - intros q Hq. specialize (H (q - pos)). rewrite drop_drop in H. by replace (pos + (q - pos)) with q in H by lia.
Qed.

Lemma sub_fits (text s : list Z) (p n : nat) : s <> [] -> sub text p n = s -> p + length s <= length text /\ sub text p (length s) = s.
Proof.
  intros Hs E. assert (Hl : length s = min n (length text - p)) by (rewrite <- E; unfold sub; by rewrite length_take, length_drop).
  destruct s as [|x s]; [done|]. cbn [length] in *. split; [lia|]. rewrite Hl. rewrite <- E. unfold sub.
  destruct (decide (n <= length text - p)); [by rewrite Nat.min_l|]. rewrite Nat.min_r by lia.
  rewrite !take_ge; rewrite ?length_drop; lia || done.
Qed.

Definition is_one (c : Z) (s : list Z) : Prop := s = [c].
#[export] Instance char_delimits : Delimits Z (fun _ => True) is_one.
Proof.
  split.
  - intros c text pos p n _ Hp Hf Hn. unfold find_delim, char_delimiter, find_char in Hf. pose proof (find_sub_spec [c] text pos Hp) as H.
    destruct (find_sub [c] text pos) as [i|]; [|congruence]. injection Hf as <- <-. destruct H as (H1 & H2 & H3). cbn [length] in *.
    destruct (sub_fits text [c] i 1) as [H4 _]; [done|done|]. cbn in H4. split_and!; [done|lia|done|].
    intros q m Hq E. apply (H3 q Hq). by destruct (sub_fits text [c] q m).
  - intros c text pos p _ Hp Hf q m Hq E. unfold find_delim, char_delimiter, find_char in Hf. pose proof (find_sub_spec [c] text pos Hp) as H.
    destruct (find_sub [c] text pos) as [i|]; [congruence|]. apply (H q Hq). by destruct (sub_fits text [c] q m).
  - by intros c s _ ->.
Qed.

Definition not_empty (d : by_string) : Prop := mDelims d <> [].
Definition is_whole (d : by_string) (s : list Z) : Prop := s = mDelims d.
#[export] Instance string_delimits : Delimits by_string not_empty is_whole.
Proof.
  split.
  - intros d text pos p n Hd Hp Hf Hn. unfold find_delim, string_delimiter, find_string in Hf.
    rewrite bool_decide_false in Hf by done. cbn [andb] in Hf. pose proof (find_sub_spec (mDelims d) text pos Hp) as H.
    destruct (find_sub (mDelims d) text pos) as [i|]; [|congruence]. injection Hf as <- <-. destruct H as (H1 & H2 & H3).
    destruct (sub_fits text (mDelims d) i (length (mDelims d))) as [H4 _]; [done|done|]. split_and!; [done|lia|done|].
    intros q m Hq E. apply (H3 q Hq). by destruct (sub_fits text (mDelims d) q m).
  - intros d text pos p Hd Hp Hf q m Hq E. unfold find_delim, string_delimiter, find_string in Hf.
    rewrite bool_decide_false in Hf by done. cbn [andb] in Hf. pose proof (find_sub_spec (mDelims d) text pos Hp) as H.
    destruct (find_sub (mDelims d) text pos) as [i|]; [|apply (H q Hq); by destruct (sub_fits text (mDelims d) q m)].
    injection Hf as _ El. by apply length_zero_iff_nil in El.
  - by intros d s Hd ->.
Qed.

Lemma find_any_loop_spec (t : table) (text : list Z) (i : nat) :
  match find_any_loop t text i with
  | Some p => i <= p /\ (exists c, text !! (p - i) = Some c /\ default false (t !! Z.to_nat c) = true) /\
      forall q c, q < p - i -> text !! q = Some c -> default false (t !! Z.to_nat c) = false
  | None => forall q c, text !! q = Some c -> default false (t !! Z.to_nat c) = false
  end.
Proof.
  revert i. induction text as [|c text IH]; intros i; cbn [find_any_loop]; [done|]. destruct (default false (t !! Z.to_nat c)) eqn:E.
  - rewrite Nat.sub_diag. split_and!; [lia|by exists c|lia].
  - specialize (IH (S i)). destruct (find_any_loop t text (S i)) as [p|].
    + destruct IH as (H1 & (x & Hx & Ht) & H3). split_and!; [lia| |].
      * exists x. by replace (p - i) with (S (p - S i)) by lia.
      * intros [|q] y Hq Hy; [cbn in Hy; congruence|]. apply (H3 q); [lia|done].
    + intros [|q] y Hy; [cbn in Hy; congruence|]. by apply (IH q).
Qed.

Definition is_any (t : table) (s : list Z) : Prop := exists c, s = [c] /\ default false (t !! Z.to_nat c) = true.

Lemma sub_one (text : list Z) (p m : nat) (c : Z) : sub text p m = [c] -> text !! p = Some c.
Proof.
  intros E. unfold sub in E. destruct (drop p text) as [|x l] eqn:Ed; [by rewrite take_nil in E|]. destruct m; [done|]. injection E as ->.
  rewrite <- (Nat.add_0_r p), <- lookup_drop, Ed. done.
Qed.

Lemma one_sub (text : list Z) (p : nat) (c : Z) : text !! p = Some c -> sub text p 1 = [c].
Proof. intros E. unfold sub. by rewrite (drop_S _ c). Qed.

#[export] Instance any_delimits : Delimits table (fun _ => True) is_any.
Proof.
  split.
  - intros t text pos p n _ Hp Hf Hn. unfold find_delim, any_delimiter, find_any in Hf.
    destruct (pos <? length text) eqn:El; [|congruence]. pose proof (find_any_loop_spec t (drop pos text) pos) as H.
    destruct (find_any_loop t (drop pos text) pos) as [i|]; [|congruence]. injection Hf as <- <-. destruct H as (H1 & (c & Hc & Ht) & H3).
    rewrite lookup_drop in Hc. replace (pos + (i - pos)) with i in Hc by lia. apply lookup_lt_Some in Hc as Hl. split_and!; [done|lia| |].
    + exists c. split; [by apply one_sub|done].
    + intros q m Hq (x & Hx%sub_one & Ht'). specialize (H3 (q - pos) x). rewrite lookup_drop in H3.
      replace (pos + (q - pos)) with q in H3 by lia. rewrite H3 in Ht'; [done|lia|done].
  - intros t text pos p _ Hp Hf q m Hq (x & Hx%sub_one & Ht). unfold find_delim, any_delimiter, find_any in Hf.
    destruct (pos <? length text) eqn:El; [|apply Nat.ltb_ge in El; apply lookup_lt_Some in Hx; lia].
    pose proof (find_any_loop_spec t (drop pos text) pos) as H. destruct (find_any_loop t (drop pos text) pos) as [i|]; [congruence|].
    specialize (H (q - pos) x). rewrite lookup_drop in H. replace (pos + (q - pos)) with q in H by lia. rewrite H in Ht; done.
  - by intros t s _ (c & -> & _).
Qed.

(** ** Theorems *)

(** Tokens with the delimiters between them *)
Fixpoint weave (tokens seps : list (list Z)) : list Z :=
  match tokens, seps with
  | t :: tokens, s :: seps => t ++ s ++ weave tokens seps
  | t :: _, [] => t
  | [], _ => []
  end.
Definition non_empty (v : view) : Prop := 0 < snd v.
#[export] Instance non_empty_dec (v : view) : Decision (non_empty v).
Proof. unfold non_empty. apply _. Defined.

Lemma filter_non_empty (v : view) (l : list view) :
  filter non_empty (v :: l) = if 0 <? snd v then v :: filter non_empty l else filter non_empty l.
Proof.
  rewrite filter_cons. case_decide as H; unfold non_empty in H; [by rewrite (proj2 (Nat.ltb_lt _ _))|by rewrite (proj2 (Nat.ltb_ge _ _)) by lia].
Qed.

Section Correct.
Context {D : Type} `{!Delimiter D} {proper : D -> Prop} {matches : D -> list Z -> Prop} `{!Delimits D proper matches}.

(** A token lies in the text and no delimiter starts inside it. *)
Definition token_ok (d : D) (text : list Z) (v : view) : Prop :=
  fst v + snd v <= length text /\ forall q m, fst v <= q < fst v + snd v -> ~ matches d (sub text q m).

Lemma split_loop_spec (d : D) (text : list Z) (fuel start : nat) :
  proper d -> start <= length text -> length text - start < fuel ->
  exists tokens seps, split_loop fuel d text start = Ret tokens /\
    split_skip_loop fuel d text start = Ret (filter non_empty tokens) /\ length tokens = S (length seps) /\
    weave (view_text text <$> tokens) seps = sub text start (length text - start) /\ Forall (matches d) seps /\ Forall (token_ok d text) tokens.
Proof.
  intros Hd. revert start. induction fuel as [|fuel IH]; intros start Hs Hf; [lia|]. cbn [split_loop split_skip_loop].
  rewrite (proj2 (Nat.leb_le _ _)) by done. destruct (find_delim d text start) as [p n] eqn:E. destruct n as [|n].
  - cbn [Nat.eqb]. unfold make_view. rewrite (proj2 (Nat.leb_le _ _)), Nat.leb_refl by done. cbn [andb run_bind].
    exists [(start, length text - start)], []. split_and!; [done| |done|done|by constructor|].
    + by rewrite filter_non_empty.
    + constructor; [|by constructor]. split; cbn; [lia|]. intros q m Hq. apply (delimits_none d text start p Hd Hs E). lia.
  - destruct (delimits_found d text start p (S n) Hd Hs E ltac:(done)) as (H1 & H2 & H3 & H4). cbn [Nat.eqb].
    unfold make_view. rewrite (proj2 (Nat.leb_le start p)), (proj2 (Nat.leb_le p _)) by lia. cbn [andb run_bind].
    destruct (IH (p + S n)) as (ts & ss & E1 & E2 & E3 & E4 & E5 & E6); [lia|lia|]. rewrite E1, E2. cbn [run_bind snd].
    exists ((start, p - start) :: ts), (sub text p (S n) :: ss). split_and!.
    + done.
    + by rewrite filter_non_empty.
    + cbn. congruence.
    + cbn [fmap list_fmap weave]. rewrite E4. unfold view_text at 1. cbn [fst snd].
      rewrite (sub_split text start p (length text)) by lia. f_equal. rewrite (sub_split text p (p + S n) (length text)) by lia.
      by replace (p + S n - p) with (S n) by lia.
    + by constructor.
    + constructor; [|done]. split; cbn; [lia|]. intros q m Hq. apply H4. lia.
Qed.

(** Splitting by any delimiter that keeps the promise ends, reads inside the text, and the
    tokens with the delimiters found between them are the text; no delimiter starts inside
    a token. With [skip_empty] the tokens are the same without the empty ones. *)
Theorem str_split_correct (d : D) (text : list Z) : proper d ->
  exists tokens seps, str_split text d = Ret tokens /\ str_split_skip text d = Ret (filter non_empty tokens) /\
    length tokens = S (length seps) /\ weave (view_text text <$> tokens) seps = text /\ Forall (matches d) seps /\ Forall (token_ok d text) tokens.
Proof.
  intros Hd. destruct (split_loop_spec d text (S (length text)) 0 Hd ltac:(lia) ltac:(lia)) as (ts & ss & H1 & H2 & H3 & H4 & H5 & H6).
  exists ts, ss. rewrite Nat.sub_0_r, sub_all in H4. by split_and!.
Qed.
End Correct.

(** *** One character *)
Lemma scan_spec (c : Z) (rest : list Z) (i : nat) :
  scan c rest i = match find_sub_loop [c] rest i with Some p => p | None => i + length rest end.
Proof.
  revert i. induction rest as [|x rest IH]; intros i; cbn; [rewrite decide_False by done; lia|]. destruct (x =? c)%Z eqn:E; zbool.
  - subst. by rewrite decide_True.
  - rewrite decide_False by congruence. rewrite IH. by destruct (find_sub_loop [c] rest (S i)); [|lia].
Qed.

Lemma char_loops_agree (c : Z) (text : list Z) (fuel start : nat) :
  start <= length text -> length text - start < fuel -> split_char_loop (S fuel) c text start = split_loop fuel c text start.
Proof.
  revert start. induction fuel as [|fuel IH]; intros start Hs Hf; [lia|]. cbn [split_loop]. remember (S fuel) as fuel' eqn:Ef. cbn [split_char_loop].
  rewrite (proj2 (Nat.leb_le start _)) by done. rewrite scan_spec. unfold find_delim, char_delimiter, find_char, find_sub.
  rewrite (proj2 (Nat.ltb_ge _ _)) by done. pose proof (find_sub_spec [c] text start Hs) as H. unfold find_sub in H.
  rewrite (proj2 (Nat.ltb_ge _ _)) in H by done. destruct (find_sub_loop [c] (drop start text) start) as [p|].
  - destruct H as (H1 & H2 & _). destruct (sub_fits text [c] p 1) as [H3 _]; [done|done|]. cbn in H3 |- *.
    unfold make_view. rewrite (proj2 (Nat.leb_le start p)), (proj2 (Nat.leb_le p _)) by lia. cbn [andb run_bind]. subst fuel'. rewrite IH by lia. done.
  - rewrite length_drop. replace (start + (length text - start)) with (length text) by lia. cbn [Nat.eqb]. unfold make_view.
    rewrite (proj2 (Nat.leb_le start _)), Nat.leb_refl by done. subst fuel'. cbn [andb run_bind split_char_loop].
    by rewrite (proj2 (Nat.leb_gt (length text + 1) _)) by lia.
Qed.

Lemma split_loop_same {D D' : Type} `{!Delimiter D, !Delimiter D'} (d : D) (d' : D') (text : list Z) :
  (forall pos, pos <= length text -> find_delim d text pos = find_delim d' text pos) -> str_split text d = str_split text d'.
Proof.
  intros H. unfold str_split. generalize (S (length text)) 0. induction n as [|fuel IH]; intros start; [done|]. cbn [split_loop].
  destruct (start <=? length text) eqn:E; [|done]. apply Nat.leb_le in E. rewrite H by done. destruct (find_delim d' text start) as [p n].
  destruct (n =? 0); [done|]. by rewrite IH.
Qed.

Definition is_char (c : Z) : Prop := (0 <= c < 256)%Z.

Lemma find_any_one (c : Z) (text : list Z) (i : nat) : is_char c -> Forall is_char text -> find_any_loop (by_any_of [c]) text i = find_sub_loop [c] text i.
Proof.
  intros Hc Ht. revert i. induction Ht as [|x text Hx Ht IH]; intros i; cbn [find_any_loop find_sub_loop]; [by destruct (decide _)|].
  unfold by_any_of in *. cbn [foldl] in *. unfold is_char in *. destruct (decide (x = c)) as [->|Hne].
  - unfold table; rewrite list_lookup_insert_eq by (rewrite length_replicate; lia). cbn. by rewrite decide_True.
  - unfold table; rewrite list_lookup_insert_ne by lia. rewrite lookup_replicate_2 by lia. cbn [default]. rewrite IH. cbn [length take]. by rewrite decide_False by congruence.
Qed.

(** The overloads agree on a delimiter of one character. *)
Theorem one_char_overloads (c : Z) (text : list Z) : is_char c -> Forall is_char text ->
  str_split_char text c = str_split text c /\ str_split text (mkByString [c]) = str_split text c /\ str_split text (by_any_of [c]) = str_split text c.
Proof.
  intros Hc Ht. split_and!.
  - apply char_loops_agree; lia.
  - by apply split_loop_same.
  - apply split_loop_same. intros pos Hp. unfold find_delim, any_delimiter, char_delimiter, find_any, find_char, find_sub.
    rewrite (proj2 (Nat.ltb_ge _ pos)) by done. rewrite find_any_one by (done || by apply Forall_drop).
    destruct (pos <? length text) eqn:E; [done|]. apply Nat.ltb_ge in E. rewrite drop_ge by done. cbn. by destruct (decide _).
Qed.

(** The reference splitting of [StringEncode] *)
Lemma contents_split (c : Z) (text : list Z) (fuel start : nat) : start <= length text -> length text - start < fuel ->
  exists tokens, split_loop fuel c text start = Ret tokens /\ view_text text <$> tokens = split c (drop start text).
Proof.
  revert start. induction fuel as [|fuel IH]; intros start Hs Hf; [lia|]. cbn [split_loop]. rewrite (proj2 (Nat.leb_le start _)) by done.
  destruct (find_delim c text start) as [p n] eqn:E. destruct n as [|n].
  - cbn [Nat.eqb]. unfold make_view. rewrite (proj2 (Nat.leb_le start _)), Nat.leb_refl by done. cbn [andb run_bind].
    exists [(start, length text - start)]. split; [done|]. rewrite split_no_delimiter; [|].
    + unfold view_text, sub. cbn. by rewrite take_ge by (rewrite length_drop; lia).
    + intros [q Hq]%list_elem_of_lookup. rewrite lookup_drop in Hq. eapply (delimits_none c text start p I Hs E (start + q) 1); [lia|].
      by apply one_sub.
  - destruct (delimits_found c text start p (S n) I Hs E ltac:(done)) as (H1 & H2 & H3 & H4). cbn [Nat.eqb].
    unfold make_view. rewrite (proj2 (Nat.leb_le start p)), (proj2 (Nat.leb_le p _)) by lia. cbn [andb run_bind].
    assert (n = 0) as ->. { apply (f_equal length) in H3. unfold sub in H3. rewrite length_take, length_drop in H3. change (length [c]) with 1 in H3. lia. }
    destruct (IH (p + 1)) as (ts & E1 & E2); [lia|lia|]. rewrite E1. cbn [run_bind]. eexists. split; [done|].
    cbn [fmap list_fmap]. rewrite E2. unfold view_text at 1. cbn [fst snd].
    assert (drop start text = sub text start (p - start) ++ c :: drop (p + 1) text) as ->.
    { rewrite <- (take_drop (p - start) (drop start text)). unfold sub. f_equal. rewrite drop_drop. replace (start + (p - start)) with p by lia.
      rewrite Nat.add_1_r. apply drop_S. by apply (sub_one text p 1). }
    rewrite split_app; [done|]. intros [q Hq]%list_elem_of_lookup. unfold sub in Hq. apply lookup_take_Some in Hq as [Hq Hlt].
    rewrite lookup_drop in Hq. apply (H4 (start + q) 1); [lia|]. by apply one_sub.
Qed.

(** Fields joined with one character *)
Fixpoint join (c : Z) (fields : list (list Z)) : list Z :=
  match fields with [] => [] | [f] => f | f :: fields => f ++ c :: join c fields end.

Lemma split_join (c : Z) (fields : list (list Z)) : fields <> [] -> Forall (fun f => c ∉ f) fields -> split c (join c fields) = fields.
Proof.
  intros Hne H. induction H as [|f fields Hf H IH]; [done|]. destruct fields as [|g fields]; [by apply split_no_delimiter|].
  change (join c (f :: g :: fields)) with (f ++ c :: join c (g :: fields)). rewrite split_app by done. by rewrite IH.
Qed.

Lemma split_some (c : Z) (text : list Z) : split c text <> [].
Proof. destruct text as [|x text]; [done|]. cbn. destruct (_ =? _)%Z; [done|]. by destruct (split c text). Qed.

Lemma join_split (c : Z) (text : list Z) : join c (split c text) = text.
Proof.
  induction text as [|x text IH]; [done|]. cbn [split]. pose proof (split_some c text) as Hs.
  destruct (split c text) as [|f fs] eqn:Es; [done|]. destruct (x =? c)%Z eqn:E; zbool.
  - subst x. change (c :: join c (f :: fs) = c :: text). by rewrite IH.
  - destruct fs; cbn in *; congruence.
Qed.

(** C38: Round trip: fields without the delimiter, joined and split, come back; the tokens of any
    text, joined, are the text. *)
Theorem split_join_roundtrip (c : Z) (text : list Z) (fields : list (list Z)) :
  (exists tokens, str_split_char text c = Ret tokens /\ join c (view_text text <$> tokens) = text) /\
  (fields <> [] -> Forall (fun f => c ∉ f) fields ->
    exists tokens, str_split_char (join c fields) c = Ret tokens /\ view_text (join c fields) <$> tokens = fields).
Proof.
  assert (H : forall t, exists tokens, str_split_char t c = Ret tokens /\ view_text t <$> tokens = split c t).
  { intros t. unfold str_split_char. rewrite char_loops_agree by lia. apply (contents_split c t (S (length t)) 0); lia. }
  split.
  - destruct (H text) as (ts & -> & E). exists ts. by rewrite E, join_split.
  - intros Hne Hf. destruct (H (join c fields)) as (ts & -> & E). exists ts. by rewrite E, split_join.
Qed.

(** ** What does not hold *)

(** An empty delimiter is documented to split at every character; the text is one token. *)
Theorem empty_delimiter_splits_nothing :
  str_split [97; 98; 99]%Z (mkByString []) = Ret [(0, 3)] /\ str_split [97; 98; 99]%Z (by_any_of []) = Ret [(0, 3)].
Proof. by vm_compute. Qed.

(** ** Instances *)
Definition csv : list Z := [97; 44; 44; 98; 59; 99]%Z.

Lemma str_split_correct_witness : exists tokens seps, str_split csv (by_any_of [44; 59]%Z) = Ret tokens /\
  str_split_skip csv (by_any_of [44; 59]%Z) = Ret (filter non_empty tokens) /\ length tokens = S (length seps) /\
  weave (view_text csv <$> tokens) seps = csv /\ Forall (is_any (by_any_of [44; 59]%Z)) seps /\
  Forall (token_ok (matches := is_any) (by_any_of [44; 59]%Z) csv) tokens.
Proof. by apply str_split_correct. Defined.

Example csv_tokens : str_split csv (by_any_of [44; 59]%Z) = Ret [(0, 1); (2, 0); (3, 1); (5, 1)] /\
  str_split_skip csv (by_any_of [44; 59]%Z) = Ret [(0, 1); (3, 1); (5, 1)].
Proof. by vm_compute. Qed.

Lemma one_char_overloads_witness : str_split_char csv 44 = str_split csv 44%Z /\ str_split csv (mkByString [44%Z]) = str_split csv 44%Z /\
  str_split csv (by_any_of [44%Z]) = str_split csv 44%Z.
Proof. apply one_char_overloads; [done|]. by repeat constructor. Defined.

Lemma split_join_roundtrip_witness : exists tokens, str_split_char (join 44 [[97]; []; [98; 99]]%Z) 44 = Ret tokens /\
  view_text (join 44 [[97]; []; [98; 99]]%Z) <$> tokens = [[97]; []; [98; 99]]%Z.
Proof. apply (split_join_roundtrip 44 []); [done|]. by repeat (constructor; [set_solver|]); constructor. Defined.
