(* ===== verification/IdRegistry.v ===== *)
(** * The id registry

    Models [src/cxxkit/tools/id_registry.cpp]. The two sets are lists in order; the counter
    of a new registry is not initialised, and reading it is undefined. Shows what the
    registry does from a known counter and no free ids, and that it goes wrong otherwise. *)

From stdpp Require Import prelude list sorting.
From Stdlib Require Import ZArith Lia.
From S2P Require Import Prelude CxxInt StdSet.

#[local] Open Scope Z_scope.
#[local] Open Scope cxx_scope.

Record IdRegistry := mkRegistry { mCounter : option Z; mFreeIds : list Z; mUsedIds : list Z }.

Definition new_IdRegistry : IdRegistry := mkRegistry None [] [].

Definition registered_id_count (d : IdRegistry) : Z := Z.of_nat (length (mUsedIds d)).
Definition is_id_registered (d : IdRegistry) (id : Z) : bool := bool_decide (id ∈ mUsedIds d).

Definition register_id (d : IdRegistry) (id : Z) : IdRegistry :=
  let d := if bool_decide (id ∈ mFreeIds d) then mkRegistry (mCounter d) (filter (fun i => i <> id) (mFreeIds d)) (mUsedIds d) else d in
  if negb (bool_decide (id ∈ mUsedIds d)) then mkRegistry (mCounter d) (mFreeIds d) (set_insert Z.ltb id (mUsedIds d)) else d.

Definition unregister_id (d : IdRegistry) (id : Z) : IdRegistry :=
  let d := if negb (bool_decide (id ∈ mFreeIds d)) then mkRegistry (mCounter d) (set_insert Z.ltb id (mFreeIds d)) (mUsedIds d) else d in
  if bool_decide (id ∈ mUsedIds d) then mkRegistry (mCounter d) (mFreeIds d) (filter (fun i => i <> id) (mUsedIds d)) else d.

(** [++d->mCounter] *)
Definition next_counter (d : IdRegistry) : run (Z * IdRegistry) :=
  do c <- deref (mCounter d);
  if in_typeb I64 (c + 1) then Ret (c + 1, mkRegistry (Some (c + 1)) (mFreeIds d) (mUsedIds d)) else Undef.

(** The loop of [request_id]; [fuel] bounds the turns. *)
Fixpoint request_loop (fuel : nat) (d : IdRegistry) (id : Z) : run (Z * IdRegistry) :=
  match fuel with
  | O => Timeout
  | S fuel =>
      if bool_decide (mFreeIds d = []) && bool_decide (id ∈ mUsedIds d) then do (id, d) <- next_counter d; request_loop fuel d id
      else Ret (id, d)
  end.

(** [*d->mFreeIds.erase(d->mFreeIds.begin())] is the element after the one erased. *)
Definition request_id (d : IdRegistry) : run (Z * IdRegistry) :=
  do (id, d) <-
    (match mFreeIds d with
     | [] => next_counter d
     | _ :: rest => do id <- deref (head rest); Ret (id, mkRegistry (mCounter d) rest (mUsedIds d))
     end);
  do (id, d) <- request_loop (S (length (mUsedIds d))) d id;
  Ret (id, register_id d id).

(** ** The sets *)
Definition ids_ok (l : list Z) : Prop := StronglySorted Z.lt l.

Lemma ltb_lt (x y : Z) : (x <? y) = true <-> x < y.
Proof. apply Z.ltb_lt. Qed.
#[local] Instance lt_trans : Transitive Z.lt := Z.lt_trans.

Lemma insert_id (l : list Z) (id : Z) : id ∉ l -> set_insert Z.ltb id l ≡ₚ id :: l.
Proof.
  intros H. apply (set_insert_perm _ _ ltb_lt). rewrite Forall_forall. intros y Hy. assert (y <> id) by (intros ->; done). lia.
Qed.

Lemma insert_id_ok (l : list Z) (id : Z) : ids_ok l -> id ∉ l -> ids_ok (set_insert Z.ltb id l).
Proof.
  intros Hl H. apply (set_insert_sorted _ _ ltb_lt); [|done]. rewrite Forall_forall. intros y Hy. assert (y <> id) by (intros ->; done). lia.
Qed.

Record registry_ok (d : IdRegistry) : Prop := {
  ok_free : ids_ok (mFreeIds d);
  ok_used : ids_ok (mUsedIds d);
  ok_disjoint : forall id, id ∈ mFreeIds d -> id ∉ mUsedIds d
}.

Lemma register_id_spec (d : IdRegistry) (id : Z) :
  registry_ok d -> registry_ok (register_id d id) /\ mCounter (register_id d id) = mCounter d /\
  (forall i, i ∈ mUsedIds (register_id d id) <-> i = id \/ i ∈ mUsedIds d) /\
  (forall i, i ∈ mFreeIds (register_id d id) <-> i <> id /\ i ∈ mFreeIds d).
Proof.
  intros [Hf Hu Hd]. unfold register_id. set (free := if bool_decide (id ∈ mFreeIds d) then filter (fun i => i <> id) (mFreeIds d) else mFreeIds d).
  assert (Hfree : ids_ok free /\ forall i, i ∈ free <-> i <> id /\ i ∈ mFreeIds d).
  { unfold free. case_bool_decide.
    - split; [by apply StronglySorted_filter|]. intros i. by rewrite list_elem_of_filter.
    - split; [done|]. intros i. split; [|tauto]. intros Hi. split; [intros ->; done|done]. }
  destruct Hfree as [Hok Hin].
  replace (if bool_decide (id ∈ mFreeIds d) then _ else d) with (mkRegistry (mCounter d) free (mUsedIds d))
    by (unfold free; case_bool_decide; by destruct d).
  cbn. case_bool_decide as Hid; cbn.
  - split; [split; cbn; [done|done|]|].
    + intros i Hi. apply Hd. by apply Hin.
    + split; [done|]. split; [|done]. intros i. split; [auto|]. by intros [->|].
  - assert (Hmem : forall i, i ∈ set_insert Z.ltb id (mUsedIds d) <-> i = id \/ i ∈ mUsedIds d) by (intros i; by rewrite insert_id, elem_of_cons).
    split; [split; cbn; [done|by apply insert_id_ok|]|done].
    intros i [Hne Hi]%Hin. rewrite Hmem. intros [|]; [done|]. by apply (Hd i).
Qed.

Lemma request_loop_spec (fuel : nat) (c : Z) (used : list Z) :
  (length (filter (fun i => (c <= i)%Z) used) < fuel)%nat -> c + Z.of_nat fuel < 2 ^ 63 -> - 2 ^ 63 <= c ->
  exists id, request_loop fuel (mkRegistry (Some c) [] used) c = Ret (id, mkRegistry (Some id) [] used) /\ id ∉ used /\ c <= id /\
    forall i, c <= i < id -> i ∈ used.
Proof.
  induction fuel as [|fuel IH] in c |- *; intros Hf Hmax Hmin; [lia|]. cbn [request_loop mFreeIds mUsedIds].
  rewrite bool_decide_eq_true_2 by done. cbn [andb]. case_bool_decide as Hc.
  - assert (Hin : in_typeb I64 (c + 1) = true) by (unfold in_typeb; cbn; lia).
    unfold next_counter. cbn [mCounter deref run_bind]. rewrite Hin. cbn [run_bind mFreeIds mUsedIds].
    destruct (IH (c + 1)) as (id & E & Hid & Hle & Hbetween); [|lia|lia|].
    + assert (Hlt : (length (filter (fun i => (c + 1 <= i)%Z) used) < length (filter (fun i => (c <= i)%Z) used))%nat); [|lia].
      clear -Hc. induction used as [|x used IHu]; [by apply elem_of_nil in Hc|]. rewrite !filter_cons.
      assert (Hle : (length (filter (fun i => (c + 1 <= i)%Z) used) <= length (filter (fun i => (c <= i)%Z) used))%nat).
      { clear. induction used as [|y used IHu]; [done|]. rewrite !filter_cons. repeat case_decide; cbn; lia. }
      apply elem_of_cons in Hc as [->|Hc]; repeat case_decide; cbn; try lia; specialize (IHu Hc); lia.
    + exists id. split; [done|]. split; [done|]. split; [lia|]. intros i Hi. destruct (decide (i = c)) as [->|]; [done|]. apply Hbetween. lia.
  - exists c. split; [done|]. split; [done|]. split; [lia|]. intros i Hi. lia.
Qed.

(** From a known counter and with no free ids, [request_id] registers the first unused id above
    the counter and changes nothing else; the counter is that id. *)
Theorem request_id_correct (c : Z) (used : list Z) :
  ids_ok used -> - 2 ^ 63 <= c -> c + Z.of_nat (length used) + 2 < 2 ^ 63 ->
  exists id d', request_id (mkRegistry (Some c) [] used) = Ret (id, d') /\ registry_ok d' /\ mCounter d' = Some id /\ mFreeIds d' = [] /\
    id ∉ used /\ c < id /\ (forall i, c < i < id -> i ∈ used) /\ (forall i, i ∈ mUsedIds d' <-> i = id \/ i ∈ used).
Proof.
  intros Hu Hmin Hmax. unfold request_id. cbn [mFreeIds]. unfold next_counter at 1. cbn [mCounter deref run_bind].
  assert (Hin : in_typeb I64 (c + 1) = true) by (unfold in_typeb; cbn; lia). rewrite Hin. cbn [run_bind mFreeIds mUsedIds].
  destruct (request_loop_spec (S (length used)) (c + 1) used) as (id & E & Hid & Hle & Hbetween).
  - pose proof (length_filter (fun i => (c + 1 <= i)%Z) used). lia.
  - lia.
  - lia.
  - rewrite E. cbn [run_bind]. assert (Hok : registry_ok (mkRegistry (Some id) [] used)).
    { split; cbn; [constructor|done|]. intros i Hi. by apply elem_of_nil in Hi. }
    destruct (register_id_spec _ id Hok) as (Hok' & Hc' & Hu' & Hf').
    exists id, (register_id (mkRegistry (Some id) [] used) id). split; [done|]. split; [done|]. split; [done|]. split.
    + apply elem_of_nil_inv. intros i. rewrite Hf'. intros [_ Hi]. by apply elem_of_nil in Hi.
    + split; [done|]. split; [lia|]. split; [|done]. intros i Hi. apply Hbetween. lia.
Qed.

Lemma request_id_correct_witness :
  exists id d', request_id (mkRegistry (Some 0) [] [1; 2; 4]) = Ret (id, d') /\ id ∉ [1; 2; 4] /\ 0 < id.
Proof.
  destruct (request_id_correct 0 [1; 2; 4]) as (id & d' & E & _ & _ & _ & Hid & Hlt & _).
  - repeat constructor.
  - lia.
  - cbn. lia.
  - exists id, d'. split; [exact E|]. split; [exact Hid|exact Hlt].
Defined.

(** The counter of a new registry is read before it is written. *)
Lemma first_request_undefined : request_id new_IdRegistry = Undef.
Proof. reflexivity. Qed.

(** With free ids, the one erased is forgotten and the next one is returned; after the only
    one, the end of the set is read. *)
Lemma request_forgets_free_id :
  request_id (mkRegistry (Some 2) [1; 2] []) = Ret (2, mkRegistry (Some 2) [] [2]) /\ request_id (mkRegistry (Some 2) [1] [2]) = Undef.
Proof. split; vm_compute; reflexivity. Qed.
