(* ===== verification/Random.v ===== *)
(** * Pseudo random numbers and random text

    Models [src/cxxkit/tools/random.hpp] and [random.cpp]: the xorshift generator with its
    integer ranges, the two byte generators, and the strings and ids made from bytes. The
    generator in use is a parameter: a function from a state and a buffer to the buffer it
    leaves and whether it succeeded. The floating-point distributions are left out. *)

From stdpp Require Import prelude list strings.
From Stdlib Require Import ZArith Lia Znumtheory Zpow_facts.
From S2P Require Import Prelude CxxInt SafeMath Chars.

#[local] Open Scope Z_scope.
#[local] Open Scope cxx_scope.

(** ** [Random]: the state is [mState]. *)
Definition new_Random (seed : Z) : run Z := do _ <- check (negb (seed =? 0)); Ret seed.

Definition next_output (mState : Z) : run (Z * Z) :=
  let mState := Z.lxor mState (Z.shiftr mState 12) in
  let mState := Z.lxor mState (wrap 64 (Z.shiftl mState 25)) in
  let mState := Z.lxor mState (Z.shiftr mState 27) in
  do _ <- check (negb (mState =? 0));
  Ret (wrap 64 (mState * 2685821657736338717), mState).

(** [rand<T>()] for an integer type of at most 32 bits *)
Definition rand_type (T : itype) (mState : Z) : run (Z * Z) := do (x, s) <- next_output mState; Ret (convert T x, s).

Definition rand (mState t : Z) : run (Z * Z) :=
  do (x, s) <- next_output mState;
  let x := wrap 32 x in
  let result := wrap 64 (x * (t + 1)) in
  Ret (wrap 32 (Z.shiftr result 32), s).

Definition rand_range (mState low high : Z) : run (Z * Z) :=
  do _ <- check (low <=? high);
  do (x, s) <- rand mState (wrap 32 (high - low));
  Ret (wrap 32 (x + low), s).

(** The signed range: computed in [int64_t]. *)
Definition rand_range_signed (mState low high : Z) : run (Z * Z) :=
  do _ <- check (low <=? high);
  do (x, s) <- rand mState (convert U32 (high - low));
  Ret (convert I32 (x + low), s).

Definition rand_bool (mState : Z) : run (bool * Z) := do (x, s) <- rand_range_signed mState 0 1; Ret (x =? 1, s).

(** ** Byte generators *)

(** [TestRandomGenerator]: the state is [mSeed]; the product is computed in 64 bits. *)
Definition get_random (mSeed : Z) : Z * Z :=
  let mSeed := to_signed 32 (mSeed * 214013 + 2531011) in (Z.land (Z.shiftr mSeed 16) 0x7fff, mSeed).
Fixpoint test_generate (mSeed : Z) (buf : list Z) : list Z * Z :=
  match buf with
  | [] => ([], mSeed)
  | _ :: buf =>
      let (x, mSeed) := get_random mSeed in
      let (out, mSeed) := test_generate mSeed buf in (wrap 8 x :: out, mSeed)
  end.

(** [std_secure_random]: the loop over the buffer is commented out. *)
Definition std_secure_random (buf : list Z) : list Z * Z := (buf, Z.of_nat (length buf)).
Definition secure_generate (buf : list Z) : bool * list Z := let (buf, n) := std_secure_random buf in (0 <? n, buf).

(** ** Text and ids *)
Definition kBase64 : list Z := chars "ABCDEFGHIJKLMNOPQRSTUVWXYZabcdefghijklmnopqrstuvwxyz0123456789+/".
Definition kHex : list Z := chars "0123456789abcdef".
Definition kUuidDigit17 : list Z := chars "89ab".

Section Generator.
Context {G : Type} (generate : G -> list Z -> G * bool * list Z).

(** [new uint8_t[len]]: what the new bytes hold is not specified. *)
Context (fresh : nat -> list Z).

Fixpoint pick_all (table : list Z) (bytes : list Z) : run (list Z) :=
  match bytes with
  | [] => Ret []
  | b :: bytes => do c <- at_ table (b mod Z.of_nat (length table)); do s <- pick_all table bytes; Ret (c :: s)
  end.

(** [None]: the function returns false. *)
Definition create_random_string_from (g : G) (len : nat) (table : list Z) : run (G * option (list Z)) :=
  if bool_decide (table = []) then Undef
  else if negb (256 mod Z.of_nat (length table) =? 0) then Ret (g, None)
  else
    let '(g, ok, bytes) := generate g (fresh len) in
    if negb ok then Ret (g, None) else do s <- pick_all table (take len bytes); Ret (g, Some s).

Definition create_random_string (g : G) (len : nat) : run (G * list Z) :=
  do (g, r) <- create_random_string_from g len kBase64;
  match r with Some s => Ret (g, s) | None => Fatal end.

(** The digits of the bytes from [i] up to [j] *)
Definition hex_bytes (bytes : list Z) (i j : nat) : run (list Z) := pick_all kHex (take (j - i) (drop i bytes)).

Definition create_random_uuid (g : G) : run (G * list Z) :=
  let '(g, ok, bytes) := generate g (fresh 31) in
  do _ <- check ok;
  do s1 <- hex_bytes bytes 0 8;
  do s2 <- hex_bytes bytes 8 12;
  do s3 <- hex_bytes bytes 12 15;
  do b <- at_ bytes 15;
  do y <- at_ kUuidDigit17 (b mod 4);
  do s4 <- hex_bytes bytes 16 19;
  do s5 <- hex_bytes bytes 19 31;
  Ret (g, s1 ++ chars "-" ++ s2 ++ chars "-" ++ chars "4" ++ s3 ++ chars "-" ++ [y] ++ s4 ++ chars "-" ++ s5).

Definition create_random_id (g : G) : run (G * Z) :=
  let '(g, ok, bytes) := generate g (fresh 4) in
  do _ <- check ok;
  Ret (g, foldr (fun b v => b + 256 * v) 0 (take 4 bytes)).

Definition create_random_id64 (g : G) : run (G * Z) :=
  do (g, a) <- create_random_id g;
  do (g, b) <- create_random_id g;
  Ret (g, Z.lor (wrap 64 (Z.shiftl a 32)) b).

Fixpoint create_random_non_zero_id (fuel : nat) (g : G) : run (G * Z) :=
  match fuel with
  | O => Timeout
  | S fuel => do (g, id) <- create_random_id g; if id =? 0 then create_random_non_zero_id fuel g else Ret (g, id)
  end.
End Generator.

(** ** Xorshift *)
Definition shift_right (k x : Z) : Z := Z.lxor x (Z.shiftr x k).
Definition shift_left (k x : Z) : Z := Z.lxor x (wrap 64 (Z.shiftl x k)).
Definition next_state (s : Z) : Z := shift_right 27 (shift_left 25 (shift_right 12 s)).

Lemma next_output_eq (s : Z) :
  next_output s = do _ <- check (negb (next_state s =? 0)); Ret (wrap 64 (next_state s * 2685821657736338717), next_state s).
Proof. done. Qed.

Lemma shift_right_zero (k x : Z) : 0 < k -> 0 <= x -> shift_right k x = 0 -> x = 0.
Proof.
  intros Hk Hx H. unfold shift_right in H. apply Z.lxor_eq in H. rewrite Z.shiftr_div_pow2 in H by lia.
  destruct (decide (x = 0)) as [|Hne]; [done|]. exfalso. assert (x / 2 ^ k < x); [|lia].
  apply Z.div_lt; [lia|]. apply Z.pow_gt_1; lia.
Qed.

Lemma odd_coprime (m : Z) : Z.odd m = true -> rel_prime (2 ^ 64) m.
Proof.
  intros Hm. apply rel_prime_sym. apply (rel_prime_Zpower_r 64); [lia|]. apply rel_prime_sym, prime_rel_prime; [apply prime_2|].
  intros [q Hq]. rewrite Hq, Z.odd_mul in Hm. by rewrite andb_false_r in Hm.
Qed.

Lemma odd_multiple_zero (x m : Z) : is_u 64 x -> Z.odd m = true -> (x * m) mod 2 ^ 64 = 0 -> x = 0.
Proof.
  intros Hx Hm H. apply Z.mod_divide in H; [|lia]. rewrite Z.mul_comm in H. apply Gauss in H; [|by apply odd_coprime].
  destruct H as [q Hq]. unfold is_u in Hx. destruct (decide (q = 0)); nia.
Qed.

Lemma shift_left_zero (k x : Z) : 0 < k -> is_u 64 x -> shift_left k x = 0 -> x = 0.
Proof.
  intros Hk Hx H. unfold shift_left, wrap in H. apply Z.lxor_eq in H. rewrite Z.shiftl_mul_pow2 in H by lia.
  apply (odd_multiple_zero x (2 ^ k - 1)); [done| |].
  - rewrite Z.odd_sub, Z.odd_pow by lia. done.
  - rewrite Z.mul_sub_distr_l, Z.mul_1_r, Zminus_mod, <- H, (Z.mod_small x) by (unfold is_u in Hx; lia).
    by rewrite Z.sub_diag.
Qed.

Lemma shift_right_range (k x : Z) : 0 <= k -> is_u 64 x -> is_u 64 (shift_right k x).
Proof. intros Hk Hx. apply is_u_lxor; [lia|done|by apply is_u_shiftr]. Qed.
Lemma shift_left_range (k x : Z) : is_u 64 x -> is_u 64 (shift_left k x).
Proof. intros Hx. apply is_u_lxor; [lia|done|]. by apply wrap_range. Qed.
#[local] Hint Resolve shift_right_range shift_left_range : cxx.

Lemma next_state_range (s : Z) : is_u 64 s -> is_u 64 (next_state s).
Proof. intros H. unfold next_state. auto 10 with cxx lia. Qed.

Lemma next_state_zero (s : Z) : is_u 64 s -> next_state s = 0 -> s = 0.
Proof.
  intros Hs H. unfold next_state in H. apply shift_right_zero in H; [|lia|].
  - apply shift_left_zero in H; [|lia|auto with cxx lia]. by apply shift_right_zero in H; [|lia|apply Hs].
  - apply (shift_left_range 25). auto with cxx lia.
Qed.

Lemma shift_right_lxor (k a b : Z) : shift_right k (Z.lxor a b) = Z.lxor (shift_right k a) (shift_right k b).
Proof.
  unfold shift_right. rewrite Z.shiftr_lxor. apply Z.bits_inj'. intros i _. rewrite !Z.lxor_spec.
  destruct (Z.testbit a i), (Z.testbit b i), (Z.testbit (Z.shiftr a k) i), (Z.testbit (Z.shiftr b k) i); reflexivity.
Qed.

Lemma shift_left_lxor (k a b : Z) : shift_left k (Z.lxor a b) = Z.lxor (shift_left k a) (shift_left k b).
Proof.
  unfold shift_left, wrap. rewrite Z.shiftl_lxor. apply Z.bits_inj'. intros i Hi. rewrite !Z.lxor_spec.
  destruct (Z.lt_ge_cases i 64).
  - rewrite !Z.mod_pow2_bits_low, Z.lxor_spec by lia.
    destruct (Z.testbit a i), (Z.testbit b i), (Z.testbit (Z.shiftl a k) i), (Z.testbit (Z.shiftl b k) i); reflexivity.
  - rewrite !Z.mod_pow2_bits_high by lia. by destruct (Z.testbit a i), (Z.testbit b i).
Qed.

Lemma next_state_inj (a b : Z) : is_u 64 a -> is_u 64 b -> next_state a = next_state b -> a = b.
Proof.
  intros Ha Hb H. apply Z.lxor_eq, next_state_zero; [apply is_u_lxor; auto with lia|].
  unfold next_state in *. rewrite shift_right_lxor, shift_left_lxor, shift_right_lxor, H. apply Z.lxor_nilpotent.
Qed.

(** A scaled 32-bit number is in the range. *)
Lemma rand_range_lemma (x t : Z) : is_u 32 x -> is_u 32 t ->
  wrap 32 (Z.shiftr (wrap 64 (x * (t + 1))) 32) = x * (t + 1) / 2 ^ 32 /\ 0 <= x * (t + 1) / 2 ^ 32 <= t.
Proof.
  unfold is_u. intros Hx Ht.
  assert (H64 : 0 <= x * (t + 1) < 2 ^ 64).
  { split; [nia|]. apply Z.le_lt_trans with ((2 ^ 32 - 1) * 2 ^ 32); [|lia]. apply Z.mul_le_mono_nonneg; lia. }
  rewrite (wrap_small 64), Z.shiftr_div_pow2 by lia.
  assert (Hq : 0 <= x * (t + 1) / 2 ^ 32 <= t).
  { split; [apply Z.div_pos; lia|]. apply Z.lt_succ_r, Z.div_lt_upper_bound; [lia|].
    replace (Z.succ t) with (t + 1) by lia. apply Z.mul_lt_mono_pos_r; lia. }
  split; [|done]. apply wrap_small. lia.
Qed.

Lemma next_output_spec (s : Z) : is_u 64 s -> s <> 0 ->
  exists x, next_output s = Ret (x, next_state s) /\ is_u 64 x /\ x <> 0 /\ next_state s <> 0.
Proof.
  intros Hs Hne. assert (H0 : next_state s <> 0) by (intros H; by apply Hne, next_state_zero).
  rewrite next_output_eq, (proj2 (Z.eqb_neq _ _) H0). cbn [negb check run_bind]. eexists. split; [done|].
  split; [by apply wrap_range|]. split; [|done]. intros H. apply H0. apply (odd_multiple_zero _ 2685821657736338717); [by apply next_state_range|done|exact H].
Qed.

Lemma rand_spec (s t : Z) : is_u 64 s -> s <> 0 -> is_u 32 t ->
  exists x, rand s t = Ret (x, next_state s) /\ 0 <= x <= t.
Proof.
  intros Hs Hne Ht. destruct (next_output_spec s Hs Hne) as (x & E & _). unfold rand. rewrite E. cbn [run_bind].
  destruct (rand_range_lemma (wrap 32 x) t) as [Hw Hr]; [by apply wrap_range|done|]. rewrite Hw. eauto.
Qed.

(** From a nonzero state every draw succeeds and stays in its range, bounds included, signed or
    not; the state stays nonzero, and different states have different successors, so that
    the sequence of states returns to the seed. *)
Theorem random_correct (s low high : Z) :
  is_u 64 s -> s <> 0 ->
  (exists x, next_output s = Ret (x, next_state s) /\ is_u 64 x /\ x <> 0) /\
  (is_u 32 low -> is_u 32 high -> low <= high -> exists x, rand_range s low high = Ret (x, next_state s) /\ low <= x <= high) /\
  (is_s 32 low -> is_s 32 high -> low <= high -> exists x, rand_range_signed s low high = Ret (x, next_state s) /\ low <= x <= high) /\
  is_u 64 (next_state s) /\ next_state s <> 0 /\ (forall s', is_u 64 s' -> next_state s' = next_state s -> s' = s).
Proof.
  intros Hs Hne. destruct (next_output_spec s Hs Hne) as (x0 & E0 & Hx0 & Hne0 & H0).
  split; [eauto|]. split; [|split; [|split; [by apply next_state_range|split; [done|]]]].
  - unfold is_u. intros Hl Hh Hle. unfold rand_range. rewrite (proj2 (Z.leb_le _ _) Hle). cbn [check run_bind].
    rewrite wrap_small by lia. destruct (rand_spec s (high - low) Hs Hne) as (x & E & Hx); [unfold is_u; lia|].
    rewrite E. cbn [run_bind]. exists (x + low). rewrite wrap_small by lia. split; [done|lia].
  - unfold is_s. change (2 ^ (32 - 1)) with 2147483648. intros Hl Hh Hle. unfold rand_range_signed.
    rewrite (proj2 (Z.leb_le _ _) Hle). cbn [check run_bind]. rewrite convert_id by (unfold in_type; cbn; lia).
    destruct (rand_spec s (high - low) Hs Hne) as (x & E & Hx); [unfold is_u; lia|].
    rewrite E. cbn [run_bind]. exists (x + low). rewrite convert_id by (unfold in_type; cbn; lia). split; [done|lia].
  - intros s' Hs'. by apply next_state_inj.
Qed.

Lemma random_correct_witness :
  (exists x, rand_range_signed 42 (-3) 5 = Ret (x, next_state 42) /\ -3 <= x <= 5) /\ rand_range_signed 42 (-3) 5 = Ret (0, 1409286176).
Proof.
  split; [|vm_compute; reflexivity].
  destruct (random_correct 42 (-3) 5) as (_ & _ & H & _); [unfold is_u; lia|lia|].
  apply H; [unfold is_s; lia|unfold is_s; lia|lia].
Defined.

(** The secure generator reports success and leaves the buffer as it found it. *)
Lemma secure_generate_fills_nothing (buf : list Z) : buf <> [] -> secure_generate buf = (true, buf).
Proof.
  intros H. unfold secure_generate, std_secure_random. f_equal. apply Z.ltb_lt. destruct buf; [done|cbn; lia].
Qed.
