(* ===== verification/BitList.v ===== *)
(** * Big-endian bit strings

    The abstract view of a byte buffer shared by the components that read or
    write bits: a buffer is the list of its bits, most significant bit of the
    first byte first.  [bits_of n v] is the [n]-bit big-endian image of [v],
    [val_of l] the number a bit string denotes, [buf_bits] the bits of a list of
    bytes.  These are specification-side definitions. *)

From stdpp Require Import prelude list numbers.
From Stdlib Require Import ZArith Lia.
From S2P Require Import Prelude.

#[local] Open Scope Z_scope.

Fixpoint bits_of (n : nat) (v : Z) : list bool :=
  match n with
  | O => []
  | S n' => Z.testbit v (Z.of_nat n') :: bits_of n' v
  end.

Definition val_of (l : list bool) : Z := foldl (fun acc b => 2 * acc + Z.b2z b) 0 l.

Definition buf_bits (bytes : list Z) : list bool := concat (bits_of 8 <$> bytes).

(** A byte buffer holds values of type [uint8_t]. *)
Definition is_bytes (bytes : list Z) : Prop := Forall (is_u 8) bytes.

Lemma length_bits_of n v : length (bits_of n v) = n.
Proof. induction n; simpl; congruence. Qed.

Lemma foldl_val_acc l acc :
  foldl (fun a b => 2 * a + Z.b2z b) acc l = acc * 2 ^ Z.of_nat (length l) + val_of l.
Proof.
  unfold val_of. revert acc. induction l as [|b l IH]; intros acc; cbn [foldl length]; [lia|].
  rewrite IH. rewrite (IH (2 * 0 + Z.b2z b)).
  replace (Z.of_nat (S (length l))) with (1 + Z.of_nat (length l)) by lia.
  rewrite Z.pow_add_r by lia. lia.
Qed.

Lemma val_of_cons b l : val_of (b :: l) = Z.b2z b * 2 ^ Z.of_nat (length l) + val_of l.
Proof. unfold val_of at 1. cbn [foldl]. rewrite foldl_val_acc. lia. Qed.

Lemma val_of_app l1 l2 : val_of (l1 ++ l2) = val_of l1 * 2 ^ Z.of_nat (length l2) + val_of l2.
Proof. unfold val_of at 1. rewrite foldl_app. rewrite foldl_val_acc. reflexivity. Qed.

Lemma val_of_range l : 0 <= val_of l < 2 ^ Z.of_nat (length l).
Proof.
  induction l as [|b l IH]; [cbv; split; congruence|].
  rewrite val_of_cons. cbn [length].
  replace (Z.of_nat (S (length l))) with (1 + Z.of_nat (length l)) by lia.
  rewrite Z.pow_add_r by lia. destruct b; simpl Z.b2z; lia.
Qed.

Lemma val_of_bits_of n v : val_of (bits_of n v) = v mod 2 ^ Z.of_nat n.
Proof.
  induction n as [|n IH]; [cbv [bits_of val_of foldl]; rewrite Z.mod_1_r; reflexivity|].
  cbn [bits_of]. rewrite val_of_cons, length_bits_of, IH.
  replace (Z.of_nat (S n)) with (Z.of_nat n + 1) by lia.
  rewrite Z.pow_add_r by lia. rewrite Z.rem_mul_r by (try apply Z.pow_nonzero; lia).
  change (2 ^ 1) with 2. rewrite <- Z.shiftr_div_pow2 by lia.
  rewrite Z.testbit_odd, Zmod_odd. destruct (Z.odd _); simpl; lia.
Qed.

Lemma bits_of_ext n v v' :
  v mod 2 ^ Z.of_nat n = v' mod 2 ^ Z.of_nat n -> bits_of n v = bits_of n v'.
Proof.
  intros E. assert (forall m, (m <= n)%nat -> bits_of m v = bits_of m v') as K; [|apply K; lia].
  induction m as [|m IH]; intros; cbn [bits_of]; [reflexivity|].
  rewrite IH by lia. f_equal.
  rewrite <- (Z.mod_pow2_bits_low v (Z.of_nat n)), <- (Z.mod_pow2_bits_low v' (Z.of_nat n)) by lia.
  by rewrite E.
Qed.

Lemma bits_of_mod n m v : Z.of_nat n <= m -> bits_of n (v mod 2 ^ m) = bits_of n v.
Proof.
  intros. apply bits_of_ext. apply mod_pow2_le. lia.
Qed.

Lemma bits_of_app a b v : bits_of (a + b) v = bits_of a (v / 2 ^ Z.of_nat b) ++ bits_of b v.
Proof.
  induction a as [|a IH]; [reflexivity|]. simpl. rewrite IH. f_equal.
  rewrite Z.div_pow2_bits by lia. f_equal. lia.
Qed.

Lemma bits_of_val_of l : bits_of (length l) (val_of l) = l.
Proof.
  induction l as [|b l IH]; [reflexivity|]. cbn [length bits_of]. rewrite val_of_cons. f_equal.
  - pose proof (val_of_range l).
    rewrite Z.add_comm, Z.testbit_odd, Z.shiftr_div_pow2 by lia.
    rewrite Z.div_add by lia. rewrite Z.div_small by lia. destruct b; reflexivity.
  - etrans; [|exact IH]. apply bits_of_ext. rewrite Z.add_comm, Z.mod_add by lia. reflexivity.
Qed.

Lemma bits_of_val_of_len n l : length l = n -> bits_of n (val_of l) = l.
Proof. intros <-. apply bits_of_val_of. Qed.

Lemma val_of_inj l1 l2 : length l1 = length l2 -> val_of l1 = val_of l2 -> l1 = l2.
Proof. intros E H. rewrite <- (bits_of_val_of l1), <- (bits_of_val_of l2). congruence. Qed.

Lemma buf_bits_cons b bytes : buf_bits (b :: bytes) = bits_of 8 b ++ buf_bits bytes.
Proof. reflexivity. Qed.

Lemma buf_bits_app l1 l2 : buf_bits (l1 ++ l2) = buf_bits l1 ++ buf_bits l2.
Proof. unfold buf_bits. rewrite fmap_app. by rewrite concat_app. Qed.

Lemma length_buf_bits bytes : length (buf_bits bytes) = (8 * length bytes)%nat.
Proof. induction bytes; [reflexivity|]. rewrite buf_bits_cons, length_app, length_bits_of. simpl; lia. Qed.

Lemma drop_bits_of k n v : (k <= n)%nat -> drop k (bits_of n v) = bits_of (n - k) v.
Proof.
  intros. replace n with (k + (n - k))%nat at 1 by lia. rewrite bits_of_app.
  apply drop_app_length'. by rewrite length_bits_of.
Qed.

Lemma take_bits_of k n v :
  (k <= n)%nat -> take k (bits_of n v) = bits_of k (v / 2 ^ Z.of_nat (n - k)).
Proof.
  intros. replace n with (k + (n - k))%nat at 1 by lia. rewrite bits_of_app.
  apply take_app_length'. by rewrite length_bits_of.
Qed.

(** Concatenating bit fields: [a] bits of [u] followed by [b] bits of [v]. *)
Lemma bits_of_concat a b u v :
  0 <= v < 2 ^ Z.of_nat b -> bits_of a u ++ bits_of b v = bits_of (a + b) (u * 2 ^ Z.of_nat b + v).
Proof.
  intros. rewrite bits_of_app. rewrite Z.add_comm, Z.div_add, Z.div_small by lia. f_equal.
  apply bits_of_ext. rewrite Z.mod_add by lia. reflexivity.
Qed.

Lemma val_of_false n : val_of (replicate n false) = 0.
Proof. induction n; [reflexivity|]. simpl replicate. rewrite val_of_cons. simpl; lia. Qed.

Lemma bits_of_zero n : bits_of n 0 = replicate n false.
Proof. induction n; simpl; [reflexivity|]. by rewrite IHn, Z.bits_0. Qed.

(** ** Replacing a segment *)

(** [splice p l B]: [B] with the [length l] elements from position [p] replaced by [l]. *)
Definition splice {A} (p : nat) (l B : list A) : list A := take p B ++ l ++ drop (p + length l) B.

Lemma length_splice {A} p (l B : list A) : (p + length l <= length B)%nat -> length (splice p l B) = length B.
Proof. intros. unfold splice. rewrite !length_app, length_take, length_drop. lia. Qed.

Lemma splice_splice {A} p (l1 l2 B : list A) :
  (p + length l1 + length l2 <= length B)%nat -> splice (p + length l1) l2 (splice p l1 B) = splice p (l1 ++ l2) B.
Proof.
  intros. unfold splice. rewrite app_assoc, (app_assoc (take p B)).
  rewrite take_app_length' by (rewrite length_app, length_take; lia).
  rewrite drop_app_ge by (rewrite length_app, length_take; lia).
  rewrite drop_drop, length_app, length_app, length_take. rewrite <- !app_assoc. do 3 f_equal. f_equal. lia.
Qed.

Lemma splice_nil {A} p (B : list A) : splice p [] B = B.
Proof. unfold splice. cbn. rewrite Nat.add_0_r. apply take_drop. Qed.

(** Replacing a segment by itself changed in its middle replaces the middle. *)
Lemma splice_inner_app {A} o (l X M Y : list A) :
  (o + length l <= length M)%nat ->
  splice (length X) (take o M ++ l ++ drop (o + length l) M) (X ++ M ++ Y) = splice (length X + o) l (X ++ M ++ Y).
Proof.
  intros. unfold splice. rewrite !length_app, length_take, length_drop.
  rewrite (take_app_length X), take_app_add. rewrite <- Nat.add_assoc, !drop_app_add.
  rewrite take_app_le, (drop_app_le M Y (o + length l)) by lia. rewrite <- !app_assoc. do 4 f_equal.
  rewrite drop_app_ge by lia. replace (_ - _)%nat with 0%nat by lia. done.
Qed.

Lemma splice_inner {A} p o k (l B : list A) :
  (p + k <= length B)%nat -> (o + length l <= k)%nat ->
  splice p (take o (take k (drop p B)) ++ l ++ drop (o + length l) (take k (drop p B))) B = splice (p + o) l B.
Proof.
  intros. pose proof (splice_inner_app o l (take p B) (take k (drop p B)) (drop k (drop p B))) as K.
  rewrite !take_drop, !length_take, length_drop in K. rewrite (Nat.min_l p) in K by lia. apply K. lia.
Qed.

Lemma lookup_bits_of n v j : (j < n)%nat -> bits_of n v !! j = Some (Z.testbit v (Z.of_nat (n - 1 - j))).
Proof.
  revert j. induction n as [|n IH]; intros j Hj; [lia|]. cbn [bits_of]. destruct j as [|j]; cbn.
  - do 2 f_equal. lia.
  - rewrite IH by lia. do 2 f_equal. lia.
Qed.

Lemma buf_bits_lookup bytes i b :
  bytes !! i = Some b -> take 8 (drop (8 * i) (buf_bits bytes)) = bits_of 8 b.
Proof.
  intros H. rewrite <- (take_drop_middle bytes i b H). pose proof (lookup_lt_Some _ _ _ H).
  rewrite buf_bits_app, drop_app_length' by (rewrite length_buf_bits, length_take; lia).
  rewrite buf_bits_cons. apply take_app_length'. by rewrite length_bits_of.
Qed.

Lemma buf_bits_insert bytes i b :
  (i < length bytes)%nat -> buf_bits (<[i := b]> bytes) = splice (8 * i) (bits_of 8 b) (buf_bits bytes).
Proof.
  intros H. rewrite insert_take_drop by done. unfold splice. rewrite buf_bits_app, buf_bits_cons. 
  rewrite length_bits_of. rewrite <- (take_drop (S i) bytes) at 4. rewrite buf_bits_app.
  rewrite drop_app_length' by (rewrite length_buf_bits, length_take; lia). f_equal.
  rewrite <- (take_drop i bytes) at 2. rewrite buf_bits_app.
  symmetry. apply take_app_length'. rewrite length_buf_bits, length_take. lia.
Qed.
