(* ===== verification/Bits.v ===== *)
(** * numerics/bits.hpp: bit-manipulation primitives

    The portable (no compiler builtin) branches of [cxxkit/numerics/bits.hpp]:
    rotations, leading and trailing zero counts, population count and the
    power-of-two helpers.  A value of the unsigned type [T] is a [Z] in
    [0, 2^w), [w] being [std::numeric_limits<T>::digits]; [w] is 8, 16, 32 or
    64.  The theorems relate each routine to its mathematical meaning
    ([Z.log2], the number of set bits, the cyclic shift of the bit string). *)

From stdpp Require Import prelude list numbers.
From Stdlib Require Import ZArith Lia.
From S2P Require Import Prelude BitList.

#[local] Open Scope Z_scope.

(** The widths for which the templates of bits.hpp are instantiated. *)
Definition digits_ok (w : Z) : Prop := w = 8 \/ w = 16 \/ w = 32 \/ w = 64.

Definition is_power_of2 (x : Z) : bool := negb (x =? 0) && (Z.land x (x - 1) =? 0).

Definition rotate_right (w x s : Z) : Z :=
  Z.lor (wrap w (Z.shiftr x (Z.land s (w - 1)))) (wrap w (Z.shiftl x (Z.land (- s) (w - 1)))).

Definition rotate_left (w x s : Z) : Z :=
  Z.lor (wrap w (Z.shiftl x (Z.land s (w - 1)))) (wrap w (Z.shiftr x (Z.land (- s) (w - 1)))).

Definition popcount32 (x0 : Z) : Z :=
  let x1 := wrap 32 (x0 - Z.land (Z.shiftr x0 1) 0x55555555) in
  let x2 := wrap 32 (Z.land (Z.shiftr x1 2) 0x33333333 + Z.land x1 0x33333333) in
  Z.shiftr (wrap 32 (Z.land (wrap 32 (x2 + Z.shiftr x2 4)) 0xF0F0F0F * 0x1010101)) 24.

Definition popcount64 (x0 : Z) : Z :=
  let x1 := wrap 64 (x0 - Z.land (Z.shiftr x0 1) 0x5555555555555555) in
  let x2 := wrap 64 (Z.land (Z.shiftr x1 2) 0x3333333333333333 + Z.land x1 0x3333333333333333) in
  Z.shiftr (wrap 64 (Z.land (wrap 64 (x2 + Z.shiftr x2 4)) 0xF0F0F0F0F0F0F0F * 0x101010101010101)) 56.

Definition popcount (w x : Z) : Z := if w <=? 32 then popcount32 x else popcount64 x.

(** The string literal of the fallback: fifteen characters and the terminating NUL. *)
Definition clz_table : list Z := [4; 3; 2; 2; 1; 1; 1; 1; 0; 0; 0; 0; 0; 0; 0; 0].
Definition clz_nibble (x : Z) : Z := nth (Z.to_nat x) clz_table 0.

(** One [if (x >> k) { zeroes -= k; x >>= k; }] step of the fallback. *)
Definition clz_step (k : Z) (st : Z * Z) : Z * Z :=
  let '(zeroes, x) := st in
  if negb (Z.shiftr x k =? 0) then (zeroes - k, Z.shiftr x k) else (zeroes, x).

Definition count_leading_zeroes32 (x : Z) : Z :=
  let '(zeroes, x) := clz_step 4 (clz_step 8 (clz_step 16 (28, x))) in
  clz_nibble x + zeroes.

Definition count_leading_zeroes16 (x : Z) : Z := count_leading_zeroes32 x - 16.

Definition count_leading_zeroes64 (x : Z) : Z :=
  let '(zeroes, x) := clz_step 4 (clz_step 8 (clz_step 16 (clz_step 32 (60, x)))) in
  clz_nibble x + zeroes.

Definition count_leading_zeroes (w x : Z) : Z :=
  if w <=? 16 then count_leading_zeroes16 (wrap 16 x) - (16 - w)
  else if w <=? 32 then count_leading_zeroes32 (wrap 32 x) - (32 - w)
  else count_leading_zeroes64 x.

(** One [if (x & mask) c -= k;] step. *)
Definition ctz_step (x mask k c : Z) : Z := if negb (Z.land x mask =? 0) then c - k else c.

Definition count_trailing_zeroes_nonzero32 (x0 : Z) : Z :=
  let x := Z.land x0 (wrap 32 (wrap 32 (Z.lnot x0) + 1)) in
  ctz_step x 0x55555555 1 (ctz_step x 0x33333333 2 (ctz_step x 0x0F0F0F0F 4
    (ctz_step x 0x00FF00FF 8 (ctz_step x 0x0000FFFF 16 31)))).

Definition count_trailing_zeroes_nonzero64 (x0 : Z) : Z :=
  let x := Z.land x0 (wrap 64 (wrap 64 (Z.lnot x0) + 1)) in
  ctz_step x 0x5555555555555555 1 (ctz_step x 0x3333333333333333 2 (ctz_step x 0x0F0F0F0F0F0F0F0F 4
    (ctz_step x 0x00FF00FF00FF00FF 8 (ctz_step x 0x0000FFFF0000FFFF 16
      (ctz_step x 0x00000000FFFFFFFF 32 63))))).

Definition count_trailing_zeroes_nonzero16 (x : Z) : Z := count_trailing_zeroes_nonzero32 x.

Definition count_trailing_zeroes (w x : Z) : Z :=
  if x =? 0 then w
  else if w <=? 16 then count_trailing_zeroes_nonzero16 (wrap 16 x)
  else if w <=? 32 then count_trailing_zeroes_nonzero32 (wrap 32 x)
  else count_trailing_zeroes_nonzero64 x.

Definition rotl := rotate_left.
Definition rotr := rotate_right.
Definition countl_zero (w x : Z) : Z := count_leading_zeroes w x.
Definition countl_one (w x : Z) : Z := countl_zero w (wrap w (Z.lnot x)).
Definition countr_zero (w x : Z) : Z := count_trailing_zeroes w x.
Definition countr_one (w x : Z) : Z := countr_zero w (wrap w (Z.lnot x)).

Definition has_single_bit (x : Z) : bool := negb (x =? 0) && (Z.land x (x - 1) =? 0).

(** [digits - static_cast<unsigned>(countl_zero(x))]: unsigned arithmetic, converted to [T]. *)
Definition bit_width (w x : Z) : Z := wrap w (wrap 32 (w - wrap 32 (countl_zero w x))).

(** [T{1} << n]: a type narrower than [int] is promoted to 32 bits before the shift. *)
Definition shl_T (w v n : Z) : run Z := shl (Z.max w 32) v n.

Definition bit_floor (w x : Z) : run Z :=
  if x =? 0 then Ret 0 else (do v <- shl_T w 1 (bit_width w x - 1); Ret (wrap w v))%cxx.

Definition bit_ceil_promotion_helper (w x promotion : Z) : run Z :=
  (do v <- shl_T w 1 (x + promotion); Ret (wrap w (Z.shiftr v promotion)))%cxx.

Definition bit_ceil_non_power_of2 (w x : Z) : run Z :=
  bit_ceil_promotion_helper w (wrap w (w - count_leading_zeroes w x)) (if 32 <=? w then 0 else 32 - w).

Definition bit_ceil (w x : Z) : run Z :=
  if has_single_bit x then (do v <- shl_T w 1 (bit_width w x - 1); Ret (wrap w v))%cxx
  else bit_ceil_non_power_of2 w x.

(** ** Specifications *)

(** Number of set bits of a bit string. *)
Definition ones (l : list bool) : Z := foldr (fun b n => Z.b2z b + n) 0 l.

(** Left rotation of the [w]-bit string of [x] by [s] positions. *)
Definition rotl_spec (w x s : Z) : Z :=
  let k := s mod w in (x * 2 ^ k) mod 2 ^ w + x / 2 ^ (w - k).

(** ** Leading zeros *)

Lemma shiftr_eq0 x k : 0 <= x -> 0 <= k -> Z.shiftr x k = 0 <-> x < 2 ^ k.
Proof.
  intros. rewrite Z.shiftr_div_pow2 by lia. pose proof (pow2_pos k ltac:(lia)). split; intros.
  - destruct (Z.lt_ge_cases x (2 ^ k)); [done|]. pose proof (Z.div_str_pos x (2 ^ k)). lia.
  - apply Z.div_small. lia.
Qed.

(** [clz_step] keeps [zeroes + log2 x] and halves the range of [x]. *)
Lemma clz_step_spec k n z x :
  0 <= k -> 0 < x < 2 ^ (n + k) -> k <= n ->
  let '(z', x') := clz_step k (z, x) in
  0 < x' < 2 ^ n /\ z' - Z.log2 x' = z - Z.log2 x.
Proof.
  intros Hk Hx Hn. unfold clz_step. case_test.
  - rewrite shiftr_eq0 in * by lia. assert (2 ^ k <= x) by lia.
    assert (k <= Z.log2 x) by (apply Z.log2_le_pow2; lia).
    rewrite Z.log2_shiftr by lia.
    assert (0 < Z.shiftr x k < 2 ^ n); [|lia].
    rewrite Z.shiftr_div_pow2 by lia. split.
    + apply Z.div_str_pos. split; [apply pow2_pos; lia|lia].
    + apply Z.div_lt_upper_bound; [apply pow2_pos; lia|]. rewrite <- Z.pow_add_r by lia.
      rewrite (Z.add_comm k n). lia.
  - rewrite shiftr_eq0 in * by lia. split; [|lia].
    pose proof (Z.pow_le_mono_r 2 k n). lia.
Qed.

Lemma clz_nibble_spec x : 0 < x < 16 -> clz_nibble x = 3 - Z.log2 x.
Proof.
  intros. assert (x = 1 \/ x = 2 \/ x = 3 \/ x = 4 \/ x = 5 \/ x = 6 \/ x = 7 \/ x = 8 \/ x = 9 \/
    x = 10 \/ x = 11 \/ x = 12 \/ x = 13 \/ x = 14 \/ x = 15) as K by lia.
  repeat (destruct K as [-> | K]; [reflexivity|]). by subst.
Qed.

Lemma clz32_spec x : 0 < x < 2 ^ 32 -> count_leading_zeroes32 x = 31 - Z.log2 x.
Proof.
  intros Hx. unfold count_leading_zeroes32.
  pose proof (clz_step_spec 16 16 28 x ltac:(lia) Hx ltac:(lia)) as H1.
  destruct (clz_step 16 _) as [z1 x1], H1 as [R1 E1].
  pose proof (clz_step_spec 8 8 z1 x1 ltac:(lia) R1 ltac:(lia)) as H2.
  destruct (clz_step 8 _) as [z2 x2], H2 as [R2 E2].
  pose proof (clz_step_spec 4 4 z2 x2 ltac:(lia) R2 ltac:(lia)) as H3.
  destruct (clz_step 4 _) as [z3 x3], H3 as [R3 E3].
  rewrite clz_nibble_spec by lia. lia.
Qed.

Lemma clz64_spec x : 0 < x < 2 ^ 64 -> count_leading_zeroes64 x = 63 - Z.log2 x.
Proof.
  intros Hx. unfold count_leading_zeroes64.
  pose proof (clz_step_spec 32 32 60 x ltac:(lia) Hx ltac:(lia)) as H0.
  destruct (clz_step 32 _) as [z0 x0], H0 as [R0 E0].
  pose proof (clz_step_spec 16 16 z0 x0 ltac:(lia) R0 ltac:(lia)) as H1.
  destruct (clz_step 16 _) as [z1 x1], H1 as [R1 E1].
  pose proof (clz_step_spec 8 8 z1 x1 ltac:(lia) R1 ltac:(lia)) as H2.
  destruct (clz_step 8 _) as [z2 x2], H2 as [R2 E2].
  pose proof (clz_step_spec 4 4 z2 x2 ltac:(lia) R2 ltac:(lia)) as H3.
  destruct (clz_step 4 _) as [z3 x3], H3 as [R3 E3].
  rewrite clz_nibble_spec by lia. lia.
Qed.

Lemma clz_0 w : digits_ok w -> count_leading_zeroes w 0 = w.
Proof. intros [->|[->|[->| ->]]]; reflexivity. Qed.

Lemma clz_spec w x : digits_ok w -> 0 < x < 2 ^ w -> count_leading_zeroes w x = w - 1 - Z.log2 x.
Proof.
  intros Hw Hx. unfold count_leading_zeroes, count_leading_zeroes16.
  assert (x < 2 ^ 16 \/ 16 < w) by (destruct Hw as [->|[->|[->| ->]]]; lia).
  assert (x < 2 ^ 32 \/ 32 < w) by (destruct Hw as [->|[->|[->| ->]]]; lia).
  repeat case_test.
  - unfold wrap. rewrite Z.mod_small, clz32_spec by lia. lia.
  - unfold wrap. rewrite Z.mod_small, clz32_spec by lia. lia.
  - rewrite clz64_spec; destruct Hw as [->|[->|[->| ->]]]; lia.
Qed.

Lemma log2_lt w x : 0 < x < 2 ^ w -> 0 <= Z.log2 x < w.
Proof. intros. split; [apply Z.log2_nonneg|]. apply Z.log2_lt_pow2; lia. Qed.

(** [bit_width] is one plus the integer logarithm, and 0 at 0. *)
Lemma bit_width_spec w x :
  digits_ok w -> 0 <= x < 2 ^ w -> bit_width w x = if x =? 0 then 0 else Z.log2 x + 1.
Proof.
  intros Hw Hx. unfold bit_width, countl_zero. case_test.
  - subst. rewrite clz_0 by done. destruct Hw as [->|[->|[->| ->]]]; reflexivity.
  - rewrite clz_spec by lia || done. pose proof (log2_lt w x ltac:(lia)).
    assert (w < 2 ^ w /\ w <= 64) by (destruct Hw as [->|[->|[->| ->]]]; lia).
    unfold wrap. rewrite (Z.mod_small (w - 1 - _)) by lia. rewrite !Z.mod_small by (rewrite ?Z.mod_small by lia; lia). lia.
Qed.

Lemma bit_width_bounds w x :
  digits_ok w -> 0 < x < 2 ^ w -> 1 <= bit_width w x <= w /\ 2 ^ (bit_width w x - 1) <= x < 2 ^ bit_width w x.
Proof.
  intros Hw Hx. rewrite bit_width_spec by (done || lia). case_test; [lia|].
  pose proof (log2_lt w x Hx). pose proof (Z.log2_spec x ltac:(lia)).
  rewrite Z.add_simpl_r. rewrite <- Z.add_1_r in *. lia.
Qed.

(** ** Trailing zeros *)

Lemma lowest_bit k m :
  0 <= k -> Z.land (2 ^ k * (2 * m + 1)) (- (2 ^ k * (2 * m + 1))) = 2 ^ k.
Proof.
  intros Hk. apply Z.bits_inj'. intros i Hi.
  rewrite Z.land_spec, Z.bits_opp by lia. rewrite Z.pow2_bits_eqb by lia.
  replace (Z.pred (2 ^ k * (2 * m + 1))) with ((2 * m) * 2 ^ k + Z.ones k)
    by (rewrite Z.ones_equiv; lia).
  rewrite (Z.mul_comm (2 ^ k)). rewrite Z.mul_pow2_bits by lia.
  rewrite <- lor_add, Z.lor_spec, Z.mul_pow2_bits by (rewrite ?Z.ones_equiv; pose proof (pow2_pos k); lia).
  destruct (Z.lt_trichotomy i k) as [H|[->|H]].
  - rewrite !(Z.testbit_neg_r _ (i - k)) by lia. destruct (Z.eqb_spec k i); [lia|done].
  - rewrite Z.sub_diag, Z.eqb_refl, Z.testbit_odd_0, Z.testbit_even_0, Z.ones_spec_high by lia. done.
  - rewrite Z.ones_spec_high by lia. destruct (Z.eqb_spec k i); [lia|].
    replace (i - k) with (Z.succ (i - k - 1)) by lia.
    rewrite Z.testbit_odd_succ, Z.testbit_even_succ by lia. rewrite orb_false_r. apply andb_negb_r.
Qed.

(** [x & (~x + 1)] at width [w] isolates the lowest set bit. *)
Lemma isolate_lowest w k m :
  0 <= k -> 0 <= m -> 2 ^ k * (2 * m + 1) < 2 ^ w ->
  let x := 2 ^ k * (2 * m + 1) in Z.land x (wrap w (wrap w (Z.lnot x) + 1)) = 2 ^ k.
Proof.
  intros Hk Hm Hx x. unfold wrap. pose proof (pow2_pos k Hk).
  assert (0 <= w) by (destruct (Z.le_gt_cases 0 w); [done|rewrite (Z.pow_neg_r 2 w) in Hx by lia; nia]).
  rewrite Z.add_mod_idemp_l by (apply Z.pow_nonzero; lia).
  replace (Z.lnot x + 1) with (- x) by (pose proof (Z.add_lnot_diag x); lia).
  rewrite <- Z.land_ones, Z.land_assoc by lia. subst x. rewrite lowest_bit by lia.
  rewrite Z.land_ones by lia. apply Z.mod_small. nia.
Qed.

Lemma ctz_masks32 k : 0 <= k < 32 ->
  ctz_step (2 ^ k) 0x55555555 1 (ctz_step (2 ^ k) 0x33333333 2 (ctz_step (2 ^ k) 0x0F0F0F0F 4
    (ctz_step (2 ^ k) 0x00FF00FF 8 (ctz_step (2 ^ k) 0x0000FFFF 16 31)))) = k.
Proof.
  intros. apply Z.eqb_eq. revert k H. apply (Z_range_check 32). reflexivity.
Qed.

Lemma ctz_masks64 k : 0 <= k < 64 ->
  ctz_step (2 ^ k) 0x5555555555555555 1 (ctz_step (2 ^ k) 0x3333333333333333 2
    (ctz_step (2 ^ k) 0x0F0F0F0F0F0F0F0F 4 (ctz_step (2 ^ k) 0x00FF00FF00FF00FF 8
      (ctz_step (2 ^ k) 0x0000FFFF0000FFFF 16 (ctz_step (2 ^ k) 0x00000000FFFFFFFF 32 63))))) = k.
Proof. intros. apply Z.eqb_eq. revert k H. apply (Z_range_check 64). reflexivity. Qed.

Lemma pow_factor_lt k m w : 0 <= k -> 0 <= m -> 2 ^ k * (2 * m + 1) < 2 ^ w -> k < w.
Proof.
  intros. pose proof (pow2_pos k). assert (2 ^ k < 2 ^ w) by nia.
  destruct (Z.lt_ge_cases k w) as [|C]; [done|]. pose proof (Z.pow_le_mono_r 2 w k). lia.
Qed.

Lemma ctz32_spec k m :
  0 <= k -> 0 <= m -> 2 ^ k * (2 * m + 1) < 2 ^ 32 ->
  count_trailing_zeroes_nonzero32 (2 ^ k * (2 * m + 1)) = k.
Proof.
  intros Hk Hm Hx. unfold count_trailing_zeroes_nonzero32. cbv zeta.
  rewrite isolate_lowest by done. apply ctz_masks32. pose proof (pow_factor_lt k m 32). lia.
Qed.

Lemma ctz64_spec k m :
  0 <= k -> 0 <= m -> 2 ^ k * (2 * m + 1) < 2 ^ 64 ->
  count_trailing_zeroes_nonzero64 (2 ^ k * (2 * m + 1)) = k.
Proof.
  intros Hk Hm Hx. unfold count_trailing_zeroes_nonzero64. cbv zeta.
  rewrite isolate_lowest by done. apply ctz_masks64. pose proof (pow_factor_lt k m 64). lia.
Qed.

(** [countr_zero] returns the exponent of the largest power of two dividing [x]. *)
Lemma countr_zero_spec w k m :
  digits_ok w -> 0 <= k -> 0 <= m -> 2 ^ k * (2 * m + 1) < 2 ^ w ->
  countr_zero w (2 ^ k * (2 * m + 1)) = k.
Proof.
  intros Hw Hk Hm Hx. unfold countr_zero, count_trailing_zeroes, count_trailing_zeroes_nonzero16.
  pose proof (pow2_pos k Hk). set (x := 2 ^ k * (2 * m + 1)) in *. assert (0 < x) by (subst x; nia).
  assert (x < 2 ^ 16 \/ 16 < w) by (destruct Hw as [->|[->|[->| ->]]]; lia).
  assert (x < 2 ^ 32 \/ 32 < w) by (destruct Hw as [->|[->|[->| ->]]]; lia).
  repeat case_test; try lia; unfold wrap; rewrite ?Z.mod_small by lia; subst x.
  - apply ctz32_spec; lia.
  - apply ctz32_spec; lia.
  - apply ctz64_spec; destruct Hw as [->|[->|[->| ->]]]; lia.
Qed.

(** ** Rotations *)

Lemma land_digits w s : digits_ok w -> Z.land s (w - 1) = s mod w.
Proof.
  intros [->|[->|[->| ->]]];
    [apply (land_ones_mod s 3)|apply (land_ones_mod s 4)|apply (land_ones_mod s 5)|apply (land_ones_mod s 6)]; lia.
Qed.

Lemma mod_opp_digits w s : 0 < w -> (- s) mod w = if s mod w =? 0 then 0 else w - s mod w.
Proof.
  intros. case_test; [apply Z.mod_opp_l_z; lia|apply Z.mod_opp_l_nz; lia].
Qed.

Lemma mul_pow_mod x k w : 0 <= k <= w -> (x * 2 ^ k) mod 2 ^ w = (x mod 2 ^ (w - k)) * 2 ^ k.
Proof.
  intros. replace w with ((w - k) + k) at 1 by lia. rewrite Z.pow_add_r by lia.
  apply Z.mul_mod_distr_r; apply Z.pow_nonzero; lia.
Qed.

Lemma rotate_left_spec w x s :
  digits_ok w -> 0 <= x < 2 ^ w -> rotate_left w x s = rotl_spec w x s.
Proof.
  intros Hw Hx. assert (0 < w) by (destruct Hw as [->|[->|[->| ->]]]; lia).
  unfold rotate_left, rotl_spec, wrap. rewrite !land_digits, mod_opp_digits by (done || lia).
  pose proof (Z.mod_pos_bound s w ltac:(lia)). set (k := s mod w) in *. clearbody k.
  rewrite Z.shiftl_mul_pow2 by lia. case_test.
  - subst k. rewrite Z.shiftr_0_r, Z.pow_0_r, Z.mul_1_r, Z.sub_0_r.
    rewrite (Z.mod_small x), Z.lor_diag, Z.div_small by lia. lia.
  - rewrite Z.shiftr_div_pow2 by lia. pose proof (pow2_pos k ltac:(lia)).
    pose proof (pow2_pos (w - k) ltac:(lia)).
    assert (0 <= x / 2 ^ (w - k) < 2 ^ k).
    { split; [apply Z.div_pos; lia|]. apply Z.div_lt_upper_bound; [lia|].
      rewrite <- Z.pow_add_r by lia. by replace (w - k + k) with w by lia; lia. }
    rewrite (Z.mod_small (x / _)); [|pose proof (Z.pow_le_mono_r 2 k w); lia].
    rewrite mul_pow_mod by lia. apply lor_add; lia.
Qed.

Lemma rotate_right_left w x s : rotate_right w x s = rotate_left w x (- s).
Proof. unfold rotate_right, rotate_left. rewrite Z.opp_involutive. apply Z.lor_comm. Qed.

Lemma rotl_spec_parts w x k :
  0 <= x < 2 ^ w -> 0 <= k < w ->
  exists hi lo, x = hi * 2 ^ (w - k) + lo /\ 0 <= hi < 2 ^ k /\ 0 <= lo < 2 ^ (w - k) /\
    (x * 2 ^ k) mod 2 ^ w + x / 2 ^ (w - k) = lo * 2 ^ k + hi.
Proof.
  intros Hx Hk. pose proof (pow2_pos (w - k) ltac:(lia)).
  exists (x / 2 ^ (w - k)), (x mod 2 ^ (w - k)).
  pose proof (Z.div_mod x (2 ^ (w - k))). pose proof (Z.mod_pos_bound x (2 ^ (w - k))).
  rewrite mul_pow_mod by lia. repeat split; try lia.
  - apply Z.div_pos; lia.
  - apply Z.div_lt_upper_bound; [lia|]. rewrite <- Z.pow_add_r by lia. by replace (w - k + k) with w by lia; lia.
Qed.

Lemma rotl_spec_range w x s : 0 < w -> 0 <= x < 2 ^ w -> 0 <= rotl_spec w x s < 2 ^ w.
Proof.
  intros Hw Hx. unfold rotl_spec. pose proof (Z.mod_pos_bound s w Hw) as Hk.
  destruct (rotl_spec_parts w x (s mod w) Hx Hk) as (hi & lo & _ & Hhi & Hlo & ->).
  split; [pose proof (pow2_pos (s mod w)); nia|].
  assert (2 ^ w = 2 ^ (w - s mod w) * 2 ^ (s mod w)) as ->; [|nia].
  rewrite <- Z.pow_add_r by lia. f_equal. lia.
Qed.

Lemma rotl_spec_inv w x s : 0 < w -> 0 <= x < 2 ^ w -> rotl_spec w (rotl_spec w x s) (- s) = x.
Proof.
  intros Hw Hx. unfold rotl_spec at 1. rewrite mod_opp_digits by done.
  pose proof (rotl_spec_range w x s Hw Hx) as HR. pose proof (Z.mod_pos_bound s w Hw) as Hk. case_test.
  - rewrite Z.pow_0_r, Z.mul_1_r, Z.sub_0_r, (Z.mod_small (rotl_spec _ _ _)), Z.div_small by done.
    unfold rotl_spec. rewrite Heqb, Z.pow_0_r, Z.mul_1_r, Z.sub_0_r, Z.mod_small, Z.div_small by done. lia.
  - unfold rotl_spec in *. destruct (rotl_spec_parts w x (s mod w) Hx Hk) as (hi & lo & Ex & Hhi & Hlo & E).
    rewrite E in *. clear E. set (k := s mod w) in *. clearbody k.
    rewrite mul_pow_mod by lia. replace (w - (w - k)) with k by lia.
    rewrite Z.add_comm, (Z.div_add_l lo), (Z.div_small hi) by lia.
    rewrite (Z.add_comm (lo * _)), Z.mod_add, Z.mod_small by lia. lia.
Qed.

(** ** Population count: the byte-sliced view of the SWAR steps *)

(** Little-endian combination of bytes, and the bytes of a number. *)
Fixpoint lec (l : list Z) : Z := match l with [] => 0 | b :: l => b + 256 * lec l end.
Fixpoint les (n : nat) (x : Z) : list Z :=
  match n with O => [] | S n => x mod 256 :: les n (x / 256) end.

Lemma lec_les n x : 0 <= x < 256 ^ Z.of_nat n -> lec (les n x) = x.
Proof.
  revert x. induction n as [|n IH]; intros x Hx; [simpl in *; lia|].
  cbn [les lec]. rewrite IH.
  - pose proof (Z.div_mod x 256). lia.
  - replace (Z.of_nat (S n)) with (1 + Z.of_nat n) in Hx by lia. rewrite Z.pow_add_r in Hx by lia.
    split; [apply Z.div_pos; lia|]. apply Z.div_lt_upper_bound; lia.
Qed.

Lemma les_bytes n x : Forall (is_u 8) (les n x).
Proof. revert x. induction n; intros; constructor; [apply Z.mod_pos_bound; lia|done]. Qed.

Lemma length_les n x : length (les n x) = n.
Proof. revert x; induction n; intros; simpl; auto. Qed.

Lemma lec_range l : Forall (is_u 8) l -> 0 <= lec l < 256 ^ Z.of_nat (length l).
Proof.
  induction 1 as [|b l Hb _ IH]; [simpl; lia|]. cbn [lec length]. unfold is_u in Hb.
  replace (Z.of_nat (S (length l))) with (1 + Z.of_nat (length l)) by lia. rewrite Z.pow_add_r by lia. lia.
Qed.

(** A mask that keeps no bit crossing a byte boundary acts byte by byte. *)
Lemma land_shift_bytes k b r m M :
  0 <= k <= 8 -> 0 <= b < 256 -> 0 <= m < 2 ^ (8 - k) ->
  Z.land (Z.shiftr (b + 256 * r) k) (m + 256 * M)
  = Z.land (Z.shiftr b k) m + 256 * Z.land (Z.shiftr r k) M.
Proof.
  intros Hk Hb Hm. assert (m < 256) by (pose proof (Z.pow_le_mono_r 2 (8 - k) 8); lia).
  assert (0 <= Z.land (Z.shiftr b k) m < 256) as R.
  { split; [apply Z.land_nonneg; lia|].
    rewrite <- (Z.mod_small m (2 ^ 8)), <- (Z.land_ones m 8), Z.land_assoc, Z.land_ones by lia.
    apply Z.mod_pos_bound. lia. }
  apply Z.bits_inj'. intros i Hi.
  rewrite (Z.add_comm b), (Z.add_comm m), (Z.add_comm (Z.land _ m)), !(Z.mul_comm 256).
  change 256 with (2 ^ 8) in *. rewrite <- !lor_add by lia.
  rewrite Z.land_spec, Z.shiftr_spec, !Z.lor_spec, !Z.mul_pow2_bits, !Z.land_spec, (Z.shiftr_spec b) by lia.
  destruct (Z.lt_ge_cases i 8).
  - rewrite !(Z.testbit_neg_r _ (i - 8)), !andb_false_r by lia. rewrite !orb_false_l.
    destruct (Z.lt_ge_cases i (8 - k)).
    + rewrite (Z.testbit_neg_r _ (i + k - 8)) by lia. done.
    + rewrite <- (Z.mod_small m (2 ^ (8 - k))), Z.mod_pow2_bits_high by lia. by rewrite !andb_false_r.
  - rewrite <- (Z.mod_small m (2 ^ 8)), (Z.mod_pow2_bits_high m) by lia.
    rewrite <- (Z.mod_small b (2 ^ 8)), (Z.mod_pow2_bits_high b) by lia.
    rewrite andb_false_r, !orb_false_r, Z.shiftr_spec by lia. do 2 f_equal. lia.
Qed.

Lemma land_bytes b r m M : 0 <= b < 256 -> 0 <= m < 256 ->
  Z.land (b + 256 * r) (m + 256 * M) = Z.land b m + 256 * Z.land r M.
Proof. intros. pose proof (land_shift_bytes 0 b r m M). rewrite !Z.shiftr_0_r in *. auto with lia. Qed.

Definition swar1 (b : Z) : Z := b - Z.land (Z.shiftr b 1) 0x55.
Definition swar2 (b : Z) : Z := Z.land (Z.shiftr b 2) 0x33 + Z.land b 0x33.
Definition swar3 (b : Z) : Z := Z.land (b + Z.shiftr b 4) 15.
Definition rep (l : list Z) (m : Z) : Z := lec (replicate (length l) m).

Lemma swar1_bytes l : Forall (is_u 8) l ->
  lec l - Z.land (Z.shiftr (lec l) 1) (rep l 0x55) = lec (swar1 <$> l).
Proof.
  unfold rep. induction 1 as [|b l Hb _ IH]; [reflexivity|]. cbn [lec length replicate fmap list_fmap].
  rewrite land_shift_bytes by (unfold is_u in Hb; lia). unfold swar1 at 1. lia.
Qed.

Lemma swar2_bytes l : Forall (is_u 8) l ->
  Z.land (Z.shiftr (lec l) 2) (rep l 0x33) + Z.land (lec l) (rep l 0x33) = lec (swar2 <$> l).
Proof.
  unfold rep. induction 1 as [|b l Hb _ IH]; [reflexivity|]. cbn [lec length replicate fmap list_fmap].
  unfold is_u in Hb. rewrite land_shift_bytes, land_bytes by lia. unfold swar2 at 1. lia.
Qed.

(** Both nibbles of every byte are at most 4: no carry leaves a byte in step three. *)
Definition nibbles_le4 (b : Z) : Prop := 0 <= b / 16 <= 4 /\ b mod 16 <= 4.

Lemma swar3_bytes l : Forall nibbles_le4 l ->
  Z.land (lec l + Z.shiftr (lec l) 4) (rep l 15) = lec (swar3 <$> l).
Proof.
  unfold rep. induction 1 as [|b l Hb Hl IH]; [reflexivity|]. cbn [lec length replicate fmap list_fmap].
  assert (lec l mod 16 <= 4) as Hr.
  { destruct Hl as [|b' l' [_ Hb'] _]; [by vm_compute|]. cbn [lec].
    replace (b' + 256 * lec l') with (b' + (16 * lec l') * 16) by lia. by rewrite Z.mod_add. }
  rewrite <- IH. destruct Hb as [Hb1 Hb2].
  rewrite !Z.shiftr_div_pow2 by lia. change (2 ^ 4) with 16.
  pose proof (Z.div_mod b 16). pose proof (Z.div_mod (lec l) 16).
  pose proof (Z.mod_pos_bound b 16). pose proof (Z.mod_pos_bound (lec l) 16).
  replace (b + 256 * lec l + (b + 256 * lec l) / 16)
    with ((b + b / 16 + 16 * (lec l mod 16)) + 256 * (lec l + lec l / 16))
    by (replace (b + 256 * lec l) with (b + (16 * lec l) * 16) by lia; rewrite Z.div_add by lia; lia).
  rewrite land_bytes by lia. f_equal.
  unfold swar3. rewrite Z.shiftr_div_pow2 by lia. change 15 with (2 ^ 4 - 1). rewrite !land_ones_mod by lia.
  change (2 ^ 4) with 16. rewrite (Z.mul_comm 16 (_ mod _)). apply Z.mod_add. lia.
Qed.

Lemma swar_byte b : 0 <= b < 256 ->
  is_u 8 (swar1 b) /\ nibbles_le4 (swar2 (swar1 b)) /\ swar3 (swar2 (swar1 b)) = ones (bits_of 8 b) /\
  0 <= ones (bits_of 8 b) <= 8.
Proof.
  intros Hb. pose (P b := (0 <=? swar1 b) && (swar1 b <? 256) && ((0 <=? swar2 (swar1 b) / 16) &&
    (swar2 (swar1 b) / 16 <=? 4) && (swar2 (swar1 b) mod 16 <=? 4)) &&
    (swar3 (swar2 (swar1 b)) =? ones (bits_of 8 b)) && ((0 <=? ones (bits_of 8 b)) && (ones (bits_of 8 b) <=? 8))).
  assert (P b = true) as K by (revert b Hb; apply (Z_range_check 256); vm_compute; reflexivity).
  unfold P in K. zbool. unfold is_u, nibbles_le4. change (2 ^ 8) with 256. lia.
Qed.

Lemma ones_app l1 l2 : ones (l1 ++ l2) = ones l1 + ones l2.
Proof. unfold ones. induction l1; cbn [app foldr]; lia. Qed.

Definition sum_ones (l : list Z) : Z := foldr Z.add 0 ((fun b => ones (bits_of 8 b)) <$> l).

Lemma ones_lec l : Forall (is_u 8) l -> ones (bits_of (8 * length l) (lec l)) = sum_ones l.
Proof.
  unfold sum_ones. induction 1 as [|b l Hb _ IH]; [reflexivity|]. cbn [lec length fmap list_fmap foldr].
  replace (8 * S (length l))%nat with (8 * length l + 8)%nat by lia.
  replace (b + 256 * lec l) with (lec l * 2 ^ Z.of_nat 8 + b) by (change (2 ^ Z.of_nat 8) with 256; lia).
  rewrite <- bits_of_concat by done. rewrite ones_app, IH. lia.
Qed.

Lemma swar_forall l : Forall (is_u 8) l ->
  Forall (is_u 8) (swar1 <$> l) /\ Forall nibbles_le4 (swar2 <$> (swar1 <$> l)) /\
  (swar3 <$> (swar2 <$> (swar1 <$> l))) = (fun b => ones (bits_of 8 b)) <$> l /\
  Forall (fun b => 0 <= ones (bits_of 8 b) <= 8) l.
Proof.
  induction 1 as [|b l Hb _ (H1 & H2 & H3 & H4)]; [repeat constructor|].
  destruct (swar_byte b Hb) as (? & ? & ? & ?). cbn. repeat split; try constructor; auto; by f_equal.
Qed.

(** Bytes of a [w]-bit number: every SWAR intermediate stays below [2^w]. *)
Lemma lec_fmap_range (f : Z -> Z) l n :
  length l = n -> Forall (is_u 8) (f <$> l) -> 0 <= lec (f <$> l) < 2 ^ (8 * Z.of_nat n).
Proof.
  intros Hn H. pose proof (lec_range _ H) as R. rewrite length_fmap, Hn in R.
  rewrite Z.pow_mul_r by lia. exact R.
Qed.

Lemma nibbles_u8 b : nibbles_le4 b -> is_u 8 b /\ is_u 8 (b + Z.shiftr b 4).
Proof.
  unfold nibbles_le4, is_u. intros. rewrite Z.shiftr_div_pow2 by lia. change (2 ^ 4) with 16. change (2 ^ 8) with 256.
  pose proof (Z.div_mod b 16). pose proof (Z.mod_pos_bound b 16). lia.
Qed.

(** [x + (x >> 4)] does not overflow either. *)
Lemma swar3_no_overflow l n :
  length l = n -> Forall nibbles_le4 l -> 0 <= lec l + Z.shiftr (lec l) 4 < 2 ^ (8 * Z.of_nat n).
Proof.
  intros Hn H. assert (17 * lec l <= 16 * (256 ^ Z.of_nat n - 1) /\ 0 <= lec l) as [K K'].
  { rewrite <- Hn. clear Hn n. induction H as [|b l [Hb1 Hb2] _ IH]; [cbn; lia|]. cbn [lec length].
    pose proof (Z.div_mod b 16). pose proof (Z.mod_pos_bound b 16).
    replace (Z.of_nat (S (length l))) with (1 + Z.of_nat (length l)) by lia. rewrite Z.pow_add_r by lia. lia. }
  rewrite Z.pow_mul_r by lia. change (2 ^ 8) with 256. rewrite Z.shiftr_div_pow2 by lia. change (2 ^ 4) with 16.
  pose proof (Z.div_mod (lec l) 16). pose proof (Z.mod_pos_bound (lec l) 16). lia.
Qed.

(** The three SWAR steps at width [8 * n] compute, in every byte, that byte's bit count. *)
Lemma swar_steps n l :
  length l = n -> Forall (is_u 8) l ->
  let w := 8 * Z.of_nat n in
  let x1 := wrap w (lec l - Z.land (Z.shiftr (lec l) 1) (rep l 0x55)) in
  let x2 := wrap w (Z.land (Z.shiftr x1 2) (rep l 0x33) + Z.land x1 (rep l 0x33)) in
  Z.land (wrap w (x2 + Z.shiftr x2 4)) (rep l 15) = lec ((fun b => ones (bits_of 8 b)) <$> l).
Proof.
  intros Hlen Hl w x1 x2. destruct (swar_forall l Hl) as (H1 & H2 & H3 & _).
  assert (x1 = lec (swar1 <$> l)) as E1.
  { subst x1. rewrite swar1_bytes by done. apply wrap_small. by apply lec_fmap_range. }
  assert (x2 = lec (swar2 <$> (swar1 <$> l))) as E2.
  { subst x2. rewrite E1. pose proof (swar2_bytes _ H1) as E. unfold rep in *. rewrite length_fmap in E. rewrite E.
    apply wrap_small. apply lec_fmap_range; [by rewrite length_fmap|].
    eapply Forall_impl; [|exact H2]. intros; by apply nibbles_u8. }
  rewrite E2. unfold wrap. rewrite Z.mod_small by (apply swar3_no_overflow; [by rewrite !length_fmap|done]).
  pose proof (swar3_bytes _ H2) as E. unfold rep in *. rewrite !length_fmap in E. by rewrite E, H3.
Qed.

Lemma popcount32_spec x : 0 <= x < 2 ^ 32 -> popcount32 x = ones (bits_of 32 x).
Proof.
  intros Hx. rewrite <- (lec_les 4 x) by (cbn; lia).
  pose proof (les_bytes 4 x) as Hl. pose proof (length_les 4 x) as Hlen.
  revert Hl Hlen. generalize (les 4 x) as l. clear x Hx. intros l Hl Hlen.
  change 32%nat with (8 * 4)%nat. pose proof (swar_steps 4 l Hlen Hl) as E. cbv zeta in E.
  pose proof (ones_lec l Hl) as O. destruct (swar_forall l Hl) as (_ & _ & _ & H4). unfold rep in E.
  rewrite Hlen in E, O. rewrite O. unfold popcount32. cbv zeta.
  change (lec (replicate 4 85)) with 0x55555555 in E. change (lec (replicate 4 51)) with 0x33333333 in E.
  change (lec (replicate 4 15)) with 0x0F0F0F0F in E. change (8 * Z.of_nat 4) with 32 in E.
  rewrite E. unfold sum_ones.
  destruct l as [|a [|b [|c [|d [|]]]]]; try discriminate Hlen. repeat (apply Forall_cons_1 in H4 as [? H4]). cbv beta in *. cbn [fmap list_fmap lec foldr].
  set (n0 := ones (bits_of 8 a)) in *.
  set (n1 := ones (bits_of 8 b)) in *.
  set (n2 := ones (bits_of 8 c)) in *.
  set (n3 := ones (bits_of 8 d)) in *.
  unfold wrap. rewrite Z.shiftr_div_pow2 by lia.
  set (low := 65793 * n0 + 65792 * n1 + 65536 * n2).
  set (total := n0 + n1 + n2 + n3).
  replace (_ mod 2 ^ 32) with (total * 2 ^ 24 + low)
    by (apply (Z.mod_unique_pos _ _ (1 * n1 + 257 * n2 + 65793 * n3)); subst total low; lia).
  rewrite Z.add_comm, Z.div_add, Z.div_small by (subst low; lia). subst total; lia.
Qed.

Lemma popcount64_spec x : 0 <= x < 2 ^ 64 -> popcount64 x = ones (bits_of 64 x).
Proof.
  intros Hx. rewrite <- (lec_les 8 x) by (cbn; lia).
  pose proof (les_bytes 8 x) as Hl. pose proof (length_les 8 x) as Hlen.
  revert Hl Hlen. generalize (les 8 x) as l. clear x Hx. intros l Hl Hlen.
  change 64%nat with (8 * 8)%nat. pose proof (swar_steps 8 l Hlen Hl) as E. cbv zeta in E.
  pose proof (ones_lec l Hl) as O. destruct (swar_forall l Hl) as (_ & _ & _ & H4). unfold rep in E.
  rewrite Hlen in E, O. rewrite O. unfold popcount64. cbv zeta.
  change (lec (replicate 8 85)) with 0x5555555555555555 in E. change (lec (replicate 8 51)) with 0x3333333333333333 in E.
  change (lec (replicate 8 15)) with 0x0F0F0F0F0F0F0F0F in E. change (8 * Z.of_nat 8) with 64 in E.
  rewrite E. unfold sum_ones.
  destruct l as [|a [|b [|c [|d [|e [|f [|g [|h [|]]]]]]]]]; try discriminate Hlen. repeat (apply Forall_cons_1 in H4 as [? H4]). cbv beta in *. cbn [fmap list_fmap lec foldr].
  set (n0 := ones (bits_of 8 a)) in *.
  set (n1 := ones (bits_of 8 b)) in *.
  set (n2 := ones (bits_of 8 c)) in *.
  set (n3 := ones (bits_of 8 d)) in *.
  set (n4 := ones (bits_of 8 e)) in *.
  set (n5 := ones (bits_of 8 f)) in *.
  set (n6 := ones (bits_of 8 g)) in *.
  set (n7 := ones (bits_of 8 h)) in *.
  unfold wrap. rewrite Z.shiftr_div_pow2 by lia.
  set (low := 282578800148737 * n0 + 282578800148736 * n1 + 282578800148480 * n2 + 282578800082944 * n3 + 282578783305728 * n4 + 282574488338432 * n5 + 281474976710656 * n6).
  set (total := n0 + n1 + n2 + n3 + n4 + n5 + n6 + n7).
  replace (_ mod 2 ^ 64) with (total * 2 ^ 56 + low)
    by (apply (Z.mod_unique_pos _ _ (1 * n1 + 257 * n2 + 65793 * n3 + 16843009 * n4 + 4311810305 * n5 + 1103823438081 * n6 + 282578800148737 * n7)); subst total low; lia).
  rewrite Z.add_comm, Z.div_add, Z.div_small by (subst low; lia). subst total; lia.
Qed.

(** ** Powers of two *)

Lemma has_single_bit_spec x : 0 <= x -> has_single_bit x = true <-> exists k, 0 <= k /\ x = 2 ^ k.
Proof.
  intros Hx. unfold has_single_bit. split.
  - intros H. zbool. exists (Z.log2 x). split; [apply Z.log2_nonneg|].
    destruct (Z.log2_spec x ltac:(lia)) as [L U]. destruct (Z.eq_dec x (2 ^ Z.log2 x)) as [|N]; [done|].
    pose proof (pow2_pos (Z.log2 x) (Z.log2_nonneg x)).
    exfalso. assert (Z.testbit (Z.land x (x - 1)) (Z.log2 x) = true) as B.
    { rewrite Z.land_spec, Z.bit_log2 by lia. rewrite <- (Z.log2_unique (x - 1) (Z.log2 x)).
      - apply Z.bit_log2. lia.
      - apply Z.log2_nonneg.
      - lia. }
    match goal with E : Z.land x _ = 0 |- _ => rewrite E, Z.bits_0 in B end. discriminate.
  - intros (k & Hk & ->). pose proof (pow2_pos k Hk). apply andb_true_iff. split.
    + apply negb_true_iff, Z.eqb_neq. lia.
    + apply Z.eqb_eq. rewrite land_ones_mod by done. apply Z.mod_same. lia.
Qed.

Lemma shl_T_one w n : digits_ok w -> 0 <= n < w -> shl_T w 1 n = Ret (2 ^ n).
Proof.
  intros Hw Hn. unfold shl_T, shl. rewrite andb_true_intro by (split; [apply Z.leb_le|apply Z.ltb_lt]; lia).
  rewrite Z.shiftl_1_l, wrap_small; [done|]. split; [apply Z.pow_nonneg; lia|]. apply Z.pow_lt_mono_r; lia.
Qed.

Lemma bit_floor_spec w x : digits_ok w -> 0 < x < 2 ^ w -> bit_floor w x = Ret (2 ^ Z.log2 x).
Proof.
  intros Hw Hx. unfold bit_floor. case_test; [lia|]. rewrite bit_width_spec by (done || lia).
  case_test; [lia|]. pose proof (log2_lt w x Hx). rewrite Z.add_simpl_r, shl_T_one by (done || lia).
  cbn. rewrite wrap_small; [done|]. split; [apply Z.pow_nonneg; lia|]. apply Z.pow_lt_mono_r; lia.
Qed.

Lemma shift_down_pow2 k p : 0 <= k -> 0 <= p -> Z.shiftr (2 ^ (k + p)) p = 2 ^ k.
Proof.
  intros. rewrite Z.shiftr_div_pow2, Z.pow_add_r by lia. apply Z.div_mul. apply Z.pow_nonzero; lia.
Qed.

Lemma promotion_helper_spec w k :
  digits_ok w -> 0 <= k < w -> bit_ceil_promotion_helper w k (if 32 <=? w then 0 else 32 - w) = Ret (2 ^ k).
Proof.
  intros Hw Hk. unfold bit_ceil_promotion_helper.
  assert (0 <= 2 ^ k < 2 ^ w) by (split; [apply Z.pow_nonneg; lia|apply Z.pow_lt_mono_r; lia]).
  unfold shl_T, shl. destruct (32 <=? w) eqn:E; zbool; [rewrite Z.add_0_r|];
    (rewrite andb_true_intro by (split; [apply Z.leb_le|apply Z.ltb_lt]; lia));
    cbn [run_bind]; rewrite Z.shiftl_1_l; rewrite (wrap_small (Z.max w 32)) by
      (split; [apply Z.pow_nonneg; lia|apply Z.pow_lt_mono_r; lia]).
  - by rewrite Z.shiftr_0_r, wrap_small.
  - rewrite shift_down_pow2 by lia. by rewrite wrap_small.
Qed.

Lemma bit_ceil_eval w x :
  digits_ok w -> 0 <= x <= 2 ^ (w - 1) ->
  bit_ceil w x = Ret (2 ^ (if has_single_bit x then Z.log2 x else if x =? 0 then 0 else Z.log2 x + 1)).
Proof.
  intros Hw Hx. assert (0 < w) by (destruct Hw as [->|[->|[->| ->]]]; lia).
  assert (2 ^ (w - 1) < 2 ^ w) by (apply Z.pow_lt_mono_r; lia).
  unfold bit_ceil. destruct (has_single_bit x) eqn:E.
  - assert (0 < x) by (unfold has_single_bit in E; zbool; lia).
    rewrite bit_width_spec by (done || lia). case_test; [lia|].
    pose proof (log2_lt w x ltac:(lia)). rewrite Z.add_simpl_r, shl_T_one by (done || lia). cbn [run_bind].
    rewrite wrap_small; [done|]. split; [apply Z.pow_nonneg; lia|apply Z.pow_lt_mono_r; lia].
  - unfold bit_ceil_non_power_of2. assert (w < 2 ^ w) by (apply Z.pow_gt_lin_r; lia).
    destruct (Z.eqb_spec x 0).
    + subst x. rewrite clz_0 by done. rewrite Z.sub_diag. apply promotion_helper_spec; done || lia.
    + assert (Z.log2 x < w - 1).
      { apply Z.log2_lt_pow2; [lia|]. destruct (Z.eq_dec x (2 ^ (w - 1))) as [X|]; [|lia].
        assert (has_single_bit x = true); [|congruence]. apply has_single_bit_spec; [lia|].
        exists (w - 1). lia. }
      pose proof (Z.log2_nonneg x).
      rewrite clz_spec by (done || lia). replace (w - (w - 1 - Z.log2 x)) with (Z.log2 x + 1) by lia.
      rewrite wrap_small by lia. apply promotion_helper_spec; done || lia.
Qed.

(** ** Properties *)

(** Rotating right undoes rotating left, for every unsigned width and every [int]
    count: zero, negative or beyond the width. *)
Theorem rotr_rotl w x s :
  digits_ok w -> 0 <= x < 2 ^ w -> rotr w (rotl w x s) s = x.
Proof.
  intros Hw Hx. unfold rotr, rotl. assert (0 < w) by (destruct Hw as [->|[->|[->| ->]]]; lia).
  assert (0 <= rotate_left w x s < 2 ^ w) as R by (rewrite rotate_left_spec by done; by apply rotl_spec_range).
  rewrite rotate_right_left. rewrite (rotate_left_spec w (rotate_left w x s)) by done.
  rewrite rotate_left_spec by done. apply rotl_spec_inv; done.
Qed.

Lemma rotr_rotl_witness : rotr 32 (rotl 32 0xdeadbeef (-7)) (-7) = 0xdeadbeef.
Proof. apply (rotr_rotl 32 0xdeadbeef (-7)); [right; right; left; reflexivity|lia]. Defined.

(** The branch-free population count equals the number of set bits of the value,
    at every width ([popcount32] for types up to 32 bits, [popcount64] above). *)
Theorem popcount_correct w x :
  digits_ok w -> 0 <= x < 2 ^ w -> popcount w x = ones (bits_of (Z.to_nat w) x).
Proof.
  intros Hw Hx. unfold popcount. case_test.
  - rewrite popcount32_spec by (pose proof (Z.pow_le_mono_r 2 w 32); lia).
    replace 32%nat with ((32 - Z.to_nat w) + Z.to_nat w)%nat by lia.
    assert (0 < w) by (destruct Hw as [->|[->|[->| ->]]]; lia).
    rewrite bits_of_app, Z2Nat.id, Z.div_small, bits_of_zero, ones_app by lia.
    replace (ones (replicate _ false)) with 0; [done|].
    generalize (32 - Z.to_nat w)%nat. intros n. unfold ones. induction n; simpl; lia.
  - destruct Hw as [->|[->|[->| ->]]]; try lia. by apply popcount64_spec.
Qed.

Lemma popcount_correct_witness : popcount 16 0xf0f1 = ones (bits_of (Z.to_nat 16) 0xf0f1).
Proof. apply (popcount_correct 16 0xf0f1); [right; left; reflexivity|lia]. Defined.

(** [bit_ceil] returns the least power of two not below its argument whenever that
    power is representable in the type, without undefined shifts. *)
Theorem bit_ceil_least w x :
  digits_ok w -> 0 <= x <= 2 ^ (w - 1) ->
  exists k, bit_ceil w x = Ret (2 ^ k) /\ 0 <= k < w /\ x <= 2 ^ k /\
            forall j, 0 <= j -> x <= 2 ^ j -> k <= j.
Proof.
  intros Hw Hx. assert (0 < w) by (destruct Hw as [->|[->|[->| ->]]]; lia). eexists.
  split; [by apply bit_ceil_eval|]. destruct (has_single_bit x) eqn:E; [|case_test].
  - apply has_single_bit_spec in E as (k & Hk & ->); [|lia]. rewrite Z.log2_pow2 by lia.
    assert (k <= w - 1) by (apply (Z.pow_le_mono_r_iff 2); lia). repeat split; try lia.
    intros j Hj HH. apply (Z.pow_le_mono_r_iff 2); lia.
  - subst. repeat split; lia.
  - destruct (Z.log2_spec x ltac:(lia)) as [L U]. rewrite <- Z.add_1_r in U.
    assert (x <> 2 ^ Z.log2 x) as N.
    { intros X. assert (has_single_bit x = true); [|congruence]. apply has_single_bit_spec; [lia|].
      exists (Z.log2 x). split; [apply Z.log2_nonneg|done]. }
    pose proof (Z.log2_nonneg x).
    assert (forall j, 0 <= j -> x <= 2 ^ j -> Z.log2 x + 1 <= j) as M.
    { intros j Hj HH. assert (Z.log2 x < j); [|lia]. apply (Z.pow_lt_mono_r_iff 2); lia. }
    pose proof (M (w - 1)). repeat split; try lia. exact M.
Qed.

Lemma bit_ceil_least_witness :
  exists k, bit_ceil 8 77 = Ret (2 ^ k) /\ 0 <= k < 8 /\ 77 <= 2 ^ k /\
            forall j, 0 <= j -> 77 <= 2 ^ j -> k <= j.
Proof. apply (bit_ceil_least 8 77); [left; reflexivity|lia]. Defined.
