(* ===== verification/BitBuffer.v ===== *)
(** * text/bit_buffer: bit-level reader and writer

    Models [cxxkit/text/bit_buffer.cpp].  [Reader] holds [BitBufferReader]: the
    pointer [mBytes] is the list of the bytes from the pointer to the end of the
    view, so a dereference past the end is [Undef] and [++mBytes] is [tail].
    [Writer] holds [BitBufferWriter]: the whole buffer and the two offsets.
    Debug-only state ([mLastReadIsVerified]) and the [CXXKIT_DCHECK]s, which
    compile to nothing in release builds, are not part of the model; the checks
    are hypotheses of the theorems.

    The specification side views a buffer as the list of its bits
    ([BitList.buf_bits]): reading [n] bits takes the first [n] unread bits,
    writing replaces [n] bits at the current position and nothing else. *)

From stdpp Require Import prelude list numbers.
From Stdlib Require Import ZArith Lia.
From S2P Require Import Prelude BitList Bits.

#[local] Open Scope Z_scope.
#[local] Open Scope cxx_scope.

(** ** BitBufferReader *)
Module Reader.

Record BitBufferReader := mkReader { mBytes : list Z; mRemainingBits : Z }.

(** The constructor from an [ArrayView]; [checked_cast<int>] aborts when the bit
    count does not fit an [int], so the model is defined where it does. *)
Definition make (bytes : list Z) : BitBufferReader :=
  mkReader bytes (Z.of_nat (length bytes) * 8).

Definition remaining_bit_count (r : BitBufferReader) : Z := mRemainingBits r.
Definition Ok (r : BitBufferReader) : bool := 0 <=? remaining_bit_count r.
Definition invalidate (r : BitBufferReader) : BitBufferReader := mkReader (mBytes r) (-1).

(** [while (bits >= 8) { bits -= 8; result |= uint64_t{*mBytes} << bits; ++mBytes; }] *)
Fixpoint read_full_bytes (fuel : nat) (result bits : Z) (bytes : list Z) : run (Z * Z * list Z) :=
  match fuel with
  | O => Timeout
  | S fuel =>
    if 8 <=? bits then
      let bits := bits - 8 in
      do b <- deref (head bytes);
      do v <- shl 64 b bits;
      read_full_bytes fuel (Z.lor result v) bits (tail bytes)
    else Ret (result, bits, bytes)
  end.

Definition read_bits (bits : Z) (r : BitBufferReader) : run (Z * BitBufferReader) :=
  if mRemainingBits r <? bits then Ret (0, invalidate r)
  else
    let remaining_bits_in_first_byte := Z.rem (mRemainingBits r) 8 in
    let remaining := mRemainingBits r - bits in
    if bits <? remaining_bits_in_first_byte then
      let offset := remaining_bits_in_first_byte - bits in
      do b <- deref (head (mBytes r));
      Ret (Z.land (Z.shiftr b offset) (Z.shiftl 1 bits - 1), mkReader (mBytes r) remaining)
    else
      do (result, bits, bytes) <-
        (if 0 <? remaining_bits_in_first_byte then
           let bits := bits - remaining_bits_in_first_byte in
           do b <- deref (head (mBytes r));
           let mask := wrap 8 (Z.shiftl 1 remaining_bits_in_first_byte - 1) in
           do result <- shl 64 (Z.land b mask) bits;
           Ret (result, bits, tail (mBytes r))
         else Ret (0, bits, mBytes r));
      do (result, bits, bytes) <- read_full_bytes (S (Z.to_nat bits)) result bits bytes;
      if 0 <? bits then
        do b <- deref (head bytes);
        Ret (Z.lor result (Z.shiftr b (8 - bits)), mkReader bytes remaining)
      else Ret (result, mkReader bytes remaining).

Definition read_bit (r : BitBufferReader) : run (Z * BitBufferReader) :=
  if mRemainingBits r <=? 0 then Ret (0, invalidate r)
  else
    let remaining := mRemainingBits r - 1 in
    let bit_position := Z.rem remaining 8 in
    do b <- deref (head (mBytes r));
    if bit_position =? 0 then Ret (Z.land b 1, mkReader (tail (mBytes r)) remaining)
    else Ret (Z.land (Z.shiftr b bit_position) 1, mkReader (mBytes r) remaining).

(** Pointer arithmetic past one-past-the-end is undefined. *)
Definition advance (n : Z) (bytes : list Z) : run (list Z) :=
  if (0 <=? n) && (n <=? Z.of_nat (length bytes)) then Ret (drop (Z.to_nat n) bytes) else Undef.

Definition consume_bits (bits : Z) (r : BitBufferReader) : run BitBufferReader :=
  if mRemainingBits r <? bits then Ret (invalidate r)
  else
    let remaining_bytes := Z.quot (mRemainingBits r + 7) 8 in
    let remaining := mRemainingBits r - bits in
    let new_remaining_bytes := Z.quot (remaining + 7) 8 in
    do bytes <- advance (remaining_bytes - new_remaining_bytes) (mBytes r);
    Ret (mkReader bytes remaining).

(** [read<uint8_t>()]. *)
Definition read_u8 (r : BitBufferReader) : run (Z * BitBufferReader) := read_bits 8 r.

Definition read_non_symmetric (num_values : Z) (r : BitBufferReader) : run (Z * BitBufferReader) :=
  let width := bit_width 32 num_values in
  do one <- shl 32 1 width;
  let num_min_bits_values := wrap 32 (one - num_values) in
  do (val, r) <- read_bits (width - 1) r;
  if val <? num_min_bits_values then Ret (wrap 32 val, r)
  else
    do (b, r) <- read_bit r;
    Ret (wrap 32 (wrap 64 (wrap 64 (Z.shiftl val 1) + b - num_min_bits_values)), r).

(** [while (read_bit() == 0) { if (++zero_bit_count >= 32) { invalidate(); return 0; } }]:
    [None] is the early return. *)
Fixpoint count_zero_bits (fuel : nat) (zero_bit_count : Z) (r : BitBufferReader)
    : run (option Z * BitBufferReader) :=
  match fuel with
  | O => Timeout
  | S fuel =>
    do (b, r) <- read_bit r;
    if b =? 0 then
      let zero_bit_count := zero_bit_count + 1 in
      if 32 <=? zero_bit_count then Ret (None, invalidate r)
      else count_zero_bits fuel zero_bit_count r
    else Ret (Some zero_bit_count, r)
  end.

Definition read_exponential_golomb (r : BitBufferReader) : run (Z * BitBufferReader) :=
  do (zeros, r) <- count_zero_bits 33 0 r;
  match zeros with
  | None => Ret (0, r)
  | Some zero_bit_count =>
    do one <- shl 32 1 zero_bit_count;
    do (v, r) <- read_bits zero_bit_count r;
    Ret (wrap 32 (one + wrap 32 v - 1), r)
  end.

Definition read_signed_exponential_golomb (r : BitBufferReader) : run (Z * BitBufferReader) :=
  do (unsigned_val, r) <- read_exponential_golomb r;
  if Z.land unsigned_val 1 =? 0 then Ret (- to_signed 32 (unsigned_val / 2), r)
  else Ret (to_signed 32 (wrap 32 (unsigned_val + 1) / 2), r).

(** The [do ... while (i < 10 && (byte & 0x80))] loop of [read_leb128]. *)
Fixpoint read_leb128_loop (fuel : nat) (decoded i : Z) (r : BitBufferReader)
    : run (Z * Z * Z * BitBufferReader) :=
  match fuel with
  | O => Timeout
  | S fuel =>
    do (byte, r) <- read_u8 r;
    do part <- shl 64 (Z.land byte 0x7f) (7 * i);
    let decoded := wrap 64 (decoded + part) in
    let i := i + 1 in
    if (i <? 10) && negb (Z.land byte 0x80 =? 0) then read_leb128_loop fuel decoded i r
    else Ret (decoded, i, byte, r)
  end.

Definition read_leb128 (r : BitBufferReader) : run (Z * BitBufferReader) :=
  do (decoded, i, byte, r) <- read_leb128_loop 11 0 0 r;
  let r := if (i =? 10) && (1 <? byte) then invalidate r else r in
  Ret (if Ok r then decoded else 0, r).

Fixpoint read_string_loop (n : nat) (res : list Z) (r : BitBufferReader) : run (list Z * BitBufferReader) :=
  match n with
  | O => Ret (res, r)
  | S n => do (c, r) <- read_u8 r; read_string_loop n (res ++ [c]) r
  end.

Definition read_string (num_bytes : Z) (r : BitBufferReader) : run (list Z * BitBufferReader) :=
  do (res, r) <- read_string_loop (Z.to_nat num_bytes) [] r;
  Ret (if Ok r then res else [], r).

End Reader.

(** ** BitBufferWriter *)
Module Writer.

Record BitBufferWriter := mkWriter {
  mWritableBytes : list Z;
  mByteCount : Z;
  mByteOffset : Z;
  mBitOffset : Z
}.

Definition make (bytes : list Z) (byte_count : Z) : BitBufferWriter := mkWriter bytes byte_count 0 0.

Definition highest_byte (val : Z) : Z := wrap 8 (Z.shiftr val 56).

Definition write_partial_byte (source source_bit_count target target_bit_offset : Z) : Z :=
  let mask := Z.shiftr (wrap 8 (Z.shiftl 0xFF (8 - source_bit_count))) target_bit_offset in
  wrap 8 (Z.lor (Z.land target (Z.lnot mask)) (Z.shiftr source target_bit_offset)).

Definition remaining_bit_count (w : BitBufferWriter) : Z :=
  wrap 64 (wrap 64 (wrap 64 (mByteCount w - mByteOffset w) * 8) - mBitOffset w).

Definition consume_bits (bit_count : Z) (w : BitBufferWriter) : bool * BitBufferWriter :=
  if remaining_bit_count w <? bit_count then (false, w)
  else
    let s := wrap 64 (mBitOffset w + bit_count) in
    (true, mkWriter (mWritableBytes w) (mByteCount w) (wrap 64 (mByteOffset w + s / 8)) (s mod 8)).

Definition consume_bytes (byte_count : Z) (w : BitBufferWriter) : bool * BitBufferWriter :=
  consume_bits (wrap 64 (byte_count * 8)) w.

Definition get_current_offset (w : BitBufferWriter) : Z * Z := (mByteOffset w, mBitOffset w).

Definition seek (byte_offset bit_offset : Z) (w : BitBufferWriter) : bool * BitBufferWriter :=
  if (mByteCount w <? byte_offset) || (7 <? bit_offset) || ((byte_offset =? mByteCount w) && (0 <? bit_offset))
  then (false, w)
  else (true, mkWriter (mWritableBytes w) (mByteCount w) byte_offset bit_offset).

(** Store through [bytes]: outside the buffer it is undefined. *)
Definition store (i v : Z) (bytes : list Z) : run (list Z) :=
  if (0 <=? i) && (i <? Z.of_nat (length bytes)) then Ret (<[Z.to_nat i := v]> bytes) else Undef.

Definition load (i : Z) (bytes : list Z) : run Z :=
  if 0 <=? i then deref (bytes !! Z.to_nat i) else Undef.

(** [while (bit_count >= 8) { *bytes++ = highest_byte(val); val <<= 8; bit_count -= 8; }] *)
Fixpoint write_full_bytes (fuel : nat) (val bit_count i : Z) (bytes : list Z) : run (Z * Z * Z * list Z) :=
  match fuel with
  | O => Timeout
  | S fuel =>
    if 8 <=? bit_count then
      do bytes <- store i (highest_byte val) bytes;
      do val <- shl 64 val 8;
      write_full_bytes fuel val (bit_count - 8) (i + 1) bytes
    else Ret (val, bit_count, i, bytes)
  end.

Definition set_bytes (bytes : list Z) (w : BitBufferWriter) : BitBufferWriter :=
  mkWriter bytes (mByteCount w) (mByteOffset w) (mBitOffset w).

Definition write_bits (val bit_count : Z) (w : BitBufferWriter) : run (bool * BitBufferWriter) :=
  if remaining_bit_count w <? bit_count then Ret (false, w)
  else
    let total_bits := bit_count in
    do val <- shl 64 val (wrap 64 (64 - bit_count));
    let i := mByteOffset w in
    let remaining_bits_in_current_byte := 8 - mBitOffset w in
    let bits_in_first_byte := Z.min bit_count remaining_bits_in_current_byte in
    do b <- load i (mWritableBytes w);
    do bytes <- store i (write_partial_byte (highest_byte val) bits_in_first_byte b (mBitOffset w)) (mWritableBytes w);
    if bit_count <=? remaining_bits_in_current_byte then Ret (consume_bits total_bits (set_bytes bytes w))
    else
      do val <- shl 64 val bits_in_first_byte;
      let bit_count := bit_count - bits_in_first_byte in
      do (val, bit_count, i, bytes) <- write_full_bytes (S (Z.to_nat bit_count)) val bit_count (i + 1) bytes;
      if 0 <? bit_count then
        do b <- load i bytes;
        do bytes <- store i (write_partial_byte (highest_byte val) bit_count b 0) bytes;
        Ret (consume_bits total_bits (set_bytes bytes w))
      else Ret (consume_bits total_bits (set_bytes bytes w)).

Definition write_u_int8 (val : Z) := write_bits val 8.
Definition write_u_int16 (val : Z) := write_bits val 16.
Definition write_u_int32 (val : Z) := write_bits val 32.

Definition write_non_symmetric (val num_values : Z) (w : BitBufferWriter) : run (bool * BitBufferWriter) :=
  if num_values =? 1 then Ret (true, w)
  else
    let count_bits := bit_width 32 num_values in
    do one <- shl 32 1 count_bits;
    let num_min_bits_values := wrap 32 (one - num_values) in
    if val <? num_min_bits_values then write_bits val (count_bits - 1) w
    else write_bits (wrap 32 (val + num_min_bits_values)) count_bits w.

Definition size_non_symmetric_bits (val num_values : Z) : run Z :=
  let count_bits := bit_width 32 num_values in
  do one <- shl 32 1 count_bits;
  let num_min_bits_values := wrap 32 (one - num_values) in
  Ret (if val <? num_min_bits_values then count_bits - 1 else count_bits).

Definition write_exponential_golomb (val : Z) (w : BitBufferWriter) : run (bool * BitBufferWriter) :=
  if val =? 2 ^ 32 - 1 then Ret (false, w)
  else
    let val_to_encode := val + 1 in
    write_bits val_to_encode (bit_width 64 val_to_encode * 2 - 1) w.

Definition write_signed_exponential_golomb (val : Z) (w : BitBufferWriter) : run (bool * BitBufferWriter) :=
  if val =? 0 then write_exponential_golomb 0 w
  else if 0 <? val then write_exponential_golomb (wrap 32 (wrap 32 (wrap 32 val * 2) - 1)) w
  else if val =? - 2 ^ 31 then Ret (false, w)
  else write_exponential_golomb (wrap 32 (wrap 32 (- val) * 2)) w.

(** [do { ... } while (val > 0)]: a 64-bit value takes at most ten rounds. *)
Fixpoint write_leb128_loop (fuel : nat) (val : Z) (success : bool) (w : BitBufferWriter)
    : run (bool * BitBufferWriter) :=
  match fuel with
  | O => Timeout
  | S fuel =>
    let byte := Z.land val 0x7f in
    let val := Z.shiftr val 7 in
    let byte := if 0 <? val then Z.lor byte 0x80 else byte in
    do (ok, w) <- write_u_int8 byte w;
    let success := andb success ok in
    if 0 <? val then write_leb128_loop fuel val success w else Ret (success, w)
  end.

Definition write_leb128 (val : Z) (w : BitBufferWriter) : run (bool * BitBufferWriter) :=
  write_leb128_loop 11 val true w.

(** [for (char c : data) success &= write_u_int8(c);] ([char] converted to [uint8_t]). *)
Fixpoint write_string_loop (data : list Z) (success : bool) (w : BitBufferWriter) : run (bool * BitBufferWriter) :=
  match data with
  | [] => Ret (success, w)
  | c :: data => do (ok, w) <- write_u_int8 (wrap 8 c) w; write_string_loop data (andb success ok) w
  end.

Definition write_string (data : list Z) (w : BitBufferWriter) : run (bool * BitBufferWriter) :=
  write_string_loop data true w.

End Writer.
