(* ===== verification/BitReaderFacts.v ===== *)
(** * Facts about the bit reader

    The unread part of a [BitBufferReader] is a bit string; every read of the
    model takes a prefix of it.  [read_bits_spec] is the refinement of the byte
    and mask arithmetic of [read_bits] to that view, and the safety statement:
    a well-formed reader never dereferences outside its bytes, never shifts out
    of range and never runs out of fuel. *)

From stdpp Require Import prelude list numbers.
From Stdlib Require Import ZArith Lia.
From S2P Require Import Prelude BitList Bits BitBuffer.
Import Reader.

#[local] Open Scope Z_scope.

(** The bits not yet read, in order. *)
Definition unread (r : BitBufferReader) : list bool :=
  drop (8 * length (mBytes r) - Z.to_nat (mRemainingBits r)) (buf_bits (mBytes r)).

(** [mBytes] points at the byte with the next unread bit; the remaining bytes are
    exactly those that hold unread bits.  A failed reader has a count of -1. *)
Definition reader_wf (r : BitBufferReader) : Prop :=
  is_bytes (mBytes r) /\
  (mRemainingBits r = -1 \/
   0 <= mRemainingBits r /\ Z.of_nat (length (mBytes r)) = (mRemainingBits r + 7) / 8).

Definition reader_ok (r : BitBufferReader) : Prop := reader_wf r /\ 0 <= mRemainingBits r.

Lemma make_ok bytes : is_bytes bytes -> reader_ok (make bytes) /\ unread (make bytes) = buf_bits bytes.
Proof.
  intros Hb. unfold reader_ok, reader_wf, unread, make. cbn. repeat split; try done; try lia.
  - right. split; [lia|]. rewrite Z.div_add_l, Z.div_small; lia.
  - replace (length bytes + _)%nat with (8 * length bytes)%nat by lia.
    replace (8 * length bytes - _)%nat with 0%nat by lia. done.
Qed.

Lemma invalidate_wf r : is_bytes (mBytes r) -> reader_wf (invalidate r).
Proof. split; [done|]. by left. Qed.

(** ** Splitting a buffer at a byte boundary *)

Lemma take_buf_bits q t l :
  (q <= length l)%nat -> take (8 * q + t) (buf_bits l) = buf_bits (take q l) ++ take t (buf_bits (drop q l)).
Proof.
  intros. rewrite <- (take_drop q l) at 1. rewrite buf_bits_app, take_app_ge.
  - do 2 f_equal. rewrite length_buf_bits, length_take. lia.
  - rewrite length_buf_bits, length_take. lia.
Qed.

Lemma drop_buf_bits q t l :
  (q <= length l)%nat -> drop (8 * q + t) (buf_bits l) = drop t (buf_bits (drop q l)).
Proof.
  intros. rewrite <- (take_drop q l) at 1. rewrite buf_bits_app, drop_app_ge.
  - f_equal. rewrite length_buf_bits, length_take. lia.
  - rewrite length_buf_bits, length_take. lia.
Qed.

(** The two shapes of a live reader: on a byte boundary, or inside a byte with
    [k] of its bits unread. *)
Lemma reader_view r :
  reader_ok r ->
  (exists m, mRemainingBits r = 8 * Z.of_nat m /\ length (mBytes r) = m /\ unread r = buf_bits (mBytes r)) \/
  (exists k b rest, (0 < k < 8)%nat /\ mBytes r = b :: rest /\
     mRemainingBits r = Z.of_nat k + 8 * Z.of_nat (length rest) /\ unread r = bits_of k b ++ buf_bits rest).
Proof.
  intros [[Hb Hr] Hpos]. destruct Hr as [|[_ Hlen]]; [lia|].
  pose proof (Z.div_mod (mRemainingBits r) 8 ltac:(lia)) as E. pose proof (Z.mod_pos_bound (mRemainingBits r) 8 ltac:(lia)) as B.
  set (q := mRemainingBits r / 8) in *. set (k := mRemainingBits r mod 8) in *. clearbody q k.
  destruct (Z.eq_dec k 0) as [->|Hk].
  - left. exists (Z.to_nat q). replace (mRemainingBits r + 7) with (7 + q * 8) in Hlen by lia.
    rewrite Z.div_add, Z.div_small in Hlen by lia. repeat split; try lia.
    unfold unread. replace (8 * _ - _)%nat with 0%nat by lia. done.
  - right. replace (mRemainingBits r + 7) with ((k - 1) + (q + 1) * 8) in Hlen by lia.
    rewrite Z.div_add, Z.div_small in Hlen by lia. unfold unread.
    destruct (mBytes r) as [|b rest]; [cbn in Hlen; lia|]. cbn [length] in *.
    exists (Z.to_nat k), b, rest. repeat split; try lia.
    rewrite buf_bits_cons, drop_app_le by (rewrite length_bits_of; lia). f_equal.
    rewrite drop_bits_of by lia. f_equal. lia.
Qed.

Lemma reader_ok_boundary bytes m :
  is_bytes bytes -> length bytes = m ->
  reader_ok (mkReader bytes (8 * Z.of_nat m)) /\ unread (mkReader bytes (8 * Z.of_nat m)) = buf_bits bytes.
Proof. intros Hb <-. rewrite Z.mul_comm. by apply make_ok. Qed.

Lemma reader_ok_inside b rest k n :
  is_bytes (b :: rest) -> (0 < k <= 8)%nat -> n = Z.of_nat k + 8 * Z.of_nat (length rest) ->
  reader_ok (mkReader (b :: rest) n) /\ unread (mkReader (b :: rest) n) = bits_of k b ++ buf_bits rest.
Proof.
  intros Hb Hk ->. unfold reader_ok, reader_wf, unread. cbn [mBytes mRemainingBits length]. repeat split; try done; try lia.
  - right. split; [lia|].
    replace (_ + 7) with ((Z.of_nat k - 1) + Z.of_nat (S (length rest)) * 8) by lia.
    rewrite Z.div_add, Z.div_small by lia. lia.
  - rewrite buf_bits_cons, drop_app_le by (rewrite length_bits_of; lia). f_equal.
    rewrite drop_bits_of by lia. f_equal. lia.
Qed.

Lemma length_unread r : reader_ok r -> length (unread r) = Z.to_nat (mRemainingBits r).
Proof.
  intros H. destruct (reader_view r H) as [(m & E & L & ->)|(k & b & rest & Hk & Eb & E & ->)].
  - rewrite length_buf_bits. lia.
  - rewrite length_app, length_bits_of, length_buf_bits. lia.
Qed.

(** ** The byte loop *)

Lemma shl64_ok v n : 0 <= v -> 0 <= n < 64 -> v * 2 ^ n < 2 ^ 64 -> shl 64 v n = Ret (v * 2 ^ n).
Proof.
  intros. unfold shl. rewrite andb_true_intro by (split; [apply Z.leb_le|apply Z.ltb_lt]; lia).
  rewrite Z.shiftl_mul_pow2 by lia. rewrite wrap_small; [done|]. pose proof (pow2_pos n). nia.
Qed.

Lemma val_of_byte b : is_u 8 b -> val_of (bits_of 8 b) = b.
Proof. intros. rewrite val_of_bits_of. by apply Z.mod_small. Qed.

(** After [q] rounds the accumulator holds the value [a] read before, the [q]
    bytes, and room for the [t] bits still to come. *)
Lemma read_full_bytes_spec q : forall fuel a t bytes,
  (q < fuel)%nat -> (t < 8)%nat -> (q <= length bytes)%nat -> is_bytes bytes ->
  0 <= a -> 8 * Z.of_nat q + Z.of_nat t <= 64 -> a < 2 ^ (64 - (8 * Z.of_nat q + Z.of_nat t)) ->
  read_full_bytes fuel (a * 2 ^ (8 * Z.of_nat q + Z.of_nat t)) (8 * Z.of_nat q + Z.of_nat t) bytes
  = Ret ((a * 2 ^ (8 * Z.of_nat q) + val_of (buf_bits (take q bytes))) * 2 ^ Z.of_nat t, Z.of_nat t, drop q bytes).
Proof.
  induction q as [|q IH]; intros fuel a t bytes Hf Ht Hl Hb Ha H64 Hr; destruct fuel as [|fuel]; try lia;
    cbn [read_full_bytes].
  - rewrite (proj2 (Z.leb_gt 8 _)) by lia. cbn [take drop].
    change (val_of (buf_bits [])) with 0. change (8 * Z.of_nat 0) with 0.
    by rewrite Z.add_0_l, Z.pow_0_r, Z.mul_1_r, Z.add_0_r.
  - destruct bytes as [|b bytes]; [cbn in Hl; lia|]. apply Forall_cons_1 in Hb as [Hb Hbs].
    rewrite (proj2 (Z.leb_le 8 _)) by lia. cbn [head deref run_bind tail take drop].
    replace (8 * Z.of_nat (S q) + Z.of_nat t - 8) with (8 * Z.of_nat q + Z.of_nat t) by lia.
    set (p := 8 * Z.of_nat q + Z.of_nat t) in *. unfold is_u in Hb. change (2 ^ 8) with 256 in Hb.
    replace (8 * Z.of_nat (S q) + Z.of_nat t) with (8 + p) in * by lia.
    replace (64 - p) with (8 + (64 - (8 + p))) in * by lia.
    rewrite (Z.pow_add_r 2 8 p) by lia. change (2 ^ 8) with 256 in *.
    assert (2 ^ p <= 2 ^ 56) by (apply Z.pow_le_mono_r; lia).
    pose proof (pow2_pos p ltac:(lia)).
    rewrite shl64_ok by nia. cbn [run_bind].
    replace (Z.lor (a * (256 * 2 ^ p)) (b * 2 ^ p)) with ((a * 256 + b) * 2 ^ p).
    2:{ rewrite Z.mul_assoc, <- !Z.shiftl_mul_pow2, <- Z.shiftl_lor by lia. f_equal.
        change 256 with (2 ^ 8). symmetry. apply lor_add; lia. }
    unfold p in *. rewrite IH; try done; try lia; try nia.
    + do 3 f_equal. rewrite buf_bits_cons, val_of_app, val_of_byte, length_buf_bits, length_take by done.
      replace (8 * Z.of_nat (S q)) with (8 + 8 * Z.of_nat q) by lia. rewrite Z.pow_add_r by lia.
      replace (Z.of_nat (8 * _)) with (8 * Z.of_nat q) by (cbn in Hl; lia). lia.
    + cbn in Hl; lia.
    + replace (64 - _) with (8 + (64 - (8 + (8 * Z.of_nat q + Z.of_nat t)))) by lia.
      rewrite Z.pow_add_r by lia. lia.
Qed.

(** ** [read_bits] *)

(** What [read_bits] does once it stands on a byte boundary: whole bytes, then the
    high bits of the last one. *)
Definition read_rest (result bits : Z) (bytes : list Z) (remaining : Z) : run (Z * BitBufferReader) :=
  (do (result, bits, bytes) <- read_full_bytes (S (Z.to_nat bits)) result bits bytes;
   if 0 <? bits then
     do b <- deref (head bytes);
     Ret (Z.lor result (Z.shiftr b (8 - bits)), mkReader bytes remaining)
   else Ret (result, mkReader bytes remaining))%cxx.

Lemma read_rest_spec a n bytes remaining :
  is_bytes bytes -> (n <= 64)%nat -> 0 <= a < 2 ^ (64 - Z.of_nat n) -> (n <= 8 * length bytes)%nat ->
  remaining = 8 * Z.of_nat (length bytes) - Z.of_nat n ->
  exists r', read_rest (a * 2 ^ Z.of_nat n) (Z.of_nat n) bytes remaining
             = Ret (a * 2 ^ Z.of_nat n + val_of (take n (buf_bits bytes)), r') /\
             reader_ok r' /\ mRemainingBits r' = remaining /\ unread r' = drop n (buf_bits bytes).
Proof.
  intros Hb Hn Ha Hlen ->. unfold read_rest.
  pose proof (Nat.div_mod n 8 ltac:(lia)) as En. pose proof (Nat.mod_upper_bound n 8 ltac:(lia)) as Bt.
  set (q := (n / 8)%nat) in *. set (t := (n mod 8)%nat) in *. clearbody q t. subst n.
  replace (Z.of_nat (8 * q + t)) with (8 * Z.of_nat q + Z.of_nat t) in * by lia.
  rewrite read_full_bytes_spec by (done || lia). cbn [run_bind].
  rewrite take_buf_bits, drop_buf_bits, val_of_app by lia. set (V := val_of (buf_bits (take q bytes))).
  rewrite Z.pow_add_r by lia.
  assert (is_bytes (drop q bytes)) as Hd by (by apply Forall_drop). destruct t as [|t].
  - cbn [Z.of_nat Z.ltb Z.compare]. eexists. split; [|split; [|split]]; cycle 1.
    + apply (reader_ok_boundary (drop q bytes) (length bytes - q) Hd). by rewrite length_drop.
    + cbn. lia.
    + destruct (reader_ok_boundary (drop q bytes) (length bytes - q) Hd); [by rewrite length_drop|]. by rewrite drop_0.
    + rewrite take_0. change (val_of []) with 0. cbn [length Z.of_nat]. do 3 f_equal; [lia|].
      cbn [mRemainingBits]. f_equal. lia.
  - rewrite (proj2 (Z.ltb_lt 0 _)) by lia. destruct (drop q bytes) as [|b rest] eqn:D.
    { apply (f_equal length) in D. rewrite length_drop in D. cbn in D. lia. }
    assert (length bytes = q + S (length rest))%nat as L
      by (apply (f_equal length) in D; rewrite length_drop in D; cbn in D; lia).
    apply Forall_cons_1 in Hd as Hd'. destruct Hd' as [Hbb _]. unfold is_u in Hbb. cbn [head deref run_bind].
    destruct (reader_ok_inside b rest (8 - S t) (8 * Z.of_nat (length bytes) - (8 * Z.of_nat q + Z.of_nat (S t))) Hd
      ltac:(lia) ltac:(lia)) as [W U].
    eexists. split; [|split; [exact W|split; [reflexivity|]]].
    + do 2 f_equal. rewrite buf_bits_cons, take_app_le by (rewrite length_bits_of; lia).
      rewrite take_bits_of, val_of_bits_of, length_bits_of by lia.
      replace (Z.of_nat (8 - S t)) with (8 - Z.of_nat (S t)) by lia.
      assert (b / 2 ^ (8 - Z.of_nat (S t)) < 2 ^ Z.of_nat (S t)).
      { apply Z.div_lt_upper_bound; [auto with cxx lia|]. rewrite <- Z.pow_add_r by lia.
        by replace (8 - Z.of_nat (S t) + Z.of_nat (S t)) with 8 by lia; lia. }
      assert (0 <= b / 2 ^ (8 - Z.of_nat (S t))) by (apply Z.div_pos; [lia|auto with cxx lia]).
      rewrite Z.shiftr_div_pow2, lor_add, Z.mod_small by lia. lia.
    + rewrite U, buf_bits_cons, drop_app_le by (rewrite length_bits_of; lia). by rewrite drop_bits_of by lia.
Qed.

Lemma rem8 k m : 0 <= k < 8 -> 0 <= m -> Z.rem (k + 8 * m) 8 = k.
Proof.
  intros. rewrite Z.rem_mod_nonneg by lia. rewrite Z.mul_comm, Z.mod_add by lia. apply Z.mod_small. lia.
Qed.

(** Reading at most the bits of the current byte. *)
Lemma read_bits_inside n r k b rest :
  reader_ok r -> (0 < k < 8)%nat -> mBytes r = b :: rest ->
  mRemainingBits r = Z.of_nat k + 8 * Z.of_nat (length rest) -> (n < k)%nat ->
  exists r', read_bits (Z.of_nat n) r = Ret (val_of (take n (bits_of k b)), r') /\
             reader_ok r' /\ mRemainingBits r' = mRemainingBits r - Z.of_nat n /\
             unread r' = bits_of (k - n) b ++ buf_bits rest.
Proof.
  intros [[Hb _] _] Hk Eb Er Hn. unfold read_bits.
  rewrite (proj2 (Z.ltb_ge _ _)) by lia. rewrite Er, rem8 by lia.
  rewrite (proj2 (Z.ltb_lt _ _)) by lia. rewrite Eb in *. cbn [head deref run_bind].
  destruct (reader_ok_inside b rest (k - n) (Z.of_nat k + 8 * Z.of_nat (length rest) - Z.of_nat n) Hb
      ltac:(lia) ltac:(lia)) as [W U].
  eexists. split; [|split; [exact W|split; [reflexivity|exact U]]].
  do 2 f_equal. rewrite take_bits_of, val_of_bits_of by lia.
  rewrite Z.shiftl_1_l, land_ones_mod, Z.shiftr_div_pow2 by lia. do 3 f_equal. lia.
Qed.

Lemma read_bits_spec n r :
  reader_ok r -> (n <= 64)%nat -> Z.of_nat n <= mRemainingBits r ->
  exists r', read_bits (Z.of_nat n) r = Ret (val_of (take n (unread r)), r') /\
             reader_ok r' /\ mRemainingBits r' = mRemainingBits r - Z.of_nat n /\
             unread r' = drop n (unread r).
Proof.
  intros Hok Hn Hle. destruct (reader_view r Hok) as [(m & Er & Hm & ->)|(k & b & rest & Hk & Eb & Er & ->)].
  - unfold read_bits. rewrite (proj2 (Z.ltb_ge _ _)) by lia. rewrite Er.
    replace (Z.rem (8 * Z.of_nat m) 8) with 0 by (symmetry; apply (rem8 0); lia).
    rewrite (proj2 (Z.ltb_ge _ 0)) by lia. cbn [Z.ltb Z.compare run_bind].
    destruct (read_rest_spec 0 n (mBytes r) (8 * Z.of_nat m - Z.of_nat n)) as (r' & E & ?);
      [apply Hok|done|split; [done|auto with cxx lia]|lia|lia|].
    rewrite Z.mul_0_l, Z.add_0_l in E. exists r'. done.
  - destruct (Nat.lt_ge_cases n k) as [Hlt|Hge].
    + destruct (read_bits_inside n r k b rest Hok Hk Eb Er Hlt) as (r' & E & W & R & U). exists r'.
      rewrite E, U. rewrite take_app_le, drop_app_le, drop_bits_of by (rewrite ?length_bits_of; lia). done.
    + unfold read_bits. rewrite (proj2 (Z.ltb_ge _ _)) by lia. rewrite Er, rem8 by lia.
      rewrite (proj2 (Z.ltb_ge _ (Z.of_nat k))), (proj2 (Z.ltb_lt 0 _)) by lia. rewrite Eb. cbn [head deref run_bind tail].
      destruct Hok as [[Hb _] _]. rewrite Eb in Hb. apply Forall_cons_1 in Hb as [Hb Hrest]. unfold is_u in Hb.
      pose proof (pow2_pos (Z.of_nat k) ltac:(lia)). pose proof (Z.mod_pos_bound b (2 ^ Z.of_nat k) ltac:(lia)).
      assert (2 ^ Z.of_nat k <= 2 ^ 7) by (apply Z.pow_le_mono_r; lia).
      rewrite Z.shiftl_1_l, wrap_small, land_ones_mod by lia.
      replace (Z.of_nat n - Z.of_nat k) with (Z.of_nat (n - k)) by lia.
      assert (2 ^ Z.of_nat k * 2 ^ Z.of_nat (n - k) <= 2 ^ 64)
        by (rewrite <- Z.pow_add_r by lia; apply Z.pow_le_mono_r; lia).
      rewrite shl64_ok; [|lia|lia|pose proof (pow2_pos (Z.of_nat (n - k))); nia]. cbn [run_bind].
      destruct (read_rest_spec (b mod 2 ^ Z.of_nat k) (n - k) rest
        (Z.of_nat k + 8 * Z.of_nat (length rest) - Z.of_nat n)) as (r' & E & W & R & U); [done|lia| |lia|lia|].
      { split; [lia|]. assert (2 ^ Z.of_nat k <= 2 ^ (64 - Z.of_nat (n - k))); [apply Z.pow_le_mono_r; lia|lia]. }
      exists r'. split; [|split; [done|split; [done|]]].
      * unfold read_rest in E. rewrite E. do 2 f_equal.
        rewrite take_app_ge, val_of_app, val_of_bits_of, !length_bits_of by (rewrite length_bits_of; lia).
        do 3 f_equal. rewrite length_take, length_buf_bits. lia.
      * rewrite drop_app_ge, length_bits_of by (rewrite length_bits_of; lia). done.
Qed.

Lemma read_bits_short n r : mRemainingBits r < n -> read_bits n r = Ret (0, invalidate r).
Proof. intros. unfold read_bits. by rewrite (proj2 (Z.ltb_lt _ _)) by lia. Qed.

(** [read_bit] is a one-bit [read_bits]. *)
Lemma read_bit_spec r :
  reader_ok r -> 1 <= mRemainingBits r ->
  exists b l r', unread r = b :: l /\ read_bit r = Ret (Z.b2z b, r') /\
             reader_ok r' /\ mRemainingBits r' = mRemainingBits r - 1 /\ unread r' = l.
Proof.
  intros Hok Hle. unfold read_bit. rewrite (proj2 (Z.leb_gt _ _)) by lia.
  assert (exists k b rest, (0 < k <= 8)%nat /\ mBytes r = b :: rest /\
     mRemainingBits r = Z.of_nat k + 8 * Z.of_nat (length rest) /\ unread r = bits_of k b ++ buf_bits rest)
    as (k & b & rest & Hk & Eb & Er & ->).
  { destruct (reader_view r Hok) as [(m & Er & Hm & ->)|(k & b & rest & Hk & Eb & Er & ->)].
    - destruct (mBytes r) as [|b rest]; [cbn in Hm; lia|]. exists 8%nat, b, rest. cbn in Hm. repeat split; lia.
    - exists k, b, rest. repeat split; try done; lia. }
  destruct k as [|k]; [lia|]. rewrite Er, Eb. cbn [head deref run_bind tail bits_of app].
  replace (Z.of_nat (S k) + _ - 1) with (Z.of_nat k + 8 * Z.of_nat (length rest)) by lia. rewrite rem8 by lia.
  assert (forall v, Z.land v 1 = Z.b2z (Z.testbit v 0)) as L1.
  { intros v. change 1 with (2 ^ 1 - 1). rewrite land_ones_mod, Z.testbit_odd by lia. apply Zmod_odd. }
  destruct Hok as [[Hb _] _]. rewrite Eb in Hb.
  exists (Z.testbit b (Z.of_nat k)), (bits_of k b ++ buf_bits rest). case_test.
  - destruct k; [|lia]. eexists. split; [done|]. split; [by rewrite L1|].
    apply Forall_cons_1 in Hb as [_ Hb].
    destruct (reader_ok_boundary rest (length rest) Hb eq_refl) as [W U]. cbn [Z.of_nat]. rewrite Z.add_0_l. done.
  - eexists. split; [done|]. split; [by rewrite L1, Z.shiftr_spec|].
    destruct (reader_ok_inside b rest k (Z.of_nat k + 8 * Z.of_nat (length rest)) Hb ltac:(lia) eq_refl) as [W U]. done.
Qed.

Lemma consume_bits_spec n r :
  reader_ok r -> Z.of_nat n <= mRemainingBits r ->
  exists r', consume_bits (Z.of_nat n) r = Ret r' /\ reader_ok r' /\
             mRemainingBits r' = mRemainingBits r - Z.of_nat n /\ unread r' = drop n (unread r).
Proof.
  intros [[Hb Hr] Hpos] Hn. destruct Hr as [|[_ Hlen]]; [lia|]. unfold consume_bits.
  rewrite (proj2 (Z.ltb_ge _ _)) by lia. rewrite !Z.quot_div_nonneg by lia. rewrite <- Hlen.
  set (R := mRemainingBits r) in *. set (m := (R - Z.of_nat n + 7) / 8).
  assert (0 <= m <= Z.of_nat (length (mBytes r))) as Hm by (subst m; Z.div_mod_to_equations; lia).
  unfold advance. rewrite andb_true_intro by (split; apply Z.leb_le; lia). cbn [run_bind].
  eexists. split; [reflexivity|]. split; [|split; [reflexivity|]].
  - split; [|cbn; lia]. split; [by apply Forall_drop|]. right. cbn. rewrite length_drop. subst m. lia.
  - unfold unread. cbn [mBytes mRemainingBits]. rewrite length_drop, drop_drop. fold R.
    set (d := Z.to_nat (Z.of_nat (length (mBytes r)) - m)). assert (d <= length (mBytes r))%nat by lia.
    replace (8 * length (mBytes r) - Z.to_nat R + n)%nat
      with (8 * d + (8 * (length (mBytes r) - d) - Z.to_nat (R - Z.of_nat n)))%nat.
    + by rewrite drop_buf_bits by lia.
    + subst d m. Z.div_mod_to_equations. lia.
Qed.
