(* ===== verification/BitWriterFacts.v ===== *)
(** * Facts about the bit writer

    [write_bits_spec] refines the shift-and-mask code of [write_bits] to a
    [splice] of the buffer's bit string at the current position: exactly the
    addressed bits change, nothing is stored outside the buffer and no shift is
    out of range. *)

From stdpp Require Import prelude list numbers.
From Stdlib Require Import ZArith Lia.
From S2P Require Import Prelude BitList Bits BitBuffer.
Import Writer.

#[local] Open Scope Z_scope.

Record writer_wf (w : BitBufferWriter) : Prop := {
  wf_bytes : is_bytes (mWritableBytes w);
  wf_count : mByteCount w = Z.of_nat (length (mWritableBytes w));
  wf_small : mByteCount w < 2 ^ 32;
  wf_off : 0 <= mByteOffset w <= mByteCount w;
  wf_bit : 0 <= mBitOffset w < 8;
  wf_end : mByteOffset w = mByteCount w -> mBitOffset w = 0
}.

(** Position of the next bit to write, and the bits of the buffer. *)
Definition position (w : BitBufferWriter) : Z := 8 * mByteOffset w + mBitOffset w.
Definition wbits (w : BitBufferWriter) : list bool := buf_bits (mWritableBytes w).

Lemma make_writer_wf bytes :
  is_bytes bytes -> Z.of_nat (length bytes) < 2 ^ 32 -> writer_wf (make bytes (Z.of_nat (length bytes))).
Proof. intros. constructor; cbn; try done; lia. Qed.

Lemma remaining_spec w : writer_wf w -> remaining_bit_count w = 8 * mByteCount w - position w.
Proof.
  intros [_ _ Hs Ho Hb He]. unfold remaining_bit_count, position, wrap.
  assert (0 <= (mByteCount w - mByteOffset w) * 8 - mBitOffset w)
    by (destruct (Z.eq_dec (mByteOffset w) (mByteCount w)) as [E|]; [specialize (He E)|]; lia).
  rewrite (Z.mod_small (mByteCount w - _)), (Z.mod_small (_ * 8)), Z.mod_small by lia. lia.
Qed.

(** [consume_bits] moves the position; it never changes the buffer. *)
Lemma consume_spec n w :
  writer_wf w -> 0 <= n < 2 ^ 40 ->
  consume_bits n w =
    if 8 * mByteCount w <? position w + n then (false, w)
    else (true, mkWriter (mWritableBytes w) (mByteCount w) ((position w + n) / 8) ((position w + n) mod 8)).
Proof.
  intros Hw Hn. unfold consume_bits. rewrite remaining_spec by done.
  destruct Hw as [_ _ Hs Ho Hb _]. unfold position.
  destruct (Z.ltb_spec (8 * mByteCount w - (8 * mByteOffset w + mBitOffset w)) n);
    destruct (Z.ltb_spec (8 * mByteCount w) (8 * mByteOffset w + mBitOffset w + n)); try lia; [done|].
  unfold wrap. rewrite (Z.mod_small (mBitOffset w + n)) by lia.
  replace (8 * mByteOffset w + mBitOffset w + n) with (mBitOffset w + n + mByteOffset w * 8) by lia.
  rewrite Z.div_add, Z.mod_add by lia. do 2 f_equal.
  rewrite Z.mod_small; [lia|]. pose proof (Z.div_le_upper_bound (mBitOffset w + n) 8 (2 ^ 38)).
  pose proof (Z.div_pos (mBitOffset w + n) 8). lia.
Qed.

Lemma consumed_wf w n :
  writer_wf w -> 0 <= n -> position w + n <= 8 * mByteCount w ->
  let w' := mkWriter (mWritableBytes w) (mByteCount w) ((position w + n) / 8) ((position w + n) mod 8) in
  writer_wf w' /\ position w' = position w + n.
Proof.
  intros [Hb Hc Hs Ho Hbit He] Hn Hle w'. unfold position in *.
  pose proof (Z.div_mod (8 * mByteOffset w + mBitOffset w + n) 8).
  pose proof (Z.mod_pos_bound (8 * mByteOffset w + mBitOffset w + n) 8).
  split; [|cbn; lia]. constructor; cbn; try done; lia.
Qed.

(** ** One byte *)

Lemma write_partial_byte_bits s c t o :
  is_u 8 s -> is_u 8 t -> (o + c <= 8)%nat -> (o + c = 8)%nat \/ s mod 2 ^ (8 - Z.of_nat c) = 0 ->
  bits_of 8 (write_partial_byte s (Z.of_nat c) t (Z.of_nat o))
  = take o (bits_of 8 t) ++ take c (bits_of 8 s) ++ drop (o + c) (bits_of 8 t).
Proof.
  intros Hs Ht Hoc Hlow. apply list_eq_same_length with (n := 8%nat).
  { rewrite !length_app, !length_take, length_drop, !length_bits_of. lia. }
  { apply length_bits_of. }
  intros j x y Hj Hx Hy. rewrite lookup_bits_of in Hx by lia. injection Hx as <-.
  set (i := (7 - j)%nat) in *. assert (Z.of_nat j = 7 - Z.of_nat i) by lia.
  unfold write_partial_byte, wrap. rewrite Z.mod_pow2_bits_low by lia.
  rewrite Z.lor_spec, Z.land_spec, Z.lnot_spec, !Z.shiftr_spec by lia.
  assert (Z.testbit (Z.shiftl 255 (8 - Z.of_nat c) mod 2 ^ 8) (Z.of_nat i + Z.of_nat o)
          = (8 - Z.of_nat c <=? Z.of_nat i + Z.of_nat o) && (Z.of_nat i + Z.of_nat o <? 8)) as M.
  { destruct (Z.ltb_spec (Z.of_nat i + Z.of_nat o) 8).
    - rewrite Z.mod_pow2_bits_low, Z.shiftl_spec by lia. rewrite andb_true_r. change 255 with (Z.ones 8).
      destruct (Z.leb_spec (8 - Z.of_nat c) (Z.of_nat i + Z.of_nat o)).
      + apply Z.ones_spec_low. lia.
      + apply Z.testbit_neg_r. lia.
    - rewrite Z.mod_pow2_bits_high by lia. by rewrite andb_false_r. }
  rewrite M. clear M. unfold is_u in *.
  destruct (Nat.lt_ge_cases j o).
  - rewrite lookup_app_l in Hy by (rewrite length_take, length_bits_of; lia).
    rewrite lookup_take_lt, lookup_bits_of in Hy by lia. injection Hy as <-.
    rewrite (proj2 (Z.ltb_ge _ _)) by lia. rewrite andb_false_r. cbn. rewrite andb_true_r.
    rewrite <- (Z.mod_small s (2 ^ 8)), Z.mod_pow2_bits_high by lia. apply orb_false_r.
  - rewrite lookup_app_r in Hy by (rewrite length_take, length_bits_of; lia).
    rewrite length_take, length_bits_of, (Nat.min_l o) in Hy by lia.
    rewrite (proj2 (Z.ltb_lt _ _)) by lia. rewrite andb_true_r.
    destruct (Nat.lt_ge_cases (j - o) c).
    + rewrite lookup_app_l in Hy by (rewrite length_take, length_bits_of; lia).
      rewrite lookup_take_lt, lookup_bits_of in Hy by lia. injection Hy as <-.
      rewrite (proj2 (Z.leb_le _ _)) by lia. rewrite andb_false_r. cbn. f_equal. lia.
    + rewrite lookup_app_r in Hy by (rewrite length_take, length_bits_of; lia).
      rewrite length_take, length_bits_of, lookup_drop, lookup_bits_of in Hy by lia. injection Hy as <-.
      rewrite (proj2 (Z.leb_gt _ _)) by lia. cbn. rewrite andb_true_r.
      destruct Hlow as [|Hlow]; [lia|].
      rewrite <- (Z.mod_pow2_bits_low s (8 - Z.of_nat c)), Hlow, Z.bits_0 by lia.
      rewrite orb_false_r. f_equal. lia.
Qed.

Lemma write_partial_byte_u8 s c t o : is_u 8 (write_partial_byte s c t o).
Proof. unfold write_partial_byte. apply wrap_range. lia. Qed.

(** ** The value being written, left-aligned in 64 bits *)

(** The low [c] bits of [u], moved to the top of a 64-bit word. *)
Definition aligned (c : nat) (u : Z) : Z := (u mod 2 ^ Z.of_nat c) * 2 ^ (64 - Z.of_nat c).

Lemma aligned_range c u : (c <= 64)%nat -> 0 <= aligned c u < 2 ^ 64.
Proof.
  intros. unfold aligned. pose proof (Z.mod_pos_bound u (2 ^ Z.of_nat c) ltac:(auto with cxx lia)).
  pose proof (pow2_pos (64 - Z.of_nat c) ltac:(lia)).
  assert (2 ^ 64 = 2 ^ Z.of_nat c * 2 ^ (64 - Z.of_nat c)) as -> by (rewrite <- Z.pow_add_r by lia; f_equal; lia). nia.
Qed.

Lemma shl_aligned c f u :
  (f <= c <= 64)%nat -> (f < 64)%nat -> shl 64 (aligned c u) (Z.of_nat f) = Ret (aligned (c - f) u).
Proof.
  intros Hc Hf. unfold shl. rewrite andb_true_intro by (split; [apply Z.leb_le|apply Z.ltb_lt]; lia). f_equal.
  unfold aligned, wrap. rewrite Z.shiftl_mul_pow2, <- Z.mul_assoc, <- Z.pow_add_r by lia.
  replace (64 - Z.of_nat c + Z.of_nat f) with (64 - Z.of_nat (c - f)) by lia.
  rewrite mul_pow_mod by lia. replace (64 - (64 - Z.of_nat (c - f))) with (Z.of_nat (c - f)) by lia. f_equal.
  apply mod_pow2_le. lia.
Qed.

Lemma shl_align n val :
  (1 <= n <= 64)%nat -> shl 64 val (wrap 64 (64 - Z.of_nat n)) = Ret (aligned n val).
Proof.
  intros Hn. rewrite wrap_small by lia. unfold shl.
  rewrite andb_true_intro by (split; [apply Z.leb_le|apply Z.ltb_lt]; lia). f_equal.
  unfold aligned, wrap. rewrite Z.shiftl_mul_pow2, mul_pow_mod by lia. do 3 f_equal. lia.
Qed.

Lemma highest_byte_div v : 0 <= v < 2 ^ 64 -> highest_byte v = v / 2 ^ 56.
Proof.
  intros. unfold highest_byte. rewrite Z.shiftr_div_pow2 by lia. apply wrap_small.
  split; [apply Z.div_pos; lia|apply Z.div_lt_upper_bound; lia].
Qed.

Lemma highest_byte_u8 v : is_u 8 (highest_byte v).
Proof. apply wrap_range. lia. Qed.

(** At least eight bits left: the byte is the next eight bits of the value. *)
Lemma highest_byte_full c u :
  (8 <= c <= 64)%nat -> bits_of 8 (highest_byte (aligned c u)) = bits_of 8 (u / 2 ^ Z.of_nat (c - 8)).
Proof.
  intros. rewrite highest_byte_div by (apply aligned_range; lia). apply bits_of_ext. unfold aligned.
  replace (2 ^ 56) with (2 ^ Z.of_nat (c - 8) * 2 ^ (64 - Z.of_nat c)) by (rewrite <- Z.pow_add_r by lia; f_equal; lia).
  rewrite Z.div_mul_cancel_r by (apply Z.pow_nonzero; lia).
  replace (Z.of_nat c) with (Z.of_nat (c - 8) + 8) at 1 by lia. rewrite mod_div_pow2 by lia. apply Z.mod_mod. lia.
Qed.

(** Fewer than eight bits left: they are the top bits of the byte, the rest is zero. *)
Lemma highest_byte_part c u :
  (c <= 8)%nat ->
  highest_byte (aligned c u) = (u mod 2 ^ Z.of_nat c) * 2 ^ (8 - Z.of_nat c) /\
  take c (bits_of 8 (highest_byte (aligned c u))) = bits_of c u /\
  highest_byte (aligned c u) mod 2 ^ (8 - Z.of_nat c) = 0.
Proof.
  intros. assert (highest_byte (aligned c u) = (u mod 2 ^ Z.of_nat c) * 2 ^ (8 - Z.of_nat c)) as E.
  { rewrite highest_byte_div by (apply aligned_range; lia). unfold aligned.
    replace (2 ^ (64 - Z.of_nat c)) with (2 ^ (8 - Z.of_nat c) * 2 ^ 56) by (rewrite <- Z.pow_add_r by lia; f_equal; lia).
    rewrite Z.mul_assoc. apply Z.div_mul. lia. }
  split; [done|]. rewrite E. split.
  - rewrite take_bits_of by lia. replace (Z.of_nat (8 - c)) with (8 - Z.of_nat c) by lia.
    rewrite Z.div_mul by (apply Z.pow_nonzero; lia). apply bits_of_mod. lia.
  - apply Z.mod_mul. apply Z.pow_nonzero; lia.
Qed.

(** ** Stores *)

Lemma store_spec i v bytes :
  0 <= i < Z.of_nat (length bytes) -> store i v bytes = Ret (<[Z.to_nat i := v]> bytes).
Proof. intros. unfold store. by rewrite andb_true_intro by (split; [apply Z.leb_le|apply Z.ltb_lt]; lia). Qed.

Lemma load_spec i bytes :
  0 <= i < Z.of_nat (length bytes) -> is_bytes bytes ->
  exists b, load i bytes = Ret b /\ bytes !! Z.to_nat i = Some b /\ is_u 8 b.
Proof.
  intros Hi Hb. unfold load. rewrite (proj2 (Z.leb_le 0 i)) by lia.
  destruct (lookup_lt_is_Some_2 bytes (Z.to_nat i)) as [b E]; [lia|]. exists b. rewrite E.
  split; [done|]. split; [done|]. by eapply Forall_lookup_1 in E.
Qed.

(** Storing a partially overwritten byte splices the written bits in. *)
Lemma store_partial_spec i o c s b bytes :
  (i < length bytes)%nat -> bytes !! i = Some b -> is_u 8 b -> is_u 8 s -> (o + c <= 8)%nat ->
  (o + c = 8)%nat \/ s mod 2 ^ (8 - Z.of_nat c) = 0 ->
  buf_bits (<[i := write_partial_byte s (Z.of_nat c) b (Z.of_nat o)]> bytes)
  = splice (8 * i + o) (take c (bits_of 8 s)) (buf_bits bytes).
Proof.
  intros Hi Hb Hu Hs Hoc Hlow. rewrite buf_bits_insert, write_partial_byte_bits by done.
  rewrite <- (buf_bits_lookup bytes i b Hb).
  assert (length (take c (bits_of 8 s)) = c) as L by (rewrite length_take, length_bits_of; lia).
  rewrite <- L at 2. apply splice_inner; rewrite ?L, ?length_buf_bits; lia.
Qed.

Lemma write_full_bytes_spec q : forall fuel u t i bytes,
  (q < fuel)%nat -> (t < 8)%nat -> (8 * q + t <= 64)%nat -> (i + q <= length bytes)%nat -> is_bytes bytes ->
  exists bytes', write_full_bytes fuel (aligned (8 * q + t) u) (Z.of_nat (8 * q + t)) (Z.of_nat i) bytes
    = Ret (aligned t u, Z.of_nat t, Z.of_nat (i + q), bytes') /\
    is_bytes bytes' /\ length bytes' = length bytes /\
    buf_bits bytes' = splice (8 * i) (bits_of (8 * q) (u / 2 ^ Z.of_nat t)) (buf_bits bytes).
Proof.
  induction q as [|q IH]; intros fuel u t i bytes Hf Ht H64 Hlen Hb; (destruct fuel as [|fuel]; [lia|]);
    cbn [write_full_bytes].
  - rewrite (proj2 (Z.leb_gt 8 _)) by lia. exists bytes.
    rewrite Nat.mul_0_r, Nat.add_0_l, Nat.add_0_r. cbn [bits_of]. rewrite splice_nil. done.
  - rewrite (proj2 (Z.leb_le 8 _)) by lia. rewrite store_spec by lia. cbn [run_bind]. rewrite Nat2Z.id.
    pose proof (shl_aligned (8 * S q + t) 8 u ltac:(lia) ltac:(lia)) as Es. change (Z.of_nat 8) with 8 in Es.
    rewrite Es. cbn [run_bind].
    replace (8 * S q + t - 8)%nat with (8 * q + t)%nat by lia.
    replace (Z.of_nat (8 * S q + t) - 8) with (Z.of_nat (8 * q + t)) by lia.
    replace (Z.of_nat i + 1) with (Z.of_nat (S i)) by lia.
    set (h := highest_byte (aligned (8 * S q + t) u)).
    destruct (IH fuel u t (S i) (<[i := h]> bytes)) as (bytes' & E & Hb' & Hl' & B'); try lia.
    { rewrite length_insert. lia. }
    { apply Forall_insert; [done|apply highest_byte_u8]. }
    exists bytes'. rewrite E. replace (S i + q)%nat with (i + S q)%nat by lia. split; [done|]. split; [done|].
    rewrite length_insert in Hl'. split; [done|]. rewrite B', buf_bits_insert by lia.
    assert (bits_of (8 * S q) (u / 2 ^ Z.of_nat t) = bits_of 8 h ++ bits_of (8 * q) (u / 2 ^ Z.of_nat t)) as ->.
    { replace (8 * S q)%nat with (8 + 8 * q)%nat by lia. rewrite bits_of_app. f_equal. subst h.
      rewrite highest_byte_full by lia. rewrite Z.div_div by auto with cxx lia. rewrite <- Z.pow_add_r by lia.
      do 3 f_equal. lia. }
    rewrite <- splice_splice by (rewrite !length_bits_of, length_buf_bits; lia). rewrite length_bits_of.
    f_equal. lia.
Qed.

(** ** [write_bits] *)

Lemma set_bytes_wf w bytes :
  writer_wf w -> is_bytes bytes -> length bytes = length (mWritableBytes w) ->
  writer_wf (set_bytes bytes w) /\ position (set_bytes bytes w) = position w.
Proof. intros [] ? L. split; [|done]. constructor; cbn; try done; lia. Qed.

(** [bytes] is the buffer of [w] with the bits [l] in place at the position of [w]. *)
Definition patched (w : BitBufferWriter) (l : list bool) (bytes : list Z) : Prop :=
  is_bytes bytes /\ length bytes = length (mWritableBytes w) /\
  buf_bits bytes = splice (Z.to_nat (position w)) l (wbits w).

(** The last step of every path: the bits are in place, the position moves. *)
Lemma finish_write n w l bytes :
  writer_wf w -> patched w l bytes -> 0 <= n < 2 ^ 40 -> position w + n <= 8 * mByteCount w ->
  exists w', consume_bits n (set_bytes bytes w) = (true, w') /\ writer_wf w' /\
             position w' = position w + n /\ mByteCount w' = mByteCount w /\
             wbits w' = splice (Z.to_nat (position w)) l (wbits w).
Proof.
  intros Hw (Hb & Hl & B) Hn Hp. destruct (set_bytes_wf w bytes Hw Hb Hl) as [Hw' P].
  rewrite consume_spec by done. rewrite P. cbn [mByteCount set_bytes].
  rewrite (proj2 (Z.ltb_ge _ _)) by lia. eexists. split; [reflexivity|].
  destruct (consumed_wf (set_bytes bytes w) n Hw' ltac:(lia) ltac:(rewrite P; cbn; lia)) as [W Q].
  rewrite P in W, Q. done.
Qed.

(** The first byte takes the [f] leading bits of the value. *)
Lemma write_first_byte val n w b :
  let i := Z.to_nat (mByteOffset w) in
  let f := Z.to_nat (Z.min (Z.of_nat n) (8 - mBitOffset w)) in
  writer_wf w -> (1 <= n <= 64)%nat -> mWritableBytes w !! i = Some b -> is_u 8 b ->
  patched w (take f (bits_of n val))
    (<[i := write_partial_byte (highest_byte (aligned n val)) (Z.of_nat f) b (mBitOffset w)]> (mWritableBytes w)).
Proof.
  intros i f [Hb Hc Hs Ho Hbit He] Hn Eb Hbu. pose proof (lookup_lt_Some _ _ _ Eb) as Hi.
  set (h := highest_byte (aligned n val)). pose proof (highest_byte_u8 (aligned n val)) as Hh. fold h in Hh.
  set (o := Z.to_nat (mBitOffset w)).
  split; [apply Forall_insert; [done|apply write_partial_byte_u8]|]. split; [apply length_insert|].
  replace (Z.to_nat (position w)) with (8 * i + o)%nat by (unfold position; lia).
  assert (take f (bits_of 8 h) = take f (bits_of n val) /\
          ((o + f = 8)%nat \/ h mod 2 ^ (8 - Z.of_nat f) = 0)) as [Eh Hlow].
  { destruct (Nat.le_gt_cases n 8).
    - destruct (highest_byte_part n val) as (_ & T & Z0); [lia|]. fold h in T, Z0. split.
      + rewrite <- T, take_take. f_equal. lia.
      + destruct (Nat.eq_dec f n) as [->|]; [by right|left; lia].
    - split; [|left; lia]. subst h. rewrite highest_byte_full by lia.
      rewrite <- (take_bits_of 8 n val), take_take by lia. f_equal. lia. }
  replace (mBitOffset w) with (Z.of_nat o) by lia.
  rewrite (store_partial_spec i o f h b) by (done || lia). by rewrite Eh.
Qed.

(** The last byte takes the [t] trailing bits. *)
Lemma write_last_byte val m t w j b bytes :
  patched w (bits_of m (val / 2 ^ Z.of_nat t)) bytes -> bytes !! j = Some b -> is_u 8 b -> (t < 8)%nat ->
  (Z.to_nat (position w) + m = 8 * j)%nat -> 
  patched w (bits_of (m + t) val)
    (<[j := write_partial_byte (highest_byte (aligned t val)) (Z.of_nat t) b 0]> bytes).
Proof.
  intros (Hb & Hl & B) Eb Hbu Ht Hj. pose proof (lookup_lt_Some _ _ _ Eb).
  destruct (highest_byte_part t val) as (_ & T & Z0); [lia|].
  split; [apply Forall_insert; [done|apply write_partial_byte_u8]|]. split; [by rewrite length_insert|].
  change 0 with (Z.of_nat 0). rewrite (store_partial_spec j 0 t _ b);
    [|done|done|done|apply highest_byte_u8|lia|by right].
  rewrite T, B, Nat.add_0_r, <- Hj. rewrite <- (length_bits_of m (val / 2 ^ Z.of_nat t)) at 1.
  rewrite splice_splice by (unfold wbits; rewrite !length_bits_of, length_buf_bits; lia).
  by rewrite bits_of_app.
Qed.

Lemma write_bits_short val n w :
  writer_wf w -> 8 * mByteCount w < position w + n -> write_bits val n w = Ret (false, w).
Proof. intros. unfold write_bits. rewrite remaining_spec by done. by rewrite (proj2 (Z.ltb_lt _ _)) by lia. Qed.

(** The whole bytes between the first and the last. *)
Lemma write_middle_bytes val n w f q t i bytes :
  patched w (take f (bits_of n val)) bytes -> (f <= n)%nat -> n = (f + (8 * q + t))%nat -> (t < 8)%nat -> (n <= 64)%nat ->
  (Z.to_nat (position w) + f = 8 * i)%nat -> (i + q <= length bytes)%nat ->
  exists bytes', write_full_bytes (S (8 * q + t)) (aligned (8 * q + t) val) (Z.of_nat (8 * q + t)) (Z.of_nat i) bytes
    = Ret (aligned t val, Z.of_nat t, Z.of_nat (i + q), bytes') /\
    patched w (bits_of (f + 8 * q) (val / 2 ^ Z.of_nat t)) bytes'.
Proof.
  intros (Hb & Hl & B) Hf -> Ht H64 Hi Hq.
  destruct (write_full_bytes_spec q (S (8 * q + t)) val t i bytes) as (bytes' & E & Hb' & Hl' & B'); try done; try lia.
  exists bytes'. rewrite E. split; [done|]. split; [done|]. split; [congruence|].
  rewrite B', B, <- Hi.
  assert (length (take f (bits_of (f + (8 * q + t)) val)) = f) as L by (rewrite length_take, length_bits_of; lia).
  rewrite <- L at 1. rewrite splice_splice by (unfold wbits; rewrite L, length_bits_of, length_buf_bits; lia).
  f_equal. rewrite take_bits_of, (bits_of_app f) by lia. f_equal. f_equal.
  rewrite Z.div_div by auto with cxx lia. rewrite <- Z.pow_add_r by lia. do 2 f_equal. lia.
Qed.

Lemma write_bits_spec val n w :
  writer_wf w -> (1 <= n <= 64)%nat -> position w + Z.of_nat n <= 8 * mByteCount w ->
  exists w', write_bits val (Z.of_nat n) w = Ret (true, w') /\ writer_wf w' /\
             position w' = position w + Z.of_nat n /\ mByteCount w' = mByteCount w /\
             wbits w' = splice (Z.to_nat (position w)) (bits_of n val) (wbits w).
Proof.
  intros Hw Hn Hp. pose proof Hw as [Hb Hc Hs Ho Hbit He].
  assert (mByteOffset w < mByteCount w) as Hoff by (unfold position in Hp; lia).
  unfold write_bits. rewrite remaining_spec by done. rewrite (proj2 (Z.ltb_ge _ _)) by lia.
  rewrite shl_align by lia. cbn [run_bind].
  destruct (load_spec (mByteOffset w) (mWritableBytes w)) as (b & El & Eb & Hbu); [lia|done|]. rewrite El. cbn [run_bind].
  rewrite store_spec by lia. cbn [run_bind].
  pose proof (write_first_byte val n w b Hw Hn Eb Hbu) as P1. cbv zeta in P1.
  set (f := Z.to_nat (Z.min (Z.of_nat n) (8 - mBitOffset w))) in *.
  replace (Z.min (Z.of_nat n) (8 - mBitOffset w)) with (Z.of_nat f) in * by lia.
  set (bytes := <[_ := _]> (mWritableBytes w)) in *. clearbody bytes.
  destruct (Z.leb_spec (Z.of_nat n) (8 - mBitOffset w)).
  - rewrite take_ge in P1 by (rewrite length_bits_of; lia).
    destruct (finish_write (Z.of_nat n) w (bits_of n val) bytes) as (w' & E & W); try done; try lia.
    exists w'. by rewrite E.
  - rewrite shl_aligned by lia. cbn [run_bind].
    replace (Z.of_nat n - Z.of_nat f) with (Z.of_nat (n - f)) by lia.
    pose proof (Nat.div_mod (n - f) 8 ltac:(lia)) as En. pose proof (Nat.mod_upper_bound (n - f) 8 ltac:(lia)).
    set (q := ((n - f) / 8)%nat) in *. set (t := ((n - f) mod 8)%nat) in *. clearbody q t.
    rewrite En, Nat2Z.id. replace (mByteOffset w + 1) with (Z.of_nat (Z.to_nat (mByteOffset w) + 1)) by lia.
    set (i := (Z.to_nat (mByteOffset w) + 1)%nat).
    assert (Z.to_nat (position w) + f = 8 * i)%nat as Hi by (unfold position; lia).
    destruct P1 as (Hb1 & Hl1 & B1).
    assert (8 * i + 8 * q + t <= 8 * length bytes)%nat by (unfold position in *; lia).
    destruct (write_middle_bytes val n w f q t i bytes) as (bytes2 & E2 & P2); try done; try lia.
    rewrite E2. cbn [run_bind]. clear E2. destruct (Z.ltb_spec 0 (Z.of_nat t)).
    + destruct P2 as (Hb2 & Hl2 & B2).
      destruct (load_spec (Z.of_nat (i + q)) bytes2) as (b2 & El2 & Eb2 & Hbu2); [lia|done|]. rewrite El2. cbn [run_bind].
      rewrite store_spec by lia. cbn [run_bind]. rewrite Nat2Z.id in *.
      pose proof (write_last_byte val (f + 8 * q) t w (i + q) b2 bytes2 (conj Hb2 (conj Hl2 B2)) Eb2 Hbu2
        ltac:(lia) ltac:(lia)) as P3. replace (f + 8 * q + t)%nat with n in P3 by lia.
      destruct (finish_write (Z.of_nat n) w _ _ Hw P3) as (w' & E & W); try lia. exists w'. by rewrite E.
    + assert (t = 0)%nat as -> by lia. rewrite Z.div_1_r in P2. replace (f + 8 * q)%nat with n in P2 by lia.
      destruct (finish_write (Z.of_nat n) w _ _ Hw P2) as (w' & E & W); try lia. exists w'. by rewrite E.
Qed.
