(* ===== verification/BitBufferCodec.v ===== *)
(** * Codecs of the bit buffer: round trips and failure

    For every encoding of [BitBufferWriter] (fixed width, non-symmetric,
    exponential Golomb, LEB128, strings): the bits it lays down, and that
    [BitBufferReader] placed at the same position reads the value back and stops
    right after it.  The failure state of the reader is absorbing. *)

From stdpp Require Import prelude list numbers.
From Stdlib Require Import ZArith Lia.
From S2P Require Import Prelude BitList Bits BitBuffer BitReaderFacts BitWriterFacts.
Import Reader Writer.

#[local] Open Scope Z_scope.

(** [w'] is [w] after the bits [l] were written at its position. *)
Definition wrote (l : list bool) (w w' : BitBufferWriter) : Prop :=
  writer_wf w' /\ position w' = position w + Z.of_nat (length l) /\ mByteCount w' = mByteCount w /\
  wbits w' = splice (Z.to_nat (position w)) l (wbits w).

(** [l] fits in the buffer from the position of [w]. *)
Definition fits (l : list bool) (w : BitBufferWriter) : Prop :=
  position w + Z.of_nat (length l) <= 8 * mByteCount w.

(** Reader [r'] is [r] after its first unread bits [l] were consumed. *)
Definition consumed (l : list bool) (r r' : BitBufferReader) : Prop :=
  reader_ok r' /\ unread r = l ++ unread r'.

(** A reader created over the buffer of [w] and moved to bit [p]. *)
Definition reader_at (p : Z) (w : BitBufferWriter) : run BitBufferReader :=
  Reader.consume_bits p (Reader.make (mWritableBytes w)).

Lemma wf_position w : writer_wf w -> 0 <= position w <= 8 * mByteCount w.
Proof.
  intros [_ _ _ Ho Hb He]. unfold position.
  destruct (Z.eq_dec (mByteOffset w) (mByteCount w)) as [E|]; [specialize (He E)|]; lia.
Qed.

Lemma length_wbits w : writer_wf w -> Z.of_nat (length (wbits w)) = 8 * mByteCount w.
Proof. intros []. unfold wbits. rewrite length_buf_bits. lia. Qed.

Lemma wrote_nil w : writer_wf w -> wrote [] w w.
Proof. intros. split; [done|]. cbn. rewrite splice_nil. repeat split; lia. Qed.

Lemma wrote_app l1 l2 w w1 w2 :
  writer_wf w -> fits (l1 ++ l2) w -> wrote l1 w w1 -> wrote l2 w1 w2 -> wrote (l1 ++ l2) w w2.
Proof.
  intros Hw Hf (W1 & P1 & C1 & B1) (W2 & P2 & C2 & B2). unfold fits in Hf. rewrite length_app in Hf.
  pose proof (wf_position w Hw). pose proof (length_wbits w Hw).
  split; [done|]. rewrite length_app. split; [lia|]. split; [congruence|].
  rewrite B2, B1. replace (Z.to_nat (position w1)) with (Z.to_nat (position w) + length l1)%nat by lia.
  apply splice_splice. lia.
Qed.

Lemma write_bits_wrote val n w :
  writer_wf w -> (1 <= n <= 64)%nat -> fits (bits_of n val) w ->
  exists w', write_bits val (Z.of_nat n) w = Ret (true, w') /\ wrote (bits_of n val) w w'.
Proof.
  intros Hw Hn Hf. unfold fits in Hf. rewrite length_bits_of in Hf.
  destruct (write_bits_spec val n w Hw Hn Hf) as (w' & E & ?). exists w'. split; [done|].
  unfold wrote. by rewrite length_bits_of.
Qed.

(** A reader placed where the writer started sees what was written. *)
Lemma reader_at_wrote l w w' :
  writer_wf w -> fits l w -> wrote l w w' ->
  exists r, reader_at (position w) w' = Ret r /\ reader_ok r /\
            unread r = l ++ drop (Z.to_nat (position w')) (wbits w').
Proof.
  intros Hw Hf (W & P & C & B). unfold fits in Hf. pose proof (wf_position w Hw). pose proof (length_wbits w Hw).
  destruct (make_ok (mWritableBytes w')) as [Hok U]; [apply W|].
  pose proof (wf_position w' W). destruct W as [Wb Wc _ _ _ _].
  destruct (consume_bits_spec (Z.to_nat (position w)) (Reader.make (mWritableBytes w')) Hok) as (r & E & Hr & _ & Ur).
  { cbn. lia. }
  rewrite Z2Nat.id in E by lia. exists r. split; [done|]. split; [done|].
  rewrite Ur, U. fold (wbits w'). rewrite B. unfold splice.
  rewrite drop_app_length' by (rewrite length_take; lia). f_equal.
  rewrite app_assoc, drop_app_length'; [done|]. rewrite length_app, length_take. lia.
Qed.

Lemma consumed_trans l1 l2 r r1 r2 : consumed l1 r r1 -> consumed l2 r1 r2 -> consumed (l1 ++ l2) r r2.
Proof. intros [_ E1] [H2 E2]. split; [done|]. by rewrite E1, E2, app_assoc. Qed.

Lemma read_bits_consumed n v rest r :
  reader_ok r -> (n <= 64)%nat -> unread r = bits_of n v ++ rest ->
  exists r', read_bits (Z.of_nat n) r = Ret (v mod 2 ^ Z.of_nat n, r') /\ consumed (bits_of n v) r r' /\ unread r' = rest.
Proof.
  intros Hok Hn U. pose proof (length_unread r Hok) as L. rewrite U, length_app, length_bits_of in L.
  destruct (read_bits_spec n r Hok Hn) as (r' & E & Hr' & _ & U'); [destruct Hok; lia|].
  rewrite U in *. rewrite take_app_length', val_of_bits_of in E by (by rewrite length_bits_of).
  rewrite drop_app_length' in U' by (by rewrite length_bits_of).
  exists r'. split; [done|]. unfold consumed. rewrite U, U'. done.
Qed.

Lemma read_bit_consumed b rest r :
  reader_ok r -> unread r = b :: rest ->
  exists r', read_bit r = Ret (Z.b2z b, r') /\ reader_ok r' /\ unread r' = rest.
Proof.
  intros Hok U. pose proof (length_unread r Hok) as L. rewrite U in L. cbn in L.
  destruct (read_bit_spec r Hok) as (b' & l & r' & U' & E & Hr' & _ & Ur'); [destruct Hok; lia|].
  rewrite U in U'. injection U' as <- <-. exists r'. done.
Qed.

(** ** Exponential Golomb *)

(** [v + 1] preceded by one zero less than its bit width. *)
Definition golomb_bits (v : Z) : list bool := bits_of (Z.to_nat (bit_width 64 (v + 1) * 2 - 1)) (v + 1).

Lemma golomb_shape v :
  0 <= v < 2 ^ 32 - 1 ->
  exists z, bit_width 64 (v + 1) = Z.of_nat z + 1 /\ (z < 32)%nat /\ 2 ^ Z.of_nat z <= v + 1 < 2 ^ (Z.of_nat z + 1) /\
            golomb_bits v = replicate z false ++ true :: bits_of z (v + 1).
Proof.
  intros Hv. destruct (bit_width_bounds 64 (v + 1)) as [Hb Hp]; [by right; right; right|lia|].
  unfold golomb_bits. set (bw := bit_width 64 (v + 1)) in *. exists (Z.to_nat (bw - 1)).
  rewrite Z2Nat.id by lia. replace (bw - 1 + 1) with bw by lia. split; [done|].
  assert (bw - 1 < 32) by (apply (Z.pow_lt_mono_r_iff 2); lia). split; [lia|]. split; [done|].
  set (z := Z.to_nat (bw - 1)). replace (Z.to_nat (bw * 2 - 1)) with (z + S z)%nat by lia.
  rewrite bits_of_app. replace (Z.of_nat (S z)) with bw by lia. rewrite Z.div_small by lia.
  rewrite bits_of_zero. f_equal. cbn [bits_of]. f_equal.
  replace (Z.of_nat z) with (bw - 1) by lia. replace (bw - 1) with (Z.log2 (v + 1)).
  - apply Z.bit_log2. lia.
  - apply Z.log2_unique; [lia|]. by replace (Z.succ (bw - 1)) with bw by lia.
Qed.

Lemma write_golomb_wrote v w :
  writer_wf w -> 0 <= v < 2 ^ 32 - 1 -> fits (golomb_bits v) w ->
  exists w', write_exponential_golomb v w = Ret (true, w') /\ wrote (golomb_bits v) w w'.
Proof.
  intros Hw Hv Hf. destruct (golomb_shape v Hv) as (z & Ez & Hz & _ & _).
  unfold write_exponential_golomb. rewrite (proj2 (Z.eqb_neq _ _)) by lia. unfold golomb_bits in *.
  rewrite Ez in *. replace ((Z.of_nat z + 1) * 2 - 1) with (Z.of_nat (2 * z + 1)) in * by lia.
  rewrite Nat2Z.id in *. apply write_bits_wrote; [done|lia|done].
Qed.

Lemma count_zero_bits_spec z : forall fuel c rest r,
  (z < fuel)%nat -> 0 <= c -> c + Z.of_nat z < 32 -> reader_ok r -> unread r = replicate z false ++ true :: rest ->
  exists r', count_zero_bits fuel c r = Ret (Some (c + Z.of_nat z), r') /\ reader_ok r' /\ unread r' = rest.
Proof.
  induction z as [|z IH]; intros fuel c rest r Hf Hc Hz Hok U; (destruct fuel as [|fuel]; [lia|]); cbn [count_zero_bits].
  - destruct (read_bit_consumed true rest r Hok U) as (r' & -> & Hr' & Ur'). cbn.
    rewrite Z.add_0_r. exists r'. done.
  - destruct (read_bit_consumed false (replicate z false ++ true :: rest) r Hok U) as (r' & -> & Hr' & Ur'). cbn.
    rewrite (proj2 (Z.leb_gt 32 _)) by lia.
    destruct (IH fuel (c + 1) rest r') as (r2 & -> & ? & ?); try done; try lia.
    exists r2. replace (c + 1 + Z.of_nat z) with (c + Z.of_nat (S z)) by lia. done.
Qed.

Lemma read_golomb_consumed v rest r :
  0 <= v < 2 ^ 32 - 1 -> reader_ok r -> unread r = golomb_bits v ++ rest ->
  exists r', read_exponential_golomb r = Ret (v, r') /\ consumed (golomb_bits v) r r' /\ unread r' = rest.
Proof.
  intros Hv Hok U. destruct (golomb_shape v Hv) as (z & Ez & Hz & Hp & Eb). pose proof U as U0.
  rewrite Eb in U. rewrite <- app_assoc in U. cbn in U. unfold read_exponential_golomb.
  destruct (count_zero_bits_spec z 33 0 _ r ltac:(lia) ltac:(lia) ltac:(lia) Hok U) as (r1 & -> & Hr1 & U1).
  cbn [run_bind]. rewrite Z.add_0_l.
  assert (shl 32 1 (Z.of_nat z) = Ret (2 ^ Z.of_nat z)) as ->.
  { apply (shl_T_one 32); [by right; right; left|lia]. }
  cbn [run_bind]. destruct (read_bits_consumed z (v + 1) rest r1 Hr1 ltac:(lia) U1) as (r2 & -> & [Hr2 _] & U2).
  cbn [run_bind]. exists r2. split; [|split; [|done]].
  - do 2 f_equal. pose proof (pow2_pos (Z.of_nat z) ltac:(lia)).
    assert (2 ^ Z.of_nat z <= 2 ^ 31) by (apply Z.pow_le_mono_r; lia).
    rewrite Z.pow_add_r in Hp by lia. change (2 ^ 1) with 2 in Hp.
    assert ((v + 1) mod 2 ^ Z.of_nat z = v + 1 - 2 ^ Z.of_nat z) as ->
      by (symmetry; apply (Z.mod_unique_pos _ _ 1); lia).
    rewrite (wrap_small 32 (v + 1 - _)) by lia. rewrite wrap_small by lia. lia.
  - split; [done|]. by rewrite U0, U2.
Qed.

(** Signed values: 0, 1, -1, 2, -2, ... *)
Definition zigzag (v : Z) : Z := if 0 <? v then 2 * v - 1 else - 2 * v.

Lemma read_signed_golomb_consumed v rest r :
  - 2 ^ 31 < v < 2 ^ 31 -> reader_ok r -> unread r = golomb_bits (zigzag v) ++ rest ->
  exists r', read_signed_exponential_golomb r = Ret (v, r') /\ consumed (golomb_bits (zigzag v)) r r' /\ unread r' = rest.
Proof.
  intros Hv Hok U. unfold read_signed_exponential_golomb.
  assert (0 <= zigzag v < 2 ^ 32 - 1) by (unfold zigzag; case_test; lia).
  destruct (read_golomb_consumed (zigzag v) rest r) as (r' & -> & C & U'); try done.
  cbn [run_bind]. exists r'. split; [|done]. change 1 with (2 ^ 1 - 1) at 1. rewrite land_ones_mod by lia. change (2 ^ 1) with 2.
  unfold zigzag in *. destruct (Z.ltb_spec 0 v).
  - replace (2 * v - 1) with (1 + (v - 1) * 2) by lia. rewrite Z.mod_add by lia. cbn [Z.eqb Z.modulo Z.div_eucl].
    change (1 mod 2 =? 0) with false. cbn iota. rewrite wrap_small by lia.
    replace (1 + (v - 1) * 2 + 1) with (v * 2) by lia. rewrite Z.div_mul by lia.
    unfold to_signed. rewrite Z.mod_small by lia. by rewrite (proj2 (Z.ltb_lt _ _)) by lia.
  - replace (- 2 * v) with ((- v) * 2) by lia. rewrite Z.mod_mul, Z.div_mul by lia. cbn [Z.eqb].
    unfold to_signed. rewrite Z.mod_small by lia. rewrite (proj2 (Z.ltb_lt _ _)) by lia. do 2 f_equal. lia.
Qed.

Lemma write_signed_golomb_eq v w :
  - 2 ^ 31 < v < 2 ^ 31 -> write_signed_exponential_golomb v w = write_exponential_golomb (zigzag v) w.
Proof.
  intros Hv. unfold write_signed_exponential_golomb, zigzag.
  destruct (Z.eqb_spec v 0) as [->|]; [done|]. destruct (Z.ltb_spec 0 v).
  - f_equal. rewrite (wrap_small 32 v), (wrap_small 32 (v * 2)), wrap_small by lia. lia.
  - rewrite (proj2 (Z.eqb_neq _ _)) by lia. f_equal. rewrite (wrap_small 32 (- v)), wrap_small by lia. lia.
Qed.

(** ** Non-symmetric values *)

Definition non_symmetric_bits (val num_values : Z) : list bool :=
  let n := bit_width 32 num_values in
  let k := 2 ^ n - num_values in
  if num_values =? 1 then []
  else if val <? k then bits_of (Z.to_nat (n - 1)) val else bits_of (Z.to_nat n) (val + k).

Lemma shl32_one n : 0 <= n < 32 -> shl 32 1 n = Ret (2 ^ n).
Proof. intros. apply (shl_T_one 32); [by right; right; left|lia]. Qed.

(** For [1 <= num_values < 2^31] the shift of both routines is defined. *)
Lemma non_symmetric_width num_values :
  1 <= num_values < 2 ^ 31 ->
  exists n, bit_width 32 num_values = Z.of_nat n + 1 /\ (n < 31)%nat /\
            2 ^ Z.of_nat n <= num_values < 2 ^ (Z.of_nat n + 1) /\
            shl 32 1 (Z.of_nat n + 1) = Ret (2 ^ (Z.of_nat n + 1)) /\
            wrap 32 (2 ^ (Z.of_nat n + 1) - num_values) = 2 ^ (Z.of_nat n + 1) - num_values.
Proof.
  intros Hv. destruct (bit_width_bounds 32 num_values) as [Hb Hp]; [by right; right; left|lia|].
  set (bw := bit_width 32 num_values) in *. exists (Z.to_nat (bw - 1)). rewrite Z2Nat.id by lia.
  replace (bw - 1 + 1) with bw by lia.
  assert (bw - 1 < 31) by (apply (Z.pow_lt_mono_r_iff 2); lia).
  assert (2 ^ bw <= 2 ^ 31) by (apply Z.pow_le_mono_r; lia).
  split; [done|]. split; [lia|]. split; [done|]. split; [apply shl32_one; lia|apply wrap_small; lia].
Qed.

Lemma write_non_symmetric_wrote val num_values w :
  writer_wf w -> 1 <= num_values < 2 ^ 31 -> 0 <= val < num_values ->
  fits (non_symmetric_bits val num_values) w ->
  exists w', write_non_symmetric val num_values w = Ret (true, w') /\ wrote (non_symmetric_bits val num_values) w w'.
Proof.
  intros Hw Hn Hv Hf. unfold write_non_symmetric, non_symmetric_bits in *. destruct (Z.eqb_spec num_values 1) as [|N1].
  { exists w. split; [done|]. by apply wrote_nil. }
  destruct (non_symmetric_width num_values Hn) as (n & En & Hn31 & Hp & Es & Ew). rewrite En, Es in *.
  cbn [run_bind]. rewrite Ew.
  assert (n <> 0)%nat by (intros ->; cbn in Hp; lia). rewrite (Z.pow_add_r 2 (Z.of_nat n) 1) in * by lia.
  assert (2 ^ Z.of_nat n <= 2 ^ 30) by (apply Z.pow_le_mono_r; lia). change (2 ^ 1) with 2 in *.
  destruct (Z.ltb_spec val (2 ^ Z.of_nat n * 2 - num_values)).
  - replace (Z.of_nat n + 1 - 1) with (Z.of_nat n) in * by lia. rewrite Nat2Z.id in *.
    apply write_bits_wrote; [done|lia|done].
  - rewrite wrap_small by lia. replace (Z.of_nat n + 1) with (Z.of_nat (S n)) in * by lia.
    rewrite Nat2Z.id in *. apply write_bits_wrote; [done|lia|done].
Qed.

Lemma read_non_symmetric_consumed val num_values rest r :
  1 <= num_values < 2 ^ 31 -> 0 <= val < num_values -> reader_ok r ->
  unread r = non_symmetric_bits val num_values ++ rest ->
  exists r', read_non_symmetric num_values r = Ret (val, r') /\
             consumed (non_symmetric_bits val num_values) r r' /\ unread r' = rest.
Proof.
  intros Hn Hv Hok U. unfold read_non_symmetric.
  destruct (non_symmetric_width num_values Hn) as (n & En & Hn31 & Hp & Es & Ew). rewrite En, Es. cbn [run_bind].
  rewrite Ew. replace (Z.of_nat n + 1 - 1) with (Z.of_nat n) by lia.
  unfold non_symmetric_bits in *. rewrite En in *. rewrite (Z.pow_add_r 2 (Z.of_nat n) 1) in * by lia.
  pose proof (pow2_pos (Z.of_nat n)). assert (2 ^ Z.of_nat n <= 2 ^ 30) by (apply Z.pow_le_mono_r; lia).
  change (2 ^ 1) with 2 in *. set (k := 2 ^ Z.of_nat n * 2 - num_values) in *.
  destruct (Z.eqb_spec num_values 1) as [E1|N1].
  { assert (n = 0)%nat as -> by (destruct n; [done|]; pose proof (Z.pow_le_mono_r 2 1 (Z.of_nat (S n))); lia).
    destruct (read_bits_consumed 0 val rest r Hok ltac:(lia) U) as (r' & -> & C & U'). cbn [run_bind].
    rewrite Z.mod_1_r. rewrite (proj2 (Z.ltb_lt _ _)) by lia. exists r'. rewrite wrap_small by lia.
    split; [do 2 f_equal; lia|done]. }
  destruct (Z.ltb_spec val k).
  - replace (Z.to_nat (Z.of_nat n + 1 - 1)) with n in * by lia.
    destruct (read_bits_consumed n val rest r Hok ltac:(lia) U) as (r' & -> & C & U'). cbn [run_bind].
    rewrite Z.mod_small by lia. rewrite (proj2 (Z.ltb_lt _ _)) by lia. exists r'. rewrite wrap_small by lia. done.
  - replace (Z.to_nat (Z.of_nat n + 1)) with (n + 1)%nat in * by lia.
    rewrite bits_of_app, <- app_assoc in U. change (2 ^ Z.of_nat 1) with 2 in U.
    destruct (read_bits_consumed n _ _ r Hok ltac:(lia) U) as (r1 & -> & C1 & U1). cbn [run_bind].
    pose proof (Z.div_mod (val + k) 2 ltac:(lia)). pose proof (Z.mod_pos_bound (val + k) 2 ltac:(lia)).
    rewrite (Z.mod_small ((val + k) / 2)) by lia. rewrite (proj2 (Z.ltb_ge _ _)) by lia.
    cbn [bits_of app] in U1. destruct (read_bit_consumed _ _ r1 (proj1 C1) U1) as (r2 & -> & Hr2 & U2). cbn [run_bind].
    exists r2. split; [|split; [|done]].
    + do 2 f_equal. change (Z.of_nat 0) with 0. rewrite Z.bit0_mod.
      rewrite Z.shiftl_mul_pow2 by lia. change (2 ^ 1) with 2. rewrite (wrap_small 64 (_ * 2)), (wrap_small 64), wrap_small by lia. lia.
    + split; [done|]. rewrite bits_of_app, <- app_assoc. change (2 ^ Z.of_nat 1) with 2. rewrite U. by rewrite U2.
Qed.

(** ** LEB128 *)

(** Base-128 digits, least significant first, the high bit marking "more follows". *)
Fixpoint leb_bytes (f : nat) (v : Z) : list Z :=
  match f with
  | O => []
  | S f => if 0 <? v / 128 then (128 + v mod 128) :: leb_bytes f (v / 128) else [v]
  end.

Definition leb128_bits (v : Z) : list bool := buf_bits (leb_bytes 10 v).

Lemma leb_range f v : 0 <= v < 2 ^ (7 * Z.of_nat (S f)) -> 0 <= v / 128 < 2 ^ (7 * Z.of_nat f) /\ 0 <= v mod 128 < 128.
Proof.
  intros. replace (7 * Z.of_nat (S f)) with (7 + 7 * Z.of_nat f) in * by lia. rewrite Z.pow_add_r in * by lia.
  change (2 ^ 7) with 128 in *. split; [|apply Z.mod_pos_bound; lia].
  split; [apply Z.div_pos; lia|apply Z.div_lt_upper_bound; lia].
Qed.

Lemma leb_byte_eq v : 0 <= v -> Z.lor (Z.land v 0x7f) 0x80 = 128 + v mod 128.
Proof.
  intros. change 0x7f with (2 ^ 7 - 1). rewrite land_ones_mod by lia. change 0x80 with (1 * 2 ^ 7).
  rewrite Z.lor_comm, lor_add by (try apply Z.mod_pos_bound; lia). done.
Qed.

Lemma shiftr7 v : Z.shiftr v 7 = v / 128.
Proof. by rewrite Z.shiftr_div_pow2 by lia. Qed.

Lemma write_u8_wrote b w :
  writer_wf w -> fits (bits_of 8 b) w -> exists w', write_u_int8 b w = Ret (true, w') /\ wrote (bits_of 8 b) w w'.
Proof. intros. apply (write_bits_wrote b 8 w); [done|lia|done]. Qed.

Lemma fits_app l1 l2 w w1 : fits (l1 ++ l2) w -> wrote l1 w w1 -> fits l2 w1.
Proof. unfold fits, wrote. rewrite length_app. intros. lia. Qed.

Lemma fits_prefix l1 l2 w : fits (l1 ++ l2) w -> fits l1 w.
Proof. unfold fits. rewrite length_app. lia. Qed.

Lemma write_leb_loop_wrote f : forall fuel v w,
  (f < fuel)%nat -> (1 <= f)%nat -> 0 <= v < 2 ^ (7 * Z.of_nat f) -> writer_wf w -> fits (buf_bits (leb_bytes f v)) w ->
  exists w', write_leb128_loop fuel v true w = Ret (true, w') /\ wrote (buf_bits (leb_bytes f v)) w w'.
Proof.
  induction f as [|f IH]; intros fuel v w Hf Hf1 Hv Hw Hfit; [lia|]. destruct fuel as [|fuel]; [lia|].
  destruct (leb_range f v Hv) as [Hd Hm]. cbn [write_leb128_loop leb_bytes] in *. rewrite shiftr7.
  destruct (Z.ltb_spec 0 (v / 128)).
  - rewrite leb_byte_eq by lia. rewrite buf_bits_cons in *.
    destruct (write_u8_wrote (128 + v mod 128) w Hw) as (w1 & -> & W1); [by eapply fits_prefix|]. cbn [run_bind andb].
    destruct (IH fuel (v / 128) w1) as (w2 & E & W2); [lia| |lia|apply W1|by eapply fits_app|].
    { destruct f; [cbn in Hd; lia|lia]. }
    exists w2. split; [done|]. by eapply wrote_app.
  - assert (v / 128 = 0) by lia. pose proof (Z.div_mod v 128 ltac:(lia)).
    change 0x7f with (2 ^ 7 - 1). rewrite land_ones_mod by lia. change (2 ^ 7) with 128.
    replace (v mod 128) with v by lia. unfold buf_bits in *. cbn [fmap list_fmap concat] in *. rewrite app_nil_r in *.
    destruct (write_u8_wrote v w Hw Hfit) as (w1 & -> & W1). exists w1. done.
Qed.

Lemma read_u8_consumed b rest r :
  is_u 8 b -> reader_ok r -> unread r = bits_of 8 b ++ rest ->
  exists r', read_u8 r = Ret (b, r') /\ reader_ok r' /\ unread r' = rest.
Proof.
  intros Hb Hok U. destruct (read_bits_consumed 8 b rest r Hok ltac:(lia) U) as (r' & E & [Hr _] & U').
  rewrite Z.mod_small in E by apply Hb. exists r'. done.
Qed.

Lemma land_0x7f b : Z.land b 0x7f = b mod 128.
Proof. apply (land_ones_mod b 7). lia. Qed.

Lemma land_0x80 b : 0 <= b < 256 -> negb (Z.land b 0x80 =? 0) = (128 <=? b).
Proof.
  intros. apply (Z_range_check 256 (fun b => Bool.eqb (negb (Z.land b 0x80 =? 0)) (128 <=? b))) in H; [|reflexivity].
  by apply eqb_prop in H.
Qed.

Lemma read_leb_loop_consumed f : forall fuel v d i rest r,
  (f < fuel)%nat -> (1 <= f)%nat -> 0 <= v < 2 ^ (7 * Z.of_nat f) -> 0 <= i -> i + Z.of_nat f <= 10 -> 0 <= d ->
  d + v * 2 ^ (7 * i) < 2 ^ 64 -> reader_ok r -> unread r = buf_bits (leb_bytes f v) ++ rest ->
  exists n b r', read_leb128_loop fuel d i r = Ret (d + v * 2 ^ (7 * i), n, b, r') /\
                 reader_ok r' /\ unread r' = rest /\ (n = 10 -> b <= 1).
Proof.
  induction f as [|f IH]; intros fuel v d i rest r Hf Hf1 Hv Hi Hi10 Hd H64 Hok U; [lia|]. destruct fuel as [|fuel]; [lia|].
  destruct (leb_range f v Hv) as [Hdv Hm]. pose proof (pow2_pos (7 * i) ltac:(lia)).
  pose proof (Z.div_mod v 128 ltac:(lia)). cbn [read_leb128_loop leb_bytes] in *.
  destruct (Z.ltb_spec 0 (v / 128)).
  - rewrite buf_bits_cons, <- app_assoc in U.
    destruct (read_u8_consumed (128 + v mod 128) _ r ltac:(unfold is_u; lia) Hok U) as (r1 & -> & Hr1 & U1).
    cbn [run_bind]. rewrite land_0x7f, land_0x80 by lia.
    assert ((128 + v mod 128) mod 128 = v mod 128) as -> by (symmetry; apply (Z.mod_unique_pos _ _ 1); lia).
    rewrite shl64_ok by nia. cbn [run_bind].
    assert (f <> 0)%nat by (intros ->; cbn in Hdv; lia).
    rewrite (proj2 (Z.ltb_lt (i + 1) 10)), (proj2 (Z.leb_le 128 _)) by lia. cbn [andb].
    rewrite wrap_small by nia.
    destruct (IH fuel (v / 128) (d + v mod 128 * 2 ^ (7 * i)) (i + 1) rest r1) as (n & b & r' & E & Hr & Ur & Hb);
      try done; try lia; try nia.
    + replace (7 * (i + 1)) with (7 + 7 * i) by lia. rewrite Z.pow_add_r by lia. change (2 ^ 7) with 128. nia.
    + exists n, b, r'. rewrite E. split; [|done]. do 4 f_equal.
      replace (7 * (i + 1)) with (7 + 7 * i) by lia. rewrite Z.pow_add_r by lia. change (2 ^ 7) with 128. nia.
  - assert (v / 128 = 0) by lia. unfold buf_bits in U. cbn [fmap list_fmap concat] in U. rewrite app_nil_r in U.
    destruct (read_u8_consumed v rest r ltac:(unfold is_u; lia) Hok U) as (r1 & -> & Hr1 & U1).
    cbn [run_bind]. rewrite land_0x7f, land_0x80 by lia. rewrite Z.mod_small by lia. rewrite shl64_ok by lia.
    cbn [run_bind]. rewrite (proj2 (Z.leb_gt 128 _)) by lia. rewrite andb_false_r, wrap_small by nia.
    exists (i + 1), v, r1. split; [done|]. split; [done|]. split; [done|]. intros ?.
    assert (i = 9) as -> by lia. change (2 ^ (7 * 9)) with (2 ^ 63) in *. lia.
Qed.

Lemma read_leb128_consumed v rest r :
  0 <= v < 2 ^ 64 -> reader_ok r -> unread r = leb128_bits v ++ rest ->
  exists r', read_leb128 r = Ret (v, r') /\ consumed (leb128_bits v) r r' /\ unread r' = rest.
Proof.
  intros Hv Hok U. unfold read_leb128.
  assert (v < 2 ^ (7 * Z.of_nat 10)) by (pose proof (Z.pow_lt_mono_r 2 64 (7 * Z.of_nat 10)); lia).
  destruct (read_leb_loop_consumed 10 11 v 0 0 rest r) as (n & b & r' & E & Hr & Ur & Hb); try done; try lia.
  rewrite E. cbn [run_bind]. rewrite Z.add_0_l, Z.mul_1_r.
  assert ((n =? 10) && (1 <? b) = false) as ->.
  { destruct (Z.eqb_spec n 10); [|done]. cbn. apply Z.ltb_ge. auto. }
  exists r'. unfold Ok, Reader.remaining_bit_count. rewrite (proj2 (Z.leb_le 0 _)) by apply Hr.
  split; [done|]. split; [split; [done|]; by rewrite U, Ur|done].
Qed.

(** ** Strings *)

Lemma write_string_loop_wrote data : forall w,
  writer_wf w -> Forall (is_u 8) data -> fits (buf_bits data) w ->
  exists w', write_string_loop data true w = Ret (true, w') /\ wrote (buf_bits data) w w'.
Proof.
  induction data as [|c data IH]; intros w Hw Hd Hf; cbn [write_string_loop].
  - exists w. split; [done|]. by apply wrote_nil.
  - apply Forall_cons_1 in Hd as [Hc Hd]. rewrite buf_bits_cons in *. rewrite wrap_small by apply Hc.
    destruct (write_u8_wrote c w Hw) as (w1 & -> & W1); [by eapply fits_prefix|]. cbn [run_bind andb].
    destruct (IH w1) as (w2 & -> & W2); [apply W1|done|by eapply fits_app|].
    exists w2. split; [done|]. by eapply wrote_app.
Qed.

Lemma read_string_loop_consumed data : forall res rest r,
  Forall (is_u 8) data -> reader_ok r -> unread r = buf_bits data ++ rest ->
  exists r', read_string_loop (length data) res r = Ret (res ++ data, r') /\ reader_ok r' /\ unread r' = rest.
Proof.
  induction data as [|c data IH]; intros res rest r Hd Hok U; cbn [read_string_loop length].
  - exists r. by rewrite app_nil_r.
  - apply Forall_cons_1 in Hd as [Hc Hd]. rewrite buf_bits_cons, <- app_assoc in U.
    destruct (read_u8_consumed c _ r Hc Hok U) as (r1 & -> & Hr1 & U1). cbn [run_bind].
    destruct (IH (res ++ [c]) rest r1 Hd Hr1 U1) as (r' & -> & ?). exists r'. by rewrite <- app_assoc.
Qed.

Lemma read_string_consumed data rest r :
  Forall (is_u 8) data -> reader_ok r -> unread r = buf_bits data ++ rest ->
  exists r', read_string (Z.of_nat (length data)) r = Ret (data, r') /\ consumed (buf_bits data) r r' /\ unread r' = rest.
Proof.
  intros Hd Hok U. unfold read_string. rewrite Nat2Z.id.
  destruct (read_string_loop_consumed data [] rest r Hd Hok U) as (r' & -> & Hr & Ur). cbn [run_bind].
  unfold Ok, Reader.remaining_bit_count. rewrite (proj2 (Z.leb_le 0 _)) by apply Hr.
  exists r'. split; [done|]. split; [split; [done|]; by rewrite U, Ur|done].
Qed.

(** ** Round trips *)

(** [write] stores a value at the position of [w]; [read], from a reader over the
    resulting buffer at the same position, returns [x] and stops where the writer
    stands. *)
Definition roundtrips {A} (write : BitBufferWriter -> run (bool * BitBufferWriter))
    (read : BitBufferReader -> run (A * BitBufferReader)) (x : A) (w : BitBufferWriter) : Prop :=
  exists w' r r', write w = Ret (true, w') /\ reader_at (position w) w' = Ret r /\ read r = Ret (x, r') /\
                  mRemainingBits r' = 8 * mByteCount w - position w'.

Lemma roundtrips_intro {A} write (read : BitBufferReader -> run (A * BitBufferReader)) x w l :
  writer_wf w -> fits l w ->
  (exists w', write w = Ret (true, w') /\ wrote l w w') ->
  (forall rest r, reader_ok r -> unread r = l ++ rest ->
     exists r', read r = Ret (x, r') /\ consumed l r r' /\ unread r' = rest) ->
  roundtrips write read x w.
Proof.
  intros Hw Hf (w' & Ew & W) Hread. destruct (reader_at_wrote l w w' Hw Hf W) as (r & Er & Hok & U).
  destruct (Hread _ r Hok U) as (r' & Er' & [Hr' _] & U'). exists w', r, r'. repeat split; try done.
  pose proof (length_unread r' Hr') as L. rewrite U', length_drop in L.
  pose proof (length_wbits w' (proj1 W)). pose proof (wf_position w' (proj1 W)).
  destruct W as (_ & _ & C & _). destruct Hr' as [_ ?]. rewrite <- C. lia.
Qed.

(** ** Failure *)

Definition failed (r : BitBufferReader) : Prop := mRemainingBits r = -1.

Lemma read_bits_failed n r : failed r -> 0 <= n -> read_bits n r = Ret (0, r).
Proof.
  intros Hf Hn. rewrite read_bits_short by (unfold failed in Hf; lia).
  destruct r as [bytes rem]. unfold invalidate, failed in *. cbn in *. by subst.
Qed.

Lemma read_bit_failed r : failed r -> read_bit r = Ret (0, r).
Proof.
  intros Hf. unfold read_bit. unfold failed in Hf. rewrite (proj2 (Z.leb_le _ _)) by lia.
  destruct r as [bytes rem]. unfold invalidate in *. cbn in *. by subst.
Qed.

Lemma count_zero_bits_failed r : forall n fuel c,
  failed r -> 32 - c = Z.of_nat n -> (1 <= n)%nat -> (n <= fuel)%nat -> count_zero_bits fuel c r = Ret (None, r).
Proof.
  induction n as [|n IH]; intros fuel c Hf Hc Hn Hl; [lia|]. destruct fuel as [|fuel]; [lia|].
  cbn [count_zero_bits]. rewrite read_bit_failed by done. cbn. destruct (Z.leb_spec 32 (c + 1)).
  - destruct r as [bytes rem]. unfold invalidate, failed in *. cbn in *. by subst.
  - apply IH; try done; lia.
Qed.

Lemma read_string_loop_failed n res r : failed r -> exists res', read_string_loop n res r = Ret (res', r).
Proof.
  intros Hf. revert res. induction n as [|n IH]; intros res; cbn [read_string_loop]; [by eexists|].
  unfold read_u8. rewrite read_bits_failed by (done || lia). apply IH.
Qed.

(** ** Properties *)

(** C20: [read_bits] is memory safe and exact: on a live reader with at least [n <= 64]
    unread bits it returns the number denoted by the next [n] bits and consumes exactly
    those; with fewer unread bits it returns 0 and fails the reader. *)
Theorem read_bits_refines n r :
  reader_ok r -> (n <= 64)%nat ->
  if mRemainingBits r <? Z.of_nat n then read_bits (Z.of_nat n) r = Ret (0, invalidate r)
  else exists r', read_bits (Z.of_nat n) r = Ret (val_of (take n (unread r)), r') /\ reader_ok r' /\
                  mRemainingBits r' = mRemainingBits r - Z.of_nat n /\ unread r' = drop n (unread r).
Proof.
  intros Hok Hn. case_test; [by apply read_bits_short|]. by apply read_bits_spec.
Qed.

Lemma read_bits_refines_witness :
  if 24 <? Z.of_nat 11 then read_bits (Z.of_nat 11) (Reader.make [0xA5; 0x3C; 0xFF]) = Ret (0, mkReader [0xA5; 0x3C; 0xFF] (-1))
  else exists r', read_bits (Z.of_nat 11) (Reader.make [0xA5; 0x3C; 0xFF]) = Ret (val_of (take 11 (unread (Reader.make [0xA5; 0x3C; 0xFF]))), r') /\
    reader_ok r' /\ mRemainingBits r' = 24 - Z.of_nat 11 /\ unread r' = drop 11 (unread (Reader.make [0xA5; 0x3C; 0xFF])).
Proof.
  apply (read_bits_refines 11 (Reader.make [0xA5; 0x3C; 0xFF])); [|lia].
  apply make_ok. repeat constructor; lia.
Defined.

(** C19: [write_bits] writes exactly the addressed bits: with room for [1 <= n <= 64] bits it
    succeeds, replaces the [n] bits at the current position by the low [n] bits of the value,
    leaves every other bit of the buffer alone and advances by [n]; without room it returns
    false and changes nothing. *)
Theorem write_bits_refines val n w :
  writer_wf w -> (1 <= n <= 64)%nat ->
  if 8 * mByteCount w <? position w + Z.of_nat n then write_bits val (Z.of_nat n) w = Ret (false, w)
  else exists w', write_bits val (Z.of_nat n) w = Ret (true, w') /\ writer_wf w' /\
                  position w' = position w + Z.of_nat n /\ mByteCount w' = mByteCount w /\
                  wbits w' = splice (Z.to_nat (position w)) (bits_of n val) (wbits w).
Proof.
  intros Hw Hn. case_test; [by apply write_bits_short|]. by apply write_bits_spec.
Qed.

Lemma write_bits_refines_witness :
  let w := Writer.make [0; 0; 0] 3 in
  if 24 <? 0 + Z.of_nat 11 then write_bits 0x5AB (Z.of_nat 11) w = Ret (false, w)
  else exists w', write_bits 0x5AB (Z.of_nat 11) w = Ret (true, w') /\ writer_wf w' /\
                  position w' = 0 + Z.of_nat 11 /\ mByteCount w' = 3 /\ wbits w' = splice 0 (bits_of 11 0x5AB) (wbits w).
Proof.
  apply (write_bits_refines 0x5AB 11 (Writer.make [0; 0; 0] 3)); [|lia].
  apply (make_writer_wf [0; 0; 0]); [repeat constructor; lia|cbn; lia].
Defined.

(** An exponential-Golomb value that fits in the buffer is written, and read back by a
    reader at the same position, for every [uint32_t] but the unsupported maximum. *)
Theorem exponential_golomb_roundtrip v w :
  writer_wf w -> 0 <= v < 2 ^ 32 - 1 -> fits (golomb_bits v) w ->
  roundtrips (write_exponential_golomb v) read_exponential_golomb v w.
Proof.
  intros Hw Hv Hf. apply (roundtrips_intro _ _ _ _ (golomb_bits v)); try done; [by apply write_golomb_wrote|].
  intros rest r Hok U. by apply read_golomb_consumed.
Qed.

Lemma exponential_golomb_roundtrip_witness :
  roundtrips (write_exponential_golomb 41) read_exponential_golomb 41 (Writer.make [0xFF; 0xFF; 0xFF] 3).
Proof.
  apply exponential_golomb_roundtrip; [|lia|vm_compute; discriminate].
  apply (make_writer_wf [0xFF; 0xFF; 0xFF]); [repeat constructor; lia|cbn; lia].
Defined.

(** Signed exponential-Golomb values round trip for every [int32_t] but the minimum,
    which the writer rejects without touching the buffer. *)
Theorem signed_exponential_golomb_roundtrip v w :
  writer_wf w -> - 2 ^ 31 <= v < 2 ^ 31 -> fits (golomb_bits (zigzag v)) w ->
  if v =? - 2 ^ 31 then write_signed_exponential_golomb v w = Ret (false, w)
  else roundtrips (write_signed_exponential_golomb v) read_signed_exponential_golomb v w.
Proof.
  intros Hw Hv Hf. case_test; [by subst|].
  apply (roundtrips_intro _ _ _ _ (golomb_bits (zigzag v))); try done.
  - rewrite write_signed_golomb_eq by lia. apply write_golomb_wrote; [done| |done]. unfold zigzag. case_test; lia.
  - intros rest r Hok U. apply read_signed_golomb_consumed; [lia|done|done].
Qed.

Lemma signed_exponential_golomb_roundtrip_witness :
  let w := Writer.make [0xFF; 0xFF; 0xFF] 3 in
  if -13 =? - 2 ^ 31 then write_signed_exponential_golomb (-13) w = Ret (false, w)
  else roundtrips (write_signed_exponential_golomb (-13)) read_signed_exponential_golomb (-13) w.
Proof.
  apply (signed_exponential_golomb_roundtrip (-13) (Writer.make [0xFF; 0xFF; 0xFF] 3)); [|lia|vm_compute; discriminate].
  apply (make_writer_wf [0xFF; 0xFF; 0xFF]); [repeat constructor; lia|cbn; lia].
Defined.

(** Non-symmetric values round trip for every range size below [2^31]. *)
Theorem non_symmetric_roundtrip val num_values w :
  writer_wf w -> 1 <= num_values < 2 ^ 31 -> 0 <= val < num_values -> fits (non_symmetric_bits val num_values) w ->
  roundtrips (write_non_symmetric val num_values) (read_non_symmetric num_values) val w.
Proof.
  intros Hw Hn Hv Hf. apply (roundtrips_intro _ _ _ _ (non_symmetric_bits val num_values)); try done.
  - by apply write_non_symmetric_wrote.
  - intros rest r Hok U. by apply read_non_symmetric_consumed.
Qed.

Lemma non_symmetric_roundtrip_witness :
  roundtrips (write_non_symmetric 4 5) (read_non_symmetric 5) 4 (Writer.make [0xFF; 0xFF] 2).
Proof.
  apply non_symmetric_roundtrip; [|lia|lia|vm_compute; discriminate].
  apply (make_writer_wf [0xFF; 0xFF]); [repeat constructor; lia|cbn; lia].
Defined.

(** The largest range size the debug checks admit, [num_values = 2^31], makes reader, writer
    and size computation shift a 32-bit one by 32 places, which C++ leaves undefined. *)
Theorem non_symmetric_limit_undefined val r w :
  read_non_symmetric (2 ^ 31) r = Undef /\ write_non_symmetric val (2 ^ 31) w = Undef /\
  size_non_symmetric_bits val (2 ^ 31) = Undef.
Proof. repeat split. Qed.

(** Every 64-bit value round trips through LEB128. *)
Theorem leb128_roundtrip v w :
  writer_wf w -> 0 <= v < 2 ^ 64 -> fits (leb128_bits v) w -> roundtrips (write_leb128 v) read_leb128 v w.
Proof.
  intros Hw Hv Hf. apply (roundtrips_intro _ _ _ _ (leb128_bits v)); try done.
  - apply (write_leb_loop_wrote 10); done || lia || (pose proof (Z.pow_lt_mono_r 2 64 (7 * Z.of_nat 10)); lia).
  - intros rest r Hok U. by apply read_leb128_consumed.
Qed.

Lemma leb128_roundtrip_witness : roundtrips (write_leb128 624485) read_leb128 624485 (Writer.make [1; 2; 3; 4] 4).
Proof.
  apply leb128_roundtrip; [|lia|vm_compute; discriminate].
  apply (make_writer_wf [1; 2; 3; 4]); [repeat constructor; lia|cbn; lia].
Defined.

(** Strings round trip, at any bit alignment. *)
Theorem string_roundtrip data w :
  writer_wf w -> Forall (is_u 8) data -> fits (buf_bits data) w ->
  roundtrips (write_string data) (read_string (Z.of_nat (length data))) data w.
Proof.
  intros Hw Hd Hf. apply (roundtrips_intro _ _ _ _ (buf_bits data)); try done.
  - by apply write_string_loop_wrote.
  - intros rest r Hok U. by apply read_string_consumed.
Qed.

Lemma string_roundtrip_witness :
  roundtrips (write_string [104; 105]) (read_string 2) [104; 105] (mkWriter [0; 0; 0] 3 0 3).
Proof.
  apply (string_roundtrip [104; 105] (mkWriter [0; 0; 0] 3 0 3)); [|repeat constructor; lia|vm_compute; discriminate].
  constructor; cbn; try lia. repeat constructor; lia.
Defined.

(** Failure is absorbing: once a read has failed, every later read of any kind returns
    0 (or the empty string) and leaves the reader failed, whatever the buffer holds. *)
Theorem failure_absorbing r n num_values :
  failed r -> 0 <= n -> 1 <= num_values < 2 ^ 31 ->
  read_bits n r = Ret (0, r) /\ read_bit r = Ret (0, r) /\ Reader.consume_bits n r = Ret r /\
  read_non_symmetric num_values r = Ret (0, r) /\ read_exponential_golomb r = Ret (0, r) /\
  read_signed_exponential_golomb r = Ret (0, r) /\ read_leb128 r = Ret (0, r) /\ read_string n r = Ret ([], r).
Proof.
  intros Hf Hn Hv. assert (Ok r = false) as HOk by (unfold Ok, Reader.remaining_bit_count; rewrite Hf; done).
  assert (read_exponential_golomb r = Ret (0, r)) as EG.
  { unfold read_exponential_golomb. by rewrite (count_zero_bits_failed r 32) by (done || lia). }
  split; [by apply read_bits_failed|]. split; [by apply read_bit_failed|].
  split. { unfold Reader.consume_bits. unfold failed in Hf. rewrite (proj2 (Z.ltb_lt _ _)) by lia.
           destruct r as [bytes rem]. unfold invalidate. cbn in *. by subst. }
  split. { unfold read_non_symmetric. destruct (non_symmetric_width num_values Hv) as (k & Ek & _ & Hp & Es & Ew).
           rewrite Ek, Es. cbn [run_bind]. rewrite Ew, read_bits_failed by (done || lia). cbn [run_bind].
           by rewrite (proj2 (Z.ltb_lt _ _)) by lia. }
  split; [done|]. split. { unfold read_signed_exponential_golomb. by rewrite EG. }
  split. { destruct r as [bytes rem]. unfold failed in Hf. cbn in Hf. by subst. }
  unfold read_string. destruct (read_string_loop_failed (Z.to_nat n) [] r Hf) as (res & ->). cbn -[Ok]. by rewrite HOk.
Qed.

Lemma failure_absorbing_witness :
  let r := mkReader [7; 8; 9] (-1) in
  read_bits 5 r = Ret (0, r) /\ read_bit r = Ret (0, r) /\ Reader.consume_bits 5 r = Ret r /\
  read_non_symmetric 9 r = Ret (0, r) /\ read_exponential_golomb r = Ret (0, r) /\
  read_signed_exponential_golomb r = Ret (0, r) /\ read_leb128 r = Ret (0, r) /\ read_string 5 r = Ret ([], r).
Proof. apply (failure_absorbing (mkReader [7; 8; 9] (-1)) 5 9); [reflexivity|lia|lia]. Defined.
