(* ===== verification/RawHashSet.v ===== *)
(** * containers/detail/raw_hash_set.hpp: the open-addressing hash table

    Models [raw_hash_set], the core of [flat_hash_set] and [flat_hash_map].  The
    control bytes are a list of [capacity + 1] values (the last one the
    sentinel; the null pointer of an empty table is the empty list), the slots a
    list of optional values: [None] is raw or destroyed storage, and reading it
    is undefined.  An iterator is the index of a control byte.  Hash, key
    equality and the policy's key projection are the template parameters; they
    are section variables.

    Loops take fuel.  The unbounded [while (true)] probe loops terminate only
    when some control byte is empty, so fuel is a parameter of [find] and
    [insert]; how much is enough is a theorem of [RawHashSetFacts]. *)

From stdpp Require Import prelude list numbers.
From Stdlib Require Import ZArith Lia.
From S2P Require Import Prelude.

#[local] Open Scope Z_scope.
#[local] Open Scope cxx_scope.

(** ** Control bytes *)
Definition kEmpty : Z := -128.
Definition kDeleted : Z := -2.
Definition kSentinel : Z := -1.

Definition is_empty (c : Z) : bool := c =? kEmpty.
Definition is_deleted (c : Z) : bool := c =? kDeleted.
Definition is_full (c : Z) : bool := 0 <=? c.
Definition is_sentinel (c : Z) : bool := c =? kSentinel.
Definition is_empty_or_deleted (c : Z) : bool := c <? kSentinel.

Definition H1 (hash : Z) : Z := Z.shiftr hash 7.
Definition H2 (hash : Z) : Z := Z.land hash 0x7F.

Definition kWidth : Z := 1.

(** ** Probe sequence *)
Record ProbeSeq := mkProbe { mPos : Z; mMask : Z; mStride : Z }.

Definition make_probe (hash mask : Z) : ProbeSeq := mkProbe (Z.land (H1 hash) mask) mask 0.

Definition next (p : ProbeSeq) : ProbeSeq :=
  let stride := wrap 64 (mStride p + kWidth) in
  mkProbe (Z.land (wrap 64 (mPos p + stride)) (mMask p)) (mMask p) stride.

(** ** Capacity *)
Definition kMinCapacity : Z := 16.
Definition growth_threshold (capacity : Z) : Z := capacity - capacity / 8.
Definition next_capacity (capacity : Z) : Z := if capacity =? 0 then kMinCapacity else wrap 64 (capacity * 2).
Definition is_valid_capacity (n : Z) : bool := (n =? 0) || (Z.land n (n - 1) =? 0).

(** Array accesses by index. *)
Definition get {A} (l : list A) (i : Z) : run A := if 0 <=? i then deref (l !! Z.to_nat i) else Undef.
Definition set {A} (l : list A) (i : Z) (x : A) : run (list A) :=
  if (0 <=? i) && (i <? Z.of_nat (length l)) then Ret (<[Z.to_nat i := x]> l) else Undef.

Section RawHashSet.
Context {K V : Type} (key : V -> K) (Hash : K -> Z) (Eq : K -> K -> bool).

Record raw_hash_set := mkSet {
  mCtrl : list Z;
  mSlots : list (option V);
  mCapacity : Z;
  mSize : Z
}.

(** Default constructor: null control pointer. *)
Definition empty_set : raw_hash_set := mkSet [] [] 0 0.

Definition empty (s : raw_hash_set) : bool := mSize s =? 0.
Definition size (s : raw_hash_set) : Z := mSize s.
Definition capacity (s : raw_hash_set) : Z := mCapacity s.

(** [reinterpret_cast<value_type *>(mSlots)[idx]]: raw storage must not be read. *)
Definition slot_at (s : raw_hash_set) (idx : Z) : run V := do o <- get (mSlots s) idx; deref o.

Definition set_ctrl (s : raw_hash_set) (i c : Z) : run raw_hash_set :=
  do ctrl <- set (mCtrl s) i c; Ret (mkSet ctrl (mSlots s) (mCapacity s) (mSize s)).

Definition construct_slot (s : raw_hash_set) (i : Z) (v : V) : run raw_hash_set :=
  do slots <- set (mSlots s) i (Some v); Ret (mkSet (mCtrl s) slots (mCapacity s) (mSize s)).

(** Destroying a slot needs a live object in it. *)
Definition destroy_slot (s : raw_hash_set) (i : Z) : run raw_hash_set :=
  do _ <- slot_at s i;
  do slots <- set (mSlots s) i None; Ret (mkSet (mCtrl s) slots (mCapacity s) (mSize s)).

Definition set_size (s : raw_hash_set) (n : Z) : raw_hash_set := mkSet (mCtrl s) (mSlots s) (mCapacity s) (wrap 64 n).

(** ** Iterators *)

(** [while (is_empty_or_deleted( *mCtrl)) ++mCtrl;] *)
Fixpoint skip_empty_or_deleted (fuel : nat) (s : raw_hash_set) (i : Z) : run Z :=
  match fuel with
  | O => Timeout
  | S fuel =>
    do c <- get (mCtrl s) i;
    if is_empty_or_deleted c then skip_empty_or_deleted fuel s (i + 1) else Ret i
  end.

(** The iterator constructor. *)
Definition make_iterator (s : raw_hash_set) (i : Z) : run Z := skip_empty_or_deleted (S (length (mCtrl s))) s i.

Definition sentinel (s : raw_hash_set) : Z := mCapacity s.
Definition begin_ (s : raw_hash_set) : run Z := make_iterator s 0.
Definition end_ (s : raw_hash_set) : run Z := make_iterator s (sentinel s).
Definition iterator_next (s : raw_hash_set) (i : Z) : run Z := make_iterator s (i + 1).

(** ** Lookup *)
Fixpoint find_loop (fuel : nat) (s : raw_hash_set) (h : Z) (k : K) (seq : ProbeSeq) : run Z :=
  match fuel with
  | O => Timeout
  | S fuel =>
    let g := mPos seq in
    do c <- get (mCtrl s) g;
    do hit <- (if is_full c && (H2 h =? c) then do v <- slot_at s g; Ret (Eq k (key v)) else Ret false);
    if hit then make_iterator s g
    else if is_empty c then end_ s
    else find_loop fuel s h k (next seq)
  end.

Definition find (fuel : nat) (s : raw_hash_set) (k : K) : run Z :=
  if mCapacity s =? 0 then end_ s
  else
    let h := Hash k in
    find_loop fuel s h k (make_probe h (mCapacity s - 1)).

Definition contains (fuel : nat) (s : raw_hash_set) (k : K) : run bool :=
  do it <- find fuel s k; do e <- end_ s; Ret (negb (it =? e)).

Definition count (fuel : nat) (s : raw_hash_set) (k : K) : run Z :=
  do b <- contains fuel s k; Ret (if b then 1 else 0).

(** ** Erase *)
Definition erase_at (s : raw_hash_set) (idx : Z) : run raw_hash_set :=
  do s <- destroy_slot s idx;
  let nxt := Z.land (idx + 1) (mCapacity s - 1) in
  do c <- get (mCtrl s) nxt;
  do s <- set_ctrl s idx (if is_empty c then kEmpty else kDeleted);
  Ret (set_size s (mSize s - 1)).

Definition erase (fuel : nat) (s : raw_hash_set) (k : K) : run (Z * raw_hash_set) :=
  do it <- find fuel s k;
  do e <- end_ s;
  if it =? e then Ret (0, s) else do s <- erase_at s it; Ret (1, s).

(** ** Growth and insertion *)
Definition initialize_ctrl (s : raw_hash_set) : raw_hash_set :=
  if mCapacity s =? 0 then s
  else mkSet (replicate (Z.to_nat (mCapacity s)) kEmpty ++ [kSentinel]) (mSlots s) (mCapacity s) (mSize s).

(** What the probe loop of [find_or_prepare_insert] ends with. *)
Inductive probe_result := Present (pos : Z) | Vacant (target : Z).

Fixpoint prepare_loop (fuel : nat) (s : raw_hash_set) (h : Z) (k : K) (seq : ProbeSeq) (first_deleted : Z)
    : run probe_result :=
  match fuel with
  | O => Timeout
  | S fuel =>
    let pos := mPos seq in
    do c <- get (mCtrl s) pos;
    if is_full c then
      do hit <- (if c =? H2 h then do v <- slot_at s pos; Ret (Eq k (key v)) else Ret false);
      if hit then Ret (Present pos) else prepare_loop fuel s h k (next seq) first_deleted
    else if is_empty c then Ret (Vacant (if negb (first_deleted =? mCapacity s) then first_deleted else pos))
    else prepare_loop fuel s h k (next seq) (if first_deleted =? mCapacity s then pos else first_deleted)
  end.

(** [unchecked_insert] over the insertion routine [ins]. *)
Definition unchecked_insert_with (ins : raw_hash_set -> K -> run (raw_hash_set * Z * bool))
    (s : raw_hash_set) (v : V) : run raw_hash_set :=
  do (s, i, _) <- ins s (key v);
  do s <- construct_slot s i v;
  Ret (set_size s (mSize s + 1)).

(** The copy loop of [resize]: control bytes [i], [i + 1], ... of the old table. *)
Fixpoint reinsert_with (ins : raw_hash_set -> K -> run (raw_hash_set * Z * bool))
    (old : raw_hash_set) (idx : list nat) (s : raw_hash_set) : run raw_hash_set :=
  match idx with
  | [] => Ret s
  | i :: idx =>
    do c <- get (mCtrl old) (Z.of_nat i);
    if is_full c then
      do v <- slot_at old (Z.of_nat i);
      do s <- unchecked_insert_with ins s v;
      reinsert_with ins old idx s
    else reinsert_with ins old idx s
  end.

Definition fresh_set (cap : Z) : raw_hash_set :=
  initialize_ctrl (mkSet (replicate (Z.to_nat cap + 1) 0) (replicate (Z.to_nat cap) None) cap 0).

Definition resize_with (ins : raw_hash_set -> K -> run (raw_hash_set * Z * bool))
    (s : raw_hash_set) (new_cap : Z) : run raw_hash_set :=
  reinsert_with ins s (seq 0 (Z.to_nat (mCapacity s))) (fresh_set new_cap).

Fixpoint find_or_prepare_insert (fuel : nat) (s : raw_hash_set) (k : K) : run (raw_hash_set * Z * bool) :=
  match fuel with
  | O => Timeout
  | S fuel' =>
    let h := Hash k in
    do p <- prepare_loop fuel s h k (make_probe h (mCapacity s - 1)) (mCapacity s);
    match p with
    | Present pos => Ret (s, pos, false)
    | Vacant target =>
      if growth_threshold (mCapacity s) <? mSize s + 1 then
        do s <- resize_with (find_or_prepare_insert fuel') s (next_capacity (mCapacity s));
        find_or_prepare_insert fuel' s k
      else
        do s <- set_ctrl s target (H2 h);
        Ret (s, target, true)
    end
  end.

Definition unchecked_insert (fuel : nat) := unchecked_insert_with (find_or_prepare_insert fuel).
Definition resize (fuel : nat) := resize_with (find_or_prepare_insert fuel).

(** [while (growth_threshold(cap) < n) cap *= 2;] *)
Fixpoint reserve_cap (fuel : nat) (cap n : Z) : run Z :=
  match fuel with
  | O => Timeout
  | S fuel => if growth_threshold cap <? n then reserve_cap fuel (wrap 64 (cap * 2)) n else Ret cap
  end.

Definition reserve (fuel : nat) (s : raw_hash_set) (n : Z) : run raw_hash_set :=
  if growth_threshold (mCapacity s) <? n then
    do cap <- reserve_cap 65 (if mCapacity s =? 0 then kMinCapacity else mCapacity s) n;
    resize fuel s cap
  else Ret s.

Definition emplace_impl (fuel : nat) (s : raw_hash_set) (v : V) : run (raw_hash_set * Z * bool) :=
  do s <- (if mCapacity s =? 0 then reserve fuel s kMinCapacity else Ret s);
  do (s, i, fresh) <- find_or_prepare_insert fuel s (key v);
  do s <- (if (fresh : bool) then do s <- construct_slot s i v; Ret (set_size s (mSize s + 1)) else Ret s);
  do it <- make_iterator s i;
  Ret (s, it, fresh).

Definition insert := emplace_impl.

(** [while (cap < bucket_count_hint) cap *= 2;] *)
Fixpoint bucket_cap (fuel : nat) (cap hint : Z) : run Z :=
  match fuel with
  | O => Timeout
  | S fuel => if cap <? hint then bucket_cap fuel (wrap 64 (cap * 2)) hint else Ret cap
  end.

Definition with_bucket_count (fuel : nat) (hint : Z) : run raw_hash_set :=
  if 0 <? hint then do cap <- bucket_cap 65 kMinCapacity hint; resize fuel empty_set cap
  else Ret empty_set.

(** ** Whole-table operations *)
Fixpoint destroy_full (s : raw_hash_set) (idx : list nat) : run raw_hash_set :=
  match idx with
  | [] => Ret s
  | i :: idx =>
    do c <- get (mCtrl s) (Z.of_nat i);
    if is_full c then do s <- destroy_slot s (Z.of_nat i); destroy_full s idx else destroy_full s idx
  end.

(** The loop of [clear]: each live slot is destroyed and its byte emptied. *)
Fixpoint clear_full (s : raw_hash_set) (idx : list nat) : run raw_hash_set :=
  match idx with
  | [] => Ret s
  | i :: idx =>
    do c <- get (mCtrl s) (Z.of_nat i);
    if is_full c then
      do s <- destroy_slot s (Z.of_nat i);
      do s <- set_ctrl s (Z.of_nat i) kEmpty;
      clear_full s idx
    else clear_full s idx
  end.

Definition clear (s : raw_hash_set) : run raw_hash_set :=
  if mCapacity s =? 0 then Ret s
  else
    do s <- clear_full s (seq 0 (Z.to_nat (mCapacity s)));
    Ret (set_size (initialize_ctrl s) 0).

Definition destroy_all (s : raw_hash_set) : run raw_hash_set :=
  if mCapacity s =? 0 then Ret s
  else do _ <- destroy_full s (seq 0 (Z.to_nat (mCapacity s))); Ret empty_set.

(** Iteration from an iterator to [end()], collecting the values. *)
Fixpoint iterate (fuel : nat) (s : raw_hash_set) (it e : Z) : run (list V) :=
  match fuel with
  | O => Timeout
  | S fuel =>
    if it =? e then Ret []
    else
      do v <- slot_at s it;
      do it <- iterator_next s it;
      do rest <- iterate fuel s it e;
      Ret (v :: rest)
  end.

Definition elements_of (s : raw_hash_set) : run (list V) :=
  do b <- begin_ s; do e <- end_ s; iterate (S (length (mCtrl s))) s b e.

Fixpoint insert_all (fuel : nat) (s : raw_hash_set) (l : list V) : run raw_hash_set :=
  match l with
  | [] => Ret s
  | v :: l => do s <- unchecked_insert fuel s v; insert_all fuel s l
  end.

Definition copy (fuel : nat) (o : raw_hash_set) : run raw_hash_set :=
  if 0 <? mCapacity o then
    do s <- resize fuel empty_set (mCapacity o);
    do l <- elements_of o;
    insert_all fuel s l
  else Ret empty_set.

Definition copy_assign (fuel : nat) (s o : raw_hash_set) : run raw_hash_set :=
  do s <- clear s;
  if 0 <? mCapacity o then
    do s <- (if mCapacity s <? mCapacity o then resize fuel s (mCapacity o) else Ret s);
    do l <- elements_of o;
    insert_all fuel s l
  else Ret s.

(** Move construction: the new table and what is left of the source. *)
Definition move (o : raw_hash_set) : raw_hash_set * raw_hash_set := (o, empty_set).

Definition move_assign (s o : raw_hash_set) : run (raw_hash_set * raw_hash_set) :=
  do _ <- destroy_all s; Ret (o, empty_set).

Definition swap (s o : raw_hash_set) : raw_hash_set * raw_hash_set := (o, s).

End RawHashSet.

Arguments mkSet {V}.
Arguments mCtrl {V}.
Arguments mSlots {V}.
Arguments mCapacity {V}.
Arguments mSize {V}.
Arguments empty_set {V}.
