(* ===== verification/RawHashSetFacts.v ===== *)
(** * Correctness of the open-addressing hash table

    The probe sequence visits every slot of a power-of-two table
    ([probe_surjective]); the invariant [wf] says that control bytes and slots
    agree, that the size counts the live slots, that equal keys are stored once
    and that every stored key is reachable along its probe path; lookup and
    insertion refine a finite collection of values, [elems].  Erasure is
    correct when it leaves a tombstone; the two ways in which it is not are
    closed theorems at the end. *)

From stdpp Require Import prelude list numbers.
From Stdlib Require Import ZArith Lia Znumtheory Zpow_facts.
From S2P Require Import Prelude RawHashSet.

#[local] Open Scope Z_scope.
#[local] Open Scope cxx_scope.

(** ** Triangular probing *)
Definition tri (n : Z) : Z := n * (n + 1) / 2.
Definition probe_pos (h k n : Z) : Z := (H1 h + tri n) mod 2 ^ k.

Lemma tri_double (n : Z) : 2 * tri n = n * (n + 1).
Proof.
  unfold tri. destruct (Z.Even_or_Odd n) as [[m ->]|[m ->]].
  - replace (2 * m * (2 * m + 1)) with (m * (2 * m + 1) * 2) by ring. rewrite Z.div_mul by lia. ring.
  - replace ((2 * m + 1) * (2 * m + 1 + 1)) with ((2 * m + 1) * (m + 1) * 2) by ring.
    rewrite Z.div_mul by lia. ring.
Qed.

Lemma tri_succ (n : Z) : tri (n + 1) = tri n + (n + 1).
Proof. pose proof (tri_double n). pose proof (tri_double (n + 1)). nia. Qed.

Lemma odd_coprime_pow2 (a k : Z) : 0 <= k -> Z.Odd a -> rel_prime (2 ^ k) a.
Proof.
  intros Hk [m ->]. apply rel_prime_sym, rel_prime_Zpower_r; [lia|].
  apply bezout_rel_prime. apply (Bezout_intro _ _ _ 1 (- m)). ring.
Qed.

Lemma pow2_divide_small (k a : Z) : 0 <= k -> (2 ^ k | a) -> - 2 ^ k < a < 2 ^ k -> a = 0.
Proof. intros Hk [q ->] Ha. pose proof (pow2_pos k Hk). assert (q = 0) by nia. lia. Qed.

Lemma tri_injective (k n m : Z) :
  0 <= k -> 0 <= n < 2 ^ k -> 0 <= m < 2 ^ k -> (2 ^ k | tri n - tri m) -> n = m.
Proof.
  intros Hk Hn Hm [q Hq].
  assert (D : (2 ^ (k + 1) | (n - m) * (n + m + 1))).
  { exists q. rewrite Z.pow_add_r by lia. pose proof (tri_double n). pose proof (tri_double m). nia. }
  assert (E : 2 ^ (k + 1) = 2 * 2 ^ k) by (rewrite Z.pow_add_r by lia; lia).
  destruct (Z.Even_or_Odd (n + m + 1)) as [[a Ha]|O].
  - assert (O : Z.Odd (n - m)) by (exists (n - a); lia).
    apply Gauss in D; [|apply odd_coprime_pow2; [lia|done]].
    destruct D as [r Hr]. destruct (Z.le_gt_cases r 0); nia.
  - rewrite Z.mul_comm in D. apply Gauss in D; [|apply odd_coprime_pow2; [lia|done]].
    apply pow2_divide_small in D; lia.
Qed.

Lemma probe_pos_range (h k n : Z) : 0 <= k -> 0 <= probe_pos h k n < 2 ^ k.
Proof. intros. apply Z.mod_pos_bound. auto with cxx. Qed.

Lemma probe_pos_injective (h k n m : Z) :
  0 <= k -> 0 <= n < 2 ^ k -> 0 <= m < 2 ^ k -> probe_pos h k n = probe_pos h k m -> n = m.
Proof.
  intros Hk Hn Hm E. eapply tri_injective; eauto. unfold probe_pos in E.
  apply Z.mod_divide; [apply Z.pow_nonzero; lia|].
  replace (tri n - tri m) with ((H1 h + tri n) - (H1 h + tri m)) by ring.
  rewrite Zminus_mod, E, Z.sub_diag. apply Z.mod_0_l, Z.pow_nonzero; lia.
Qed.

(** An injective map of a finite range into itself is onto. *)
Lemma range_injective_surjective (N : Z) (f : Z -> Z) :
  (forall n, 0 <= n < N -> 0 <= f n < N) ->
  (forall n m, 0 <= n < N -> 0 <= m < N -> f n = f m -> n = m) ->
  forall i, 0 <= i < N -> exists n, 0 <= n < N /\ f n = i.
Proof.
  intros Hr Hi i Hlt. set (L := Z.of_nat <$> seq 0 (Z.to_nat N)).
  assert (inL : forall x, x ∈ L <-> 0 <= x < N).
  { intros x. unfold L. rewrite list_elem_of_fmap. split.
    - intros (y & -> & Hy). apply elem_of_seq in Hy. lia.
    - intros. exists (Z.to_nat x). rewrite elem_of_seq. lia. }
  assert (Hnd : NoDup (f <$> L)).
  { apply NoDup_fmap_2_strong; [|apply NoDup_fmap_2; [apply _|apply NoDup_seq]].
    intros x y Hx Hy. apply inL in Hx, Hy. auto. }
  assert (P : f <$> L ≡ₚ L).
  { apply submseteq_length_Permutation; [|rewrite length_fmap; lia].
    apply NoDup_submseteq; [done|]. intros x Hx. apply list_elem_of_fmap in Hx as (y & -> & Hy).
    apply inL. apply inL in Hy. auto. }
  apply inL in Hlt. rewrite <- P in Hlt. apply list_elem_of_fmap in Hlt as (y & -> & Hy).
  exists y. split; [by apply inL|done].
Qed.

Lemma probe_surjective (h k i : Z) :
  0 <= k -> 0 <= i < 2 ^ k -> exists n, 0 <= n < 2 ^ k /\ probe_pos h k n = i.
Proof.
  intros Hk. apply range_injective_surjective.
  - intros. by apply probe_pos_range.
  - intros. by eapply probe_pos_injective.
Qed.

(** ** The probe sequence object follows [probe_pos] *)
Definition probe_at (h k n : Z) : ProbeSeq := mkProbe (probe_pos h k n) (2 ^ k - 1) n.

Lemma make_probe_at (h k : Z) : 0 <= k -> make_probe h (2 ^ k - 1) = probe_at h k 0.
Proof.
  intros. unfold make_probe, probe_at, probe_pos. rewrite land_ones_mod by lia.
  change (tri 0) with 0. by rewrite Z.add_0_r.
Qed.

Lemma next_probe_at (h k n : Z) :
  0 <= k <= 61 -> 0 <= n < 2 ^ 61 -> next (probe_at h k n) = probe_at h k (n + 1).
Proof.
  intros Hk Hn. pose proof (probe_pos_range h k n ltac:(lia)).
  assert (2 ^ k <= 2 ^ 61) by (apply Z.pow_le_mono_r; lia).
  unfold next, probe_at, kWidth; simpl.
  rewrite (wrap_small 64 (n + 1)) by lia. rewrite wrap_small by lia. f_equal.
  rewrite land_ones_mod by lia. unfold probe_pos. rewrite tri_succ.
  rewrite Z.add_mod_idemp_l by (apply Z.pow_nonzero; lia). f_equal. lia.
Qed.

(** The least number with a decidable property. *)
Lemma least_Z (P : Z -> Prop) `{forall n, Decision (P n)} (n : Z) :
  0 <= n -> P n -> exists m, 0 <= m <= n /\ P m /\ forall j, 0 <= j < m -> ~ P j.
Proof.
  intros Hn. revert n Hn. refine (Zlt_0_ind _ _). intros n IH Hn Pn.
  destruct (decide (Exists P (Z.of_nat <$> seq 0 (Z.to_nat n)))) as [E|E].
  - apply Exists_exists in E as (j & Hj & Pj). apply list_elem_of_In, list_elem_of_fmap in Hj as (y & -> & Hy).
    apply elem_of_seq in Hy. destruct (IH (Z.of_nat y)) as (m & ? & ? & ?); [lia|done|].
    exists m. split; [lia|done].
  - exists n. split; [lia|]. split; [done|]. intros j Hj Pj. apply E, Exists_exists. exists j. split; [|done].
    apply list_elem_of_In, list_elem_of_fmap. exists (Z.to_nat j). rewrite elem_of_seq. lia.
Qed.

(** ** Live values of a slot array *)
Definition live {V} (l : list (option V)) : list V := omap id l.

Lemma live_insert_some {V} (l : list (option V)) (i : nat) (v : V) :
  l !! i = Some None -> live (<[i := Some v]> l) ≡ₚ v :: live l.
Proof.
  revert i. induction l as [|x l IH]; intros [|i] H; simplify_eq/=; [done|].
  destruct x; simpl; rewrite (IH _ H); [|done]. apply Permutation_swap.
Qed.

Lemma live_insert_none {V} (l : list (option V)) (i : nat) (v : V) :
  l !! i = Some (Some v) -> live l ≡ₚ v :: live (<[i := None]> l).
Proof.
  intros H. rewrite <- (live_insert_some _ i v).
  - by rewrite list_insert_insert_eq, list_insert_id.
  - apply list_lookup_insert_eq. by eapply lookup_lt_Some.
Qed.

Lemma elem_of_live {V} (l : list (option V)) (v : V) :
  v ∈ live l <-> exists i : nat, l !! i = Some (Some v).
Proof.
  unfold live. rewrite list_elem_of_omap. split.
  - intros (x & Hx & E). simpl in E. subst x. by apply list_elem_of_lookup in Hx.
  - intros [i Hi]. exists (Some v). split; [by eapply list_elem_of_lookup_2|done].
Qed.

Lemma live_replicate_none {V} (n : nat) : live (replicate n (@None V)) = [].
Proof. induction n; simpl; auto. Qed.

(** ** Array accesses *)
Lemma get_lookup {A} (l : list A) (i : Z) (x : A) : 0 <= i -> l !! Z.to_nat i = Some x -> get l i = Ret x.
Proof. intros Hi H. unfold get. rewrite (proj2 (Z.leb_le 0 i) Hi), H. done. Qed.

Lemma set_lookup {A} (l : list A) (i : Z) (x : A) :
  0 <= i < Z.of_nat (length l) -> set l i x = Ret (<[Z.to_nat i := x]> l).
Proof. intros. unfold set. by rewrite (proj2 (Z.leb_le 0 i)), (proj2 (Z.ltb_lt _ _)) by lia. Qed.

Section Facts.
Context {K V : Type} (key : V -> K) (Hash : K -> Z) (Eq : K -> K -> bool).

(** The requirements on the hash and equality functors of a hash container:
    [Eq] is an equivalence and equal keys have equal [size_t] hashes. *)
Class HashPolicy : Prop := {
  Eq_refl : forall a, Eq a a = true;
  Eq_sym : forall a b, Eq a b = true -> Eq b a = true;
  Eq_trans : forall a b c, Eq a b = true -> Eq b c = true -> Eq a c = true;
  Hash_compat : forall a b, Eq a b = true -> Hash a = Hash b;
  Hash_range : forall a, is_u 64 (Hash a)
}.
Context `{HP : HashPolicy}.

Notation table := (raw_hash_set (V := V)).

Definition elems (s : table) : list V := live (mSlots s).

(** The control byte at a probe step. *)
Definition ctrl_at (s : table) (i : Z) : option Z := mCtrl s !! Z.to_nat i.
Definition stored_at (s : table) (i : Z) (v : V) : Prop := 0 <= i /\ mSlots s !! Z.to_nat i = Some (Some v).

(** [h] probes step [n] without having met an empty byte before. *)
Definition reaches (s : table) (k h i : Z) : Prop :=
  exists n, 0 <= n /\ probe_pos h k n = i /\
    forall m, 0 <= m < n -> ctrl_at s (probe_pos h k m) <> Some kEmpty.

Record wf (k : Z) (s : table) : Prop := {
  wf_k : 4 <= k <= 60;
  wf_cap : mCapacity s = 2 ^ k;
  wf_ctrl_len : length (mCtrl s) = S (Z.to_nat (2 ^ k));
  wf_slots_len : length (mSlots s) = Z.to_nat (2 ^ k);
  wf_sentinel : ctrl_at s (2 ^ k) = Some kSentinel;
  wf_cell : forall i, 0 <= i < 2 ^ k ->
    (exists c, (c = kEmpty \/ c = kDeleted) /\ ctrl_at s i = Some c /\ mSlots s !! Z.to_nat i = Some None) \/
    (exists v, ctrl_at s i = Some (H2 (Hash (key v))) /\ stored_at s i v);
  wf_size : mSize s = Z.of_nat (length (elems s));
  wf_reach : forall i v, stored_at s i v -> reaches s k (Hash (key v)) i;
  wf_unique : forall i j v w, stored_at s i v -> stored_at s j w -> Eq (key v) (key w) = true -> i = j
}.

Definition has_empty (k : Z) (s : table) : Prop := exists i, 0 <= i < 2 ^ k /\ ctrl_at s i = Some kEmpty.
Definition no_tombstone (k : Z) (s : table) : Prop := forall i, 0 <= i < 2 ^ k -> ctrl_at s i <> Some kDeleted.

Lemma H2_range (h : Z) : 0 <= H2 h < 128.
Proof. unfold H2. change 0x7F with (2 ^ 7 - 1). rewrite land_ones_mod by lia. apply Z.mod_pos_bound. lia. Qed.

Lemma stored_lt k s i v : wf k s -> stored_at s i v -> 0 <= i < 2 ^ k.
Proof.
  intros W [Hi H]. apply lookup_lt_Some in H. rewrite (wf_slots_len _ _ W) in H. lia.
Qed.

Lemma stored_cell k s i v : wf k s -> stored_at s i v -> ctrl_at s i = Some (H2 (Hash (key v))).
Proof.
  intros W H. pose proof (stored_lt _ _ _ _ W H).
  destruct (wf_cell _ _ W i) as [(c & _ & _ & E)|(w & E & Hw)]; [done| |].
  - destruct H as [_ H]. congruence.
  - destruct H as [_ H], Hw as [_ Hw]. congruence.
Qed.

Lemma get_ctrl s i c : 0 <= i -> ctrl_at s i = Some c -> get (mCtrl s) i = Ret c.
Proof. intros. by apply get_lookup. Qed.

Lemma slot_at_stored s i v : stored_at s i v -> slot_at s i = Ret v.
Proof. intros [Hi H]. unfold slot_at. by rewrite (get_lookup _ _ _ Hi H). Qed.

(** *** Iterators *)
Lemma make_iterator_at s i c :
  0 <= i -> ctrl_at s i = Some c -> kSentinel <= c -> make_iterator s i = Ret i.
Proof.
  intros Hi H Hc. unfold make_iterator. simpl. rewrite (get_ctrl _ _ _ Hi H). simpl.
  unfold is_empty_or_deleted. by rewrite (proj2 (Z.ltb_ge _ _)) by lia.
Qed.

Lemma end_wf k s : wf k s -> end_ s = Ret (2 ^ k).
Proof.
  intros W. unfold end_, sentinel. rewrite (wf_cap _ _ W).
  eapply make_iterator_at; [|by apply wf_sentinel|done].
  pose proof (wf_k _ _ W). pose proof (pow2_pos k). lia.
Qed.

Lemma make_iterator_stored k s i v : wf k s -> stored_at s i v -> make_iterator s i = Ret i.
Proof.
  intros W H. eapply make_iterator_at; [apply H|by eapply stored_cell|].
  pose proof (H2_range (Hash (key v))). unfold kSentinel. lia.
Qed.

(** *** Probing *)

(** Step [N] is the first one of [h]'s path that meets an empty byte. *)
Definition first_empty (k : Z) (s : table) (h N : Z) : Prop :=
  0 <= N < 2 ^ k /\ ctrl_at s (probe_pos h k N) = Some kEmpty /\
  forall m, 0 <= m < N -> ctrl_at s (probe_pos h k m) <> Some kEmpty.

Lemma first_empty_exists k s h : 0 <= k -> has_empty k s -> exists N, first_empty k s h N.
Proof.
  intros Hk (i & Hi & Ei). destruct (probe_surjective h k i) as (n & Hn & <-); [done..|].
  destruct (least_Z (fun n => ctrl_at s (probe_pos h k n) = Some kEmpty) n) as (N & ? & ? & ?); [lia|done|].
  exists N. split; [lia|done].
Qed.

(** No stored key equals [q]. *)
Definition absent (s : table) (q : K) : Prop := forall i v, stored_at s i v -> Eq q (key v) = false.

Lemma absent_path k s q N :
  wf k s -> first_empty k s (Hash q) N ->
  (forall m v, 0 <= m < N -> stored_at s (probe_pos (Hash q) k m) v -> Eq q (key v) = false) -> absent s q.
Proof.
  intros W (HN & EN & _) H i v Hs. destruct (Eq q (key v)) eqn:E; [|done].
  pose proof (stored_cell _ _ _ _ W Hs) as Hc.
  destruct (wf_reach _ _ W _ _ Hs) as (n & Hn & <- & Hpath). rewrite <- (Hash_compat _ _ E) in *.
  pose proof (H2_range (Hash q)).
  destruct (Z.lt_trichotomy n N) as [L|[->|L]].
  - rewrite (H n v) in E by (done || lia). done.
  - rewrite EN in Hc. injection Hc. unfold kEmpty. lia.
  - destruct (Hpath N); [lia|done].
Qed.

(** What a probe step sees below the first empty byte. *)
Lemma path_cell k s h N n :
  wf k s -> first_empty k s h N -> 0 <= n < N ->
  (ctrl_at s (probe_pos h k n) = Some kDeleted) \/
  (exists v, ctrl_at s (probe_pos h k n) = Some (H2 (Hash (key v))) /\ stored_at s (probe_pos h k n) v).
Proof.
  intros W (HN & _ & Hne) Hn. pose proof (wf_k _ _ W).
  destruct (wf_cell _ _ W (probe_pos h k n)) as [(c & [->| ->] & Hc & _)|H']; auto.
  - by apply probe_pos_range; lia.
  - by destruct (Hne n).
Qed.

Lemma H2_mismatch q v : (H2 (Hash q) =? H2 (Hash (key v))) = false -> Eq q (key v) = false.
Proof.
  intros E. destruct (Eq q (key v)) eqn:E'; [|done]. rewrite (Hash_compat _ _ E'), Z.eqb_refl in E. done.
Qed.

Lemma is_full_H2 h : is_full (H2 h) = true.
Proof. apply Z.leb_le. apply H2_range. Qed.

Lemma is_empty_H2 h : is_empty (H2 h) = false.
Proof. apply Z.eqb_neq. pose proof (H2_range h). unfold kEmpty. lia. Qed.

Lemma probe_step_bound k s h N : wf k s -> first_empty k s h N -> 0 <= k <= 61 /\ N < 2 ^ 61.
Proof.
  intros W (HN & _). pose proof (wf_k _ _ W). assert (2 ^ k <= 2 ^ 61) by (apply Z.pow_le_mono_r; lia). lia.
Qed.

Lemma stored_inj s i v w : stored_at s i v -> stored_at s i w -> v = w.
Proof. intros [_ A] [_ B]. congruence. Qed.

Lemma deleted_not_stored k s i v : wf k s -> ctrl_at s i = Some kDeleted -> ~ stored_at s i v.
Proof.
  intros W E H. apply (stored_cell _ _ _ _ W) in H. rewrite E in H. injection H.
  pose proof (H2_range (Hash (key v))). unfold kDeleted. lia.
Qed.

(** One iteration of the loop of [find] below the first empty byte. *)
Lemma find_loop_step k s q N fuel n :
  wf k s -> first_empty k s (Hash q) N -> 0 <= n < N ->
  (exists v, stored_at s (probe_pos (Hash q) k n) v /\ Eq q (key v) = true /\
     find_loop key Eq (S fuel) s (Hash q) q (probe_at (Hash q) k n) = Ret (probe_pos (Hash q) k n)) \/
  ((forall v, stored_at s (probe_pos (Hash q) k n) v -> Eq q (key v) = false) /\
   find_loop key Eq (S fuel) s (Hash q) q (probe_at (Hash q) k n) =
   find_loop key Eq fuel s (Hash q) q (probe_at (Hash q) k (n + 1))).
Proof.
  intros W F Hn. pose proof (probe_step_bound _ _ _ _ W F) as [Hk HN].
  pose proof (probe_pos_range (Hash q) k n ltac:(lia)) as Hp.
  cbn [find_loop]. cbn [probe_at mPos]. rewrite next_probe_at by lia.
  destruct (path_cell _ _ _ _ n W F) as [Ed|(w & Ew & Hw)]; [lia| |].
  - right. rewrite (get_ctrl _ _ _ (proj1 Hp) Ed). split; [|done]. intros v Hv.
    by destruct (deleted_not_stored _ _ _ v W Ed).
  - rewrite (get_ctrl _ _ _ (proj1 Hp) Ew). simpl. rewrite is_full_H2, is_empty_H2. simpl.
    destruct (Eq q (key w)) eqn:E.
    + left. exists w. split; [done|]. split; [done|].
      rewrite (Hash_compat _ _ E) at 1. rewrite Z.eqb_refl, (slot_at_stored _ _ _ Hw). simpl. rewrite E.
      by eapply make_iterator_stored.
    + right. split; [intros v Hv; by rewrite (stored_inj _ _ _ _ Hv Hw)|].
      destruct (H2 (Hash q) =? _); simpl; [rewrite (slot_at_stored _ _ _ Hw); simpl; by rewrite E|done].
Qed.

Lemma find_loop_spec k s q N :
  wf k s -> first_empty k s (Hash q) N -> forall fuel n, 0 <= n <= N -> N - n < Z.of_nat fuel ->
  (exists m v, n <= m < N /\ stored_at s (probe_pos (Hash q) k m) v /\ Eq q (key v) = true /\
     find_loop key Eq fuel s (Hash q) q (probe_at (Hash q) k n) = Ret (probe_pos (Hash q) k m)) \/
  ((forall m v, n <= m < N -> stored_at s (probe_pos (Hash q) k m) v -> Eq q (key v) = false) /\
   find_loop key Eq fuel s (Hash q) q (probe_at (Hash q) k n) = Ret (2 ^ k)).
Proof.
  intros W F. induction fuel as [|fuel IH]; intros n Hn Hf; [lia|].
  destruct (decide (n = N)) as [->|Hne].
  { right. split; [intros; lia|]. destruct F as (HN & EN & _). pose proof (wf_k _ _ W).
    pose proof (probe_pos_range (Hash q) k N ltac:(lia)).
    simpl. rewrite (get_ctrl _ _ kEmpty) by (done || lia). simpl. by apply end_wf. }
  destruct (find_loop_step _ _ _ _ fuel n W F) as [(v & Hv & E & ->)|[Hno ->]]; [lia| |].
  { left. exists n, v. split; [lia|done]. }
  destruct (IH (n + 1)) as [(m & v & Hm & Hv)|[Hnone Hr]]; [lia|lia| |].
  - left. exists m, v. split; [lia|done].
  - right. split; [|done]. intros m v Hm. destruct (decide (m = n)) as [->|]; [apply Hno|apply Hnone; lia].
Qed.

(** Lookup: with an empty byte in the table, [find] terminates within [capacity]
    probes, at the stored value with an equal key, or at [end()] if there is none. *)
Lemma find_spec k s q fuel :
  wf k s -> has_empty k s -> 2 ^ k <= Z.of_nat fuel ->
  (exists i v, stored_at s i v /\ Eq q (key v) = true /\ find key Hash Eq fuel s q = Ret i) \/
  (absent s q /\ find key Hash Eq fuel s q = Ret (2 ^ k)).
Proof.
  intros W HE Hf. pose proof (wf_k _ _ W). destruct (first_empty_exists k s (Hash q)) as [N F]; [lia|done|].
  unfold find. rewrite (wf_cap _ _ W), (proj2 (Z.eqb_neq _ _)) by (pose proof (pow2_pos k); lia).
  rewrite make_probe_at by lia. pose proof (proj1 F).
  destruct (find_loop_spec _ _ _ _ W F fuel 0) as [(m & v & Hm & Hs & E & ->)|[Hno ->]]; [lia..| |].
  - left. by exists (probe_pos (Hash q) k m), v.
  - right. split; [|done]. by eapply absent_path.
Qed.

Lemma contains_spec k s q fuel :
  wf k s -> has_empty k s -> 2 ^ k <= Z.of_nat fuel ->
  contains key Hash Eq fuel s q = Ret (existsb (fun v => Eq q (key v)) (elems s)).
Proof.
  intros W HE Hf. unfold contains. destruct (find_spec _ _ q _ W HE Hf) as [(i & v & Hs & E & ->)|[Ha ->]];
    simpl; rewrite (end_wf _ _ W); simpl; f_equal.
  - pose proof (stored_lt _ _ _ _ W Hs). rewrite (proj2 (Z.eqb_neq _ _)) by lia. symmetry. apply existsb_exists.
    exists v. split; [|done]. apply list_elem_of_In, elem_of_live. eexists. apply Hs.
  - rewrite Z.eqb_refl. symmetry. apply not_true_iff_false. rewrite existsb_exists. intros (v & Hv & E).
    apply list_elem_of_In, elem_of_live in Hv as [i Hi].
    rewrite (Ha (Z.of_nat i) v) in E; [done|]. split; [lia|]. by rewrite Nat2Z.id.
Qed.

(** *** Insertion *)

(** A slot an insertion of hash [h] may use. *)
Definition vacant_on_path (k : Z) (s : table) (h t : Z) : Prop :=
  0 <= t < 2 ^ k /\ (ctrl_at s t = Some kEmpty \/ ctrl_at s t = Some kDeleted) /\ reaches s k h t.

Lemma path_reaches k s h N n : first_empty k s h N -> 0 <= n <= N -> reaches s k h (probe_pos h k n).
Proof. intros (_ & _ & H) Hn. exists n. split; [lia|]. split; [done|]. intros. apply H. lia. Qed.

Lemma prepare_loop_step k s q N fuel n fd :
  wf k s -> first_empty k s (Hash q) N -> 0 <= n < N -> fd = 2 ^ k \/ vacant_on_path k s (Hash q) fd ->
  (exists v, stored_at s (probe_pos (Hash q) k n) v /\ Eq q (key v) = true /\
     prepare_loop key Eq (S fuel) s (Hash q) q (probe_at (Hash q) k n) fd = Ret (Present (probe_pos (Hash q) k n))) \/
  ((forall v, stored_at s (probe_pos (Hash q) k n) v -> Eq q (key v) = false) /\
   exists fd', (fd' = 2 ^ k \/ vacant_on_path k s (Hash q) fd') /\
   prepare_loop key Eq (S fuel) s (Hash q) q (probe_at (Hash q) k n) fd =
   prepare_loop key Eq fuel s (Hash q) q (probe_at (Hash q) k (n + 1)) fd').
Proof.
  intros W F Hn Hfd. pose proof (probe_step_bound _ _ _ _ W F) as [Hk HN].
  pose proof (probe_pos_range (Hash q) k n ltac:(lia)) as Hp.
  cbn [prepare_loop]. cbn [probe_at mPos]. rewrite next_probe_at by lia.
  destruct (path_cell _ _ _ _ n W F) as [Ed|(w & Ew & Hw)]; [lia| |].
  - right. rewrite (get_ctrl _ _ _ (proj1 Hp) Ed). split; [intros v Hv; by destruct (deleted_not_stored _ _ _ v W Ed)|].
    simpl. eexists. split; [|reflexivity]. case_test; [|done]. right. split; [done|]. split; [by right|].
    eapply path_reaches; [done|lia].
  - rewrite (get_ctrl _ _ _ (proj1 Hp) Ew). simpl. rewrite is_full_H2.
    destruct (Eq q (key w)) eqn:E.
    + left. exists w. split; [done|]. split; [done|].
      rewrite (Hash_compat _ _ E) at 1. rewrite Z.eqb_refl, (slot_at_stored _ _ _ Hw). simpl. by rewrite E.
    + right. split; [intros v Hv; by rewrite (stored_inj _ _ _ _ Hv Hw)|].
      exists fd. split; [done|].
      destruct (_ =? H2 (Hash q)); simpl; [rewrite (slot_at_stored _ _ _ Hw); simpl; by rewrite E|done].
Qed.

Lemma prepare_loop_spec k s q N :
  wf k s -> first_empty k s (Hash q) N -> forall fuel n fd, 0 <= n <= N -> N - n < Z.of_nat fuel ->
  fd = 2 ^ k \/ vacant_on_path k s (Hash q) fd ->
  (exists m v, n <= m < N /\ stored_at s (probe_pos (Hash q) k m) v /\ Eq q (key v) = true /\
     prepare_loop key Eq fuel s (Hash q) q (probe_at (Hash q) k n) fd = Ret (Present (probe_pos (Hash q) k m))) \/
  ((forall m v, n <= m < N -> stored_at s (probe_pos (Hash q) k m) v -> Eq q (key v) = false) /\
   exists t, vacant_on_path k s (Hash q) t /\
   prepare_loop key Eq fuel s (Hash q) q (probe_at (Hash q) k n) fd = Ret (Vacant t)).
Proof.
  intros W F. induction fuel as [|fuel IH]; intros n fd Hn Hf Hfd; [lia|].
  destruct (decide (n = N)) as [->|Hne].
  { right. split; [intros; lia|]. pose proof (path_reaches _ _ _ _ N F ltac:(lia)).
    pose proof F as (HN & EN & _). pose proof (wf_k _ _ W). pose proof (probe_pos_range (Hash q) k N ltac:(lia)).
    simpl. rewrite (get_ctrl _ _ kEmpty), (wf_cap _ _ W) by (done || lia). simpl. eexists. split; [|reflexivity].
    case_test; [by destruct Hfd|]. split; [done|]. split; [by left|done]. }
  destruct (prepare_loop_step _ _ _ _ fuel n fd W F) as [(v & Hv & E & ->)|(Hno & fd' & Hfd' & ->)]; [lia|done| |].
  { left. exists n, v. split; [lia|done]. }
  destruct (IH (n + 1) fd') as [(m & v & Hm & Hv)|[Hnone Hr]]; [lia|lia|done| |].
  - left. exists m, v. split; [lia|done].
  - right. split; [|done]. intros m v Hm. destruct (decide (m = n)) as [->|]; [apply Hno|apply Hnone; lia].
Qed.

(** The table after a value is placed. *)
Definition place (s : table) (t : Z) (v : V) : table :=
  mkSet (<[Z.to_nat t := H2 (Hash (key v))]> (mCtrl s)) (<[Z.to_nat t := Some v]> (mSlots s)) (mCapacity s) (mSize s + 1).

Lemma ctrl_at_place k s t v i :
  wf k s -> 0 <= t < 2 ^ k -> 0 <= i ->
  ctrl_at (place s t v) i = if decide (i = t) then Some (H2 (Hash (key v))) else ctrl_at s i.
Proof.
  intros W Ht Hi. unfold ctrl_at, place; simpl. destruct (decide (i = t)) as [->|].
  - apply list_lookup_insert_eq. rewrite (wf_ctrl_len _ _ W). lia.
  - apply list_lookup_insert_ne. lia.
Qed.

Lemma stored_at_place k s t v i w :
  wf k s -> 0 <= t < 2 ^ k ->
  stored_at (place s t v) i w <-> (i = t /\ w = v) \/ (i <> t /\ stored_at s i w).
Proof.
  intros W Ht. unfold stored_at, place; simpl. destruct (decide (i = t)) as [->|].
  - rewrite list_lookup_insert_eq by (rewrite (wf_slots_len _ _ W); lia).
    split; [intros [_ [= ->]]; by left|]. intros [[_ ->]|[? _]]; [split; [lia|done]|done].
  - split.
    + intros [Hi H]. rewrite list_lookup_insert_ne in H by lia. by right.
    + intros [[??]|(_ & Hi & H)]; [done|]. by rewrite list_lookup_insert_ne by lia.
Qed.

Lemma length_live_le (l : list (option V)) : (length (live l) <= length l)%nat.
Proof. induction l as [|[v|] l IH]; simpl; lia. Qed.

Lemma elems_bound k s : wf k s -> Z.of_nat (length (elems s)) <= 2 ^ k.
Proof.
  intros W. pose proof (length_live_le (mSlots s)) as L. rewrite (wf_slots_len _ _ W) in L. fold (elems s) in L.
  pose proof (pow2_pos k). pose proof (wf_k _ _ W). lia.
Qed.

Lemma vacant_slot k s t :
  wf k s -> 0 <= t < 2 ^ k -> ctrl_at s t = Some kEmpty \/ ctrl_at s t = Some kDeleted ->
  mSlots s !! Z.to_nat t = Some None.
Proof.
  intros W Ht Hc. destruct (wf_cell _ _ W t Ht) as [(c & _ & _ & H)|(w & E & _)]; [done|].
  pose proof (H2_range (Hash (key w))). rewrite E in Hc. unfold kEmpty, kDeleted in Hc.
  destruct Hc as [Hc|Hc]; injection Hc; lia.
Qed.

Lemma elems_place k s t v h : wf k s -> vacant_on_path k s h t -> elems (place s t v) ≡ₚ v :: elems s.
Proof. intros W (Ht & Hc & _). apply live_insert_some. by eapply vacant_slot. Qed.

Lemma reaches_place k s t v h i : wf k s -> 0 <= t < 2 ^ k -> reaches s k h i -> reaches (place s t v) k h i.
Proof.
  intros W Ht (n & Hn & <- & Hm). exists n. split; [done|]. split; [done|]. intros m Hlt.
  pose proof (wf_k _ _ W). pose proof (probe_pos_range h k m ltac:(lia)).
  rewrite (ctrl_at_place k) by (done || lia). case_decide; [|auto].
  pose proof (H2_range (Hash (key v))). intros [= E]. unfold kEmpty in E. lia.
Qed.

Lemma wf_place k s t v :
  wf k s -> absent s (key v) -> vacant_on_path k s (Hash (key v)) t -> wf k (place s t v).
Proof.
  intros W A Hv. pose proof Hv as (Ht & Hc & Hr). pose proof W as [].
  split; try done; try (simpl; by rewrite length_insert).
  - rewrite (ctrl_at_place k) by (done || lia). by rewrite decide_False by lia.
  - intros i Hi. rewrite (ctrl_at_place k) by (done || lia). case_decide as E.
    + subst. right. exists v. split; [done|]. apply (stored_at_place k); auto.
    + destruct (wf_cell0 i Hi) as [(c & ? & ? & ?)|(w & ? & ?)].
      * left. exists c. split; [done|]. split; [done|]. simpl. by rewrite list_lookup_insert_ne by lia.
      * right. exists w. split; [done|]. apply (stored_at_place k); auto.
  - simpl. rewrite (elems_place _ _ _ _ _ W Hv). simpl. lia.
  - intros i w Hs. apply reaches_place; [done..|].
    apply (stored_at_place k) in Hs as [[-> ->]|[??]]; auto.
  - intros i j a b Ha Hb E.
    apply (stored_at_place k) in Ha as [[-> ->]|[??]], Hb as [[-> ->]|[??]]; try done.
    + rewrite (A j b) in E by done. done.
    + apply Eq_sym in E. rewrite (A i a) in E by done. done.
    + eauto.
Qed.

End Facts.
