(* ===== verification/RawHashSetSpec.v ===== *)
(** * The hash table as a finite collection

    Insertion with growth, construction, copying, clearing and erasure of
    [raw_hash_set] against the collection of stored values, and the histories
    on which erasure loses entries. *)

From stdpp Require Import prelude list numbers.
From Stdlib Require Import ZArith Lia.
From S2P Require Import Prelude RawHashSet RawHashSetFacts.

#[local] Open Scope Z_scope.
#[local] Open Scope cxx_scope.

Section Spec.
Context {K V : Type} (key : V -> K) (Hash : K -> Z) (Eq : K -> K -> bool).
Context `{HP : !HashPolicy Hash Eq}.

Notation table := (raw_hash_set (V := V)).
Notation wf := (wf key Hash Eq).
Notation absent := (absent key Eq).
Notation place := (place key Hash).
Notation fopi := (find_or_prepare_insert key Hash Eq).

(** ** One insertion without growth *)
Lemma prepare_spec k s q fuel :
  wf k s -> has_empty k s -> 2 ^ k <= Z.of_nat fuel ->
  (exists i v, stored_at s i v /\ Eq q (key v) = true /\
     prepare_loop key Eq fuel s (Hash q) q (make_probe (Hash q) (mCapacity s - 1)) (mCapacity s) = Ret (Present i)) \/
  (absent s q /\ exists t, vacant_on_path k s (Hash q) t /\
     prepare_loop key Eq fuel s (Hash q) q (make_probe (Hash q) (mCapacity s - 1)) (mCapacity s) = Ret (Vacant t)).
Proof.
  intros W HE Hf. pose proof (wf_k _ _ _ _ _ W). destruct (first_empty_exists k s (Hash q)) as [N F]; [lia|done|].
  rewrite (wf_cap _ _ _ _ _ W), make_probe_at by lia. pose proof (proj1 F).
  destruct (prepare_loop_spec key Hash Eq _ _ _ _ W F fuel 0 (2 ^ k)) as [(m & v & Hm & Hs & E & ->)|(Hno & t & Ht & ->)];
    [lia..|by left| |].
  - left. by exists (probe_pos (Hash q) k m), v.
  - right. split; [by eapply absent_path|]. by exists t.
Qed.

Lemma fopi_nogrow k s q fuel :
  wf k s -> has_empty k s -> 2 ^ k <= Z.of_nat fuel -> mSize s + 1 <= growth_threshold (2 ^ k) ->
  (exists i v, stored_at s i v /\ Eq q (key v) = true /\ fopi fuel s q = Ret (s, i, false)) \/
  (absent s q /\ exists t, vacant_on_path k s (Hash q) t /\
     fopi fuel s q = Ret (mkSet (<[Z.to_nat t := H2 (Hash q)]> (mCtrl s)) (mSlots s) (mCapacity s) (mSize s), t, true)).
Proof.
  intros W HE Hf Hg. pose proof (wf_k _ _ _ _ _ W). pose proof (pow2_pos k).
  destruct fuel as [|fuel]; [lia|]. cbn [find_or_prepare_insert].
  destruct (prepare_spec _ _ q _ W HE Hf) as [(i & v & Hs & E & ->)|(A & t & Ht & ->)]; simpl.
  - left. by exists i, v.
  - right. split; [done|]. exists t. split; [done|].
    rewrite (wf_cap _ _ _ _ _ W) at 1. rewrite (proj2 (Z.ltb_ge _ _)) by done.
    unfold set_ctrl. rewrite set_lookup; [done|]. rewrite (wf_ctrl_len _ _ _ _ _ W). destruct Ht. lia.
Qed.

(** Constructing the value in the prepared slot and counting it gives [place]. *)
Lemma construct_place k s t v :
  wf k s -> vacant_on_path k s (Hash (key v)) t ->
  exists s', construct_slot (mkSet (<[Z.to_nat t := H2 (Hash (key v))]> (mCtrl s)) (mSlots s) (mCapacity s) (mSize s)) t v = Ret s' /\
    set_size s' (mSize s' + 1) = place s t v.
Proof.
  intros W (Ht & _). unfold construct_slot; simpl. rewrite set_lookup by (rewrite (wf_slots_len _ _ _ _ _ W); lia).
  simpl. eexists. split; [done|]. unfold set_size; simpl. rewrite wrap_small; [done|].
  pose proof (elems_bound _ _ _ _ _ W). pose proof (wf_k _ _ _ _ _ W). rewrite (wf_size _ _ _ _ _ W).
  assert (2 ^ k <= 2 ^ 60) by (apply Z.pow_le_mono_r; lia). lia.
Qed.

(** ** Occupancy *)
Lemma live_all_some (l : list (option V)) : Forall is_Some l -> length (live l) = length l.
Proof. induction 1 as [|x l [v ->] Hl IH]; simpl; [done|by rewrite <- IH]. Qed.

(** A table without tombstones that is not full has an empty byte. *)
Lemma no_tombstone_has_empty k s : wf k s -> no_tombstone k s -> mSize s < 2 ^ k -> has_empty k s.
Proof.
  intros W NT Hs. destruct (decide (Forall is_Some (mSlots s))) as [A|A].
  - apply live_all_some in A. rewrite (wf_slots_len _ _ _ _ _ W) in A.
    rewrite (wf_size _ _ _ _ _ W) in Hs. unfold elems in Hs. lia.
  - apply not_Forall_Exists in A; [|apply _]. apply Exists_exists in A as (x & Hx & Hn).
    apply list_elem_of_In, list_elem_of_lookup in Hx as [i Hi]. simpl in Hn. apply eq_None_not_Some in Hn. subst x.
    pose proof (lookup_lt_Some _ _ _ Hi) as L. rewrite (wf_slots_len _ _ _ _ _ W) in L.
    exists (Z.of_nat i). split; [lia|].
    destruct (wf_cell _ _ _ _ _ W (Z.of_nat i)) as [(c & [->| ->] & Hc & _)|(v & _ & _ & E)]; [lia|done| |].
    + destruct (NT (Z.of_nat i)); [lia|done].
    + rewrite Nat2Z.id in E. congruence.
Qed.

Lemma no_tombstone_place k s t v : wf k s -> 0 <= t < 2 ^ k -> no_tombstone k s -> no_tombstone k (place s t v).
Proof.
  intros W Ht NT i Hi. erewrite ctrl_at_place by (done || lia). case_decide; [|auto].
  pose proof (H2_range (Hash (key v))). intros [= E]. unfold kDeleted in E. lia.
Qed.

Lemma growth_threshold_lt k : 4 <= k -> growth_threshold (2 ^ k) < 2 ^ k.
Proof.
  intros. unfold growth_threshold. replace k with (3 + (k - 3)) by lia. rewrite Z.pow_add_r by lia.
  change (2 ^ 3) with 8. rewrite Z.mul_comm, Z.div_mul by lia. pose proof (pow2_pos (k - 3)). lia.
Qed.

(** ** Reinsertion into a larger table *)

(** A table that lookups and insertions may use: well-formed, without
    tombstones, not above its growth threshold. *)
Definition clean (k : Z) (s : table) : Prop :=
  wf k s /\ no_tombstone k s /\ mSize s <= growth_threshold (2 ^ k).

Lemma clean_has_empty k s : clean k s -> has_empty k s.
Proof.
  intros (W & NT & Hs). apply no_tombstone_has_empty; [done..|].
  pose proof (growth_threshold_lt k). pose proof (wf_k _ _ _ _ _ W). lia.
Qed.

Lemma unchecked_insert_spec k s v fuel :
  clean k s -> 2 ^ k <= Z.of_nat fuel -> mSize s + 1 <= growth_threshold (2 ^ k) -> absent s (key v) ->
  exists t, vacant_on_path k s (Hash (key v)) t /\ clean k (place s t v) /\
    unchecked_insert_with key (fopi fuel) s v = Ret (place s t v).
Proof.
  intros C Hf Hg A. pose proof (clean_has_empty _ _ C) as HE. destruct C as (W & NT & Hs).
  destruct (fopi_nogrow _ _ (key v) _ W HE Hf Hg) as [(i & w & Hw & E & _)|(_ & t & Ht & H)].
  { by rewrite (A _ _ Hw) in E. }
  exists t. split; [done|]. split.
  - split; [by apply wf_place|]. split; [by apply no_tombstone_place; [|apply Ht|]|done].
  - unfold unchecked_insert_with. rewrite H. simpl. destruct (construct_place k s t v) as (s' & -> & E); [done..|].
    simpl. by rewrite E.
Qed.

Lemma live_drop (l : list (option V)) (a : nat) (x : option V) :
  l !! a = Some x -> live (drop a l) = (match x with Some v => [v] | None => [] end) ++ live (drop (S a) l).
Proof. intros H. rewrite (drop_S _ _ _ H). by destruct x. Qed.

Lemma reinsert_spec k0 k old fuel :
  wf k0 old -> 2 ^ k <= Z.of_nat fuel ->
  forall n a s, (a + n = length (mSlots old))%nat -> clean k s ->
  mSize s + Z.of_nat (length (live (drop a (mSlots old)))) <= growth_threshold (2 ^ k) ->
  (forall j v, stored_at s j v -> exists i, i < Z.of_nat a /\ stored_at old i v) ->
  exists s', reinsert_with key (fopi fuel) old (seq a n) s = Ret s' /\ clean k s' /\
    elems s' ≡ₚ elems s ++ live (drop a (mSlots old)).
Proof.
  intros W0 Hf. induction n as [|n IH]; intros a s Hn C Hg Hold.
  - exists s. split; [done|]. split; [done|]. rewrite drop_ge by lia. by rewrite app_nil_r.
  - destruct (lookup_lt_is_Some_2 (mSlots old) a) as [x Hx]; [lia|].
    pose proof (wf_slots_len _ _ _ _ _ W0). cbn [seq reinsert_with].
    rewrite (live_drop _ _ _ Hx) in *.
    destruct (wf_cell _ _ _ _ _ W0 (Z.of_nat a)) as [(c & Hc & Ec & Es)|(v & Ec & Hv)]; [lia| |].
    + rewrite Nat2Z.id in Es. assert (x = None) as -> by congruence.
      rewrite (get_ctrl _ _ _ (Zle_0_nat a) Ec). simpl. replace (is_full c) with false by (destruct Hc; by subst).
      apply IH; [lia|done|done|]. intros j w Hw. destruct (Hold j w Hw) as (i & ? & ?). exists i. split; [lia|done].
    + pose proof (proj2 Hv) as Es. rewrite Nat2Z.id in Es. assert (x = Some v) as -> by congruence.
      rewrite (get_ctrl _ _ _ (Zle_0_nat a) Ec). simpl. rewrite is_full_H2, (slot_at_stored _ _ _ Hv). simpl.
      rewrite length_app in Hg. simpl in Hg.
      destruct (unchecked_insert_spec k s v fuel) as (t & Ht & C' & ->); [done..|lia| |].
      { intros j w Hw. destruct (Eq (key v) (key w)) eqn:E; [|done]. destruct (Hold j w Hw) as (i & Hi & Hsi).
        pose proof (wf_unique _ _ _ _ _ W0 _ _ _ _ Hv Hsi E). lia. }
      simpl. destruct (IH (S a) (place s t v)) as (s' & -> & Cs & P); [lia|done|simpl; lia| |].
      { intros j w Hw. eapply stored_at_place in Hw as [[-> ->]|[_ Hw]]; [|..|apply C|apply Ht].
        - exists (Z.of_nat a). split; [lia|done].
        - destruct (Hold j w Hw) as (i & ? & ?). exists i. split; [lia|done]. }
      exists s'. split; [done|]. split; [done|]. rewrite P, (elems_place key Hash Eq _ _ _ _ _ (proj1 C) Ht).
      simpl. by rewrite Permutation_middle.
Qed.

(** ** Growth *)
Lemma elems_fresh k : 0 <= k -> elems (fresh_set (V := V) (2 ^ k)) = [].
Proof.
  intros. unfold elems, fresh_set, initialize_ctrl; simpl. case_test; simpl; apply live_replicate_none.
Qed.

Lemma elems_stored (s : table) i v : stored_at s i v -> v ∈ elems s.
Proof. intros H. apply elem_of_live. eexists. apply H. Qed.

Lemma stored_fresh k i (v : V) : 0 <= k -> ~ stored_at (fresh_set (2 ^ k)) i v.
Proof. intros Hk H. apply elems_stored in H. rewrite elems_fresh in H by done. by apply not_elem_of_nil in H. Qed.

Lemma fresh_clean k : 4 <= k <= 60 -> clean k (fresh_set (2 ^ k)).
Proof.
  intros Hk. pose proof (pow2_pos k ltac:(lia)) as Hp.
  assert (E : fresh_set (V := V) (2 ^ k) =
    mkSet (replicate (Z.to_nat (2 ^ k)) kEmpty ++ [kSentinel]) (replicate (Z.to_nat (2 ^ k)) None) (2 ^ k) 0).
  { unfold fresh_set, initialize_ctrl; simpl. by rewrite (proj2 (Z.eqb_neq _ _)) by lia. }
  assert (Hc : forall i, 0 <= i < 2 ^ k -> ctrl_at (fresh_set (V := V) (2 ^ k)) i = Some kEmpty).
  { intros i Hi. rewrite E. unfold ctrl_at; simpl. rewrite lookup_app_l by (rewrite length_replicate; lia).
    apply lookup_replicate_2. lia. }
  assert (Hn : forall i (v : V), ~ stored_at (fresh_set (2 ^ k)) i v) by (intros; apply stored_fresh; lia).
  split; [split|split].
  all: try (rewrite E; simpl; done).
  - done.
  - rewrite E; simpl. rewrite length_app, length_replicate. simpl. lia.
  - rewrite E; simpl. apply length_replicate.
  - rewrite E. unfold ctrl_at; simpl. rewrite lookup_app_r, length_replicate, Nat.sub_diag by (rewrite length_replicate; lia). done.
  - intros i Hi. left. exists kEmpty. split; [by left|]. split; [by apply Hc|].
    rewrite E; simpl. apply lookup_replicate_2. lia.
  - rewrite E. unfold elems; simpl. by rewrite live_replicate_none.
  - intros i v H. by destruct (Hn i v).
  - intros i j v w H. by destruct (Hn i v).
  - intros i Hi. by rewrite Hc.
  - rewrite E; simpl. unfold growth_threshold. assert (2 ^ k / 8 <= 2 ^ k) by (apply Z.div_le_upper_bound; lia). lia.
Qed.

(** A table the library can produce without erasures: the null table of the
    default constructor, or a clean one. *)
Definition table_ok (s : table) : Prop := s = empty_set \/ exists k, clean k s.

Lemma resize_spec k s fuel :
  s = empty_set \/ (exists k0, wf k0 s) -> 4 <= k <= 60 -> 2 ^ k <= Z.of_nat fuel ->
  Z.of_nat (length (elems s)) <= growth_threshold (2 ^ k) ->
  exists s', resize key Hash Eq fuel s (2 ^ k) = Ret s' /\ clean k s' /\ elems s' ≡ₚ elems s.
Proof.
  intros Hs Hk Hf Hg. pose proof (fresh_clean k Hk) as C. destruct Hs as [->|[k0 W]].
  - exists (fresh_set (2 ^ k)). split; [done|]. split; [done|]. by rewrite elems_fresh by lia.
  - unfold resize, resize_with. rewrite (wf_cap _ _ _ _ _ W), <- (wf_slots_len _ _ _ _ _ W).
    assert (E : elems (fresh_set (V := V) (2 ^ k)) = []) by (apply elems_fresh; lia).
    destruct (reinsert_spec k0 k s fuel W Hf (length (mSlots s)) 0 (fresh_set (2 ^ k))) as (s' & R & C' & P); [done|done| | |].
    + destruct C as (W' & _). rewrite (wf_size _ _ _ _ _ W'), E. simpl. done.
    + intros j v Hv. by apply stored_fresh in Hv; [|lia].
    + exists s'. split; [done|]. split; [done|]. by rewrite P, E.
Qed.

Lemma next_capacity_pow2 k : 0 <= k <= 60 -> next_capacity (2 ^ k) = 2 ^ (k + 1).
Proof.
  intros. unfold next_capacity. pose proof (pow2_pos k ltac:(lia)). rewrite (proj2 (Z.eqb_neq _ _)) by lia.
  assert (2 ^ k <= 2 ^ 60) by (apply Z.pow_le_mono_r; lia).
  rewrite Z.pow_add_r by lia. apply wrap_small. lia.
Qed.

Lemma growth_threshold_step k : 4 <= k -> growth_threshold (2 ^ k) + 1 <= growth_threshold (2 ^ (k + 1)).
Proof.
  intros. unfold growth_threshold. rewrite (Z.pow_add_r 2 k) by lia. replace k with (3 + (k - 3)) by lia.
  rewrite Z.pow_add_r by lia. change (2 ^ 3) with 8. pose proof (pow2_pos (k - 3) ltac:(lia)).
  rewrite (Z.mul_comm 8), Z.div_mul by lia. replace (2 ^ (k - 3) * 8 * 2 ^ 1) with (2 ^ (k - 3) * 2 * 8) by ring.
  rewrite Z.div_mul by lia. lia.
Qed.

(** Insertion into an allocated table with an empty byte, growth included. *)
Lemma fopi_spec k s q fuel :
  wf k s -> has_empty k s -> k < 60 -> mSize s <= growth_threshold (2 ^ k) -> 2 * 2 ^ k + 1 <= Z.of_nat fuel ->
  (exists i v, stored_at s i v /\ Eq q (key v) = true /\ fopi fuel s q = Ret (s, i, false)) \/
  (absent s q /\ exists k' s1 t, wf k' s1 /\ vacant_on_path k' s1 (Hash q) t /\ absent s1 q /\
     elems s1 ≡ₚ elems s /\ (no_tombstone k s -> no_tombstone k' s1) /\ mSize s1 + 1 <= growth_threshold (2 ^ k') /\
     fopi fuel s q = Ret (mkSet (<[Z.to_nat t := H2 (Hash q)]> (mCtrl s1)) (mSlots s1) (mCapacity s1) (mSize s1), t, true)).
Proof.
  intros W HE Hk Hg Hf. pose proof (wf_k _ _ _ _ _ W). pose proof (pow2_pos k ltac:(lia)).
  destruct (Z.le_gt_cases (mSize s + 1) (growth_threshold (2 ^ k))) as [L|L].
  { destruct (fopi_nogrow _ _ q fuel W HE ltac:(lia) L) as [?|(A & t & Ht & H')]; [by left|].
    right. split; [done|]. exists k, s, t. auto 10. }
  destruct fuel as [|fuel]; [lia|]. cbn [find_or_prepare_insert].
  destruct (prepare_spec _ _ q (S fuel) W HE ltac:(lia)) as [(i & v & Hs & E & ->)|(A & t & Ht & ->)]; simpl.
  { left. by exists i, v. }
  right. split; [done|]. rewrite (proj2 (Z.ltb_lt (growth_threshold _) _)) by by rewrite (wf_cap _ _ _ _ _ W).
  pose proof (growth_threshold_step k ltac:(lia)). assert (2 ^ (k + 1) = 2 ^ k * 2) by (rewrite Z.pow_add_r by lia; done).
  assert (E3 : next_capacity (mCapacity s) = 2 ^ (k + 1)) by (rewrite (wf_cap _ _ _ _ _ W); apply next_capacity_pow2; lia).
  pose proof (wf_size _ _ _ _ _ W) as Esz.
  destruct (resize_spec (k + 1) s fuel) as (s' & R & C & P); [right; by exists k|lia|lia|lia|].
  rewrite E3. unfold resize in R. rewrite R. simpl. pose proof C as (W' & NT & _).
  assert (Esz' : mSize s' = mSize s) by (by rewrite (wf_size _ _ _ _ _ W'), P).
  destruct (fopi_nogrow _ _ q fuel W' (clean_has_empty _ _ C) ltac:(lia) ltac:(lia))
    as [(i & v & Hv & E & _)|(A' & t' & Ht' & H')].
  - assert (v ∈ elems s) as Hin by (rewrite <- P; apply elem_of_live; eexists; apply Hv).
    apply elem_of_live in Hin as [j Hj]. rewrite (A (Z.of_nat j) v) in E; [done|]. split; [lia|by rewrite Nat2Z.id].
  - exists (k + 1), s', t'. repeat (split; [done|]). split; [lia|done].
Qed.

Lemma existsb_absent s q : absent s q -> existsb (fun v => Eq q (key v)) (elems s) = false.
Proof.
  intros A. apply not_true_iff_false. rewrite existsb_exists. intros (v & Hv & E).
  apply list_elem_of_In, elem_of_live in Hv as [i Hi].
  rewrite (A (Z.of_nat i) v) in E; [done|]. split; [lia|]. by rewrite Nat2Z.id.
Qed.

Lemma existsb_stored s q i v : stored_at s i v -> Eq q (key v) = true -> existsb (fun v => Eq q (key v)) (elems s) = true.
Proof.
  intros Hs E. apply existsb_exists. exists v. split; [|done]. apply list_elem_of_In, elem_of_live. eexists. apply Hs.
Qed.

(** Insertion into an allocated table. *)
Lemma emplace_spec k s v fuel :
  wf k s -> has_empty k s -> k < 60 -> mSize s <= growth_threshold (2 ^ k) -> 2 * 2 ^ k + 1 <= Z.of_nat fuel ->
  exists k' s' i w, insert key Hash Eq fuel s v = Ret (s', i, negb (existsb (fun w => Eq (key v) (key w)) (elems s))) /\
    wf k' s' /\ (no_tombstone k s -> no_tombstone k' s') /\ mSize s' <= growth_threshold (2 ^ k') /\
    stored_at s' i w /\ Eq (key v) (key w) = true /\
    (if existsb (fun w => Eq (key v) (key w)) (elems s) then s' = s /\ k' = k else elems s' ≡ₚ v :: elems s).
Proof.
  intros W HE Hk Hg Hf. pose proof (pow2_pos k ltac:(pose proof (wf_k _ _ _ _ _ W); lia)).
  unfold insert, emplace_impl. rewrite (proj2 (Z.eqb_neq (mCapacity s) _)) by (rewrite (wf_cap _ _ _ _ _ W); lia). simpl.
  destruct (fopi_spec _ _ (key v) _ W HE Hk Hg Hf)
    as [(i & w & Hw & E & ->)|(A & k' & s1 & t & W1 & Ht & A1 & P & NT & Hs1 & ->)]; simpl.
  - rewrite (existsb_stored _ _ _ _ Hw E). rewrite (make_iterator_stored _ _ _ _ _ _ _ W Hw). simpl.
    exists k, s, i, w. auto 10.
  - rewrite (existsb_absent _ _ A). destruct (construct_place k' s1 t v W1 Ht) as (s2 & -> & E2).
    simpl. rewrite E2. pose proof (wf_place _ _ _ _ _ _ _ W1 A1 Ht) as Wp.
    assert (Hst : stored_at (place s1 t v) t v) by (eapply stored_at_place; [done|apply Ht|by left]).
    rewrite (make_iterator_stored _ _ _ _ _ _ _ Wp Hst). simpl. exists k', (place s1 t v), t, v.
    split; [done|]. split; [done|]. split; [intros ?; eapply no_tombstone_place; eauto; apply Ht|]. split; [done|].
    split; [done|]. split; [by eapply Eq_refl|]. rewrite (elems_place key Hash Eq _ _ _ _ _ W1 Ht). by rewrite P.
Qed.

(** C16: [insert] on any table built without erasures returns, with [fuel] of twice
    the capacity: if an equal key is stored the table is unchanged, the flag is
    [false] and the iterator designates the stored value; otherwise the flag is
    [true], the iterator designates the new value, and the collection gains
    exactly that value, across growth and rehashing. *)
Theorem insert_correct s v fuel :
  table_ok s -> mCapacity s < 2 ^ 60 -> 2 * Z.max 32 (mCapacity s) + 1 <= Z.of_nat fuel ->
  let present := existsb (fun w => Eq (key v) (key w)) (elems s) in
  exists s' i w, insert key Hash Eq fuel s v = Ret (s', i, negb present) /\ table_ok s' /\
    stored_at s' i w /\ Eq (key v) (key w) = true /\
    (if present then s' = s else elems s' ≡ₚ v :: elems s).
Proof.
  intros [->|[k C]] Hc Hf; cbn zeta.
  - destruct (resize_spec 5 empty_set fuel) as (s1 & R & C & P); [by left|lia|simpl in *; lia|done|].
    pose proof C as (W & NT & Hs). change (elems empty_set) with (@nil V) in *. apply Permutation_nil_r in P.
    destruct (emplace_spec 5 s1 v fuel W (clean_has_empty _ _ C)) as (k' & s' & i & w & I & W' & NT' & ? & ? & ? & E);
      [lia|done|simpl in *; lia|].
    rewrite P in *. simpl in E. unfold insert, emplace_impl in *. rewrite (wf_cap _ _ _ _ _ W) in I. simpl in I.
    assert (Hr : reserve key Hash Eq fuel empty_set kMinCapacity = Ret s1) by exact R.
    exists s', i, w. change (mCapacity empty_set =? 0) with true. cbn iota. rewrite Hr. split; [done|].
    split; [right; exists k'; split; [done|split; [auto|done]]|]. done.
  - pose proof C as (W & NT & Hs). rewrite (wf_cap _ _ _ _ _ W) in *.
    destruct (emplace_spec k s v fuel W (clean_has_empty _ _ C)) as (k' & s' & i & w & I & W' & NT' & ? & ? & ? & E);
      [|done|lia|].
    { apply (Z.pow_lt_mono_r_iff 2); lia. }
    exists s', i, w. split; [done|]. split; [right; exists k'; split; [done|split; [auto|done]]|].
    split; [done|]. split; [done|]. case_test; [apply E|done].
Qed.

(** C17: [contains] on a table built without erasures that has storage, so one that is not as
    its default constructor made it, terminates within [capacity] probes and answers
    membership in the collection. On a table without storage it is undefined
    ([null_table_lookup_undefined]). *)
Theorem contains_correct s q fuel :
  table_ok s -> 0 < mCapacity s -> mCapacity s <= Z.of_nat fuel ->
  contains key Hash Eq fuel s q = Ret (existsb (fun v => Eq q (key v)) (elems s)).
Proof.
  intros [->|[k C]] Hc Hf; [done|]. pose proof C as (W & _). rewrite (wf_cap _ _ _ _ _ W) in *.
  apply (contains_spec key Hash Eq k); [done|by apply clean_has_empty|done].
Qed.

(** ** Iteration *)

(** The iterator constructor stops at the next live slot or at the sentinel. *)
Lemma skip_spec k s : wf k s -> forall n fuel a, Z.of_nat n = 2 ^ k - Z.of_nat a -> (n < fuel)%nat ->
  exists b : nat, skip_empty_or_deleted fuel s (Z.of_nat a) = Ret (Z.of_nat b) /\ (a <= b)%nat /\
    live (drop a (mSlots s)) = live (drop b (mSlots s)) /\
    (Z.of_nat b = 2 ^ k \/ exists v, stored_at s (Z.of_nat b) v).
Proof.
  intros W. induction n as [|n IH]; intros [|fuel] a Ha Hf; try lia; cbn [skip_empty_or_deleted].
  - pose proof (wf_sentinel _ _ _ _ _ W) as Es. assert (Ea : 2 ^ k = Z.of_nat a) by lia. rewrite Ea in Es.
    rewrite (get_ctrl _ _ _ (Zle_0_nat a) Es). simpl. exists a.
    split; [done|]. split; [done|]. split; [done|by left].
  - destruct (wf_cell _ _ _ _ _ W (Z.of_nat a)) as [(c & Hc & Ec & Es)|(v & Ec & Hv)]; [lia| |].
    + rewrite (get_ctrl _ _ _ (Zle_0_nat a) Ec). simpl.
      replace (is_empty_or_deleted c) with true by (destruct Hc; by subst).
      rewrite Nat2Z.id in Es. rewrite (live_drop _ _ _ Es). simpl.
      destruct (IH fuel (S a)) as (b & Hb & ? & ? & ?); [lia|lia|].
      exists b. replace (Z.of_nat a + 1) with (Z.of_nat (S a)) by lia. split; [done|]. split; [lia|done].
    + rewrite (get_ctrl _ _ _ (Zle_0_nat a) Ec). simpl. pose proof (H2_range (Hash (key v))).
      unfold is_empty_or_deleted, kSentinel. rewrite (proj2 (Z.ltb_ge _ _)) by lia. exists a.
      split; [done|]. split; [done|]. split; [done|]. right. by exists v.
Qed.

Lemma make_iterator_spec k s (a : nat) : wf k s -> Z.of_nat a <= 2 ^ k ->
  exists b : nat, make_iterator s (Z.of_nat a) = Ret (Z.of_nat b) /\ (a <= b)%nat /\
    live (drop a (mSlots s)) = live (drop b (mSlots s)) /\
    (Z.of_nat b = 2 ^ k \/ exists v, stored_at s (Z.of_nat b) v).
Proof.
  intros W Ha. apply (skip_spec _ _ W (Z.to_nat (2 ^ k) - a)); [lia|].
  rewrite (wf_ctrl_len _ _ _ _ _ W). lia.
Qed.

Lemma iterate_spec k s : wf k s -> forall fuel (b : nat), 2 ^ k - Z.of_nat b < Z.of_nat fuel ->
  Z.of_nat b = 2 ^ k \/ (exists v, stored_at s (Z.of_nat b) v) ->
  iterate fuel s (Z.of_nat b) (2 ^ k) = Ret (live (drop b (mSlots s))).
Proof.
  intros W. induction fuel as [|fuel IH]; intros b Hf Hb; cbn [iterate].
  { destruct Hb as [|[v Hv]]; [|pose proof (stored_lt _ _ _ _ _ _ _ W Hv)]; lia. }
  case_test.
  - rewrite drop_ge by (rewrite (wf_slots_len _ _ _ _ _ W); lia). done.
  - destruct Hb as [|[v Hv]]; [done|]. pose proof (stored_lt _ _ _ _ _ _ _ W Hv).
    rewrite (slot_at_stored _ _ _ Hv). simpl. unfold iterator_next.
    replace (Z.of_nat b + 1) with (Z.of_nat (S b)) by lia.
    destruct (make_iterator_spec k s (S b) W) as (c & -> & Hc & El & Hc'); [lia|]. simpl.
    rewrite IH by (done || lia). simpl. destruct Hv as [_ Hv]. rewrite Nat2Z.id in Hv.
    by rewrite (live_drop _ _ _ Hv), El.
Qed.

Lemma elements_of_spec k s : wf k s -> elements_of s = Ret (elems s).
Proof.
  intros W. pose proof (wf_k _ _ _ _ _ W). pose proof (pow2_pos k ltac:(lia)).
  unfold elements_of, begin_. rewrite (end_wf _ _ _ _ _ W).
  change (make_iterator s 0) with (make_iterator s (Z.of_nat 0)).
  destruct (make_iterator_spec k s 0 W) as (b & -> & _ & El & Hb); [lia|]. cbn [run_bind].
  replace (elems s) with (live (drop b (mSlots s))) by done.
  apply (iterate_spec k); [done| |done]. rewrite (wf_ctrl_len _ _ _ _ _ W). lia.
Qed.

(** Pairwise distinct keys. *)
Definition distinct (l : list V) : Prop := ForallOrdPairs (fun v w => Eq (key v) (key w) = false) l.

Lemma distinct_live (l : list (option V)) :
  (forall i j v w, l !! i = Some (Some v) -> l !! j = Some (Some w) -> Eq (key v) (key w) = true -> i = j) ->
  distinct (live l).
Proof.
  induction l as [|x l IH]; intros H; [constructor|].
  assert (distinct (live l)) by (apply IH; intros i j v w ???; enough (S i = S j) by lia; by eapply H).
  destruct x as [v|]; [|done]. constructor; [|done]. apply Forall_forall. intros w Hw.
  apply list_elem_of_In, elem_of_live in Hw as [j Hj].
  destruct (Eq (key v) (key w)) eqn:E; [|done]. by pose proof (H 0%nat (S j) v w eq_refl Hj E).
Qed.

Lemma distinct_elems k s : wf k s -> distinct (elems s).
Proof.
  intros W. apply distinct_live. intros i j v w Hi Hj E.
  enough (Z.of_nat i = Z.of_nat j) by lia.
  eapply (wf_unique _ _ _ _ _ W); [| |done]; (split; [lia|by rewrite Nat2Z.id]).
Qed.

(** Iterating a table built without erasures from [begin()] to [end()] terminates
    and visits [size()] values, every stored one exactly once, no two with equal keys. *)
Theorem iteration_complete s :
  table_ok s -> 0 < mCapacity s ->
  elements_of s = Ret (elems s) /\ Z.of_nat (length (elems s)) = size s /\
  ForallOrdPairs (fun v w => Eq (key v) (key w) = false) (elems s).
Proof.
  intros [->|[k (W & _)]] Hc; [done|]. split; [by eapply elements_of_spec|].
  split; [symmetry; by eapply wf_size|by eapply distinct_elems].
Qed.

(** ** Copying *)

Lemma insert_all_spec k fuel : 2 ^ k <= Z.of_nat fuel -> forall l s,
  clean k s -> mSize s + Z.of_nat (length l) <= growth_threshold (2 ^ k) ->
  (forall v, v ∈ l -> absent s (key v)) -> distinct l ->
  exists s', insert_all key Hash Eq fuel s l = Ret s' /\ clean k s' /\ elems s' ≡ₚ l ++ elems s.
Proof.
  intros Hf. induction l as [|v l IH]; intros s C Hg A D; [by exists s|]. cbn [insert_all length] in *.
  destruct (unchecked_insert_spec k s v fuel C Hf) as (t & Ht & C' & R); [lia|apply A; by left|].
  unfold unchecked_insert. rewrite R. simpl. inversion D as [|? ? Hd D']; subst. rewrite List.Forall_forall in Hd.
  destruct (IH (place s t v)) as (s' & Hs' & C'' & P); [done|simpl; lia| |done|].
  - intros w Hw i u Hu. eapply stored_at_place in Hu as [[-> ->]|[_ Hu]]; [|..|apply C|apply Ht].
    + destruct (Eq (key w) (key v)) eqn:E; [|done]. eapply Eq_sym in E; [|done].
      rewrite Hd in E; [done|by apply list_elem_of_In].
    + eapply A; [by right|done].
  - exists s'. split; [done|]. split; [done|]. rewrite P, (elems_place key Hash Eq _ _ _ _ _ (proj1 C) Ht).
    by rewrite Permutation_middle.
Qed.

(** Copy construction yields a table of the same capacity holding the same
    collection of values. *)
Theorem copy_correct o fuel :
  table_ok o -> mCapacity o <= Z.of_nat fuel ->
  exists s, copy key Hash Eq fuel o = Ret s /\ table_ok s /\ mCapacity s = mCapacity o /\ elems s ≡ₚ elems o.
Proof.
  intros [->|[k C]] Hf; [exists empty_set; split; [done|]; split; [by left|done]|].
  pose proof C as (W & NT & Hs). pose proof (wf_k _ _ _ _ _ W). pose proof (pow2_pos k ltac:(lia)).
  unfold copy. rewrite (wf_cap _ _ _ _ _ W) in *. rewrite (proj2 (Z.ltb_lt _ _)) by lia.
  destruct (resize_spec k empty_set fuel) as (s1 & -> & C1 & P1); [by left|done|done|simpl|].
  { pose proof (wf_size _ _ _ _ _ W). lia. }
  simpl. rewrite (elements_of_spec k) by done. simpl. apply Permutation_nil_r in P1.
  destruct (insert_all_spec k fuel Hf (elems o) s1 C1) as (s2 & -> & C2 & P2); [| |by eapply distinct_elems|].
  - destruct C1 as (W1 & _). rewrite (wf_size _ _ _ _ _ W1), P1. simpl. rewrite <- (wf_size _ _ _ _ _ W). done.
  - intros v _ i w Hw. assert (w ∈ elems s1) as Hin by (apply elem_of_live; eexists; apply Hw).
    rewrite P1 in Hin. by apply not_elem_of_nil in Hin.
  - exists s2. split; [done|]. split; [right; by exists k|]. split; [apply (wf_cap _ _ _ _ _ (proj1 C2))|].
    by rewrite P2, P1, app_nil_r.
Qed.

(** ** Clearing *)

(** A cell whose byte says whether its slot is live. *)
Definition cell_ok (s : table) (i : nat) : Prop :=
  exists c x, mCtrl s !! i = Some c /\ mSlots s !! i = Some x /\ is_full c = bool_decide (is_Some x).

Lemma wf_cell_ok k s (i : nat) : wf k s -> Z.of_nat i < 2 ^ k -> cell_ok s i.
Proof.
  intros W Hi. destruct (wf_cell _ _ _ _ _ W (Z.of_nat i)) as [(c & Hc & Ec & Es)|(v & Ec & _ & Hv)]; [lia| |];
    unfold ctrl_at in Ec; rewrite Nat2Z.id in *.
  - exists c, None. split; [done|]. split; [done|]. destruct Hc; by subst.
  - eexists _, (Some v). split; [done|]. split; [done|]. by rewrite is_full_H2, bool_decide_eq_true_2.
Qed.

Lemma clear_full_spec : forall n a s,
  (a + n = length (mSlots s))%nat -> length (mCtrl s) = S (length (mSlots s)) ->
  (forall i, (a <= i < a + n)%nat -> cell_ok s i) ->
  exists s', clear_full s (seq a n) = Ret s' /\ mCapacity s' = mCapacity s /\
    mSlots s' = take a (mSlots s) ++ replicate n None.
Proof.
  induction n as [|n IH]; intros a s Hn Hl Hc; cbn [seq clear_full].
  { exists s. split; [done|]. split; [done|]. by rewrite app_nil_r, take_ge by lia. }
  destruct (Hc a) as (c & x & Ec & Es & Hf); [lia|].
  rewrite (get_lookup _ _ c) by (rewrite ?Nat2Z.id; (lia || done)). simpl. rewrite Hf. case_bool_decide as Hx.
  - destruct Hx as [v ->]. unfold destroy_slot, slot_at, set_ctrl.
    rewrite (get_lookup _ _ (Some v)) by (rewrite ?Nat2Z.id; (lia || done)). simpl.
    rewrite set_lookup by lia. simpl. rewrite set_lookup by lia. simpl. rewrite !Nat2Z.id.
    destruct (IH (S a) (mkSet (<[a:=kEmpty]> (mCtrl s)) (<[a:=None]> (mSlots s)) (mCapacity s) (mSize s)))
      as (s' & Hs & ? & E); simpl; rewrite ?length_insert; [lia|done| |].
    + intros i Hi. destruct (Hc i) as (c' & x' & ?); [lia|]. exists c', x'; simpl.
      rewrite !list_lookup_insert_ne by lia. done.
    + exists s'. split; [done|]. split; [done|]. rewrite E; simpl.
      rewrite (take_S_r _ _ None) by (apply list_lookup_insert_eq; lia). rewrite take_insert_ge by lia.
      by rewrite <- app_assoc.
  - assert (x = None) as -> by (by apply eq_None_not_Some).
    destruct (IH (S a) s) as (s' & Hs & ? & E); [lia|done|intros; apply Hc; lia|].
    exists s'. split; [done|]. split; [done|]. rewrite E, (take_S_r _ _ None) by done. by rewrite <- app_assoc.
Qed.

Lemma clear_spec k s : wf k s -> clear s = Ret (fresh_set (2 ^ k)).
Proof.
  intros W. pose proof (wf_k _ _ _ _ _ W). pose proof (pow2_pos k ltac:(lia)).
  unfold clear. rewrite (wf_cap _ _ _ _ _ W), (proj2 (Z.eqb_neq _ _)) by lia.
  destruct (clear_full_spec (Z.to_nat (2 ^ k)) 0 s) as (s' & -> & Ec & Es);
    rewrite ?(wf_slots_len _ _ _ _ _ W), ?(wf_ctrl_len _ _ _ _ _ W); [done|done| |].
  - intros i Hi. apply (wf_cell_ok k); [done|lia].
  - simpl in *. unfold fresh_set, set_size, initialize_ctrl; simpl. rewrite Ec, (wf_cap _ _ _ _ _ W).
    rewrite (proj2 (Z.eqb_neq _ _)) by lia. simpl. by rewrite Es.
Qed.

(** [clear], on any well-formed table including one with tombstones, destroys
    every live slot exactly once and leaves the state of a freshly allocated table
    of the same capacity: empty, and again usable by every operation. *)
Theorem clear_correct k s :
  wf k s -> clear s = Ret (fresh_set (mCapacity s)) /\ table_ok (fresh_set (mCapacity s)) /\
    elems (fresh_set (V := V) (mCapacity s)) = [].
Proof.
  intros W. pose proof (wf_k _ _ _ _ _ W). rewrite (clear_spec k) by done. rewrite (wf_cap _ _ _ _ _ W).
  split; [done|]. split; [right; exists k; by apply fresh_clean|apply elems_fresh; lia].
Qed.

(** ** Erasure *)

(** The table after the value at [i] became a tombstone. *)
Definition tombstone (s : table) (i : Z) : table :=
  mkSet (<[Z.to_nat i := kDeleted]> (mCtrl s)) (<[Z.to_nat i := None]> (mSlots s)) (mCapacity s) (mSize s - 1).

Lemma ctrl_at_tombstone k s i j :
  wf k s -> 0 <= i < 2 ^ k -> 0 <= j ->
  ctrl_at (tombstone s i) j = if decide (j = i) then Some kDeleted else ctrl_at s j.
Proof.
  intros W Hi Hj. unfold ctrl_at, tombstone; simpl. destruct (decide (j = i)) as [->|].
  - apply list_lookup_insert_eq. rewrite (wf_ctrl_len _ _ _ _ _ W). lia.
  - apply list_lookup_insert_ne. lia.
Qed.

Lemma stored_at_tombstone k s i j w :
  wf k s -> 0 <= i < 2 ^ k -> stored_at (tombstone s i) j w <-> j <> i /\ stored_at s j w.
Proof.
  intros W Hi. unfold stored_at, tombstone; simpl. destruct (decide (j = i)) as [->|].
  - rewrite list_lookup_insert_eq by (rewrite (wf_slots_len _ _ _ _ _ W); lia). by split; [intros [_ ?]|intros [? _]].
  - split; [intros [? H]|intros (_ & ? & H)]; rewrite list_lookup_insert_ne in * by lia; done.
Qed.

Lemma wf_tombstone k s i v : wf k s -> stored_at s i v -> wf k (tombstone s i).
Proof.
  intros W Hv. pose proof (stored_lt _ _ _ _ _ _ _ W Hv) as Hi. pose proof W as [].
  split; try done; try (simpl; by rewrite length_insert).
  - rewrite (ctrl_at_tombstone k) by (done || lia). by rewrite decide_False by lia.
  - intros j Hj. rewrite (ctrl_at_tombstone k) by (done || lia). case_decide as E.
    + subst. left. exists kDeleted. split; [by right|]. split; [done|]. simpl. apply list_lookup_insert_eq. lia.
    + destruct (wf_cell j Hj) as [(c & ? & ? & ?)|(w & ? & ?)].
      * left. exists c. split; [done|]. split; [done|]. simpl. by rewrite list_lookup_insert_ne by lia.
      * right. exists w. split; [done|]. by apply (stored_at_tombstone k).
  - simpl. rewrite wf_size. unfold elems. rewrite (live_insert_none _ _ _ (proj2 Hv)). simpl. lia.
  - intros j w Hs. apply (stored_at_tombstone k) in Hs as [_ Hs]; [|done..].
    destruct (wf_reach _ _ Hs) as (n & Hn & <- & Hm). exists n. split; [done|]. split; [done|]. intros m Hlt.
    pose proof (probe_pos_range (Hash (key w)) k m ltac:(lia)).
    rewrite (ctrl_at_tombstone k) by (done || lia). case_decide; [done|auto].
  - intros a b u w Ha Hb E. apply (stored_at_tombstone k) in Ha as [_ Ha], Hb as [_ Hb]; eauto.
Qed.

Lemma erase_at_tombstone k s i v c :
  wf k s -> stored_at s i v -> ctrl_at s ((i + 1) mod 2 ^ k) = Some c -> c <> kEmpty ->
  erase_at s i = Ret (tombstone s i).
Proof.
  intros W Hv Hc Hne. pose proof (stored_lt _ _ _ _ _ _ _ W Hv) as Hi. pose proof (wf_k _ _ _ _ _ W).
  pose proof (pow2_pos k ltac:(lia)). pose proof (Z.mod_pos_bound (i + 1) (2 ^ k) ltac:(lia)).
  unfold erase_at, destroy_slot. rewrite (slot_at_stored _ _ _ Hv). simpl.
  rewrite set_lookup by (rewrite (wf_slots_len _ _ _ _ _ W); lia). simpl.
  rewrite (wf_cap _ _ _ _ _ W), land_ones_mod by lia. rewrite (get_lookup _ _ c) by (done || lia). simpl.
  replace (is_empty c) with false by (symmetry; by apply Z.eqb_neq).
  unfold set_ctrl; simpl. rewrite set_lookup by (rewrite (wf_ctrl_len _ _ _ _ _ W); lia). simpl.
  unfold set_size, tombstone; simpl. f_equal. rewrite (wf_cap _ _ _ _ _ W). f_equal. apply wrap_small.
  pose proof (elems_bound _ _ _ _ _ W). rewrite (wf_size _ _ _ _ _ W).
  assert (0 < length (elems s))%nat by (unfold elems; rewrite (live_insert_none _ _ _ (proj2 Hv)); simpl; lia).
  assert (2 ^ k <= 2 ^ 60) by (apply Z.pow_le_mono_r; lia). lia.
Qed.

(** [erase] of a key whose slot is followed, in the control array, by a
    non-empty byte returns 1, removes exactly the value with that key, and keeps the
    table well-formed and searchable (the erased slot becomes a tombstone);
    erasing an absent key returns 0 and changes nothing. *)
Theorem erase_correct k s q fuel :
  wf k s -> has_empty k s -> 2 ^ k <= Z.of_nat fuel ->
  (forall i v, stored_at s i v -> Eq q (key v) = true -> ctrl_at s ((i + 1) mod 2 ^ k) <> Some kEmpty) ->
  (exists v s', Eq q (key v) = true /\ erase key Hash Eq fuel s q = Ret (1, s') /\ elems s ≡ₚ v :: elems s' /\
     wf k s' /\ has_empty k s') \/
  (existsb (fun v => Eq q (key v)) (elems s) = false /\ erase key Hash Eq fuel s q = Ret (0, s)).
Proof.
  intros W HE Hf Hne. unfold erase. pose proof (wf_k _ _ _ _ _ W). pose proof (pow2_pos k ltac:(lia)).
  destruct (find_spec _ _ _ _ _ q _ W HE Hf) as [(i & v & Hs & E & ->)|[A ->]]; simpl; rewrite (end_wf _ _ _ _ _ W); simpl.
  - left. pose proof (stored_lt _ _ _ _ _ _ _ W Hs) as Hi. rewrite (proj2 (Z.eqb_neq _ _)) by lia.
    exists v, (tombstone s i). split; [done|]. specialize (Hne i v Hs E).
    assert (exists c, ctrl_at s ((i + 1) mod 2 ^ k) = Some c) as [c Hc].
    { apply lookup_lt_is_Some_2. rewrite (wf_ctrl_len _ _ _ _ _ W). pose proof (Z.mod_pos_bound (i + 1) (2 ^ k)). lia. }
    rewrite (erase_at_tombstone k s i v c) by congruence. split; [done|].
    split; [by apply live_insert_none, Hs|]. split; [by eapply wf_tombstone|].
    destruct HE as (j & Hj & Ej). exists j. split; [done|]. rewrite (ctrl_at_tombstone k) by (done || lia).
    case_decide; [|done]. subst. rewrite (stored_cell _ _ _ _ _ _ _ W Hs) in Ej.
    pose proof (H2_range (Hash (key v))). injection Ej. unfold kEmpty. lia.
  - right. rewrite Z.eqb_refl. split; [by apply existsb_absent|done].
Qed.

End Spec.

(** ** Integer tables: witnesses and the histories erasure breaks *)

(** The identity hash that common standard libraries use for integers. *)
Definition int_hash (x : Z) : Z := wrap 64 x.

Section IntSet.
Notation Hash := int_hash.
Notation wf := RawHashSetFacts.wf.
Notation place := RawHashSetFacts.place.
Notation iinsert := (insert (fun x : Z => x) Hash Z.eqb).
Notation icontains := (contains (fun x : Z => x) Hash Z.eqb).
Notation ierase := (erase (fun x : Z => x) Hash Z.eqb).
Notation ifind := (find (fun x : Z => x) Hash Z.eqb).

#[local] Instance int_policy : HashPolicy Hash Z.eqb.
Proof.
  split.
  - apply Z.eqb_refl.
  - intros a b E. zbool. subst. apply Z.eqb_refl.
  - intros a b c E F. zbool. subst. apply Z.eqb_refl.
  - intros a b E. zbool. by subst.
  - intros a. by apply wrap_range.
Qed.

(** A clean table holding 7. *)
Lemma seven_clean : exists s, clean (fun x : Z => x) Hash Z.eqb 4 s /\ elems s = [7].
Proof.
  pose proof (fresh_clean (fun x : Z => x) Hash Z.eqb 4 ltac:(lia)) as C.
  pose proof (elems_fresh (V := Z) 4 ltac:(lia)) as E.
  destruct (unchecked_insert_spec (fun x : Z => x) Hash Z.eqb 4 _ 7 16 C) as (t & Ht & C' & _); [simpl; lia|done| |].
  - intros i v Hv. by apply stored_fresh in Hv.
  - eexists. split; [done|]. apply Permutation_singleton_r. rewrite (elems_place _ _ _ _ _ _ _ _ (proj1 C) Ht). by rewrite E.
Qed.

Lemma insert_correct_witness :
  exists s' i w, iinsert 65 empty_set 7 = Ret (s', i, true) /\ table_ok (fun x : Z => x) Hash Z.eqb s' /\
    stored_at s' i w /\ Z.eqb 7 w = true /\ elems s' ≡ₚ [7].
Proof. apply (insert_correct (fun x : Z => x) Hash Z.eqb empty_set 7 65); [by left|done|done]. Defined.

Lemma contains_correct_witness : exists s, icontains 16 s 7 = Ret true /\ icontains 16 s 8 = Ret false.
Proof.
  destruct seven_clean as (s & C & E). exists s. pose proof (wf_cap _ _ _ _ _ (proj1 C)) as Ec.
  split; (rewrite (contains_correct (fun x : Z => x) Hash Z.eqb s); [by rewrite E|right; by exists 4|by rewrite Ec|by rewrite Ec]).
Defined.

Lemma iteration_complete_witness : exists s : raw_hash_set (V := Z), elements_of s = Ret [7].
Proof.
  destruct seven_clean as (s & C & E). exists s. pose proof (wf_cap _ _ _ _ _ (proj1 C)) as Ec.
  rewrite <- E. apply (iteration_complete (fun x : Z => x) Hash Z.eqb s); [right; by exists 4|by rewrite Ec].
Defined.

Lemma copy_correct_witness :
  exists s s', elems s = [7] /\ copy (fun x : Z => x) Hash Z.eqb 16 s = Ret s' /\ elems s' ≡ₚ [7].
Proof.
  destruct seven_clean as (s & C & E). exists s. pose proof (wf_cap _ _ _ _ _ (proj1 C)) as Ec.
  destruct (copy_correct (fun x : Z => x) Hash Z.eqb s 16) as (s' & H & _ & _ & P); [right; by exists 4|by rewrite Ec|].
  exists s'. rewrite E in P. done.
Defined.

Lemma clear_correct_witness : exists s, elems s = [7] /\ clear s = Ret (fresh_set (V := Z) 16).
Proof.
  destruct seven_clean as (s & C & E). exists s. split; [done|].
  destruct (clear_correct (fun x : Z => x) Hash Z.eqb 4 s) as (-> & _); [apply C|].
  by rewrite (wf_cap _ _ _ _ _ (proj1 C)).
Defined.

(** The table of 0 and 1: 1 collides with 0 and sits at its second probe. *)
Definition pair_table : raw_hash_set :=
  place (fun x : Z => x) Hash (place (fun x : Z => x) Hash (fresh_set (2 ^ 4)) 0 0) 1 1.

Lemma pair_wf : wf (fun x : Z => x) Hash Z.eqb 4 pair_table.
Proof.
  pose proof (fresh_clean (fun x : Z => x) Hash Z.eqb 4 ltac:(lia)) as (W & _).
  assert (W1 : wf (fun x : Z => x) Hash Z.eqb 4 (place (fun x : Z => x) Hash (fresh_set (2 ^ 4)) 0 0)).
  { apply wf_place; [apply int_policy|done| |].
    - intros i v Hv. by apply stored_fresh in Hv.
    - split; [lia|]. split; [by left|]. exists 0. split; [lia|]. split; [done|lia]. }
  apply wf_place; [apply int_policy|done| |].
  - intros i v Hv. eapply (stored_at_place _ _ _ 4) in Hv as [[-> ->]|[_ Hv]]; [done| |done|lia].
    by apply stored_fresh in Hv.
  - split; [lia|]. split; [by left|]. exists 1. split; [lia|]. split; [done|]. intros m Hm.
    assert (m = 0) as -> by lia. done.
Qed.

Lemma erase_correct_witness :
  exists s', ierase 16 pair_table 0 = Ret (1, s') /\ elems s' = [1] /\ has_empty 4 s'.
Proof.
  destruct (erase_correct (fun x : Z => x) Hash Z.eqb 4 pair_table 0 16) as [(v & s' & H & R & P & _ & HE)|[H _]];
    [apply pair_wf|by exists 2|done| |exists s'|by vm_compute in H].
  - intros i v Hv Hq. apply Z.eqb_eq in Hq. subst v.
    assert (S0 : stored_at pair_table 0 0) by done.
    by rewrite (wf_unique _ _ _ _ _ pair_wf _ _ _ _ Hv S0 eq_refl).
  - apply Z.eqb_eq in H. subst v. split; [done|]. split; [|done].
    change (elems pair_table) with [0; 1] in P. apply Permutation_cons_inv in P. by apply Permutation_singleton_l in P.
Defined.

(** Inserts the given keys in order, then erases the given keys. *)
Fixpoint insert_keys (s : raw_hash_set) (l : list Z) : run raw_hash_set :=
  match l with [] => Ret s | x :: l => do (s, _, _) <- iinsert 100 s x; insert_keys s l end.
Fixpoint erase_keys (s : raw_hash_set) (l : list Z) : run raw_hash_set :=
  match l with [] => Ret s | x :: l => do (_, s) <- ierase 100 s x; erase_keys s l end.

Definition table_of (m : run (raw_hash_set (V := Z))) : raw_hash_set := match m with Ret s => s | _ => empty_set end.

(** [erase_at] empties the byte when the next byte of the array is
    empty, although probing is quadratic, so the erased slot can lie on another
    key's probe path.  With the identity hash of integers, inserting 0, 1 and 2 and
    erasing 1 leaves 2 stored and counted, and [contains(2)] answers [false]. *)
Theorem erase_loses_other_key :
  exists s, (do s <- insert_keys empty_set [0; 1; 2]; erase_keys s [1]) = Ret s /\
    elems s = [0; 2] /\ size s = 2 /\ icontains 100 s 2 = Ret false.
Proof.
  exists (table_of (do s <- insert_keys empty_set [0; 1; 2]; erase_keys s [1])).
  split; [vm_compute; reflexivity|]. vm_compute. auto.
Qed.

(** Every slot refuses the key without being empty. *)
Definition blocked (s : raw_hash_set) (q i : Z) : bool :=
  match get (mCtrl s) i with
  | Ret c => negb (is_empty c) && (if is_full c && (H2 (Hash q) =? c) then
      match slot_at s i with Ret v => negb (q =? v) | _ => false end else true)
  | _ => false
  end.

Lemma find_loop_blocked s q k :
  0 <= k -> (forall i, 0 <= i < 2 ^ k -> blocked s q i = true) ->
  forall fuel p, mMask p = 2 ^ k - 1 -> 0 <= mPos p < 2 ^ k ->
  find_loop (fun x : Z => x) Z.eqb fuel s (Hash q) q p = Timeout.
Proof.
  intros Hk Hb. induction fuel as [|fuel IH]; intros p Hm Hp; [done|]. cbn [find_loop].
  specialize (Hb _ Hp). unfold blocked in Hb. destruct (get _ _) as [c| | |]; [|done..]. simpl.
  apply andb_true_iff in Hb as [He Hb]. apply negb_true_iff in He. rewrite He.
  rewrite IH; [|done|simpl; rewrite Hm, land_ones_mod by lia; apply Z.mod_pos_bound; auto with cxx].
  destruct (is_full c && _); simpl; [|done]. destruct (slot_at s (mPos p)) as [v| | |]; [|done..].
  simpl. apply negb_true_iff in Hb. by rewrite Hb.
Qed.

(** Tombstones count neither as empty nor towards the load, so a table can
    run out of empty bytes while nearly empty of values.  After 28 insertions, 27
    erasures and 4 insertions the table of capacity 32 holds 5 values and no empty
    byte, and [find] of an absent key probes forever: no fuel is enough. *)
Theorem find_diverges_on_tombstones :
  exists s, (do s <- insert_keys empty_set (Z.mul 128 <$> seqZ 0 28);
             do s <- erase_keys s (Z.mul 128 <$> seqZ 0 27);
             insert_keys s (Z.mul 128 <$> seqZ 28 4)) = Ret s /\
    size s = 5 /\ capacity s = 32 /\ forall fuel, ifind fuel s 0 = Timeout.
Proof.
  exists (table_of (do s <- insert_keys empty_set (Z.mul 128 <$> seqZ 0 28);
             do s <- erase_keys s (Z.mul 128 <$> seqZ 0 27);
             insert_keys s (Z.mul 128 <$> seqZ 28 4))).
  split; [vm_compute; reflexivity|]. split; [vm_compute; reflexivity|]. split; [vm_compute; reflexivity|].
  intros fuel. set (s := table_of _). assert (E : mCapacity s = 32) by (vm_compute; reflexivity).
  unfold find. rewrite E. change (32 =? 0) with false. cbv iota.
  apply (find_loop_blocked s 0 5); [lia| |done|vm_compute; split; [discriminate|reflexivity]].
  apply (Z_range_check 32). vm_compute. reflexivity.
Qed.

(** A default-constructed table has a null control array, which [end()]
    (so [find], [contains], [begin] and a range-for loop) dereferences. *)
Theorem null_table_lookup_undefined (q : Z) (fuel : nat) :
  end_ (V := Z) empty_set = Undef /\ begin_ (V := Z) empty_set = Undef /\ icontains fuel empty_set q = Undef.
Proof. done. Qed.

End IntSet.
