(* ===== verification/Event.v ===== *)
(** * kernel/event.hpp, kernel/event.cpp: events and the registry of event types

    An event is its type code (stored in a [ushort]), its flags and the payload
    of the two derived classes.  [register_event_type] is modelled with its
    function-local statics as an explicit state. *)

From stdpp Require Import prelude list numbers gmap sets.
From Stdlib Require Import ZArith Lia.
From S2P Require Import Prelude.

#[local] Open Scope Z_scope.
#[local] Open Scope cxx_scope.

(** ** Event types *)
Definition kNone : Z := 0.
Definition kQuit : Z := 1.
Definition kTimer : Z := 2.
Definition kLoopChange : Z := 22.
Definition kDeferredDelete : Z := 52.
Definition kParentChange : Z := 21.
Definition kParentAboutToChange : Z := 131.
Definition kChildAdded : Z := 68.
Definition kChildRemoved : Z := 71.
Definition kChildPolished : Z := 69.
Definition kUser : Z := 1000.
Definition kMax : Z := 65535.

(** [mPayload] is [TimerEvent::mTimerId] or the id of [ChildEvent::mChild]. *)
Record Event := mkEvent { mType : Z; mPosted : bool; mAccept : bool; mPayload : Z }.

Definition make_event (type : Z) : Event := mkEvent (wrap 16 type) false false 0.
Definition make_timer_event (timer_id : Z) : Event := mkEvent (wrap 16 kTimer) false false timer_id.
Definition make_child_event (type child : Z) : Event := mkEvent (wrap 16 type) false false child.
Definition make_deferred_delete_event : Event := make_event kDeferredDelete.

Definition type (e : Event) : Z := mType e.
Definition is_accepted (e : Event) : bool := mAccept e.
Definition set_accepted (e : Event) (accepted : bool) : Event := mkEvent (mType e) (mPosted e) accepted (mPayload e).
Definition accept (e : Event) : Event := set_accepted e true.
Definition ignore (e : Event) : Event := set_accepted e false.

(** ** Registry of user event types *)
Record registry := mkRegistry { sClaimed : gset Z; sNext : Z }.
Definition init_registry : registry := mkRegistry ∅ kUser.

(** [sClaimed.insert(id).second] *)
Definition claim (r : registry) (id : Z) : registry * bool :=
  if decide (id ∈ sClaimed r) then (r, false) else (mkRegistry ({[id]} ∪ sClaimed r) (sNext r), true).

(** The automatic path: [while (sNext <= kMax)]. *)
Fixpoint auto_claim (fuel : nat) (r : registry) : run (registry * Z) :=
  match fuel with
  | O => Timeout
  | S fuel =>
    if sNext r <=? kMax then
      let id := sNext r in
      let (r', fresh) := claim (mkRegistry (sClaimed r) (id + 1)) id in
      if fresh then Ret (r', id) else auto_claim fuel r'
    else Ret (r, -1)
  end.

(** The number of ids bounds the loop. *)
Definition auto_fuel : nat := Z.to_nat (kMax - kUser + 2).

Definition register_event_type (r : registry) (hint : Z) : run (registry * Z) :=
  if hint =? -1 then auto_claim auto_fuel r
  else if (kUser <=? hint) && (hint <=? kMax) then
    let (r', fresh) := claim r hint in
    if fresh then Ret (r', hint) else Ret (r', -1)
  else Ret (r, -1).

(** A sequence of calls, with the results. *)
Fixpoint register_all (r : registry) (hints : list Z) : run (registry * list Z) :=
  match hints with
  | [] => Ret (r, [])
  | h :: hints =>
    do (r, id) <- register_event_type r h;
    do (r, ids) <- register_all r hints;
    Ret (r, id :: ids)
  end.

(** ** Invariant and correctness *)

(** Claimed ids are user ids, and every id below the cursor is claimed. *)
Record registry_ok (r : registry) : Prop := {
  claimed_range : forall id, id ∈ sClaimed r -> kUser <= id <= kMax;
  next_range : kUser <= sNext r <= kMax + 1;
  below_next : forall id, kUser <= id < sNext r -> id ∈ sClaimed r
}.

Lemma init_registry_ok : registry_ok init_registry.
Proof. split; simpl; [set_solver|unfold kUser, kMax; lia|lia]. Qed.
#[export] Hint Resolve init_registry_ok : cxx.

(** The outcome a call may have: a fresh user id, or refusal with a reason. *)
Definition registered (hint : Z) (r r' : registry) (id : Z) : Prop :=
  (id = -1 /\ sClaimed r' = sClaimed r /\
   (if hint =? -1 then forall i, kUser <= i <= kMax -> i ∈ sClaimed r
    else kUser <= hint <= kMax -> hint ∈ sClaimed r)) \/
  (kUser <= id <= kMax /\ id ∉ sClaimed r /\ sClaimed r' = {[id]} ∪ sClaimed r /\ (hint = -1 \/ id = hint)).

Lemma auto_claim_spec (fuel : nat) : forall r, registry_ok r -> kMax + 1 - sNext r < Z.of_nat fuel ->
  exists r' id, auto_claim fuel r = Ret (r', id) /\ registry_ok r' /\ registered (-1) r r' id.
Proof.
  induction fuel as [|fuel IH]; intros r [Hc Hn Hb] Hf; [lia|]. cbn [auto_claim]. case_test.
  - unfold claim; simpl. case_decide as D.
    + destruct (IH (mkRegistry (sClaimed r) (sNext r + 1))) as (r' & id & E & O & H); [split; simpl; auto|simpl; lia|by exists r', id].
      * lia.
      * intros i Hi. destruct (decide (i = sNext r)) as [->|]; [done|apply Hb; lia].
    + eexists _, _. split; [done|]. split.
      * split; simpl; [set_solver by lia|lia|]. intros i Hi.
        destruct (decide (i = sNext r)) as [->|]; [set_solver|]. apply elem_of_union_r, Hb. lia.
      * right. simpl. split; [lia|]. auto.
  - exists r, (-1). split; [done|]. split; [done|]. left. split; [done|]. split; [done|].
    simpl. intros i Hi. apply Hb. lia.
Qed.

Lemma register_spec r hint : registry_ok r ->
  exists r' id, register_event_type r hint = Ret (r', id) /\ registry_ok r' /\ registered hint r r' id.
Proof.
  intros O. unfold register_event_type. destruct (hint =? -1) eqn:E.
  { zbool. subst. apply auto_claim_spec; [done|]. destruct O as [_ H _]. unfold auto_fuel. lia. }
  destruct ((kUser <=? hint) && (hint <=? kMax)) eqn:R; zbool.
  - unfold claim. case_decide.
    + exists r, (-1). split; [done|]. split; [done|]. left. split; [done|]. split; [done|].
      by rewrite (proj2 (Z.eqb_neq _ _)).
    + eexists _, _. split; [done|]. destruct O as [Hc Hn Hb].
      split; [split; simpl; [set_solver by lia|done|]|right; simpl; auto].
      intros i Hi. apply elem_of_union_r, Hb, Hi.
  - exists r, (-1). split; [done|]. split; [done|]. left. split; [done|]. split; [done|].
    rewrite (proj2 (Z.eqb_neq _ _)) by done. intros [A B].
    apply Z.leb_le in A, B. by rewrite A, B in R.
Qed.

(** A call of [register_event_type] terminates and returns either a user id that
    no earlier call returned (the hint itself, when one is given) or -1; -1 answers
    an automatic request only when every id of the range is claimed, and a hint
    only when it is out of range or already claimed. *)
Theorem register_event_type_correct r hint : registry_ok r ->
  exists r' id, register_event_type r hint = Ret (r', id) /\ registry_ok r' /\ registered hint r r' id.
Proof. apply register_spec. Qed.

Lemma register_event_type_correct_witness :
  exists r' id, register_event_type init_registry 1005 = Ret (r', id) /\ registry_ok r' /\ registered 1005 init_registry r' id.
Proof. apply (register_event_type_correct init_registry 1005). apply init_registry_ok. Defined.

Lemma registered_neg (hint id : Z) r r' : registered hint r r' id -> id <> -1 -> id ∉ sClaimed r /\ sClaimed r' = {[id]} ∪ sClaimed r.
Proof. intros [[? _]|(_ & ? & ? & _)] ?; [done|auto]. Qed.

Lemma register_all_spec hints : forall r, registry_ok r ->
  exists r' ids, register_all r hints = Ret (r', ids) /\ registry_ok r' /\
    length ids = length hints /\ NoDup (filter (fun i => i <> -1) ids) /\
    (forall i, i ∈ ids -> i <> -1 -> i ∉ sClaimed r /\ kUser <= i <= kMax).
Proof.
  induction hints as [|h hints IH]; intros r O; [exists r, []; cbn; split_and!; auto; [constructor|set_solver]|].
  destruct (register_spec r h O) as (r1 & id & E & O1 & R). destruct (IH r1 O1) as (r' & ids & E' & O' & L & N & F).
  exists r', (id :: ids). cbn [register_all]. rewrite E; cbn [run_bind]. rewrite E'. split; [done|]. split; [done|]. split; [simpl; lia|].
  assert (Sub : sClaimed r ⊆ sClaimed r1) by (destruct R as [(_ & -> & _)|(_ & _ & -> & _)]; set_solver).
  split.
  - rewrite filter_cons. case_decide as D; [|done]. apply NoDup_cons. split; [|done]. intros Hin.
    apply list_elem_of_filter in Hin as [_ Hin]. destruct (F id Hin D) as [F' _].
    destruct (registered_neg _ _ _ _ R D) as [_ E1]. rewrite E1 in F'. set_solver.
  - intros i Hi Hne. apply elem_of_cons in Hi as [->|Hi]; [|destruct (F i Hi Hne); set_solver].
    destruct R as [[? _]|(? & ? & _)]; [done|auto].
Qed.

(** Any sequence of registrations in a fresh process terminates, and the ids it
    hands out are user ids, pairwise distinct. *)
Theorem register_history_unique hints :
  exists r ids, register_all init_registry hints = Ret (r, ids) /\ length ids = length hints /\
    NoDup (filter (fun i => i <> -1) ids) /\ (forall i, i ∈ ids -> i = -1 \/ kUser <= i <= kMax).
Proof.
  destruct (register_all_spec hints init_registry init_registry_ok) as (r & ids & E & _ & L & N & F).
  exists r, ids. split; [done|]. split; [done|]. split; [done|]. intros i Hi.
  destruct (decide (i = -1)); [by left|right; by apply F].
Qed.
