(* ===== verification/Kernel.v ===== *)
(** * kernel/: objects, event loops and their queues

    The state of the kernel is a heap: objects ([ObjectPrivate] by object
    identity), event loops ([EventLoopPrivate] by the identity of the loop
    object, which is an object too), queued events, the calling thread's current
    loop and the [Application] singleton.  Using a dead object, loop or event is
    [Undef]; a failed [CXXKIT_CHECK] is [Fatal].

    Virtual functions that applications override ([event_filter],
    [timer_event], [child_event], [custom_event]), the callables given to
    [post] and the driver's [process_events] are the fields of [hooks]: they
    may do anything to the heap.  [base_hooks] is the behaviour of the base
    classes. *)

From stdpp Require Import prelude list numbers gmap strings sets.
From Stdlib Require Import ZArith Lia.
From S2P Require Import Prelude Event.

#[local] Open Scope Z_scope.
#[local] Open Scope cxx_scope.

(** Identities of objects and of events. *)
Definition oid := positive.
Definition eid := positive.
Bind Scope positive_scope with oid eid.

(** ** State *)
Record ObjectPrivate := mkObject {
  mParent : option oid;
  mChildren : list oid;
  mFilters : list oid;
  mWatching : list oid;
  mThread : option oid;
  mActiveTimers : list Z;
  mObjectName : string;
  mUserData : gmap Z Z;
  mAliveToken : option bool
}.

(** [mReceiver] of a queued entry is never null: [post_event] checks it and
    [delete_later] passes [this]. *)
Record EventEntry := mkEntry { mReceiver : oid; mEvent : eid; mPriority : Z }.

(** What may sit in a post queue or behind a timer: an application's callable, the
    tick of an object's timer, and the one-shot wrapper of [EventLoop::start_timer]. *)
Inductive callable :=
| UserFn (f : positive)
| ObjectTick (o : oid) (id : Z)
| OneShot (loop : oid) (id : Z) (fn : callable)
| Interrupt (loop : oid).

(** The driver behind a loop, as far as the loop relies on it: the timers
    registered with it and the calls of [wake_up] and [interrupt]. *)
Record Dispatcher := mkDispatcher {
  timers : gmap Z (Z * callable);
  wakeups : Z;
  interrupted : bool
}.

Record EventLoopPrivate := mkLoop {
  mDispatcher : Dispatcher;
  mPostQueue : list callable;
  mEventQueue : list EventEntry;
  mNextTimerId : Z;
  mInExec : bool;
  mExit : bool;
  mRetCode : Z;
  mHasExitCode : bool
}.

(** What the application got to see: a posted callable run, a virtual [event] called by
    [send_event_internal]. *)
Inductive action :=
| Ran (f : positive)
| Delivered (receiver : oid) (e : Event).

(** [history] is no field of the code: it records the calls made, in order. *)
Record World := mkWorld {
  objects : gmap oid ObjectPrivate;
  loops : gmap oid EventLoopPrivate;
  events : gmap eid Event;
  t_current_loop : option oid;
  s_instance : option oid;
  history : list action
}.

Definition new_object (thread : option oid) : ObjectPrivate := mkObject None [] [] [] thread [] EmptyString ∅ None.
Definition new_dispatcher : Dispatcher := mkDispatcher ∅ 0 false.
Definition new_loop : EventLoopPrivate := mkLoop new_dispatcher [] [] 0 false true (-1) false.

(** ** Field updates *)
Definition with_objects (w : World) x := mkWorld x (loops w) (events w) (t_current_loop w) (s_instance w) (history w).
Definition with_loops (w : World) x := mkWorld (objects w) x (events w) (t_current_loop w) (s_instance w) (history w).
Definition with_events (w : World) x := mkWorld (objects w) (loops w) x (t_current_loop w) (s_instance w) (history w).
Definition with_current (w : World) x := mkWorld (objects w) (loops w) (events w) x (s_instance w) (history w).
Definition with_instance (w : World) x := mkWorld (objects w) (loops w) (events w) (t_current_loop w) x (history w).
Definition with_history (w : World) x := mkWorld (objects w) (loops w) (events w) (t_current_loop w) (s_instance w) x.
Definition note (w : World) (a : action) : World := with_history w (history w ++ [a]).

Definition with_parent (d : ObjectPrivate) x := mkObject x (mChildren d) (mFilters d) (mWatching d) (mThread d) (mActiveTimers d) (mObjectName d) (mUserData d) (mAliveToken d).
Definition with_children (d : ObjectPrivate) x := mkObject (mParent d) x (mFilters d) (mWatching d) (mThread d) (mActiveTimers d) (mObjectName d) (mUserData d) (mAliveToken d).
Definition with_filters (d : ObjectPrivate) x := mkObject (mParent d) (mChildren d) x (mWatching d) (mThread d) (mActiveTimers d) (mObjectName d) (mUserData d) (mAliveToken d).
Definition with_watching (d : ObjectPrivate) x := mkObject (mParent d) (mChildren d) (mFilters d) x (mThread d) (mActiveTimers d) (mObjectName d) (mUserData d) (mAliveToken d).
Definition with_thread (d : ObjectPrivate) x := mkObject (mParent d) (mChildren d) (mFilters d) (mWatching d) x (mActiveTimers d) (mObjectName d) (mUserData d) (mAliveToken d).
Definition with_timers (d : ObjectPrivate) x := mkObject (mParent d) (mChildren d) (mFilters d) (mWatching d) (mThread d) x (mObjectName d) (mUserData d) (mAliveToken d).
Definition with_name (d : ObjectPrivate) x := mkObject (mParent d) (mChildren d) (mFilters d) (mWatching d) (mThread d) (mActiveTimers d) x (mUserData d) (mAliveToken d).
Definition with_user_data (d : ObjectPrivate) x := mkObject (mParent d) (mChildren d) (mFilters d) (mWatching d) (mThread d) (mActiveTimers d) (mObjectName d) x (mAliveToken d).
Definition with_token (d : ObjectPrivate) x := mkObject (mParent d) (mChildren d) (mFilters d) (mWatching d) (mThread d) (mActiveTimers d) (mObjectName d) (mUserData d) x.

Definition with_dispatcher (l : EventLoopPrivate) x := mkLoop x (mPostQueue l) (mEventQueue l) (mNextTimerId l) (mInExec l) (mExit l) (mRetCode l) (mHasExitCode l).
Definition with_posts (l : EventLoopPrivate) x := mkLoop (mDispatcher l) x (mEventQueue l) (mNextTimerId l) (mInExec l) (mExit l) (mRetCode l) (mHasExitCode l).
Definition with_queue (l : EventLoopPrivate) x := mkLoop (mDispatcher l) (mPostQueue l) x (mNextTimerId l) (mInExec l) (mExit l) (mRetCode l) (mHasExitCode l).
Definition with_next_id (l : EventLoopPrivate) x := mkLoop (mDispatcher l) (mPostQueue l) (mEventQueue l) x (mInExec l) (mExit l) (mRetCode l) (mHasExitCode l).
Definition with_in_exec (l : EventLoopPrivate) x := mkLoop (mDispatcher l) (mPostQueue l) (mEventQueue l) (mNextTimerId l) x (mExit l) (mRetCode l) (mHasExitCode l).
Definition with_exit (l : EventLoopPrivate) x := mkLoop (mDispatcher l) (mPostQueue l) (mEventQueue l) (mNextTimerId l) (mInExec l) x (mRetCode l) (mHasExitCode l).
Definition with_ret (l : EventLoopPrivate) x := mkLoop (mDispatcher l) (mPostQueue l) (mEventQueue l) (mNextTimerId l) (mInExec l) (mExit l) x (mHasExitCode l).
Definition with_has_ret (l : EventLoopPrivate) x := mkLoop (mDispatcher l) (mPostQueue l) (mEventQueue l) (mNextTimerId l) (mInExec l) (mExit l) (mRetCode l) x.

(** ** Dereferences *)
Definition d_func (w : World) (o : oid) : run ObjectPrivate := deref (objects w !! o).
Definition l_func (w : World) (l : oid) : run EventLoopPrivate := deref (loops w !! l).
Definition e_func (w : World) (e : eid) : run Event := deref (events w !! e).

Definition upd_object (w : World) (o : oid) (f : ObjectPrivate -> ObjectPrivate) : run World :=
  do d <- d_func w o; Ret (with_objects w (<[o := f d]> (objects w))).
Definition upd_loop (w : World) (l : oid) (f : EventLoopPrivate -> EventLoopPrivate) : run World :=
  do d <- l_func w l; Ret (with_loops w (<[l := f d]> (loops w))).

(** [delete event]: deleting a dead event is undefined. *)
Definition delete_event (w : World) (e : eid) : run World :=
  do _ <- e_func w e; Ret (with_events w (delete e (events w))).

Fixpoint delete_events (w : World) (l : list EventEntry) : run World :=
  match l with [] => Ret w | x :: l => do w <- delete_event w (mEvent x); delete_events w l end.

(** ** EventLoopPrivate: the queues *)
Definition take_post_queue (w : World) (l : oid) : run (World * list callable) :=
  do d <- l_func w l; do w <- upd_loop w l (fun d => with_posts d []); Ret (w, mPostQueue d).

Definition take_event_queue (w : World) (l : oid) : run (World * list EventEntry) :=
  do d <- l_func w l; do w <- upd_loop w l (fun d => with_queue d []); Ret (w, mEventQueue d).

(** The queue split in the entries of [receiver] and the others, both in order. *)
Fixpoint split_for (q : list EventEntry) (receiver : oid) : list EventEntry * list EventEntry :=
  match q with
  | [] => ([], [])
  | e :: q =>
    let (taken, remaining) := split_for q receiver in
    if bool_decide (mReceiver e = receiver) then (e :: taken, remaining) else (taken, e :: remaining)
  end.

Definition take_events_for (w : World) (l receiver : oid) : run (World * list EventEntry) :=
  do d <- l_func w l;
  let (taken, remaining) := split_for (mEventQueue d) receiver in
  do w <- upd_loop w l (fun d => with_queue d remaining); Ret (w, taken).

(** [EventLoopPrivate::remove_pending_events] *)
Definition remove_pending_of (w : World) (l receiver : oid) : run World :=
  do d <- l_func w l;
  let (taken, remaining) := split_for (mEventQueue d) receiver in
  do w <- delete_events w taken;
  upd_loop w l (fun d => with_queue d remaining).

(** [None] is the sentinel of the empty queue. *)
Definition pop_event_entry (w : World) (l : oid) : run (World * option EventEntry) :=
  do d <- l_func w l;
  match mEventQueue d with
  | [] => Ret (w, None)
  | e :: q => do w <- upd_loop w l (fun d => with_queue d q); Ret (w, Some e)
  end.

(** The scan of [enqueue_event] for a queued deferred delete of [receiver]. *)
Fixpoint has_deferred_delete (w : World) (q : list EventEntry) (receiver : oid) : run bool :=
  match q with
  | [] => Ret false
  | e :: q =>
    if bool_decide (mReceiver e = receiver) then
      do ev <- e_func w (mEvent e);
      if type ev =? kDeferredDelete then Ret true else has_deferred_delete w q receiver
    else has_deferred_delete w q receiver
  end.

(** Insertion before the first entry of strictly smaller priority. *)
Fixpoint insert_entry (q : list EventEntry) (entry : EventEntry) : list EventEntry :=
  match q with
  | [] => [entry]
  | e :: q' => if mPriority e <? mPriority entry then entry :: q else e :: insert_entry q' entry
  end.

Definition enqueue_event (w : World) (loop : option oid) (receiver : oid) (event : eid) (priority : Z) : run World :=
  do _ <- check (bool_decide (is_Some loop));
  do l <- deref loop;
  do d <- l_func w l;
  do ev <- e_func w event;
  do dup <- (if type ev =? kDeferredDelete then has_deferred_delete w (mEventQueue d) receiver else Ret false);
  if dup then delete_event w event
  else upd_loop w l (fun d => with_queue d (insert_entry (mEventQueue d) (mkEntry receiver event priority))).

Definition purge_pending (w : World) (loop : option oid) (receiver : oid) : run World :=
  match loop with None => Ret w | Some l => remove_pending_of w l receiver end.

(** ** The driver *)
Definition upd_dispatcher (w : World) (l : oid) (f : Dispatcher -> Dispatcher) : run World :=
  upd_loop w l (fun d => with_dispatcher d (f (mDispatcher d))).

Definition wake_up (w : World) (l : oid) : run World :=
  upd_dispatcher w l (fun t => mkDispatcher (timers t) (wakeups t + 1) (interrupted t)).
Definition interrupt (w : World) (l : oid) : run World :=
  upd_dispatcher w l (fun t => mkDispatcher (timers t) (wakeups t) true).
Definition dispatcher_start_timer (w : World) (l : oid) (id interval : Z) (fn : callable) : run World :=
  upd_dispatcher w l (fun t => mkDispatcher (<[id := (interval, fn)]> (timers t)) (wakeups t) (interrupted t)).

(** [EventLoop::stop_timer]: no effect on unknown ids. *)
Definition stop_timer (w : World) (l : oid) (id : Z) : run World :=
  upd_dispatcher w l (fun t => mkDispatcher (delete id (timers t)) (wakeups t) (interrupted t)).

(** ** EventLoop: posting, timers, exit *)
Definition post (w : World) (l : oid) (fn : callable) : run World :=
  do w <- upd_loop w l (fun d => with_posts d (mPostQueue d ++ [fn]));
  wake_up w l.

Definition loop_start_timer (w : World) (l : oid) (interval : Z) (fn : callable) (repeat : bool) : run (World * Z) :=
  do d <- l_func w l;
  let timer_id := to_signed 32 (mNextTimerId d + 1) in
  do w <- upd_loop w l (fun d => with_next_id d (to_signed 32 (mNextTimerId d + 1)));
  do w <- (if repeat then dispatcher_start_timer w l timer_id interval fn
           else if interval =? 0 then post w l fn
           else dispatcher_start_timer w l timer_id interval (OneShot l timer_id fn));
  Ret (w, timer_id).

Definition is_running (w : World) (l : oid) : run bool :=
  do d <- l_func w l; Ret (negb (mExit d) && mInExec d).

Definition exit (w : World) (l : oid) (ret_code : Z) : run World :=
  do w <- upd_loop w l (fun d => with_exit (with_has_ret (with_ret d ret_code) true) true);
  wake_up w l.

Definition quit (w : World) (l : oid) : run World := exit w l 0.

(** ** Virtual functions and callables *)
Record hooks := mkHooks {
  h_event_filter : oid -> oid -> Event -> World -> run (World * Event * bool);
  h_timer_event : oid -> Event -> World -> run (World * Event);
  h_child_event : oid -> Event -> World -> run (World * Event);
  h_custom_event : oid -> Event -> World -> run (World * Event);
  h_call : positive -> World -> run World;
  h_dispatch : oid -> bool -> World -> run (World * bool)
}.

(** The base classes' behaviour: handlers do nothing, filters pass, and a driver
    with no sources processes nothing. *)
Definition base_hooks : hooks := mkHooks
  (fun _ _ e w => Ret (w, e, false)) (fun _ e w => Ret (w, e)) (fun _ e w => Ret (w, e)) (fun _ e w => Ret (w, e))
  (fun _ w => Ret w) (fun _ _ w => Ret (w, false)).

(** ** ObjectPrivate *)
Definition attach_child (w : World) (p child : oid) : run World :=
  upd_object w p (fun d => with_children d (mChildren d ++ [child])).
Definition detach_child (w : World) (p child : oid) : run World :=
  upd_object w p (fun d => with_children d (filter (fun c => c <> child) (mChildren d))).

(** ** Accessors *)
Definition parent (w : World) (o : oid) : run (option oid) := do d <- d_func w o; Ret (mParent d).
Definition children (w : World) (o : oid) : run (list oid) := do d <- d_func w o; Ret (mChildren d).
Definition object_loop (w : World) (o : oid) : run (option oid) := do d <- d_func w o; Ret (mThread d).
Definition object_name (w : World) (o : oid) : run string := do d <- d_func w o; Ret (mObjectName d).
Definition set_object_name (w : World) (o : oid) (name : string) : run World := upd_object w o (fun d => with_name d name).

(** Keys and data by identity; 0 is the null pointer. *)
Definition set_user_data (w : World) (o : oid) (key data : Z) : run World :=
  do _ <- check (negb (key =? 0));
  if data =? 0 then upd_object w o (fun d => with_user_data d (delete key (mUserData d)))
  else upd_object w o (fun d => with_user_data d (<[key := data]> (mUserData d))).
Definition user_data (w : World) (o : oid) (key : Z) : run Z :=
  do d <- d_func w o; do _ <- check (negb (key =? 0)); Ret (default 0 (mUserData d !! key)).

(** The liveness token, created on first use. *)
Definition alive_token (w : World) (o : oid) : run (World * bool) :=
  do d <- d_func w o;
  match mAliveToken d with
  | Some b => Ret (w, b)
  | None => do w <- upd_object w o (fun d => with_token d (Some true)); Ret (w, true)
  end.

(** ** Event filters *)
Definition remove_event_filter (w : World) (o filter_ : oid) : run World :=
  do w <- upd_object w o (fun d => with_filters d (filter (fun x => x <> filter_) (mFilters d)));
  upd_object w filter_ (fun d => with_watching d (filter (fun x => x <> o) (mWatching d))).

Definition install_event_filter (w : World) (o filter_ : oid) : run World :=
  do _ <- check (bool_decide (filter_ <> o));
  do w <- remove_event_filter w o filter_;
  do w <- upd_object w o (fun d => with_filters d (mFilters d ++ [filter_]));
  upd_object w filter_ (fun d => with_watching d (mWatching d ++ [o])).

(** ** Removing queued events *)
Definition remove_pending_events (w : World) (receiver : option oid) : run World :=
  match receiver with
  | None => Ret w
  | Some r =>
    do d <- d_func w r;
    do w <- purge_pending w (mThread d) r;
    purge_pending w (t_current_loop w) r
  end.

(** ** Posting *)
Definition post_event (w : World) (receiver : oid) (event : eid) (priority : Z) : run World :=
  do ev <- e_func w event;
  do _ <- check (negb (type ev =? kDeferredDelete));
  do d <- d_func w receiver;
  do _ <- check (bool_decide (is_Some (mThread d)));
  do w <- enqueue_event w (mThread d) receiver event priority;
  do l <- deref (mThread d);
  wake_up w l.

(** [new DeferredDeleteEvent] gets the identity [event], not in use. *)
Definition delete_later (w : World) (o : oid) (event : eid) : run World :=
  do d <- d_func w o;
  let loop := match mThread d with None => t_current_loop w | l => l end in
  do _ <- check (bool_decide (is_Some loop));
  do w <- enqueue_event (with_events w (<[event := make_deferred_delete_event]> (events w))) loop o event 0;
  do l <- deref loop;
  wake_up w l.

(** ** Object timers *)
Definition start_timer (w : World) (o : oid) (interval : Z) (repeat : bool) : run (World * Z) :=
  do d <- d_func w o;
  do _ <- check (bool_decide (is_Some (mThread d)));
  do _ <- check (bool_decide (t_current_loop w = mThread d));
  do l <- deref (mThread d);
  do dl <- l_func w l;
  do (w, id) <- loop_start_timer w l interval (ObjectTick o (to_signed 32 (mNextTimerId dl + 1))) repeat;
  do w <- upd_object w o (fun d => with_timers d (mActiveTimers d ++ [id]));
  Ret (w, id).

Definition kill_timer (w : World) (o : oid) (timer_id : Z) : run World :=
  do d <- d_func w o;
  do _ <- check (bool_decide (is_Some (mThread d)));
  do _ <- check (bool_decide (t_current_loop w = mThread d));
  do l <- deref (mThread d);
  do w <- upd_object w o (fun d => with_timers d (filter (fun x => x <> timer_id) (mActiveTimers d)));
  stop_timer w l timer_id.

Section Virtual.
Context (h : hooks).

(** ** Object::event and EventLoop::event, except for the deferred delete

    The handlers these call are hooks. An application class that overrides the virtual
    [event] itself is not modelled. *)
Definition handle_event (w : World) (o : oid) (e : Event) : run (World * Event * bool) :=
  if (type e =? kQuit) && bool_decide (is_Some (loops w !! o)) then do w <- quit w o; Ret (w, e, true)
  else if type e =? kTimer then do (w, e) <- h_timer_event h o e w; Ret (w, e, true)
  else if (type e =? kChildAdded) || (type e =? kChildPolished) || (type e =? kChildRemoved) then
    do (w, e) <- h_child_event h o e w; Ret (w, e, true)
  else if type e =? kLoopChange then Ret (w, e, true)
  else if kUser <=? type e then do (w, e) <- h_custom_event h o e w; Ret (w, e, true)
  else Ret (w, e, false).

(** ** Delivery through the filter chains *)

(** [for (i = filters.size(); i > 0; --i) filters[i - 1]->event_filter(receiver, event)];
    the vector is read again at every step. *)
Fixpoint run_filters (i : nat) (w : World) (owner receiver : oid) (e : Event) : run (World * Event * bool) :=
  match i with
  | O => Ret (w, e, false)
  | S i =>
    do d <- d_func w owner;
    do f <- deref (mFilters d !! i);
    do _ <- d_func w f;
    do (w, e, stop) <- h_event_filter h f receiver e w;
    if (stop : bool) then Ret (w, e, true) else run_filters i w owner receiver e
  end.

(** [send_event_internal] over the receiver's [event]. *)
Definition send_event_internal (event : World -> oid -> Event -> run (World * Event * bool))
    (w : World) (app : option oid) (receiver : oid) (e : Event) : run (World * bool) :=
  do (w, e, stop) <- match app with
    | None => Ret (w, e, false)
    | Some a => do d <- d_func w a; run_filters (length (mFilters d)) w a receiver e
    end;
  if (stop : bool) then Ret (w, false)
  else
    do d <- d_func w receiver;
    do (w, e, stop) <- run_filters (length (mFilters d)) w receiver receiver e;
    if (stop : bool) then Ret (w, false)
    else do (w, e, _) <- event (note w (Delivered receiver e)) receiver e; Ret (w, is_accepted e).

(** [send_event] routes through the [Application] when there is one. *)
Definition send_event_with event (w : World) (receiver : oid) (e : Event) : run (World * bool) :=
  send_event_internal event w (s_instance w) receiver e.

(** ** Running a callable *)
Fixpoint call (w : World) (fn : callable) : run World :=
  match fn with
  | UserFn f => h_call h f (note w (Ran f))
  | ObjectTick o id =>
    do d <- d_func w o;
    if bool_decide (id ∈ mActiveTimers d) then
      do (w, _) <- send_event_with handle_event w o (make_timer_event id); Ret w
    else Ret w
  | OneShot l id fn => do w <- stop_timer w l id; call w fn
  | Interrupt l => interrupt w l
  end.

Fixpoint call_all (w : World) (tasks : list callable) : run World :=
  match tasks with [] => Ret w | fn :: tasks => do w <- call w fn; call_all w tasks end.

(** ** Destruction *)

(** The loops that empty the two filter registries. *)
Fixpoint unwatch (fuel : nat) (w : World) (o : oid) : run World :=
  match fuel with
  | O => Timeout
  | S fuel =>
    do d <- d_func w o;
    match last (mWatching d) with
    | None => Ret w
    | Some x => do w <- remove_event_filter w x o; unwatch fuel w o
    end
  end.

Fixpoint unfilter (fuel : nat) (w : World) (o : oid) : run World :=
  match fuel with
  | O => Timeout
  | S fuel =>
    do d <- d_func w o;
    match last (mFilters d) with
    | None => Ret w
    | Some x => do w <- remove_event_filter w o x; unfilter fuel w o
    end
  end.

(** Stops the active timers, newest first. *)
Fixpoint stop_timers (ids : list Z) (w : World) (o l : oid) : run World :=
  match ids with
  | [] => Ret w
  | id :: ids =>
    do w <- stop_timer w l id;
    do w <- upd_object w o (fun d => with_timers d (removelast (mActiveTimers d)));
    stop_timers ids w o l
  end.

(** The part of [~Object] before the cascade.  Each iteration of the last two loops
    consumes one registry entry, which bounds them. *)
Definition release (w : World) (o : oid) : run World :=
  do d <- d_func w o;
  do w <- (if bool_decide (is_Some (mAliveToken d)) then upd_object w o (fun d => with_token d (Some false)) else Ret w);
  do w <- match mThread d with
    | Some l => if bool_decide (t_current_loop w = Some l) then stop_timers (rev (mActiveTimers d)) w o l else Ret w
    | None => Ret w
    end;
  do w <- purge_pending w (mThread d) o;
  do w <- purge_pending w (t_current_loop w) o;
  do d <- d_func w o;
  do w <- unwatch (S (length (mWatching d))) w o;
  do d <- d_func w o;
  unfilter (S (length (mFilters d))) w o.

(** [while (!mChildren.empty()) delete mChildren.front();]: each iteration is to
    consume one child. *)
Fixpoint cascade (del : World -> oid -> run World) (fuel : nat) (w : World) (o : oid) : run World :=
  match fuel with
  | O => Timeout
  | S fuel =>
    do d <- d_func w o;
    match mChildren d with
    | [] => Ret w
    | c :: _ => do w <- del w c; cascade del fuel w o
    end
  end.

(** [~EventLoop]: run the posted tasks, delete the queued events. *)
Definition drain_loop (w : World) (l : oid) : run World :=
  do (w, tasks) <- take_post_queue w l;
  do w <- call_all w tasks;
  do (w, entries) <- take_event_queue w l;
  delete_events w entries.

(** [delete o], through the virtual destructor. *)
Fixpoint delete_object (fuel : nat) (w : World) (o : oid) : run World :=
  match fuel with
  | O => Timeout
  | S fuel =>
    do _ <- d_func w o;
    do w <- (if bool_decide (is_Some (loops w !! o)) then drain_loop w o else Ret w);
    do w <- release w o;
    do d <- d_func w o;
    do w <- cascade (delete_object fuel) (S (length (mChildren d))) w o;
    do d <- d_func w o;
    do w <- match mParent d with None => Ret w | Some p => detach_child w p o end;
    Ret (with_loops (with_objects w (delete o (objects w))) (delete o (loops w)))
  end.

(** The virtual [event], deferred delete included. *)
Definition object_event (fuel : nat) (w : World) (o : oid) (e : Event) : run (World * Event * bool) :=
  if type e =? kDeferredDelete then do w <- delete_object fuel w o; Ret (w, e, true)
  else handle_event w o e.

Definition send_event (fuel : nat) := send_event_with (object_event fuel).

(** ** The parent link *)

(** [for (it = parent; it != nullptr; it = it->parent()) CXXKIT_CHECK(it != this)] *)
Fixpoint check_ancestors (fuel : nat) (w : World) (o : oid) (it : option oid) : run unit :=
  match fuel with
  | O => Timeout
  | S fuel =>
    match it with
    | None => Ret tt
    | Some x =>
      do _ <- check (bool_decide (x <> o));
      do p <- parent w x;
      check_ancestors fuel w o p
    end
  end.

Definition set_parent (fuel : nat) (w : World) (o : oid) (p : option oid) : run World :=
  do d <- d_func w o;
  if bool_decide (mParent d = p) then Ret w
  else
    do _ <- match p with None => Ret tt | Some _ => check_ancestors fuel w o p end;
    do w <- match mParent d with
      | None => Ret w
      | Some old =>
        do w <- detach_child w old o;
        do (w, _, _) <- handle_event w old (make_child_event kChildRemoved (Zpos o));
        upd_object w o (fun d => with_parent d None)
      end;
    match p with
    | None => Ret w
    | Some new =>
      do w <- upd_object w o (fun d => with_parent d (Some new));
      do w <- attach_child w new o;
      do (w, _, _) <- handle_event w new (make_child_event kChildAdded (Zpos o));
      Ret w
    end.

(** [Object(parent)]: the object takes the identity [o], not in use. *)
Definition construct (fuel : nat) (w : World) (o : oid) (p : option oid) : run World :=
  let w := with_objects w (<[o := new_object (t_current_loop w)]> (objects w)) in
  match p with None => Ret w | Some _ => set_parent fuel w o p end.

(** [EventLoop(dispatcher, parent)]: after [Object(parent)] the private part is
    replaced by a new [EventLoopPrivate]. *)
Definition construct_loop (fuel : nat) (w : World) (o : oid) (p : option oid) : run World :=
  do w <- construct fuel w o p;
  let w := with_objects w (<[o := new_object None]> (objects w)) in
  do w <- upd_object w o (fun d => with_thread d (t_current_loop w));
  Ret (with_loops w (<[o := new_loop]> (loops w))).

(** ** Moving to another loop *)
Fixpoint collect_children (w : World) (kids : list oid) : run (list (oid * option oid)) :=
  match kids with
  | [] => Ret []
  | k :: kids => do t <- object_loop w k; do rest <- collect_children w kids; Ret ((k, t) :: rest)
  end.

(** The breadth-first walk: what is appended to [moved] and [oldLoops], in order. *)
Fixpoint collect (fuel : nat) (w : World) (pending : list oid) : run (list (oid * option oid)) :=
  match fuel with
  | O => Timeout
  | S fuel =>
    match pending with
    | [] => Ret []
    | x :: pending =>
      do kids <- children w x;
      do here <- collect_children w kids;
      do rest <- collect fuel w (pending ++ kids);
      Ret (here ++ rest)
    end
  end.

(** [Migrator::migrate] on every collected object. *)
Fixpoint migrate (w : World) (moved : list (oid * option oid)) (target : option oid) : run World :=
  match moved with
  | [] => Ret w
  | (o, _) :: moved =>
    do w <- upd_object w o (fun d => with_thread d target);
    do (w, _, _) <- handle_event w o (make_event kLoopChange);
    migrate w moved target
  end.

(** Appends the taken entries to the target's queue. *)
Definition push_entries (w : World) (target : oid) (entries : list EventEntry) : run World :=
  upd_loop w target (fun d => with_queue d (mEventQueue d ++ entries)).

Fixpoint migrate_entries (w : World) (moved : list (oid * option oid)) (target : option oid) : run World :=
  match moved with
  | [] => Ret w
  | (o, old) :: moved =>
    if bool_decide (old = target) then migrate_entries w moved target
    else
      do (w, entries) <- match old with None => Ret (w, []) | Some l => take_events_for w l o end;
      do w <- match target with
        | Some t => push_entries w t entries
        | None => delete_events w entries
        end;
      migrate_entries w moved target
  end.

Definition not_running (w : World) (l : option oid) : run bool :=
  match l with None => Ret true | Some l => do b <- is_running w l; Ret (negb b) end.

Definition move_to_loop (fuel : nat) (w : World) (o : oid) (target : option oid) : run World :=
  do d <- d_func w o;
  let source := mThread d in
  if bool_decide (source = target) then Ret w
  else
    do b <- not_running w source; do _ <- check b;
    do b <- not_running w target; do _ <- check b;
    do rest <- collect fuel w [o];
    let moved := (o, source) :: rest in
    do w <- migrate w moved target;
    migrate_entries w moved target.

(** ** Processing events *)

(** The second drain: pop under the lock, dispatch outside it. *)
Fixpoint drain_events (fuel : nat) (w : World) (l : oid) (had_event : bool) : run (World * bool) :=
  match fuel with
  | O => Timeout
  | S fuel' =>
    do (w, entry) <- pop_event_entry w l;
    match entry with
    | None => Ret (w, had_event)
    | Some entry =>
      do ev <- e_func w (mEvent entry);
      do (w, _) <- send_event fuel w (mReceiver entry) ev;
      do w <- delete_event w (mEvent entry);
      drain_events fuel' w l true
    end
  end.

Definition process_events (fuel : nat) (w : World) (l : oid) (wait : bool) : run (World * bool) :=
  do (w, tasks) <- take_post_queue w l;
  do w <- call_all w tasks;
  do (w, had_event) <- drain_events fuel w l false;
  if negb (bool_decide (tasks = [])) || had_event then Ret (w, true)
  else h_dispatch h l wait w.

(** [while (!mExit) if (process_events(...)) continue; else if (mExit) break;] *)
Fixpoint exec_loop (fuel : nat) (w : World) (l : oid) : run World :=
  match fuel with
  | O => Timeout
  | S fuel' =>
    do d <- l_func w l;
    if mExit d then Ret w
    else do (w, _) <- process_events fuel w l true; exec_loop fuel' w l
  end.

Definition exec (fuel : nat) (w : World) (l : oid) : run (World * Z) :=
  do d <- l_func w l;
  if mInExec d then Ret (w, -1)
  else if mExit d && mHasExitCode d then Ret (w, mRetCode d)
  else
    let previous := t_current_loop w in
    let w := with_current w (Some l) in
    do w <- upd_loop w l (fun d => with_exit (with_in_exec d true) false);
    do w <- exec_loop fuel w l;
    do w <- upd_loop w l (fun d => with_in_exec d false);
    let w := with_current w previous in
    do d <- l_func w l;
    Ret (w, mRetCode d).

End Virtual.

(** ** Searching the tree *)
Section Search.
Context (is_t : oid -> bool) (name : string) (recursive : bool) (w : World).

(** The [dynamic_cast] succeeds and the name matches. *)
Definition matches (c : oid) : run bool :=
  do n <- object_name w c; Ret (is_t c && (bool_decide (name = EmptyString) || bool_decide (n = name))).

(** The loop over the children, around the recursive search [below_]. *)
Fixpoint find_in_children (below_ : oid -> run (list oid)) (kids : list oid) : run (list oid) :=
  match kids with
  | [] => Ret []
  | c :: kids =>
    do m <- matches c;
    do deeper <- (if recursive then below_ c else Ret []);
    do rest <- find_in_children below_ kids;
    Ret ((if (m : bool) then [c] else []) ++ deeper ++ rest)
  end.

(** [find_children]: pre-order, in visit order. *)
Fixpoint find_children (fuel : nat) (o : oid) : run (list oid) :=
  match fuel with
  | O => Timeout
  | S fuel => do kids <- children w o; find_in_children (find_children fuel) kids
  end.

Fixpoint find_first_child (below_ : oid -> run (option oid)) (kids : list oid) : run (option oid) :=
  match kids with
  | [] => Ret None
  | c :: kids =>
    do m <- matches c;
    if (m : bool) then Ret (Some c)
    else
      do found <- (if recursive then below_ c else Ret None);
      match found with Some x => Ret (Some x) | None => find_first_child below_ kids end
  end.

Fixpoint find_child (fuel : nat) (o : oid) : run (option oid) :=
  match fuel with
  | O => Timeout
  | S fuel => do kids <- children w o; find_first_child (find_child fuel) kids
  end.

End Search.
