(* ===== verification/KernelInv.v ===== *)
(** * Invariants of the kernel heap

    [tree_ok]: parent and child links mirror each other and are acyclic;
    [filters_ok]: the filter and watching registries mirror each other;
    [queues_ok]: queued events are live and owned by one entry, and every entry's
    receiver is alive and belongs to the loop that queues it.  The first two are
    stated on the views [tview] and [fview] of the object heap, so that updates
    of other fields preserve them by computation. *)

From stdpp Require Import prelude list numbers gmap strings sets.
From Stdlib Require Import ZArith Lia.
From S2P Require Import Prelude Event Kernel.

#[local] Open Scope cxx_scope.

(** ** Views of the object heap *)
Definition tview (m : gmap oid ObjectPrivate) : gmap oid (option oid * list oid) :=
  (fun d => (mParent d, mChildren d)) <$> m.
Definition fview (m : gmap oid ObjectPrivate) : gmap oid (list oid * list oid) :=
  (fun d => (mFilters d, mWatching d)) <$> m.
Definition aview (m : gmap oid ObjectPrivate) : gmap oid (option oid) := mThread <$> m.

Lemma view_insert_same {A B} (g : A -> B) (m : gmap oid A) (o : oid) (d d' : A) :
  m !! o = Some d -> g d' = g d -> g <$> <[o := d']> m = g <$> m.
Proof. intros H E. rewrite fmap_insert, E. apply insert_id. by rewrite lookup_fmap, H. Qed.

(** ** The object tree *)
Section Tree.
Implicit Types (t : gmap oid (option oid * list oid)) (rank : oid -> nat).

(** A rank that decreases from parents to children. *)
Definition ranked t rank : Prop := forall o p l, t !! o = Some (Some p, l) -> (rank o < rank p)%nat.

Record tree_ok t : Prop := {
  t_parent : forall o p l, t !! o = Some (Some p, l) -> exists q k, t !! p = Some (q, k) /\ o ∈ k;
  t_child : forall p q k c, t !! p = Some (q, k) -> c ∈ k -> exists l, t !! c = Some (Some p, l);
  t_nodup : forall p q k, t !! p = Some (q, k) -> NoDup k;
  t_rank : exists rank, ranked t rank
}.

(** [x] is [o] or below it. *)
Definition parent_of t (x p : oid) : Prop := exists l, t !! x = Some (Some p, l).
Definition below t (x o : oid) : Prop := rtc (parent_of t) x o.

(** A rank counted by smaller ranks is bounded by the number of objects. *)
Lemma ranked_bounded t rank : ranked t rank ->
  (forall o p l, t !! o = Some (Some p, l) -> is_Some (t !! p)) ->
  exists rank', ranked t rank' /\ forall o, is_Some (t !! o) -> (rank' o < size t)%nat.
Proof.
  intros R P. exists (fun x => size (filter (fun y => rank y < rank x)%nat (dom t))).
  split.
  - intros o p l H. apply subset_size. pose proof (R o p l H) as Hr. split.
    + intros y. rewrite !elem_of_filter. intros [? ?]. split; [lia|done].
    + intros S. assert (o ∈ filter (fun y => (rank y < rank p)%nat) (dom t)) as Hin.
      { apply elem_of_filter. split; [done|]. apply elem_of_dom. eauto. }
      apply S in Hin. apply elem_of_filter in Hin as [? _]. lia.
  - intros o Ho. rewrite <- size_dom. apply subset_size. split.
    + intros y. rewrite elem_of_filter. by intros [_ ?].
    + intros S. assert (o ∈ dom t) as Hin by by apply elem_of_dom.
      apply S in Hin. apply elem_of_filter in Hin as [? _]. lia.
Qed.

Lemma tree_rank t : tree_ok t -> exists rank, ranked t rank /\ forall o, is_Some (t !! o) -> (rank o < size t)%nat.
Proof.
  intros [P C N [rank R]]. apply (ranked_bounded t rank R). intros o p l H.
  destruct (P o p l H) as (q & k & E & _). eauto.
Qed.

Lemma ranked_below t rank x o : ranked t rank -> below t x o -> (rank x <= rank o)%nat.
Proof.
  intros R B. induction B as [|x y z [l H] B IH]; [done|]. pose proof (R x y l H). lia.
Qed.

Lemma below_dead t x o : below t x o -> x <> o -> is_Some (t !! x).
Proof. intros B Hne. inversion B as [|? y ? [l H]]; subst; [done|eauto]. Qed.

End Tree.

(** ** The filter registries *)
Record filters_ok (f : gmap oid (list oid * list oid)) : Prop := {
  f_installed : forall o fs ws x, f !! o = Some (fs, ws) -> x ∈ fs -> x <> o /\ exists fs' ws', f !! x = Some (fs', ws') /\ o ∈ ws';
  f_watching : forall x fs ws o, f !! x = Some (fs, ws) -> o ∈ ws -> exists fs' ws', f !! o = Some (fs', ws') /\ x ∈ fs';
  f_nodup : forall o fs ws, f !! o = Some (fs, ws) -> NoDup fs /\ NoDup ws
}.

(** ** The queues *)
Definition plain (c : callable) : Prop := match c with UserFn _ => True | _ => False end.

Record queues_ok (w : World) : Prop := {
  q_live : forall l d e, loops w !! l = Some d -> e ∈ mEventQueue d -> is_Some (events w !! mEvent e);
  q_once : forall l d, loops w !! l = Some d -> NoDup (mEvent <$> mEventQueue d);
  q_apart : forall l1 d1 e1 l2 d2 e2, loops w !! l1 = Some d1 -> e1 ∈ mEventQueue d1 ->
    loops w !! l2 = Some d2 -> e2 ∈ mEventQueue d2 -> mEvent e1 = mEvent e2 -> l1 = l2;
  q_affine : forall l d e, loops w !! l = Some d -> e ∈ mEventQueue d -> aview (objects w) !! mReceiver e = Some (Some l);
  q_plain : forall l d, loops w !! l = Some d -> Forall plain (mPostQueue d)
}.

Record kernel_ok (w : World) : Prop := {
  k_tree : tree_ok (tview (objects w));
  k_filters : filters_ok (fview (objects w));
  k_queues : queues_ok w;
  k_thread : forall o d l, objects w !! o = Some d -> mThread d = Some l -> is_Some (loops w !! l);
  k_current : forall l, t_current_loop w = Some l -> is_Some (loops w !! l)
}.

(** ** Quiet hooks: overridden handlers and callables that leave the heap alone *)
Class Quiet (h : hooks) : Prop := {
  quiet_filter : forall f r e w, exists e' b, h_event_filter h f r e w = Ret (w, e', b);
  quiet_timer : forall o e w, exists e', h_timer_event h o e w = Ret (w, e');
  quiet_child : forall o e w, exists e', h_child_event h o e w = Ret (w, e');
  quiet_custom : forall o e w, exists e', h_custom_event h o e w = Ret (w, e');
  quiet_call : forall f w, h_call h f w = Ret w
}.

#[export] Instance base_hooks_quiet : Quiet base_hooks.
Proof. split; intros; simpl; eauto. Qed.

Lemma handle_event_quiet h `{!Quiet h} w o e :
  type e <> kQuit -> exists e' b, handle_event h w o e = Ret (w, e', b).
Proof.
  intros Hq. unfold handle_event. rewrite (proj2 (Z.eqb_neq _ _)) by done. simpl.
  destruct (quiet_timer o e w) as [e1 E1], (quiet_child o e w) as [e2 E2], (quiet_custom o e w) as [e3 E3].
  rewrite E1, E2, E3. repeat case_test; simpl; eauto.
Qed.

Lemma run_filters_quiet h `{!Quiet h} w owner d receiver : forall i e,
  objects w !! owner = Some d -> (forall x, x ∈ mFilters d -> is_Some (objects w !! x)) -> (i <= length (mFilters d))%nat ->
  exists e' b, run_filters h i w owner receiver e = Ret (w, e', b).
Proof.
  induction i as [|i IH]; intros e Hd Hl Hi; simpl; [eauto|].
  unfold d_func. rewrite Hd. simpl. destruct (lookup_lt_is_Some_2 (mFilters d) i) as [x Hx]; [lia|].
  rewrite Hx. simpl. destruct (Hl x) as [dx Hdx]; [by eapply list_elem_of_lookup_2|]. rewrite Hdx. simpl.
  destruct (quiet_filter x receiver e w) as (e1 & [] & ->); simpl; [eauto|]. apply IH; [done..|lia].
Qed.

(** ** Replacing the object heap *)
Lemma aview_thread m o d l : m !! o = Some d -> mThread d = Some l -> aview m !! o = Some (Some l).
Proof. intros H E. unfold aview. by rewrite lookup_fmap, H, <- E. Qed.

Lemma aview_thread_inv m o l : aview m !! o = Some l -> exists d, m !! o = Some d /\ mThread d = l.
Proof. unfold aview. rewrite lookup_fmap, fmap_Some. naive_solver. Qed.

Lemma queues_ok_objects w m : queues_ok w -> aview m = aview (objects w) -> queues_ok (with_objects w m).
Proof. intros [] E. split; simpl; try done. by rewrite E. Qed.

Lemma kernel_ok_objects w m :
  kernel_ok w -> tree_ok (tview m) -> fview m = fview (objects w) -> aview m = aview (objects w) ->
  kernel_ok (with_objects w m).
Proof.
  intros [T F Q Th C] HT HF HA. split; simpl; [done|by rewrite HF|by apply queues_ok_objects| |done].
  intros o d l Ho Hl. pose proof (aview_thread _ _ _ _ Ho Hl) as Ha. rewrite HA in Ha.
  apply aview_thread_inv in Ha as (d' & ? & ?). eauto.
Qed.
