(* ===== verification/ObjectTree.v ===== *)
(** * The object tree: set_parent, event filters and tree search *)

From stdpp Require Import prelude list numbers gmap strings sets.
From Stdlib Require Import ZArith Lia.
From S2P Require Import Prelude Event Kernel KernelInv.

#[local] Open Scope cxx_scope.

(** Decides the equalities of the goal that follow from the context. *)
Ltac simpl_decide := repeat ((rewrite decide_False by done) || (rewrite decide_True by done)).

Notation without o := (filter (fun c : oid => c <> o)).

Lemma without_id (l : list oid) (o : oid) : o ∉ l -> without o l = l.
Proof.
  induction l as [|x l IH]; intros H; [done|]. rewrite filter_cons, decide_True by (intros ->; apply H; by left).
  f_equal. apply IH. intros ?. apply H. by right.
Qed.

(** ** Relinking on the tree view *)
Section Links.
Implicit Types (t : gmap oid (option oid * list oid)) (p : option oid).

(** The tree with [o] under [p]: out of every other child list, last in that of [p]. *)
Definition relink_node (o : oid) p (x : oid) (n : option oid * list oid) : option oid * list oid :=
  (if decide (x = o) then p else n.1, without o n.2 ++ (if decide (p = Some x) then [o] else [])).
Definition relink (o : oid) p t := map_imap (fun x n => Some (relink_node o p x n)) t.

Lemma relink_lookup o p t x q k :
  relink o p t !! x = Some (q, k) <-> exists n, t !! x = Some n /\ (q, k) = relink_node o p x n.
Proof.
  unfold relink. rewrite map_lookup_imap. destruct (t !! x) as [n|]; simpl.
  - split; [intros E%(inj Some); exists n; done|]. intros (n' & E%(inj Some) & E'). subst. by rewrite E'.
  - split; [done|]. by intros (n & ? & _).
Qed.

(** The ancestors of an object form a finite list. *)
Lemma ancestors_finite t n : tree_ok t -> exists l : list oid, forall x, below t n x <-> x ∈ l.
Proof.
  intros T. destruct (tree_rank t T) as (rank & R & B).
  assert (Ind : forall m x, (size t - rank x < m)%nat -> exists l : list oid, forall y, below t x y <-> y ∈ l).
  { induction m as [|m IH]; intros x Hm; [lia|].
    assert (Base : (forall y : oid, ~ parent_of t x y) -> forall y, below t x y <-> y ∈ [x]).
    { intros Hp y. rewrite list_elem_of_singleton. split; [|intros ->; apply rtc_refl].
      intros H. inversion H as [|? z ? Hz]; [done|]. by destruct (Hp z). }
    destruct (t !! x) as [[[p|] k]|] eqn:E.
    - pose proof (R _ _ _ E). destruct (IH p) as [l Hl].
      { destruct (t_parent _ T _ _ _ E) as (q & k' & Ep & _). pose proof (B p ltac:(eauto)). lia. }
      exists (x :: l). intros y. rewrite elem_of_cons, <- Hl. split.
      + intros H'. inversion H' as [|? z ? [k0 Hz]]; [by left|]. right. by simplify_eq.
      + intros [->|H']; [apply rtc_refl|]. eapply rtc_l; [by eexists|done].
    - exists [x]. apply Base. intros p [k' H']. congruence.
    - exists [x]. apply Base. intros p [k' H']. congruence. }
  apply (Ind (S (size t - rank n))). lia.
Qed.

(** Putting [o] under [n] lifts the ranks of [n]'s ancestors above [o]'s. *)
Lemma rank_relink t o p :
  tree_ok t -> (forall n, p = Some n -> ~ below t n o) -> exists rank, ranked (relink o p t) rank.
Proof.
  intros T Hb. destruct (t_rank _ T) as [rank R]. destruct p as [n|].
  - destruct (ancestors_finite t n T) as [l Hl]. specialize (Hb n eq_refl).
    exists (fun x => if decide (x ∈ l) then rank x + rank o + 1 else rank x)%nat.
    intros x y k Hx. apply relink_lookup in Hx as ([q k0] & Hx & [= Eq _]).
    destruct (decide (x = o)) as [->|Hne]; simplify_eq.
    + rewrite decide_False by (by rewrite <- Hl). rewrite decide_True by (apply Hl, rtc_refl). lia.
    + pose proof (R _ _ _ Hx). destruct (decide (x ∈ l)) as [Hin|]; [|case_decide; lia].
      rewrite decide_True; [lia|]. apply Hl. eapply rtc_r; [by apply Hl|by eexists].
  - exists rank. intros x y k Hx. apply relink_lookup in Hx as ([q k0] & Hx & [= Eq _]).
    case_decide; simplify_eq. eauto.
Qed.

Lemma tree_relink t o p :
  tree_ok t -> is_Some (t !! o) -> (forall n, p = Some n -> is_Some (t !! n) /\ ~ below t n o) ->
  tree_ok (relink o p t).
Proof.
  intros T [[q0 k0] Ho] Hp. split.
  - intros x y k Hx. apply relink_lookup in Hx as ([q kx] & Hx & [= Eq _]).
    case_decide; simpl in *; subst.
    + destruct (Hp y eq_refl) as [[[q' k'] Hy] _]. eexists _, _. split; [by apply relink_lookup; eexists|].
      simpl. rewrite decide_True by done. apply elem_of_app. right. by left.
    + destruct (t_parent _ T _ _ _ Hx) as (q' & k' & Hy & Hin). eexists _, _.
      split; [by apply relink_lookup; eexists|]. apply elem_of_app. left. by apply list_elem_of_filter.
  - intros x q k c Hx Hc. apply relink_lookup in Hx as ([q1 k1] & Hx & [= _ ->]).
    apply elem_of_app in Hc as [Hc|Hc]; simpl in *.
    + apply list_elem_of_filter in Hc as [Hne Hc]. destruct (t_child _ T _ _ _ _ Hx Hc) as [l Hl].
      eexists. apply relink_lookup. eexists. split; [done|]. unfold relink_node. by rewrite decide_False.
    + case_decide; [|by apply not_elem_of_nil in Hc]. apply list_elem_of_singleton in Hc as ->. subst.
      eexists. apply relink_lookup. eexists. split; [done|]. unfold relink_node. by rewrite (decide_True (P := o = o)).
  - intros x q k Hx. apply relink_lookup in Hx as ([q1 k1] & Hx & [= _ ->]). apply NoDup_app.
    split; [apply NoDup_filter; simpl; by eapply t_nodup|]. split; [|case_decide; [apply NoDup_singleton|constructor]].
    intros c Hc Hc'. apply list_elem_of_filter in Hc as [? _]. case_decide; [|by apply not_elem_of_nil in Hc'].
    by apply list_elem_of_singleton in Hc'.
  - apply rank_relink; [done|]. intros n E. apply (Hp n E).
Qed.

End Links.

(** ** Lookups through the views *)
Lemma tview_lookup m o d : m !! o = Some d -> tview m !! o = Some (mParent d, mChildren d).
Proof. intros H. unfold tview. by rewrite lookup_fmap, H. Qed.

Lemma tview_lookup_inv m o n : tview m !! o = Some n -> exists d, m !! o = Some d /\ n = (mParent d, mChildren d).
Proof. unfold tview. rewrite lookup_fmap, fmap_Some. naive_solver. Qed.

Lemma tview_is_Some m o : is_Some (tview m !! o) <-> is_Some (m !! o).
Proof. unfold tview. by rewrite lookup_fmap, fmap_is_Some. Qed.

Lemma upd_object_ret w o d f : objects w !! o = Some d -> upd_object w o f = Ret (with_objects w (<[o := f d]> (objects w))).
Proof. intros H. unfold upd_object, d_func. by rewrite H. Qed.

Lemma d_func_ret w o d : objects w !! o = Some d -> d_func w o = Ret d.
Proof. intros H. unfold d_func. by rewrite H. Qed.

(** An object is in the child list of its parent only. *)
Lemma not_child_elsewhere w o d x dx :
  tree_ok (tview (objects w)) -> objects w !! o = Some d -> objects w !! x = Some dx -> mParent d <> Some x -> o ∉ mChildren dx.
Proof.
  intros T Ho Hx Hne Hin. destruct (t_child _ T _ _ _ _ (tview_lookup _ _ _ Hx) Hin) as [l Hl].
  rewrite (tview_lookup _ _ _ Ho) in Hl. congruence.
Qed.

(** ** The cycle check *)
Lemma check_ancestors_spec w o rank :
  tree_ok (tview (objects w)) -> ranked (tview (objects w)) rank ->
  (forall x, is_Some (tview (objects w) !! x) -> (rank x < size (objects w))%nat) ->
  forall fuel it, (forall x, it = Some x -> is_Some (objects w !! x) /\ (size (objects w) - rank x < fuel)%nat) -> (0 < fuel)%nat ->
  (check_ancestors fuel w o it = Ret tt /\ forall x, it = Some x -> ~ below (tview (objects w)) x o) \/
  (check_ancestors fuel w o it = Fatal /\ exists x, it = Some x /\ below (tview (objects w)) x o).
Proof.
  intros T R B. induction fuel as [|fuel IH]; intros it Hit Hf; [lia|].
  destruct it as [x|]; simpl; [|left; by split].
  destruct (Hit x eq_refl) as [[d Hd] Hx]. unfold check. case_bool_decide as Hxo; simpl.
  - unfold parent. rewrite (d_func_ret _ _ _ Hd). simpl. pose proof (tview_lookup _ _ _ Hd) as Hv.
    assert (Hup : forall y, mParent d = Some y -> is_Some (objects w !! y) /\ (size (objects w) - rank y < fuel)%nat).
    { intros y Hy. rewrite Hy in Hv. destruct (t_parent _ T _ _ _ Hv) as (q & k & Ey & _).
      pose proof (R _ _ _ Hv). pose proof (B y ltac:(eauto)). split; [apply tview_is_Some; eauto|lia]. }
    destruct (IH (mParent d) Hup) as [[-> Hb]|[-> (y & Ey & Hb)]].
    + pose proof (B x ltac:(eauto)). lia.
    + left. split; [done|]. intros x' [= <-] Hbx. inversion Hbx as [|? y ? [l Hy]]; subst; [done|].
      rewrite Hv in Hy. simplify_eq. by eapply Hb.
    + right. split; [done|]. exists x. split; [done|]. rewrite Ey in Hv. eapply rtc_l; [by eexists|done].
  - right. split; [done|]. exists x. subst. split; [done|apply rtc_refl].
Qed.

(** ** set_parent *)

(** What [set_parent] makes of the object at [x]. *)
Definition relinked (o : oid) (p : option oid) (x : oid) (d : ObjectPrivate) : ObjectPrivate :=
  with_children (if decide (x = o) then with_parent d p else d)
    (without o (mChildren d) ++ (if decide (p = Some x) then [o] else [])).

Definition relinked_world (w : World) (o : oid) (p : option oid) : World :=
  with_objects w (map_imap (fun x d => Some (relinked o p x d)) (objects w)).

Lemma tview_relinked w o p : tview (objects (relinked_world w o p)) = relink o p (tview (objects w)).
Proof.
  apply map_eq. intros x. unfold tview, relink, relinked_world; simpl. rewrite lookup_fmap, !map_lookup_imap, lookup_fmap.
  destruct (objects w !! x) as [d|]; [|done]. simpl. unfold relinked, relink_node; simpl. by case_decide.
Qed.

Lemma relinked_other o p x d : x <> o -> p <> Some x -> o ∉ mChildren d -> relinked o p x d = d.
Proof.
  intros. unfold relinked. rewrite !decide_False by done. rewrite without_id, app_nil_r by done. by destruct d.
Qed.

(** The step that detaches [o] from its parent. *)
Lemma unlink_step w o d q :
  tree_ok (tview (objects w)) -> objects w !! o = Some d -> mParent d = Some q ->
  exists dq, objects w !! q = Some dq /\ q <> o /\
    <[o := with_parent d None]> (<[q := with_children dq (without o (mChildren dq))]> (objects w)) =
    objects (relinked_world w o None).
Proof.
  intros T Ho Hq. pose proof (tview_lookup _ _ _ Ho) as Hv. rewrite Hq in Hv.
  destruct (t_parent _ T _ _ _ Hv) as (qq & kk & Hqv & _). apply tview_lookup_inv in Hqv as (dq & Hdq & _).
  destruct (t_rank _ T) as [rank R]. assert (Hne : q <> o) by (intros ->; pose proof (R _ _ _ Hv); lia).
  exists dq. split; [done|]. split; [done|]. apply map_eq. intros x. unfold relinked_world; simpl. rewrite map_lookup_imap.
  destruct (decide (x = o)) as [->|Hxo].
  - rewrite lookup_insert_eq, Ho. simpl. f_equal. unfold relinked. rewrite decide_True, decide_False by done.
    rewrite without_id, app_nil_r by (eapply not_child_elsewhere; eauto; congruence). by destruct d.
  - rewrite lookup_insert_ne by done. destruct (decide (x = q)) as [->|Hxq].
    + rewrite lookup_insert_eq, Hdq. simpl. unfold relinked. rewrite !decide_False by done. by rewrite app_nil_r.
    + rewrite lookup_insert_ne by done. destruct (objects w !! x) as [dx|] eqn:Ex; [|done]. simpl.
      rewrite relinked_other; [done..|]. eapply not_child_elsewhere; eauto. congruence.
Qed.

(** The step that attaches a detached [o] to [n]. *)
Lemma link_step w o d n dn :
  tree_ok (tview (objects w)) -> objects w !! o = Some d -> mParent d = None -> objects w !! n = Some dn -> n <> o ->
  <[n := with_children dn (mChildren dn ++ [o])]> (<[o := with_parent d (Some n)]> (objects w)) =
  objects (relinked_world w o (Some n)).
Proof.
  intros T Ho Hp Hn Hne. apply map_eq. intros x. unfold relinked_world; simpl. rewrite map_lookup_imap.
  assert (Hno : forall y dy, objects w !! y = Some dy -> o ∉ mChildren dy) by (intros; eapply not_child_elsewhere; eauto; congruence).
  destruct (decide (x = n)) as [->|Hxn].
  - rewrite lookup_insert_eq, Hn. simpl. unfold relinked. rewrite decide_False, decide_True by done.
    by rewrite without_id by eauto.
  - rewrite lookup_insert_ne by done. destruct (decide (x = o)) as [->|Hxo].
    + rewrite lookup_insert_eq, Ho. simpl. unfold relinked. rewrite decide_True, decide_False by (done || congruence).
      rewrite without_id, app_nil_r by eauto. by destruct d.
    + rewrite lookup_insert_ne by done. destruct (objects w !! x) as [dx|] eqn:Ex; [|done]. simpl.
      rewrite relinked_other; [done..|congruence|eauto].
Qed.

Lemma relink_twice w o p : relinked_world (relinked_world w o None) o p = relinked_world w o p.
Proof.
  unfold relinked_world, with_objects; simpl. f_equal. apply map_eq. intros x. rewrite !map_lookup_imap.
  destruct (objects w !! x) as [d|]; [|done]. simpl. f_equal. unfold relinked.
  assert (E : forall l, without o (without o l) = without o l) by (intros l; rewrite list_filter_filter; apply list_filter_iff; naive_solver).
  case_decide; simpl; rewrite app_nil_r, E; by destruct d.
Qed.

Lemma kernel_ok_relinked w o p :
  kernel_ok w -> is_Some (objects w !! o) ->
  (forall n, p = Some n -> is_Some (objects w !! n) /\ ~ below (tview (objects w)) n o) -> kernel_ok (relinked_world w o p).
Proof.
  intros K Ho Hp. apply kernel_ok_objects; [done| | |].
  - change (map_imap _ _) with (objects (relinked_world w o p)). rewrite tview_relinked.
    apply tree_relink; [apply K|by apply tview_is_Some|]. intros n E. rewrite tview_is_Some. eauto.
  - apply map_eq. intros x. unfold fview. rewrite !lookup_fmap, map_lookup_imap.
    destruct (objects w !! x); [|done]. simpl. unfold relinked. by case_decide.
  - apply map_eq. intros x. unfold aview. rewrite !lookup_fmap, map_lookup_imap.
    destruct (objects w !! x); [|done]. simpl. unfold relinked. by case_decide.
Qed.

(** The body of [set_parent] after its guards. *)
Lemma set_parent_steps h `{!Quiet h} w o d p :
  kernel_ok w -> objects w !! o = Some d ->
  (forall n, p = Some n -> is_Some (objects w !! n) /\ ~ below (tview (objects w)) n o) ->
  (do w <- match mParent d with
      | None => Ret w
      | Some old =>
        do w <- detach_child w old o;
        do (w, _, _) <- handle_event h w old (make_child_event kChildRemoved (Zpos o));
        upd_object w o (fun d => with_parent d None)
      end;
    match p with
    | None => Ret w
    | Some new =>
      do w <- upd_object w o (fun d => with_parent d (Some new));
      do w <- attach_child w new o;
      do (w, _, _) <- handle_event h w new (make_child_event kChildAdded (Zpos o));
      Ret w
    end) = Ret (if decide (mParent d = None) then match p with None => w | Some _ => relinked_world w o p end
                else relinked_world w o p).
Proof.
  intros K Ho Hp.
  assert (Unlink : forall q, mParent d = Some q ->
    (do w <- detach_child w q o;
     do (w, _, _) <- handle_event h w q (make_child_event kChildRemoved (Zpos o));
     upd_object w o (fun d => with_parent d None)) = Ret (relinked_world w o None)).
  { intros q Hq. destruct (unlink_step w o d q (k_tree _ K) Ho Hq) as (dq & Hdq & Hne & E).
    unfold detach_child. rewrite (upd_object_ret _ _ _ _ Hdq). simpl.
    edestruct (handle_event_quiet h) as (e & b & ->); [done|]. simpl.
    erewrite upd_object_ret by (simpl; by rewrite lookup_insert_ne). simpl. by rewrite E. }
  assert (Link : forall w d n, tree_ok (tview (objects w)) -> objects w !! o = Some d -> mParent d = None -> n <> o -> is_Some (objects w !! n) ->
    (do w <- upd_object w o (fun d => with_parent d (Some n));
     do w <- attach_child w n o;
     do (w, _, _) <- handle_event h w n (make_child_event kChildAdded (Zpos o));
     Ret w) = Ret (relinked_world w o (Some n))).
  { intros w0 d0 n T Hd0 Hpar Hne [dn Hn]. rewrite (upd_object_ret _ _ _ _ Hd0). simpl. unfold attach_child.
    erewrite upd_object_ret by (simpl; by rewrite lookup_insert_ne). simpl.
    edestruct (handle_event_quiet h) as (e & b & ->); [done|]. simpl.
    unfold with_objects; simpl. by rewrite (link_step w0 o d0 n dn) by done. }
  assert (Hne : forall n, p = Some n -> n <> o) by (intros n E ->; apply (proj2 (Hp o E)), rtc_refl).
  destruct (mParent d) as [q|] eqn:Eq; [rewrite (Unlink q eq_refl)|]; simpl.
  - destruct p as [n|]; [|done]. destruct (Hp n eq_refl) as [[dn Hn] _].
    rewrite (Link (relinked_world w o None) (relinked o None o d) n); [by rewrite relink_twice|..].
    + apply (kernel_ok_relinked w o None); [done|eauto|done].
    + simpl. by rewrite map_lookup_imap, Ho.
    + unfold relinked. by rewrite decide_True.
    + by apply Hne.
    + simpl. rewrite map_lookup_imap, Hn. eauto.
  - destruct p as [n|]; [|done]. apply (Link w d); [apply K|done|done|by apply Hne|by apply Hp].
Qed.

(** C18: [set_parent] on a well-formed heap, with handlers that leave the heap alone and
    any fuel above the number of objects: it is fatal exactly when the new parent is
    the object itself or one of its descendants; otherwise it returns, moves the
    object out of its old parent's children and to the end of the new parent's, and
    touches nothing else; and the forest, the filter registries and the queues stay
    well-formed. *)
Theorem set_parent_correct h `{!Quiet h} w o p fuel :
  kernel_ok w -> is_Some (objects w !! o) -> (forall n, p = Some n -> is_Some (objects w !! n)) ->
  (size (objects w) < fuel)%nat ->
  (set_parent h fuel w o p = Fatal /\ exists n, p = Some n /\ below (tview (objects w)) n o) \/
  (set_parent h fuel w o p = Ret (if decide ((objects w !! o) ≫= mParent = p) then w else relinked_world w o p) /\
   (forall n, p = Some n -> (objects w !! o) ≫= mParent = p \/ ~ below (tview (objects w)) n o) /\
   kernel_ok (relinked_world w o p)).
Proof.
  intros K [d Ho] Hp Hf. unfold set_parent. rewrite (d_func_ret _ _ _ Ho), Ho. simpl.
  destruct (tree_rank _ (k_tree _ K)) as (rank & R & B). unfold tview in B. rewrite map_size_fmap in B.
  destruct (decide (mParent d = p)) as [<-|Hne].
  { right. rewrite bool_decide_eq_true_2 by done. split; [done|]. split; [by left|].
    apply kernel_ok_relinked; [done|eauto|]. intros n E. split; [auto|]. intros Hb.
    apply (ranked_below _ rank) in Hb; [|done]. pose proof (tview_lookup _ _ _ Ho) as Hv. rewrite E in Hv.
    pose proof (R _ _ _ Hv). lia. }
  rewrite bool_decide_eq_false_2 by done.
  destruct (check_ancestors_spec w o rank (k_tree _ K) R B fuel p) as [[Hc Hb]|[Hc Hb]]; [|lia| |].
  { intros n E. split; [auto|lia]. }
  - right. assert (Hpb : forall n, p = Some n -> is_Some (objects w !! n) /\ ~ below (tview (objects w)) n o) by auto.
    replace (match p with Some _ => check_ancestors fuel w o p | None => Ret tt end) with (Ret tt : run unit) by by destruct p.
    simpl. rewrite (set_parent_steps h w o d p K Ho Hpb).
    split; [|split; [auto|apply kernel_ok_relinked; eauto]].
    destruct (decide (mParent d = None)) as [E|]; [|done]. destruct p; [done|congruence].
  - left. destruct Hb as (n & -> & Hb). rewrite Hc. simpl. eauto.
Qed.

(** ** Event filters *)

(** What removing (and, with [add], reinstalling) the filter [x] of [o] makes of the object at [y]. *)
Definition refiltered (add : bool) (o x y : oid) (d : ObjectPrivate) : ObjectPrivate :=
  let d1 := if decide (y = o) then with_filters d (without x (mFilters d) ++ (if add then [x] else [])) else d in
  if decide (y = x) then with_watching d1 (without o (mWatching d) ++ (if add then [o] else [])) else d1.

Definition refiltered_world (add : bool) (w : World) (o x : oid) : World :=
  with_objects w (map_imap (fun y d => Some (refiltered add o x y d)) (objects w)).

Lemma refiltered_lookup add w o x y d' :
  objects (refiltered_world add w o x) !! y = Some d' <-> exists d, objects w !! y = Some d /\ d' = refiltered add o x y d.
Proof.
  simpl. rewrite map_lookup_imap. destruct (objects w !! y) as [d|]; simpl; naive_solver.
Qed.

Lemma fview_refiltered add w o x y fs ws :
  fview (objects (refiltered_world add w o x)) !! y = Some (fs, ws) <->
  exists fs0 ws0, fview (objects w) !! y = Some (fs0, ws0) /\
    fs = (if decide (y = o) then without x fs0 ++ (if add then [x] else []) else fs0) /\
    ws = (if decide (y = x) then without o ws0 ++ (if add then [o] else []) else ws0).
Proof.
  unfold fview. simpl. rewrite !lookup_fmap, map_lookup_imap. destruct (objects w !! y) as [d|]; simpl; [|naive_solver].
  unfold refiltered. split.
  - intros [= <- <-]. eexists _, _. split; [done|]. by repeat case_decide.
  - intros (fs0 & ws0 & [= <- <-] & -> & ->). by repeat case_decide.
Qed.

Lemma fview_refiltered_2 add w o x y fs0 ws0 :
  fview (objects w) !! y = Some (fs0, ws0) ->
  fview (objects (refiltered_world add w o x)) !! y =
    Some (if decide (y = o) then without x fs0 ++ (if add then [x] else []) else fs0,
          if decide (y = x) then without o ws0 ++ (if add then [o] else []) else ws0).
Proof. intros H. apply fview_refiltered. by eexists _, _. Qed.

Lemma elem_of_snoc_without (add : bool) (l : list oid) (x y : oid) :
  y ∈ without x l ++ (if add then [x] else []) <-> (y ∈ l /\ y <> x) \/ (add = true /\ y = x).
Proof.
  rewrite elem_of_app, list_elem_of_filter.
  destruct add; [rewrite list_elem_of_singleton|rewrite elem_of_nil]; naive_solver.
Qed.

Lemma NoDup_snoc_without (add : bool) (l : list oid) (x : oid) : NoDup l -> NoDup (without x l ++ (if add then [x] else [])).
Proof.
  intros N. apply NoDup_app. split; [by apply NoDup_filter|]. split; [|destruct add; [apply NoDup_singleton|constructor]].
  intros y Hy Hy'. apply list_elem_of_filter in Hy as [? _]. destruct add; [|by apply not_elem_of_nil in Hy'].
  by apply list_elem_of_singleton in Hy'.
Qed.

Lemma filters_ok_refiltered (add : bool) w o x :
  filters_ok (fview (objects w)) -> is_Some (objects w !! o) -> is_Some (objects w !! x) -> o <> x ->
  filters_ok (fview (objects (refiltered_world add w o x))).
Proof.
  intros [I W N] [d_o Ho] [dx Hx] Hne.
  assert (Lo : exists fo wo, fview (objects w) !! o = Some (fo, wo)) by (unfold fview; rewrite lookup_fmap, Ho; simpl; eauto).
  assert (Lx : exists fx wx, fview (objects w) !! x = Some (fx, wx)) by (unfold fview; rewrite lookup_fmap, Hx; simpl; eauto).
  destruct Lo as (fo & wo & Lo), Lx as (fx & wx & Lx).
  split.
  - intros y fs ws z Hy Hz. apply fview_refiltered in Hy as (fs0 & ws0 & Hy & -> & ->).
    assert (Cz : (z ∈ fs0 /\ ~ (y = o /\ z = x)) \/ (add = true /\ y = o /\ z = x)).
    { case_decide; [apply elem_of_snoc_without in Hz; naive_solver|naive_solver]. }
    clear Hz. destruct Cz as [[Hz0 Hnot]|(-> & -> & ->)].
    + destruct (I _ _ _ _ Hy Hz0) as (? & fs' & ws' & Hz' & Hin). split; [done|].
      eexists _, _. split; [by apply fview_refiltered_2|]. case_decide; [|done].
      apply elem_of_snoc_without. left. split; [done|]. naive_solver.
    + split; [done|]. eexists _, _. split; [by apply fview_refiltered_2|].
      rewrite decide_True by done. apply (elem_of_snoc_without true). by right.
  - intros y fs ws z Hy Hz. apply fview_refiltered in Hy as (fs0 & ws0 & Hy & -> & ->).
    assert (Cz : (z ∈ ws0 /\ ~ (y = x /\ z = o)) \/ (add = true /\ y = x /\ z = o)).
    { case_decide; [apply elem_of_snoc_without in Hz; naive_solver|naive_solver]. }
    clear Hz. destruct Cz as [[Hz0 Hnot]|(-> & -> & ->)].
    + destruct (W _ _ _ _ Hy Hz0) as (fs' & ws' & Hz' & Hin).
      eexists _, _. split; [by apply fview_refiltered_2|]. case_decide; [|done].
      apply elem_of_snoc_without. left. split; [done|]. naive_solver.
    + eexists _, _. split; [by apply fview_refiltered_2|].
      rewrite decide_True by done. apply (elem_of_snoc_without true). by right.
  - intros y fs ws Hy. apply fview_refiltered in Hy as (fs0 & ws0 & Hy & -> & ->). destruct (N _ _ _ Hy).
    split; case_decide; auto using NoDup_snoc_without.
Qed.

Lemma kernel_ok_refiltered add w o x :
  kernel_ok w -> is_Some (objects w !! o) -> is_Some (objects w !! x) -> o <> x -> kernel_ok (refiltered_world add w o x).
Proof.
  intros K Ho Hx Hne.
  assert (E : forall {A} (g : ObjectPrivate -> A), (forall y d, g (refiltered add o x y d) = g d) ->
    g <$> objects (refiltered_world add w o x) = g <$> objects w).
  { intros A g Hg. apply map_eq. intros y. rewrite !lookup_fmap. simpl. rewrite map_lookup_imap.
    destruct (objects w !! y); [|done]. simpl. by rewrite Hg. }
  assert (ET : tview (objects (refiltered_world add w o x)) = tview (objects w)).
  { apply E. intros. unfold refiltered. by repeat case_decide. }
  assert (EA : aview (objects (refiltered_world add w o x)) = aview (objects w)).
  { apply E. intros. unfold refiltered. by repeat case_decide. }
  pose proof (filters_ok_refiltered add w o x (k_filters _ K) Ho Hx Hne) as F. destruct K as [T _ Q Th C].
  split; [by rewrite ET|done|by apply queues_ok_objects| |done].
  intros y d l Hy Hl. pose proof (aview_thread _ _ _ _ Hy Hl) as Ha. rewrite EA in Ha.
  apply aview_thread_inv in Ha as (d' & ? & ?). eauto.
Qed.

Lemma remove_event_filter_spec w o x :
  is_Some (objects w !! o) -> is_Some (objects w !! x) -> o <> x -> remove_event_filter w o x = Ret (refiltered_world false w o x).
Proof.
  intros [d Ho] [dx Hx] Hne. unfold remove_event_filter. rewrite (upd_object_ret _ _ _ _ Ho). simpl.
  erewrite upd_object_ret by (simpl; by rewrite lookup_insert_ne). unfold refiltered_world, with_objects; simpl.
  f_equal. f_equal. apply map_eq. intros y. rewrite map_lookup_imap. unfold refiltered.
  destruct (decide (y = x)) as [->|]; [rewrite lookup_insert_eq, Hx; simpl; by rewrite decide_False, app_nil_r by done|].
  rewrite lookup_insert_ne by done. destruct (decide (y = o)) as [->|]; [rewrite lookup_insert_eq, Ho; simpl|rewrite lookup_insert_ne by done].
  - by rewrite app_nil_r.
  - by destruct (objects w !! y).
Qed.

(** [install_event_filter] is fatal for the object itself; otherwise the filter
    ends up installed exactly once, in the newest position, whether or not it was
    installed before, the watched object is recorded with the filter, the relative
    order of the other filters is kept, and the two registries stay mirror images. *)
Theorem install_event_filter_correct w o x :
  kernel_ok w -> is_Some (objects w !! o) -> is_Some (objects w !! x) ->
  install_event_filter w o x = (if decide (x = o) then Fatal else Ret (refiltered_world true w o x)) /\
  (x <> o -> kernel_ok (refiltered_world true w o x)).
Proof.
  intros K Ho Hx. unfold install_event_filter. destruct (decide (x = o)) as [->|Hne].
  { rewrite bool_decide_eq_false_2 by naive_solver. done. }
  split; [|intros _; by apply kernel_ok_refiltered]. rewrite bool_decide_eq_true_2 by done. simpl.
  rewrite remove_event_filter_spec by done. destruct Ho as [d Ho], Hx as [dx Hx]. simpl.
  erewrite upd_object_ret by (simpl; by rewrite map_lookup_imap, Ho). simpl.
  erewrite upd_object_ret by (simpl; rewrite lookup_insert_ne by done; by rewrite map_lookup_imap, Hx). simpl.
  unfold refiltered_world, with_objects; simpl. f_equal. f_equal. apply map_eq. intros y. rewrite map_lookup_imap.
  unfold refiltered. destruct (decide (y = x)) as [->|].
  - rewrite lookup_insert_eq, Hx; simpl. simpl_decide. simpl. by rewrite app_nil_r.
  - rewrite lookup_insert_ne by done. destruct (decide (y = o)) as [->|].
    + rewrite lookup_insert_eq, Ho; simpl. simpl_decide. simpl. by rewrite app_nil_r.
    + rewrite lookup_insert_ne, map_lookup_imap by done. destruct (objects w !! y); [|done]. simpl.
      by simpl_decide.
Qed.

(** ** Searching *)
Section Search.
Context (is_t : oid -> bool) (name : string) (w : World).
Hypothesis T : tree_ok (tview (objects w)).

Notation matching c := (is_t c && (bool_decide (name = EmptyString) ||
  match objects w !! c with Some d => bool_decide (mObjectName d = name) | None => false end)).

Lemma matches_spec c d : objects w !! c = Some d -> matches is_t name w c = Ret (matching c).
Proof. intros H. unfold matches, object_name. rewrite (d_func_ret _ _ _ H), H. done. Qed.

Lemma find_in_children_spec rank fuel p :
  (forall c, is_Some (objects w !! c) -> (rank c < fuel)%nat -> exists l, find_children is_t name true w fuel c = Ret l /\
     forall x, x ∈ l <-> below (tview (objects w)) x c /\ x <> c /\ matching x = true) ->
  ranked (tview (objects w)) rank ->
  forall kids, (forall c, c ∈ kids -> parent_of (tview (objects w)) c p /\ (rank c < fuel)%nat) ->
  exists l, find_in_children is_t name true w (find_children is_t name true w fuel) kids = Ret l /\
    forall x, x ∈ l <-> exists c, c ∈ kids /\ below (tview (objects w)) x c /\ matching x = true.
Proof.
  intros IH R. induction kids as [|c kids IHk]; intros Hk; cbn [find_in_children].
  { exists []. split; [done|]. intros x. split; [by intros ?%elem_of_nil|intros (c & Hc & _); by apply not_elem_of_nil in Hc]. }
  destruct (Hk c ltac:(by left)) as [[k Hc] Hr]. apply tview_lookup_inv in Hc as (d & Hd & E).
  rewrite (matches_spec _ _ Hd). cbn [run_bind]. destruct (IH c ltac:(eauto) Hr) as (lc & -> & Hlc). cbn [run_bind].
  destruct IHk as (l & -> & Hl); [intros; apply Hk; by right|]. cbn [run_bind].
  eexists. split; [done|]. intros x. rewrite !elem_of_app, Hlc, Hl. split.
  - intros [Hx|[(Hb & _ & Hm)|(c' & ? & ?)]].
    + destruct (matching c) eqn:Em; [|by apply not_elem_of_nil in Hx]. apply list_elem_of_singleton in Hx as ->.
      exists c. split; [by left|]. split; [apply rtc_refl|done].
    + exists c. split; [by left|done].
    + exists c'. split; [by right|done].
  - intros (c' & Hc' & Hb & Hm). apply elem_of_cons in Hc' as [->|Hc']; [|right; right; eauto].
    destruct (decide (x = c)) as [->|]; [left; rewrite Hm; by left|right; left; done].
Qed.

Lemma find_children_spec rank : ranked (tview (objects w)) rank ->
  forall fuel o, is_Some (objects w !! o) -> (rank o < fuel)%nat ->
  exists l, find_children is_t name true w fuel o = Ret l /\
    forall x, x ∈ l <-> below (tview (objects w)) x o /\ x <> o /\ matching x = true.
Proof.
  intros R. induction fuel as [|fuel IH]; intros o [d Ho] Hr; [lia|]. cbn [find_children].
  unfold children. rewrite (d_func_ret _ _ _ Ho). cbn [run_bind].
  assert (Hk : forall c, c ∈ mChildren d -> parent_of (tview (objects w)) c o /\ (rank c < fuel)%nat).
  { intros c Hc. destruct (t_child _ T _ _ _ _ (tview_lookup _ _ _ Ho) Hc) as [l Hl]. split; [by eexists|].
    pose proof (R _ _ _ Hl). lia. }
  destruct (find_in_children_spec rank fuel o IH R (mChildren d) Hk) as (l & -> & Hl).
  exists l. split; [done|]. intros x. rewrite Hl. split.
  - intros (c & Hc & Hb & Hm). destruct (Hk c Hc) as [Pc _]. split; [by eapply rtc_r|]. split; [|done].
    intros ->. destruct Pc as [k Hk']. pose proof (R _ _ _ Hk'). apply (ranked_below _ rank) in Hb; [lia|done].
  - intros (Hb & Hne & Hm). apply rtc_inv_r in Hb as [->|(c & Hb & [k Hc])]; [done|].
    destruct (t_parent _ T _ _ _ Hc) as (q & k' & Ho' & Hin). rewrite (tview_lookup _ _ _ Ho) in Ho'. simplify_eq. eauto.
Qed.

(** [find_child] returns the first of the objects [find_children] visits. *)
Lemma find_child_head rec_ fuel : forall o l, find_children is_t name rec_ w fuel o = Ret l ->
  find_child is_t name rec_ w fuel o = Ret (head l).
Proof.
  induction fuel as [|fuel IH]; intros o l; [done|]. cbn [find_children find_child].
  destruct (children w o) as [kids| | |]; [|done..]. cbn [run_bind]. revert l.
  induction kids as [|c kids IHk]; intros l; cbn [find_in_children find_first_child]; [by intros [= <-]|].
  destruct (matches is_t name w c) as [m| | |]; [|done..]. cbn [run_bind]. destruct m.
  - destruct (if rec_ then _ else _); [|done..]. cbn [run_bind]. destruct (find_in_children _ _ _ _ _ kids); [|done..].
    by intros [= <-].
  - destruct rec_; cbn [run_bind].
    + destruct (find_children is_t name true w fuel c) as [lc| | |] eqn:Ec; [|done..]. rewrite (IH _ _ Ec). cbn [run_bind].
      destruct (find_in_children _ _ _ _ _ kids) as [lr| | |]; [|done..]. cbn [run_bind]. intros [= <-].
      destruct lc; simpl; [|done]. by apply IHk.
    + destruct (find_in_children _ _ _ _ _ kids) as [lr| | |]; [|done..]. cbn [run_bind]. intros [= <-]. by apply IHk.
Qed.

End Search.

(** On a well-formed heap the recursive search terminates with any fuel above the
    number of objects: [find_children] returns exactly the proper descendants whose
    type and name match, and [find_child] its first element, or null when nothing
    matches. *)
Theorem find_children_correct is_t name w o fuel :
  kernel_ok w -> is_Some (objects w !! o) -> (size (objects w) < fuel)%nat ->
  exists l, find_children is_t name true w fuel o = Ret l /\ find_child is_t name true w fuel o = Ret (head l) /\
    forall x, x ∈ l <-> below (tview (objects w)) x o /\ x <> o /\ is_t x = true /\
      (name = EmptyString \/ object_name w x = Ret name).
Proof.
  intros K Ho Hf. destruct (tree_rank _ (k_tree _ K)) as (rank & R & B).
  destruct (find_children_spec is_t name w (k_tree _ K) rank R fuel o Ho) as (l & E & H).
  { pose proof (B o ltac:(by apply tview_is_Some)). unfold tview in *. rewrite map_size_fmap in *. lia. }
  exists l. split; [done|]. split; [by apply find_child_head|]. intros x. rewrite H.
  rewrite andb_true_iff, orb_true_iff, bool_decide_eq_true. unfold object_name, d_func.
  destruct (objects w !! x) as [d|]; simpl; [rewrite bool_decide_eq_true|]; naive_solver.
Qed.
