(* ===== verification/KernelDestroy.v ===== *)
(** * Destruction of objects

    [~Object] stops timers, purges the queues, detaches both filter registries,
    destroys the children and leaves its parent: on a well-formed heap it
    terminates, removes exactly the subtree, and leaves no reference to it. *)

From stdpp Require Import prelude list numbers gmap strings sets.
From Stdlib Require Import ZArith Lia.
From S2P Require Import Prelude Event Kernel KernelInv ObjectTree.

#[local] Open Scope cxx_scope.

(** ** Queue surgery *)
Lemma split_for_spec q r :
  split_for q r = (filter (fun e => mReceiver e = r) q, filter (fun e => mReceiver e <> r) q).
Proof.
  induction q as [|e q IH]; [done|]. cbn [split_for]. rewrite IH, !filter_cons.
  case_bool_decide; [rewrite decide_True, decide_False by naive_solver|rewrite decide_False, decide_True by naive_solver]; done.
Qed.

Lemma upd_loop_ret w l d f : loops w !! l = Some d -> upd_loop w l f = Ret (with_loops w (<[l := f d]> (loops w))).
Proof. intros H. unfold upd_loop, l_func. by rewrite H. Qed.

Lemma l_func_ret w l d : loops w !! l = Some d -> l_func w l = Ret d.
Proof. intros H. unfold l_func. by rewrite H. Qed.

Lemma delete_events_spec (q : list EventEntry) : forall w,
  NoDup (mEvent <$> q) -> (forall e, e ∈ q -> is_Some (events w !! mEvent e)) ->
  exists m, delete_events w q = Ret (with_events w m) /\
    forall i, m !! i = if decide (i ∈ mEvent <$> q) then None else events w !! i.
Proof.
  induction q as [|e q IH]; intros w N L; cbn [delete_events].
  - exists (events w). split; [by destruct w|]. intros i. by rewrite decide_False by apply not_elem_of_nil.
  - apply NoDup_cons in N as [Hn N]. destruct (L e ltac:(by left)) as [ev He].
    unfold delete_event, e_func. rewrite He. simpl.
    destruct (IH (with_events w (delete (mEvent e) (events w))) N) as (m & -> & Hm).
    { intros e' He'. simpl. rewrite lookup_delete_ne; [apply L; by right|].
      intros E. apply Hn. rewrite E. by apply list_elem_of_fmap_2. }
    exists m. split; [done|]. intros i. rewrite Hm. simpl.
    destruct (decide (i ∈ mEvent <$> q)) as [Hin|Hin]; [by rewrite decide_True by by right|].
    destruct (decide (i = mEvent e)) as [->|Hne].
    + rewrite decide_True by by left. by rewrite lookup_delete_eq.
    + rewrite decide_False by (intros H%elem_of_cons; naive_solver). by rewrite lookup_delete_ne.
Qed.

(** ** What destruction may change *)

(** No queue owns the event. *)
Definition unqueued (w : World) (i : eid) : Prop :=
  forall l d e, loops w !! l = Some d -> e ∈ mEventQueue d -> mEvent e <> i.

(** What destruction leaves alone in a loop. *)
Definition core (d : EventLoopPrivate) := (mPostQueue d, mNextTimerId d, mInExec d, mExit d, mRetCode d, mHasExitCode d).

(** [w'] is [w] after destructions in which only receivers satisfying [P] lose queued
    entries; an entry that leaves its queue has its event released. *)
Record shrinks (P : oid -> Prop) (w w' : World) : Prop := {
  s_object : forall x d', objects w' !! x = Some d' -> exists d, objects w !! x = Some d /\
    mParent d' = mParent d /\ mThread d' = mThread d /\ mChildren d' ⊆ mChildren d /\
    mFilters d' ⊆ mFilters d /\ mWatching d' ⊆ mWatching d;
  s_loop : forall l d', loops w' !! l = Some d' -> exists d, loops w !! l = Some d /\ mEventQueue d' `sublist_of` mEventQueue d;
  s_loops : dom (loops w') = dom (loops w);
  s_current : t_current_loop w' = t_current_loop w;
  s_event : forall i, unqueued w i -> events w' !! i = events w !! i;
  s_keep : forall i ev, events w' !! i = Some ev -> events w !! i = Some ev;
  s_freed : forall l d e, loops w !! l = Some d -> e ∈ mEventQueue d ->
    (exists d', loops w' !! l = Some d' /\ e ∈ mEventQueue d') \/ (events w' !! mEvent e = None /\ P (mReceiver e));
  s_instance_same : s_instance w' = s_instance w;
  s_posts : forall l, (core <$> loops w' !! l) = (core <$> loops w !! l);
  s_history : history w' = history w
}.

Lemma s_queue {P : oid -> Prop} w w' l d' : shrinks P w w' -> loops w' !! l = Some d' ->
  exists d, loops w !! l = Some d /\ mEventQueue d' ⊆ mEventQueue d.
Proof. intros S H. destruct (s_loop _ _ _ S _ _ H) as (d & ? & Q). exists d. split; [done|]. intros e He. by eapply elem_of_sublist. Qed.

Lemma shrinks_refl {P : oid -> Prop} w : shrinks P w w.
Proof. split; try done; intros; eauto 10. Qed.

Lemma shrinks_trans {P : oid -> Prop} w1 w2 w3 : shrinks P w1 w2 -> shrinks P w2 w3 -> shrinks P w1 w3.
Proof.
  intros S1 S2. pose proof (fun l d' => s_queue (P := P) w1 w2 l d' S1) as Sub. revert S1 S2.
  intros [O1 L1 D1 C1 E1 Z1 F1 I1 P1 H1] [O2 L2 D2 C2 E2 Z2 F2 I2 P2 H2].
  split; [| |congruence|congruence| |auto| |congruence|intros; by rewrite P2|congruence]; clear H1 H2.
  - intros x d3 H3. destruct (O2 _ _ H3) as (d2 & H2 & P2' & T2 & K2 & Q2 & W2).
    destruct (O1 _ _ H2) as (d1 & H1 & P1' & T1 & K1 & Q1 & W1). exists d1.
    split; [done|]. split; [congruence|]. split; [congruence|]. split; [set_solver|]. split; set_solver.
  - intros l d3 H3. destruct (L2 _ _ H3) as (d2 & H2 & E2'). destruct (L1 _ _ H2) as (d1 & H1 & E1'). exists d1. split; [done|]. by etrans.
  - intros i U. rewrite E2; [by apply E1|]. intros l d2 e H2 He. destruct (Sub _ _ H2) as (d1 & H1 & Hs).
    apply (U l d1 e H1). by apply Hs.
  - intros l d e Hl He. destruct (F1 l d e Hl He) as [(d' & Hl' & He')|[Hn Hp]]; [eauto|right]. split; [|done].
    destruct (events w3 !! mEvent e) eqn:E; [|done]. apply Z2 in E. congruence.
Qed.

Lemma shrinks_mono (P Q : oid -> Prop) w w' : (forall x, P x -> Q x) -> shrinks P w w' -> shrinks Q w w'.
Proof. intros H S. destruct S as [? ? ? ? ? ? Fr ? ? ?]. split; try done. intros l d e Hl He. destruct (Fr l d e Hl He) as [?|[? ?]]; auto. Qed.

Lemma s_dead {P : oid -> Prop} w w' i : shrinks P w w' -> events w !! i = None -> events w' !! i = None.
Proof. intros S H. destruct (events w' !! i) eqn:E; [|done]. apply (s_keep _ _ _ S) in E. congruence. Qed.

(** An object-heap update that keeps the domain and shrinks the links. *)
Lemma shrinks_objects {P : oid -> Prop} w m :
  (forall x d', m !! x = Some d' -> exists d, objects w !! x = Some d /\
    mParent d' = mParent d /\ mThread d' = mThread d /\ mChildren d' ⊆ mChildren d /\
    mFilters d' ⊆ mFilters d /\ mWatching d' ⊆ mWatching d) -> shrinks P w (with_objects w m).
Proof. intros H. split; try done; [intros l d' Hl; by exists d'|]. intros l d e Hl He. left. by exists d. Qed.

Lemma shrinks_refiltered {P : oid -> Prop} w o x : shrinks P w (refiltered_world false w o x).
Proof.
  apply shrinks_objects. intros y d' H. apply (refiltered_lookup false w) in H as (d & Hd & ->). exists d.
  split; [done|]. unfold refiltered.
  assert (S : forall z l, without z l ++ [] ⊆ l) by (intros z l a; rewrite app_nil_r, list_elem_of_filter; naive_solver).
  repeat case_decide; simpl; auto 10.
Qed.

(** ** The two filter loops *)
Definition same_objects (w w' : World) : Prop := forall x, is_Some (objects w' !! x) <-> is_Some (objects w !! x).

Lemma same_objects_refiltered b w o x : same_objects w (refiltered_world b w o x).
Proof. intros y. simpl. rewrite map_lookup_imap. destruct (objects w !! y); simpl; [split; eauto|done]. Qed.

Lemma length_without_lt (l : list oid) (x : oid) : x ∈ l -> (length (without x l) < length l)%nat.
Proof.
  intros H. apply (length_filter_lt _ _ x); [done|naive_solver].
Qed.

Lemma fview_lookup m o d : m !! o = Some d -> fview m !! o = Some (mFilters d, mWatching d).
Proof. intros H. unfold fview. by rewrite lookup_fmap, H. Qed.

Lemma fview_lookup_inv m o n : fview m !! o = Some n -> exists d, m !! o = Some d /\ n = (mFilters d, mWatching d).
Proof. unfold fview. rewrite lookup_fmap, fmap_Some. naive_solver. Qed.

(** One step of either loop: the pair of the last registry entry is detached. *)
Lemma watching_live w o d x : kernel_ok w -> objects w !! o = Some d -> x ∈ mWatching d -> is_Some (objects w !! x) /\ x <> o.
Proof.
  intros K Ho Hx. destruct (f_watching _ (k_filters _ K) _ _ _ _ (fview_lookup _ _ _ Ho) Hx) as (fs & ws & Hf & Hin).
  pose proof Hf as Hf'. apply fview_lookup_inv in Hf' as (dx & Hdx & _). split; [eauto|].
  intros ->. by destruct (f_installed _ (k_filters _ K) _ _ _ _ Hf Hin).
Qed.

Lemma filter_live w o d x : kernel_ok w -> objects w !! o = Some d -> x ∈ mFilters d -> is_Some (objects w !! x) /\ x <> o.
Proof.
  intros K Ho Hx. destruct (f_installed _ (k_filters _ K) _ _ _ _ (fview_lookup _ _ _ Ho) Hx) as (Hne & fs & ws & Hf & _).
  apply fview_lookup_inv in Hf as (dx & Hdx & _). eauto.
Qed.

Lemma last_elem_of {A} (l : list A) x : last l = Some x -> x ∈ l.
Proof. intros (l' & ->)%last_Some. apply elem_of_app. right. by left. Qed.

Lemma unwatch_spec {P : oid -> Prop} o : forall fuel w d, kernel_ok w -> objects w !! o = Some d -> (length (mWatching d) < fuel)%nat ->
  exists w' d', unwatch fuel w o = Ret w' /\ kernel_ok w' /\ shrinks P w w' /\ same_objects w w' /\
    objects w' !! o = Some d' /\ mWatching d' = [].
Proof.
  induction fuel as [|fuel IH]; intros w d K Ho Hf; [lia|]. cbn [unwatch]. rewrite (d_func_ret _ _ _ Ho). simpl.
  destruct (last (mWatching d)) as [x|] eqn:El.
  - apply last_elem_of in El. destruct (watching_live _ _ _ _ K Ho El) as [Hx Hne].
    rewrite remove_event_filter_spec by eauto. simpl.
    destruct (IH (refiltered_world false w x o) (refiltered false x o o d)) as (w' & d' & -> & K' & S & D & Ho' & E).
    + apply kernel_ok_refiltered; eauto.
    + apply refiltered_lookup. eauto.
    + unfold refiltered. simpl_decide. simpl. rewrite app_nil_r. pose proof (length_without_lt _ _ El). lia.
    + exists w', d'. split; [done|]. split; [done|]. split; [eapply shrinks_trans; [apply shrinks_refiltered|done]|].
      split; [|done]. intros y. rewrite (D y). apply same_objects_refiltered.
  - exists w, d. split; [done|]. split; [done|]. split; [apply shrinks_refl|]. split; [done|]. split; [done|].
    by apply last_None.
Qed.

Lemma unfilter_spec {P : oid -> Prop} o : forall fuel w d, kernel_ok w -> objects w !! o = Some d -> (length (mFilters d) < fuel)%nat ->
  exists w' d', unfilter fuel w o = Ret w' /\ kernel_ok w' /\ shrinks P w w' /\ same_objects w w' /\
    objects w' !! o = Some d' /\ mFilters d' = [].
Proof.
  induction fuel as [|fuel IH]; intros w d K Ho Hf; [lia|]. cbn [unfilter]. rewrite (d_func_ret _ _ _ Ho). simpl.
  destruct (last (mFilters d)) as [x|] eqn:El.
  - apply last_elem_of in El. destruct (filter_live _ _ _ _ K Ho El) as [Hx Hne].
    rewrite remove_event_filter_spec by eauto. simpl.
    destruct (IH (refiltered_world false w o x) (refiltered false o x o d)) as (w' & d' & -> & K' & S & D & Ho' & E).
    + apply kernel_ok_refiltered; eauto.
    + apply refiltered_lookup. eauto.
    + unfold refiltered. simpl_decide. simpl. rewrite app_nil_r. pose proof (length_without_lt _ _ El). lia.
    + exists w', d'. split; [done|]. split; [done|]. split; [eapply shrinks_trans; [apply shrinks_refiltered|done]|].
      split; [|done]. intros y. rewrite (D y). apply same_objects_refiltered.
  - exists w, d. split; [done|]. split; [done|]. split; [apply shrinks_refl|]. split; [done|]. split; [done|].
    by apply last_None.
Qed.

(** ** Purging *)

(** Replacing a loop by one with fewer queued entries, and the event heap by one
    that still holds the remaining entries' events. *)
Lemma kernel_ok_loop w l d dn m :
  kernel_ok w -> loops w !! l = Some d -> mEventQueue dn `sublist_of` mEventQueue d ->
  (Forall plain (mPostQueue d) -> Forall plain (mPostQueue dn)) ->
  (forall l' d' e, loops w !! l' = Some d' -> e ∈ (if decide (l' = l) then mEventQueue dn else mEventQueue d') ->
     m !! mEvent e = events w !! mEvent e) ->
  kernel_ok (with_events (with_loops w (<[l := dn]> (loops w))) m).
Proof.
  intros [T F [QL QO QA QF QP] Th C] Hl Hq Hp Hm.
  assert (Hin : forall l' d', <[l := dn]> (loops w) !! l' = Some d' ->
    exists d0, loops w !! l' = Some d0 /\ mEventQueue d' = (if decide (l' = l) then mEventQueue dn else mEventQueue d0) /\
      mEventQueue d' `sublist_of` mEventQueue d0 /\ (Forall plain (mPostQueue d0) -> Forall plain (mPostQueue d'))).
  { intros l' d' H. destruct (decide (l' = l)) as [->|]; [rewrite lookup_insert_eq in H|rewrite lookup_insert_ne in H by done];
    simplify_eq; eauto. }
  assert (Sub : forall (q1 q2 : list EventEntry) e, q1 `sublist_of` q2 -> e ∈ q1 -> e ∈ q2).
  { intros q1 q2 e H He. by eapply elem_of_submseteq, sublist_submseteq. }
  assert (Live : forall l', is_Some (loops w !! l') -> is_Some (<[l := dn]> (loops w) !! l')).
  { intros l'. rewrite lookup_insert_is_Some. destruct (decide (l = l')); eauto. }
  split; simpl; [done|done| |eauto..]. split; simpl.
  - intros l' d' e H He. destruct (Hin _ _ H) as (d0 & H0 & E & Hs & _). rewrite (Hm l' d0) by (done || by rewrite <- E). eauto.
  - intros l' d' H. destruct (Hin _ _ H) as (d0 & H0 & _ & Hs & _).
    eapply sublist_NoDup; [eauto|by apply (fmap_sublist mEvent)].
  - intros l1 d1 e1 l2 d2 e2 H1 He1 H2 He2 E.
    destruct (Hin _ _ H1) as (? & ? & _ & ? & _), (Hin _ _ H2) as (? & ? & _ & ? & _). eapply QA; eauto.
  - intros l' d' e H He. destruct (Hin _ _ H) as (? & ? & _ & ? & _). eapply QF; eauto.
  - intros l' d' H. destruct (Hin _ _ H) as (? & ? & _ & _ & ?). eauto.
Qed.

Lemma shrinks_loop {P : oid -> Prop} w l d dn m :
  loops w !! l = Some d -> mEventQueue dn `sublist_of` mEventQueue d -> core dn = core d -> (forall i, unqueued w i -> m !! i = events w !! i) ->
  (forall i ev, m !! i = Some ev -> events w !! i = Some ev) ->
  (forall e, e ∈ mEventQueue d -> e ∈ mEventQueue dn \/ (m !! mEvent e = None /\ P (mReceiver e))) ->
  shrinks P w (with_events (with_loops w (<[l := dn]> (loops w))) m).
Proof.
  intros Hl Hq Hp Hm Hz Hfr. split; simpl; [intros; eauto 10| | |done|done|done| |done| |done].
  - intros l' d' H. destruct (decide (l' = l)) as [->|]; [rewrite lookup_insert_eq in H|rewrite lookup_insert_ne in H by done];
      simplify_eq; eauto.
  - rewrite dom_insert_L. apply elem_of_dom_2 in Hl. set_solver.
  - intros l' d' e Hl' He. destruct (decide (l' = l)) as [->|]; [|rewrite lookup_insert_ne by done; eauto].
    simplify_eq. destruct (Hfr e He); [left; rewrite lookup_insert_eq; eauto|by right].
  - intros l'. destruct (decide (l' = l)) as [->|]; [by rewrite lookup_insert_eq, Hl; simpl; rewrite Hp|by rewrite lookup_insert_ne].
Qed.

(** The entries of [r] in a queue, and the others. *)
Notation entries_of r := (filter (fun e : EventEntry => mReceiver e = r)).
Notation entries_not r := (filter (fun e : EventEntry => mReceiver e <> r)).

Lemma elem_of_entries r (q : list EventEntry) e : e ∈ q -> e ∈ entries_of r q \/ e ∈ entries_not r q.
Proof. intros. rewrite !list_elem_of_filter. destruct (decide (mReceiver e = r)); auto. Qed.

(** Two entries of the queues with the same event are in the same loop and equal. *)
Lemma same_event w l1 d1 e1 l2 d2 e2 : kernel_ok w ->
  loops w !! l1 = Some d1 -> e1 ∈ mEventQueue d1 -> loops w !! l2 = Some d2 -> e2 ∈ mEventQueue d2 ->
  mEvent e1 = mEvent e2 -> l1 = l2 /\ e1 = e2.
Proof.
  intros K H1 I1 H2 I2 E. assert (l1 = l2) as <- by (eapply (q_apart _ (k_queues _ K)); eauto). split; [done|].
  simplify_eq. pose proof (q_once _ (k_queues _ K) _ _ H1) as N.
  apply list_elem_of_lookup in I1 as [i Hi], I2 as [j Hj].
  assert (i = j) as <- by (eapply (NoDup_lookup _ _ _ (mEvent e1) N); rewrite list_lookup_fmap, ?Hi, ?Hj; simpl; congruence).
  congruence.
Qed.

Lemma remove_pending_of_spec w l d r :
  kernel_ok w -> loops w !! l = Some d ->
  exists m, remove_pending_of w l r = Ret (with_events (with_loops w (<[l := with_queue d (entries_not r (mEventQueue d))]> (loops w))) m) /\
    (forall i, m !! i = if decide (i ∈ mEvent <$> entries_of r (mEventQueue d)) then None else events w !! i) /\
    kernel_ok (with_events (with_loops w (<[l := with_queue d (entries_not r (mEventQueue d))]> (loops w))) m).
Proof.
  intros K Hl. unfold remove_pending_of. rewrite (l_func_ret _ _ _ Hl). simpl. rewrite split_for_spec.
  destruct (delete_events_spec (entries_of r (mEventQueue d)) w) as (m & -> & Hm).
  - eapply sublist_NoDup; [by apply (q_once _ (k_queues _ K) _ _ Hl)|]. apply fmap_sublist, sublist_filter.
  - intros e He. apply list_elem_of_filter in He as [_ He]. by eapply (q_live _ (k_queues _ K)).
  - exists m. cbn [run_bind]. erewrite upd_loop_ret by (simpl; done). split; [done|]. split; [done|].
    eapply kernel_ok_loop; [done|done|apply sublist_filter|done|]. intros l' d' e H He. rewrite Hm.
    rewrite decide_False; [done|]. intros Hin. apply list_elem_of_fmap in Hin as (e' & E & He').
    apply list_elem_of_filter in He' as [Hr He'].
    assert (e ∈ mEventQueue d') by (case_decide; [simplify_eq; by apply list_elem_of_filter in He as [_ ?]|done]).
    destruct (same_event _ _ _ _ _ _ _ K H ltac:(done) Hl He' E) as [-> ->].
    rewrite decide_True in He by done. simpl in He. by apply list_elem_of_filter in He as [? _].
Qed.

(** The purge of an optional loop. *)
Lemma purge_pending_spec {P : oid -> Prop} w loop r :
  P r -> kernel_ok w -> (forall l, loop = Some l -> is_Some (loops w !! l)) ->
  exists w', purge_pending w loop r = Ret w' /\ kernel_ok w' /\ shrinks P w w' /\ objects w' = objects w /\
    (forall l d e, loop = Some l -> loops w' !! l = Some d -> e ∈ mEventQueue d -> mReceiver e <> r).
Proof.
  intros Pr K Hloop. destruct loop as [l|]; [|exists w; split_and!; [done|done|apply shrinks_refl|done|done]].
  destruct (Hloop l eq_refl) as [d Hl]. destruct (remove_pending_of_spec w l d r K Hl) as (m & E & Hm & K').
  eexists. split; [apply E|]. split; [done|]. split.
  { apply shrinks_loop with d; [done|apply sublist_filter|done| | |].
    2: { intros i ev. rewrite Hm. by case_decide. }
    2: { intros e He. destruct (elem_of_entries r _ _ He) as [He'|]; [right|by left]. rewrite Hm, decide_True by by apply list_elem_of_fmap_2.
         apply list_elem_of_filter in He' as [-> _]. done. }
    intros i U. rewrite Hm. apply decide_False. intros Hin. apply list_elem_of_fmap in Hin as (e & -> & He).
    apply list_elem_of_filter in He as [_ He]. by apply (U l d e). }
  split; [done|]. intros l' d' e [= <-] H He. simpl in H. rewrite lookup_insert_eq in H. simplify_eq.
  by apply list_elem_of_filter in He as [? _].
Qed.

(** ** Stopping timers *)
Lemma stop_timers_spec {P : oid -> Prop} o l : forall ids w d, kernel_ok w -> is_Some (loops w !! l) -> objects w !! o = Some d ->
  exists w' d', stop_timers ids w o l = Ret w' /\ kernel_ok w' /\ shrinks P w w' /\ same_objects w w' /\
    objects w' !! o = Some d' /\ mFilters d' = mFilters d /\ mWatching d' = mWatching d.
Proof.
  induction ids as [|id ids IH]; intros w d K [dl Hl] Ho; cbn [stop_timers].
  { exists w, d. split_and!; try done. apply shrinks_refl. }
  unfold stop_timer, upd_dispatcher. rewrite (upd_loop_ret _ _ _ _ Hl). cbn [run_bind].
  set (dn := with_dispatcher dl _). set (w1 := with_loops w (<[l := dn]> (loops w))).
  assert (K1 : kernel_ok w1) by (apply (kernel_ok_loop w l dl dn (events w)); [done..|]; intros; done).
  assert (S1 : shrinks P w w1) by (apply (shrinks_loop w l dl dn (events w)); try done; intros; by left).
  rewrite (upd_object_ret w1 o d _ Ho). cbn [run_bind]. set (d2 := with_timers d _).
  destruct (IH (with_objects w1 (<[o := d2]> (objects w1))) d2) as (w' & d' & -> & K' & S' & D' & Ho' & ? & ?).
  - apply kernel_ok_objects; [done| | |].
    + unfold tview. erewrite view_insert_same by done. apply K.
    + unfold fview. by erewrite view_insert_same by done.
    + unfold aview. by erewrite view_insert_same by done.
  - simpl. rewrite lookup_insert_eq. eauto.
  - simpl. apply lookup_insert_eq.
  - exists w', d'. split; [done|]. split; [done|]. split; [|split; [|done]].
    + eapply shrinks_trans; [apply S1|]. eapply shrinks_trans; [|done]. apply shrinks_objects. intros x dx Hx.
      destruct (decide (x = o)) as [->|]; [rewrite lookup_insert_eq in Hx; simplify_eq; exists d; simpl; auto 10|].
      rewrite lookup_insert_ne in Hx by done. eauto 10.
    + intros x. rewrite (D' x). simpl. rewrite lookup_insert_is_Some. destruct (decide (o = x)) as [<-|]; simpl; [|naive_solver].
      rewrite Ho. naive_solver.
Qed.

(** ** Release: everything [~Object] does before the cascade *)
Lemma kernel_ok_token {P : oid -> Prop} w o d b :
  kernel_ok w -> objects w !! o = Some d ->
  kernel_ok (with_objects w (<[o := with_token d b]> (objects w))) /\
  shrinks P w (with_objects w (<[o := with_token d b]> (objects w))) /\
  same_objects w (with_objects w (<[o := with_token d b]> (objects w))).
Proof.
  intros K Ho. split; [|split].
  - apply kernel_ok_objects; [done| | |].
    + unfold tview. erewrite view_insert_same by done. apply K.
    + unfold fview. by erewrite view_insert_same by done.
    + unfold aview. by erewrite view_insert_same by done.
  - apply shrinks_objects. intros x dx Hx.
    destruct (decide (x = o)) as [->|]; [rewrite lookup_insert_eq in Hx; simplify_eq; exists d; simpl; auto 10|].
    rewrite lookup_insert_ne in Hx by done. eauto 10.
  - intros x. simpl. rewrite lookup_insert_is_Some. destruct (decide (o = x)) as [<-|]; simpl; [|naive_solver].
    rewrite Ho. naive_solver.
Qed.

(** Nothing queued for [r]. *)
Definition no_entries (w : World) (r : oid) : Prop :=
  forall l d e, loops w !! l = Some d -> e ∈ mEventQueue d -> mReceiver e <> r.

Lemma no_entries_shrinks {P : oid -> Prop} w w' r : shrinks P w w' -> no_entries w r -> no_entries w' r.
Proof. intros S N l d e Hl He. destruct (s_queue _ _ _ _ S Hl) as (d0 & H0 & Hs). eapply N; [done|]. by apply Hs. Qed.

Lemma loop_live_shrinks {P : oid -> Prop} w w' l : shrinks P w w' -> is_Some (loops w !! l) -> is_Some (loops w' !! l).
Proof. intros S H. apply elem_of_dom. rewrite (s_loops _ _ _ S). by apply elem_of_dom. Qed.

(** The double purge leaves nothing queued for [o]. *)
Lemma purges_spec {P : oid -> Prop} w o d :
  P o -> kernel_ok w -> objects w !! o = Some d ->
  exists w', (do w <- purge_pending w (mThread d) o; purge_pending w (t_current_loop w) o) = Ret w' /\
    kernel_ok w' /\ shrinks P w w' /\ objects w' = objects w /\ no_entries w' o.
Proof.
  intros Po K Ho. destruct (purge_pending_spec w (mThread d) o Po K) as (w1 & -> & K1 & S1 & E1 & N1).
  { intros l E. by apply (k_thread _ K _ _ _ Ho). }
  cbn [run_bind]. destruct (purge_pending_spec w1 (t_current_loop w1) o Po K1) as (w2 & -> & K2 & S2 & E2 & N2).
  { apply (k_current _ K1). }
  exists w2. split; [done|]. split; [done|]. split; [by eapply shrinks_trans|]. split; [congruence|].
  intros l dl e Hl He Hr. pose proof (q_affine _ (k_queues _ K2) _ _ _ Hl He) as Ha.
  rewrite E2, E1, Hr in Ha. unfold aview in Ha. rewrite lookup_fmap, Ho in Ha. simpl in Ha.
  injection Ha as Ha. destruct (s_queue _ _ _ _ S2 Hl) as (d1 & Hl1 & Hs).
  eapply (N1 l d1 e); [done|done|by apply Hs|done].
Qed.

Lemma release_spec {P : oid -> Prop} w o d :
  P o -> kernel_ok w -> objects w !! o = Some d ->
  exists w' d', release w o = Ret w' /\ kernel_ok w' /\ shrinks P w w' /\ same_objects w w' /\
    objects w' !! o = Some d' /\ mFilters d' = [] /\ mWatching d' = [] /\ no_entries w' o.
Proof.
  intros Po K Ho. unfold release. rewrite (d_func_ret _ _ _ Ho). cbn [run_bind].
  assert (H1 : exists w1 d1, (if bool_decide (is_Some (mAliveToken d)) then upd_object w o (fun d => with_token d (Some false)) else Ret w) = Ret w1 /\
    kernel_ok w1 /\ shrinks P w w1 /\ same_objects w w1 /\ objects w1 !! o = Some d1 /\ mThread d1 = mThread d).
  { case_bool_decide; [|exists w, d; split_and!; try done; apply shrinks_refl].
    rewrite (upd_object_ret _ _ _ _ Ho). destruct (kernel_ok_token (P := P) w o d (Some false) K Ho) as (? & ? & ?).
    eexists _, (with_token d (Some false)). split_and!; try done. simpl. apply lookup_insert_eq. }
  destruct H1 as (w1 & d1 & -> & K1 & S1 & D1 & Ho1 & ET1). cbn [run_bind].
  assert (H2 : exists w2 d2, match mThread d with
      | Some l => if bool_decide (t_current_loop w1 = Some l) then stop_timers (rev (mActiveTimers d)) w1 o l else Ret w1
      | None => Ret w1 end = Ret w2 /\ kernel_ok w2 /\ shrinks P w1 w2 /\ same_objects w1 w2 /\ objects w2 !! o = Some d2).
  { destruct (mThread d) as [l|] eqn:El; [|exists w1, d1; split_and!; try done; apply shrinks_refl].
    case_bool_decide; [|exists w1, d1; split_and!; try done; apply shrinks_refl].
    destruct (stop_timers_spec (P := P) o l (rev (mActiveTimers d)) w1 d1 K1) as (w2 & d2 & ? & ? & ? & ? & ? & _); [|done|by exists w2, d2].
    by apply (k_thread _ K1 _ _ _ Ho1). }
  destruct H2 as (w2 & d2 & -> & K2 & S2 & D2 & Ho2). cbn [run_bind].
  assert (ET2 : mThread d = mThread d2).
  { destruct (s_object _ _ _ S2 _ _ Ho2) as (d1' & ? & _ & E & _). simplify_eq. congruence. }
  rewrite ET2. destruct (purges_spec (P := P) w2 o d2 Po K2 Ho2) as (w3 & E3 & K3 & S3 & O3 & N3).
  destruct (purge_pending w2 (mThread d2) o) as [w2'| | |]; [|done..]. cbn [run_bind] in *. rewrite E3. cbn [run_bind].
  rewrite <- O3 in Ho2. rewrite (d_func_ret _ _ _ Ho2). cbn [run_bind].
  destruct (unwatch_spec (P := P) o _ w3 d2 K3 Ho2 (Nat.lt_succ_diag_r _)) as (w4 & d4 & -> & K4 & S4 & D4 & Ho4 & E4). cbn [run_bind].
  rewrite (d_func_ret _ _ _ Ho4). cbn [run_bind].
  destruct (unfilter_spec (P := P) o _ w4 d4 K4 Ho4 (Nat.lt_succ_diag_r _)) as (w5 & d5 & -> & K5 & S5 & D5 & Ho5 & E5).
  exists w5, d5. split; [done|]. split; [done|].
  split; [exact (shrinks_trans _ _ _ S1 (shrinks_trans _ _ _ S2 (shrinks_trans _ _ _ S3 (shrinks_trans _ _ _ S4 S5))))|].
  split; [|split; [done|split; [done|split]]].
  - intros x. rewrite (D5 x), (D4 x), O3, (D2 x), (D1 x). done.
  - destruct (s_object _ _ _ S5 _ _ Ho5) as (d4' & ? & _ & _ & _ & _ & Hw). simplify_eq. rewrite E4 in Hw.
    by apply list_nil_subseteq in Hw.
  - eapply no_entries_shrinks; [|done]. by eapply shrinks_trans.
Qed.

(** ** Removing the object itself *)
Lemma tree_delete t o : tree_ok t -> t !! o = Some (None, []) -> tree_ok (delete o t).
Proof.
  intros [P C N [rank R]] Ho. split.
  - intros x p l Hx. apply lookup_delete_Some in Hx as [Hne Hx]. destruct (P _ _ _ Hx) as (q & k & Hp & Hin).
    exists q, k. rewrite lookup_delete_ne; [done|]. intros <-. rewrite Ho in Hp. simplify_eq. by apply not_elem_of_nil in Hin.
  - intros p q k c Hp Hc. apply lookup_delete_Some in Hp as [Hne Hp]. destruct (C _ _ _ _ Hp Hc) as [l Hl].
    exists l. rewrite lookup_delete_ne; [done|]. intros <-. congruence.
  - intros p q k Hp. apply lookup_delete_Some in Hp as [_ Hp]. eauto.
  - exists rank. intros x p l Hx. apply lookup_delete_Some in Hx as [_ Hx]. eauto.
Qed.

Lemma filters_delete f o : filters_ok f -> f !! o = Some ([], []) -> filters_ok (delete o f).
Proof.
  intros [I W N] Ho. split.
  - intros y fs ws x Hy Hx. apply lookup_delete_Some in Hy as [Hne Hy]. destruct (I _ _ _ _ Hy Hx) as (? & fs' & ws' & Hx' & Hin).
    split; [done|]. exists fs', ws'. rewrite lookup_delete_ne; [done|]. intros <-. rewrite Ho in Hx'. simplify_eq.
    by apply not_elem_of_nil in Hin.
  - intros y fs ws x Hy Hx. apply lookup_delete_Some in Hy as [Hne Hy]. destruct (W _ _ _ _ Hy Hx) as (fs' & ws' & Hx' & Hin).
    exists fs', ws'. rewrite lookup_delete_ne; [done|]. intros <-. rewrite Ho in Hx'. simplify_eq.
    by apply not_elem_of_nil in Hin.
  - intros y fs ws Hy. apply lookup_delete_Some in Hy as [_ Hy]. eauto.
Qed.

(** The heap after the last step: [o] is out of its parent's children and gone. *)
Definition removed_world (w : World) (o : oid) : World :=
  with_loops (with_objects w (delete o (objects (relinked_world w o None)))) (delete o (loops w)).

Lemma removed_lookup w o x d' : objects (removed_world w o) !! x = Some d' <->
  x <> o /\ exists d, objects w !! x = Some d /\ d' = with_children d (without o (mChildren d)).
Proof.
  simpl. rewrite lookup_delete_Some, map_lookup_imap. split.
  - intros [Hne H]. split; [done|]. destruct (objects w !! x) as [d|]; [|done]. exists d. simplify_eq/=.
    split; [done|]. unfold relinked. simpl_decide. by rewrite app_nil_r.
  - intros [Hne (d & -> & ->)]. split; [done|]. simpl. f_equal. unfold relinked. simpl_decide. by rewrite app_nil_r.
Qed.

Lemma detach_removed w o d :
  kernel_ok w -> objects w !! o = Some d ->
  (do w <- match mParent d with None => Ret w | Some p => detach_child w p o end;
   Ret (with_loops (with_objects w (delete o (objects w))) (delete o (loops w)))) = Ret (removed_world w o).
Proof.
  intros K Ho. destruct (mParent d) as [p|] eqn:Ep.
  - destruct (unlink_step w o d p (k_tree _ K) Ho Ep) as (dp & Hp & Hne & E).
    unfold detach_child. rewrite (upd_object_ret _ _ _ _ Hp). simpl. unfold removed_world. rewrite <- E.
    by rewrite delete_insert_eq.
  - simpl. unfold removed_world. do 3 f_equal. apply map_eq. intros x. simpl.
    destruct (decide (x = o)) as [->|]; [by rewrite !lookup_delete_eq|]. rewrite !lookup_delete_ne, map_lookup_imap by done.
    destruct (objects w !! x) as [dx|] eqn:Ex; [|done]. simpl. rewrite relinked_other; [done..|].
    eapply not_child_elsewhere; [apply K|done|done|congruence].
Qed.

Lemma removed_ok {P : oid -> Prop} w o d :
  kernel_ok w -> objects w !! o = Some d -> mChildren d = [] -> mFilters d = [] -> mWatching d = [] ->
  no_entries w o -> loops w !! o = None -> kernel_ok (removed_world w o) /\ shrinks P w (removed_world w o).
Proof.
  intros K Ho Ec Ef Ew Hn Hl. pose proof (kernel_ok_relinked w o None K ltac:(eauto) ltac:(done)) as K1.
  set (w1 := relinked_world w o None) in *.
  assert (Ho1 : objects w1 !! o = Some (with_parent d None)).
  { simpl. rewrite map_lookup_imap, Ho. simpl. unfold relinked. simpl_decide. rewrite Ec. simpl. by destruct d; simplify_eq/=. }
  split; [destruct K1 as [T F [QL QO QA QF QP] Th C]; split; simpl|].
  - unfold tview. rewrite fmap_delete. apply tree_delete; [done|]. rewrite lookup_fmap. fold w1. change (map_imap _ _) with (objects w1).
    by rewrite Ho1; simpl; rewrite Ec.
  - unfold fview. rewrite fmap_delete. apply filters_delete; [done|]. rewrite lookup_fmap. change (map_imap _ _) with (objects w1).
    by rewrite Ho1; simpl; rewrite Ef, Ew.
  - split; simpl; rewrite ?(delete_id (loops w)) by done; [done..| |done]. intros l dl e Hdl He.
    unfold aview. rewrite fmap_delete, lookup_delete_ne by (intros E; by apply (Hn _ _ _ Hdl He)).
    by apply (QF l dl e).
  - intros x dx l Hx Hm. rewrite delete_id by done. apply lookup_delete_Some in Hx as [_ Hx]. by eapply Th.
  - rewrite delete_id by done. apply C.
  - split; simpl; [| |by rewrite delete_id by done|done|done|done| |done|intros; by rewrite delete_id by done|done].
    + intros x d' Hx. apply (removed_lookup w) in Hx as (_ & dx & Hx & ->). exists dx. simpl.
      split_and!; try done. intros c Hc. by apply list_elem_of_filter in Hc as [_ ?].
    + intros l d' Hd. rewrite delete_id in Hd by done. eauto.
    + intros l d' e Hd He. left. rewrite delete_id by done. eauto.
Qed.

(** ** The cascade *)
Notation tree w := (tview (objects w)).

Lemma parent_shrinks {P : oid -> Prop} w w' x p : shrinks P w w' -> parent_of (tree w') x p -> parent_of (tree w) x p.
Proof.
  intros S [l H]. apply tview_lookup_inv in H as (d' & Hd' & E). simplify_eq.
  destruct (s_object _ _ _ S _ _ Hd') as (d & Hd & Ep & _). exists (mChildren d). rewrite (tview_lookup _ _ _ Hd). congruence.
Qed.

Lemma below_shrinks {P : oid -> Prop} w w' x o : shrinks P w w' -> below (tree w') x o -> below (tree w) x o.
Proof. intros S. apply rtc_subrel. intros y p. by apply (parent_shrinks (P := P)). Qed.

Lemma ranked_shrinks {P : oid -> Prop} w w' rank : shrinks P w w' -> ranked (tree w) rank -> ranked (tree w') rank.
Proof. intros S R x p l H. destruct (parent_shrinks _ _ x p S) as [l' H']; [by eexists|]. by eapply R. Qed.

(** [w'] is [w] without the objects below [c]. *)
Definition removes (w w' : World) (c : oid) : Prop :=
  forall x, is_Some (objects w' !! x) <-> is_Some (objects w !! x) /\ ~ below (tree w) x c.

(** A path that avoids the removed subtree survives. *)
Lemma below_survives {P : oid -> Prop} w w' c x o :
  shrinks P w w' -> removes w w' c -> below (tree w) x o -> ~ below (tree w) x c -> below (tree w') x o.
Proof.
  intros S D B. induction B as [x|x y z Hxy B IH]; intros Hc; [apply rtc_refl|].
  apply rtc_l with y; [|apply IH; intros Hy; apply Hc; by eapply rtc_l].
  destruct Hxy as [l Hl]. apply tview_lookup_inv in Hl as (d & Hd & E). simplify_eq.
  destruct (proj2 (D x)) as [d' Hd']; [split; [eauto|done]|].
  destruct (s_object _ _ _ S _ _ Hd') as (d0 & Hd0 & Ep & _). exists (mChildren d').
  rewrite (tview_lookup _ _ _ Hd'). congruence.
Qed.

(** What deleting [c] is to achieve. *)
Definition deletes (del : World -> oid -> run World) (w : World) (c : oid) : Prop :=
  exists w', del w c = Ret w' /\ kernel_ok w' /\ shrinks (fun x => below (tree w) x c) w w' /\ removes w w' c.

Definition no_loops_below (w : World) (o : oid) : Prop := forall x, below (tree w) x o -> loops w !! x = None.

Lemma no_loops_shrinks {P : oid -> Prop} w w' o : shrinks P w w' -> no_loops_below w o -> no_loops_below w' o.
Proof.
  intros S N x Hx. apply (below_shrinks (P := P) w w') in Hx; [|done]. apply N in Hx.
  apply not_elem_of_dom. rewrite (s_loops _ _ _ S). by apply not_elem_of_dom.
Qed.

Lemma child_below w o d c : kernel_ok w -> objects w !! o = Some d -> c ∈ mChildren d -> parent_of (tree w) c o.
Proof.
  intros K Ho Hc. destruct (t_child _ (k_tree _ K) _ _ _ _ (tview_lookup _ _ _ Ho) Hc) as [l Hl]. by eexists.
Qed.

Lemma not_below_child w o d c : kernel_ok w -> objects w !! o = Some d -> c ∈ mChildren d -> ~ below (tree w) o c.
Proof.
  intros K Ho Hc B. destruct (t_rank _ (k_tree _ K)) as [rank R].
  destruct (child_below _ _ _ _ K Ho Hc) as [l Hl]. pose proof (R _ _ _ Hl). apply (ranked_below _ rank) in B; [lia|done].
Qed.

(** Deleting the first child leaves one child fewer. *)
Lemma cascade_progress {P : oid -> Prop} w w1 o d c :
  kernel_ok w -> objects w !! o = Some d -> c ∈ mChildren d -> kernel_ok w1 -> shrinks P w w1 -> removes w w1 c ->
  exists d1, objects w1 !! o = Some d1 /\ (length (mChildren d1) < length (mChildren d))%nat.
Proof.
  intros K Ho Hc K1 S D. destruct (proj2 (D o)) as [d1 Ho1]; [split; [eauto|by eapply not_below_child]|].
  exists d1. split; [done|]. destruct (s_object _ _ _ S _ _ Ho1) as (d0 & Hd0 & _ & _ & Hk & _). simplify_eq.
  assert (Hnc : c ∉ mChildren d1).
  { intros Hin. destruct (child_below _ _ _ _ K1 Ho1 Hin) as [l Hl].
    destruct (proj1 (D c)) as [_ Hb]; [apply tview_is_Some; eauto|]. apply Hb, rtc_refl. }
  assert (Sub : c :: mChildren d1 ⊆+ mChildren d).
  { apply NoDup_submseteq; [|intros x [->|?]%elem_of_cons; [done|by apply Hk]].
    apply NoDup_cons. split; [done|]. apply (t_nodup _ (k_tree _ K1) _ _ _ (tview_lookup _ _ _ Ho1)). }
  apply submseteq_length in Sub. simpl in Sub. lia.
Qed.

Lemma cascade_spec del rank o : forall fuel w d,
  (forall w' c, kernel_ok w' -> ranked (tree w') rank -> is_Some (objects w' !! c) -> parent_of (tree w') c o ->
     no_loops_below w' c -> deletes del w' c) ->
  kernel_ok w -> ranked (tree w) rank -> no_loops_below w o -> objects w !! o = Some d -> (length (mChildren d) < fuel)%nat ->
  exists w' d', cascade del fuel w o = Ret w' /\ kernel_ok w' /\ shrinks (fun x => below (tree w) x o) w w' /\ objects w' !! o = Some d' /\ mChildren d' = [] /\
    forall x, is_Some (objects w' !! x) <-> is_Some (objects w !! x) /\ (x = o \/ ~ below (tree w) x o).
Proof.
  induction fuel as [|fuel IH]; intros w d Hdel K R NL Ho Hf; [lia|]. cbn [cascade].
  rewrite (d_func_ret _ _ _ Ho). cbn [run_bind]. destruct (mChildren d) as [|c cs] eqn:Ec.
  - exists w, d. split; [done|]. split; [done|]. split; [apply shrinks_refl|]. split; [done|]. split; [done|].
    intros x. split; [|by intros [? _]]. intros Hx. split; [done|]. destruct (decide (x = o)); [by left|right].
    intros B. apply rtc_inv_r in B as [->|(y & _ & [l Hy])]; [done|].
    destruct (t_parent _ (k_tree _ K) _ _ _ Hy) as (q & k & Hq & Hin). rewrite (tview_lookup _ _ _ Ho), Ec in Hq.
    simplify_eq. by apply not_elem_of_nil in Hin.
  - assert (Hc : c ∈ mChildren d) by (rewrite Ec; by left). pose proof (child_below _ _ _ _ K Ho Hc) as Pc.
    destruct (Hdel w c K R) as (w1 & -> & K1 & S1 & D1).
    { destruct Pc as [l Hl]. apply tview_is_Some. eauto. }
    { done. }
    { intros x Hx. apply NL. eapply rtc_r; done. }
    apply (shrinks_mono _ (fun x => below (tree w) x o)) in S1; [|intros x Hx; by eapply rtc_r].
    cbn [run_bind]. destruct (cascade_progress _ _ _ _ _ K Ho Hc K1 S1 D1) as (d1 & Ho1 & Hlt).
    destruct (IH w1 d1) as (w2 & d2 & -> & K2 & S2 & Ho2 & Ec2 & D2); [done|done|by eapply ranked_shrinks|by eapply no_loops_shrinks|done| |].
    { rewrite Ec in Hlt. simpl in *. lia. }
    apply (shrinks_mono _ (fun x => below (tree w) x o)) in S2; [|intros x; by eapply below_shrinks].
    exists w2, d2. split; [done|]. split; [done|]. split; [by eapply shrinks_trans|]. split; [done|]. split; [done|].
    intros x. rewrite (D2 x), (D1 x). split.
    + intros [[Hx Hnc] Hb]. split; [done|]. destruct Hb as [->|Hb]; [by left|right]. intros B. apply Hb. by eapply below_survives.
    + intros [Hx [->|Hb]].
      * split; [split; [done|by eapply not_below_child]|by left].
      * split; [split; [done|intros B; apply Hb; eapply rtc_r; done]|]. right. intros B. apply Hb. by eapply below_shrinks.
Qed.

Lemma delete_object_spec h rank : forall fuel w o,
  kernel_ok w -> ranked (tree w) rank -> (rank o < fuel)%nat -> is_Some (objects w !! o) -> no_loops_below w o ->
  deletes (delete_object h fuel) w o.
Proof.
  induction fuel as [|fuel IH]; intros w o K R Hf [d Ho] NL; [lia|]. unfold deletes. cbn [delete_object].
  rewrite (d_func_ret _ _ _ Ho). cbn [run_bind]. assert (Hl : loops w !! o = None) by apply NL, rtc_refl.
  rewrite Hl, bool_decide_eq_false_2 by (intros [? ?]; done). cbn [run_bind].
  destruct (release_spec (P := fun x => below (tree w) x o) w o d (rtc_refl _ _) K Ho) as (w1 & d1 & -> & K1 & S1 & D1 & Ho1 & Ef & Ew & N1). cbn [run_bind].
  rewrite (d_func_ret _ _ _ Ho1). cbn [run_bind].
  destruct (cascade_spec (delete_object h fuel) rank o (S (length (mChildren d1))) w1 d1) as (w2 & d2 & -> & K2 & S2 & Ho2 & Ec & D2);
    [|done|by eapply ranked_shrinks|by eapply no_loops_shrinks|done|lia|].
  { intros w' c K' R' Hc [l Hp] NL'. apply IH; [done|done| |done|done]. pose proof (R' _ _ _ Hp).
    assert (rank c < rank o)%nat by (by eapply R'). lia. }
  apply (shrinks_mono _ (fun x => below (tree w) x o)) in S2; [|intros x; by eapply below_shrinks].
  cbn [run_bind]. rewrite (d_func_ret _ _ _ Ho2). cbn [run_bind]. rewrite (detach_removed w2 o d2 K2 Ho2).
  destruct (s_object _ _ _ S2 _ _ Ho2) as (d1' & ? & _ & _ & _ & Hf2 & Hw2). simplify_eq. rewrite Ef in Hf2. rewrite Ew in Hw2.
  apply list_nil_subseteq in Hf2, Hw2.
  assert (Hl2 : loops w2 !! o = None).
  { apply not_elem_of_dom. rewrite (s_loops _ _ _ S2), (s_loops _ _ _ S1). by apply not_elem_of_dom. }
  destruct (removed_ok (P := fun x => below (tree w) x o) w2 o d2 K2 Ho2 Ec Hf2 Hw2 (no_entries_shrinks _ _ _ S2 N1) Hl2) as [K3 S3].
  eexists. split; [done|]. split; [done|]. split; [exact (shrinks_trans _ _ _ S1 (shrinks_trans _ _ _ S2 S3))|].
  assert (B1 : forall x, below (tree w1) x o <-> below (tree w) x o).
  { intros x. split; [by eapply below_shrinks|]. intros B. induction B as [x|x y z [l Hxy] B IHB]; [apply rtc_refl|].
    apply rtc_l with y; [|by apply IHB]. apply tview_lookup_inv in Hxy as (dx & Hx & E). simplify_eq.
    destruct (proj2 (D1 x)) as [dx' Hx']; [eauto|]. destruct (s_object _ _ _ S1 _ _ Hx') as (d0 & Hd0 & Ep & _).
    exists (mChildren dx'). rewrite (tview_lookup _ _ _ Hx'). congruence. }
  intros x. assert (Hx3 : is_Some (objects (removed_world w2 o) !! x) <-> x <> o /\ is_Some (objects w2 !! x)).
  { split; [intros [dx H]; apply removed_lookup in H as (? & dx' & ? & _); eauto|].
    intros [? [dx H]]. eexists. apply removed_lookup. eauto. }
  rewrite Hx3, (D2 x), (D1 x), B1. split.
  - intros (? & ? & [->|?]); [done|auto].
  - intros [? Hb]. split; [intros ->; apply Hb, rtc_refl|auto].
Qed.

