(* ===== verification/KernelLoop.v ===== *)
(** * Posting, delivery and the event loop

    Posting keeps the queue sorted by priority and stable; deferred deletes are
    compressed; delivery runs the filter chains newest first; a round of
    [process_events] empties both queues. *)

From stdpp Require Import prelude list numbers gmap strings sets sorting.
From Stdlib Require Import ZArith Lia.
From S2P Require Import Prelude Event Kernel KernelInv ObjectTree KernelDestroy.

#[local] Open Scope Z_scope.
#[local] Open Scope cxx_scope.

(** ** Priority order *)
Definition dispatch_order (a b : EventEntry) : Prop := mPriority b <= mPriority a.
Definition sorted_queue (q : list EventEntry) : Prop := StronglySorted dispatch_order q.

Notation at_least p := (filter (fun e : EventEntry => p <= mPriority e)).
Notation less_than p := (filter (fun e : EventEntry => mPriority e < p)).

Lemma insert_entry_spec q x : sorted_queue q ->
  insert_entry q x = at_least (mPriority x) q ++ x :: less_than (mPriority x) q.
Proof.
  induction 1 as [|e q S IH A]; [done|]. cbn [insert_entry]. case_test.
  - assert (All : Forall (fun y => mPriority y < mPriority x) (e :: q)).
    { constructor; [done|]. eapply Forall_impl; [done|]. intros y Hy. unfold dispatch_order in Hy. lia. }
    rewrite (filter_none _ (e :: q)) by (eapply Forall_impl; [done|]; simpl; lia).
    by rewrite (filter_all _ (e :: q)).
  - rewrite !filter_cons, decide_True, decide_False by lia. by rewrite IH.
Qed.

(** In any queue: behind every entry up to the first of smaller priority. *)
Lemma insert_entry_split q x : exists before after, q = before ++ after /\ insert_entry q x = before ++ x :: after /\
  (forall e, e ∈ before -> mPriority x <= mPriority e) /\ (forall e, head after = Some e -> mPriority e < mPriority x).
Proof.
  induction q as [|e q (p & r & Hq & Hi & Hp & Hr)]; cbn [insert_entry].
  - exists [], []. split_and!; try done. by intros e ?%elem_of_nil.
  - case_test.
    + exists [], (e :: q). split_and!; try done; [by intros ? ?%elem_of_nil|]. by intros ? [= <-].
    + exists (e :: p), r. rewrite Hi. subst q. split_and!; try done. intros y [->|Hy]%elem_of_cons; [done|by apply Hp].
Qed.

Lemma insert_entry_perm q x : insert_entry q x ≡ₚ x :: q.
Proof.
  induction q as [|e q IH]; [done|]. simpl. case_test; [done|]. rewrite IH. apply Permutation_swap.
Qed.

Lemma insert_entry_sorted q x : sorted_queue q -> sorted_queue (insert_entry q x).
Proof.
  induction 1 as [|e q S IH A]; [repeat constructor|]. simpl. case_test.
  - constructor; [by constructor|]. constructor; [unfold dispatch_order; lia|].
    eapply Forall_impl; [done|]. unfold dispatch_order. intros; lia.
  - constructor; [done|]. rewrite insert_entry_perm. constructor; [unfold dispatch_order; lia|done].
Qed.

(** ** Queue of a loop *)
Definition queue_of (w : World) (l : oid) : list EventEntry := match loops w !! l with Some d => mEventQueue d | None => [] end.

(** Enqueuing an event no queue owns, for a receiver of the loop. *)
Lemma kernel_ok_enqueue w l d r i p dn :
  kernel_ok w -> loops w !! l = Some d -> aview (objects w) !! r = Some (Some l) -> is_Some (events w !! i) -> unqueued w i ->
  mEventQueue dn = insert_entry (mEventQueue d) (mkEntry r i p) -> mPostQueue dn = mPostQueue d ->
  kernel_ok (with_loops w (<[l := dn]> (loops w))).
Proof.
  intros [T F [QL QO QA QF QP] Th C] Hl Hr Hi U Eq Ep.
  assert (Hin : forall l' d' e, <[l := dn]> (loops w) !! l' = Some d' -> e ∈ mEventQueue d' ->
    (exists d0, loops w !! l' = Some d0 /\ e ∈ mEventQueue d0) \/ (l' = l /\ e = mkEntry r i p)).
  { intros l' d' e H He. destruct (decide (l' = l)) as [->|]; [rewrite lookup_insert_eq in H|rewrite lookup_insert_ne in H by done; eauto].
    simplify_eq. rewrite Eq, insert_entry_perm in He. apply elem_of_cons in He as [->|He]; eauto. }
  assert (Live : forall l', is_Some (loops w !! l') -> is_Some (<[l := dn]> (loops w) !! l')).
  { intros l'. rewrite lookup_insert_is_Some. destruct (decide (l = l')); eauto. }
  split; simpl; [done|done| |eauto..]. split; simpl.
  - intros l' d' e H He. destruct (Hin _ _ _ H He) as [(d0 & ? & ?)|[-> ->]]; [eauto|done].
  - intros l' d' H. destruct (decide (l' = l)) as [->|]; [rewrite lookup_insert_eq in H|rewrite lookup_insert_ne in H by done; eauto].
    simplify_eq. rewrite Eq, insert_entry_perm. simpl. apply NoDup_cons. split; [|eauto].
    intros Hf. apply list_elem_of_fmap in Hf as (e & E & He). by apply (U l d e).
  - intros l1 d1 e1 l2 d2 e2 H1 He1 H2 He2 E.
    destruct (Hin _ _ _ H1 He1) as [(? & Ha & Hb)|[-> ->]], (Hin _ _ _ H2 He2) as [(? & Hc & Hd)|[-> ->]]; simpl in *; [|..|done].
    + by eapply QA.
    + by destruct (U _ _ _ Ha Hb).
    + by destruct (U _ _ _ Hc Hd).
  - intros l' d' e H He. destruct (Hin _ _ _ H He) as [(d0 & ? & ?)|[-> ->]]; [eauto|done].
  - intros l' d' H. destruct (decide (l' = l)) as [->|]; [rewrite lookup_insert_eq in H|rewrite lookup_insert_ne in H by done; eauto].
    simplify_eq. rewrite Ep. eauto.
Qed.

Definition rung (d : EventLoopPrivate) : EventLoopPrivate :=
  with_dispatcher d (mkDispatcher (timers (mDispatcher d)) (wakeups (mDispatcher d) + 1) (interrupted (mDispatcher d))).

(** The loop after an entry was queued and the bell rung. *)
Definition posted (d : EventLoopPrivate) (x : EventEntry) : EventLoopPrivate :=
  rung (with_queue d (insert_entry (mEventQueue d) x)).

(** C39: [post_event] rejects deferred deletes and receivers without a loop; otherwise
    it queues the event on the receiver's loop behind every entry up to the first of
    smaller priority, and so, in a queue sorted by priority, behind every entry of at
    least its priority and before every entry of smaller priority (FIFO among equals),
    keeping it sorted; it rings the loop's bell, changes nothing else, and keeps the heap
    well-formed. *)
Theorem post_event_correct w r dr i ev p :
  kernel_ok w -> objects w !! r = Some dr -> events w !! i = Some ev -> unqueued w i ->
  match mThread dr with
  | None => post_event w r i p = Fatal
  | Some l =>
    exists d, loops w !! l = Some d /\
    if type ev =? kDeferredDelete then post_event w r i p = Fatal
    else
      post_event w r i p = Ret (with_loops w (<[l := posted d (mkEntry r i p)]> (loops w))) /\
      (exists before after, mEventQueue d = before ++ after /\
        mEventQueue (posted d (mkEntry r i p)) = before ++ mkEntry r i p :: after /\
        (forall e, e ∈ before -> p <= mPriority e) /\ (forall e, head after = Some e -> mPriority e < p)) /\
      (sorted_queue (mEventQueue d) ->
        mEventQueue (posted d (mkEntry r i p)) = at_least p (mEventQueue d) ++ mkEntry r i p :: less_than p (mEventQueue d) /\
        sorted_queue (mEventQueue (posted d (mkEntry r i p)))) /\
      kernel_ok (with_loops w (<[l := posted d (mkEntry r i p)]> (loops w)))
  end.
Proof.
  intros K Hr Hi U. unfold post_event, e_func. rewrite Hi. simpl.
  destruct (mThread dr) as [l|] eqn:El.
  - destruct (k_thread _ K _ _ _ Hr El) as [d Hl]. exists d. split; [done|].
    destruct (type ev =? kDeferredDelete) eqn:Et; simpl; [done|].
    rewrite (d_func_ret _ _ _ Hr). simpl. rewrite El. simpl.
    unfold enqueue_event, l_func, e_func. simpl. rewrite Hl, Hi. simpl. rewrite Et. simpl.
    rewrite (upd_loop_ret _ _ _ _ Hl). simpl. unfold wake_up, upd_dispatcher.
    erewrite upd_loop_ret by (simpl; apply lookup_insert_eq). simpl. unfold with_loops; simpl.
    rewrite insert_insert_eq. split; [done|]. split; [exact (insert_entry_split (mEventQueue d) (mkEntry r i p))|].
    split; [intros Hs; split; [by apply insert_entry_spec|by apply insert_entry_sorted]|]. eapply kernel_ok_enqueue; eauto. by eapply aview_thread.
  - destruct (type ev =? kDeferredDelete); simpl; [done|]. rewrite (d_func_ret _ _ _ Hr). simpl. by rewrite El.
Qed.

(** ** Deferred deletes *)
Definition deferred (w : World) (r : oid) (e : EventEntry) : bool :=
  bool_decide (mReceiver e = r) && match events w !! mEvent e with Some ev => type ev =? kDeferredDelete | None => false end.

(** The queued deferred deletes of [r] on loop [l]. *)
Definition deferred_count (w : World) (l r : oid) : nat := length (filter (fun e => deferred w r e = true) (queue_of w l)).

Lemma has_deferred_delete_spec w r q :
  (forall e, e ∈ q -> is_Some (events w !! mEvent e)) -> has_deferred_delete w q r = Ret (existsb (deferred w r) q).
Proof.
  induction q as [|e q IH]; intros L; [done|]. cbn [has_deferred_delete existsb]. unfold deferred at 1.
  case_bool_decide; simpl.
  - destruct (L e ltac:(by left)) as [ev He]. unfold e_func. rewrite He. simpl. case_test; [done|].
    apply IH. intros; apply L; by right.
  - apply IH. intros; apply L; by right.
Qed.

Lemma existsb_filter {A} (f : A -> bool) (l : list A) :
  (if existsb f l then (0 < length (filter (fun x => f x = true) l))%nat else filter (fun x => f x = true) l = []).
Proof.
  induction l as [|x l IH]; [done|]. cbn [existsb]. rewrite filter_cons. destruct (f x) eqn:E; simpl.
  - lia.
  - destruct (existsb f l); [|done]. done.
Qed.

Lemma deferred_ext w w' r (q : list EventEntry) :
  (forall e, e ∈ q -> events w' !! mEvent e = events w !! mEvent e) ->
  filter (fun e => deferred w' r e = true) q = filter (fun e => deferred w r e = true) q.
Proof.
  induction q as [|e q IH]; intros E; [done|]. rewrite !filter_cons.
  assert (Ed : deferred w' r e = deferred w r e) by (unfold deferred; by rewrite E by by left).
  rewrite IH by (intros; apply E; by right). by rewrite Ed.
Qed.

Lemma unqueued_fresh w i : kernel_ok w -> events w !! i = None -> unqueued w i.
Proof. intros K Hi l d e Hl He E. destruct (q_live _ (k_queues _ K) _ _ _ Hl He) as [ev H]. congruence. Qed.

(** The heap with the new event of [delete_later]. *)
Definition with_deferred (w : World) (i : eid) : World := with_events w (<[i := make_deferred_delete_event]> (events w)).

Lemma kernel_ok_fresh_event w i ev : kernel_ok w -> events w !! i = None -> kernel_ok (with_events w (<[i := ev]> (events w))).
Proof.
  intros [T F [QL QO QA QF QP] Th C] Hi. split; simpl; try done. split; simpl; try done.
  intros l d e Hl He. destruct (QL _ _ _ Hl He). rewrite lookup_insert_is_Some. destruct (decide (i = mEvent e)); eauto.
Qed.

(** [delete_later] of an object with a loop queues one deferred delete with default
    priority and rings the bell; when one is already queued the new event is
    released again and the queue is left as it is.  Either way exactly one is
    queued afterwards and the heap stays well-formed; an object with no loop, on a
    thread with none, is fatal. *)
Theorem delete_later_correct w o d i :
  kernel_ok w -> objects w !! o = Some d -> events w !! i = None ->
  match mThread d with
  | None => t_current_loop w = None -> delete_later w o i = Fatal
  | Some l =>
    exists dl w', loops w !! l = Some dl /\ delete_later w o i = Ret w' /\ kernel_ok w' /\
      w' = (if existsb (deferred w o) (mEventQueue dl) then with_loops w (<[l := rung dl]> (loops w))
            else with_loops (with_deferred w i) (<[l := posted dl (mkEntry o i 0)]> (loops w))) /\
      ((deferred_count w l o <= 1)%nat -> deferred_count w' l o = 1%nat)
  end.
Proof.
  intros K Ho Hi. unfold delete_later. rewrite (d_func_ret _ _ _ Ho). cbn [run_bind].
  destruct (mThread d) as [l|] eqn:El; [|intros ->; done].
  destruct (k_thread _ K _ _ _ Ho El) as [dl Hl]. cbn [run_bind check].
  rewrite bool_decide_eq_true_2 by eauto. cbn [run_bind]. unfold enqueue_event, l_func, e_func. simpl.
  rewrite Hl. simpl. rewrite lookup_insert_eq. simpl. fold (with_deferred w i).
  pose proof (unqueued_fresh _ _ K Hi) as U.
  assert (Eev : forall e, e ∈ mEventQueue dl -> events (with_deferred w i) !! mEvent e = events w !! mEvent e).
  { intros e He. simpl. apply lookup_insert_ne. intros E. by apply (U l dl e). }
  assert (Ex : existsb (deferred (with_deferred w i) o) (mEventQueue dl) = existsb (deferred w o) (mEventQueue dl)).
  { clear -Eev. induction (mEventQueue dl) as [|e q IH]; [done|]. simpl. rewrite IH by (intros; apply Eev; by right).
    f_equal. unfold deferred. by rewrite Eev by by left. }
  rewrite has_deferred_delete_spec by (intros e He; rewrite Eev by done; by eapply (q_live _ (k_queues _ K))).
  rewrite Ex. cbn [run_bind]. pose proof (existsb_filter (deferred w o) (mEventQueue dl)) as F.
  destruct (existsb (deferred w o) (mEventQueue dl)) eqn:Ee.
  - unfold delete_event, e_func. simpl. rewrite lookup_insert_eq. simpl. rewrite delete_insert_id by done.
    unfold wake_up, upd_dispatcher. erewrite upd_loop_ret by done.
    exists dl, (with_loops w (<[l := rung dl]> (loops w))). split; [done|]. split; [by destruct w|].
    split; [|split; [by rewrite Ee|]].
    + apply (kernel_ok_loop w l dl (rung dl) (events w)); done.
    + unfold deferred_count, queue_of. simpl. rewrite lookup_insert_eq, Hl. simpl.
      rewrite (deferred_ext w (with_loops w (<[l := rung dl]> (loops w)))) by done. lia.
  - rewrite (upd_loop_ret _ _ dl) by done. cbn [run_bind]. unfold wake_up, upd_dispatcher.
    erewrite upd_loop_ret by (simpl; apply lookup_insert_eq). simpl. rewrite insert_insert_eq.
    eexists dl, _. split; [done|]. split; [done|]. split; [|split; [by rewrite Ee|]].
    + assert (K1 : kernel_ok (with_deferred w i)) by by apply kernel_ok_fresh_event.
      change (kernel_ok (with_loops (with_deferred w i) (<[l := posted dl (mkEntry o i 0)]> (loops (with_deferred w i))))).
      eapply (kernel_ok_enqueue (with_deferred w i) l dl o i 0); [done|done|by eapply aview_thread| |done|done|done].
      simpl. rewrite lookup_insert_eq. eauto.
    + intros _. unfold deferred_count, queue_of. simpl. rewrite lookup_insert_eq. simpl.
      rewrite insert_entry_perm, filter_cons, decide_True.
      * simpl. f_equal. rewrite (deferred_ext w _ o (mEventQueue dl)) by (intros; by apply Eev). by rewrite F.
      * unfold deferred. simpl. by rewrite bool_decide_eq_true_2, lookup_insert_eq by done.
Qed.

(** ** Delivery *)
Section Delivery.
Context (h : hooks) (step : oid -> oid -> Event -> Event * bool).

(** Filters that read and change the event only. *)
Definition pure_filters : Prop := forall f r e w, h_event_filter h f r e w = Ret (w, (step f r e).1, (step f r e).2).

(** The abstract chain: the filters in the given order, until one intercepts. *)
Fixpoint chain (r : oid) (fs : list oid) (e : Event) : Event * bool :=
  match fs with
  | [] => (e, false)
  | f :: fs => let (e', stop) := step f r e in if stop then (e', true) else chain r fs e'
  end.

Lemma chain_app r fs1 fs2 e :
  chain r (fs1 ++ fs2) e = let (e', stop) := chain r fs1 e in if stop then (e', true) else chain r fs2 e'.
Proof.
  revert e. induction fs1 as [|f fs1 IH]; intros e; [done|]. simpl. destruct (step f r e) as [e' []]; [done|]. apply IH.
Qed.

Lemma run_filters_chain w owner d r : pure_filters -> kernel_ok w -> objects w !! owner = Some d ->
  forall i e, (i <= length (mFilters d))%nat ->
  run_filters h i w owner r e = Ret (w, (chain r (rev (take i (mFilters d))) e).1, (chain r (rev (take i (mFilters d))) e).2).
Proof.
  intros P K Hd. induction i as [|i IH]; intros e Hi; [by rewrite take_0|]. cbn [run_filters].
  rewrite (d_func_ret _ _ _ Hd). cbn [run_bind]. destruct (lookup_lt_is_Some_2 (mFilters d) i) as [x Hx]; [lia|].
  rewrite Hx. cbn [run_bind deref]. destruct (filter_live _ _ _ x K Hd) as [[dx Hdx] _]; [by eapply list_elem_of_lookup_2|].
  rewrite (d_func_ret _ _ _ Hdx). cbn [run_bind]. rewrite (P x r e w). cbn [run_bind].
  rewrite (take_S_r _ _ _ Hx), rev_app_distr. simpl. destruct (step x r e) as [e' []]; [done|]. simpl. apply IH. lia.
Qed.

(** The filters of the application object, when there is one. *)
Definition app_filters (w : World) : list oid :=
  match s_instance w with Some a => match objects w !! a with Some d => mFilters d | None => [] end | None => [] end.

Lemma send_event_chain fuel w r d e :
  pure_filters -> kernel_ok w -> objects w !! r = Some d -> (forall a, s_instance w = Some a -> is_Some (objects w !! a)) ->
  send_event h fuel w r e =
    (let (e', stop) := chain r (rev (app_filters w) ++ rev (mFilters d)) e in
     if stop then Ret (w, false)
     else do (w', e'', _) <- object_event h fuel (note w (Delivered r e')) r e'; Ret (w', is_accepted e'')).
Proof.
  intros P K Hr Ha. unfold send_event, send_event_with, send_event_internal.
  assert (E : (match s_instance w with
    | None => Ret (w, e, false)
    | Some a => do d <- d_func w a; run_filters h (length (mFilters d)) w a r e
    end) = Ret (w, (chain r (rev (app_filters w)) e).1, (chain r (rev (app_filters w)) e).2)).
  { unfold app_filters. destruct (s_instance w) as [a|]; [|done]. destruct (Ha a eq_refl) as [da Hda].
    rewrite (d_func_ret _ _ _ Hda). cbn [run_bind]. rewrite Hda.
    rewrite (run_filters_chain w a da r P K Hda) by lia. by rewrite take_ge by lia. }
  rewrite E. cbn [run_bind]. rewrite chain_app. destruct (chain r (rev (app_filters w)) e) as [e1 []]; [done|]. simpl.
  rewrite (d_func_ret _ _ _ Hr). cbn [run_bind]. rewrite (run_filters_chain w r d r P K Hr) by lia.
  rewrite take_ge by lia. cbn [run_bind]. by destruct (chain r (rev (mFilters d)) e1) as [e2 []].
Qed.

End Delivery.

(** Delivery consults the application's filters and then the receiver's own, each
    newest first, every filter seeing the event as the previous ones left it; the
    first that intercepts ends the delivery with [false]; otherwise the receiver's
    [event] runs and the result is whether it accepted the event. *)
Theorem send_event_correct h step fuel w r d e :
  pure_filters h step -> kernel_ok w -> objects w !! r = Some d -> (forall a, s_instance w = Some a -> is_Some (objects w !! a)) ->
  send_event h fuel w r e =
    (let (e', stop) := chain step r (rev (app_filters w) ++ rev (mFilters d)) e in
     if stop then Ret (w, false)
     else do (w', e'', _) <- object_event h fuel (note w (Delivered r e')) r e'; Ret (w', is_accepted e'')).
Proof. apply send_event_chain. Qed.

(** ** Draining *)

(** The receivers of a loop's queue own no event loop. *)
Definition no_loop_receivers (w : World) (l : oid) : Prop := forall e, e ∈ queue_of w l -> no_loops_below w (mReceiver e).

(** Delivery to a live receiver, with quiet hooks. *)
Lemma object_event_spec h `{!Quiet h} fuel w r e :
  kernel_ok w -> is_Some (objects w !! r) -> no_loops_below w r -> (size (objects w) <= fuel)%nat ->
  exists w' e' b, object_event h fuel w r e = Ret (w', e', b) /\ kernel_ok w' /\ shrinks (fun x => objects w' !! x = None) w w' /\
    (forall x, is_Some (objects w !! x) -> ~ below (tree w) x r -> is_Some (objects w' !! x)) /\
    (if type e =? kDeferredDelete then forall x, is_Some (objects w' !! x) <-> is_Some (objects w !! x) /\ ~ below (tree w) x r
     else objects w' = objects w).
Proof.
  intros K Hr NL Hf. unfold object_event. case_test.
  - destruct (tree_rank _ (k_tree _ K)) as (rank & R & B).
    destruct (delete_object_spec h rank fuel w r K R) as (w' & -> & K' & S & D); [|done|done|].
    + assert (rank r < size (tree w))%nat by (apply B; by apply tview_is_Some). unfold tview in *. rewrite map_size_fmap in *. lia.
    + simpl. exists w', e, true. split; [done|]. split; [done|].
      split; [eapply shrinks_mono; [|done]; intros x Hx; apply eq_None_not_Some; by intros [_ ?]%D|].
      split; [intros x ??; by apply D|done].
  - assert (Hl : loops w !! r = None) by apply NL, rtc_refl.
    assert (exists e' b, handle_event h w r e = Ret (w, e', b)) as (e' & b & ->).
    { destruct (decide (type e = kQuit)) as [Eq|]; [|by apply handle_event_quiet].
      unfold handle_event. rewrite Eq. simpl. rewrite Hl, bool_decide_eq_false_2 by (intros [? ?]; done). simpl. eauto. }
    exists w, e', b. split; [done|]. split; [done|]. split; [apply shrinks_refl|]. done.
Qed.

(** What the heap loses while the history grows. *)
Definition shrank (P : oid -> Prop) (w w' : World) : Prop := shrinks P (with_history w (history w')) w'.

Lemma kernel_ok_history w x : kernel_ok w -> kernel_ok (with_history w x).
Proof. by intros [T F [QL QO QA QF QP] Th C]. Qed.

Lemma shrinks_history {P : oid -> Prop} w w' x : shrinks P w w' -> shrinks P (with_history w x) (with_history w' x).
Proof. by intros [? ? ? ? ? ? ? ? ? ?]. Qed.

Lemma shrinks_shrank {P : oid -> Prop} w w' : shrinks P w w' -> shrank P w w'.
Proof. intros S. unfold shrank. rewrite (s_history _ _ _ S). by destruct w. Qed.

Lemma shrank_trans {P : oid -> Prop} w1 w2 w3 : shrank P w1 w2 -> shrank P w2 w3 -> shrank P w1 w3.
Proof. intros S1 S2. eapply shrinks_trans; [|exact S2]. exact (shrinks_history _ _ (history w3) S1). Qed.

Lemma shrank_refl {P : oid -> Prop} w : shrank P w w.
Proof. apply shrinks_shrank, shrinks_refl. Qed.

(** Filters that let everything pass. *)
Definition no_filter (h : hooks) : Prop := forall f x e w, h_event_filter h f x e w = Ret (w, e, false).

Lemma no_filter_run h i w owner x e0 w1 e1 b : no_filter h -> run_filters h i w owner x e0 = Ret (w1, e1, b) -> e1 = e0 /\ b = false.
Proof.
  intros Hh. revert e0. induction i as [|i IH]; intros e0; simpl; [by intros [= _ <- <-]|].
  destruct (d_func w owner) as [dd| | |]; [|done..]. simpl. destruct (mFilters dd !! i) as [f|]; [|done]. simpl.
  destruct (d_func w f); [|done..]. simpl. rewrite Hh. simpl. apply IH.
Qed.

(** The application's filters, when there is one. *)
Lemma app_filters_quiet h `{!Quiet h} w r e :
  kernel_ok w -> (forall a, s_instance w = Some a -> is_Some (objects w !! a)) ->
  exists e1 b1, (match s_instance w with
    | None => Ret (w, e, false)
    | Some a => do d <- d_func w a; run_filters h (length (mFilters d)) w a r e
    end) = Ret (w, e1, b1) /\ (no_filter h -> e1 = e /\ b1 = false).
Proof.
  intros K Ha. destruct (s_instance w) as [a|]; [|by exists e, false]. destruct (Ha a eq_refl) as [da Hda].
  rewrite (d_func_ret _ _ _ Hda). cbn [run_bind].
  destruct (run_filters_quiet h w a da r (length (mFilters da)) e) as (e1 & b1 & E); [done| |lia|].
  - intros x Hx. by destruct (filter_live _ _ _ _ K Hda Hx).
  - exists e1, b1. split; [done|]. intros Hh. by apply (no_filter_run h _ _ _ _ _ _ _ _ Hh E).
Qed.

(** Sending to a live receiver: unless a filter intercepts, its [event] is called once,
    with the event sent, and only a deferred delete takes objects away. *)
Lemma send_event_spec h `{!Quiet h} fuel w r e :
  kernel_ok w -> is_Some (objects w !! r) -> no_loops_below w r -> (size (objects w) <= fuel)%nat ->
  (forall a, s_instance w = Some a -> is_Some (objects w !! a)) ->
  exists w' b, send_event h fuel w r e = Ret (w', b) /\ kernel_ok w' /\ shrank (fun x => objects w' !! x = None) w w' /\
    (forall x, is_Some (objects w !! x) -> ~ below (tree w) x r -> is_Some (objects w' !! x)) /\
    (no_filter h -> history w' = history w ++ [Delivered r e] /\
      if type e =? kDeferredDelete then forall x, is_Some (objects w' !! x) <-> is_Some (objects w !! x) /\ ~ below (tree w) x r
      else objects w' = objects w).
Proof.
  intros K [d Hr] NL Hf Ha. unfold send_event, send_event_with, send_event_internal.
  destruct (app_filters_quiet h w r e K Ha) as (e1 & b1 & -> & F1). cbn [run_bind]. destruct b1.
  { exists w, false. split_and!; [done|done|apply shrank_refl|done|]. intros Hh. by destruct (F1 Hh). }
  rewrite (d_func_ret _ _ _ Hr). cbn [run_bind].
  destruct (run_filters_quiet h w r d r (length (mFilters d)) e1) as (e2 & b2 & E2); [done| |lia|].
  { intros x Hx. by destruct (filter_live _ _ _ _ K Hr Hx). }
  rewrite E2. cbn [run_bind]. destruct b2.
  { exists w, false. split_and!; [done|done|apply shrank_refl|done|]. intros Hh. by destruct (no_filter_run h _ _ _ _ _ _ _ _ Hh E2). }
  destruct (object_event_spec h fuel (note w (Delivered r e2)) r e2) as (w' & e3 & b3 & -> & K' & S & L & D);
    [by apply kernel_ok_history|simpl; eauto|done|done|].
  cbn [run_bind]. exists w', (is_accepted e3). split; [done|]. split; [done|].
  pose proof (s_history _ _ _ S) as Hh. split; [unfold shrank; rewrite Hh; exact S|]. split; [exact L|]. intros Hno.
  destruct (F1 Hno) as [-> _]. destruct (no_filter_run h _ _ _ _ _ _ _ _ Hno E2) as [-> _]. split; [exact Hh|exact D].
Qed.

(** The application object is alive and not below a receiver of the queue. *)
Definition app_safe (w : World) (l : oid) : Prop :=
  forall a, s_instance w = Some a -> is_Some (objects w !! a) /\ forall e, e ∈ queue_of w l -> ~ below (tree w) a (mReceiver e).

Lemma queue_of_lookup w l d : loops w !! l = Some d -> queue_of w l = mEventQueue d.
Proof. intros H. unfold queue_of. by rewrite H. Qed.

Lemma queue_of_shrinks {P : oid -> Prop} w w' l : shrinks P w w' -> queue_of w' l `sublist_of` queue_of w l.
Proof.
  intros S. unfold queue_of at 1. destruct (loops w' !! l) as [d'|] eqn:H; [|apply sublist_nil_l].
  destruct (s_loop _ _ _ S _ _ H) as (d & Hd & Hs). by rewrite (queue_of_lookup _ _ _ Hd).
Qed.

Lemma queue_receiver w l e : kernel_ok w -> e ∈ queue_of w l -> is_Some (objects w !! mReceiver e) /\ is_Some (events w !! mEvent e).
Proof.
  intros K He. unfold queue_of in He. destruct (loops w !! l) as [d|] eqn:H; [|by apply not_elem_of_nil in He].
  destruct (aview_thread_inv _ _ _ (q_affine _ (k_queues _ K) _ _ _ H He)) as (dr & ? & _).
  split; [by eexists|by apply (q_live _ (k_queues _ K) _ _ _ H He)].
Qed.

Lemma queue_nodup w l : kernel_ok w -> NoDup (mEvent <$> queue_of w l).
Proof.
  intros K. unfold queue_of. destruct (loops w !! l) as [d|] eqn:H; [|constructor]. by apply (q_once _ (k_queues _ K) _ _ H).
Qed.

(** One dispatch: the head entry is popped, delivered and its event released. *)
Definition dispatch_one (h : hooks) (fuel : nat) (w : World) (l : oid) (d : EventLoopPrivate) (x : EventEntry) (q : list EventEntry) : run World :=
  let w := with_loops w (<[l := with_queue d q]> (loops w)) in
  do ev <- e_func w (mEvent x);
  do (w, _) <- send_event h fuel w (mReceiver x) ev;
  delete_event w (mEvent x).

Definition popped (w : World) (l : oid) (d : EventLoopPrivate) (q : list EventEntry) : World :=
  with_loops w (<[l := with_queue d q]> (loops w)).

Lemma popped_spec w l d x q :
  kernel_ok w -> loops w !! l = Some d -> mEventQueue d = x :: q ->
  kernel_ok (popped w l d q) /\ unqueued (popped w l d q) (mEvent x) /\ queue_of (popped w l d q) l = q.
Proof.
  intros K Hl Eq. assert (Hx : x ∈ mEventQueue d) by (rewrite Eq; by left).
  split; [|split; [|unfold queue_of, popped; simpl; by rewrite lookup_insert_eq]].
  - apply (kernel_ok_loop w l d (with_queue d q) (events w)); try done. simpl. rewrite Eq. by apply sublist_cons.
  - intros l' d' e H He E. simpl in H. pose proof (q_once _ (k_queues _ K) _ _ Hl) as N. rewrite Eq in N. apply NoDup_cons in N as [N _].
    destruct (decide (l' = l)) as [->|]; [rewrite lookup_insert_eq in H|rewrite lookup_insert_ne in H by done]; simplify_eq.
    + apply N. rewrite <- E. by apply list_elem_of_fmap_2.
    + by destruct (same_event _ _ _ _ _ _ _ K H He Hl Hx E).
Qed.

(** Releasing an event no queue owns. *)
Lemma kernel_ok_release w i : kernel_ok w -> unqueued w i -> kernel_ok (with_events w (delete i (events w))).
Proof.
  intros [T F [QL QO QA QF QP] Th C] U. split; simpl; try done. split; simpl; try done.
  intros l d e Hl He. rewrite lookup_delete_ne; [eauto|]. intros E. by apply (U l d e).
Qed.

(** Popping, delivering and releasing together shrink the heap. *)
Lemma shrinks_dispatch {P : oid -> Prop} w l d x q w2 :
  kernel_ok w -> loops w !! l = Some d -> mEventQueue d = x :: q -> shrank P (popped w l d q) w2 ->
  shrank (fun _ => True) w (with_events w2 (delete (mEvent x) (events w2))).
Proof.
  intros K Hl Eq [O L D C E Z Fr I Po Hh]. assert (Hx : x ∈ mEventQueue d) by (rewrite Eq; by left).
  assert (Hp : forall l' d', loops (popped w l d q) !! l' = Some d' ->
    exists d0, loops w !! l' = Some d0 /\ mEventQueue d' `sublist_of` mEventQueue d0).
  { intros l' d' H. simpl in H.
    destruct (decide (l' = l)) as [->|]; [rewrite lookup_insert_eq in H|rewrite lookup_insert_ne in H by done]; simplify_eq; eauto.
    exists d. split; [done|]. simpl. rewrite Eq. by apply sublist_cons. }
  split; simpl; [done| | |done| | | |done| |done].
  - intros l' d' H. destruct (L _ _ H) as (d0 & H0 & Hs). destruct (Hp _ _ H0) as (d1 & H1 & Hs1). exists d1. split; [done|]. by etrans.
  - rewrite D. simpl. rewrite dom_insert_L. apply elem_of_dom_2 in Hl. set_solver.
  - intros i U. rewrite lookup_delete_ne by (intros <-; by apply (U l d x)). apply E.
    intros l' d' e H He. destruct (Hp _ _ H) as (d1 & H1 & Hs1). apply (U l' d1); [done|by eapply elem_of_sublist].
  - intros i ev [_ Hi]%lookup_delete_Some. by apply Z.
  - intros l' d' e H He. destruct (decide (mEvent e = mEvent x)) as [->|Hne]; [right; split; [apply lookup_delete_eq|done]|].
    assert (Hin : exists d1, loops (popped w l d q) !! l' = Some d1 /\ e ∈ mEventQueue d1).
    { simpl. destruct (decide (l' = l)) as [->|]; [rewrite lookup_insert_eq|rewrite lookup_insert_ne by done; eauto].
      simplify_eq. eexists. split; [done|]. simpl. rewrite Eq in He. by apply elem_of_cons in He as [->|?]. }
    destruct Hin as (d1 & H1 & He1). destruct (Fr l' d1 e H1 He1) as [?|[Hn _]]; [by left|right].
    by rewrite lookup_delete_ne.
  - intros l'. rewrite Po. simpl. destruct (decide (l' = l)) as [->|]; [by rewrite lookup_insert_eq, Hl|by rewrite lookup_insert_ne].
Qed.

(** The event of a queued entry is delivered to its receiver. *)
Definition delivery (w : World) (e : EventEntry) : option action := Delivered (mReceiver e) <$> events w !! mEvent e.

Lemma dispatch_one_spec h `{!Quiet h} fuel w l d x q :
  kernel_ok w -> loops w !! l = Some d -> mEventQueue d = x :: q -> no_loop_receivers w l -> app_safe w l ->
  (size (objects w) <= fuel)%nat ->
  exists w', dispatch_one h fuel w l d x q = Ret w' /\ kernel_ok w' /\ shrank (fun _ => True) w w' /\ queue_of w' l `sublist_of` q /\
    app_safe w' l /\ (forall e, e ∈ q -> e ∈ queue_of w' l \/ objects w' !! mReceiver e = None) /\
    (no_filter h -> history w' = history w ++ option_list (delivery w x) /\
      if deferred w (mReceiver x) x then forall y, is_Some (objects w' !! y) <-> is_Some (objects w !! y) /\ ~ below (tree w) y (mReceiver x)
      else objects w' = objects w).
Proof.
  intros K Hl Eq NL A Hf. destruct (popped_spec w l d x q K Hl Eq) as (K1 & U1 & Q1).
  assert (Hx : x ∈ mEventQueue d) by (rewrite Eq; by left). pose proof (queue_of_lookup _ _ _ Hl) as Q0.
  destruct (q_live _ (k_queues _ K) _ _ _ Hl Hx) as [ev Hev].
  unfold dispatch_one. cbv zeta. fold (popped w l d q). unfold e_func.
  change (events (popped w l d q)) with (events w). rewrite Hev. cbn [run_bind deref].
  destruct (send_event_spec h fuel (popped w l d q) (mReceiver x) ev K1) as (w2 & b & -> & K2 & S2 & L2 & D2).
  { destruct (aview_thread_inv _ _ _ (q_affine _ (k_queues _ K) _ _ _ Hl Hx)) as (dr & ? & _). eauto. }
  { intros y Hy. pose proof (NL x ltac:(by rewrite Q0) y Hy). simpl.
    rewrite lookup_insert_ne; [done|]. intros <-. congruence. }
  { done. }
  { intros a Ha. by apply (A a Ha). }
  cbn [run_bind]. unfold delete_event, e_func. rewrite (s_event _ _ _ S2) by done. simpl. rewrite Hev. cbn [run_bind].
  assert (S3 : shrank (fun _ => True) w (with_events w2 (delete (mEvent x) (events w2)))) by by eapply shrinks_dispatch.
  assert (Q3 : queue_of w2 l `sublist_of` q) by (rewrite <- Q1; exact (queue_of_shrinks _ _ l S2)).
  eexists. split; [done|]. split.
  { apply kernel_ok_release; [done|]. intros l' d' e H He. destruct (s_queue _ _ _ _ S2 H) as (d0 & H0 & Hs).
    apply (U1 l' d0); [done|by apply Hs]. }
  split; [done|]. split; [done|]. split; [|split].
  - intros a Ha. simpl in Ha. rewrite (s_instance_same _ _ _ S2) in Ha. destruct (A a Ha) as [La Hb]. split.
    + simpl. apply L2; [done|]. apply (Hb x). by rewrite Q0.
    + intros e He B. apply (below_shrinks _ _ _ _ S3) in B. apply (Hb e); [|exact B].
      rewrite Q0, Eq. right. by eapply elem_of_sublist.
  - intros e He. destruct (s_freed _ _ _ S2 l (with_queue d q) e) as [(d' & H' & He')|[_ Hd]];
      [simpl; apply lookup_insert_eq|done| |by right]. left. unfold queue_of. simpl. by rewrite H'.
  - intros Hh. destruct (D2 Hh) as [Eh Ho]. unfold delivery, deferred. rewrite Hev, bool_decide_eq_true_2 by done. by split.
Qed.

Lemma no_loop_receivers_shrinks {P : oid -> Prop} w w' l : shrinks P w w' -> no_loop_receivers w l -> no_loop_receivers w' l.
Proof. intros S N e He. eapply no_loops_shrinks; [done|]. apply N. eapply elem_of_sublist; [exact He|]. by eapply queue_of_shrinks. Qed.

Lemma dead_shrinks {P : oid -> Prop} w w' x : shrinks P w w' -> objects w !! x = None -> objects w' !! x = None.
Proof. intros S H. destruct (objects w' !! x) as [d|] eqn:E; [|done]. destruct (s_object _ _ _ S _ _ E) as (d0 & ? & _). congruence. Qed.

Lemma size_shrinks {P : oid -> Prop} w w' : shrinks P w w' -> (size (objects w') <= size (objects w))%nat.
Proof.
  intros S. rewrite <- !size_dom. apply subseteq_size. intros y [dy Hy]%elem_of_dom. apply elem_of_dom.
  destruct (s_object _ _ _ S _ _ Hy) as (d0 & ? & _). eauto.
Qed.

(** One turn of the drain with an entry in the queue. *)
Lemma drain_turn h `{!Quiet h} fuel w l d x q had :
  kernel_ok w -> loops w !! l = Some d -> mEventQueue d = x :: q -> no_loop_receivers w l -> app_safe w l ->
  (size (objects w) <= S fuel)%nat ->
  exists w1, drain_events h (S fuel) w l had = drain_events h fuel w1 l true /\ dispatch_one h (S fuel) w l d x q = Ret w1.
Proof.
  intros K Hl Eq NL A Hf. destruct (dispatch_one_spec h (S fuel) w l d x q K Hl Eq NL A Hf) as (w1 & E & _).
  exists w1. split; [|done]. cbn [drain_events]. unfold pop_event_entry. rewrite (l_func_ret _ _ _ Hl). cbn [run_bind]. rewrite Eq.
  rewrite (upd_loop_ret _ _ _ _ Hl). simpl. unfold dispatch_one in E.
  destruct (e_func _ (mEvent x)) as [ev| | |]; [|done..]. cbn [run_bind] in *.
  destruct (send_event h (S fuel) _ (mReceiver x) ev) as [[ws bs]| | |]; [|done..]. cbn [run_bind] in *. by rewrite E.
Qed.

(** What the drain of a queue needs, kept by its turns. *)
Record drainable (l : oid) (fuel : nat) (w : World) : Prop := {
  dr_ok : kernel_ok w;
  dr_live : is_Some (loops w !! l);
  dr_receivers : no_loop_receivers w l;
  dr_app : app_safe w l;
  dr_fuel : (size (objects w) + length (queue_of w l) < fuel)%nat
}.

Lemma drainable_turn h `{!Quiet h} fuel w l d x q w1 :
  drainable l (S fuel) w -> loops w !! l = Some d -> mEventQueue d = x :: q -> dispatch_one h (S fuel) w l d x q = Ret w1 ->
  drainable l fuel w1.
Proof.
  intros [K Ll NL A Hf] Hl Eq E. destruct (dispatch_one_spec h (S fuel) w l d x q K Hl Eq NL A ltac:(lia)) as (w1' & E' & K1 & S1 & Q1 & A1 & _).
  rewrite E in E'. injection E' as <-. split; [done|exact (loop_live_shrinks _ _ l S1 Ll)|exact (no_loop_receivers_shrinks _ _ l S1 NL)|done|].
  pose proof (size_shrinks _ _ S1) as Hs. simpl in Hs. apply sublist_length in Q1.
  rewrite (queue_of_lookup _ _ _ Hl), Eq in Hf. simpl in Hf. lia.
Qed.

(** The drain of the event queue. *)
Lemma drain_events_spec h `{!Quiet h} l : forall fuel w had, drainable l fuel w ->
  exists w', drain_events h fuel w l had = Ret (w', had || negb (bool_decide (queue_of w l = []))) /\
    kernel_ok w' /\ shrank (fun _ => True) w w' /\ queue_of w' l = [].
Proof.
  induction fuel as [|fuel IH]; intros w had D; [destruct D; lia|]. destruct (dr_live _ _ _ D) as [d Hl].
  pose proof (queue_of_lookup _ _ _ Hl) as Q0. destruct (mEventQueue d) as [|x q] eqn:Eq.
  { exists w. cbn [drain_events]. unfold pop_event_entry. rewrite (l_func_ret _ _ _ Hl). cbn [run_bind]. rewrite Eq, Q0. cbn [run_bind].
    rewrite bool_decide_eq_true_2 by done. rewrite orb_false_r. split_and!; [done|apply D|apply shrank_refl|done]. }
  pose proof D as [K _ NL A Hf].
  destruct (drain_turn h fuel w l d x q had K Hl Eq NL A ltac:(lia)) as (w1 & -> & E1).
  pose proof (drainable_turn h fuel w l d x q w1 D Hl Eq E1) as D1.
  destruct (dispatch_one_spec h (S fuel) w l d x q K Hl Eq NL A ltac:(lia)) as (w1' & E' & _ & S1 & _).
  rewrite E1 in E'. injection E' as <-. destruct (IH w1 true D1) as (w2 & -> & K2 & S2 & Q2).
  exists w2. rewrite Q0, (bool_decide_eq_false_2 (x :: q = [])) by done. rewrite orb_true_r. split_and!; [done|done|by eapply shrank_trans|done].
Qed.

(** ** Which entries are delivered *)

(** Not below one of [dead]. *)
Definition spared (w : World) (dead : list oid) (x : oid) : Prop := forall y, y ∈ dead -> ~ below (tree w) x y.

(** A queue gone through in order: the entries whose receiver an earlier deferred delete
    took away are dropped, all others delivered. *)
Inductive round (w : World) : list oid -> list EventEntry -> list EventEntry -> Prop :=
| round_nil dead : round w dead [] []
| round_drop dead x q xs : ~ spared w dead (mReceiver x) -> round w dead q xs -> round w dead (x :: q) xs
| round_deliver dead x q xs : spared w dead (mReceiver x) ->
    round w (if deferred w (mReceiver x) x then mReceiver x :: dead else dead) q xs -> round w dead (x :: q) (x :: xs).

Lemma sublist_filter_eq {A} (P : A -> Prop) `{!forall x, Decision (P x)} (k l : list A) :
  NoDup l -> k `sublist_of` l -> (forall x, x ∈ l -> x ∈ k <-> P x) -> k = filter P l.
Proof.
  intros N S. induction S as [|x k l S IH|x k l S IH]; intros Hk; [done| |]; apply NoDup_cons in N as [Nx N].
  - rewrite filter_cons_True by (apply Hk; by left). f_equal. apply IH; [done|]. intros y Hy. rewrite <- Hk by (by right).
    rewrite elem_of_cons. split; [by right|]. intros [->|?]; done.
  - rewrite filter_cons_False; [apply IH; [done|]; intros y Hy; apply Hk; by right|].
    rewrite <- Hk by (by left). intros Hx. by apply Nx, (elem_of_sublist k l).
Qed.

(** What [w] has lost since [w0]: the subtrees of [dead]. *)
Record since (w0 : World) (dead : list oid) (w : World) : Prop := {
  si_shrank : shrank (fun _ => True) w0 w;
  si_alive : forall x, is_Some (objects w !! x) <-> is_Some (objects w0 !! x) /\ spared w0 dead x
}.

Lemma below_since w0 dead w x y : kernel_ok w -> since w0 dead w -> is_Some (objects w !! x) -> below (tree w0) x y -> below (tree w) x y.
Proof.
  intros K S Hx B. induction B as [x|x p y [k Hp] B IH]; [apply rtc_refl|].
  destruct Hx as [d Hd]. destruct (s_object _ _ _ (si_shrank _ _ _ S) _ _ Hd) as (d0 & Hd0 & Ep & _). simpl in Hd0.
  rewrite (tview_lookup _ _ _ Hd0) in Hp. injection Hp as Hp _.
  assert (Ht : tree w !! x = Some (Some p, mChildren d)) by (rewrite (tview_lookup _ _ _ Hd); congruence).
  eapply rtc_l; [by eexists|]. apply IH. destruct (t_parent _ (k_tree _ K) _ _ _ Ht) as (q & k' & Hq & _).
  apply tview_lookup_inv in Hq as (dp & ? & _). by eexists.
Qed.

Lemma deferred_since w0 dead w l e : kernel_ok w -> since w0 dead w -> e ∈ queue_of w l ->
  deferred w (mReceiver e) e = deferred w0 (mReceiver e) e /\ delivery w e = delivery w0 e.
Proof.
  intros K S He. destruct (queue_receiver w l e K He) as [_ [ev Hev]]. pose proof (s_keep _ _ _ (si_shrank _ _ _ S) _ _ Hev) as Hev0.
  simpl in Hev0. unfold deferred, delivery. by rewrite Hev, Hev0.
Qed.

(** One delivery seen from [w0]. *)
Lemma since_turn h `{!Quiet h} fuel w0 dead w l d x q w1 :
  no_filter h -> drainable l (S fuel) w -> since w0 dead w -> loops w !! l = Some d -> mEventQueue d = x :: q ->
  dispatch_one h (S fuel) w l d x q = Ret w1 ->
  since w0 (if deferred w0 (mReceiver x) x then mReceiver x :: dead else dead) w1 /\
  queue_of w1 l = filter (fun e => is_Some (objects w1 !! mReceiver e)) q /\
  history w1 = history w ++ option_list (delivery w0 x).
Proof.
  intros Hno D S Hl Eq E. pose proof D as [K _ NL A Hf].
  destruct (dispatch_one_spec h (Datatypes.S fuel) w l d x q K Hl Eq NL A ltac:(lia)) as (w1' & E' & K1 & S1 & Q1 & _ & T1 & D1).
  rewrite E in E'. injection E' as <-. destruct (D1 Hno) as [Eh Ho].
  assert (Hx : x ∈ queue_of w l) by (rewrite (queue_of_lookup _ _ _ Hl), Eq; by left).
  destruct (deferred_since w0 dead w l x K S Hx) as [Ed Ev]. rewrite Ed in Ho. rewrite Ev in Eh.
  destruct (queue_receiver w l x K Hx) as [Hr _]. split; [|split; [|done]].
  - split; [eapply shrank_trans; [apply S|done]|]. intros y. destruct (deferred w0 (mReceiver x) x).
    + rewrite Ho, (si_alive _ _ _ S). unfold spared. setoid_rewrite elem_of_cons. split.
      * intros [[Hy Hs] Hb]. split; [done|]. intros z [->|Hz] B; [|by apply (Hs z)].
        apply Hb. eapply below_since; [done|exact S|by apply (si_alive _ _ _ S)|done].
      * intros [Hy Hs]. split; [split; [done|]; intros z Hz; apply Hs; by right|].
        intros B. apply (Hs (mReceiver x)); [by left|]. exact (below_shrinks _ _ _ _ (si_shrank _ _ _ S) B).
    + rewrite Ho. apply S.
  - pose proof (queue_nodup w l K) as N. rewrite (queue_of_lookup _ _ _ Hl), Eq in N. apply NoDup_cons in N as [_ N].
    apply sublist_filter_eq; [by eapply NoDup_fmap_1|done|]. intros e He. split.
    + intros He1. by apply (queue_receiver w1 l e K1 He1).
    + intros [de Hde]. destruct (T1 e He) as [?|Hn]; [done|congruence].
Qed.

Lemma drain_round h `{!Quiet h} l w0 : no_filter h -> forall fuel q0 dead w had w' b,
  drainable l fuel w -> since w0 dead w -> (forall e, e ∈ q0 -> is_Some (objects w0 !! mReceiver e)) ->
  queue_of w l = filter (fun e => is_Some (objects w !! mReceiver e)) q0 -> drain_events h fuel w l had = Ret (w', b) ->
  exists xs, round w0 dead q0 xs /\ history w' = history w ++ omap (delivery w0) xs /\
    forall e, e ∈ q0 -> deferred w0 (mReceiver e) e = true -> objects w' !! mReceiver e = None.
Proof.
  intros Hno. induction fuel as [|fuel IH]; intros q0 dead w had w' b D S; [destruct D; lia|].
  destruct (drain_events_spec h l (Datatypes.S fuel) w had D) as (w2 & E2 & _ & S2 & _).
  induction q0 as [|x q0 IHq]; intros Hlive Hq E.
  { exists []. split; [constructor|]. split; [|by intros e ?%elem_of_nil]. rewrite app_nil_r.
    cbn [drain_events] in E. destruct (dr_live _ _ _ D) as [d Hl]. unfold pop_event_entry in E. rewrite (l_func_ret _ _ _ Hl) in E.
    cbn [run_bind] in E. rewrite (queue_of_lookup _ _ _ Hl) in Hq. rewrite Hq in E. by injection E as <- _. }
  destruct (decide (is_Some (objects w !! mReceiver x))) as [Hx|Hx].
  - rewrite filter_cons_True in Hq by done. destruct (dr_live _ _ _ D) as [d Hl]. rewrite (queue_of_lookup _ _ _ Hl) in Hq.
    pose proof D as [K _ NL A Hf]. destruct (drain_turn h fuel w l d x _ had K Hl Hq NL A ltac:(lia)) as (w1 & Ed & E1).
    rewrite Ed in E. destruct (since_turn h fuel w0 dead w l d x _ w1 Hno D S Hl Hq E1) as (S1 & Q1 & H1).
    pose proof (drainable_turn h fuel w l d x _ w1 D Hl Hq E1) as D1.
    assert (Hmono : forall y, is_Some (objects w1 !! y) -> is_Some (objects w !! y)).
    { intros y [dy Hy]. destruct (dispatch_one_spec h (Datatypes.S fuel) w l d x _ K Hl Hq NL A ltac:(lia)) as (w1' & E' & _ & S1' & _).
      rewrite E1 in E'. injection E' as <-. destruct (s_object _ _ _ S1' _ _ Hy) as (d0 & ? & _). by eexists. }
    destruct (IH q0 _ w1 true w' b D1 S1) as (xs & R & Hh & Hd).
    { intros e He. apply Hlive. by right. }
    { rewrite Q1. apply list_filter_filter_l. auto. }
    { done. }
    exists (x :: xs). split; [apply round_deliver; [by apply (si_alive _ _ _ S)|done]|]. split.
    + rewrite Hh, H1, <- app_assoc. f_equal. cbn [omap list_omap]. by destruct (delivery w0 x).
    + intros e [->|He]%elem_of_cons Hdef; [|by apply Hd]. rewrite Hdef in S1.
      destruct (drain_events_spec h l fuel w1 true D1) as (w3 & E3 & _ & S3 & _). rewrite E in E3. injection E3 as -> _.
      apply (dead_shrinks _ _ _ S3), eq_None_not_Some. intros [_ Hsp]%(si_alive _ _ _ S1). apply (Hsp (mReceiver x)); [by left|apply rtc_refl].
  - rewrite filter_cons_False in Hq by done. destruct (IHq ltac:(intros e He; apply Hlive; by right) Hq E) as (xs & R & Hh & Hd).
    exists xs. split.
    + apply round_drop; [|done]. intros Hs. apply Hx, (si_alive _ _ _ S). split; [apply Hlive; by left|done].
    + split; [done|]. intros e [->|He]%elem_of_cons Hdef; [|by apply Hd].
      rewrite E2 in E. injection E as <- _. apply (dead_shrinks _ _ _ S2). by apply eq_None_not_Some.
Qed.

Definition posts_of (w : World) (l : oid) : list callable := match loops w !! l with Some d => mPostQueue d | None => [] end.

Definition ran (c : callable) : option action := match c with UserFn f => Some (Ran f) | _ => None end.

Lemma call_all_quiet h `{!Quiet h} w tasks : Forall plain tasks -> call_all h w tasks = Ret (with_history w (history w ++ omap ran tasks)).
Proof.
  intros Ht. revert w. induction Ht as [|c tasks Hc Ht IH]; intros w; cbn [call_all omap list_omap].
  - rewrite app_nil_r. by destruct w.
  - destruct c as [f| | |]; try done. simpl. rewrite quiet_call. cbn [run_bind]. rewrite IH. cbn. by rewrite <- app_assoc.
Qed.

Lemma core_shrinks {P : oid -> Prop} w w' l d : shrinks P w w' -> loops w !! l = Some d ->
  exists d', loops w' !! l = Some d' /\ core d' = core d.
Proof.
  intros S H. pose proof (s_posts _ _ _ S l) as E. rewrite H in E. destruct (loops w' !! l) as [d'|]; [|done].
  exists d'. simpl in E. split; [done|congruence].
Qed.

Lemma drain_events_empty h fuel w l d had :
  loops w !! l = Some d -> mEventQueue d = [] -> (0 < fuel)%nat -> drain_events h fuel w l had = Ret (w, had).
Proof.
  intros Hl E Hf. destruct fuel; [lia|]. simpl. unfold pop_event_entry. rewrite (l_func_ret _ _ _ Hl). simpl. by rewrite E.
Qed.

(** The world in which a round drains its events: the posted callables have run. *)
Definition posts_run (w : World) (l : oid) (d : EventLoopPrivate) : World :=
  with_history (with_loops w (<[l := with_posts d []]> (loops w))) (history w ++ omap ran (mPostQueue d)).

Lemma drainable_posts_run fuel w l d :
  kernel_ok w -> loops w !! l = Some d -> no_loop_receivers w l -> app_safe w l ->
  (size (objects w) + length (queue_of w l) < fuel)%nat -> drainable l fuel (posts_run w l d) /\ queue_of (posts_run w l d) l = queue_of w l.
Proof.
  intros K Hl NL A Hf.
  assert (Hl0 : loops (posts_run w l d) !! l = Some (with_posts d [])) by apply lookup_insert_eq.
  assert (Q0 : queue_of (posts_run w l d) l = queue_of w l) by (by rewrite (queue_of_lookup _ _ _ Hl0), (queue_of_lookup _ _ _ Hl)).
  split; [|done]. split.
  - apply kernel_ok_history. apply (kernel_ok_loop w l d (with_posts d []) (events w)); done.
  - eauto.
  - intros e He x Hx. rewrite Q0 in He. simpl. pose proof (NL e He x Hx). rewrite lookup_insert_ne; [done|]. intros <-. congruence.
  - intros a Ha. destruct (A a Ha) as [? Hb]. split; [done|]. rewrite Q0. done.
  - by rewrite Q0.
Qed.

Lemma process_events_eq h `{!Quiet h} fuel w l d wait : kernel_ok w -> loops w !! l = Some d ->
  process_events h fuel w l wait = do (w, had_event) <- drain_events h fuel (posts_run w l d) l false;
    if negb (bool_decide (mPostQueue d = [])) || had_event then Ret (w, true) else h_dispatch h l wait w.
Proof.
  intros K Hl. unfold process_events, take_post_queue. rewrite (l_func_ret _ _ _ Hl). cbn [run_bind].
  rewrite (upd_loop_ret _ _ _ _ Hl). cbn [run_bind]. by rewrite (call_all_quiet h (with_loops w _) (mPostQueue d) (q_plain _ (k_queues _ K) _ _ Hl)).
Qed.

(** One round, with what the rest of the loop's state looks like afterwards. *)
Lemma process_events_spec h `{!Quiet h} fuel w l d wait :
  kernel_ok w -> loops w !! l = Some d -> no_loop_receivers w l -> app_safe w l ->
  (size (objects w) + length (queue_of w l) < fuel)%nat ->
  if bool_decide (mPostQueue d = []) && bool_decide (queue_of w l = []) then process_events h fuel w l wait = h_dispatch h l wait w
  else exists w', process_events h fuel w l wait = Ret (w', true) /\ kernel_ok w' /\
    shrank (fun _ => True) (posts_run w l d) w' /\ queue_of w' l = [] /\
    exists b, drain_events h fuel (posts_run w l d) l false = Ret (w', b).
Proof.
  intros K Hl NL A Hf. rewrite (process_events_eq h fuel w l d wait K Hl).
  destruct (drainable_posts_run fuel w l d K Hl NL A Hf) as [D Q0].
  destruct (bool_decide (mPostQueue d = []) && bool_decide (queue_of w l = [])) eqn:E.
  - apply andb_true_iff in E as [E1%bool_decide_eq_true E2%bool_decide_eq_true].
    rewrite (queue_of_lookup _ _ _ Hl) in E2.
    rewrite (drain_events_empty h fuel (posts_run w l d) l (with_posts d []) false) by (apply lookup_insert_eq || done || lia).
    simpl. rewrite bool_decide_eq_true_2 by done. simpl. unfold posts_run. rewrite E1. cbn [omap list_omap]. rewrite app_nil_r.
    rewrite insert_id; [by destruct w|]. rewrite Hl. f_equal. destruct d; simpl in *. by subst.
  - destruct (drain_events_spec h l fuel (posts_run w l d) false D) as (w1 & Ed & K1 & S1 & Q1).
    rewrite Ed, Q0, orb_false_l in *. cbn [run_bind]. exists w1. rewrite <- negb_andb, E. simpl. split_and!; try done. by eexists.
Qed.


(** ** exec *)
Section Exec.
Context (h : hooks) `{!Quiet h} (l : oid) (c : Z).

(** A driver that, once there is nothing left to process, sees [exit(c)] called. *)
Hypothesis driver_exits : forall w, is_Some (loops w !! l) -> h_dispatch h l true w = (do w <- exit w l c; Ret (w, true)).

Lemma exit_spec w d : loops w !! l = Some d ->
  exit w l c = Ret (with_loops w (<[l := rung (with_exit (with_has_ret (with_ret d c) true) true)]> (loops w))).
Proof.
  intros Hl. unfold exit. rewrite (upd_loop_ret _ _ _ _ Hl). simpl. unfold wake_up, upd_dispatcher.
  erewrite upd_loop_ret by (simpl; apply lookup_insert_eq). unfold with_loops; simpl. by rewrite insert_insert_eq.
Qed.

(** With empty queues, the driver's round ends the loop. *)
Lemma exec_loop_idle fuel w d :
  kernel_ok w -> loops w !! l = Some d -> mPostQueue d = [] -> mEventQueue d = [] -> mExit d = false -> (2 < fuel)%nat ->
  exec_loop h fuel w l = exit w l c.
Proof.
  intros K Hl Ep Eq Ex Hf. destruct fuel as [|[|fuel]]; [lia..|]. cbn [exec_loop].
  rewrite (l_func_ret _ _ _ Hl). cbn [run_bind]. rewrite Ex.
  assert (E : process_events h (S (S fuel)) w l true = h_dispatch h l true w).
  { unfold process_events, take_post_queue. rewrite (l_func_ret _ _ _ Hl). cbn [run_bind]. rewrite (upd_loop_ret _ _ _ _ Hl), Ep.
    cbn [run_bind call_all]. rewrite (drain_events_empty h _ _ l (with_posts d [])) by (simpl; (apply lookup_insert_eq || done || lia)).
    cbn [run_bind]. rewrite bool_decide_eq_true_2 by done. simpl. rewrite insert_id; [by destruct w|].
    rewrite Hl. f_equal. destruct d; simpl in *. by subst. }
  rewrite E, driver_exits by eauto. rewrite (exit_spec _ _ Hl). cbn [run_bind]. unfold l_func. simpl. by rewrite lookup_insert_eq.
Qed.

Lemma exec_loop_spec fuel w d :
  kernel_ok w -> loops w !! l = Some d -> no_loop_receivers w l -> app_safe w l -> mExit d = false ->
  (size (objects w) + length (queue_of w l) + 3 < fuel)%nat ->
  exists w' d', exec_loop h fuel w l = Ret w' /\ loops w' !! l = Some d' /\ mExit d' = true /\ mRetCode d' = c /\
    mPostQueue d' = [] /\ mEventQueue d' = [].
Proof.
  intros K Hl NL A Ex Hf.
  assert (Idle : forall fuel w d, kernel_ok w -> loops w !! l = Some d -> mPostQueue d = [] -> mEventQueue d = [] -> mExit d = false -> (2 < fuel)%nat ->
    exists w' d', exec_loop h fuel w l = Ret w' /\ loops w' !! l = Some d' /\ mExit d' = true /\ mRetCode d' = c /\
      mPostQueue d' = [] /\ mEventQueue d' = []).
  { intros f w1 d1 K1 Hl1 E1 E2 E3 Hf1. rewrite (exec_loop_idle f w1 d1) by done. rewrite (exit_spec _ _ Hl1).
    eexists _, _. split; [done|]. split; [simpl; apply lookup_insert_eq|]. done. }
  destruct (decide (mPostQueue d = [] /\ mEventQueue d = [])) as [[E1 E2]|Hne]; [apply (Idle fuel w d); try done; lia|].
  destruct fuel as [|fuel]; [lia|]. cbn [exec_loop]. rewrite (l_func_ret _ _ _ Hl). cbn [run_bind]. rewrite Ex.
  pose proof (process_events_spec h (S fuel) w l d true K Hl NL A ltac:(lia)) as S.
  rewrite (queue_of_lookup _ _ _ Hl) in S.
  assert (E : bool_decide (mPostQueue d = []) && bool_decide (mEventQueue d = []) = false).
  { apply not_true_iff_false. intros [?%bool_decide_eq_true ?%bool_decide_eq_true]%andb_true_iff. by apply Hne. }
  rewrite E in S. destruct S as (w1 & -> & K1 & S1 & Q1 & _). cbn [run_bind].
  destruct (core_shrinks _ _ l (with_posts d []) S1) as (d1 & Hl1 & Ec); [apply lookup_insert_eq|]. injection Ec as Ep _ _ Ee _ _.
  rewrite (queue_of_lookup _ _ _ Hl1) in Q1. apply (Idle fuel w1 d1); [done|done|done|done|congruence|lia].
Qed.

End Exec.

(** [exec] answers -1 to a nested call and the preset code after an earlier exit,
    leaving the heap alone; otherwise, with a driver on whose watch [exit(c)] is called
    once there is nothing left to process, it terminates with [c], with both queues
    empty, the loop stopped and the thread's current loop restored. *)
Theorem exec_correct h `{!Quiet h} fuel w l d c :
  (forall w, is_Some (loops w !! l) -> h_dispatch h l true w = (do w <- exit w l c; Ret (w, true))) ->
  kernel_ok w -> loops w !! l = Some d -> no_loop_receivers w l -> app_safe w l ->
  (size (objects w) + length (queue_of w l) + 3 < fuel)%nat ->
  if mInExec d then exec h fuel w l = Ret (w, -1)
  else if mExit d && mHasExitCode d then exec h fuel w l = Ret (w, mRetCode d)
  else exists w' d', exec h fuel w l = Ret (w', c) /\ t_current_loop w' = t_current_loop w /\ loops w' !! l = Some d' /\
    mInExec d' = false /\ mExit d' = true /\ mPostQueue d' = [] /\ mEventQueue d' = [].
Proof.
  intros Hd K Hl NL A Hf. unfold exec. rewrite (l_func_ret _ _ _ Hl). cbn [run_bind].
  destruct (mInExec d); [done|]. destruct (mExit d && mHasExitCode d); [done|].
  erewrite upd_loop_ret by done. cbn [run_bind].
  set (d1 := with_exit (with_in_exec d true) false). set (w1 := with_loops _ _).
  assert (K1 : kernel_ok w1).
  { apply (kernel_ok_loop (with_current w (Some l)) l d d1 (events w)); try done.
    destruct K as [T F [] Th C]. split; try done. simpl. intros ? [= <-]. eauto. }
  assert (Hl1 : loops w1 !! l = Some d1) by apply lookup_insert_eq.
  assert (Q1 : queue_of w1 l = queue_of w l) by (by rewrite (queue_of_lookup _ _ _ Hl1), (queue_of_lookup _ _ _ Hl)).
  destruct (exec_loop_spec h l c Hd fuel w1 d1 K1 Hl1) as (w2 & d2 & -> & Hl2 & Ee & Er & Ep & Eq); [| |done|by rewrite Q1|].
  { intros e He x Hx. rewrite Q1 in He. pose proof (NL e He x Hx). simpl. rewrite lookup_insert_ne; [done|]. intros <-. congruence. }
  { intros a Ha. destruct (A a Ha) as [? Hb]. split; [done|]. by rewrite Q1. }
  cbn [run_bind]. rewrite (upd_loop_ret _ _ _ _ Hl2). cbn [run_bind]. unfold l_func. simpl. rewrite lookup_insert_eq. simpl.
  rewrite Er. eexists _, _. split; [done|]. split; [done|]. split; [simpl; apply lookup_insert_eq|]. done.
Qed.
