(* ===== verification/KernelMove.v ===== *)
(** * Moving objects between loops

    [move_to_loop] walks the subtree breadth first, relinks every object's affinity
    and moves its queued entries: it terminates, moves exactly the subtree, keeps
    the heap well-formed and loses or duplicates no entry. *)

From stdpp Require Import prelude list numbers gmap strings sets sorting.
From Stdlib Require Import ZArith Lia.
From S2P Require Import Prelude Event Kernel KernelInv ObjectTree KernelDestroy KernelLoop.

#[local] Open Scope cxx_scope.

(** ** Subtrees *)
Section Subtrees.
Implicit Types (t : gmap oid (option oid * list oid)).

Lemma parent_of_unique t x p q : parent_of t x p -> parent_of t x q -> p = q.
Proof. intros [l H] [k H']. congruence. Qed.

(** Ancestors form a chain. *)
Lemma below_linear t y a b : below t y a -> below t y b -> below t a b \/ below t b a.
Proof.
  intros Ha. revert b. induction Ha as [y|y z a Hyz Ha IH]; intros b Hb; [by left|].
  inversion Hb as [|? z' ? Hyz' Hb']; subst.
  - right. by eapply rtc_l.
  - rewrite (parent_of_unique _ _ _ _ Hyz Hyz') in *. by apply IH.
Qed.

Lemma below_decide t x o : tree_ok t -> below t x o \/ ~ below t x o.
Proof.
  intros T. destruct (ancestors_finite t x T) as [l Hl]. destruct (decide (o ∈ l)) as [H|H]; [left|right]; by rewrite Hl.
Qed.

Lemma below_antisym t a b : tree_ok t -> below t a b -> below t b a -> a = b.
Proof.
  intros T Hab Hba. destruct (t_rank _ T) as [rank R].
  destruct (rtc_inv_r _ _ Hab) as [->|(c & Hc & [l Hp])]; [done|].
  apply (ranked_below _ rank) in Hba, Hc; [|done..]. pose proof (R _ _ _ Hp). lia.
Qed.

(** Two children of one parent have disjoint subtrees. *)
Lemma siblings_disjoint t p a b y :
  tree_ok t -> parent_of t a p -> parent_of t b p -> a <> b -> below t y a -> below t y b -> False.
Proof.
  intros T Ha Hb Hne Hya Hyb. destruct (t_rank _ T) as [rank R].
  assert (Case : forall u v, parent_of t u p -> parent_of t v p -> u <> v -> below t u v -> False).
  { intros u v Hu Hv Huv Hb'. inversion Hb' as [|? z ? Hz Hb'']; subst; [done|].
    rewrite (parent_of_unique _ _ _ _ Hz Hu) in Hb''. destruct Hv as [k Hv]. pose proof (R _ _ _ Hv).
    apply (ranked_below _ rank) in Hb''; [lia|done]. }
  destruct (below_linear t y a b Hya Hyb); eauto.
Qed.

(** [pending] holds the roots of disjoint subtrees, whose nodes are listed in [L]. *)
Record forest_of t (pending : list oid) (L : list oid) : Prop := {
  fo_live : forall a, a ∈ pending -> is_Some (t !! a);
  fo_nodup : NoDup pending;
  fo_apart : forall a b y, a ∈ pending -> b ∈ pending -> a <> b -> below t y a -> below t y b -> False;
  fo_nodes : forall y, y ∈ L <-> exists a, a ∈ pending /\ below t y a;
  fo_nodes_once : NoDup L
}.

Lemma subtree_list t o : tree_ok t -> is_Some (t !! o) -> exists L, forest_of t [o] L /\ (length L <= size t)%nat.
Proof.
  intros T Ho.
  assert (E : forall D, NoDup D -> exists L, NoDup L /\ L ⊆+ D /\ forall y, y ∈ L <-> y ∈ D /\ below t y o).
  { induction D as [|x D IH]; intros N; [exists []; split_and!; [constructor|done|set_solver]|].
    apply NoDup_cons in N as [Hx N]. destruct (IH N) as (L & NL & SL & HL).
    destruct (below_decide t x o T) as [B|B].
    - exists (x :: L). split; [apply NoDup_cons; split; [by rewrite HL; intros [? _]|done]|]. split; [by apply submseteq_skip|].
      intros y. rewrite !elem_of_cons, HL. naive_solver.
    - exists L. split; [done|]. split; [by apply submseteq_cons|]. intros y. rewrite elem_of_cons, HL. naive_solver. }
  destruct (E (elements (dom t)) (NoDup_elements _)) as (L & NL & SL & HL). exists L. split.
  - split; [|apply NoDup_singleton| | |done].
    + by intros a ->%list_elem_of_singleton.
    + intros a b y ->%list_elem_of_singleton ->%list_elem_of_singleton. done.
    + intros y. rewrite HL, elem_of_elements. split.
      * intros [_ B]. exists o. split; [by left|done].
      * intros (a & ->%list_elem_of_singleton & B). split; [|done]. apply elem_of_dom.
        destruct (decide (y = o)) as [->|]; [done|]. by eapply below_dead.
  - apply submseteq_length in SL. by rewrite <- size_dom.
Qed.

(** Visiting the first root replaces it by its children. *)
Lemma forest_step t x q k pending L :
  tree_ok t -> t !! x = Some (q, k) -> forest_of t (x :: pending) L ->
  exists L', forest_of t (pending ++ k) L' /\ L ≡ₚ x :: L'.
Proof.
  intros T Hx [Li N A No NL]. apply NoDup_cons in N as [Hxp N]. destruct (t_rank _ T) as [rank R].
  assert (Kid : forall c, c ∈ k -> parent_of t c x) by (intros c Hc; destruct (t_child _ T _ _ _ _ Hx Hc) as [l Hl]; by eexists).
  assert (HxL : x ∈ L) by (apply No; exists x; split; [by left|apply rtc_refl]).
  apply elem_of_Permutation in HxL as [L' HL']. exists L'. split; [|done].
  rewrite HL' in NL. apply NoDup_cons in NL as [HxL' NL'].
  assert (Apart : forall a c, a ∈ pending -> c ∈ k -> forall y, below t y a -> below t y c -> False).
  { intros a c Ha Hc y Hya Hyc. apply (A a x y); [by right|by left|intros ->; done|done|]. eapply rtc_r; [done|by apply Kid]. }
  split.
  - intros a [Ha|Ha]%elem_of_app; [apply Li; by right|]. destruct (Kid a Ha) as [l Hl]. eauto.
  - apply NoDup_app. split; [done|]. split; [|by eapply t_nodup]. intros a Ha Hk. by apply (Apart a a Ha Hk a); apply rtc_refl.
  - intros a b y [Ha|Ha]%elem_of_app [Hb|Hb]%elem_of_app Hne Hya Hyb.
    + apply (A a b y); (done || by right).
    + by eapply Apart.
    + by apply (Apart b a Hb Ha y).
    + exact (siblings_disjoint t x a b y T (Kid a Ha) (Kid b Hb) Hne Hya Hyb).
  - intros y. assert (Hy : y ∈ L <-> y = x \/ y ∈ L') by (rewrite HL', elem_of_cons; done). rewrite No in Hy. split.
    + intros Hin. assert (Hne : y <> x) by (intros ->; done). destruct (proj2 Hy (or_intror Hin)) as (a & Ha & B).
      apply elem_of_cons in Ha as [->|Ha]; [|exists a; split; [apply elem_of_app; by left|done]].
      apply rtc_inv_r in B as [->|(c & B & Hc)]; [done|]. exists c. split; [|done]. apply elem_of_app. right.
      destruct Hc as [l Hc]. destruct (t_parent _ T _ _ _ Hc) as (? & ? & Hx' & Hin'). by simplify_eq.
    + intros (a & Ha & B). assert (Hor : y = x \/ y ∈ L').
      { apply Hy. apply elem_of_app in Ha as [Ha|Ha]; [exists a; split; [by right|done]|].
        exists x. split; [by left|]. eapply rtc_r; [done|by apply Kid]. }
      destruct Hor as [->|]; [exfalso|done]. apply elem_of_app in Ha as [Ha|Ha].
      * apply (A a x x); [by right|by left|intros ->; done|done|apply rtc_refl].
      * destruct (Kid a Ha) as [l Hl]. pose proof (R _ _ _ Hl). apply (ranked_below _ rank) in B; [lia|done].
  - done.
Qed.

End Subtrees.

(** ** The breadth-first walk *)
Lemma collect_children_spec w kids : (forall c, c ∈ kids -> is_Some (objects w !! c)) ->
  exists l, collect_children w kids = Ret l /\ l.*1 = kids /\ forall x th, (x, th) ∈ l -> aview (objects w) !! x = Some th.
Proof.
  induction kids as [|c kids IH]; intros L; cbn [collect_children]; [exists []; split_and!; [done|done|set_solver]|].
  destruct (L c ltac:(by left)) as [d Hd]. unfold object_loop. rewrite (d_func_ret _ _ _ Hd). cbn [run_bind].
  destruct IH as (l & -> & El & Hl); [intros; apply L; by right|]. cbn [run_bind].
  eexists. split; [done|]. split; [by rewrite <- El|]. intros x th [[= -> ->]|Hin]%elem_of_cons; [|by apply Hl].
  unfold aview. by rewrite lookup_fmap, Hd.
Qed.

Lemma collect_spec w : tree_ok (tview (objects w)) -> forall fuel pending L,
  forest_of (tview (objects w)) pending L -> (length L < fuel)%nat ->
  exists l, collect fuel w pending = Ret l /\ pending ++ l.*1 ≡ₚ L /\ forall x th, (x, th) ∈ l -> aview (objects w) !! x = Some th.
Proof.
  intros T. induction fuel as [|fuel IH]; intros pending L F Hf; [lia|]. cbn [collect].
  destruct pending as [|x pending].
  - exists []. split; [done|]. split; [|intros x th ?%elem_of_nil; done].
    destruct L as [|y L]; [done|]. destruct (proj1 (fo_nodes _ _ _ F y)) as (a & Ha & _); [by left|]. by apply not_elem_of_nil in Ha.
  - destruct (fo_live _ _ _ F x ltac:(by left)) as [[q k] Hx]. destruct (forest_step _ x q k pending L T Hx F) as (L' & F' & P).
    pose proof Hx as Hx'. apply tview_lookup_inv in Hx' as (d & Hd & E). simplify_eq.
    unfold children. rewrite (d_func_ret _ _ _ Hd). cbn [run_bind].
    destruct (collect_children_spec w (mChildren d)) as (here & -> & Eh & Hh).
    { intros c Hc. apply tview_is_Some. apply (fo_live _ _ _ F' c). apply elem_of_app. by right. }
    cbn [run_bind]. destruct (IH _ _ F') as (rest & -> & Pr & Hr); [rewrite P in Hf; simpl in Hf; lia|]. cbn [run_bind].
    exists (here ++ rest). split; [done|]. split.
    + rewrite P, <- Pr, fmap_app, Eh. simpl. by rewrite <- app_assoc.
    + intros y th [Hy|Hy]%elem_of_app; auto.
Qed.

(** ** One object's migration *)

(** The queue surgery for one collected object. *)
Definition move_entries (w : World) (target : option oid) (o : oid) (old : option oid) : run World :=
  if bool_decide (old = target) then Ret w
  else
    do (w, entries) <- match old with None => Ret (w, []) | Some l => take_events_for w l o end;
    match target with Some t => push_entries w t entries | None => delete_events w entries end.

Lemma migrate_entries_cons w o old moved target :
  migrate_entries w ((o, old) :: moved) target = do w <- move_entries w target o old; migrate_entries w moved target.
Proof.
  unfold move_entries. cbn [migrate_entries]. case_bool_decide; [done|].
  destruct old as [l|]; cbn [run_bind]; [destruct (take_events_for w l o) as [[w1 es]| | |]; [|done..]; cbn [run_bind]|];
    by destruct target.
Qed.

(** The threads of the collected objects are rewritten, nothing else. *)
Definition thread_all (m : gmap oid ObjectPrivate) (moved : list (oid * option oid)) (target : option oid) : gmap oid ObjectPrivate :=
  map_imap (fun x d => Some (if decide (x ∈ moved.*1) then with_thread d target else d)) m.

Lemma thread_all_nil m target : thread_all m [] target = m.
Proof.
  apply map_eq. intros x. unfold thread_all. rewrite map_lookup_imap. by destruct (m !! x).
Qed.

Lemma migrate_spec h target : forall moved w, (forall x, x ∈ moved.*1 -> is_Some (objects w !! x)) ->
  migrate h w moved target = Ret (with_objects w (thread_all (objects w) moved target)).
Proof.
  induction moved as [|[o old] moved IH]; intros w L; cbn [migrate].
  { rewrite thread_all_nil. by destruct w. }
  destruct (L o ltac:(by left)) as [d Hd]. rewrite (upd_object_ret _ _ _ _ Hd). cbn [run_bind].
  change (handle_event h _ o (make_event kLoopChange)) with
    (Ret (with_objects w (<[o := with_thread d target]> (objects w)), make_event kLoopChange, true)). cbn [run_bind].
  rewrite IH.
  - unfold with_objects; simpl. f_equal. f_equal. apply map_eq. intros x. unfold thread_all. rewrite !map_lookup_imap.
    destruct (decide (x = o)) as [->|].
    + rewrite lookup_insert_eq, Hd. simpl. rewrite (decide_True (P := o ∈ o :: _)) by by left. f_equal. by case_decide.
    + rewrite lookup_insert_ne by done. destruct (objects w !! x) as [dx|]; [|done]. simpl. f_equal.
      destruct (decide (x ∈ moved.*1)); [by rewrite decide_True by by right|].
      by rewrite decide_False by (intros [?|?]%elem_of_cons; done).
  - intros x Hx. simpl. rewrite lookup_insert_is_Some. destruct (decide (o = x)); [by left|right]. split; [done|]. apply L. by right.
Qed.

(** The queue surgery does not look at the objects. *)
Definition map_objects (m : gmap oid ObjectPrivate) (r : run World) : run World := do w <- r; Ret (with_objects w m).

Lemma upd_loop_objects w l f m : upd_loop (with_objects w m) l f = map_objects m (upd_loop w l f).
Proof. unfold upd_loop, l_func; simpl. by destruct (loops w !! l). Qed.

Lemma delete_events_objects m es : forall w, delete_events (with_objects w m) es = map_objects m (delete_events w es).
Proof.
  induction es as [|e es IH]; intros w; [done|]. cbn [delete_events]. unfold delete_event, e_func. simpl.
  destruct (events w !! mEvent e); [|done]. simpl. exact (IH (with_events w (delete (mEvent e) (events w)))).
Qed.

Lemma move_entries_objects w target o old m :
  move_entries (with_objects w m) target o old = map_objects m (move_entries w target o old).
Proof.
  unfold move_entries. case_bool_decide; [done|].
  assert (T : forall l, take_events_for (with_objects w m) l o =
    do (w, es) <- take_events_for w l o; Ret (with_objects w m, es)).
  { intros l. unfold take_events_for, l_func. simpl. destruct (loops w !! l) as [d|] eqn:E; [|done]. simpl.
    destruct (split_for (mEventQueue d) o). rewrite upd_loop_objects. by destruct (upd_loop w l _). }
  destruct old as [l|]; cbn [run_bind].
  - rewrite T. destruct (take_events_for w l o) as [[w1 es]| | |]; [|done..]. cbn [run_bind].
    destruct target; [apply upd_loop_objects|apply delete_events_objects].
  - destruct target; [apply upd_loop_objects|done].
Qed.

(** Moving objects one at a time gives the same heap. *)
Lemma migrate_interleave h target o old moved w d w1 :
  objects w !! o = Some d -> (forall x, x ∈ moved.*1 -> is_Some (objects w !! x)) ->
  move_entries w target o old = Ret w1 -> objects w1 = objects w ->
  (do w <- migrate h w ((o, old) :: moved) target; migrate_entries w ((o, old) :: moved) target) =
  (let w' := with_objects w1 (<[o := with_thread d target]> (objects w)) in
   do w <- migrate h w' moved target; migrate_entries w moved target).
Proof.
  intros Ho L E Eo. cbn zeta. rewrite !migrate_spec.
  - cbn [run_bind]. rewrite migrate_entries_cons, move_entries_objects, E. cbn [map_objects run_bind].
    f_equal. unfold with_objects; simpl. f_equal. apply map_eq. intros x. unfold thread_all. rewrite !map_lookup_imap.
    destruct (decide (x = o)) as [->|].
    + rewrite lookup_insert_eq, Ho. simpl. rewrite (decide_True (P := o ∈ o :: _)) by by left. f_equal. by case_decide.
    + rewrite lookup_insert_ne by done. destruct (objects w !! x) as [dx|]; [|done]. simpl. f_equal.
      destruct (decide (x ∈ moved.*1)); [by rewrite decide_True by by right|].
      by rewrite decide_False by (intros [?|?]%elem_of_cons; done).
  - intros x Hx. simpl. rewrite lookup_insert_is_Some. destruct (decide (o = x)); [by left|right; auto].
  - intros x [->|Hx]%elem_of_cons; [eauto|auto].
Qed.

(** ** The queues after one migration *)

(** The entries taken from the old loop. *)
Definition taken_entries (w : World) (o : oid) (old : option oid) : list EventEntry :=
  match old with Some l => entries_of o (queue_of w l) | None => [] end.

(** The queue of [l] after [o]'s entries moved. *)
Definition moved_queue (w : World) (o : oid) (old target : option oid) (l : oid) : list EventEntry :=
  entries_not o (queue_of w l) ++ (if decide (target = Some l) then taken_entries w o old else []).

(** The entries of an object, on its own loop. *)
Definition own_entries (w : World) (r : oid) : list EventEntry :=
  match aview (objects w) !! r with Some (Some l) => entries_of r (queue_of w l) | _ => [] end.

Lemma entries_not_elsewhere w l o d : kernel_ok w -> objects w !! o = Some d -> mThread d <> Some l -> entries_not o (queue_of w l) = queue_of w l.
Proof.
  intros K Ho Hne. apply filter_all. apply Forall_forall. intros e He Hr. unfold queue_of in He.
  destruct (loops w !! l) as [dl|] eqn:El; [|by apply not_elem_of_nil in He].
  pose proof (q_affine _ (k_queues _ K) _ _ _ El He) as Ha. rewrite Hr in Ha.
  unfold aview in Ha. rewrite lookup_fmap, Ho in Ha. simpl in Ha. congruence.
Qed.

(** Where an entry of a queue after the migration comes from. *)
Lemma requeue_source w o d target l d0 e :
  kernel_ok w -> objects w !! o = Some d -> loops w !! l = Some d0 -> e ∈ moved_queue w o (mThread d) target l ->
  exists l0 d0, loops w !! l0 = Some d0 /\ e ∈ mEventQueue d0 /\
    ((l0 = l /\ mReceiver e <> o) \/ (target = Some l /\ mReceiver e = o /\ mThread d = Some l0)).
Proof.
  intros K Ho Hd0 He. unfold moved_queue in He. rewrite (queue_of_lookup _ _ _ Hd0) in He.
  apply elem_of_app in He as [He|He].
  - apply list_elem_of_filter in He as [? ?]. exists l, d0. auto.
  - case_decide; [|by apply not_elem_of_nil in He]. unfold taken_entries in He.
    destruct (mThread d) as [l0|] eqn:Eth; [|by apply not_elem_of_nil in He].
    apply list_elem_of_filter in He as [Hr He]. destruct (k_thread _ K _ _ _ Ho Eth) as [dl0 Hl0].
    rewrite (queue_of_lookup _ _ _ Hl0) in He. exists l0, dl0. split; [done|]. split; [done|]. by right.
Qed.

Lemma kernel_ok_requeue w o d target ls m :
  kernel_ok w -> objects w !! o = Some d -> mThread d <> target -> (forall t, target = Some t -> is_Some (loops w !! t)) ->
  dom ls = dom (loops w) ->
  (forall l dn, ls !! l = Some dn -> mEventQueue dn = moved_queue w o (mThread d) target l /\ mPostQueue dn = posts_of w l) ->
  (forall l dn e, ls !! l = Some dn -> e ∈ mEventQueue dn -> m !! mEvent e = events w !! mEvent e) ->
  kernel_ok (with_objects (with_events (with_loops w ls) m) (<[o := with_thread d target]> (objects w))).
Proof.
  intros K Ho Hne Ht Ed Hls Hm. pose proof K as [T F [QL QO QA QF QP] Th C].
  assert (Live : forall l, is_Some (loops w !! l) <-> is_Some (ls !! l)) by (intros l; by rewrite <- !elem_of_dom, Ed).
  assert (Src : forall l dn e, ls !! l = Some dn -> e ∈ mEventQueue dn ->
    exists l0 d0, loops w !! l0 = Some d0 /\ e ∈ mEventQueue d0 /\
      ((l0 = l /\ mReceiver e <> o) \/ (target = Some l /\ mReceiver e = o /\ mThread d = Some l0))).
  { intros l dn e Hl He. destruct (proj2 (Live l) ltac:(eauto)) as [d0 Hd0].
    rewrite (proj1 (Hls _ _ Hl)) in He. by eapply requeue_source. }
  assert (Eo : forall {A} (g : ObjectPrivate -> A), g (with_thread d target) = g d -> g <$> <[o := with_thread d target]> (objects w) = g <$> objects w).
  { intros A g Hg. by apply view_insert_same with d. }
  split; simpl.
  - unfold tview. by rewrite Eo.
  - unfold fview. by rewrite Eo.
  - split; simpl.
    + intros l dn e Hl He. rewrite (Hm _ _ _ Hl He). destruct (Src _ _ _ Hl He) as (l0 & d0 & ? & ? & _). eauto.
    + intros l dn Hl. rewrite (proj1 (Hls _ _ Hl)). unfold moved_queue. destruct (proj2 (Live l) ltac:(eauto)) as [d0 Hd0].
      rewrite (queue_of_lookup _ _ _ Hd0), fmap_app. apply NoDup_app. split.
      { eapply sublist_NoDup; [by apply (QO _ _ Hd0)|]. apply fmap_sublist, sublist_filter. }
      case_decide; [|split; [by intros ? _ ?%elem_of_nil|constructor]]. unfold taken_entries.
      destruct (mThread d) as [l0|] eqn:Eth; [|split; [by intros ? _ ?%elem_of_nil|constructor]].
      destruct (Th _ _ _ Ho Eth) as [dl0 Hl0]. rewrite (queue_of_lookup _ _ _ Hl0). split.
      * intros i Hi Hi'. apply list_elem_of_fmap in Hi as (e1 & -> & He1), Hi' as (e2 & E & He2).
        apply list_elem_of_filter in He1 as [_ He1], He2 as [_ He2].
        destruct (same_event _ _ _ _ _ _ _ K Hd0 He1 Hl0 He2 E) as [-> _]. congruence.
      * eapply sublist_NoDup; [by apply (QO _ _ Hl0)|]. apply fmap_sublist, sublist_filter.
    + intros l1 d1 e1 l2 d2 e2 H1 He1 H2 He2 E.
      destruct (Src _ _ _ H1 He1) as (k1 & dk1 & Hk1 & Hi1 & C1), (Src _ _ _ H2 He2) as (k2 & dk2 & Hk2 & Hi2 & C2).
      destruct (same_event _ _ _ _ _ _ _ K Hk1 Hi1 Hk2 Hi2 E) as [-> ->]. naive_solver.
    + intros l dn e Hl He. destruct (Src _ _ _ Hl He) as (l0 & d0 & Hl0 & Hi & [[-> Hr]|(-> & Hr & _)]).
      * unfold aview. rewrite fmap_insert, lookup_insert_ne by done. by apply (QF l d0 e).
      * rewrite Hr. unfold aview. by rewrite fmap_insert, lookup_insert_eq.
    + intros l dn Hl. rewrite (proj2 (Hls _ _ Hl)). destruct (proj2 (Live l) ltac:(eauto)) as [d0 Hd0].
      unfold posts_of. rewrite Hd0. eauto.
  - intros x dx l Hx Hl. apply Live. destruct (decide (x = o)) as [->|]; [rewrite lookup_insert_eq in Hx|rewrite lookup_insert_ne in Hx by done; eauto].
    simplify_eq. simpl in Hl. auto.
  - intros l Hl. apply Live. auto.
Qed.

(** What a migration step achieves. *)
Definition step_result (w : World) (o : oid) (d : ObjectPrivate) (target : option oid) (w1 : World) : Prop :=
  objects w1 = objects w /\ t_current_loop w1 = t_current_loop w /\ dom (loops w1) = dom (loops w) /\
  (forall l, is_Some (loops w !! l) -> queue_of w1 l = moved_queue w o (mThread d) target l) /\
  (forall e, target = None -> e ∈ taken_entries w o (mThread d) -> events w1 !! mEvent e = None) /\
  (forall i ev, events w1 !! i = Some ev -> events w !! i = Some ev) /\
  kernel_ok (with_objects w1 (<[o := with_thread d target]> (objects w))).

Lemma step_result_intro w o d target ls m :
  kernel_ok w -> objects w !! o = Some d -> mThread d <> target -> (forall t, target = Some t -> is_Some (loops w !! t)) ->
  dom ls = dom (loops w) ->
  (forall l dn, ls !! l = Some dn -> mEventQueue dn = moved_queue w o (mThread d) target l /\ mPostQueue dn = posts_of w l) ->
  (forall l dn e, ls !! l = Some dn -> e ∈ mEventQueue dn -> m !! mEvent e = events w !! mEvent e) ->
  (forall e, target = None -> e ∈ taken_entries w o (mThread d) -> m !! mEvent e = None) ->
  (forall i ev, m !! i = Some ev -> events w !! i = Some ev) ->
  step_result w o d target (with_events (with_loops w ls) m).
Proof.
  intros K Ho Hne Ht Ed Hls Hm Hd Hk. split; [done|]. split; [done|]. split; [done|]. split; [|split; [done|split; [done|]]].
  - intros l Hl. unfold queue_of. simpl. assert (is_Some (ls !! l)) as [dn Hn] by (apply elem_of_dom; rewrite Ed; by apply elem_of_dom).
    rewrite Hn. apply (Hls _ _ Hn).
  - by apply (kernel_ok_requeue w o d target ls m).
Qed.

Lemma posts_of_lookup w l d : loops w !! l = Some d -> mPostQueue d = posts_of w l.
Proof. intros H. unfold posts_of. by rewrite H. Qed.

Lemma move_step_push w o d l t :
  kernel_ok w -> objects w !! o = Some d -> mThread d = Some l -> l <> t -> is_Some (loops w !! t) ->
  exists w1, move_entries w (Some t) o (Some l) = Ret w1 /\ step_result w o d (Some t) w1.
Proof.
  intros K Ho El Hne [dt Ht]. destruct (k_thread _ K _ _ _ Ho El) as [dl Hl].
  unfold move_entries. rewrite bool_decide_eq_false_2 by congruence. unfold take_events_for.
  rewrite (l_func_ret _ _ _ Hl). cbn [run_bind]. rewrite split_for_spec. rewrite (upd_loop_ret _ _ _ _ Hl). cbn [run_bind].
  unfold push_entries. erewrite upd_loop_ret by (simpl; by rewrite lookup_insert_ne). eexists. split; [done|].
  apply (step_result_intro w o d (Some t) (<[t := with_queue dt (mEventQueue dt ++ entries_of o (mEventQueue dl))]>
    (<[l := with_queue dl (entries_not o (mEventQueue dl))]> (loops w))) (events w)); [done|done|congruence|intros ? [= <-]; eauto| | |done|done|done].
  - simpl. rewrite !dom_insert_L. apply elem_of_dom_2 in Hl, Ht. set_solver.
  - intros l' dn H. simpl in H. unfold moved_queue. rewrite El. simpl. rewrite (queue_of_lookup _ _ _ Hl).
    destruct (decide (l' = t)) as [->|Hlt]; [rewrite lookup_insert_eq in H|rewrite lookup_insert_ne in H by done].
    + simplify_eq. simpl. rewrite decide_True by done. rewrite (entries_not_elsewhere w t o d) by (done || congruence).
      split; [by rewrite (queue_of_lookup _ _ _ Ht)|by apply posts_of_lookup].
    + rewrite decide_False by congruence. rewrite app_nil_r.
      destruct (decide (l' = l)) as [->|Hll]; [rewrite lookup_insert_eq in H|rewrite lookup_insert_ne in H by done].
      * simplify_eq. simpl. split; [by rewrite (queue_of_lookup _ _ _ Hl)|by apply posts_of_lookup].
      * rewrite (entries_not_elsewhere w l' o d) by (done || congruence).
        split; [by rewrite (queue_of_lookup _ _ _ H)|by apply posts_of_lookup].
Qed.

Lemma move_step_new w o d t :
  kernel_ok w -> objects w !! o = Some d -> mThread d = None -> is_Some (loops w !! t) ->
  exists w1, move_entries w (Some t) o None = Ret w1 /\ step_result w o d (Some t) w1.
Proof.
  intros K Ho El [dt Ht]. unfold move_entries. rewrite bool_decide_eq_false_2 by done. cbn [run_bind].
  unfold push_entries. rewrite (upd_loop_ret _ _ _ _ Ht). eexists. split; [done|].
  apply (step_result_intro w o d (Some t) (<[t := with_queue dt (mEventQueue dt ++ [])]> (loops w)) (events w)); [done|done|congruence|intros ? [= <-]; eauto| | |done|done|done].
  - simpl. rewrite dom_insert_L. apply elem_of_dom_2 in Ht. set_solver.
  - intros l' dn H. simpl in H. unfold moved_queue. rewrite El. simpl.
    rewrite (entries_not_elsewhere w l' o d) by (done || congruence).
    destruct (decide (l' = t)) as [->|Hlt]; [rewrite lookup_insert_eq in H|rewrite lookup_insert_ne in H by done].
    + simplify_eq. simpl. rewrite decide_True, (queue_of_lookup _ _ _ Ht) by done. split; [done|by apply posts_of_lookup].
    + rewrite decide_False, app_nil_r by congruence. split; [by rewrite (queue_of_lookup _ _ _ H)|by apply posts_of_lookup].
Qed.

Lemma move_step_drop w o d l :
  kernel_ok w -> objects w !! o = Some d -> mThread d = Some l ->
  exists w1, move_entries w None o (Some l) = Ret w1 /\ step_result w o d None w1.
Proof.
  intros K Ho El. destruct (k_thread _ K _ _ _ Ho El) as [dl Hl].
  unfold move_entries. rewrite bool_decide_eq_false_2 by done. unfold take_events_for.
  rewrite (l_func_ret _ _ _ Hl). cbn [run_bind]. rewrite split_for_spec. rewrite (upd_loop_ret _ _ _ _ Hl). cbn [run_bind].
  destruct (delete_events_spec (entries_of o (mEventQueue dl)) (with_loops w (<[l := with_queue dl (entries_not o (mEventQueue dl))]> (loops w)))) as (m & -> & Hm).
  - eapply sublist_NoDup; [by apply (q_once _ (k_queues _ K) _ _ Hl)|]. apply fmap_sublist, sublist_filter.
  - intros e He. apply list_elem_of_filter in He as [_ He]. by eapply (q_live _ (k_queues _ K)).
  - eexists. split; [done|]. simpl in Hm. assert (Eq : forall l' dn,
      (<[l := with_queue dl (entries_not o (mEventQueue dl))]> (loops w)) !! l' = Some dn ->
      mEventQueue dn = entries_not o (queue_of w l') /\ mPostQueue dn = posts_of w l').
    { intros l' dn H. destruct (decide (l' = l)) as [->|Hll]; [rewrite lookup_insert_eq in H|rewrite lookup_insert_ne in H by done].
      - simplify_eq. simpl. split; [by rewrite (queue_of_lookup _ _ _ Hl)|by apply posts_of_lookup].
      - rewrite (entries_not_elsewhere w l' o d) by (done || congruence).
        split; [by rewrite (queue_of_lookup _ _ _ H)|by apply posts_of_lookup]. }
    apply (step_result_intro w o d None _ m); [done|done|congruence|done| | | | |].
    + rewrite dom_insert_L. apply elem_of_dom_2 in Hl. set_solver.
    + intros l' dn H. unfold moved_queue. rewrite decide_False, app_nil_r by done. by apply Eq.
    + intros l' dn e H He. rewrite Hm, decide_False; [done|]. intros Hi. apply list_elem_of_fmap in Hi as (e' & E & He').
      apply list_elem_of_filter in He' as [Hr He']. rewrite (proj1 (Eq _ _ H)) in He. apply list_elem_of_filter in He as [Hr' He].
      unfold queue_of in He. destruct (loops w !! l') as [dl'|] eqn:Hl'; [|by apply not_elem_of_nil in He].
      destruct (same_event _ _ _ _ _ _ _ K Hl' He Hl He' E) as [_ ->]. done.
    + intros e _ He. rewrite El in He. simpl in He. rewrite (queue_of_lookup _ _ _ Hl) in He.
      rewrite Hm, decide_True; [done|]. by apply list_elem_of_fmap_2.
    + intros i ev. rewrite Hm. by case_decide.
Qed.

Lemma move_step w o d target :
  kernel_ok w -> objects w !! o = Some d -> mThread d <> target -> (forall t, target = Some t -> is_Some (loops w !! t)) ->
  exists w1, move_entries w target o (mThread d) = Ret w1 /\ step_result w o d target w1.
Proof.
  intros K Ho Hne Ht. destruct (mThread d) as [l|] eqn:El, target as [t|]; [| | |done].
  - apply (move_step_push w o d l t); auto. congruence.
  - by apply move_step_drop.
  - apply move_step_new; auto.
Qed.

(** ** All the objects *)
Lemma entries_of_not r o (q : list EventEntry) : entries_of r (entries_not o q) = if decide (r = o) then [] else entries_of r q.
Proof.
  case_decide as Hro; [subst; apply filter_none, Forall_forall; by intros e [? _]%list_elem_of_filter|].
  rewrite list_filter_filter. apply list_filter_iff. naive_solver.
Qed.

Lemma entries_of_of r o (q : list EventEntry) : entries_of r (entries_of o q) = if decide (r = o) then entries_of r q else [].
Proof.
  case_decide as Hro.
  - subst. apply filter_all, Forall_forall. by intros e [? _]%list_elem_of_filter.
  - apply filter_none, Forall_forall. intros e [? _]%list_elem_of_filter. congruence.
Qed.

Lemma own_entries_step w o d target w1 r :
  kernel_ok w -> objects w !! o = Some d -> step_result w o d target w1 -> (is_Some target \/ r <> o) ->
  (forall t, target = Some t -> is_Some (loops w !! t)) ->
  own_entries (with_objects w1 (<[o := with_thread d target]> (objects w))) r = own_entries w r.
Proof.
  intros K Ho (Eo & _ & _ & Q & _) Hr Ht. unfold own_entries. simpl.
  destruct (decide (r = o)) as [->|Hne].
  - destruct Hr as [[t ->]|]; [|done]. unfold aview. rewrite fmap_insert, lookup_insert_eq, lookup_fmap, Ho. simpl.
    change (queue_of (with_objects w1 _) t) with (queue_of w1 t). rewrite (Q t) by auto.
    unfold moved_queue. rewrite filter_app, entries_of_not, !decide_True by done. simpl.
    unfold taken_entries. destruct (mThread d); [|done]. by rewrite entries_of_of, decide_True.
  - unfold aview. rewrite fmap_insert, lookup_insert_ne by done. rewrite lookup_fmap.
    destruct (objects w !! r) as [dr|] eqn:Er; [|done]. simpl. destruct (mThread dr) as [l|] eqn:El; [|done].
    change (queue_of (with_objects w1 _) l) with (queue_of w1 l). rewrite (Q l) by by apply (k_thread _ K _ _ _ Er).
    unfold moved_queue. rewrite filter_app, entries_of_not, decide_False by done.
    case_decide; [|by rewrite app_nil_r]. unfold taken_entries.
    destruct (mThread d); [rewrite entries_of_of, decide_False by done|]; by rewrite app_nil_r.
Qed.

Lemma with_thread_same d : with_thread d (mThread d) = d.
Proof. by destruct d. Qed.

Lemma thread_all_cons m o d old moved target : m !! o = Some d ->
  thread_all (<[o := with_thread d target]> m) moved target = thread_all m ((o, old) :: moved) target.
Proof.
  intros Ho. apply map_eq. intros x. unfold thread_all. rewrite !map_lookup_imap. destruct (decide (x = o)) as [->|].
  - rewrite lookup_insert_eq, Ho. simpl. rewrite (decide_True (P := o ∈ o :: _)) by by left. f_equal. by case_decide.
  - rewrite lookup_insert_ne by done. destruct (m !! x) as [dx|]; [|done]. simpl. f_equal.
    destruct (decide (x ∈ moved.*1)); [by rewrite decide_True by by right|].
    by rewrite decide_False by (intros [?|?]%elem_of_cons; done).
Qed.

(** What the migration of the collected objects achieves. *)
Record migrated (w : World) (moved : list oid) (target : option oid) (w' : World) : Prop := {
  mg_ok : kernel_ok w';
  mg_loops : dom (loops w') = dom (loops w);
  mg_current : t_current_loop w' = t_current_loop w;
  mg_own : forall r, is_Some target \/ r ∉ moved -> own_entries w' r = own_entries w r;
  mg_prefix : forall t, target = Some t -> queue_of w t `prefix_of` queue_of w' t;
  mg_dropped : forall r e, target = None -> r ∈ moved -> e ∈ own_entries w r -> events w' !! mEvent e = None;
  mg_events : forall i ev, events w' !! i = Some ev -> events w !! i = Some ev
}.

(** The first object's step, skipped when it is already there. *)
Lemma first_step w o d target :
  kernel_ok w -> objects w !! o = Some d -> (forall t, target = Some t -> is_Some (loops w !! t)) ->
  exists w1, move_entries w target o (mThread d) = Ret w1 /\ objects w1 = objects w /\
    migrated w [o] target (with_objects w1 (<[o := with_thread d target]> (objects w))).
Proof.
  intros K Ho Ht. destruct (decide (mThread d = target)) as [<-|Hne].
  - exists w. unfold move_entries. rewrite bool_decide_eq_true_2 by done. split; [done|]. split; [done|].
    rewrite with_thread_same, insert_id by done. replace (with_objects w (objects w)) with w by by destruct w.
    split; try done. intros r e Hn ->%list_elem_of_singleton He. unfold own_entries, aview in He.
    rewrite lookup_fmap, Ho in He. simpl in He. rewrite Hn in He. by apply not_elem_of_nil in He.
  - destruct (move_step w o d target K Ho Hne Ht) as (w1 & E & S). pose proof S as (Eo & Ec & Ed & Q & Dr & Ke & K1).
    exists w1. split; [done|]. split; [done|]. split; [done|done|done| | | |done].
    + intros r Hr. apply own_entries_step; [done..| |done]. destruct Hr as [?|Hr]; [by left|right]. intros ->. apply Hr. by left.
    + intros t ->. change (queue_of (with_objects w1 _) t) with (queue_of w1 t). rewrite (Q t) by auto. unfold moved_queue.
      rewrite (entries_not_elsewhere w t o d) by done. by apply prefix_app_r.
    + intros r e -> ->%list_elem_of_singleton He. apply Dr; [done|]. unfold own_entries, aview in He.
      rewrite lookup_fmap, Ho in He. exact He.
Qed.

Lemma migrated_trans w w1 w2 o moved target :
  migrated w [o] target w1 -> migrated w1 moved target w2 -> o ∉ moved -> migrated w (o :: moved) target w2.
Proof.
  intros [K1 L1 C1 O1 P1 D1 E1] [K2 L2 C2 O2 P2 D2 E2] Hn. split; [done|congruence|congruence| | | |auto].
  - intros r Hr. etrans; [apply O2|apply O1]; (destruct Hr as [?|Hr]; [by left|right; intros Hin; apply Hr]).
    + by right.
    + apply list_elem_of_singleton in Hin as ->. by left.
  - intros t Ht. etrans; [by apply P1|by apply P2].
  - intros r e Ht [->|Hr]%elem_of_cons He.
    + pose proof (D1 o e Ht ltac:(by left) He) as Hd. destruct (events w2 !! mEvent e) eqn:Ev; [|done]. apply E2 in Ev. congruence.
    + apply (D2 r e Ht Hr). rewrite O1; [done|]. right. rewrite list_elem_of_singleton. by intros ->.
Qed.

Lemma migrate_all_spec h target : forall moved w,
  kernel_ok w -> NoDup moved.*1 -> (forall x th, (x, th) ∈ moved -> aview (objects w) !! x = Some th) ->
  (forall t, target = Some t -> is_Some (loops w !! t)) ->
  exists w', (do w <- migrate h w moved target; migrate_entries w moved target) = Ret w' /\
    objects w' = thread_all (objects w) moved target /\ migrated w moved.*1 target w'.
Proof.
  induction moved as [|[o old] moved IH]; intros w K N A Ht.
  - exists w. split; [done|]. split; [by rewrite thread_all_nil|]. split; try done. intros r e _ Hr. by apply not_elem_of_nil in Hr.
  - simpl in N. apply NoDup_cons in N as [Hn N].
    destruct (aview_thread_inv _ _ _ (A o old ltac:(by left))) as (d & Ho & <-).
    destruct (first_step w o d target K Ho Ht) as (w1 & E & Eo & M1).
    rewrite (migrate_interleave h target o (mThread d) moved w d w1 Ho); [| |done|done].
    2: { intros x Hx. apply list_elem_of_fmap in Hx as ([x' th] & -> & Hx). destruct (aview_thread_inv _ _ _ (A x' th ltac:(by right))) as (dx & ? & _). eauto. }
    cbn zeta. destruct (IH (with_objects w1 (<[o := with_thread d target]> (objects w)))) as (w2 & -> & Eo2 & M2).
    + apply M1.
    + done.
    + intros x th Hx. simpl. unfold aview. rewrite fmap_insert, lookup_insert_ne; [apply A; by right|].
      intros <-. apply Hn. apply list_elem_of_fmap. by exists (o, th).
    + intros t Hte. apply elem_of_dom. rewrite (mg_loops _ _ _ _ M1). apply elem_of_dom. auto.
    + exists w2. split; [done|]. split; [|by eapply migrated_trans].
      rewrite Eo2. simpl. by apply thread_all_cons.
Qed.

(** Whether an optional loop may be left or entered. *)
Definition idle (w : World) (l : option oid) : Prop :=
  match l with None => True | Some l => exists d, loops w !! l = Some d /\ negb (mExit d) && mInExec d = false end.

Lemma not_running_idle w l : idle w l -> not_running w l = Ret true.
Proof.
  destruct l as [l|]; [|done]. intros (d & Hl & E). unfold not_running, is_running. rewrite (l_func_ret _ _ _ Hl). simpl. by rewrite E.
Qed.

(** C11: [move_to_loop] between loops that are not running, on a well-formed heap and with
    any fuel above the number of objects, terminates.  Exactly the objects of the
    subtree change affinity; tree and filter links are untouched and the heap stays
    well-formed.  With a target loop, every object of the heap still has exactly its
    own entries, in the same order, and what the target already queued keeps its
    place in front; without one, the subtree's entries are dropped and released. *)
Theorem move_to_loop_correct h w o d target fuel :
  kernel_ok w -> objects w !! o = Some d -> idle w (mThread d) -> idle w target -> (size (objects w) < fuel)%nat ->
  exists w', move_to_loop h fuel w o target = Ret w' /\ kernel_ok w' /\
    tview (objects w') = tview (objects w) /\ fview (objects w') = fview (objects w) /\
    (mThread d <> target ->
     (forall x, below (tview (objects w)) x o -> aview (objects w') !! x = Some target) /\
     (forall x, ~ below (tview (objects w)) x o -> aview (objects w') !! x = aview (objects w) !! x) /\
     (forall r, is_Some target \/ ~ below (tview (objects w)) r o -> own_entries w' r = own_entries w r) /\
     (forall t, target = Some t -> queue_of w t `prefix_of` queue_of w' t) /\
     (forall r e, target = None -> below (tview (objects w)) r o -> e ∈ own_entries w r -> events w' !! mEvent e = None)).
Proof.
  intros K Ho Is It Hf. unfold move_to_loop. rewrite (d_func_ret _ _ _ Ho). cbn [run_bind].
  case_bool_decide as E; [exists w; by split_and!|]. rewrite !not_running_idle by done. cbn [run_bind check].
  destruct (subtree_list (tview (objects w)) o (k_tree _ K)) as (L & F & HL); [apply tview_is_Some; eauto|].
  unfold tview in HL. rewrite map_size_fmap in HL.
  destruct (collect_spec w (k_tree _ K) fuel [o] L F) as (l & -> & PL & Al); [lia|]. cbn [run_bind].
  assert (Hb : forall x, x ∈ ((o, mThread d) :: l).*1 <-> below (tview (objects w)) x o).
  { intros x. change (((o, mThread d) :: l).*1) with ([o] ++ l.*1). rewrite PL, (fo_nodes _ _ _ F). split.
    - by intros (a & ->%list_elem_of_singleton & B).
    - intros B. exists o. split; [by left|done]. }
  destruct (migrate_all_spec h target ((o, mThread d) :: l) w K) as (w' & -> & Eo & M).
  { change (((o, mThread d) :: l).*1) with ([o] ++ l.*1). rewrite PL. apply (fo_nodes_once _ _ _ F). }
  { intros x th [[= -> ->]|Hx]%elem_of_cons; [|by apply Al]. unfold aview. by rewrite lookup_fmap, Ho. }
  { intros t ->. destruct It as (dt & ? & _). eauto. }
  assert (V : forall {A} (g : ObjectPrivate -> A), (forall dd th, g (with_thread dd th) = g dd) -> g <$> objects w' = g <$> objects w).
  { intros A g Hg. rewrite Eo. apply map_eq. intros x. unfold thread_all. rewrite !lookup_fmap, map_lookup_imap.
    destruct (objects w !! x); [|done]. simpl. f_equal. by case_decide. }
  exists w'. split; [done|]. split; [apply M|]. split; [by apply V|]. split; [by apply V|]. intros _.
  split; [|split; [|split; [|split]]].
  - intros x Hx. assert (is_Some (objects w !! x)) as [dx Hdx].
    { apply tview_is_Some. destruct (decide (x = o)) as [->|]; [apply tview_is_Some; eauto|by eapply below_dead]. }
    unfold aview. rewrite Eo, lookup_fmap. unfold thread_all. rewrite map_lookup_imap, Hdx. simpl. by rewrite decide_True by by apply Hb.
  - intros x Hx. unfold aview. rewrite Eo, !lookup_fmap. unfold thread_all. rewrite map_lookup_imap.
    destruct (objects w !! x); [|done]. simpl. by rewrite decide_False by by rewrite Hb.
  - intros r Hr. apply (mg_own _ _ _ _ M). by rewrite Hb.
  - apply (mg_prefix _ _ _ _ M).
  - intros r e Ht Hr He. apply (mg_dropped _ _ _ _ M r e); [done|by apply Hb|done].
Qed.
