(* ===== verification/KernelWitness.v ===== *)
(** * The kernel on concrete heaps

    A small heap, checked against the invariants, on which the kernel's theorems
    apply, and the histories that show where the kernel departs from what it
    documents. *)

From stdpp Require Import prelude list numbers gmap strings sets sorting.
From Stdlib Require Import ZArith Lia.
From S2P Require Import Prelude Event Kernel KernelInv ObjectTree KernelDestroy KernelLoop KernelMove.

#[local] Open Scope Z_scope.
#[local] Open Scope cxx_scope.

(** ** A sample heap
    Object 1 has the children 2 and 3; object 4 filters 2; loop 9 is the loop of all
    of them and holds an event for 2 and a deferred delete for 3; loop 8 is empty. *)
Definition sample_node (p : option oid) (kids fs ws : list oid) : ObjectPrivate :=
  mkObject p kids fs ws (Some 9%positive) [] EmptyString ∅ None.

Definition sample_loop : EventLoopPrivate :=
  mkLoop new_dispatcher [UserFn 1%positive] [mkEntry 2%positive 1%positive 5; mkEntry 3%positive 2%positive 0] 0 false true (-1) false.

Definition sample : World := mkWorld
  (<[1%positive := sample_node None [2; 3]%positive [] []]>
   (<[2%positive := sample_node (Some 1%positive) [] [4%positive] []]>
    (<[3%positive := sample_node (Some 1%positive) [] [] []]>
     (<[4%positive := sample_node None [] [] [2%positive]]>
      (<[8%positive := new_object None]> (<[9%positive := new_object None]> ∅))))))
  (<[9%positive := sample_loop]> (<[8%positive := new_loop]> ∅))
  (<[1%positive := make_event 1000]> (<[2%positive := make_deferred_delete_event]> (<[3%positive := make_event 1001]> ∅)))
  None None [].

(** Splits a lookup in a concrete map into its cases. *)
Ltac lookup_cases H :=
  repeat (apply lookup_insert_Some in H as [[<- <-]|[_ H]] || (apply lookup_insert_Some in H; destruct H as [[? ?]|[? H]]; simplify_eq));
  try (by apply lookup_empty_Some in H).

Ltac elem_cases H := repeat (apply elem_of_cons in H as [->|H]); try (by apply not_elem_of_nil in H).

Lemma sample_tree : tree_ok (tview (objects sample)).
Proof.
  split.
  - intros o p l H. apply tview_lookup_inv in H as (d & H & E). simpl in H. lookup_cases H; simplify_eq/=.
    + eexists _, _. split; [done|]. by left.
    + eexists _, _. split; [done|]. right. by left.
  - intros p q k c H Hc. apply tview_lookup_inv in H as (d & H & E). simpl in H. lookup_cases H; simplify_eq/=; elem_cases Hc; by eexists.
  - intros p q k H. apply tview_lookup_inv in H as (d & H & E). simpl in H. lookup_cases H; simplify_eq/=; repeat constructor; set_solver.
  - exists (fun o => if decide (o = 1%positive) then 1%nat else 0%nat). intros o p l H.
    apply tview_lookup_inv in H as (d & H & E). simpl in H. lookup_cases H; simplify_eq/=; vm_compute; lia.
Qed.

Lemma sample_filters : filters_ok (fview (objects sample)).
Proof.
  split.
  - intros o fs ws x H Hx. apply fview_lookup_inv in H as (d & H & E). simpl in H.
    lookup_cases H; simplify_eq/=; elem_cases Hx. split; [done|]. eexists _, _. split; [done|]. by left.
  - intros x fs ws o H Hx. apply fview_lookup_inv in H as (d & H & E). simpl in H.
    lookup_cases H; simplify_eq/=; elem_cases Hx. eexists _, _. split; [done|]. by left.
  - intros o fs ws H. apply fview_lookup_inv in H as (d & H & E). simpl in H.
    lookup_cases H; simplify_eq/=; split; repeat constructor; set_solver.
Qed.

Lemma sample_ok : kernel_ok sample.
Proof.
  split; [apply sample_tree|apply sample_filters| | |done].
  - split.
    + intros l d e H He. simpl in H. lookup_cases H; elem_cases He; by eexists.
    + intros l d H. simpl in H. lookup_cases H; repeat constructor; set_solver.
    + intros l1 d1 e1 l2 d2 e2 H1 He1 H2 He2 _. simpl in H1, H2.
      lookup_cases H1; lookup_cases H2; (done || elem_cases He1; elem_cases He2).
    + intros l d e H He. simpl in H. by lookup_cases H; elem_cases He.
    + intros l d H. simpl in H. by lookup_cases H; repeat constructor.
  - intros o d l H Hl. simpl in H. lookup_cases H; simplify_eq/=; by eexists.
Qed.

Lemma sample_no_loops o : o <> 8%positive -> o <> 9%positive -> no_loops_below sample o.
Proof.
  intros H8 H9 x Hx. destruct (loops sample !! x) as [d|] eqn:E; [|done]. simpl in E.
  lookup_cases E; inversion Hx as [|? y ? [l Hy]]; subst; (done || by vm_compute in Hy).
Qed.

Lemma sample_receivers : no_loop_receivers sample 9.
Proof. intros e He. change (queue_of sample 9) with (mEventQueue sample_loop) in He. by elem_cases He; apply sample_no_loops. Qed.

(** ** Witnesses *)
Lemma set_parent_correct_witness :
  set_parent base_hooks 10 sample 3 (Some 2%positive) = Ret (relinked_world sample 3 (Some 2%positive)) /\
  kernel_ok (relinked_world sample 3 (Some 2%positive)).
Proof.
  destruct (set_parent_correct base_hooks sample 3 (Some 2%positive) 10) as [[H _]|(H & _ & K)];
    [apply sample_ok|by eexists|intros n [= <-]; by eexists|vm_compute; lia|by vm_compute in H|].
  split; [|done]. etransitivity; [apply H|]. by vm_compute.
Defined.

Lemma install_event_filter_correct_witness :
  install_event_filter sample 3 4 = Ret (refiltered_world true sample 3 4) /\ kernel_ok (refiltered_world true sample 3 4).
Proof.
  destruct (install_event_filter_correct sample 3 4) as [H K]; [apply sample_ok|by eexists|by eexists|].
  split; [apply H|by apply K].
Defined.


Lemma post_event_correct_witness :
  exists w', post_event sample 2 3 0 = Ret w' /\
    queue_of w' 9 = [mkEntry 2%positive 1%positive 5; mkEntry 3%positive 2%positive 0; mkEntry 2%positive 3%positive 0].
Proof.
  pose proof (post_event_correct sample 2 (sample_node (Some 1%positive) [] [4%positive] []) 3 (make_event 1001) 0 sample_ok eq_refl eq_refl) as H.
  destruct H as (d & Hd & E & _).
  - intros l d e H He. simpl in H. by lookup_cases H; elem_cases He.
  - vm_compute in Hd. injection Hd as <-. eexists. split; [apply E|]. by vm_compute.
Defined.

Lemma delete_later_correct_witness :
  exists w', delete_later sample 3 7 = Ret w' /\ kernel_ok w' /\ deferred_count w' 9 3 = 1%nat.
Proof.
  destruct (delete_later_correct sample 3 (sample_node (Some 1%positive) [] [] []) 7 sample_ok eq_refl eq_refl)
    as (dl & w' & Hl & E & K & _ & Hc).
  exists w'. split; [done|]. split; [done|]. apply Hc. vm_compute. lia.
Defined.

Lemma send_event_correct_witness :
  send_event base_hooks 5 sample 2 (accept (make_event 1000)) = Ret (note sample (Delivered 2 (accept (make_event 1000))), true).
Proof.
  rewrite (send_event_correct base_hooks (fun _ _ e => (e, false)) 5 sample 2 (sample_node (Some 1%positive) [] [4%positive] []));
    [by vm_compute|done|apply sample_ok|done|done].
Defined.


(** A driver that exits with code 7 when it is asked for more events. *)
Definition quitting_hooks : hooks := mkHooks (h_event_filter base_hooks) (h_timer_event base_hooks) (h_child_event base_hooks)
  (h_custom_event base_hooks) (h_call base_hooks) (fun l _ w => do w <- exit w l 7; Ret (w, true)).

#[local] Instance quitting_hooks_quiet : Quiet quitting_hooks.
Proof. split; intros; simpl; eauto. Qed.

Lemma exec_correct_witness : exists w', exec quitting_hooks 20 sample 9 = Ret (w', 7) /\ t_current_loop w' = None.
Proof.
  destruct (exec_correct quitting_hooks 20 sample 9 sample_loop 7) as (w' & d' & E & C & _);
    [done|apply sample_ok|done|apply sample_receivers|done|vm_compute; lia|].
  by exists w'.
Defined.

Lemma move_to_loop_correct_witness :
  exists w', move_to_loop base_hooks 10 sample 1 (Some 8%positive) = Ret w' /\ kernel_ok w' /\
    aview (objects w') !! 3%positive = Some (Some 8%positive) /\ own_entries w' 2 = [mkEntry 2 1 5].
Proof.
  destruct (move_to_loop_correct base_hooks sample 1 (sample_node None [2; 3]%positive [] []) (Some 8%positive) 10)
    as (w' & E & K & _ & _ & H); [apply sample_ok|done|by eexists|by eexists|vm_compute; lia|].
  destruct (H ltac:(done)) as (A & _ & O & _). exists w'. split; [done|]. split; [done|].
  split; [apply A, rtc_once; by eexists|]. rewrite O; [done|left; by eexists].
Defined.

Lemma find_children_correct_witness :
  exists l, find_children (fun _ => true) EmptyString true sample 7 1 = Ret l /\
    find_child (fun _ => true) EmptyString true sample 7 1 = Ret (head l) /\ 3%positive ∈ l.
Proof.
  destruct (find_children_correct (fun _ => true) EmptyString sample 1 7) as (l & E & F & H);
    [apply sample_ok|by eexists|vm_compute; lia|].
  exists l. split; [done|]. split; [done|]. apply H.
  split; [apply rtc_once; by eexists|]. split; [done|]. split; [done|by left].
Defined.

(** ** Histories *)

Definition empty_world : World := mkWorld ∅ ∅ ∅ None None [].
Definition world_of (m : run World) : World := match m with Ret w => w | _ => empty_world end.

(** [EventLoop]'s constructor replaces the private part that [Object(parent)]
    has just linked, and restores only the affinity.  A loop constructed with a
    parent is in the parent's children but has no parent itself, so its destructor
    does not leave the list, and destroying the parent deletes the loop twice. *)
Theorem loop_with_parent_deleted_twice :
  let w := world_of (do w <- construct base_hooks 5 empty_world 1 None; construct_loop base_hooks 5 w 2 (Some 1%positive)) in
  children w 1 = Ret [2%positive] /\ parent w 2 = Ret None /\ delete_object base_hooks 5 w 1 = Undef.
Proof. vm_compute. auto. Qed.

(** [move_to_loop] appends migrated entries at the end of the target queue
    whatever their priority.  An entry of priority 5 migrated behind one of priority
    0 is dispatched after it, against the documented order. *)
Theorem move_to_loop_breaks_priority_order :
  let w := world_of (
    do w <- construct_loop base_hooks 9 empty_world 1 None;
    do w <- construct_loop base_hooks 9 w 2 None;
    do w <- construct base_hooks 9 w 3 None; do w <- move_to_loop base_hooks 9 w 3 (Some 1%positive);
    do w <- construct base_hooks 9 w 4 None; do w <- move_to_loop base_hooks 9 w 4 (Some 2%positive);
    do w <- post_event (with_events w (<[1%positive := make_event 1000]> (<[2%positive := make_event 1000]> ∅))) 4 1 0;
    do w <- post_event w 3 2 5;
    move_to_loop base_hooks 9 w 3 (Some 2%positive)) in
  queue_of w 2 = [mkEntry 4 1 0; mkEntry 3 2 5] /\ ~ sorted_queue (queue_of w 2).
Proof.
  intros w. assert (E : queue_of w 2 = [mkEntry 4 1 0; mkEntry 3 2 5]) by by vm_compute.
  rewrite E. split; [done|]. intros S. apply StronglySorted_inv in S as [_ S]. apply Forall_inv in S.
  unfold dispatch_order in S. simpl in S. lia.
Qed.

(** [delete_later] of an object without affinity queues on the calling
    thread's current loop, and nothing remembers which.  When that loop leaves [exec]
    before its next drain and the object is then destroyed, no queue is swept, and
    the loop's next round dispatches to the dead object. *)
Theorem fallback_delete_later_dangles :
  let w := world_of (
    do w <- construct_loop base_hooks 9 empty_world 1 None;
    do w <- construct base_hooks 9 w 3 None;
    do w <- delete_later (with_current w (Some 1%positive)) 3 1;
    delete_object base_hooks 9 (with_current w None) 3) in
  objects w !! 3%positive = None /\ queue_of w 1 = [mkEntry 3 1 0] /\ process_events base_hooks 9 w 1 false = Undef.
Proof. vm_compute. auto. Qed.

(** A zero-interval one-shot timer is posted as a closure over the object,
    under an id no driver knows.  Following the documented contract (kill the timer on
    its thread, then destroy the object there) leaves the closure in the post queue,
    and the next round reads the dead object. *)
Theorem killed_zero_timer_dangles :
  let w := world_of (
    do w <- construct_loop base_hooks 9 empty_world 1 None;
    do w <- construct base_hooks 9 (with_current w (Some 1%positive)) 3 None;
    do (w, id) <- start_timer w 3 0 false;
    do w <- kill_timer w 3 id;
    delete_object base_hooks 9 w 3) in
  objects w !! 3%positive = None /\ posts_of w 1 = [ObjectTick 3 1] /\ process_events base_hooks 9 w 1 false = Undef.
Proof. vm_compute. auto. Qed.
