(* ===== verification/CopyOnWrite.v ===== *)
(** * copy_on_write

    Models [detail::copy_on_write] of [src/cxxkit/kernel/signals.hpp], the container of
    the slot lists: payloads with a reference count on a heap, objects that hold a pointer
    to one or the null pointer they are left with when moved from. Shows that the objects
    behave as independent values, that the count is the number of objects sharing a
    payload, and that payloads are freed exactly when the last object lets go.

    Counts are unbounded naturals: an overflow needs more objects than addresses. *)

From stdpp Require Import prelude list gmap.
From Stdlib Require Import Lia.
From S2P Require Import Prelude.

#[local] Open Scope cxx_scope.

Section Cow.
Context {T : Type}.

Definition loc := positive.
Definition handle := positive.

Record payload := mkPayload { count : nat; value : T }.
Record store := mkStore { heap : gmap loc payload; objects : gmap handle (option loc); next_loc : loc }.

Definition with_heap (s : store) x := mkStore x (objects s) (next_loc s).
Definition with_objects (s : store) x := mkStore (heap s) x (next_loc s).

(** ** Operations *)

(** [new payload(v)] *)
Definition new_payload (s : store) (v : T) : store * loc :=
  (mkStore (<[next_loc s := mkPayload 1 v]> (heap s)) (objects s) (Pos.succ (next_loc s)), next_loc s).

(** The pointer of the object [h]. *)
Definition mData (s : store) (h : handle) : run (option loc) := deref (objects s !! h).
Definition set_data (s : store) (h : handle) (p : option loc) : store := with_objects s (<[h := p]> (objects s)).

(** The constructors of [h]: from a value, by copy and by move. *)
Definition construct (s : store) (h : handle) (v : T) : store :=
  let (s, l) := new_payload s v in set_data s h (Some l).

Definition increment (s : store) (p : option loc) : run store :=
  do l <- deref p;
  do pl <- deref (heap s !! l);
  Ret (with_heap s (<[l := mkPayload (S (count pl)) (value pl)]> (heap s))).

Definition copy_construct (s : store) (h x : handle) : run store :=
  do p <- mData s x;
  do s <- increment s p;
  Ret (set_data s h p).

Definition move_construct (s : store) (h x : handle) : run store :=
  do p <- mData s x;
  Ret (set_data (set_data s h p) x None).

(** The destructor's body for the pointer [p]. *)
Definition release (s : store) (p : option loc) : run store :=
  match p with
  | None => Ret s
  | Some l =>
      do pl <- deref (heap s !! l);
      if bool_decide (count pl - 1 = 0) then Ret (with_heap s (delete l (heap s)))
      else Ret (with_heap s (<[l := mkPayload (count pl - 1) (value pl)]> (heap s)))
  end.

Definition destroy (s : store) (h : handle) : run store :=
  do p <- mData s h;
  do s <- release s p;
  Ret (with_objects s (delete h (objects s))).

(** Move assignment from a pointer: [tmp] takes it, is swapped with [h] and destroyed. *)
Definition assign_pointer (s : store) (h : handle) (p : option loc) : run store :=
  do old <- mData s h;
  release (set_data s h p) old.

Definition move_assign (s : store) (h x : handle) : run store :=
  do p <- mData s x;
  assign_pointer (set_data s x None) h p.

Definition copy_assign (s : store) (h x : handle) : run store :=
  if bool_decide (x = h) then Ret s
  else
    do p <- mData s x;
    do s <- increment s p;
    assign_pointer s h p.

Definition read (s : store) (h : handle) : run T :=
  do p <- mData s h;
  do l <- deref p;
  do pl <- deref (heap s !! l); Ret (value pl).

Definition unique (s : store) (h : handle) : run bool :=
  do p <- mData s h;
  do l <- deref p;
  do pl <- deref (heap s !! l); Ret (bool_decide (count pl = 1)).

(** [write()], with the change [f] its caller makes through the reference. *)
Definition write (s : store) (h : handle) (f : T -> T) : run store :=
  do u <- unique s h;
  do s <- (if (u : bool) then Ret s
           else
             do v <- read s h;
             let (s, l) := new_payload s v in
             assign_pointer s h (Some l));
  do p <- mData s h;
  do l <- deref p;
  do pl <- deref (heap s !! l);
  Ret (with_heap s (<[l := mkPayload (count pl) (f (value pl))]> (heap s))).

(** ** References *)
Definition refs (m : gmap handle (option loc)) (l : loc) : nat := size (filter (fun p => p.2 = Some l) m).
Definition one (b : bool) : nat := if b then 1 else 0.

Lemma refs_insert (m : gmap handle (option loc)) (h : handle) (p : option loc) (l : loc) :
  m !! h = None -> refs (<[h := p]> m) l = refs m l + one (bool_decide (p = Some l)).
Proof.
  intros Hh. unfold refs. rewrite map_filter_insert. cbn. destruct (decide (p = Some l)) as [->|Hp].
  - rewrite bool_decide_true by done. rewrite map_size_insert_None; [cbn; lia|].
    apply map_lookup_filter_None. by left.
  - rewrite bool_decide_false by done. rewrite delete_id by done. cbn. lia.
Qed.

Lemma refs_delete (m : gmap handle (option loc)) (h : handle) (p : option loc) (l : loc) :
  m !! h = Some p -> refs m l = refs (delete h m) l + one (bool_decide (p = Some l)).
Proof.
  intros Hh. rewrite <- (refs_insert _ h) by apply lookup_delete_eq. by rewrite insert_delete_id.
Qed.

Lemma refs_update (m : gmap handle (option loc)) (h : handle) (old p : option loc) (l : loc) :
  m !! h = Some old ->
  refs (<[h := p]> m) l + one (bool_decide (old = Some l)) = refs m l + one (bool_decide (p = Some l)).
Proof.
  intros Hh. rewrite (refs_delete m h old l Hh), <- (insert_delete_eq m h p).
  rewrite refs_insert by apply lookup_delete_eq. lia.
Qed.

Lemma refs_pos (m : gmap handle (option loc)) (h : handle) (l : loc) : m !! h = Some (Some l) -> 0 < refs m l.
Proof. intros Hh. rewrite (refs_delete m h (Some l) l Hh), bool_decide_true by done. cbn. lia. Qed.

(** ** The invariant, relative to a set of pointers in flight: [extra l] references beyond
    the objects' *)
Definition counted (s : store) (extra : loc -> nat) : Prop :=
  (forall l pl, heap s !! l = Some pl -> count pl = refs (objects s) l + extra l /\ 0 < count pl) /\
  (forall l, 0 < refs (objects s) l + extra l -> is_Some (heap s !! l)) /\
  (forall l, is_Some (heap s !! l) -> (l < next_loc s)%positive).

Definition store_ok (s : store) : Prop := counted s (fun _ => 0).

(** The value an object stands for. *)
Definition val (s : store) (h : handle) : option T :=
  p ← objects s !! h; l ← p; value <$> heap s !! l.

Definition point (p : option loc) (l : loc) : nat := one (bool_decide (p = Some l)).
Definition plus (e e' : loc -> nat) (l : loc) : nat := e l + e' l.

Lemma counted_ext (s : store) (e e' : loc -> nat) : (forall l, e l = e' l) -> counted s e -> counted s e'.
Proof.
  intros He (H1 & H2 & H3). split_and!; [| |done].
  - intros l pl. rewrite <- He. apply H1.
  - intros l. rewrite <- He. apply H2.
Qed.

(** The values of the payloads that are left are what they were. *)
Definition same_values (s s' : store) : Prop :=
  forall l pl', heap s' !! l = Some pl' -> exists pl, heap s !! l = Some pl /\ value pl' = value pl.

#[export] Instance same_values_preorder : PreOrder same_values.
Proof.
  split; [by intros s l pl H; exists pl|]. intros s1 s2 s3 A B l pl3 (pl2 & H2 & E2)%B.
  destruct (A l pl2 H2) as (pl1 & ? & ?). exists pl1. split; [done|]. congruence.
Qed.

Lemma val_same (s s' : store) (e : loc -> nat) (x : handle) :
  counted s' e -> same_values s s' -> objects s' !! x = objects s !! x -> val s' x = val s x.
Proof.
  intros (_ & H2 & _) Hs Ho. unfold val. rewrite Ho. destruct (objects s !! x) as [[l|]|] eqn:Hx; [|done|done]. cbn.
  destruct (H2 l) as [pl' Hl']; [pose proof (refs_pos (objects s') x l ltac:(by rewrite Ho)); lia|].
  destruct (Hs l pl' Hl') as (pl & Hl & E). rewrite Hl', Hl. cbn. by rewrite E.
Qed.

(** ** The steps of the operations *)
Lemma new_payload_ok (s : store) (e : loc -> nat) (v : T) :
  counted s e -> counted (new_payload s v).1 (plus e (point (Some (next_loc s)))) /\
    (forall l, is_Some (heap s !! l) -> heap (new_payload s v).1 !! l = heap s !! l) /\
    heap (new_payload s v).1 !! next_loc s = Some (mkPayload 1 v).
Proof.
  intros (H1 & H2 & H3). assert (Hf : heap s !! next_loc s = None).
  { apply eq_None_not_Some. intros Hs%H3. lia. }
  assert (Hz : refs (objects s) (next_loc s) + e (next_loc s) = 0).
  { destruct (refs _ _ + _) eqn:E; [done|]. destruct (H2 (next_loc s)) as [? Hx]; [lia|]. by rewrite Hf in Hx. }
  cbn. split_and!; [split_and!| |by rewrite lookup_insert_eq]; cbn.
  - intros l pl. destruct (decide (l = next_loc s)) as [->|Hne].
    + rewrite lookup_insert_eq. intros [= <-]. unfold plus, point. rewrite bool_decide_true by done. cbn. lia.
    + rewrite lookup_insert_ne by done. intros Hl. unfold plus, point. rewrite bool_decide_false by congruence. cbn.
      destruct (H1 l pl Hl). lia.
  - intros l. rewrite lookup_insert_is_Some'. unfold plus, point. destruct (decide (l = next_loc s)) as [->|Hne]; [by left|].
    rewrite bool_decide_false by congruence. cbn. intros Hl. right. apply H2. lia.
  - intros l. rewrite lookup_insert_is_Some'. intros [<-|Hl]; [lia|]. specialize (H3 l Hl). lia.
  - intros l Hl. apply lookup_insert_ne. intros <-. rewrite Hf in Hl. by destruct Hl.
Qed.

Lemma set_data_ok (s : store) (e : loc -> nat) (h : handle) (old p : option loc) :
  objects s !! h = Some old -> counted s (plus e (point p)) -> counted (set_data s h p) (plus e (point old)).
Proof.
  intros Hh (H1 & H2 & H3). unfold plus, point in *. split_and!; cbn; [| |done].
  - intros l pl Hl. destruct (H1 l pl Hl). pose proof (refs_update (objects s) h old p l Hh). lia.
  - intros l Hl. apply H2. pose proof (refs_update (objects s) h old p l Hh). lia.
Qed.

Lemma set_data_new (s : store) (e : loc -> nat) (h : handle) (p : option loc) :
  objects s !! h = None -> counted s (plus e (point p)) -> counted (set_data s h p) e.
Proof.
  intros Hh (H1 & H2 & H3). unfold plus, point in *. split_and!; cbn; [| |done].
  - intros l pl Hl. destruct (H1 l pl Hl). rewrite refs_insert by done. lia.
  - intros l Hl. apply H2. rewrite refs_insert in Hl by done. lia.
Qed.

Lemma delete_object_ok (s : store) (h : handle) (p : option loc) (e : loc -> nat) :
  objects s !! h = Some p -> counted s e -> counted (with_objects s (delete h (objects s))) (plus e (point p)).
Proof.
  intros Hh (H1 & H2 & H3). unfold plus, point. split_and!; cbn; [| |done].
  - intros l pl Hl. destruct (H1 l pl Hl). rewrite (refs_delete _ h p l Hh) in *. lia.
  - intros l Hl. apply H2. rewrite (refs_delete _ h p l Hh). lia.
Qed.

Lemma increment_ok (s : store) (e : loc -> nat) (l : loc) : is_Some (heap s !! l) -> counted s e ->
  exists s', increment s (Some l) = Ret s' /\ counted s' (plus e (point (Some l))) /\ same_values s s' /\
    objects s' = objects s /\ next_loc s' = next_loc s.
Proof.
  intros [pl Hl] (H1 & H2 & H3). unfold increment. cbn [deref run_bind]. rewrite Hl. cbn [deref run_bind].
  eexists. split; [reflexivity|]. split_and!; [split_and!| |done|done]; cbn.
  - intros k pk. unfold plus, point. destruct (decide (k = l)) as [->|Hne].
    + rewrite lookup_insert_eq. intros [= <-]. rewrite bool_decide_true by done. cbn. destruct (H1 l pl Hl). lia.
    + rewrite lookup_insert_ne by done. intros Hk. rewrite bool_decide_false by congruence. cbn. destruct (H1 k pk Hk). lia.
  - intros k. rewrite lookup_insert_is_Some'. unfold plus, point. destruct (decide (l = k)) as [->|Hne]; [by left|].
    rewrite bool_decide_false by congruence. cbn. intros Hk. right. apply H2. lia.
  - intros k. rewrite lookup_insert_is_Some'. intros [<-|Hk]; [by apply H3; eexists|by apply H3].
  - intros k pk. cbn. destruct (decide (k = l)) as [->|Hne].
    + rewrite lookup_insert_eq. intros [= <-]. by exists pl.
    + rewrite lookup_insert_ne by done. intros Hk. by exists pk.
Qed.

Lemma release_ok (s : store) (e : loc -> nat) (p : option loc) : counted s (plus e (point p)) ->
  exists s', release s p = Ret s' /\ counted s' e /\ same_values s s' /\ objects s' = objects s.
Proof.
  intros Hc. destruct p as [l|].
  2:{ exists s. split_and!; [done| |done|done]. eapply counted_ext; [|exact Hc]. intros l. unfold plus, point. rewrite bool_decide_false by done. cbn. lia. }
  destruct Hc as (H1 & H2 & H3). unfold plus, point in *. cbn [release].
  destruct (H2 l) as [pl Hl]; [rewrite bool_decide_true by done; cbn; lia|]. rewrite Hl. cbn [deref run_bind].
  destruct (H1 l pl Hl) as [Hcl Hpos]. rewrite bool_decide_true in Hcl by done. cbn in Hcl.
  assert (Hoth : forall k, k <> l -> one (bool_decide (Some l = Some k)) = 0).
  { intros k Hk. by rewrite bool_decide_false by congruence. }
  destruct (bool_decide_reflect (count pl - 1 = 0)) as [Hz|Hz]; eexists; (split; [reflexivity|]); split_and!; try done; try split_and!; cbn.
  - intros k pk [Hne Hk]%lookup_delete_Some. destruct (H1 k pk Hk). rewrite Hoth in * by done. lia.
  - intros k Hk. destruct (decide (k = l)) as [->|Hne]; [lia|]. rewrite lookup_delete_ne by done. apply H2. lia.
  - intros k [pk [Hne Hk]%lookup_delete_Some]. apply H3. by eexists.
  - intros k pk. cbn. intros [Hne Hk]%lookup_delete_Some. by exists pk.
  - intros k pk. destruct (decide (k = l)) as [->|Hne].
    + rewrite lookup_insert_eq. intros [= <-]. cbn. lia.
    + rewrite lookup_insert_ne by done. intros Hk. destruct (H1 k pk Hk). rewrite Hoth in * by done. lia.
  - intros k Hk. rewrite lookup_insert_is_Some'. destruct (decide (l = k)) as [->|Hne]; [by left|]. right. apply H2. lia.
  - intros k. rewrite lookup_insert_is_Some'. intros [<-|Hk]; [by apply H3; eexists|by apply H3].
  - intros k pk. cbn. destruct (decide (k = l)) as [->|Hne].
    + rewrite lookup_insert_eq. intros [= <-]. by exists pl.
    + rewrite lookup_insert_ne by done. intros Hk. by exists pk.
Qed.

Lemma assign_pointer_ok (s : store) (e : loc -> nat) (h : handle) (p : option loc) :
  is_Some (objects s !! h) -> counted s (plus e (point p)) ->
  exists s', assign_pointer s h p = Ret s' /\ counted s' e /\ same_values s s' /\ objects s' = <[h := p]> (objects s).
Proof.
  intros [old Hh] Hc. unfold assign_pointer, mData. rewrite Hh. cbn [deref run_bind].
  destruct (release_ok (set_data s h p) e old) as (s' & E & Hc' & Hs & Ho); [by apply set_data_ok|].
  exists s'. split_and!; done.
Qed.

Lemma plus_zero (e : loc -> nat) (l : loc) : e l = plus (fun _ => 0) e l.
Proof. done. Qed.

Lemma pointed_live (s : store) (e : loc -> nat) (h : handle) (l : loc) :
  counted s e -> objects s !! h = Some (Some l) -> is_Some (heap s !! l).
Proof. intros (_ & H2 & _) Hh. apply H2. pose proof (refs_pos _ _ _ Hh). lia. Qed.

Lemma val_live (s : store) (h : handle) (v : T) : val s h = Some v ->
  exists l pl, objects s !! h = Some (Some l) /\ heap s !! l = Some pl /\ value pl = v.
Proof.
  unfold val. destruct (objects s !! h) as [[l|]|]; try done. cbn. destruct (heap s !! l) as [pl|] eqn:Hl; [|done].
  intros [= <-]. by exists l, pl.
Qed.

(** What is left when the payload is shared: the object points to a copy of its own. *)
Lemma unshare_ok (s : store) (h : handle) (l : loc) (pl : payload) :
  store_ok s -> objects s !! h = Some (Some l) -> heap s !! l = Some pl ->
  exists s' l' pl', (do u <- unique s h;
      if (u : bool) then Ret s
      else do v <- read s h; let (s, l) := new_payload s v in assign_pointer s h (Some l)) = Ret s' /\
    store_ok s' /\ objects s' = <[h := Some l']> (objects s) /\ heap s' !! l' = Some pl' /\ value pl' = value pl /\
    (forall x, x <> h -> objects s' !! x <> Some (Some l')) /\ (forall x, x <> h -> val s' x = val s x).
Proof.
  intros Hok Hh Hl. unfold unique, read, mData. rewrite Hh. cbn [deref run_bind]. rewrite Hl. cbn [deref run_bind].
  destruct (bool_decide_reflect (count pl = 1)) as [Hc|Hc].
  - exists s, l, pl. split_and!; try done.
    + by rewrite insert_id.
    + intros x Hx Ho. destruct Hok as (H1 & _). destruct (H1 l pl Hl) as [Hn _].
      rewrite (refs_delete _ h _ l Hh), bool_decide_true in Hn by done.
      pose proof (refs_pos (delete h (objects s)) x l ltac:(by rewrite lookup_delete_ne)). cbn in Hn. lia.
  - destruct (new_payload_ok s (fun _ => 0) (value pl) Hok) as (Hc1 & Hfr & Hnew).
    destruct (new_payload s (value pl)) as [s1 l1] eqn:En. injection En as Es1 El1. cbn [fst] in *. subst l1.
    assert (Ho1 : objects s1 = objects s) by (by rewrite <- Es1).
    destruct (assign_pointer_ok s1 (fun _ => 0) h (Some (next_loc s))) as (s2 & E2 & Hc2 & Hs2 & Ho2);
      [rewrite Ho1; by eexists|done|].
    destruct (pointed_live s2 (fun _ => 0) h (next_loc s) Hc2) as [pl' Hpl']; [by rewrite Ho2, lookup_insert_eq|].
    exists s2, (next_loc s), pl'. split_and!; [done|done|by rewrite Ho2, Ho1|done| | |].
    + destruct (Hs2 _ _ Hpl') as (pl1 & Hpl1 & Ev). rewrite Hnew in Hpl1. by injection Hpl1 as <-.
    + intros x Hx. rewrite Ho2, Ho1, lookup_insert_ne by done. intros Ho.
      destruct (pointed_live s (fun _ => 0) x _ Hok Ho) as [? Hlt]. destruct Hok as (_ & _ & H3).
      specialize (H3 (next_loc s) ltac:(by eexists)). lia.
    + intros x Hx. rewrite (val_same s1 s2 (fun _ => 0) x Hc2 Hs2) by (by rewrite Ho2, lookup_insert_ne).
      unfold val. rewrite Ho1. destruct (objects s !! x) as [[k|]|] eqn:Ex; [|done|done]. cbn.
      by rewrite Hfr by exact (pointed_live s (fun _ => 0) x k Hok Ex).
Qed.

(** C23: writing through one object changes its value and no other object's, whether or not
    the payload was shared, and keeps the counts exact: the objects are independent
    values. *)
Theorem write_correct (s : store) (h : handle) (f : T -> T) (v : T) :
  store_ok s -> val s h = Some v ->
  exists s', write s h f = Ret s' /\ store_ok s' /\ val s' h = Some (f v) /\ read s' h = Ret (f v) /\ unique s' h = Ret true /\
    (forall x, x <> h -> val s' x = val s x).
Proof.
  intros Hok Hv. destruct (val_live s h v Hv) as (l & pl & Hh & Hl & <-).
  destruct (unshare_ok s h l pl Hok Hh Hl) as (s1 & l1 & pl1 & E & Hok1 & Ho1 & Hl1 & Ev & Hne & Hoth).
  unfold write. destruct (unique s h) as [u| | |]; try done. cbn [run_bind] in E |- *.
  rewrite E. cbn [run_bind]. unfold mData. rewrite Ho1, lookup_insert_eq. cbn [deref run_bind]. rewrite Hl1. cbn [deref run_bind].
  assert (Hcnt : count pl1 = 1).
  { destruct Hok1 as (H1 & _). destruct (H1 l1 pl1 Hl1) as [-> _].
    rewrite (refs_delete _ h (Some l1) l1) by (by rewrite Ho1, lookup_insert_eq). rewrite bool_decide_true by done.
    enough (refs (delete h (objects s1)) l1 = 0) as -> by done.
    unfold refs. apply map_size_empty_iff, map_empty. intros x. apply map_lookup_filter_None. right. cbn. intros p [Hxh Hx]%lookup_delete_Some ->.
    by apply (Hne x (not_eq_sym Hxh)). }
  eexists. split; [reflexivity|]. split_and!.
  - destruct Hok1 as (H1 & H2 & H3). split_and!; cbn.
    + intros k pk. destruct (decide (k = l1)) as [->|]; [rewrite lookup_insert_eq; intros [= <-]; by apply (H1 l1 pl1)|].
      rewrite lookup_insert_ne by done. apply H1.
    + intros k Hk. rewrite lookup_insert_is_Some'. right. by apply H2.
    + intros k. rewrite lookup_insert_is_Some'. intros [<-|Hk]; [by apply H3; eexists|by apply H3].
  - unfold val. cbn. rewrite Ho1, lookup_insert_eq. cbn. rewrite lookup_insert_eq. cbn. by rewrite Ev.
  - unfold read, mData. cbn. rewrite Ho1, lookup_insert_eq. cbn. rewrite lookup_insert_eq. cbn. by rewrite Ev.
  - unfold unique, mData. cbn. rewrite Ho1, lookup_insert_eq. cbn. rewrite lookup_insert_eq. cbn. by rewrite Hcnt.
  - intros x Hx. rewrite <- (Hoth x Hx). unfold val. cbn. destruct (objects s1 !! x) as [[k|]|] eqn:Ex; [|done|done]. cbn.
    rewrite lookup_insert_ne; [done|]. intros <-. by apply (Hne x Hx).
Qed.

(** An object that takes the payload of [x] stands for its value. *)
Lemma val_of_pointer (s s' : store) (e : loc -> nat) (h : handle) (l : loc) (pl : payload) :
  counted s' e -> same_values s s' -> objects s' !! h = Some (Some l) -> heap s !! l = Some pl -> val s' h = Some (value pl).
Proof.
  intros Hc Hs Ho Hl. destruct (pointed_live s' e h l Hc Ho) as [pl' Hl'].
  destruct (Hs l pl' Hl') as (pl0 & H0 & E). unfold val. rewrite Ho. cbn. rewrite Hl'. cbn. rewrite E. congruence.
Qed.

Lemma copy_construct_ok (s : store) (h x : handle) (v : T) :
  store_ok s -> val s x = Some v -> objects s !! h = None ->
  exists s', copy_construct s h x = Ret s' /\ store_ok s' /\ val s' h = Some v /\ forall y, y <> h -> val s' y = val s y.
Proof.
  intros Hok Hv Hh. destruct (val_live s x v Hv) as (l & pl & Hx & Hl & <-).
  destruct (increment_ok s (fun _ => 0) l ltac:(by eexists) Hok) as (s1 & E & Hc & Hs & Ho & _).
  unfold copy_construct, mData. rewrite Hx. cbn [deref run_bind]. rewrite E. cbn [run_bind].
  assert (Hc' : store_ok (set_data s1 h (Some l))) by (apply set_data_new; [by rewrite Ho|done]).
  eexists. split; [reflexivity|]. split_and!; [done| |].
  - apply (val_of_pointer s _ (fun _ => 0) h l); [done|done|cbn; by rewrite lookup_insert_eq|done].
  - intros y Hy. apply (val_same s _ (fun _ => 0)); [done|done|]. cbn. by rewrite lookup_insert_ne, Ho.
Qed.

Lemma move_construct_ok (s : store) (h x : handle) (v : T) :
  store_ok s -> val s x = Some v -> h <> x -> objects s !! h = None ->
  exists s', move_construct s h x = Ret s' /\ store_ok s' /\ val s' h = Some v /\ val s' x = None /\
    forall y, y <> h -> y <> x -> val s' y = val s y.
Proof.
  intros Hok Hv Hne Hh. destruct (val_live s x v Hv) as (l & pl & Hx & Hl & <-).
  unfold move_construct, mData. rewrite Hx. cbn [deref run_bind].
  assert (Hc : store_ok (set_data (set_data s h (Some l)) x None)).
  { assert (Hcomm : set_data (set_data s h (Some l)) x None = set_data (set_data s x None) h (Some l)).
    { unfold set_data, with_objects. cbn. by rewrite insert_insert_ne. }
    rewrite Hcomm. apply set_data_new; [cbn; by rewrite lookup_insert_ne|].
    apply (set_data_ok s (fun _ => 0) x (Some l) None Hx). eapply counted_ext; [|exact Hok].
    intros k. unfold plus, point. by rewrite bool_decide_false. }
  eexists. split; [reflexivity|]. split_and!; [done| | |].
  - apply (val_of_pointer s _ (fun _ => 0) h l); [done|by intros k pk Hk; exists pk| |done].
    cbn. by rewrite lookup_insert_ne, lookup_insert_eq.
  - unfold val. cbn. by rewrite lookup_insert_eq.
  - intros y Hy Hyx. unfold val. cbn. by rewrite !lookup_insert_ne.
Qed.

Lemma copy_assign_ok (s : store) (h x : handle) (v : T) :
  store_ok s -> val s x = Some v -> h <> x -> is_Some (objects s !! h) ->
  exists s', copy_assign s h x = Ret s' /\ store_ok s' /\ val s' h = Some v /\ forall y, y <> h -> val s' y = val s y.
Proof.
  intros Hok Hv Hne Hh. destruct (val_live s x v Hv) as (l & pl & Hx & Hl & <-).
  destruct (increment_ok s (fun _ => 0) l ltac:(by eexists) Hok) as (s1 & E & Hc & Hs & Ho & _).
  destruct (assign_pointer_ok s1 (fun _ => 0) h (Some l)) as (s2 & E2 & Hc2 & Hs2 & Ho2); [by rewrite Ho|done|].
  unfold copy_assign, mData. rewrite bool_decide_false by done. rewrite Hx. cbn [deref run_bind]. rewrite E. cbn [run_bind].
  exists s2. split_and!; [done|done| |].
  - apply (val_of_pointer s _ (fun _ => 0) h l); [done|by etrans|by rewrite Ho2, lookup_insert_eq|done].
  - intros y Hy. apply (val_same s _ (fun _ => 0)); [done|by etrans|]. by rewrite Ho2, lookup_insert_ne, Ho.
Qed.

Lemma move_assign_ok (s : store) (h x : handle) (v : T) :
  store_ok s -> val s x = Some v -> h <> x -> is_Some (objects s !! h) ->
  exists s', move_assign s h x = Ret s' /\ store_ok s' /\ val s' h = Some v /\ val s' x = None /\
    forall y, y <> h -> y <> x -> val s' y = val s y.
Proof.
  intros Hok Hv Hne Hh. destruct (val_live s x v Hv) as (l & pl & Hx & Hl & <-).
  assert (Hc1 : counted (set_data s x None) (plus (fun _ => 0) (point (Some l)))).
  { apply (set_data_ok s (fun _ => 0) x (Some l) None Hx). eapply counted_ext; [|exact Hok].
    intros k. unfold plus, point. by rewrite bool_decide_false. }
  destruct (assign_pointer_ok (set_data s x None) (fun _ => 0) h (Some l)) as (s2 & E2 & Hc2 & Hs2 & Ho2);
    [cbn; by rewrite lookup_insert_ne|done|].
  unfold move_assign, mData. rewrite Hx. cbn [deref run_bind]. exists s2. split_and!; [done|done| | |].
  - apply (val_of_pointer s _ (fun _ => 0) h l); [done|exact Hs2|by rewrite Ho2, lookup_insert_eq|done].
  - unfold val. rewrite Ho2. cbn. by rewrite lookup_insert_ne, lookup_insert_eq.
  - intros y Hy Hyx. apply (val_same s _ (fun _ => 0)); [done|exact Hs2|]. rewrite Ho2. cbn. by rewrite !lookup_insert_ne.
Qed.

Lemma destroy_ok (s : store) (x : handle) (v : T) : store_ok s -> val s x = Some v ->
  exists s', destroy s x = Ret s' /\ store_ok s' /\ val s' x = None /\ forall y, y <> x -> val s' y = val s y.
Proof.
  intros Hok Hv. destruct (val_live s x v Hv) as (l & pl & Hx & Hl & <-).
  pose proof (delete_object_ok s x (Some l) (fun _ => 0) Hx Hok) as Hc1.
  destruct (release_ok (with_objects s (delete x (objects s))) (fun _ => 0) (Some l) Hc1) as (s2 & E2 & Hc2 & Hs2 & Ho2).
  unfold destroy, mData. rewrite Hx. cbn [deref run_bind].
  assert (E : release s (Some l) = do s' <- release (with_objects s (delete x (objects s))) (Some l); Ret (with_objects s' (objects s))).
  { cbn. rewrite Hl. cbn. by destruct (bool_decide _). }
  rewrite E, E2. cbn [run_bind]. eexists. split; [reflexivity|].
  assert (Es : with_objects (with_objects s2 (objects s)) (delete x (objects (with_objects s2 (objects s)))) = s2).
  { destruct s2. cbn in *. unfold with_objects. cbn. by rewrite Ho2. }
  rewrite Es. split_and!; [done| |].
  - unfold val. rewrite Ho2. cbn. by rewrite lookup_delete_eq.
  - intros y Hy. apply (val_same s _ (fun _ => 0)); [done|exact Hs2|]. rewrite Ho2. cbn. by rewrite lookup_delete_ne.
Qed.

(** Copying, moving, assigning and destroying objects behave as on values: the target
    takes the source's value, a moved-from object none, all others keep theirs, and the
    counts stay exact - no payload is freed while an object points to it, and none is
    left without one. *)
Theorem copies_correct (s : store) (h x : handle) (v : T) :
  store_ok s -> val s x = Some v -> h <> x ->
  (objects s !! h = None ->
    (exists s', copy_construct s h x = Ret s' /\ store_ok s' /\ val s' h = Some v /\ forall y, y <> h -> val s' y = val s y) /\
    (exists s', move_construct s h x = Ret s' /\ store_ok s' /\ val s' h = Some v /\ val s' x = None /\
      forall y, y <> h -> y <> x -> val s' y = val s y)) /\
  (is_Some (objects s !! h) ->
    (exists s', copy_assign s h x = Ret s' /\ store_ok s' /\ val s' h = Some v /\ forall y, y <> h -> val s' y = val s y) /\
    (exists s', move_assign s h x = Ret s' /\ store_ok s' /\ val s' h = Some v /\ val s' x = None /\
      forall y, y <> h -> y <> x -> val s' y = val s y)) /\
  (exists s', destroy s x = Ret s' /\ store_ok s' /\ val s' x = None /\ forall y, y <> x -> val s' y = val s y).
Proof.
  intros Hok Hv Hne. split; [intros Hh; split|split; [intros Hh; split|]].
  - by apply copy_construct_ok.
  - by apply move_construct_ok.
  - by apply copy_assign_ok.
  - by apply move_assign_ok.
  - by apply (destroy_ok s x v).
Qed.
End Cow.
