(* ===== verification/Signals.v ===== *)
(** * Signals, slots and connections

    Models [src/cxxkit/kernel/signals.hpp]: slot states shared by signals and weak
    connections, the ordered groups of slots of a signal, connecting, disconnecting,
    blocking, emission over a snapshot, observers, moves, and the result-collecting
    emission with its lazy iterator and the two combiners.

    A slot object is shared: it is identified by a [slot_id] and lives in a heap. It
    has a strong reference as long as it is in a signal's list or in the snapshot of an
    emission in progress; connections hold weak references. The copy-on-write lists
    behave as values (see CopyOnWrite.v). The callables are a parameter of emission: any
    function on the state, which may connect, disconnect, block, emit again and so on. *)

From stdpp Require Import prelude list numbers gmap.
From Stdlib Require Import ZArith Lia.
From S2P Require Import Prelude.

#[local] Open Scope Z_scope.
#[local] Open Scope cxx_scope.

Definition slot_id := positive.
Definition signal_id := positive.
(** Objects slots are bound to. *)
Definition obj_id := positive.
Definition func_id := positive.
Definition GroupId := Z.
Bind Scope positive_scope with slot_id signal_id obj_id func_id.

(** ** State *)

(** The slot classes: [Slot], [slot_pmf] and [slot_pmf_tracked] (or [slot_tracked]),
    each with the variant that passes a connection to itself to the callable. *)
Inductive binding :=
| Free
| Raw (o : obj_id)
| Tracked (o : obj_id).

Record slot := mkSlot {
  bound : binding;
  func : func_id;
  extended : bool;
  mIndex : nat;
  mGroup : GroupId;
  mBlocked : bool;
  mConnected : bool;
  mCleaner : signal_id
}.

Record group_type := mkGroup { slts : list slot_id; gid : GroupId }.

Record SignalBase := mkSignal { m_slots : list group_type; m_block : bool }.

(** One invocation of a slot's callable, with the number of emissions in progress. *)
Record call := mkCall { called : slot_id; argument : Z; depth : nat }.

(** [owners]: the live objects; [pins]: objects kept alive by a tracked slot's call in
    progress; [running]: the snapshots of the emissions in progress, innermost first;
    [calls]: the invocations so far. *)
Record World := mkWorld {
  slots : gmap slot_id slot;
  signals : gmap signal_id SignalBase;
  m_connections : gmap obj_id (list slot_id);
  owners : gset obj_id;
  pins : list obj_id;
  running : list (list slot_id);
  calls : list call;
  next_slot : slot_id
}.

Definition with_slots (w : World) x := mkWorld x (signals w) (m_connections w) (owners w) (pins w) (running w) (calls w) (next_slot w).
Definition with_signals (w : World) x := mkWorld (slots w) x (m_connections w) (owners w) (pins w) (running w) (calls w) (next_slot w).
Definition with_connections (w : World) x := mkWorld (slots w) (signals w) x (owners w) (pins w) (running w) (calls w) (next_slot w).
Definition with_owners (w : World) x := mkWorld (slots w) (signals w) (m_connections w) x (pins w) (running w) (calls w) (next_slot w).
Definition with_pins (w : World) x := mkWorld (slots w) (signals w) (m_connections w) (owners w) x (running w) (calls w) (next_slot w).
Definition with_running (w : World) x := mkWorld (slots w) (signals w) (m_connections w) (owners w) (pins w) x (calls w) (next_slot w).
Definition with_calls (w : World) x := mkWorld (slots w) (signals w) (m_connections w) (owners w) (pins w) (running w) x (next_slot w).

Definition with_index (s : slot) x := mkSlot (bound s) (func s) (extended s) x (mGroup s) (mBlocked s) (mConnected s) (mCleaner s).
Definition with_blocked (s : slot) x := mkSlot (bound s) (func s) (extended s) (mIndex s) (mGroup s) x (mConnected s) (mCleaner s).
Definition with_connected (s : slot) x := mkSlot (bound s) (func s) (extended s) (mIndex s) (mGroup s) (mBlocked s) x (mCleaner s).
Definition with_cleaner (s : slot) x := mkSlot (bound s) (func s) (extended s) (mIndex s) (mGroup s) (mBlocked s) (mConnected s) x.

Definition slot_at (w : World) (s : slot_id) : run slot := deref (slots w !! s).
Definition signal_at (w : World) (g : signal_id) : run SignalBase := deref (signals w !! g).

Definition upd_slot (w : World) (s : slot_id) (f : slot -> slot) : run World :=
  do st <- slot_at w s; Ret (with_slots w (<[s := f st]> (slots w))).
Definition set_signal (w : World) (g : signal_id) (x : SignalBase) : World := with_signals w (<[g := x]> (signals w)).
Definition set_slots (w : World) (g : signal_id) (l : list group_type) : run World :=
  do sig <- signal_at w g; Ret (set_signal w g (mkSignal l (m_block sig))).

(** The slots of a signal in the order of emission. *)
Definition flat (l : list group_type) : list slot_id := concat (slts <$> l).

(** ** Weak references *)

(** A slot that still has a strong reference. *)
Definition held (w : World) (s : slot_id) : bool :=
  existsb (fun p => bool_decide (s ∈ flat (m_slots (snd p)))) (map_to_list (signals w)) ||
  existsb (fun l => bool_decide (s ∈ l)) (running w).

Definition lock (w : World) (c : option slot_id) : option slot_id :=
  match c with Some s => if held w s then Some s else None | None => None end.

Definition alive (w : World) (o : obj_id) : bool := bool_decide (o ∈ owners w) || bool_decide (o ∈ pins w).

(** ** SlotState and SlotBase *)
Definition tracks (b : binding) : option obj_id := match b with Tracked o => Some o | _ => None end.

(** The virtual [connected]: a tracked slot also needs its object. *)
Definition slot_connected (w : World) (st : slot) : bool :=
  match tracks (bound st) with Some o => alive w o && mConnected st | None => mConnected st end.

(** [get_object]: null ([None]) for a slot without an object or with an expired one. *)
Definition get_object (w : World) (st : slot) : option obj_id :=
  match bound st with
  | Free => None
  | Raw o => Some o
  | Tracked o => if alive w o then Some o else None
  end.

Definition has_callable (f : func_id) (st : slot) : bool := bool_decide (func st = f).
Definition has_object (w : World) (o : option obj_id) (st : slot) : bool := bool_decide (get_object w st = o).

(** ** SignalBase: the slot lists *)

(** [std::swap(slts[i], slts.back()); slts.pop_back()] *)
Definition swap_pop (l : list slot_id) (i : nat) : list slot_id :=
  match l !! i, last l with
  | Some x, Some b => take (length l - 1) (<[(length l - 1)%nat := x]> (<[i := b]> l))
  | _, _ => l
  end.

(** The same, with the index of the slot moved to [i] updated between the two. *)
Definition remove_at (w : World) (l : list slot_id) (i : nat) : run (World * list slot_id) :=
  do b <- deref (last l);
  do w <- upd_slot w b (fun st => with_index st i);
  Ret (w, swap_pop l i).

(** The search of the group of [id] in [clean]. *)
Fixpoint clean_in (w : World) (groups : list group_type) (s : slot_id) (idx : nat) (id : GroupId)
    : run (World * list group_type) :=
  match groups with
  | [] => Ret (w, [])
  | g :: groups =>
      if gid g =? id then
        if bool_decide (slts g !! idx = Some s) then
          do (w, l) <- remove_at w (slts g) idx;
          Ret (w, mkGroup l (gid g) :: groups)
        else Ret (w, g :: groups)
      else do (w, groups) <- clean_in w groups s idx id; Ret (w, g :: groups)
  end.

Definition clean (w : World) (g : signal_id) (s : slot_id) : run World :=
  do sig <- signal_at w g;
  do st <- slot_at w s;
  do (w, groups) <- clean_in w (m_slots sig) s (mIndex st) (mGroup st);
  set_slots w g groups.

(** [SlotState::disconnect] with [SlotBase::do_disconnect]. *)
Definition slot_disconnect (w : World) (s : slot_id) : run (World * bool) :=
  do st <- slot_at w s;
  do w <- upd_slot w s (fun st => with_connected st false);
  if mConnected st then do w <- clean w (mCleaner st) s; Ret (w, true) else Ret (w, false).

(** The group of [id] is found or inserted before the first larger one, and the slot
    appended; the result also gives the slot's index. *)
Fixpoint add_in (groups : list group_type) (s : slot_id) (id : GroupId) : list group_type * nat :=
  match groups with
  | [] => ([mkGroup [s] id], 0%nat)
  | g :: groups' =>
      if gid g <? id then let (l, i) := add_in groups' s id in (g :: l, i)
      else if negb (gid g =? id) then (mkGroup [s] id :: groups, 0%nat)
      else (mkGroup (slts g ++ [s]) id :: groups', length (slts g))
  end.

Definition add_slot (w : World) (g : signal_id) (s : slot_id) : run World :=
  do st <- slot_at w s;
  do sig <- signal_at w g;
  let (groups, i) := add_in (m_slots sig) s (mGroup st) in
  do w <- upd_slot w s (fun st => with_index st i);
  set_slots w g groups.

Definition make_slot (w : World) (g : signal_id) (b : binding) (f : func_id) (ext : bool) (id : GroupId) : World * slot_id :=
  let s := next_slot w in
  (mkWorld (<[s := mkSlot b f ext 0 id false true g]> (slots w)) (signals w) (m_connections w) (owners w)
     (pins w) (running w) (calls w) (Pos.succ s), s).

(** [connect] and [connect_extended], for each kind of slot. *)
Definition connect (w : World) (g : signal_id) (b : binding) (f : func_id) (ext : bool) (id : GroupId) : run (World * slot_id) :=
  let (w, s) := make_slot w g b f ext id in
  do w <- add_slot w g s; Ret (w, s).

(** The overloads of [connect] and [connect_extended]: a callable, a member function of a
    plain or of a tracked object, a callable with a tracked object. *)
Definition connect_callable (w : World) (g : signal_id) (f : func_id) (id : GroupId) := connect w g Free f false id.
Definition connect_extended (w : World) (g : signal_id) (f : func_id) (id : GroupId) := connect w g Free f true id.
Definition connect_pmf (w : World) (g : signal_id) (o : obj_id) (f : func_id) (id : GroupId) := connect w g (Raw o) f false id.
Definition connect_extended_pmf (w : World) (g : signal_id) (o : obj_id) (f : func_id) (id : GroupId) := connect w g (Raw o) f true id.
Definition connect_pmf_tracked (w : World) (g : signal_id) (o : obj_id) (f : func_id) (id : GroupId) := connect w g (Tracked o) f false id.
Definition connect_extended_pmf_tracked (w : World) (g : signal_id) (o : obj_id) (f : func_id) (id : GroupId) := connect w g (Tracked o) f true id.
Definition connect_tracked (w : World) (g : signal_id) (o : obj_id) (f : func_id) (id : GroupId) := connect w g (Tracked o) f false id.
Definition connect_extended_tracked (w : World) (g : signal_id) (o : obj_id) (f : func_id) (id : GroupId) := connect w g (Tracked o) f true id.

Fixpoint disconnect_group_in (groups : list group_type) (id : GroupId) : list group_type * nat :=
  match groups with
  | [] => ([], 0%nat)
  | g :: groups =>
      if gid g =? id then (mkGroup [] (gid g) :: groups, length (slts g))
      else let (l, n) := disconnect_group_in groups id in (g :: l, n)
  end.

(** [disconnect(GroupId)] *)
Definition disconnect_group (w : World) (g : signal_id) (id : GroupId) : run (World * nat) :=
  do sig <- signal_at w g;
  let (groups, n) := disconnect_group_in (m_slots sig) id in
  do w <- set_slots w g groups; Ret (w, n).

(** The inner loop of [disconnect_if], from position [i]; [fuel] bounds the turns. *)
Fixpoint disconnect_loop (fuel : nat) (cond : World -> slot -> bool) (w : World) (l : list slot_id) (i : nat)
    : run (World * list slot_id * nat) :=
  match fuel with
  | O => Timeout
  | S fuel =>
      match l !! i with
      | None => Ret (w, l, 0%nat)
      | Some s =>
          do st <- slot_at w s;
          if cond w st then
            do (w, l) <- remove_at w l i;
            do (w, l, n) <- disconnect_loop fuel cond w l i; Ret (w, l, S n)
          else disconnect_loop fuel cond w l (S i)
      end
  end.

Fixpoint disconnect_groups (cond : World -> slot -> bool) (w : World) (groups : list group_type)
    : run (World * list group_type * nat) :=
  match groups with
  | [] => Ret (w, [], 0%nat)
  | g :: groups =>
      do (w, l, n) <- disconnect_loop (S (length (slts g))) cond w (slts g) 0;
      do (w, groups, m) <- disconnect_groups cond w groups;
      Ret (w, mkGroup l (gid g) :: groups, (n + m)%nat)
  end.

Definition disconnect_if (w : World) (g : signal_id) (cond : World -> slot -> bool) : run (World * nat) :=
  do sig <- signal_at w g;
  do (w, groups, n) <- disconnect_groups cond w (m_slots sig);
  do w <- set_slots w g groups; Ret (w, n).

(** [disconnect(callable)], [disconnect(object)] and [disconnect(callable, object)]. *)
Definition disconnect_callable (w : World) (g : signal_id) (f : func_id) := disconnect_if w g (fun _ => has_callable f).
Definition disconnect_object (w : World) (g : signal_id) (o : option obj_id) := disconnect_if w g (fun w => has_object w o).
Definition disconnect_both (w : World) (g : signal_id) (f : func_id) (o : option obj_id) :=
  disconnect_if w g (fun w st => has_object w o st && has_callable f st).

Definition disconnect_all (w : World) (g : signal_id) : run World := set_slots w g [].

(** The constructor and the destructor of a signal. *)
Definition new_signal (w : World) (g : signal_id) : World := set_signal w g (mkSignal [] false).
Definition delete_signal (w : World) (g : signal_id) : run World :=
  do w <- disconnect_all w g; Ret (with_signals w (delete g (signals w))).

Definition block (w : World) (g : signal_id) : run World :=
  do sig <- signal_at w g; Ret (set_signal w g (mkSignal (m_slots sig) true)).
Definition unblock (w : World) (g : signal_id) : run World :=
  do sig <- signal_at w g; Ret (set_signal w g (mkSignal (m_slots sig) false)).
Definition blocked (w : World) (g : signal_id) : run bool := do sig <- signal_at w g; Ret (m_block sig).

Definition num_slots (w : World) (g : signal_id) : run nat :=
  do sig <- signal_at w g; Ret (foldr (fun gr n => (length (slts gr) + n)%nat) 0%nat (m_slots sig)).
Definition empty (w : World) (g : signal_id) : run bool := do n <- num_slots w g; Ret (bool_decide (n = 0%nat)).

(** [reroute_slots_to] *)
Fixpoint reroute (w : World) (l : list slot_id) (target : signal_id) : run World :=
  match l with
  | [] => Ret w
  | s :: l => do w <- upd_slot w s (fun st => with_cleaner st target); reroute w l target
  end.

(** The move constructor of [g] from [o] and the move assignment. *)
Definition move_construct (w : World) (g o : signal_id) : run World :=
  do from <- signal_at w o;
  let w := set_signal w g (mkSignal (m_slots from) (m_block from)) in
  let w := set_signal w o (mkSignal [] (m_block from)) in
  reroute w (flat (m_slots from)) g.

Definition move_assign (w : World) (g o : signal_id) : run World :=
  do to <- signal_at w g;
  do from <- signal_at w o;
  let w := set_signal w g from in
  let w := set_signal w o to in
  do w <- reroute w (flat (m_slots from)) g;
  reroute w (flat (m_slots to)) o.

(** ** Connection *)
Definition connection_valid (w : World) (c : option slot_id) : bool := bool_decide (is_Some (lock w c)).
Definition connection_connected (w : World) (c : option slot_id) : run bool :=
  match lock w c with Some s => do st <- slot_at w s; Ret (slot_connected w st) | None => Ret false end.
Definition connection_disconnect (w : World) (c : option slot_id) : run (World * bool) :=
  match lock w c with Some s => slot_disconnect w s | None => Ret (w, false) end.
Definition connection_blocked (w : World) (c : option slot_id) : run bool :=
  match lock w c with Some s => do st <- slot_at w s; Ret (mBlocked st) | None => Ret false end.
Definition connection_set_blocked (w : World) (c : option slot_id) (b : bool) : run World :=
  match lock w c with Some s => upd_slot w s (fun st => with_blocked st b) | None => Ret w end.
Definition connection_block (w : World) (c : option slot_id) := connection_set_blocked w c true.
Definition connection_unblock (w : World) (c : option slot_id) := connection_set_blocked w c false.

(** [ConnectionBlocker]: construction, [release] (the destructor) and move assignment
    of [o] to [self]; the result of the latter is the two blockers' states. *)
Definition blocker (w : World) (c : option slot_id) : run (World * option slot_id) :=
  do w <- connection_block w c; Ret (w, c).
Definition blocker_release (w : World) (self : option slot_id) : run World := connection_unblock w self.
Definition blocker_move_assign (w : World) (self o : option slot_id) : run (World * option slot_id * option slot_id) :=
  do w <- blocker_release w self; Ret (w, o, self).

(** [ScopedConnection]: the destructor and the move assignment. *)
Definition scoped_release (w : World) (self : option slot_id) : run World :=
  do (w, _) <- connection_disconnect w self; Ret w.
Definition scoped_move_assign (w : World) (self o : option slot_id) : run (World * option slot_id * option slot_id) :=
  do (w, _) <- connection_disconnect w self; Ret (w, o, self).

(** ** ObserverBase *)
Definition add_connection (w : World) (o : obj_id) (s : slot_id) : World :=
  with_connections w (<[o := default [] (m_connections w !! o) ++ [s]]> (m_connections w)).

(** [m_connections.clear()] destroys the scoped connections in order. *)
Fixpoint release_all (w : World) (l : list slot_id) : run World :=
  match l with
  | [] => Ret w
  | s :: l => do w <- scoped_release w (Some s); release_all w l
  end.
Definition observer_disconnect_all (w : World) (o : obj_id) : run World :=
  do w <- release_all w (default [] (m_connections w !! o));
  Ret (with_connections w (<[o := []]> (m_connections w))).

(** [connect] of a member function of an observer. *)
Definition connect_observer (w : World) (g : signal_id) (o : obj_id) (f : func_id) (id : GroupId) : run (World * slot_id) :=
  do (w, s) <- connect w g (Raw o) f false id;
  Ret (add_connection w o s, s).


(** ** Emission *)
Section Emission.
Context (body : slot_id -> Z -> World -> run World).

Definition invoke (w : World) (s : slot_id) (a : Z) : run World :=
  body s a (with_calls w (calls w ++ [mkCall s a (length (running w))])).

(** [call_slot] of each slot class. The strong reference to a tracked object is kept
    for the call. *)
Definition call_slot (w : World) (s : slot_id) (a : Z) : run World :=
  do st <- slot_at w s;
  match bound st with
  | Free => invoke w s a
  | Raw o => if alive w o then invoke w s a else Undef
  | Tracked o =>
      if alive w o then
        if mConnected st then
          do w <- invoke (with_pins w (o :: pins w)) s a;
          Ret (with_pins w (tail (pins w)))
        else Ret w
      else do (w, _) <- slot_disconnect w s; Ret w
  end.

(** [SlotBase::operator()] *)
Definition slot_call (w : World) (s : slot_id) (a : Z) : run World :=
  do st <- slot_at w s;
  if mConnected st && negb (mBlocked st) then call_slot w s a else Ret w.

Fixpoint call_slots (l : list slot_id) (a : Z) (w : World) : run World :=
  match l with
  | [] => Ret w
  | s :: l => do w <- slot_call w s a; call_slots l a w
  end.

Fixpoint call_groups (l : list group_type) (a : Z) (w : World) : run World :=
  match l with
  | [] => Ret w
  | g :: l => do w <- call_slots (slts g) a w; call_groups l a w
  end.

(** [SignalBase::operator()] *)
Definition emit (w : World) (g : signal_id) (a : Z) : run World :=
  do sig <- signal_at w g;
  if m_block sig then Ret w
  else
    let ref := m_slots sig in
    do w <- call_groups ref a (with_running w (flat ref :: running w));
    Ret (with_running w (tail (running w))).
End Emission.

(** The callable [connect_once] connects through [connect_extended]: it disconnects its
    own connection and calls the callable it wraps. *)
Definition once (wrap : slot_id -> Z -> World -> run World) (self : slot_id) (a : Z) (w : World) : run World :=
  do (w, _) <- connection_disconnect w (Some self); wrap self a w.
Definition connect_once (w : World) (g : signal_id) (f : func_id) (id : GroupId) : run (World * slot_id) := connect_extended w g f id.

(** The callable that chains a signal to another one. *)
Definition signal_wrapper (body : slot_id -> Z -> World -> run World) (m_sig : signal_id) : slot_id -> Z -> World -> run World :=
  fun _ a w => emit body w m_sig a.

(** [ScopedBlock] *)
Definition scoped_block (w : World) (g : signal_id) (initially_blocked : bool) : run World :=
  if initially_blocked then block w g else unblock w g.
Definition scoped_block_release (w : World) (g : signal_id) : run World := unblock w g.

(** ** SignalBaseR *)
Section Combiners.
Context (body_r : slot_id -> Z -> World -> run (World * Z)).

(** [call_slot_r] of [SlotR] and [SlotRExtended]. *)
Definition call_slot_r (w : World) (s : slot_id) (a : Z) : run (World * Z) :=
  body_r s a (with_calls w (calls w ++ [mkCall s a (length (running w))])).

(** [slot_result_cache]: the slot the value belongs to, and the value. *)
Definition slot_result_cache := option (slot_id * Z).

(** [slot_call_iterator]: the rest of the snapshot, from [mIter] to [mLast]. *)
Fixpoint normalize (w : World) (it : list slot_id) : run (list slot_id) :=
  match it with
  | [] => Ret []
  | s :: it' =>
      do st <- slot_at w s;
      if slot_connected w st && negb (mBlocked st) then Ret it else normalize w it'
  end.

Definition iterator_deref (w : World) (it : list slot_id) (cache : slot_result_cache) (a : Z) : run (World * slot_result_cache * Z) :=
  match it with
  | [] => Fatal
  | s :: _ =>
      match cache with
      | Some (s', v) => if bool_decide (s' = s) then Ret (w, cache, v)
                        else do (w, v) <- call_slot_r w s a; Ret (w, Some (s, v), v)
      | None => do (w, v) <- call_slot_r w s a; Ret (w, Some (s, v), v)
      end
  end.

Definition iterator_next (w : World) (it : list slot_id) : run (list slot_id * slot_result_cache) :=
  match it with
  | [] => Fatal
  | _ :: it => do it <- normalize w it; Ret (it, None)
  end.

(** The loops of [optional_last_value] and [maximum]; [fuel] bounds the turns. *)
Fixpoint last_value_loop (fuel : nat) (w : World) (it : list slot_id) (cache : slot_result_cache) (a : Z) (value : option Z)
    : run (World * option Z) :=
  match fuel with
  | O => Timeout
  | S fuel =>
      match it with
      | [] => Ret (w, value)
      | _ =>
          do (w, cache, v) <- iterator_deref w it cache a;
          do (it, cache) <- iterator_next w it;
          last_value_loop fuel w it cache a (Some v)
      end
  end.

Fixpoint maximum_loop (fuel : nat) (w : World) (it : list slot_id) (cache : slot_result_cache) (a : Z) (max_value : option Z)
    : run (World * option Z) :=
  match fuel with
  | O => Timeout
  | S fuel =>
      match it with
      | [] => Ret (w, max_value)
      | _ =>
          do (w, cache, value) <- iterator_deref w it cache a;
          let max_value := match max_value with
            | None => Some value
            | Some m => if m <? value then Some value else Some m
            end in
          do (it, cache) <- iterator_next w it;
          maximum_loop fuel w it cache a max_value
      end
  end.

Definition combiner := World -> list slot_id -> Z -> run (World * option Z).
Definition optional_last_value : combiner := fun w it a => last_value_loop (S (length it)) w it None a None.
Definition maximum : combiner := fun w it a => maximum_loop (S (length it)) w it None a None.

Definition combiner_range (comb : combiner) (w : World) (l : list slot_id) (a : Z) : run (World * option Z) :=
  do it <- normalize w l; comb w it a.

(** [SignalBaseR::operator()] *)
Definition emit_r (comb : combiner) (w : World) (g : signal_id) (a : Z) : run (World * option Z) :=
  do sig <- signal_at w g;
  if m_block sig then combiner_range comb w [] a
  else
    do (w, r) <- combiner_range comb (with_running w (flat (m_slots sig) :: running w)) (flat (m_slots sig)) a;
    Ret (with_running w (tail (running w)), r).
End Combiners.
