(* ===== verification/SignalsFacts.v ===== *)
(** * Signals: the invariant of the slot lists and the operations on them

    A signal's groups are in strictly ascending order, each slot of a group knows its
    index, its group and its signal, and is connected; every operation keeps this. *)

From stdpp Require Import prelude list numbers gmap sorting.
From Stdlib Require Import ZArith Lia.
From S2P Require Import Prelude Signals.

#[local] Open Scope Z_scope.
#[local] Open Scope cxx_scope.

(** ** Removal by swapping with the last *)
Lemma lookup_swap_pop (l : list slot_id) (i j : nat) (x b : slot_id) : l !! i = Some x -> last l = Some b ->
  swap_pop l i !! j = if decide (j < length l - 1)%nat then (if decide (j = i) then Some b else l !! j) else None.
Proof.
  intros Hi Hb. unfold swap_pop. rewrite Hi, Hb. pose proof (lookup_lt_Some _ _ _ Hi).
  destruct (decide _) as [Hj|Hj].
  - rewrite lookup_take_lt by done. rewrite list_lookup_insert_ne by lia.
    destruct (decide (j = i)) as [->|]; [by rewrite list_lookup_insert_eq by done|by rewrite list_lookup_insert_ne].
  - apply lookup_ge_None. rewrite length_take, !length_insert. lia.
Qed.

Lemma swap_pop_perm (l : list slot_id) (i : nat) (x : slot_id) : l !! i = Some x -> l ≡ₚ x :: swap_pop l i.
Proof.
  intros Hi. destruct (exists_last (l := l)) as (l' & b & ->); [by intros ->|].
  pose proof (lookup_lt_Some _ _ _ Hi) as Hl. rewrite length_app in Hl. cbn in Hl.
  assert (Hs : swap_pop (l' ++ [b]) i = if decide (i < length l')%nat then <[i := b]> l' else l').
  { apply list_eq. intros j. rewrite (lookup_swap_pop _ _ _ x b) by (done || apply last_snoc).
    rewrite length_app. cbn [length]. destruct (decide (j < _)%nat) as [Hj|Hj].
    - destruct (decide (j = i)) as [->|]; [rewrite decide_True by lia; by rewrite list_lookup_insert_eq by lia|].
      rewrite lookup_app_l by lia. destruct (decide _); [by rewrite list_lookup_insert_ne|done].
    - symmetry. apply lookup_ge_None. destruct (decide _); rewrite ?length_insert; lia. }
  rewrite Hs. destruct (decide _) as [Hi'|Hi'].
  - rewrite lookup_app_l in Hi by done. rewrite (delete_Permutation _ _ _ Hi) at 1.
    rewrite (delete_Permutation (<[i:=b]> l') i b) by (by apply list_lookup_insert_eq).
    rewrite !delete_take_drop, take_insert_ge, drop_insert_lt by lia.
    rewrite Permutation_app_comm. cbn. by constructor.
  - replace i with (length l') in Hi by lia. rewrite lookup_app_r, Nat.sub_diag in Hi by lia.
    cbn in Hi. simplify_eq. by rewrite Permutation_app_comm.
Qed.

Lemma swap_pop_length (l : list slot_id) (i : nat) (x : slot_id) : l !! i = Some x -> length (swap_pop l i) = (length l - 1)%nat.
Proof. intros H. rewrite (swap_pop_perm _ _ _ H) at 2. cbn. lia. Qed.

(** ** The invariant *)

(** Where a slot thinks it is. *)
Definition pos (st : slot) : nat * GroupId * signal_id := (mIndex st, mGroup st, mCleaner st).

Definition group_ok (w : World) (g : signal_id) (gr : group_type) : Prop :=
  forall i s, slts gr !! i = Some s -> pos <$> slots w !! s = Some (i, gid gr, g).

Definition signal_ok (w : World) (g : signal_id) (sig : SignalBase) : Prop :=
  StronglySorted Z.lt (gid <$> m_slots sig) /\ Forall (group_ok w g) (m_slots sig).

Record lists_ok (w : World) : Prop := {
  ok_signal : forall g sig, signals w !! g = Some sig -> signal_ok w g sig;
  ok_running : forall l s, l ∈ running w -> s ∈ l -> is_Some (slots w !! s);
  ok_fresh : forall s, is_Some (slots w !! s) -> (s < next_slot w)%positive;
  ok_cleaner : forall s st, slots w !! s = Some st -> is_Some (signals w !! mCleaner st)
}.

Record world_ok (w : World) : Prop := {
  ok_lists : lists_ok w;
  ok_listed : forall g sig s st, signals w !! g = Some sig -> s ∈ flat (m_slots sig) -> slots w !! s = Some st -> mConnected st = true;
  ok_raw : forall s st o, slots w !! s = Some st -> bound st = Raw o -> mConnected st = true -> o ∈ owners w
}.

(** What any code using the signals may do to the state: slots stay, disconnected ones
    stay disconnected, and only slots connected before, or new, are called, by further
    emissions. *)
Record evolves (w w' : World) : Prop := {
  ev_slot : forall s st, slots w !! s = Some st ->
    exists st', slots w' !! s = Some st' /\ bound st' = bound st /\ func st' = func st /\ mGroup st' = mGroup st /\
      (mConnected st' = true -> mConnected st = true);
  ev_running : running w' = running w;
  ev_pins : pins w' = pins w;
  ev_calls : exists l, calls w' = calls w ++ l /\
    Forall (fun c => (length (running w) < depth c)%nat /\
      forall st, slots w !! called c = Some st -> mConnected st = true) l;
  ev_ok : world_ok w -> world_ok w'
}.

#[export] Instance evolves_preorder : PreOrder evolves.
Proof.
  split.
  - intros w. split; try done; [by intros s st H; exists st|]. exists []. by rewrite app_nil_r.
  - intros w1 w2 w3 A B. split; [|by rewrite (ev_running _ _ B), (ev_running _ _ A)|by rewrite (ev_pins _ _ B), (ev_pins _ _ A)| |].
    + intros s st H. destruct (ev_slot _ _ A s st H) as (st' & H' & ? & ? & ? & ?).
      destruct (ev_slot _ _ B s st' H') as (st'' & ? & ? & ? & ? & ?).
      exists st''. split_and!; try congruence. auto.
    + destruct (ev_calls _ _ A) as (l1 & E1 & F1), (ev_calls _ _ B) as (l2 & E2 & F2).
      exists (l1 ++ l2). rewrite E2, E1, app_assoc. split; [done|]. apply Forall_app. split; [done|].
      eapply Forall_impl; [exact F2|]. intros c [Hd Hc]. rewrite (ev_running _ _ A) in Hd. split; [done|].
      intros st Hst. destruct (ev_slot _ _ A _ st Hst) as (st' & H' & _ & _ & _ & Hm). by apply Hm, Hc.
    + intros H. by apply (ev_ok _ _ B), (ev_ok _ _ A).
Qed.

(** ** Frames *)
Lemma group_ok_frame (w w' : World) (g : signal_id) (gr : group_type) :
  group_ok w g gr -> (forall s, s ∈ slts gr -> pos <$> slots w' !! s = pos <$> slots w !! s) -> group_ok w' g gr.
Proof. intros H F i s Hs. rewrite F by (by apply list_elem_of_lookup_2 in Hs). by apply H. Qed.

(** A listed slot is listed once. *)
Lemma listed_once (w : World) (g g' : signal_id) (gr gr' : group_type) (i i' : nat) (s : slot_id) :
  group_ok w g gr -> group_ok w g' gr' -> slts gr !! i = Some s -> slts gr' !! i' = Some s ->
  g = g' /\ gid gr = gid gr' /\ i = i'.
Proof. intros H H' Hs%H Hs'%H'. rewrite Hs in Hs'. by simplify_eq. Qed.

Lemma group_nodup (w : World) (g : signal_id) (gr : group_type) : group_ok w g gr -> NoDup (slts gr).
Proof.
  intros H. apply NoDup_alt. intros i j s Hi Hj. by destruct (listed_once w g g gr gr i j s H H Hi Hj) as (_ & _ & ->).
Qed.

Lemma flat_elem (l : list group_type) (s : slot_id) : s ∈ flat l <-> exists gr, gr ∈ l /\ s ∈ slts gr.
Proof.
  induction l as [|gr l IH]; cbn.
  - split; [by intros ?%elem_of_nil|by intros (gr & ?%elem_of_nil & _)].
  - rewrite elem_of_app. setoid_rewrite elem_of_cons. unfold flat in IH. rewrite IH. naive_solver.
Qed.

Lemma groups_distinct (w : World) (g : signal_id) (pre post : list group_type) (gr : group_type) :
  StronglySorted Z.lt (gid <$> pre ++ gr :: post) -> Forall (fun x => gid x <> gid gr) (pre ++ post).
Proof.
  intros H. rewrite fmap_app, fmap_cons in H. apply Forall_app. split; apply Forall_forall; intros x Hx.
  - apply StronglySorted_app in H as (H & _).
    specialize (H (gid x) (gid gr) ltac:(by apply list_elem_of_fmap_2) ltac:(by left)). lia.
  - apply StronglySorted_app_1_r, StronglySorted_cons in H as [F _].
    rewrite Forall_forall in F. specialize (F (gid x) ltac:(by apply list_elem_of_fmap_2)). lia.
Qed.

Lemma flat_nodup (w : World) (g : signal_id) (l : list group_type) :
  StronglySorted Z.lt (gid <$> l) -> Forall (group_ok w g) l -> NoDup (flat l).
Proof.
  induction l as [|gr l IH]; intros Hs Hg; [constructor|].
  pose proof (groups_distinct w g [] l gr Hs) as Hd. cbn [app] in Hd.
  inversion Hs as [|? ? Hs' _]; inversion Hg as [|? ? Hgr Hl]; subst.
  unfold flat. cbn. apply NoDup_app. split; [by eapply group_nodup|]. split; [|by apply IH].
  intros s Hin (gr' & Hgr' & Hs2)%(proj1 (flat_elem l s)).
  apply list_elem_of_lookup_1 in Hin as [i Hi], Hs2 as [j Hj].
  rewrite Forall_forall in Hl, Hd. destruct (listed_once w g g gr gr' i j s) as (_ & E & _); auto.
  by apply (Hd gr' Hgr').
Qed.

(** ** Taking slots out of the lists *)

(** The state with indexes of slots changed. *)
Record reindexed (w w' : World) : Prop := {
  ri_eq : w' = with_slots w (slots w');
  ri_slot : forall s, exists i, slots w' !! s = (fun st => with_index st i) <$> slots w !! s
}.

#[export] Instance reindexed_preorder : PreOrder reindexed.
Proof.
  split.
  - intros w. split; [by destruct w|]. intros s. destruct (slots w !! s) as [st|]; [|by exists 0%nat].
    exists (mIndex st). by destruct st.
  - intros w1 w2 w3 [A A'] [B B']. split; [by rewrite B, A|]. intros s.
    destruct (A' s) as [i E], (B' s) as [j F]. exists j. rewrite F, E. by destruct (slots w1 !! s).
Qed.

(** The groups keep the slots satisfying [P], in some order. *)
Definition only (P : slot_id -> Prop) `{!forall s, Decision (P s)} : list group_type -> list group_type -> Prop :=
  Forall2 (fun gr gr' => gid gr' = gid gr /\ slts gr' ≡ₚ filter P (slts gr)).

Lemma last_lookup_1 {A} (l : list A) (i : nat) (x : A) : l !! i = Some x -> exists b, last l = Some b /\ l !! (length l - 1)%nat = Some b.
Proof.
  intros H. pose proof (lookup_lt_Some _ _ _ H).
  destruct (last l) as [b|] eqn:E; [|apply last_None in E as ->; cbn in *; lia].
  exists b. split; [done|]. rewrite last_lookup in E. by rewrite Nat.sub_1_r.
Qed.

Lemma remove_at_spec (w : World) (g : signal_id) (gr : group_type) (i : nat) (s : slot_id) :
  group_ok w g gr -> slts gr !! i = Some s ->
  exists w', remove_at w (slts gr) i = Ret (w', swap_pop (slts gr) i) /\ reindexed w w' /\
    group_ok w' g (mkGroup (swap_pop (slts gr) i) (gid gr)) /\
    (forall x, x ∉ slts gr -> slots w' !! x = slots w !! x).
Proof.
  intros Hok Hi. destruct (last_lookup_1 _ _ _ Hi) as (b & Hb & Hl). unfold remove_at. rewrite Hb. cbn [deref run_bind].
  pose proof (Hok _ _ Hl) as Hp. apply fmap_Some in Hp as (st & Hst & Hpos). injection Hpos as Hix Hgid Hg.
  unfold upd_slot, slot_at. rewrite Hst. cbn [deref run_bind].
  eexists. split; [reflexivity|]. split_and!.
  - split; [done|]. intros x. cbn. destruct (decide (x = b)) as [->|Hx].
    + exists i. by rewrite lookup_insert_eq, Hst.
    + rewrite lookup_insert_ne by done. destruct (slots w !! x) as [st'|]; [|by exists 0%nat].
      exists (mIndex st'). by destruct st'.
  - intros j x. cbn [slts gid slots with_slots]. rewrite (lookup_swap_pop _ _ _ s b) by done.
    destruct (decide (j < _)%nat) as [Hj|]; [|done]. destruct (decide (j = i)) as [->|Hne]; intros Hx.
    + simplify_eq. rewrite lookup_insert_eq. cbn. unfold pos. cbn. congruence.
    + rewrite lookup_insert_ne; [by apply Hok|]. intros ->.
      destruct (listed_once w g g gr gr _ _ _ Hok Hok Hl Hx) as (_ & _ & ?). lia.
  - intros x Hx. cbn. apply lookup_insert_ne. intros ->. by apply Hx, (list_elem_of_lookup_2 _ _ _ Hl).
Qed.

Lemma filter_ne_perm (l : list slot_id) (s : slot_id) (l' : list slot_id) :
  NoDup l -> l ≡ₚ s :: l' -> l' ≡ₚ filter (fun x => x <> s) l.
Proof.
  intros Hn Hp. rewrite Hp in Hn. apply NoDup_cons in Hn as [Hs Hn].
  rewrite Hp. rewrite filter_cons_False by (intros H; by apply H).
  rewrite filter_all; [done|]. apply Forall_forall. by intros x Hx ->.
Qed.

Lemma filter_ne_not_elem (l : list slot_id) (s : slot_id) : s ∉ l -> filter (fun x => x <> s) l = l.
Proof. intros H. apply filter_all, Forall_forall. by intros x Hx ->. Qed.

Lemma only_all (P : slot_id -> Prop) `{!forall s, Decision (P s)} (l : list group_type) :
  (forall s, s ∈ flat l -> P s) -> only P l l.
Proof.
  intros HP. unfold only. induction l as [|gr l IH]; constructor.
  - split; [done|]. rewrite filter_all; [done|]. apply Forall_forall. intros s Hs. apply HP, flat_elem. exists gr. split; [by left|done].
  - apply IH. intros s Hs. apply HP. unfold flat in *. cbn. rewrite elem_of_app. by right.
Qed.

Lemma clean_in_spec (w : World) (g : signal_id) (l : list group_type) (s : slot_id) (idx : nat) (id : GroupId) (g0 : signal_id) :
  StronglySorted Z.lt (gid <$> l) -> Forall (group_ok w g) l -> pos <$> slots w !! s = Some (idx, id, g0) ->
  exists w' l', clean_in w l s idx id = Ret (w', l') /\ reindexed w w' /\ Forall (group_ok w' g) l' /\
    only (fun x => x <> s) l l' /\ (forall x, x ∉ flat l -> slots w' !! x = slots w !! x).
Proof.
  intros Hs Hg Hp. induction l as [|gr l IH].
  { exists w, []. split_and!; try done. constructor. }
  pose proof (flat_nodup w g _ Hs Hg) as Hnd. unfold flat in Hnd. cbn in Hnd. apply NoDup_app in Hnd as (_ & Hdis & _).
  rewrite fmap_cons in Hs. apply StronglySorted_cons in Hs as [Hlt Hs].
  apply Forall_cons in Hg as [Hgr Hg]. cbn [clean_in].
  assert (Hat : forall gr' i, group_ok w g gr' -> slts gr' !! i = Some s -> i = idx /\ gid gr' = id).
  { intros gr' i H' Hi%H'. rewrite Hp in Hi. by simplify_eq. }
  destruct (Z.eqb_spec (gid gr) id) as [E|E].
  - assert (Hrest : forall x, x ∈ flat l -> x <> s).
    { intros x (gr' & Hin & Hx)%flat_elem ->. apply list_elem_of_lookup_1 in Hx as [i Hi].
      rewrite Forall_forall in Hlt. rewrite Forall_forall in Hg. destruct (Hat gr' i (Hg _ Hin) Hi) as [_ E'].
      specialize (Hlt (gid gr') ltac:(by apply list_elem_of_fmap_2)). lia. }
    destruct (bool_decide_reflect (slts gr !! idx = Some s)) as [Hi|Hi].
    + destruct (remove_at_spec w g gr idx s Hgr Hi) as (w' & -> & Hri & Hok & Hfr). cbn [run_bind].
      eexists _, _. split; [reflexivity|]. split_and!; [done| | |].
      * constructor; [done|]. apply Forall_forall. intros gr' Hin. rewrite Forall_forall in Hg.
        apply (group_ok_frame w); [by apply Hg|]. intros x Hx. rewrite Hfr; [done|].
        intros Hx'. apply (Hdis x Hx'), flat_elem. by exists gr'.
      * constructor; [|by apply only_all]. split; [done|].
        apply filter_ne_perm; [by eapply group_nodup|by apply swap_pop_perm].
      * intros x Hx. apply Hfr. intros Hx'. apply Hx. unfold flat. cbn. apply elem_of_app. by left.
    + exists w, (gr :: l). split_and!; try done; [by constructor|].
      apply only_all. intros x Hx ->. unfold flat in Hx. cbn in Hx. apply elem_of_app in Hx as [Hx|Hx]; [|by apply (Hrest s)].
      apply list_elem_of_lookup_1 in Hx as [i Hx]. destruct (Hat gr i Hgr Hx) as [-> _]. done.
  - destruct (IH Hs Hg) as (w' & l' & -> & Hri & Hok & Hon & Hfr). cbn [run_bind].
    eexists _, _. split; [reflexivity|]. split_and!; [done| | |].
    + constructor; [|done]. apply (group_ok_frame w); [done|]. intros x Hx. by rewrite Hfr by (by apply Hdis).
    + constructor; [|done]. split; [done|]. rewrite filter_ne_not_elem; [done|].
      intros Hx. apply list_elem_of_lookup_1 in Hx as [i Hx]. by destruct (Hat gr i Hgr Hx) as [_ ?].
    + intros x Hx. apply Hfr. intros Hx'. apply Hx. unfold flat. cbn. apply elem_of_app. by right.
Qed.

Lemma only_flat (P : slot_id -> Prop) `{!forall s, Decision (P s)} (l l' : list group_type) (s : slot_id) :
  only P l l' -> s ∈ flat l' -> P s /\ s ∈ flat l.
Proof.
  induction 1 as [|gr gr' l l' [_ Hp] _ IH]; [by intros ?%elem_of_nil|].
  unfold flat in *. cbn. rewrite !elem_of_app, Hp, list_elem_of_filter. naive_solver.
Qed.

Lemma only_gids (P : slot_id -> Prop) `{!forall s, Decision (P s)} (l l' : list group_type) : only P l l' -> gid <$> l' = gid <$> l.
Proof. induction 1 as [|gr gr' l l' [E _] _ IH]; [done|]. by rewrite !fmap_cons, E, IH. Qed.

(** A signal's list replaced by one with fewer slots. *)
Lemma lists_ok_relist (w w' : World) (g : signal_id) (sig : SignalBase) (l' : list group_type) (b : bool)
    (P : slot_id -> Prop) `{!forall s, Decision (P s)} :
  lists_ok w -> signals w !! g = Some sig -> reindexed w w' -> Forall (group_ok w' g) l' -> only P (m_slots sig) l' ->
  (forall x, x ∉ flat (m_slots sig) -> slots w' !! x = slots w !! x) -> lists_ok (set_signal w' g (mkSignal l' b)).
Proof.
  intros Hok Hg [Heq Hsl] Hgr Hon Hfr.
  assert (Hs : signals w' = signals w) by (by rewrite Heq).
  assert (Hex : forall x, is_Some (slots w' !! x) <-> is_Some (slots w !! x)).
  { intros x. destruct (Hsl x) as [i ->]. by rewrite fmap_is_Some. }
  split.
  - intros g0 sig0. cbn. rewrite Hs. destruct (decide (g0 = g)) as [->|Hne].
    + rewrite lookup_insert_eq. intros [= <-]. split; [|done]. cbn. rewrite (only_gids _ _ _ Hon). apply (ok_signal w Hok g sig Hg).
    + rewrite lookup_insert_ne by done. intros H0. destruct (ok_signal w Hok g0 sig0 H0) as [Hso Hall]. split; [done|].
      rewrite Forall_forall in Hall. apply Forall_forall. intros gr Hin. apply (group_ok_frame w); [by apply Hall|].
      intros x Hx. cbn. rewrite Hfr; [done|]. intros (gr' & Hin' & Hx')%flat_elem. apply Hne.
      apply list_elem_of_lookup_1 in Hx as [i Hx], Hx' as [j Hx'].
      destruct (ok_signal w Hok g sig Hg) as [_ Hall']. rewrite Forall_forall in Hall'.
      by destruct (listed_once w g0 g gr gr' i j x (Hall _ Hin) (Hall' _ Hin') Hx Hx') as (-> & _).
  - intros l x. cbn. rewrite Heq. cbn. intros Hl Hx. apply Hex. by apply (ok_running w Hok l).
  - intros x. cbn. rewrite Hex. rewrite Heq. cbn. apply (ok_fresh w Hok).
  - intros x st. cbn. rewrite Hs. intros Hx. destruct (Hsl x) as [i E]. rewrite Hx in E.
    symmetry in E. apply fmap_Some in E as (st0 & H0 & ->). cbn. rewrite lookup_insert_is_Some'. right. by eapply (ok_cleaner w Hok).
Qed.

(** ** Edits: slots are taken out of lists, moved in them and disconnected *)
Definition edited (st : slot) (i : nat) (c : bool) : slot := with_index (with_connected st (mConnected st && c)) i.

Record edits (w w' : World) : Prop := {
  ed_eq : w' = with_signals (with_slots w (slots w')) (signals w');
  ed_slot : forall x, exists i c, slots w' !! x = (fun st => edited st i c) <$> slots w !! x;
  ed_list : forall g, match signals w !! g, signals w' !! g with
    | Some sig, Some sig' => m_block sig' = m_block sig /\ forall x, x ∈ flat (m_slots sig') -> x ∈ flat (m_slots sig)
    | None, None => True
    | _, _ => False
    end
}.

Lemma edits_evolves (w w' : World) : edits w w' -> (world_ok w -> world_ok w') -> evolves w w'.
Proof.
  intros [Heq Hsl _] Hok. split; [|by rewrite Heq|by rewrite Heq| |done].
  - intros x st Hx. destruct (Hsl x) as (i & c & E). rewrite Hx in E. eexists. split; [exact E|]. cbn.
    split_and!; try done. by intros [? _]%andb_true_iff.
  - exists []. by rewrite app_nil_r, Heq.
Qed.

(** Raw objects and connected slots under edits. *)
Lemma edits_raw (w w' : World) : edits w w' -> world_ok w -> forall s st o,
  slots w' !! s = Some st -> bound st = Raw o -> mConnected st = true -> o ∈ owners w'.
Proof.
  intros [Heq Hsl _] Hok s st o Hs Hb Hc. destruct (Hsl s) as (i & c & E). rewrite Hs in E. symmetry in E.
  apply fmap_Some in E as (st0 & H0 & ->). cbn in *. apply andb_true_iff in Hc as [Hc _].
  rewrite Heq. exact (ok_raw w Hok s st0 o H0 Hb Hc).
Qed.

Lemma edited_id (st : slot) : edited st (mIndex st) true = st.
Proof. unfold edited. rewrite andb_true_r. by destruct st. Qed.

#[export] Instance edits_preorder : PreOrder edits.
Proof.
  split.
  - intros w. split; [by destruct w| |intros g; by destruct (signals w !! g)].
    intros x. destruct (slots w !! x) as [t|]; [|by exists 0%nat, true].
    exists (mIndex t), true. cbn. by rewrite edited_id.
  - intros w1 w2 w3 [A As Al] [B Bs Bl]. split.
    + by rewrite B, A.
    + intros x. destruct (As x) as (i & c & E), (Bs x) as (j & d & F). exists j, (c && d).
      rewrite F, E. destruct (slots w1 !! x) as [t|]; [|done]. cbn. unfold edited. cbn. by rewrite andb_assoc.
    + intros g. specialize (Al g). specialize (Bl g).
      destruct (signals w1 !! g), (signals w2 !! g), (signals w3 !! g); try done.
      destruct Al as [? Al], Bl as [? Bl]. split; [congruence|]. auto.
Qed.

(** Edits keep the invariant when the listed slots stay connected. *)
Lemma world_ok_edits (w w' : World) : world_ok w -> lists_ok w' -> edits w w' ->
  (forall g sig x, signals w' !! g = Some sig -> x ∈ flat (m_slots sig) -> mConnected <$> slots w' !! x = mConnected <$> slots w !! x) ->
  world_ok w'.
Proof.
  intros Hok Hl Hed Hc. split; [done| |by apply (edits_raw w)].
  intros g sig x st Hg Hx Hs. pose proof (Hc g sig x Hg Hx) as E. rewrite Hs in E. cbn in E. symmetry in E.
  apply fmap_Some in E as (st0 & H0 & ->). pose proof (ed_list _ _ Hed g) as Hli. rewrite Hg in Hli.
  destruct (signals w !! g) as [sigw|] eqn:Hgw; [|done]. destruct Hli as [_ Hli].
  by apply (ok_listed w Hok g sigw x st0 Hgw (Hli x Hx)).
Qed.

(** ** Disconnecting a slot *)
Lemma clean_spec (w : World) (g : signal_id) (sig : SignalBase) (s : slot_id) (st : slot) :
  lists_ok w -> slots w !! s = Some st -> mCleaner st = g -> signals w !! g = Some sig ->
  exists w' l', clean w g s = Ret (set_signal w' g (mkSignal l' (m_block sig))) /\ reindexed w w' /\
    only (fun x => x <> s) (m_slots sig) l' /\ lists_ok (set_signal w' g (mkSignal l' (m_block sig))).
Proof.
  intros Hok Hs Hc Hg. destruct (ok_signal w Hok g sig Hg) as [Hso Hall].
  destruct (clean_in_spec w g (m_slots sig) s (mIndex st) (mGroup st) g Hso Hall) as (w' & l' & E & Hri & Hok' & Hon & Hfr).
  { rewrite Hs. cbn. unfold pos. by rewrite Hc. }
  exists w', l'. unfold clean, signal_at, slot_at. rewrite Hg, Hs. cbn [deref run_bind]. rewrite E. cbn [run_bind].
  unfold set_slots, signal_at. assert (signals w' = signals w) as -> by (rewrite (ri_eq _ _ Hri); reflexivity).
  rewrite Hg. cbn [deref run_bind]. split_and!; try done.
  by eapply lists_ok_relist.
Qed.

Definition set_connected (w : World) (s : slot_id) (st : slot) (b : bool) : World :=
  with_slots w (<[s := with_connected st b]> (slots w)).

Lemma lists_ok_connected (w : World) (s : slot_id) (st : slot) (b : bool) :
  lists_ok w -> slots w !! s = Some st -> lists_ok (set_connected w s st b).
Proof.
  intros Hok Hs.
  assert (Hp : forall x, pos <$> slots (set_connected w s st b) !! x = pos <$> slots w !! x).
  { intros x. cbn. destruct (decide (x = s)) as [->|]; [by rewrite lookup_insert_eq, Hs|by rewrite lookup_insert_ne]. }
  assert (Hex : forall x, is_Some (slots (set_connected w s st b) !! x) <-> is_Some (slots w !! x)).
  { intros x. cbn. rewrite lookup_insert_is_Some'. naive_solver. }
  split.
  - intros g sig Hg. destruct (ok_signal w Hok g sig Hg) as [Hso Hall]. split; [done|].
    eapply Forall_impl; [exact Hall|]. intros gr Hgr. by apply (group_ok_frame w).
  - intros l x Hl Hx. apply Hex. by apply (ok_running w Hok l).
  - intros x Hx%Hex. by apply (ok_fresh w Hok).
  - intros x st'. cbn. destruct (decide (x = s)) as [->|].
    + rewrite lookup_insert_eq. intros [= <-]. exact (ok_cleaner w Hok s st Hs).
    + rewrite lookup_insert_ne by done. apply (ok_cleaner w Hok).
Qed.

(** The slot is no longer listed, and every list keeps its other slots. *)
Definition unlisted (w w' : World) (s : slot_id) : Prop :=
  forall g sig, signals w !! g = Some sig ->
    exists sig', signals w' !! g = Some sig' /\ m_block sig' = m_block sig /\ only (fun x => x <> s) (m_slots sig) (m_slots sig').

Lemma slot_disconnect_dead (w : World) (s : slot_id) (st : slot) :
  slots w !! s = Some st -> mConnected st = false -> slot_disconnect w s = Ret (w, false).
Proof.
  intros Hs Hc. unfold slot_disconnect, upd_slot, slot_at. rewrite Hs. cbn [deref run_bind]. rewrite Hc, insert_id; [by destruct w|]. rewrite Hs. destruct st. cbn in *. by subst.
Qed.

(** The state after the connection flag is cleared and the slot taken out. *)
Section Disconnected.
Context (w w' : World) (s : slot_id) (st : slot) (sig : SignalBase) (l' : list group_type).
Context (Hok : world_ok w) (Hs : slots w !! s = Some st) (Hg : signals w !! mCleaner st = Some sig).
Context (Hri : reindexed (set_connected w s st false) w') (Hon : only (fun x => x <> s) (m_slots sig) l').
Let w1 := set_signal w' (mCleaner st) (mkSignal l' (m_block sig)).

Lemma disconnected_slot (x : slot_id) : x <> s -> exists i, slots w1 !! x = (fun t => with_index t i) <$> slots w !! x.
Proof.
  intros Hx. destruct (ri_slot _ _ Hri x) as [i E]. exists i. cbn in *. by rewrite E, lookup_insert_ne.
Qed.

Lemma disconnected_edits : edits w w1.
Proof.
  unfold w1. destruct Hri as [Heq Hsl]. split.
  - rewrite Heq. reflexivity.
  - intros x. destruct (decide (x = s)) as [->|Hx].
    + destruct (Hsl s) as [i Ei]. exists i, false. cbn in *. rewrite Ei, lookup_insert_eq, Hs. cbn. unfold edited.
      by rewrite andb_false_r.
    + destruct (disconnected_slot x Hx) as [i Ei]. exists i, true. cbn in *. rewrite Ei.
      destruct (slots w !! x) as [t|]; [|done]. cbn. unfold edited. rewrite andb_true_r. by destruct t.
  - intros g. rewrite Heq. cbn. destruct (decide (g = mCleaner st)) as [->|].
    + rewrite Hg, lookup_insert_eq. split; [done|]. cbn. intros x Hx. by eapply only_flat.
    + rewrite lookup_insert_ne by done. by destruct (signals w !! g).
Qed.

Lemma disconnected_unlisted : unlisted w w1 s.
Proof.
  intros g sig0 H0. unfold w1. rewrite (ri_eq _ _ Hri). cbn. destruct (decide (g = mCleaner st)) as [->|Hne].
  - rewrite lookup_insert_eq. simplify_eq. eexists. split; [done|]. split; done.
  - rewrite lookup_insert_ne by done. exists sig0. split_and!; try done. apply only_all. intros x Hx ->.
    apply Hne. apply flat_elem in Hx as (gr & Hin & Hx). apply list_elem_of_lookup_1 in Hx as [i Hx].
    destruct (ok_signal w (ok_lists w Hok) g sig0 H0) as [_ Hall]. rewrite Forall_forall in Hall.
    specialize (Hall gr Hin i s Hx). rewrite Hs in Hall. cbn in Hall. by injection Hall.
Qed.

Lemma disconnected_ok : lists_ok w1 -> world_ok w1.
Proof.
  intros Hl. apply (world_ok_edits w); [done|done|apply disconnected_edits|].
  intros g sig0 x H0 Hx. destruct (decide (x = s)) as [->|Hne].
  - pose proof (ed_list _ _ disconnected_edits g) as Hli. rewrite H0 in Hli.
    destruct (signals w !! g) as [sigw|] eqn:Hgw; [|done].
    destruct (disconnected_unlisted g sigw Hgw) as (sig1 & H1 & _ & Hon1). rewrite H0 in H1. injection H1 as <-.
    by destruct (only_flat _ _ _ s Hon1 Hx).
  - destruct (disconnected_slot x Hne) as [i ->]. by destruct (slots w !! x).
Qed.
End Disconnected.

Lemma slot_disconnect_spec (w : World) (s : slot_id) (st : slot) :
  world_ok w -> slots w !! s = Some st ->
  exists w', slot_disconnect w s = Ret (w', mConnected st) /\ world_ok w' /\ edits w w' /\ unlisted w w' s /\
    (exists i, slots w' !! s = Some (with_index (with_connected st false) i)) /\
    (forall x, x <> s -> mConnected <$> slots w' !! x = mConnected <$> slots w !! x).
Proof.
  intros Hok Hs. destruct (mConnected st) eqn:Hc.
  - destruct (ok_cleaner w (ok_lists w Hok) s st Hs) as [sig Hg].
    destruct (clean_spec (set_connected w s st false) (mCleaner st) sig s (with_connected st false)) as (w' & l' & E & Hri & Hon & Hl');
      [by apply lists_ok_connected, Hs; apply Hok|cbn; by rewrite lookup_insert_eq|done|done|].
    unfold slot_disconnect, upd_slot, slot_at. rewrite Hs. cbn [deref run_bind].
    fold (set_connected w s st false). rewrite Hc, E. cbn [run_bind]. eexists. split; [done|].
    split_and!; [by apply (disconnected_ok w w' s st sig l')|by apply (disconnected_edits w w' s st sig l')
                |by apply (disconnected_unlisted w w' s st sig l')| |].
    + destruct (ri_slot _ _ Hri s) as [i Ei]. cbn in *. rewrite lookup_insert_eq in Ei. by exists i.
    + intros x Hx. destruct (disconnected_slot w w' s st sig l' Hri x Hx) as [i ->]. by destruct (slots w !! x).
  - exists w. rewrite (slot_disconnect_dead w s st Hs Hc). split_and!; [done|done|done| | |done].
    + intros g sig Hg. exists sig. split_and!; try done. apply only_all. intros x Hx ->.
      by rewrite (ok_listed w Hok g sig s st Hg Hx Hs) in Hc.
    + exists (mIndex st). rewrite Hs. destruct st. cbn in *. by subst.
Qed.

(** ** Connecting *)
Lemma add_in_gids (l l' : list group_type) (s : slot_id) (id : GroupId) (i : nat) : add_in l s id = (l', i) ->
  (forall x, x ∈ gid <$> l' -> x = id \/ x ∈ gid <$> l) /\
  (StronglySorted Z.lt (gid <$> l) -> StronglySorted Z.lt (gid <$> l')).
Proof.
  revert l' i. induction l as [|gr l IH]; intros l' i E; cbn in E.
  { simplify_eq. cbn. split; [set_solver|]. intros _. repeat constructor. }
  destruct (Z.ltb_spec (gid gr) id) as [Hlt|Hge].
  - destruct (add_in l s id) as [l1 j] eqn:E1. simplify_eq. destruct (IH l1 i eq_refl) as [Hin Hso].
    rewrite !fmap_cons. split; [set_solver|]. intros [Hf Hs]%StronglySorted_cons. apply StronglySorted_cons. split; [|by apply Hso].
    rewrite Forall_forall in Hf |- *. intros x [->|Hx]%Hin; [done|by apply Hf].
  - destruct (Z.eqb_spec (gid gr) id) as [Heq|Hne]; cbn [negb] in E; simplify_eq; rewrite !fmap_cons; cbn [gid].
    + split; [set_solver|done].
    + split; [set_solver|]. intros Hs. apply StronglySorted_cons. split; [|done].
      apply StronglySorted_cons in Hs as [Hf _]. constructor; [lia|]. eapply Forall_impl; [exact Hf|]. cbn. lia.
Qed.

Lemma add_in_flat (l l' : list group_type) (s : slot_id) (id : GroupId) (i : nat) :
  StronglySorted Z.lt (gid <$> l) -> add_in l s id = (l', i) ->
  exists before after, flat l = flat before ++ flat after /\ flat l' = flat before ++ s :: flat after /\
    (forall gr, gr ∈ before -> gid gr <= id /\ gr ∈ l) /\ (forall gr, gr ∈ after -> id < gid gr /\ gr ∈ l).
Proof.
  unfold flat. revert l' i. induction l as [|gr l IH]; intros l' i Hs E; cbn in E.
  { simplify_eq. exists [], []. split_and!; try done; intros gr Hx; by apply elem_of_nil in Hx. }
  rewrite fmap_cons in Hs. apply StronglySorted_cons in Hs as [Hf Hs]. rewrite Forall_fmap, Forall_forall in Hf. cbn in Hf.
  destruct (Z.ltb_spec (gid gr) id) as [Hlt|Hge].
  - destruct (add_in l s id) as [l1 j] eqn:E1. simplify_eq. destruct (IH l1 i Hs eq_refl) as (p & q & Hl & Hl' & Hp & Hq).
    exists (gr :: p), q. cbn. rewrite Hl, Hl', <- !app_assoc. split_and!; try done.
    + intros x [->|Hx]%elem_of_cons; [split; [lia|by left]|]. destruct (Hp x Hx). split; [done|by right].
    + intros x Hx. destruct (Hq x Hx). split; [done|by right].
  - destruct (Z.eqb_spec (gid gr) id) as [Heq|Hne]; cbn [negb] in E; simplify_eq.
    + exists [gr], l. cbn. rewrite app_nil_r, <- app_assoc. split_and!; try done.
      * intros x [->|Hx%elem_of_nil]%elem_of_cons; [|done]. split; [lia|by left].
      * intros x Hx. split; [by apply Hf|by right].
    + exists [], (gr :: l). cbn. split_and!; try done; [by intros x ?%elem_of_nil|].
      intros x [->|Hx]%elem_of_cons; [split; [lia|by left]|]. pose proof (Hf x Hx). split; [lia|by right].
Qed.

Lemma add_in_ok (w w' : World) (g : signal_id) (l l' : list group_type) (s : slot_id) (id : GroupId) (i : nat) :
  Forall (group_ok w g) l -> add_in l s id = (l', i) ->
  (forall x, x ∈ flat l -> pos <$> slots w' !! x = pos <$> slots w !! x) -> pos <$> slots w' !! s = Some (i, id, g) ->
  Forall (group_ok w' g) l'.
Proof.
  revert l' i. unfold flat. induction l as [|gr l IH]; intros l' i Hall E Hfr Hs; cbn in E.
  { simplify_eq. constructor; [|done]. intros [|j] x Hx; [|done]. cbn in Hx. by simplify_eq. }
  apply Forall_cons in Hall as [Hgr Hall]. cbn in Hfr. setoid_rewrite elem_of_app in Hfr.
  assert (Hl : Forall (group_ok w' g) l).
  { rewrite Forall_forall in Hall. apply Forall_forall. intros gr' Hin. apply (group_ok_frame w); [by apply Hall|].
    intros x Hx. apply Hfr. right. apply flat_elem. by exists gr'. }
  assert (Hgr' : group_ok w' g gr) by (apply (group_ok_frame w); [done|]; intros x Hx; apply Hfr; by left).
  destruct (Z.ltb_spec (gid gr) id) as [Hlt|Hge].
  - destruct (add_in l s id) as [l1 j] eqn:E1. simplify_eq. constructor; [done|]. by apply (IH l1 i Hall eq_refl); auto.
  - destruct (Z.eqb_spec (gid gr) id) as [Heq|Hne]; cbn [negb] in E; simplify_eq; constructor; try done.
    + intros j x. cbn. intros [Hx|[Hj Hx]]%lookup_app_Some; [by apply Hgr'|].
      apply list_lookup_singleton_Some in Hx as [Hj0 <-]. rewrite Hs. f_equal. f_equal. f_equal. lia.
    + intros [|j] x Hx; [|done]. cbn in Hx. by simplify_eq.
    + by constructor.
Qed.

(** The state after a slot is made and appended. *)
Definition connected_world (w : World) (g : signal_id) (sig : SignalBase) (b : binding) (f : func_id) (ext : bool) (id : GroupId) : World :=
  let (l', i) := add_in (m_slots sig) (next_slot w) id in
  mkWorld (<[next_slot w := mkSlot b f ext i id false true g]> (slots w)) (<[g := mkSignal l' (m_block sig)]> (signals w))
    (m_connections w) (owners w) (pins w) (running w) (calls w) (Pos.succ (next_slot w)).

Lemma connect_eq (w : World) (g : signal_id) (sig : SignalBase) (b : binding) (f : func_id) (ext : bool) (id : GroupId) :
  signals w !! g = Some sig -> connect w g b f ext id = Ret (connected_world w g sig b f ext id, next_slot w).
Proof.
  intros Hg. unfold connect, make_slot, add_slot, slot_at, signal_at, connected_world. cbn [slots signals].
  rewrite lookup_insert_eq, Hg. cbn [deref run_bind mGroup]. destruct (add_in _ _ _) as [l' i].
  unfold upd_slot, slot_at. cbn [slots]. rewrite lookup_insert_eq. cbn [deref run_bind].
  unfold set_slots, signal_at. cbn [signals with_slots]. rewrite Hg. cbn. by rewrite insert_insert_eq.
Qed.

Lemma fresh_slot (w : World) : lists_ok w -> slots w !! next_slot w = None.
Proof.
  intros H. apply eq_None_not_Some. intros Hs%(ok_fresh w H). lia.
Qed.

Lemma listed_slot (w : World) (g : signal_id) (sig : SignalBase) (s : slot_id) :
  lists_ok w -> signals w !! g = Some sig -> s ∈ flat (m_slots sig) -> is_Some (slots w !! s).
Proof.
  intros H Hg (gr & Hin & [i Hi]%list_elem_of_lookup_1)%flat_elem. destruct (ok_signal w H g sig Hg) as [_ Hall].
  rewrite Forall_forall in Hall. specialize (Hall gr Hin i s Hi). apply fmap_Some in Hall as (st & -> & _). by eexists.
Qed.

Section Connected.
Context (w : World) (g : signal_id) (sig : SignalBase) (b : binding) (f : func_id) (ext : bool) (id : GroupId).
Context (Hok : lists_ok w) (Hg : signals w !! g = Some sig).
Let s := next_slot w.
Let w' := connected_world w g sig b f ext id.

Lemma connected_slots : exists i, slots w' = <[s := mkSlot b f ext i id false true g]> (slots w) /\
  exists l', add_in (m_slots sig) s id = (l', i) /\ signals w' = <[g := mkSignal l' (m_block sig)]> (signals w).
Proof. unfold w', connected_world. fold s. destruct (add_in _ _ _) as [l' i]. exists i. split; [done|]. by exists l'. Qed.

Lemma connected_old (x : slot_id) : is_Some (slots w !! x) -> slots w' !! x = slots w !! x.
Proof.
  intros Hx. destruct connected_slots as (i & -> & _). apply lookup_insert_ne. intros <-.
  unfold s in Hx. rewrite (fresh_slot w Hok) in Hx. by destruct Hx.
Qed.

Lemma connected_lists_ok : lists_ok w'.
Proof.
  destruct connected_slots as (i & Esl & l' & Eadd & Esig).
  assert (Hrest : next_slot w' = Pos.succ s /\ running w' = running w)
    by (unfold w', connected_world; destruct (add_in _ _ _); done). destruct Hrest as [Hn Hr].
  split.
  - intros g0 sig0. rewrite Esig. destruct (decide (g0 = g)) as [->|Hne].
    + rewrite lookup_insert_eq. intros [= <-]. destruct (ok_signal w Hok g sig Hg) as [Hso Hall]. split; cbn.
      * by apply (add_in_gids _ _ _ _ _ Eadd).
      * apply (add_in_ok w w' g (m_slots sig) l' s id i Hall Eadd).
        -- intros x Hx. rewrite connected_old; [done|]. eapply listed_slot; [exact Hok|exact Hg|done].
        -- rewrite Esl, lookup_insert_eq. done.
    + rewrite lookup_insert_ne by done. intros H0. destruct (ok_signal w Hok g0 sig0 H0) as [Hso Hall].
      split; [done|]. rewrite Forall_forall in Hall. apply Forall_forall. intros gr Hin.
      apply (group_ok_frame w); [by apply Hall|]. intros x Hx. rewrite connected_old; [done|].
      eapply listed_slot; [exact Hok|exact H0|]. apply flat_elem. by exists gr.
  - intros l x. rewrite Hr. intros Hl Hx. pose proof (ok_running w Hok l x Hl Hx) as He. by rewrite connected_old.
  - intros x. rewrite Hn, Esl, lookup_insert_is_Some'. unfold s. intros [<-|Hx]; [lia|].
    pose proof (ok_fresh w Hok x Hx). lia.
  - intros x st. rewrite Esl, Esig, lookup_insert_is_Some'. destruct (decide (x = s)) as [->|].
    + rewrite lookup_insert_eq. intros [= <-]. by left.
    + rewrite lookup_insert_ne by done. intros Hx. right. by apply (ok_cleaner w Hok x).
Qed.

End Connected.

Section ConnectedWorld.
Context (w : World) (g : signal_id) (sig : SignalBase) (b : binding) (f : func_id) (ext : bool) (id : GroupId).
Context (Hok : world_ok w) (Hg : signals w !! g = Some sig) (Hraw : forall o, b = Raw o -> o ∈ owners w).
Let s := next_slot w.
Let w' := connected_world w g sig b f ext id.

Lemma connected_world_ok : world_ok w'.
Proof.
  destruct (connected_slots w g sig b f ext id) as (i & Esl & l' & Eadd & Esig). fold w' s in Esl, Eadd, Esig.
  split; [apply connected_lists_ok; [apply Hok|done]| |].
  - intros g0 sig0 x st. rewrite Esig, Esl. destruct (decide (x = s)) as [->|Hxs].
    { rewrite lookup_insert_eq. by intros _ _ [= <-]. }
    rewrite (lookup_insert_ne (slots w)) by done. destruct (decide (g0 = g)) as [->|Hne].
    + rewrite lookup_insert_eq. intros [= <-]. cbn [m_slots].
      destruct (add_in_flat _ _ _ _ _ (proj1 (ok_signal w (ok_lists w Hok) g sig Hg)) Eadd) as (p & q & Hl & Hl' & _).
      rewrite Hl', elem_of_app, elem_of_cons. intros Hx. apply (ok_listed w Hok g sig x st Hg). rewrite Hl, elem_of_app. naive_solver.
    + rewrite lookup_insert_ne by done. intros H0 Hx. by apply (ok_listed w Hok g0 sig0 x st H0).
  - assert (Ha : owners w' = owners w) by (unfold w', connected_world; destruct (add_in _ _ _); done).
    intros x st o. rewrite Ha, Esl. destruct (decide (x = s)) as [->|].
    + rewrite lookup_insert_eq. intros [= <-] Hb _. by apply Hraw.
    + rewrite lookup_insert_ne by done. apply (ok_raw w Hok).
Qed.

Lemma connected_evolves : evolves w w'.
Proof.
  split.
  - intros x st Hx. exists st. unfold w'. rewrite connected_old; [done|apply Hok|by eexists].
  - unfold w', connected_world; destruct (add_in _ _ _); done.
  - unfold w', connected_world; destruct (add_in _ _ _); done.
  - exists []. rewrite app_nil_r. unfold w', connected_world; destruct (add_in _ _ _); done.
  - intros _. apply connected_world_ok.
Qed.
End ConnectedWorld.

(** Connecting appends a new connected slot behind all slots of groups not above its
    own and before all slots of higher groups, in the order of emission, leaves every other
    list and slot as it was, and keeps the lists well formed. *)
Theorem connect_correct (w : World) (g : signal_id) (sig : SignalBase) (b : binding) (f : func_id) (ext : bool) (id : GroupId) :
  world_ok w -> signals w !! g = Some sig -> (forall o, b = Raw o -> o ∈ owners w) ->
  exists w' sig' before after, connect w g b f ext id = Ret (w', next_slot w) /\ world_ok w' /\
    slots w !! next_slot w = None /\ signals w' !! g = Some sig' /\ m_block sig' = m_block sig /\
    flat (m_slots sig) = flat before ++ flat after /\ flat (m_slots sig') = flat before ++ next_slot w :: flat after /\
    (forall gr, gr ∈ before -> gid gr <= id) /\ (forall gr, gr ∈ after -> id < gid gr) /\
    connection_connected w' (Some (next_slot w)) = Ret (match tracks b with Some o => alive w o | None => true end) /\
    (forall x, is_Some (slots w !! x) -> slots w' !! x = slots w !! x) /\
    (forall g', g' <> g -> signals w' !! g' = signals w !! g').
Proof.
  intros Hok Hg Hraw. destruct (connected_slots w g sig b f ext id) as (i & Esl & l' & Eadd & Esig).
  destruct (add_in_flat _ _ _ _ _ (proj1 (ok_signal w (ok_lists w Hok) g sig Hg)) Eadd) as (p & q & Hl & Hl' & Hp & Hq).
  exists (connected_world w g sig b f ext id), (mkSignal l' (m_block sig)), p, q. split_and!.
  - by apply connect_eq.
  - by apply connected_world_ok.
  - by apply fresh_slot, Hok.
  - by rewrite Esig, lookup_insert_eq.
  - done.
  - done.
  - done.
  - intros gr Hgr. by apply Hp.
  - intros gr Hgr. by apply Hq.
  - unfold connection_connected, lock, held. rewrite (proj2 (existsb_exists _ _)).
    + cbn [orb]. unfold slot_at. rewrite Esl, lookup_insert_eq. cbn [deref run_bind]. unfold slot_connected. cbn.
      destruct b; cbn; [done|done|]. rewrite andb_true_r. unfold alive, connected_world. by destruct (add_in _ _ _).
    + exists (g, mkSignal l' (m_block sig)). split.
      * apply list_elem_of_In, elem_of_map_to_list. by rewrite Esig, lookup_insert_eq.
      * apply bool_decide_eq_true. cbn [snd m_slots]. rewrite Hl'. set_solver.
  - intros x Hx. apply connected_old; [apply Hok|done].
  - intros g' Hne. by rewrite Esig, lookup_insert_ne.
Qed.

(** ** Disconnecting by condition *)

(** Conditions that do not look at indexes. *)
Class Blind (cond : World -> slot -> bool) : Prop :=
  blind : forall w w' st i, owners w' = owners w -> pins w' = pins w -> cond w' (with_index st i) = cond w st.

#[export] Instance blind_callable (f : func_id) : Blind (fun _ => has_callable f).
Proof. by intros w w' st i. Qed.
#[export] Instance blind_object (o : option obj_id) : Blind (fun w => has_object w o).
Proof. intros w w' st i Ho Hp. unfold has_object, get_object, alive. cbn. by rewrite Ho, Hp. Qed.
#[export] Instance blind_both (f : func_id) (o : option obj_id) : Blind (fun w st => has_object w o st && has_callable f st).
Proof. intros w w' st i Ho Hp. unfold has_object, get_object, alive. cbn. by rewrite Ho, Hp. Qed.
#[export] Instance blind_true : Blind (fun _ _ => true).
Proof. done. Qed.

Section DisconnectIf.
Context (cond : World -> slot -> bool) `{!Blind cond} (w0 : World).

(** The slots that stay. *)
Definition keep (x : slot_id) : Prop := match slots w0 !! x with Some st => cond w0 st = false | None => True end.
#[local] Instance keep_dec (x : slot_id) : Decision (keep x).
Proof. unfold keep. destruct (slots w0 !! x); apply _. Defined.

Lemma cond_keep (w : World) (x : slot_id) (st : slot) : reindexed w0 w -> slots w !! x = Some st -> cond w st = false <-> keep x.
Proof.
  intros [Heq Hsl] Hx. destruct (Hsl x) as [i E]. rewrite Hx in E. symmetry in E. apply fmap_Some in E as (st0 & H0 & ->).
  unfold keep. rewrite H0, (blind w0 w st0 i); [done|by rewrite Heq|by rewrite Heq].
Qed.

Lemma disconnect_loop_spec (g : signal_id) (id : GroupId) (fuel : nat) (w : World) (l : list slot_id) (i : nat) :
  reindexed w0 w -> group_ok w g (mkGroup l id) -> (length l - i < fuel)%nat ->
  (forall j x, (j < i)%nat -> l !! j = Some x -> keep x) ->
  exists w' l' n, disconnect_loop fuel cond w l i = Ret (w', l', n) /\ reindexed w w' /\ group_ok w' g (mkGroup l' id) /\
    l' ≡ₚ filter keep l /\ (n + length l' = length l)%nat /\ (forall x, x ∉ l -> slots w' !! x = slots w !! x).
Proof.
  revert w l i. induction fuel as [|fuel IH]; intros w l i Hri Hok Hf Hk; [lia|]. cbn [disconnect_loop].
  destruct (l !! i) as [s|] eqn:Hi.
  2:{ exists w, l, 0%nat. split_and!; try done. rewrite filter_all; [done|]. apply Forall_forall.
      intros x [j Hj]%list_elem_of_lookup_1. apply (Hk j); [|done]. apply lookup_lt_Some in Hj. apply lookup_ge_None in Hi. lia. }
  pose proof (lookup_lt_Some _ _ _ Hi) as Hlt.
  pose proof (Hok i s Hi) as Hp. apply fmap_Some in Hp as (st & Hst & _). unfold slot_at. rewrite Hst. cbn [deref run_bind].
  destruct (cond w st) eqn:Hc.
  - destruct (remove_at_spec w g (mkGroup l id) i s Hok Hi) as (w1 & E1 & Hri1 & Hok1 & Hfr1). cbn [slts gid] in *.
    rewrite E1. cbn [run_bind]. pose proof (swap_pop_perm l i s Hi) as Hperm. pose proof (swap_pop_length l i s Hi) as Hlen.
    destruct (last_lookup_1 _ _ _ Hi) as (b & Hb & _).
    destruct (IH w1 (swap_pop l i) i) as (w2 & l2 & n & E2 & Hri2 & Hok2 & Hl2 & Hn & Hfr2); [by etrans|done|lia| |].
    { intros j x Hj. rewrite (lookup_swap_pop l i j s b) by done. destruct (decide (j < _)%nat); [|done].
      destruct (decide (j = i)); [lia|]. by apply Hk. }
    rewrite E2. cbn [run_bind]. exists w2, l2, (S n). split_and!; [done|by etrans|done| |lia|].
    + set (l1 := swap_pop l i) in *. clearbody l1. rewrite Hl2, Hperm. rewrite filter_cons_False; [done|]. rewrite <- (cond_keep w s st Hri Hst). by rewrite Hc.
    + intros x Hx. set (l1 := swap_pop l i) in *. clearbody l1. rewrite Hperm in Hx. rewrite Hfr2, Hfr1; [done| |set_solver].
      rewrite Hperm. done.
  - apply IH; [done|done|lia|]. intros j x Hj Hx. destruct (decide (j = i)) as [->|]; [|apply (Hk j); [lia|done]].
    rewrite Hx in Hi. injection Hi as ->. by apply (cond_keep w s st Hri Hst).
Qed.

Lemma disconnect_groups_spec (g : signal_id) (w : World) (l : list group_type) :
  reindexed w0 w -> Forall (group_ok w g) l -> NoDup (flat l) ->
  exists w' l' n, disconnect_groups cond w l = Ret (w', l', n) /\ reindexed w w' /\ Forall (group_ok w' g) l' /\
    only keep l l' /\ (n + length (flat l') = length (flat l))%nat /\ (forall x, x ∉ flat l -> slots w' !! x = slots w !! x).
Proof.
  revert w. unfold flat. induction l as [|gr l IH]; intros w Hri Hall Hnd; cbn [disconnect_groups].
  { exists w, [], 0%nat. split_and!; try done. constructor. }
  apply Forall_cons in Hall as [Hgr Hall]. cbn in Hnd. apply NoDup_app in Hnd as (_ & Hdis & Hnd).
  assert (Hgr0 : group_ok w g (mkGroup (slts gr) (gid gr))) by by destruct gr.
  destruct (disconnect_loop_spec g (gid gr) (S (length (slts gr))) w (slts gr) 0) as (w1 & l1 & n & E1 & Hri1 & Hok1 & Hl1 & Hn & Hfr1);
    [done|done|lia|lia|]. rewrite E1. cbn [run_bind].
  assert (Hall1 : Forall (group_ok w1 g) l).
  { rewrite Forall_forall in Hall. apply Forall_forall. intros gr' Hin. apply (group_ok_frame w); [by apply Hall|].
    intros x Hx. rewrite Hfr1; [done|]. intros Hx'. apply (Hdis x Hx'), flat_elem. by exists gr'. }
  destruct (IH w1 ltac:(by etrans) Hall1 Hnd) as (w2 & l2 & m & E2 & Hri2 & Hok2 & Hon & Hm & Hfr2).
  rewrite E2. cbn [run_bind]. exists w2, (mkGroup l1 (gid gr) :: l2), (n + m)%nat. split_and!; [done|by etrans| | | |].
  - constructor; [|done]. apply (group_ok_frame w1); [done|]. intros x Hx. cbn in Hx. rewrite Hfr2; [done|].
    apply Hdis. rewrite Hl1 in Hx. by apply list_elem_of_filter in Hx as [_ ?].
  - constructor; [|done]. done.
  - cbn. rewrite !length_app. cbn. lia.
  - intros x. cbn. rewrite elem_of_app. intros Hx. rewrite Hfr2, Hfr1; naive_solver.
Qed.
End DisconnectIf.

Lemma disconnect_if_lists (cond : World -> slot -> bool) `{!Blind cond} (w : World) (g : signal_id) (sig : SignalBase) :
  lists_ok w -> signals w !! g = Some sig ->
  exists w' n l', disconnect_if w g cond = Ret (w', n) /\ lists_ok w' /\ edits w w' /\
    signals w' !! g = Some (mkSignal l' (m_block sig)) /\
    Forall2 (fun gr gr' => gid gr' = gid gr /\ slts gr' ≡ₚ filter (fun x => cond w <$> slots w !! x <> Some true) (slts gr)) (m_slots sig) l' /\
    (n + length (flat l') = length (flat (m_slots sig)))%nat /\
    (forall g', g' <> g -> signals w' !! g' = signals w !! g') /\
    (forall x, mConnected <$> slots w' !! x = mConnected <$> slots w !! x).
Proof.
  intros Hok Hg. destruct (ok_signal w Hok g sig Hg) as [Hso Hall].
  destruct (disconnect_groups_spec cond w g w (m_slots sig)) as (w1 & l' & n & E & Hri & Hok1 & Hon & Hn & Hfr);
    [done|done|by eapply flat_nodup|].
  pose proof (@lists_ok_relist w w1 g sig l' (m_block sig) (keep cond w) _ Hok Hg Hri Hok1 Hon Hfr) as Hl.
  assert (Hs1 : signals w1 = signals w) by (rewrite (ri_eq _ _ Hri); reflexivity).
  assert (Hed : edits w (set_signal w1 g (mkSignal l' (m_block sig)))).
  { split.
    - rewrite (ri_eq _ _ Hri). reflexivity.
    - intros x. destruct (ri_slot _ _ Hri x) as [i Ei]. exists i, true. cbn. rewrite Ei. destruct (slots w !! x); [|done].
      cbn. unfold edited. rewrite andb_true_r. by destruct s.
    - intros g'. cbn. rewrite Hs1. destruct (decide (g' = g)) as [->|].
      + rewrite Hg, lookup_insert_eq. split; [done|]. intros x Hx. by eapply only_flat.
      + rewrite lookup_insert_ne by done. by destruct (signals w !! g'). }
  assert (Hconn : forall x, mConnected <$> slots w1 !! x = mConnected <$> slots w !! x).
  { intros x. destruct (ri_slot _ _ Hri x) as [i ->]. by destruct (slots w !! x). }
  exists (set_signal w1 g (mkSignal l' (m_block sig))), n, l'.
  unfold disconnect_if, signal_at. rewrite Hg. cbn [deref run_bind]. rewrite E. cbn [run_bind].
  unfold set_slots, signal_at. rewrite Hs1, Hg. cbn [deref run_bind]. split_and!; try done.
  - cbn. by rewrite lookup_insert_eq.
  - eapply Forall2_impl; [exact Hon|]. intros gr gr' [Hid Hp]. split; [done|]. rewrite Hp.
    rewrite (list_filter_iff (keep cond w) (fun x => cond w <$> slots w !! x <> Some true)); [done|]. intros x. unfold keep. destruct (slots w !! x) as [st|]; cbn; [|done].
    destruct (cond w st); naive_solver.
  - intros g' Hne. cbn. by rewrite Hs1, lookup_insert_ne.
Qed.

Lemma disconnect_if_spec (cond : World -> slot -> bool) `{!Blind cond} (w : World) (g : signal_id) (sig : SignalBase) :
  world_ok w -> signals w !! g = Some sig ->
  exists w' n l', disconnect_if w g cond = Ret (w', n) /\ world_ok w' /\ edits w w' /\
    signals w' !! g = Some (mkSignal l' (m_block sig)) /\
    Forall2 (fun gr gr' => gid gr' = gid gr /\ slts gr' ≡ₚ filter (fun x => cond w <$> slots w !! x <> Some true) (slts gr)) (m_slots sig) l' /\
    (n + length (flat l') = length (flat (m_slots sig)))%nat /\
    (forall g', g' <> g -> signals w' !! g' = signals w !! g') /\
    (forall x, mConnected <$> slots w' !! x = mConnected <$> slots w !! x).
Proof.
  intros Hok Hg. destruct (disconnect_if_lists cond w g sig (ok_lists w Hok) Hg) as (w' & n & l' & E & Hl & Hed & Hg' & Hf & Hn & Ho & Hc).
  exists w', n, l'. split_and!; try done. apply (world_ok_edits w); [done|done|done|]. intros g0 sig0 x _ _. apply Hc.
Qed.

(** Disconnecting by condition takes exactly the slots satisfying it out of the
    signal's lists, counts them, and keeps the other slots in their groups and the lists
    well formed. *)
Theorem disconnect_if_correct (cond : World -> slot -> bool) `{!Blind cond} (w : World) (g : signal_id) (sig : SignalBase) :
  world_ok w -> signals w !! g = Some sig ->
  exists w' n l', disconnect_if w g cond = Ret (w', n) /\ world_ok w' /\ edits w w' /\
    signals w' !! g = Some (mkSignal l' (m_block sig)) /\
    Forall2 (fun gr gr' => gid gr' = gid gr /\ slts gr' ≡ₚ filter (fun x => cond w <$> slots w !! x <> Some true) (slts gr)) (m_slots sig) l' /\
    (n + length (flat l') = length (flat (m_slots sig)))%nat /\
    (forall g', g' <> g -> signals w' !! g' = signals w !! g') /\
    (forall x, mConnected <$> slots w' !! x = mConnected <$> slots w !! x).
Proof. exact (disconnect_if_spec cond w g sig). Qed.

(** Disconnecting a slot reports whether it was connected, takes it out of its
    signal's list and every other list, keeps all other slots in their groups, and leaves
    the lists well formed; a second disconnect changes nothing. *)
Theorem slot_disconnect_correct (w : World) (s : slot_id) (st : slot) :
  world_ok w -> slots w !! s = Some st ->
  exists w', slot_disconnect w s = Ret (w', mConnected st) /\ world_ok w' /\
    (forall g sig, signals w !! g = Some sig ->
      exists sig', signals w' !! g = Some sig' /\ m_block sig' = m_block sig /\
        Forall2 (fun gr gr' => gid gr' = gid gr /\ slts gr' ≡ₚ filter (fun x => x <> s) (slts gr)) (m_slots sig) (m_slots sig')) /\
    (forall x, x <> s -> mConnected <$> slots w' !! x = mConnected <$> slots w !! x) /\
    slot_disconnect w' s = Ret (w', false).
Proof.
  intros Hok Hs. destruct (slot_disconnect_spec w s st Hok Hs) as (w' & E & Hok' & Hed & Hun & (i & Hs') & Hx).
  exists w'. split_and!; try done.
  by apply (slot_disconnect_dead w' s _ Hs').
Qed.

(** ** Moving signals *)
Lemma reroute_spec (w : World) (l : list slot_id) (t : signal_id) : (forall x, x ∈ l -> is_Some (slots w !! x)) ->
  exists m, reroute w l t = Ret (with_slots w m) /\
    forall x, m !! x = (fun st => if decide (x ∈ l) then with_cleaner st t else st) <$> slots w !! x.
Proof.
  revert w. induction l as [|s l IH]; intros w Hl; cbn [reroute].
  { exists (slots w). split; [by destruct w|]. intros x. by destruct (slots w !! x). }
  destruct (Hl s ltac:(by left)) as [st Hs]. unfold upd_slot, slot_at. rewrite Hs. cbn [deref run_bind].
  destruct (IH (with_slots w (<[s := with_cleaner st t]> (slots w)))) as (m & E & Hm).
  { intros x Hx. cbn. rewrite lookup_insert_is_Some'. right. apply Hl. by right. }
  exists m. rewrite E. split; [done|]. intros x. rewrite Hm. cbn. destruct (decide (x = s)) as [->|Hne].
  - rewrite lookup_insert_eq, Hs. cbn. f_equal. rewrite (decide_True (P := s ∈ s :: l)) by (by left). by destruct (decide (s ∈ l)).
  - rewrite lookup_insert_ne by done. destruct (slots w !! x); [|done]. cbn. f_equal.
    destruct (decide (x ∈ l)), (decide (x ∈ s :: l)) as [H|H]; try done; [by destruct H; right|].
    apply elem_of_cons in H as [?|?]; done.
Qed.

(** The invariant after the lists [lg] and [lo] of two signals changed hands. *)
Section Swapped.
Context (w : World) (g o : signal_id) (bg bo : bool) (from : SignalBase) (lo : list group_type) (m : gmap slot_id slot).
Context (Hok : world_ok w) (Hne : g <> o) (Ho : signals w !! o = Some from).
Context (Hlo : lo = [] \/ exists to, signals w !! g = Some to /\ lo = m_slots to).
Context (Hm : forall x, m !! x = (fun st => if decide (x ∈ flat lo) then with_cleaner st o else
  if decide (x ∈ flat (m_slots from)) then with_cleaner st g else st) <$> slots w !! x).
Let w' := with_slots (with_signals w (<[o := mkSignal lo bo]> (<[g := mkSignal (m_slots from) bg]> (signals w)))) m.

Lemma swapped_disjoint (x : slot_id) (gr : signal_id) (sig : SignalBase) : signals w !! gr = Some sig -> x ∈ flat (m_slots sig) ->
  (x ∈ flat (m_slots from) -> gr = o) /\ (x ∈ flat lo -> gr = g).
Proof.
  intros Hs (k & Hk & [i Hi]%list_elem_of_lookup_1)%flat_elem.
  assert (Hall : forall g0 s0, signals w !! g0 = Some s0 -> forall y, y ∈ m_slots s0 -> group_ok w g0 y).
  { intros g0 s0 H0. destruct (ok_signal w (ok_lists w Hok) g0 s0 H0) as [_ H]. by rewrite Forall_forall in H. }
  split.
  - intros (k' & Hk' & [j Hj]%list_elem_of_lookup_1)%flat_elem.
    by destruct (listed_once w gr o k k' i j x (Hall _ _ Hs _ Hk) (Hall _ _ Ho _ Hk') Hi Hj).
  - destruct Hlo as [->|(to & Hto & ->)]; [by intros ?%elem_of_nil|].
    intros (k' & Hk' & [j Hj]%list_elem_of_lookup_1)%flat_elem.
    by destruct (listed_once w gr g k k' i j x (Hall _ _ Hs _ Hk) (Hall _ _ Hto _ Hk') Hi Hj).
Qed.

Lemma swapped_connected (x : slot_id) : mConnected <$> m !! x = mConnected <$> slots w !! x.
Proof. rewrite Hm. destruct (slots w !! x); [|done]. cbn. by repeat destruct (decide _). Qed.

(** The groups of a list rerouted to [t]. *)
Lemma swapped_groups (src t : signal_id) (l : list group_type) :
  Forall (group_ok w src) l -> (forall x st, x ∈ flat l -> slots w !! x = Some st -> m !! x = Some (with_cleaner st t)) ->
  Forall (group_ok w' t) l.
Proof.
  intros Hall Hx. rewrite Forall_forall in Hall. apply Forall_forall. intros gr Hin i s Hs.
  specialize (Hall gr Hin i s Hs). apply fmap_Some in Hall as (st & Hst & Hp). injection Hp as Hi Hgr _.
  cbn. rewrite (Hx s st); [unfold pos; cbn; congruence| |done]. apply flat_elem. exists gr. split; [done|by apply (list_elem_of_lookup_2 _ i)].
Qed.

Lemma swapped_ok : world_ok w'.
Proof.
  assert (Hex : forall x, is_Some (m !! x) <-> is_Some (slots w !! x)) by (intros x; rewrite Hm; apply fmap_is_Some).
  assert (Hsig : forall g0 sig0, signals w' !! g0 = Some sig0 ->
    (g0 = o /\ m_slots sig0 = lo) \/ (g0 = g /\ m_slots sig0 = m_slots from) \/ (g0 <> o /\ g0 <> g /\ signals w !! g0 = Some sig0)).
  { intros g0 sig0. cbn. destruct (decide (g0 = o)) as [->|]; [rewrite lookup_insert_eq; intros [= <-]; by left|].
    rewrite lookup_insert_ne by done. destruct (decide (g0 = g)) as [->|]; [rewrite lookup_insert_eq; intros [= <-]; right; by left|].
    rewrite lookup_insert_ne by done. intros H. right. by right. }
  destruct (ok_signal w (ok_lists w Hok) o from Ho) as [Hso Hfrom]. split; [split|..].
  - intros g0 sig0 [[-> E]|[[-> E]|(Hn1 & Hn2 & H0)]]%Hsig; unfold signal_ok; rewrite ?E.
    + destruct Hlo as [E0|(to & Hto & E0)]; rewrite E0; [split; [constructor|done]|].
      destruct (ok_signal w (ok_lists w Hok) g to Hto) as [Hst Hall]. split; [done|].
      apply (swapped_groups g o); [done|]. intros x st Hx Hst'. rewrite Hm, Hst'. cbn. by rewrite decide_True by (by rewrite E0).
    + split; [done|]. apply (swapped_groups o g); [done|]. intros x st Hx Hst'. rewrite Hm, Hst'. cbn.
      rewrite decide_False, decide_True; [done|done|]. intros Hx'. apply Hne. symmetry. by apply (swapped_disjoint x o from Ho Hx).
    + destruct (ok_signal w (ok_lists w Hok) g0 sig0 H0) as [Hs0 Hall]. split; [done|]. rewrite Forall_forall in Hall.
      apply Forall_forall. intros gr Hin. apply (group_ok_frame w); [by apply Hall|]. intros x Hx. cbn. rewrite Hm.
      assert (Hx0 : x ∈ flat (m_slots sig0)) by (apply flat_elem; by exists gr).
      destruct (swapped_disjoint x g0 sig0 H0 Hx0) as [H1 H2].
      destruct (slots w !! x); [|done]. cbn.
      rewrite decide_False by (intros ?; by apply Hn2, H2). by rewrite decide_False by (intros ?; by apply Hn1, H1).
  - intros l x Hl Hx. apply Hex. by apply (ok_running w (ok_lists w Hok) l).
  - intros x Hx%Hex. by apply (ok_fresh w (ok_lists w Hok)).
  - intros x st. cbn. rewrite Hm. intros (st0 & H0 & ->)%fmap_Some. rewrite !lookup_insert_is_Some'.
    destruct (decide _); [by left|]. destruct (decide _); [right; by left|]. right; right. by apply (ok_cleaner w (ok_lists w Hok) x).
  - intros g0 sig0 x st Hs Hx Hst.
    assert (Hin : exists g1 s1, signals w !! g1 = Some s1 /\ x ∈ flat (m_slots s1)).
    { destruct (Hsig g0 sig0 Hs) as [[-> E]|[[-> E]|(_ & _ & H0)]]; rewrite ?E in Hx.
      - destruct Hlo as [E0|(to & Hto & E0)]; rewrite E0 in Hx; [by apply elem_of_nil in Hx|]. by exists g, to.
      - by exists o, from.
      - by exists g0, sig0. }
    destruct Hin as (g1 & s1 & H1 & Hx1). cbn in Hst. pose proof (swapped_connected x) as E. rewrite Hst in E. symmetry in E.
    apply fmap_Some in E as (st0 & H0 & ->). by apply (ok_listed w Hok g1 s1 x st0).
  - intros x st ob. cbn. rewrite Hm. intros (st0 & H0 & ->)%fmap_Some Hb Hc. apply (ok_raw w Hok x st0 ob H0); revert Hb Hc; by repeat destruct (decide _).
Qed.
End Swapped.

(** Moving a signal hands its slots, in order, to the new signal, which becomes the one
    they clean up in; a move assignment swaps the slots and the block flags of the two. No
    slot is connected or disconnected, and the lists stay well formed. *)
Theorem move_correct (w : World) (g o : signal_id) (from : SignalBase) :
  world_ok w -> g <> o -> signals w !! o = Some from ->
  (signals w !! g = None ->
    exists w', move_construct w g o = Ret w' /\ world_ok w' /\ signals w' !! g = Some from /\
      signals w' !! o = Some (mkSignal [] (m_block from)) /\ (forall x, mConnected <$> slots w' !! x = mConnected <$> slots w !! x)) /\
  (forall to, signals w !! g = Some to ->
    exists w', move_assign w g o = Ret w' /\ world_ok w' /\ signals w' !! g = Some from /\ signals w' !! o = Some to /\
      (forall x, mConnected <$> slots w' !! x = mConnected <$> slots w !! x)).
Proof.
  intros Hok Hne Ho. assert (Hfrom : forall x, x ∈ flat (m_slots from) -> is_Some (slots w !! x)).
  { intros x Hx. by eapply listed_slot; [apply Hok|exact Ho|]. }
  split.
  - intros Hg. unfold move_construct, signal_at. rewrite Ho. cbn [deref run_bind].
    destruct (reroute_spec (set_signal (set_signal w g (mkSignal (m_slots from) (m_block from))) o (mkSignal [] (m_block from)))
      (flat (m_slots from)) g Hfrom) as (m & -> & Hm).
    assert (Hm' : forall x, m !! x = (fun st => if decide (x ∈ flat []) then with_cleaner st o else
      if decide (x ∈ flat (m_slots from)) then with_cleaner st g else st) <$> slots w !! x).
    { intros x. rewrite Hm. cbn. destruct (slots w !! x); [|done]. cbn. by rewrite (decide_False (P := x ∈ [])) by apply not_elem_of_nil. }
    eexists. split; [reflexivity|]. split_and!.
    + exact (swapped_ok w g o (m_block from) (m_block from) from [] m Hok Hne Ho (or_introl eq_refl) Hm').
    + cbn. rewrite lookup_insert_ne, lookup_insert_eq by done. by destruct from.
    + cbn. by rewrite lookup_insert_eq.
    + exact (swapped_connected w g o from [] m Hm').
  - intros to Hg. unfold move_assign, signal_at. rewrite Hg, Ho. cbn [deref run_bind].
    destruct (reroute_spec (set_signal (set_signal w g from) o to) (flat (m_slots from)) g Hfrom) as (m1 & -> & Hm1). cbn [run_bind].
    destruct (reroute_spec (with_slots (set_signal (set_signal w g from) o to) m1) (flat (m_slots to)) o) as (m & -> & Hm).
    { intros x Hx. cbn. rewrite Hm1, fmap_is_Some. exact (listed_slot w g to x (ok_lists w Hok) Hg Hx). }
    assert (Hm' : forall x, m !! x = (fun st => if decide (x ∈ flat (m_slots to)) then with_cleaner st o else
      if decide (x ∈ flat (m_slots from)) then with_cleaner st g else st) <$> slots w !! x).
    { intros x. rewrite Hm. cbn. rewrite Hm1. cbn. destruct (slots w !! x); [|done]. cbn. by repeat destruct (decide _). }
    eexists. split; [reflexivity|].
    pose proof (swapped_ok w g o (m_block from) (m_block to) from (m_slots to) m Hok Hne Ho (or_intror (ex_intro _ to (conj Hg eq_refl))) Hm') as Hok'.
    split_and!.
    + destruct from, to. exact Hok'.
    + cbn. by rewrite lookup_insert_ne, lookup_insert_eq.
    + cbn. by rewrite lookup_insert_eq.
    + exact (swapped_connected w g o from (m_slots to) m Hm').
Qed.
