(* ===== verification/SignalCombine.v ===== *)
(** * Signals: emissions that collect results

    The lazy iterator with its shared cache, run by the two combiners of the library,
    against a reference that calls the slots of the snapshot one after the other and
    collects their results. *)

From stdpp Require Import prelude list numbers gmap.
From Stdlib Require Import ZArith Lia.
From S2P Require Import Prelude Signals.

#[local] Open Scope Z_scope.
#[local] Open Scope cxx_scope.

Section Combine.
Context (body_r : slot_id -> Z -> World -> run (World * Z)) (a : Z).

(** The reference: each slot found connected and unblocked at its turn is called once,
    and its result kept. *)
Fixpoint collect (l : list slot_id) (w : World) : run (World * list Z) :=
  match l with
  | [] => Ret (w, [])
  | s :: l =>
      do st <- slot_at w s;
      if slot_connected w st && negb (mBlocked st) then
        do (w, v) <- call_slot_r body_r w s a;
        do (w, vs) <- collect l w; Ret (w, v :: vs)
      else collect l w
  end.

Lemma run_bind_assoc {A B C} (m : run A) (f : A -> run B) (k : B -> run C) :
  run_bind (run_bind m f) k = run_bind m (fun x => run_bind (f x) k).
Proof. by destruct m. Qed.

Lemma collect_normalize {B} (l : list slot_id) (w : World) (k : World * list Z -> run B) :
  run_bind (collect l w) k = do l' <- normalize w l; run_bind (collect l' w) k.
Proof.
  induction l as [|s l IH]; [done|]. cbn [collect normalize].
  destruct (slot_at w s) as [st| | |] eqn:Hs; cbn [run_bind]; try done.
  destruct (slot_connected w st && negb (mBlocked st)) eqn:Hc; [|exact IH].
  cbn [run_bind collect]. rewrite Hs. cbn [run_bind]. by rewrite Hc.
Qed.

(** A loop that folds [f] over the dereferenced values; both combiners are such loops. *)
Section Loop.
Context (f : option Z -> Z -> option Z).

Fixpoint fold_loop (fuel : nat) (w : World) (it : list slot_id) (cache : slot_result_cache) (acc : option Z) : run (World * option Z) :=
  match fuel with
  | O => Timeout
  | S fuel =>
      match it with
      | [] => Ret (w, acc)
      | _ =>
          do (w, cache, v) <- iterator_deref body_r w it cache a;
          do (it, cache) <- iterator_next w it;
          fold_loop fuel w it cache (f acc v)
      end
  end.

(** The iterator is normalized: it points at a slot that may be called, or to the end. *)
Definition normal (w : World) (it : list slot_id) : Prop :=
  match it with
  | [] => True
  | s :: _ => exists st, slot_at w s = Ret st /\ slot_connected w st && negb (mBlocked st) = true
  end.

Lemma normalize_normal (w : World) (l l' : list slot_id) : normalize w l = Ret l' -> normal w l' /\ (length l' <= length l)%nat.
Proof.
  induction l as [|s l IH]; cbn; intros E; [by injection E as <-|].
  destruct (slot_at w s) as [st| | |] eqn:Hs; try done. cbn [run_bind] in E.
  destruct (slot_connected w st && negb (mBlocked st)) eqn:Hc.
  - injection E as <-. split; [|done]. by exists st.
  - destruct (IH E). split; [done|lia].
Qed.

Lemma fold_loop_spec (fuel : nat) (w : World) (it : list slot_id) (acc : option Z) :
  (length it < fuel)%nat -> normal w it ->
  fold_loop fuel w it None acc = do (w', vs) <- collect it w; Ret (w', fold_left f vs acc).
Proof.
  revert w it acc. induction fuel as [|fuel IH]; intros w it acc Hf Hn; [lia|].
  destruct it as [|s it]; [done|]. destruct Hn as (st & Hs & Hc). cbn [fold_loop collect iterator_deref iterator_next].
  rewrite Hs. cbn [run_bind]. rewrite Hc. rewrite !run_bind_assoc.
  destruct (call_slot_r body_r w s a) as [[w1 v]| | |]; try done. cbn [run_bind]. rewrite !run_bind_assoc, collect_normalize.
  destruct (normalize w1 it) as [it'| | |] eqn:En; try done. cbn [run_bind].
  destruct (normalize_normal w1 it it' En) as [Hn' Hlen]. rewrite IH by (done || (cbn in Hf; lia)).
  by destruct (collect it' w1) as [[w2 vs]| | |].
Qed.

Lemma combiner_range_spec (comb : combiner) (w : World) (l : list slot_id) :
  (forall w it, comb w it a = fold_loop (S (length it)) w it None None) ->
  combiner_range comb w l a = do (w', vs) <- collect l w; Ret (w', fold_left f vs None).
Proof.
  intros Hcomb. unfold combiner_range. rewrite collect_normalize.
  destruct (normalize w l) as [it| | |] eqn:En; try done. cbn [run_bind]. rewrite Hcomb.
  apply fold_loop_spec; [lia|]. by apply (normalize_normal w l).
Qed.
End Loop.

Definition keep_last (acc : option Z) (v : Z) : option Z := Some v.
Definition keep_max (acc : option Z) (v : Z) : option Z :=
  match acc with None => Some v | Some m => if m <? v then Some v else Some m end.

Lemma optional_last_value_fold (w : World) (it : list slot_id) :
  optional_last_value body_r w it a = fold_loop keep_last (S (length it)) w it None None.
Proof.
  unfold optional_last_value. generalize (None : slot_result_cache) as cache, (None : option Z) as value.
  generalize (S (length it)) as fuel. intros fuel. revert w it. induction fuel as [|fuel IH]; intros w it cache value; [done|].
  cbn [last_value_loop fold_loop]. destruct it as [|s it]; [done|].
  destruct (iterator_deref _ _ _ _ _) as [[[w1 c1] v]| | |]; try done. cbn [run_bind].
  destruct (iterator_next w1 _) as [[it' c']| | |]; try done. apply IH.
Qed.

Lemma maximum_fold (w : World) (it : list slot_id) : maximum body_r w it a = fold_loop keep_max (S (length it)) w it None None.
Proof.
  unfold maximum. generalize (None : slot_result_cache) as cache, (None : option Z) as value.
  generalize (S (length it)) as fuel. intros fuel. revert w it. induction fuel as [|fuel IH]; intros w it cache value; [done|].
  cbn [maximum_loop fold_loop]. destruct it as [|s it]; [done|].
  destruct (iterator_deref _ _ _ _ _) as [[[w1 c1] v]| | |]; try done. cbn [run_bind].
  destruct (iterator_next w1 _) as [[it' c']| | |]; try done. apply IH.
Qed.

Lemma fold_last (vs : list Z) (acc : option Z) : fold_left keep_last vs acc = match last vs with Some v => Some v | None => acc end.
Proof.
  revert acc. induction vs as [|v vs IH]; intros acc; [done|]. cbn [fold_left]. rewrite IH. destruct vs as [|v' vs]; [done|].
  change (last (v :: v' :: vs)) with (last (v' :: vs)). destruct (last (v' :: vs)) eqn:E; [done|]. by apply last_None in E.
Qed.

Lemma fold_max (vs : list Z) (m : Z) : fold_left keep_max vs (Some m) = Some (fold_left Z.max vs m).
Proof.
  revert m. induction vs as [|v vs IH]; intros m; [done|]. cbn [fold_left keep_max].
  destruct (Z.ltb_spec m v); rewrite IH; do 2 f_equal; lia.
Qed.
End Combine.

(** C22: for any callables, the lazy emission gives the same state and outcome as calling
    the slots of the snapshot in order, each at most once and only if it is connected and
    unblocked when its turn comes: [optional_last_value] yields the last result and
    [maximum] the greatest, none if no slot is called, as for a blocked signal. *)
Theorem combiners_correct (body_r : slot_id -> Z -> World -> run (World * Z)) (w : World) (g : signal_id) (sig : SignalBase) (a : Z) :
  signals w !! g = Some sig ->
  let results := collect body_r a (flat (m_slots sig)) (with_running w (flat (m_slots sig) :: running w)) in
  let finish (pick : list Z -> option Z) :=
    if m_block sig then Ret (w, None)
    else do (w', vs) <- results; Ret (with_running w' (tail (running w')), pick vs) in
  emit_r (optional_last_value body_r) w g a = finish last /\
  emit_r (maximum body_r) w g a = finish (fun vs => match vs with [] => None | v :: vs => Some (fold_left Z.max vs v) end).
Proof.
  intros Hg results finish. unfold emit_r, signal_at, finish, results. rewrite Hg. cbn [deref run_bind].
  destruct (m_block sig); [done|]. split.
  - rewrite (combiner_range_spec body_r a keep_last) by apply optional_last_value_fold.
    destruct (collect _ _ _ _) as [[w1 vs]| | |]; try done. cbn [run_bind]. rewrite fold_last. by destruct (last vs).
  - rewrite (combiner_range_spec body_r a keep_max) by apply maximum_fold.
    destruct (collect _ _ _ _) as [[w1 [|v vs]]| | |]; try done. cbn [run_bind fold_left keep_max]. by rewrite fold_max.
Qed.
