(* ===== verification/SignalEmit.v ===== *)
(** * Signals: emission

    The contract of emission for arbitrary callables that use the signals through their
    operations: which slots are called, in which order, and what connecting,
    disconnecting and blocking in the middle of an emission do. *)

From stdpp Require Import prelude list numbers gmap sorting.
From Stdlib Require Import ZArith Lia.
From S2P Require Import Prelude Signals SignalsFacts.

#[local] Open Scope Z_scope.
#[local] Open Scope cxx_scope.

(** ** Callables that keep to the operations of the library *)
Class Body (body : slot_id -> Z -> World -> run World) : Prop :=
  body_evolves : forall s a w w', world_ok w -> body s a w = Ret w' -> evolves w w'.
Class Returns (body : slot_id -> Z -> World -> run World) : Prop :=
  body_returns : forall s a w, world_ok w -> exists w', body s a w = Ret w'.

(** ** Fields the invariant does not look at *)
Lemma world_ok_ext (w w' : World) :
  slots w' = slots w -> signals w' = signals w -> running w' = running w -> next_slot w' = next_slot w -> owners w' = owners w ->
  world_ok w -> world_ok w'.
Proof.
  intros Es Eg Er En Eo [[H1 H2 H3 H4] H5 H6]. split; [split|..].
  - intros g sig. rewrite Eg. intros Hg. destruct (H1 g sig Hg) as [Hso Hall]. split; [done|].
    eapply Forall_impl; [exact Hall|]. intros gr Hgr. apply (group_ok_frame w); [done|]. intros s _. by rewrite Es.
  - rewrite Es, Er. done.
  - rewrite Es, En. done.
  - rewrite Es, Eg. done.
  - rewrite Es, Eg. done.
  - rewrite Es, Eo. done.
Qed.

Lemma world_ok_calls (w : World) (x : list call) : world_ok w -> world_ok (with_calls w x).
Proof. by apply world_ok_ext. Qed.
Lemma world_ok_pins (w : World) (x : list obj_id) : world_ok w -> world_ok (with_pins w x).
Proof. by apply world_ok_ext. Qed.

(** Objects may die once no connected slot is bound to them by pointer. *)
Lemma world_ok_owners (w : World) (x : gset obj_id) :
  (forall s st o, slots w !! s = Some st -> bound st = Raw o -> mConnected st = true -> o ∈ x) -> world_ok w -> world_ok (with_owners w x).
Proof. intros Hx [[H1 H2 H3 H4] H5 H6]. by split; [split|..]. Qed.

Lemma world_ok_running (w : World) (r : list (list slot_id)) :
  world_ok w -> (forall l s, l ∈ r -> s ∈ l -> is_Some (slots w !! s)) -> world_ok (with_running w r).
Proof.
  intros [[H1 H2 H3 H4] H5 H6] Hr. split; [split|..]; done.
Qed.

(** ** One emission's own calls *)

(** [w'] is reached from [w] by turns of the emission at the current depth that call the
    slots [own], with further emissions inside them. *)
Record advance (own : list slot_id) (w w' : World) : Prop := {
  ad_slot : forall s st, slots w !! s = Some st ->
    exists st', slots w' !! s = Some st' /\ bound st' = bound st /\ func st' = func st /\ mGroup st' = mGroup st /\
      (mConnected st' = true -> mConnected st = true);
  ad_running : running w' = running w;
  ad_pins : pins w' = pins w;
  ad_calls : exists l, calls w' = calls w ++ l /\
    Forall (fun c => (length (running w) <= depth c)%nat /\ forall st, slots w !! called c = Some st -> mConnected st = true) l /\
    called <$> filter (fun c => depth c = length (running w)) l = own;
  ad_ok : world_ok w'
}.

Lemma advance_none (w w' : World) : world_ok w -> evolves w w' -> advance [] w w'.
Proof.
  intros Hok [H1 H2 H3 (l & E & F) H5]. split; try done; [|by apply H5]. exists l. split_and!; [done| |].
  - eapply Forall_impl; [exact F|]. intros c [? ?]. split; [lia|done].
  - rewrite filter_none; [done|]. eapply Forall_impl; [exact F|]. cbn. intros c [? _]. lia.
Qed.

Lemma advance_app (own1 own2 : list slot_id) (w1 w2 w3 : World) :
  advance own1 w1 w2 -> advance own2 w2 w3 -> advance (own1 ++ own2) w1 w3.
Proof.
  intros [A1 A2 A3 (l1 & E1 & F1 & O1) A5] [B1 B2 B3 (l2 & E2 & F2 & O2) B5].
  split; [|congruence|congruence| |done].
  - intros s st H. destruct (A1 s st H) as (st' & H' & ? & ? & ? & ?), (B1 s st' H') as (st'' & ? & ? & ? & ? & ?).
    exists st''. split_and!; try congruence. auto.
  - exists (l1 ++ l2). rewrite E2, E1, app_assoc, filter_app, fmap_app, O1. rewrite <- A2, O2. split_and!; [done| |done].
    apply Forall_app. rewrite <- A2 in F1. split; [done|]. eapply Forall_impl; [exact F2|]. intros c [Hd Hc]. split; [done|].
    intros st Hst. destruct (A1 _ st Hst) as (st' & H' & _ & _ & _ & Hm). by apply Hm, Hc.
Qed.

(** A slot that its turn finds connected, unblocked and with a live object. *)
Definition ready (w : World) (s : slot_id) : Prop :=
  exists st, slots w !! s = Some st /\ mConnected st = true /\ mBlocked st = false /\
    forall o, bound st = Tracked o -> alive w o = true.

Section Turns.
Context (body : slot_id -> Z -> World -> run World) `{!Body body}.

Lemma invoke_advance (w w' : World) (s : slot_id) (st : slot) (a : Z) :
  world_ok w -> slots w !! s = Some st -> mConnected st = true -> invoke body w s a = Ret w' -> advance [s] w w'.
Proof.
  intros Hok Hs Hc E. unfold invoke in E. apply body_evolves in E; [|by apply world_ok_calls].
  destruct E as [H1 H2 H3 (l & E & F) H5]. cbn in *. split; try done.
  - exists (mkCall s a (length (running w)) :: l). rewrite E, <- app_assoc. split_and!; [done| |].
    + constructor; [split; [done|]; cbn; congruence|]. eapply Forall_impl; [exact F|]. cbn. intros c [? ?]. split; [lia|done].
    + rewrite filter_cons_True by done. cbn. f_equal. rewrite filter_none; [done|].
      eapply Forall_impl; [exact F|]. cbn. intros c [? _]. lia.
  - apply H5. by apply world_ok_calls.
Qed.

(** The call of a tracked slot, its object pinned. *)
Lemma pinned_advance (w w' : World) (s : slot_id) (st : slot) (a : Z) (o : obj_id) :
  world_ok w -> slots w !! s = Some st -> mConnected st = true -> invoke body (with_pins w (o :: pins w)) s a = Ret w' ->
  advance [s] w (with_pins w' (tail (pins w'))).
Proof.
  intros Hok Hs Hc E. apply (invoke_advance _ _ _ st) in E; [|by apply world_ok_pins|done|done].
  destruct E as [H1 H2 H3 H4 H5]. cbn in *. split; try done; [by rewrite H3|by apply world_ok_pins].
Qed.

Lemma slot_call_spec (w w' : World) (s : slot_id) (a : Z) :
  world_ok w -> slot_call body w s a = Ret w' ->
  exists own, advance own w w' /\ (own = [s] /\ ready w s \/ own = [] /\ ~ ready w s).
Proof.
  intros Hok E. unfold slot_call, slot_at in E. destruct (slots w !! s) as [st|] eqn:Hs; [|done]. cbn [deref run_bind] in E.
  destruct (mConnected st && negb (mBlocked st)) eqn:Hcb.
  2:{ injection E as <-. exists []. split; [by apply advance_none|]. right. split; [done|].
      intros (st' & H' & Hc & Hb & _). simplify_eq. by rewrite Hc, Hb in Hcb. }
  apply andb_true_iff in Hcb as [Hc Hb%negb_true_iff].
  unfold call_slot, slot_at in E. rewrite Hs in E. cbn [deref run_bind] in E.
  assert (Hready : (forall o, bound st = Tracked o -> alive w o = true) -> ready w s) by (intros; by exists st).
  destruct (bound st) as [|o|o] eqn:Hbd.
  - exists [s]. split; [by apply (invoke_advance w w' s st a)|]. left. split; [done|]. by apply Hready.
  - destruct (alive w o); [|done]. exists [s]. split; [by apply (invoke_advance w w' s st a)|]. left. split; [done|]. by apply Hready.
  - destruct (alive w o) eqn:Ha.
    + rewrite Hc in E. destruct (invoke body _ s a) as [w1| | |] eqn:Ei; try done. cbn [run_bind] in E. injection E as <-.
      exists [s]. split; [by apply (pinned_advance w w1 s st a o)|]. left. split; [done|]. apply Hready. by intros o' [= <-].
    + destruct (slot_disconnect_spec w s st Hok Hs) as (w1 & Ed & Hok1 & Hed & _). rewrite Ed in E. injection E as <-.
      exists []. split; [by apply advance_none, edits_evolves|]. right. split; [done|].
      intros (st' & H' & _ & _ & Hal). simplify_eq. by rewrite (Hal o Hbd) in Ha.
Qed.

Lemma call_slots_app (l1 l2 : list slot_id) (a : Z) (w : World) :
  call_slots body (l1 ++ l2) a w = run_bind (call_slots body l1 a w) (call_slots body l2 a).
Proof.
  revert w. induction l1 as [|s l1 IH]; intros w; [done|]. cbn [call_slots app].
  destruct (slot_call body w s a); cbn [run_bind]; done || apply IH.
Qed.

Lemma call_groups_flat (l : list group_type) (a : Z) (w : World) : call_groups body l a w = call_slots body (flat l) a w.
Proof.
  revert w. unfold flat. induction l as [|gr l IH]; intros w; [done|]. cbn. rewrite call_slots_app.
  destruct (call_slots body (slts gr) a w); cbn [run_bind]; done || apply IH.
Qed.

Lemma call_slots_spec (l : list slot_id) (a : Z) (w w' : World) :
  world_ok w -> call_slots body l a w = Ret w' ->
  exists own, advance own w w' /\ own `sublist_of` l /\
    (NoDup l -> forall l1 s l2, l = l1 ++ s :: l2 -> exists w1, call_slots body l1 a w = Ret w1 /\ (s ∈ own <-> ready w1 s)).
Proof.
  revert w. induction l as [|s l IH]; intros w Hok E; cbn [call_slots] in E.
  { injection E as <-. exists []. split_and!; [by apply advance_none|done|]. intros _ l1 s l2 H. by destruct l1. }
  destruct (slot_call body w s a) as [w1| | |] eqn:E1; try done. cbn [run_bind] in E.
  destruct (slot_call_spec w w1 s a Hok E1) as (own1 & Had1 & Hown1).
  destruct (IH w1 (ad_ok _ _ _ Had1) E) as (own2 & Had2 & Hsub & Hturn).
  exists (own1 ++ own2). split_and!; [by eapply advance_app| |].
  - destruct Hown1 as [[-> _]|[-> _]]; cbn; by constructor.
  - intros [Hs Hnd]%NoDup_cons l1 t l2 Hl. destruct l1 as [|s' l1]; cbn in Hl; simplify_eq.
    + exists w. split; [done|]. rewrite elem_of_app. split.
      * intros [H|H]; [destruct Hown1 as [[-> ?]|[-> ?]]; [done|by apply elem_of_nil in H]|].
        exfalso. by eapply Hs, elem_of_sublist.
      * intros Hr. destruct Hown1 as [[-> _]|[-> ?]]; [left; by left|done].
    + destruct (Hturn Hnd l1 t l2 eq_refl) as (w2 & E2 & Hiff). exists w2. cbn [call_slots]. rewrite E1. cbn [run_bind].
      split; [done|]. rewrite <- Hiff, elem_of_app. split; [|by right]. intros [H|H]; [|done].
      exfalso. apply Hs. rewrite elem_of_app, elem_of_cons. destruct Hown1 as [[-> _]|[-> _]]; [|by apply elem_of_nil in H].
      apply list_elem_of_singleton in H as ->. auto.
Qed.
End Turns.

(** ** Whole emissions *)
Definition group_le (w : World) (s t : slot_id) : Prop :=
  forall st tt, slots w !! s = Some st -> slots w !! t = Some tt -> mGroup st <= mGroup tt.

Lemma sorted_sublist {A} (R : A -> A -> Prop) (l k : list A) : k `sublist_of` l -> StronglySorted R l -> StronglySorted R k.
Proof.
  induction 1 as [|x k l H IH|x k l H IH]; intros Hs; [done| |]; apply StronglySorted_cons in Hs as [Hf Hs].
  - apply StronglySorted_cons. split; [|by apply IH]. rewrite Forall_forall in Hf |- *. intros y Hy. apply Hf. by eapply elem_of_sublist.
  - by apply IH.
Qed.

Lemma flat_sorted (w : World) (g : signal_id) (l : list group_type) :
  StronglySorted Z.lt (gid <$> l) -> Forall (group_ok w g) l -> StronglySorted (group_le w) (flat l).
Proof.
  intros Hs Hg. unfold flat. induction l as [|gr l IH]; [constructor|].
  rewrite fmap_cons in Hs. apply StronglySorted_cons in Hs as [Hlt Hs]. apply Forall_cons in Hg as [Hgr Hg].
  assert (Hin : forall gr' x st, group_ok w g gr' -> x ∈ slts gr' -> slots w !! x = Some st -> mGroup st = gid gr').
  { intros gr' x st H' [i Hi]%list_elem_of_lookup_1 Hx. specialize (H' i x Hi). rewrite Hx in H'. cbn in H'. by injection H'. }
  cbn. apply StronglySorted_app_2; [| |by apply IH].
  - intros x y Hx (gr' & Hgr' & Hy)%flat_elem st tt Est Ett. rewrite Forall_forall in Hg.
    rewrite (Hin gr x st), (Hin gr' y tt); auto. rewrite Forall_forall in Hlt.
    specialize (Hlt (gid gr') ltac:(by apply list_elem_of_fmap_2)). lia.
  - assert (Hall : forall x y, x ∈ slts gr -> y ∈ slts gr -> group_le w x y).
    { intros x y Hx Hy st tt Est Ett. rewrite (Hin gr x st), (Hin gr y tt); auto. lia. }
    clear -Hall. induction (slts gr) as [|x k IH]; [constructor|]. apply StronglySorted_cons. split.
    + apply Forall_forall. intros y Hy. apply Hall; [by left|by right].
    + apply IH. intros y z Hy Hz. apply Hall; by right.
Qed.

Section Emissions.
Context (body : slot_id -> Z -> World -> run World) `{!Body body}.

(** The start of an emission: its snapshot has strong references. *)
Definition started (w : World) (sig : SignalBase) : World := with_running w (flat (m_slots sig) :: running w).

Lemma started_ok (w : World) (g : signal_id) (sig : SignalBase) : world_ok w -> signals w !! g = Some sig -> world_ok (started w sig).
Proof.
  intros Hok Hg. apply world_ok_running; [done|]. intros l s [->|Hl]%elem_of_cons Hs.
  - eapply listed_slot; [apply Hok|exact Hg|done].
  - by apply (ok_running w (ok_lists w Hok) l).
Qed.

Lemma emit_eq (w : World) (g : signal_id) (sig : SignalBase) (a : Z) : signals w !! g = Some sig -> m_block sig = false ->
  emit body w g a = do w1 <- call_slots body (flat (m_slots sig)) a (started w sig); Ret (with_running w1 (tail (running w1))).
Proof. intros Hg Hb. unfold emit, signal_at. rewrite Hg. cbn [deref run_bind]. rewrite Hb. by rewrite call_groups_flat. Qed.

Lemma emit_spec (w w' : World) (g : signal_id) (sig : SignalBase) (a : Z) :
  world_ok w -> signals w !! g = Some sig -> m_block sig = false -> emit body w g a = Ret w' ->
  exists own log, calls w' = calls w ++ log /\ called <$> filter (fun c => depth c = S (length (running w))) log = own /\
    own `sublist_of` flat (m_slots sig) /\
    (forall l1 s l2, flat (m_slots sig) = l1 ++ s :: l2 ->
      exists w1, call_slots body l1 a (started w sig) = Ret w1 /\ (s ∈ own <-> ready w1 s)) /\
    evolves w w'.
Proof.
  intros Hok Hg Hb E. rewrite (emit_eq w g sig a Hg Hb) in E.
  destruct (call_slots _ _ _ _) as [w1| | |] eqn:E1; try done. cbn [run_bind] in E. injection E as <-.
  pose proof (started_ok w g sig Hok Hg) as Hok0.
  destruct (call_slots_spec body _ a _ _ Hok0 E1) as (own & [H1 H2 H3 (log & Hl & Hf & Ho) H5] & Hsub & Hturn).
  cbn in H1, H2, H3, Hl, Hf, Ho.
  exists own, log. split_and!; [done|done|done| |].
  - intros l1 s l2 Hsp. apply (Hturn ltac:(eapply flat_nodup; by apply (ok_signal w (ok_lists w Hok) g sig Hg)) l1 s l2 Hsp).
  - split; cbn; [done|by rewrite H2|done| |].
    + exists log. split; [done|]. eapply Forall_impl; [exact Hf|]. cbn. intros c [? ?]. split; [lia|done].
    + intros _. apply world_ok_running; [done|]. rewrite H2. cbn. intros l s Hl'. apply (ok_running w1 (ok_lists w1 H5)). rewrite H2. by right.
Qed.

Lemma emit_evolves (w w' : World) (g : signal_id) (a : Z) : world_ok w -> emit body w g a = Ret w' -> evolves w w'.
Proof.
  intros Hok E. destruct (signals w !! g) as [sig|] eqn:Hg.
  2:{ unfold emit, signal_at in E. by rewrite Hg in E. }
  destruct (m_block sig) eqn:Hb.
  - unfold emit, signal_at in E. rewrite Hg in E. cbn [deref run_bind] in E. rewrite Hb in E. by injection E as <-.
  - by destruct (emit_spec w w' g sig a Hok Hg Hb E) as (own & log & _ & _ & _ & _ & ?).
Qed.

Lemma slot_call_returns `{!Returns body} (w : World) (s : slot_id) (a : Z) :
  world_ok w -> is_Some (slots w !! s) -> exists w', slot_call body w s a = Ret w'.
Proof.
  intros Hok [st Hs]. unfold slot_call, call_slot, slot_at. rewrite Hs. cbn [deref run_bind].
  destruct (mConnected st && negb (mBlocked st)) eqn:Hcb; [|by eexists].
  apply andb_true_iff in Hcb as [Hc _]. unfold invoke. destruct (bound st) as [|o|o] eqn:Hb.
  - apply body_returns. by apply world_ok_calls.
  - unfold alive. rewrite bool_decide_true by exact (ok_raw w Hok s st o Hs Hb Hc). apply body_returns. by apply world_ok_calls.
  - destruct (alive w o).
    + rewrite Hc. destruct (body_returns s a (with_calls (with_pins w (o :: pins w))
        (calls (with_pins w (o :: pins w)) ++ [mkCall s a (length (running (with_pins w (o :: pins w))))]))) as [w1 E].
      { by apply world_ok_calls, world_ok_pins. }
      rewrite E. cbn [run_bind]. by eexists.
    + destruct (slot_disconnect_spec w s st Hok Hs) as (w1 & -> & _). by eexists.
Qed.

Lemma call_slots_returns `{!Returns body} (l : list slot_id) (a : Z) (w : World) :
  world_ok w -> (forall s, s ∈ l -> is_Some (slots w !! s)) -> exists w', call_slots body l a w = Ret w'.
Proof.
  revert w. induction l as [|s l IH]; intros w Hok Hl; [by eexists|]. cbn [call_slots].
  destruct (slot_call_returns w s a Hok) as [w1 E]; [apply Hl; by left|]. rewrite E. cbn [run_bind].
  destruct (slot_call_spec body w w1 s a Hok E) as (own & Had & _). apply IH; [apply Had|].
  intros t Ht. destruct (Hl t ltac:(by right)) as [st Hst]. destruct (ad_slot _ _ _ Had t st Hst) as (st' & ? & _). by eexists.
Qed.
End Emissions.

