(* ===== verification/SignalScripts.v ===== *)
(** * Signals: callables given as programs

    Callables that are finite programs over the library's operations, emissions included,
    run with a bound on their nesting. They keep to the contract emission asks of
    callables, and a callable connected once is called at most once whatever the programs
    do. *)

From stdpp Require Import prelude list numbers gmap sorting.
From Stdlib Require Import ZArith Lia.
From S2P Require Import Prelude Signals SignalsFacts SignalEmit.

#[local] Open Scope Z_scope.
#[local] Open Scope cxx_scope.

(** ** The operations keep the contract *)
Lemma lists_ok_set_signal (w : World) (g : signal_id) (sig : SignalBase) :
  lists_ok w -> signal_ok w g sig -> lists_ok (set_signal w g sig).
Proof.
  intros [H1 H2 H3 H4] Hs. split; try done.
  - intros g' sig'. cbn. destruct (decide (g' = g)) as [->|].
    + rewrite lookup_insert_eq. by intros [= <-].
    + rewrite lookup_insert_ne by done. apply H1.
  - intros s st Hst. cbn. rewrite lookup_insert_is_Some'. right. by apply (H4 s).
Qed.

Lemma world_ok_set_signal (w : World) (g : signal_id) (sig : SignalBase) :
  world_ok w -> signal_ok w g sig -> (forall s st, s ∈ flat (m_slots sig) -> slots w !! s = Some st -> mConnected st = true) ->
  world_ok (set_signal w g sig).
Proof.
  intros [H1 H5 H6] Hs Hc. split; [by apply lists_ok_set_signal| |done].
  intros g' sig' s st. cbn. destruct (decide (g' = g)) as [->|].
  - rewrite lookup_insert_eq. intros [= <-]. apply Hc.
  - rewrite lookup_insert_ne by done. apply H5.
Qed.

Lemma set_signal_evolves (w : World) (g : signal_id) (sig : SignalBase) :
  (world_ok w -> world_ok (set_signal w g sig)) -> evolves w (set_signal w g sig).
Proof.
  intros H. split; try done; [by intros s st Hs; exists st|]. exists []. by rewrite app_nil_r.
Qed.

Lemma block_evolves (w w' : World) (g : signal_id) (b : bool) (sig : SignalBase) :
  signals w !! g = Some sig -> evolves w (set_signal w g (mkSignal (m_slots sig) b)).
Proof.
  intros Hg. apply set_signal_evolves. intros Hok. apply world_ok_set_signal; [done|by apply (ok_signal w (ok_lists w Hok) g sig)|].
  intros s st Hs Hst. by apply (ok_listed w Hok g sig s st).
Qed.

Lemma disconnect_all_evolves (w w' : World) (g : signal_id) : disconnect_all w g = Ret w' -> evolves w w'.
Proof.
  unfold disconnect_all, set_slots, signal_at. destruct (signals w !! g) as [sig|]; [|done]. cbn. intros [= <-].
  apply set_signal_evolves. intros Hok. apply world_ok_set_signal; [done| |].
  - split; [constructor|done].
  - by intros s st Hs%elem_of_nil.
Qed.

Lemma disconnect_group_spec (l l' : list group_type) (id : GroupId) (n : nat) : disconnect_group_in l id = (l', n) ->
  gid <$> l' = gid <$> l /\ Forall2 (fun gr gr' => gr' = gr \/ slts gr' = []) l l'.
Proof.
  revert l' n. induction l as [|gr l IH]; intros l' n E; cbn in E.
  { simplify_eq. split; [done|constructor]. }
  destruct (gid gr =? id).
  - simplify_eq. cbn. split; [done|]. constructor; [by right|]. clear. induction l; constructor; auto.
  - destruct (disconnect_group_in l id) as [l1 m] eqn:E1. simplify_eq. destruct (IH l1 n eq_refl) as [Hi Hf]. cbn. rewrite Hi.
    split; [done|]. constructor; [by left|done].
Qed.

(** The lists after a group is emptied. *)
Lemma disconnect_group_lists (w : World) (g : signal_id) (sig : SignalBase) (id : GroupId) (l' : list group_type) (n : nat) :
  lists_ok w -> signals w !! g = Some sig -> disconnect_group_in (m_slots sig) id = (l', n) ->
  signal_ok w g (mkSignal l' (m_block sig)) /\ (forall s, s ∈ flat l' -> s ∈ flat (m_slots sig)).
Proof.
  intros Hok Hg E. destruct (disconnect_group_spec _ _ _ _ E) as [Hid Hf]. destruct (ok_signal w Hok g sig Hg) as [Hso Hall].
  split; [split; cbn; [by rewrite Hid|]|].
  - clear -Hall Hf. induction Hf as [|gr gr' l l' Hgr _ IH]; [done|].
    apply Forall_cons in Hall as [Hg Hall]. constructor; [|by apply IH].
    destruct Hgr as [->|Hn]; [done|]. intros i s. by rewrite Hn.
  - intros s (gr' & Hin & Hs)%flat_elem.
    apply list_elem_of_lookup_1 in Hin as [i Hi]. destruct (Forall2_lookup_r _ _ _ _ _ Hf Hi) as (gr & Hgr & [->|Hn]).
    + apply flat_elem. exists gr. split; [by eapply list_elem_of_lookup_2|done].
    + rewrite Hn in Hs. by apply elem_of_nil in Hs.
Qed.

Lemma disconnect_group_evolves (w w' : World) (g : signal_id) (id : GroupId) (n : nat) :
  disconnect_group w g id = Ret (w', n) -> evolves w w'.
Proof.
  unfold disconnect_group, set_slots, signal_at. destruct (signals w !! g) as [sig|] eqn:Hg; [|done]. cbn [deref run_bind].
  destruct (disconnect_group_in (m_slots sig) id) as [l' m] eqn:E. cbn. intros [= <- _].
  apply set_signal_evolves. intros Hok. destruct (disconnect_group_lists w g sig id l' m (ok_lists w Hok) Hg E) as [Hs Hsub].
  apply world_ok_set_signal; [done|done|]. intros s st Hin Hst. apply (ok_listed w Hok g sig s st Hg); [by apply Hsub|done].
Qed.

Definition set_blocked (w : World) (s : slot_id) (b : bool) : World := with_slots w (alter (fun st => with_blocked st b) s (slots w)).

Lemma upd_blocked_eq (w w' : World) (s : slot_id) (b : bool) : upd_slot w s (fun st => with_blocked st b) = Ret w' -> w' = set_blocked w s b.
Proof.
  unfold upd_slot, slot_at, set_blocked. destruct (slots w !! s) as [st|] eqn:Hs; [|done]. cbn. intros [= <-]. f_equal.
  symmetry. rewrite <- (insert_id _ _ _ Hs) at 1. by rewrite alter_insert_eq.
Qed.

Lemma set_blocked_slot (w : World) (s x : slot_id) (b : bool) :
  slots (set_blocked w s b) !! x = (fun t => if decide (x = s) then with_blocked t b else t) <$> slots w !! x.
Proof.
  cbn. destruct (decide (x = s)) as [->|]; [by rewrite lookup_alter_eq|]. rewrite lookup_alter_ne by done. by destruct (slots w !! x).
Qed.

Lemma lists_ok_set_blocked (w : World) (s : slot_id) (b : bool) : lists_ok w -> lists_ok (set_blocked w s b).
Proof.
  intros [H1 H2 H3 H4].
  assert (Hex : forall x, is_Some (slots (set_blocked w s b) !! x) <-> is_Some (slots w !! x)).
  { intros x. by rewrite set_blocked_slot, fmap_is_Some. }
  split.
  - intros g sig Hg. destruct (H1 g sig Hg) as [Hso Hall]. split; [done|].
    eapply Forall_impl; [exact Hall|]. intros gr Hgr. apply (group_ok_frame w); [done|]. intros x _. rewrite set_blocked_slot.
    destruct (slots w !! x); [|done]. cbn. by destruct (decide (x = s)).
  - intros l x Hl Hin. apply Hex. by apply (H2 l).
  - intros x Hin%Hex. by apply H3.
  - intros x t. rewrite set_blocked_slot. intros (t0 & Ht0 & ->)%fmap_Some. specialize (H4 x t0 Ht0). by destruct (decide (x = s)).
Qed.

Lemma upd_blocked_evolves (w w' : World) (s : slot_id) (b : bool) : upd_slot w s (fun st => with_blocked st b) = Ret w' -> evolves w w'.
Proof.
  intros ->%upd_blocked_eq. split; try done.
  - intros x t Ht. rewrite set_blocked_slot, Ht. cbn. eexists. split; [done|]. by destruct (decide (x = s)).
  - exists []. by rewrite app_nil_r.
  - intros [Hl H5 H6]. split; [by apply lists_ok_set_blocked| |].
    + intros g sig x t Hg Hin. rewrite set_blocked_slot. intros (t0 & Ht0 & ->)%fmap_Some.
      specialize (H5 g sig x t0 Hg Hin Ht0). by destruct (decide (x = s)).
    + intros x t o. rewrite set_blocked_slot. intros (t0 & Ht0 & ->)%fmap_Some. specialize (H6 x t0 o Ht0). by destruct (decide (x = s)).
Qed.

Lemma connection_disconnect_evolves (w w' : World) (c : option slot_id) (r : bool) :
  world_ok w -> connection_disconnect w c = Ret (w', r) -> evolves w w'.
Proof.
  intros Hok. unfold connection_disconnect. destruct (lock w c) as [s|]; [|by intros [= <- _]].
  destruct (slots w !! s) as [st|] eqn:Hs.
  - destruct (slot_disconnect_spec w s st Hok Hs) as (w1 & -> & Hok1 & Hed & _). intros [= <- _]. by apply edits_evolves.
  - unfold slot_disconnect, slot_at. by rewrite Hs.
Qed.

(** ** Programs *)
Inductive op :=
| DoConnect (g : signal_id) (t : option obj_id) (f : func_id) (ext : bool) (id : GroupId)
| DoDisconnect (c : option slot_id)
| DoDisconnectSelf
| DoDisconnectCallable (g : signal_id) (f : func_id)
| DoDisconnectObject (g : signal_id) (o : option obj_id)
| DoDisconnectGroup (g : signal_id) (id : GroupId)
| DoDisconnectAll (g : signal_id)
| DoBlock (g : signal_id) (b : bool)
| DoBlockSlot (c : option slot_id) (b : bool)
| DoEmit (g : signal_id) (a : Z).

Definition exec_op (body : slot_id -> Z -> World -> run World) (self : slot_id) (w : World) (x : op) : run World :=
  match x with
  | DoConnect g t f ext id =>
      do (w, _) <- connect w g (match t with Some o => Tracked o | None => Free end) f ext id; Ret w
  | DoDisconnect c => do (w, _) <- connection_disconnect w c; Ret w
  | DoDisconnectSelf => do (w, _) <- connection_disconnect w (Some self); Ret w
  | DoDisconnectCallable g f => do (w, _) <- disconnect_callable w g f; Ret w
  | DoDisconnectObject g o => do (w, _) <- disconnect_object w g o; Ret w
  | DoDisconnectGroup g id => do (w, _) <- disconnect_group w g id; Ret w
  | DoDisconnectAll g => disconnect_all w g
  | DoBlock g b => if b then block w g else unblock w g
  | DoBlockSlot c b => connection_set_blocked w c b
  | DoEmit g a => emit body w g a
  end.

Fixpoint exec_ops (body : slot_id -> Z -> World -> run World) (self : slot_id) (l : list op) (w : World) : run World :=
  match l with
  | [] => Ret w
  | x :: l => do w <- exec_op body self w x; exec_ops body self l w
  end.

Section Scripts.
Context (script : func_id -> list op) (fires_once : func_id -> bool).

(** The callable of a slot, emissions nested up to [n] deep. *)
Fixpoint run_script (n : nat) (self : slot_id) (a : Z) (w : World) : run World :=
  match n with
  | O => Timeout
  | S n =>
      do st <- slot_at w self;
      if fires_once (func st) then once (fun self _ => exec_ops (run_script n) self (script (func st))) self a w
      else exec_ops (run_script n) self (script (func st)) w
  end.

(** ** What holds of every operation holds of every program *)

(** Relations between the states before and after: kept by doing nothing and by
    composition, and by each operation. *)
Lemma exec_op_evolves (body : slot_id -> Z -> World -> run World) `{!Body body} (self : slot_id) (w w' : World) (x : op) :
  world_ok w -> exec_op body self w x = Ret w' -> evolves w w'.
Proof.
  intros Hok. destruct x as [g t f ext id|c| |g f|g o|g id|g|g b|c b|g a]; cbn [exec_op]; intros E.
  - destruct (signals w !! g) as [sig|] eqn:Hg.
    + rewrite (connect_eq w g sig _ f ext id Hg) in E. injection E as <-. apply connected_evolves; [done|done|]. by destruct t.
    + unfold connect, make_slot, add_slot, slot_at, signal_at in E. cbn in E. by rewrite lookup_insert_eq, Hg in E.
  - destruct (connection_disconnect w c) as [[w1 r]| | |] eqn:E1; try done. injection E as <-. by eapply connection_disconnect_evolves.
  - destruct (connection_disconnect w _) as [[w1 r]| | |] eqn:E1; try done. injection E as <-. by eapply connection_disconnect_evolves.
  - unfold disconnect_callable in E. destruct (signals w !! g) as [sig|] eqn:Hg.
    + destruct (disconnect_if_spec (fun _ => has_callable f) w g sig Hok Hg) as (w1 & n & l' & E1 & Hok1 & Hed & _).
      rewrite E1 in E. injection E as <-. by apply edits_evolves.
    + unfold disconnect_if, signal_at in E. by rewrite Hg in E.
  - unfold disconnect_object in E. destruct (signals w !! g) as [sig|] eqn:Hg.
    + destruct (disconnect_if_spec (fun w => has_object w o) w g sig Hok Hg) as (w1 & n & l' & E1 & Hok1 & Hed & _).
      rewrite E1 in E. injection E as <-. by apply edits_evolves.
    + unfold disconnect_if, signal_at in E. by rewrite Hg in E.
  - destruct (disconnect_group w g id) as [[w1 r]| | |] eqn:E1; try done. injection E as <-. by eapply disconnect_group_evolves.
  - by eapply disconnect_all_evolves.
  - destruct (signals w !! g) as [sig|] eqn:Hg.
    + unfold block, unblock, signal_at in E. rewrite Hg in E. destruct b; injection E as <-; by apply block_evolves.
    + unfold block, unblock, signal_at in E. rewrite Hg in E. by destruct b.
  - unfold connection_set_blocked in E. destruct (lock w c); [by eapply upd_blocked_evolves|by injection E as <-].
  - by eapply (emit_evolves body).
Qed.

Lemma exec_ops_evolves (body : slot_id -> Z -> World -> run World) `{!Body body} (self : slot_id) (l : list op) (w w' : World) :
  world_ok w -> exec_ops body self l w = Ret w' -> evolves w w'.
Proof.
  revert w. induction l as [|x l IH]; intros w Hok E; cbn in E; [by injection E as <-|].
  destruct (exec_op body self w x) as [w1| | |] eqn:E1; try done. cbn [run_bind] in E.
  apply exec_op_evolves in E1; [|done|done]. etrans; [exact E1|]. apply IH; [by apply (ev_ok _ _ E1)|done].
Qed.

#[export] Instance run_script_body (n : nat) : Body (run_script n).
Proof.
  induction n as [|n IH]; intros s a w w' Hok E; [done|]. cbn in E. unfold slot_at in E.
  destruct (slots w !! s) as [st|]; [|done]. cbn [deref run_bind] in E. destruct (fires_once (func st)).
  - unfold once in E. destruct (connection_disconnect w (Some s)) as [[w1 r]| | |] eqn:E1; try done. cbn [run_bind] in E.
    apply connection_disconnect_evolves in E1; [|done]. etrans; [exact E1|].
    eapply (exec_ops_evolves (run_script n)); [by apply (ev_ok _ _ E1)|exact E].
  - by eapply (exec_ops_evolves (run_script n)).
Qed.

(** ** Callables connected once *)
Definition is_once (w : World) (s : slot_id) : Prop := exists st, slots w !! s = Some st /\ fires_once (func st) = true.
Definition disconnected (w : World) (s : slot_id) : Prop := exists st, slots w !! s = Some st /\ mConnected st = false.
Definition times (s : slot_id) (l : list call) : nat := length (filter (fun c => called c = s) l).

(** From [w] to [w'] the slot is called at most once, and then disconnected. *)
Definition at_most_once (s : slot_id) (w w' : World) : Prop :=
  exists l, calls w' = calls w ++ l /\ (times s l = 0%nat \/ times s l = 1%nat /\ disconnected w' s).

Lemma evolves_disconnected (w w' : World) (s : slot_id) : evolves w w' -> disconnected w s ->
  disconnected w' s /\ exists l, calls w' = calls w ++ l /\ times s l = 0%nat.
Proof.
  intros E (st & Hs & Hc). split.
  - destruct (ev_slot _ _ E s st Hs) as (st' & Hs' & _ & _ & _ & Hm). exists st'. split; [done|].
    destruct (mConnected st'); [|done]. by rewrite Hm in Hc.
  - destruct (ev_calls _ _ E) as (l & El & F). exists l. split; [done|]. unfold times. rewrite filter_none; [done|].
    eapply Forall_impl; [exact F|]. cbn. intros c [_ H] <-. by rewrite (H st Hs) in Hc.
Qed.

Lemma is_once_evolves (w w' : World) (s : slot_id) : evolves w w' -> is_once w s -> is_once w' s.
Proof.
  intros E (st & Hs & Hf). destruct (ev_slot _ _ E s st Hs) as (st' & Hs' & _ & Hfunc & _). exists st'. by rewrite Hfunc.
Qed.

Lemma at_most_once_app (s : slot_id) (w1 w2 w3 : World) :
  at_most_once s w1 w2 -> at_most_once s w2 w3 -> evolves w2 w3 -> at_most_once s w1 w3.
Proof.
  intros (l1 & E1 & H1) (l2 & E2 & H2) Hev. exists (l1 ++ l2). rewrite E2, E1, app_assoc. split; [done|].
  unfold times in *. rewrite filter_app, length_app. destruct H1 as [H1|[H1 Hd]].
  - rewrite H1. exact H2.
  - destruct (evolves_disconnected _ _ _ Hev Hd) as [Hd' (l & El & Hl)]. rewrite E2 in El. apply app_inv_head in El as <-.
    unfold times in Hl. rewrite Hl, H1. right. split; [lia|done].
Qed.

Lemma no_calls_once (s : slot_id) (w w' : World) : calls w' = calls w -> at_most_once s w w'.
Proof. intros E. exists []. rewrite app_nil_r. split; [done|]. by left. Qed.

Definition held_by_emission (w : World) (t : slot_id) : Prop := exists l, l ∈ running w /\ t ∈ l.

Lemma held_lock (w : World) (t : slot_id) : held_by_emission w t -> lock w (Some t) = Some t.
Proof.
  intros (l & Hl & Ht). unfold lock, held. rewrite (proj2 (existsb_exists _ (running w))); [by rewrite orb_true_r|].
  exists l. split; [by apply list_elem_of_In|]. by apply bool_decide_eq_true.
Qed.

(** The callables call the slot at most once, and no more from its own call on. *)
Definition once_body (s : slot_id) (body : slot_id -> Z -> World -> run World) : Prop :=
  forall t a w w', world_ok w -> is_once w s -> held_by_emission w t -> body t a w = Ret w' ->
    at_most_once s w w' /\ (t = s -> disconnected w' s /\ exists l, calls w' = calls w ++ l /\ times s l = 0%nat).

Section OnceBody.
Context (s : slot_id) (body : slot_id -> Z -> World -> run World) `{!Body body} (Hbody : once_body s body).

Lemma invoke_once (t : slot_id) (a : Z) (w w' : World) :
  world_ok w -> is_once w s -> held_by_emission w t -> invoke body w t a = Ret w' -> at_most_once s w w'.
Proof.
  intros Hok Ho Hh E. unfold invoke in E. apply Hbody in E as [(l & El & Hl) Hself]; [|by apply world_ok_calls|done|done].
  cbn in El. destruct (decide (t = s)) as [->|Hne].
  - destruct (Hself eq_refl) as (Hd & l' & El' & Hl'). cbn in El'. eexists. rewrite El', <- app_assoc. split; [done|].
    right. split; [|done]. unfold times in *. cbn [app]. rewrite filter_cons_True by done. cbn. by rewrite Hl'.
  - eexists. rewrite El, <- app_assoc. split; [done|]. unfold times in *. cbn [app]. by rewrite filter_cons_False.
Qed.

Lemma slot_call_once (t : slot_id) (a : Z) (w w' : World) :
  world_ok w -> is_once w s -> held_by_emission w t -> slot_call body w t a = Ret w' -> at_most_once s w w'.
Proof.
  intros Hok Ho Hh E. unfold slot_call, call_slot, slot_at in E. destruct (slots w !! t) as [st|] eqn:Hs; [|done].
  cbn [deref run_bind] in E. destruct (mConnected st && negb (mBlocked st)) eqn:Hcb; [|injection E as <-; by apply no_calls_once].
  apply andb_true_iff in Hcb as [Hc _]. destruct (bound st) as [|o|o].
  - by eapply invoke_once.
  - destruct (alive w o); [|done]. by eapply invoke_once.
  - destruct (alive w o).
    + rewrite Hc in E. destruct (invoke body _ t a) as [w1| | |] eqn:Ei; try done. cbn [run_bind] in E. injection E as <-.
      apply invoke_once in Ei as (l & El & Hl); [|by apply world_ok_pins|done|done]. exists l. cbn in *. split; [done|].
      destruct Hl as [Hl|[Hl Hd]]; [by left|right]. by split.
    + destruct (slot_disconnect_spec w t st Hok Hs) as (w1 & Ed & _ & Hed & _). rewrite Ed in E. injection E as <-.
      apply no_calls_once. by rewrite (ed_eq _ _ Hed).
Qed.

Lemma call_slots_once (l : list slot_id) (a : Z) (w w' : World) :
  world_ok w -> is_once w s -> (forall t, t ∈ l -> held_by_emission w t) -> call_slots body l a w = Ret w' -> at_most_once s w w'.
Proof.
  revert w. induction l as [|t l IH]; intros w Hok Ho Hh E; cbn in E; [injection E as <-; by apply no_calls_once|].
  destruct (slot_call body w t a) as [w1| | |] eqn:E1; try done. cbn [run_bind] in E.
  destruct (slot_call_spec body w w1 t a Hok E1) as (own & Had & _).
  assert (Hok1 : world_ok w1) by apply Had.
  assert (Ho1 : is_once w1 s).
  { destruct Ho as (st & Hs & Hf). destruct (ad_slot _ _ _ Had s st Hs) as (st' & Hs' & _ & Hfunc & _). exists st'. by rewrite Hfunc. }
  assert (Hh1 : forall t', t' ∈ l -> held_by_emission w1 t').
  { intros t' Ht'. destruct (Hh t' ltac:(by right)) as (k & Hk & Hin). exists k. by rewrite (ad_running _ _ _ Had). }
  pose proof (IH w1 Hok1 Ho1 Hh1 E) as Hrest.
  destruct (slot_call_once t a w w1 Hok Ho (Hh t ltac:(by left)) E1) as (l1 & E1' & H1), Hrest as (l2 & E2' & H2).
  exists (l1 ++ l2). rewrite E2', E1', app_assoc. split; [done|]. unfold times in *. rewrite filter_app, length_app.
  destruct H1 as [H1|[H1 Hd]]; [by rewrite H1|].
  destruct (call_slots_spec body l a w1 w' Hok1 E) as (own2 & Had2 & _).
  destruct Hd as (st & Hs & Hc). destruct (ad_slot _ _ _ Had2 s st Hs) as (st' & Hs' & _ & _ & _ & Hm).
  right. split; [|exists st'; split; [done|]; destruct (mConnected st'); [by rewrite Hm in Hc|done]].
  destruct (ad_calls _ _ _ Had2) as (l2' & El & F & _). rewrite E2' in El. apply app_inv_head in El as <-.
  rewrite (filter_none (fun c => called c = s) l2); [rewrite H1; cbn; lia|]. eapply Forall_impl; [exact F|]. cbn.
  intros c [_ H] <-. by rewrite (H st Hs) in Hc.
Qed.

Lemma emit_once (g : signal_id) (a : Z) (w w' : World) : world_ok w -> is_once w s -> emit body w g a = Ret w' -> at_most_once s w w'.
Proof.
  intros Hok Ho E. destruct (signals w !! g) as [sig|] eqn:Hg; [|by unfold emit, signal_at in E; rewrite Hg in E].
  destruct (m_block sig) eqn:Hb.
  { unfold emit, signal_at in E. rewrite Hg in E. cbn [deref run_bind] in E. rewrite Hb in E. injection E as <-. by apply no_calls_once. }
  rewrite (emit_eq body w g sig a Hg Hb) in E. destruct (call_slots _ _ _ _) as [w1| | |] eqn:E1; try done. cbn [run_bind] in E.
  injection E as <-. apply call_slots_once in E1 as (l & El & Hl); [|by eapply started_ok|done|].
  - exists l. split; [done|]. destruct Hl as [Hl|[Hl Hd]]; [by left|by right].
  - intros t Ht. exists (flat (m_slots sig)). split; [by left|done].
Qed.
End OnceBody.

Lemma connection_disconnect_calls (w w' : World) (c : option slot_id) (r : bool) :
  world_ok w -> connection_disconnect w c = Ret (w', r) -> calls w' = calls w.
Proof.
  intros Hok. unfold connection_disconnect. destruct (lock w c) as [s|]; [|by intros [= <- _]].
  destruct (slots w !! s) as [st|] eqn:Hs.
  - destruct (slot_disconnect_spec w s st Hok Hs) as (w1 & -> & _ & Hed & _). intros [= <- _]. by rewrite (ed_eq _ _ Hed).
  - unfold slot_disconnect, slot_at. by rewrite Hs.
Qed.

Lemma disconnect_if_calls (cond : World -> slot -> bool) `{!Blind cond} (w w' : World) (g : signal_id) (n : nat) :
  world_ok w -> disconnect_if w g cond = Ret (w', n) -> calls w' = calls w.
Proof.
  intros Hok E. destruct (signals w !! g) as [sig|] eqn:Hg; [|by unfold disconnect_if, signal_at in E; rewrite Hg in E].
  destruct (disconnect_if_spec cond w g sig Hok Hg) as (w1 & m & l' & E1 & _ & Hed & _).
  rewrite E1 in E. injection E as <- _. by rewrite (ed_eq _ _ Hed).
Qed.

(** Only emission calls slots. *)
Lemma exec_op_calls (body : slot_id -> Z -> World -> run World) (self : slot_id) (w w' : World) (x : op) :
  world_ok w -> match x with DoEmit _ _ => False | _ => True end -> exec_op body self w x = Ret w' -> calls w' = calls w.
Proof.
  intros Hok Hx E. destruct x as [g t f ext id|c| |g f|g o|g id|g|g b|c b|g a]; cbn [exec_op] in E; try done.
  - destruct (signals w !! g) as [sig|] eqn:Hg.
    + rewrite (connect_eq w g sig _ f ext id Hg) in E. injection E as <-. unfold connected_world. by destruct (add_in _ _ _).
    + unfold connect, make_slot, add_slot, slot_at, signal_at in E. cbn in E. by rewrite lookup_insert_eq, Hg in E.
  - destruct (connection_disconnect w c) as [[w1 r]| | |] eqn:E1; try done. injection E as <-. by eapply connection_disconnect_calls.
  - destruct (connection_disconnect w _) as [[w1 r]| | |] eqn:E1; try done. injection E as <-. by eapply connection_disconnect_calls.
  - destruct (disconnect_callable w g f) as [[w1 r]| | |] eqn:E1; try done. injection E as <-. by eapply (disconnect_if_calls (fun _ => has_callable f)).
  - destruct (disconnect_object w g o) as [[w1 r]| | |] eqn:E1; try done. injection E as <-. by eapply (disconnect_if_calls (fun w => has_object w o)).
  - unfold disconnect_group, set_slots, signal_at in E. destruct (signals w !! g) as [sig|]; [|done]. cbn [deref run_bind] in E.
    destruct (disconnect_group_in _ _). by injection E as <-.
  - unfold disconnect_all, set_slots, signal_at in E. destruct (signals w !! g) as [sig|]; [|done]. by injection E as <-.
  - unfold block, unblock, signal_at in E. destruct (signals w !! g) as [sig|], b; try done; by injection E as <-.
  - unfold connection_set_blocked, upd_slot, slot_at in E. destruct (lock w c) as [t|]; [|by injection E as <-].
    destruct (slots w !! t); [|done]. by injection E as <-.
Qed.

Lemma exec_ops_once (s : slot_id) (body : slot_id -> Z -> World -> run World) `{!Body body} (self : slot_id) (l : list op) (w w' : World) :
  once_body s body -> world_ok w -> is_once w s -> exec_ops body self l w = Ret w' -> at_most_once s w w'.
Proof.
  intros Hb. revert w. induction l as [|x l IH]; intros w Hok Ho E; cbn in E; [injection E as <-; by apply no_calls_once|].
  destruct (exec_op body self w x) as [w1| | |] eqn:E1; try done. cbn [run_bind] in E.
  pose proof (exec_op_evolves body self w w1 x Hok E1) as Hev.
  assert (Hok1 : world_ok w1) by by apply (ev_ok _ _ Hev).
  eapply (at_most_once_app s w w1 w'); [|apply IH; [done|by eapply is_once_evolves|done]|by eapply (exec_ops_evolves body)].
  destruct (match x with DoEmit _ _ => false | _ => true end) eqn:Hx.
  - apply no_calls_once, (exec_op_calls body self w w1 x Hok); [by destruct x|done].
  - destruct x as [| | | | | | | | |g a]; try done. exact (emit_once s body Hb g a w w1 Hok Ho E1).
Qed.

Lemma run_script_once (n : nat) (s : slot_id) : once_body s (run_script n).
Proof.
  induction n as [|n IH]; intros t a w w' Hok Ho Hh E; [done|]. cbn in E. unfold slot_at in E.
  destruct (slots w !! t) as [st|] eqn:Ht; [|done]. cbn [deref run_bind] in E. destruct (fires_once (func st)) eqn:Hf.
  - unfold once, connection_disconnect in E. rewrite (held_lock w t Hh) in E.
    destruct (slot_disconnect_spec w t st Hok Ht) as (w1 & Ed & Hok1 & Hed & _ & (i & Hd) & _). rewrite Ed in E. cbn [run_bind] in E.
    assert (Hc : calls w1 = calls w) by (by rewrite (ed_eq _ _ Hed)).
    assert (Hev : evolves w w1) by by apply edits_evolves.
    pose proof (exec_ops_evolves (run_script n) t _ w1 w' Hok1 E) as Hev'. split.
    + destruct (exec_ops_once s (run_script n) t _ w1 w' IH Hok1 (is_once_evolves w w1 s Hev Ho) E) as (l & El & Hl).
      exists l. by rewrite <- Hc.
    + intros ->. assert (Hd' : disconnected w1 s) by (eexists; split; [exact Hd|done]).
      destruct (evolves_disconnected _ _ _ Hev' Hd') as [? (l & El & Hl)]. split; [done|]. exists l. by rewrite <- Hc.
  - split; [by eapply (exec_ops_once s (run_script n))|]. intros ->. destruct Ho as (st' & Hs & Ho). simplify_eq. by rewrite Hf in Ho.
Qed.
End Scripts.

(** C21: a callable connected once is called at most once by whatever happens afterwards -
    emissions of any signal, nested ones inside its own call included - and once called
    its slot is disconnected. *)
Theorem connect_once_correct (script : func_id -> list op) (fires_once : func_id -> bool) (n : nat)
    (w w1 w2 : World) (g : signal_id) (f : func_id) (id : GroupId) (s self : slot_id) (l : list op) :
  world_ok w -> fires_once f = true -> connect_once w g f id = Ret (w1, s) ->
  exec_ops (run_script script fires_once n) self l w1 = Ret w2 ->
  exists log, calls w2 = calls w ++ log /\ (length (filter (fun c => called c = s) log) <= 1)%nat /\
    (length (filter (fun c => called c = s) log) = 1%nat -> exists st, slots w2 !! s = Some st /\ mConnected st = false) /\
    world_ok w2.
Proof.
  intros Hok Hf E El. unfold connect_once, connect_extended in E. destruct (signals w !! g) as [sig|] eqn:Hg.
  2:{ unfold connect, make_slot, add_slot, slot_at, signal_at in E. cbn in E. by rewrite lookup_insert_eq, Hg in E. }
  rewrite (connect_eq w g sig Free f true id Hg) in E. injection E as <- <-.
  destruct (connected_slots w g sig Free f true id) as (i & Esl & _).
  pose proof (connected_world_ok w g sig Free f true id Hok Hg ltac:(done)) as Hok1.
  assert (Ho : is_once fires_once (connected_world w g sig Free f true id) (next_slot w)).
  { eexists. rewrite Esl, lookup_insert_eq. split; [done|]. exact Hf. }
  destruct (exec_ops_once fires_once (next_slot w) _ self l _ w2 (run_script_once script fires_once n _) Hok1 Ho El) as (log & Elog & Hl).
  exists log. unfold times in Hl. split_and!.
  - rewrite Elog. unfold connected_world. by destruct (add_in _ _ _).
  - lia.
  - intros H1. destruct Hl as [Hl|[_ Hd]]; [lia|exact Hd].
  - eapply ev_ok; [|exact Hok1]. by eapply (exec_ops_evolves (run_script script fires_once n)).
Qed.
