(* ===== verification/SignalThreads.v ===== *)
(** * Signals used from several threads

    The thread-safe variant: emissions of any number of threads, the callables they are
    inside of, connections and disconnections interleave. One step is what the code does
    under the signal's mutex, or one access to an atomic flag outside it: the exchange of
    [mConnected] by [SlotState::disconnect] and the [clean] that follows it are two steps,
    and so are the two flags [SlotBase::operator()] reads, the lock of a tracked object's
    weak pointer and the test after it. A callable is entered in one step and left in
    another; in between any thread may do anything below, the one inside it included, so
    nested emissions interleave too.

    An object is destroyed only after the slots bound to it by pointer are disconnected, as
    [ObserverBase] asks of its owner. Signals are not moved or destroyed while threads use
    them: their slots keep a pointer to the signal they clean up in. *)

From stdpp Require Import prelude list numbers gmap relations.
From Stdlib Require Import ZArith Lia.
From S2P Require Import Prelude Signals SignalsFacts SignalScripts.

#[local] Open Scope Z_scope.
#[local] Open Scope cxx_scope.

Definition thread := positive.
Bind Scope positive_scope with thread.

(** ** State *)

(** Where an emission is with the slot it has come to: before the next one; the slot found
    connected; found unblocked too, and [call_slot] entered; the weak pointer of its
    object expired, or locked; inside the callable, with the object it keeps alive. *)
Inductive stage :=
| Between
| Found (s : slot_id)
| Calling (s : slot_id)
| Expired (s : slot_id)
| Locked (s : slot_id) (o : obj_id)
| Inside (s : slot_id) (pin : option obj_id).

(** A call of [SignalBase::operator()]: past the test of [m_block], or over its snapshot. *)
Inductive frame :=
| Entered (g : signal_id) (a : Z)
| Emitting (snapshot todo : list slot_id) (at_slot : stage) (a : Z).

(** [stacks]: the emissions each thread is in, innermost first. [cleaning]: the slots
    whose flag a thread has cleared and which it has not yet taken off their list; it
    holds a reference to them. *)
Record Threads := mkThreads {
  world : World;
  stacks : gmap thread (list frame);
  cleaning : gset slot_id
}.

Definition stack (T : Threads) (t : thread) : list frame := default [] (stacks T !! t).

Definition frames (st : gmap thread (list frame)) : list frame := concat (snd <$> map_to_list st).
Definition frame_snapshot (f : frame) : option (list slot_id) :=
  match f with Entered _ _ => None | Emitting snapshot _ _ _ => Some snapshot end.
Definition frame_pin (f : frame) : option obj_id :=
  match f with
  | Emitting _ _ (Locked _ o) _ => Some o
  | Emitting _ _ (Inside _ pin) _ => pin
  | _ => None
  end.

(** The references of all threads keep slots and objects alive. *)
Definition references (st : gmap thread (list frame)) (cl : gset slot_id) : list (list slot_id) :=
  omap frame_snapshot (frames st) ++ [elements cl].
Definition sync (w : World) (st : gmap thread (list frame)) (cl : gset slot_id) : Threads :=
  mkThreads (with_pins (with_running w (references st cl)) (omap frame_pin (frames st))) st cl.

Definition update (T : Threads) (t : thread) (w : World) (l : list frame) (cl : gset slot_id) : Threads :=
  sync w (<[t := l]> (stacks T)) cl.

(** ** The two halves of [SlotState::disconnect] *)
Definition exchange (w : World) (s : slot_id) : run (World * bool) :=
  do st <- slot_at w s;
  do w <- upd_slot w s (fun st => with_connected st false);
  Ret (w, mConnected st).

Lemma slot_disconnect_halves (w : World) (s : slot_id) :
  slot_disconnect w s = do st <- slot_at w s; do (w, r) <- exchange w s;
    if r then do w <- clean w (mCleaner st) s; Ret (w, true) else Ret (w, false).
Proof. unfold slot_disconnect, exchange, upd_slot, slot_at. by destruct (slots w !! s). Qed.

Definition after_exchange (s : slot_id) (r : bool) (cl : gset slot_id) : gset slot_id := if r then {[s]} ∪ cl else cl.

(** A thread outside of emissions or inside a callable disconnects a slot it can reach. *)
Definition disconnect_begin (s : slot_id) (T : Threads) : run Threads :=
  do (w, r) <- exchange (world T) s;
  Ret (sync w (stacks T) (after_exchange s r (cleaning T))).

Definition disconnect_end (s : slot_id) (T : Threads) : run Threads :=
  do st <- slot_at (world T) s;
  do w <- clean (world T) (mCleaner st) s;
  Ret (sync w (stacks T) (cleaning T ∖ {[s]})).

(** ** The code of an emission *)
Definition log (w : World) (s : slot_id) (a : Z) (d : nat) : World := with_calls w (calls w ++ [mkCall s a d]).

(** The next step of a thread inside an emission. *)
Definition go (t : thread) (T : Threads) : run Threads :=
  let w := world T in
  match stack T t with
  | [] => Fatal
  | Entered g a :: rest =>
      do sig <- signal_at w g;
      Ret (update T t w (Emitting (flat (m_slots sig)) (flat (m_slots sig)) Between a :: rest) (cleaning T))
  | Emitting snapshot todo at_slot a :: rest =>
      let next todo at_slot w := Ret (update T t w (Emitting snapshot todo at_slot a :: rest) (cleaning T)) in
      let inside s pin := next todo (Inside s pin) (log w s a (S (length rest))) in
      match at_slot with
      | Between =>
          match todo with
          | [] => Ret (update T t w rest (cleaning T))
          | s :: todo => do st <- slot_at w s; next todo (if mConnected st then Found s else Between) w
          end
      | Found s => do st <- slot_at w s; next todo (if mBlocked st then Between else Calling s) w
      | Calling s =>
          do st <- slot_at w s;
          match bound st with
          | Free => inside s None
          | Raw o => if alive w o then inside s None else Undef
          | Tracked o => next todo (if alive w o then Locked s o else Expired s) w
          end
      | Expired s =>
          do (w, r) <- exchange w s;
          Ret (update T t w (Emitting snapshot todo Between a :: rest) (after_exchange s r (cleaning T)))
      | Locked s o => do st <- slot_at w s; if mConnected st then inside s (Some o) else next todo Between w
      | Inside _ _ => next todo Between w
      end
  end.

(** A thread may start an emission outside of emissions and inside a callable. *)
Definition may_emit (l : list frame) : bool :=
  match l with [] => true | Emitting _ _ (Inside _ _) _ :: _ => true | _ => false end.

Definition enter (t : thread) (g : signal_id) (a : Z) (T : Threads) : run Threads :=
  if may_emit (stack T t) then
    do sig <- signal_at (world T) g;
    if m_block sig then Ret T else Ret (update T t (world T) (Entered g a :: stack T t) (cleaning T))
  else Fatal.

(** The operations that are one critical section or one access to an atomic flag. *)
Definition one_step (x : op) : bool :=
  match x with DoDisconnect _ | DoDisconnectSelf | DoEmit _ _ => false | _ => true end.
Definition exec_one (w : World) (x : op) : run World := exec_op (fun _ _ w => Ret w) xH w x.

Inductive step (T : Threads) : Threads -> Prop :=
| step_enter t g a T' : enter t g a T = Ret T' -> step T T'
| step_go t T' : go t T = Ret T' -> step T T'
| step_disconnect_begin s T' : lock (world T) (Some s) = Some s -> disconnect_begin s T = Ret T' -> step T T'
| step_disconnect_end s T' : s ∈ cleaning T -> disconnect_end s T = Ret T' -> step T T'
| step_connect g b f ext id w' s :
    (forall o, b = Raw o -> o ∈ owners (world T)) -> connect (world T) g b f ext id = Ret (w', s) ->
    step T (sync w' (stacks T) (cleaning T))
| step_operation x w' : one_step x = true -> exec_one (world T) x = Ret w' -> step T (sync w' (stacks T) (cleaning T))
| step_destroy o :
    (forall s st, slots (world T) !! s = Some st -> bound st = Raw o -> mConnected st = false) ->
    step T (sync (with_owners (world T) (owners (world T) ∖ {[o]})) (stacks T) (cleaning T)).

(** ** The invariant *)

(** The slots the threads share: a listed slot whose flag is cleared is one a thread is
    about to take off its list. *)
Record shared_ok (cl : gset slot_id) (w : World) : Prop := {
  sh_lists : lists_ok w;
  sh_listed : forall g sig s st, signals w !! g = Some sig -> s ∈ flat (m_slots sig) -> slots w !! s = Some st ->
    mConnected st = true \/ s ∈ cl;
  sh_raw : forall s st o, slots w !! s = Some st -> bound st = Raw o -> mConnected st = true -> o ∈ owners w;
  sh_cleaning : forall s, s ∈ cl -> exists st, slots w !! s = Some st /\ mConnected st = false
}.

Definition stage_slot (x : stage) : option slot_id :=
  match x with Between => None | Found s | Calling s | Expired s | Locked s _ | Inside s _ => Some s end.

(** The object a stage keeps alive is the one its slot tracks. *)
Definition stage_pin (w : World) (x : stage) : Prop :=
  match x with
  | Locked s o => exists st, slots w !! s = Some st /\ tracks (bound st) = Some o
  | Inside s pin => exists st, slots w !! s = Some st /\ tracks (bound st) = pin
  | _ => True
  end.

Definition frame_ok (w : World) (f : frame) : Prop :=
  match f with
  | Entered g _ => is_Some (signals w !! g)
  | Emitting snapshot todo x _ =>
      (exists done, snapshot = done ++ todo) /\ (forall s, s ∈ snapshot -> is_Some (slots w !! s)) /\
      (forall s, stage_slot x = Some s -> s ∈ snapshot) /\ stage_pin w x
  end.

Record threads_ok (T : Threads) : Prop := {
  th_shared : shared_ok (cleaning T) (world T);
  th_running : running (world T) = references (stacks T) (cleaning T);
  th_pins : pins (world T) = omap frame_pin (frames (stacks T));
  th_frames : forall f, f ∈ frames (stacks T) -> frame_ok (world T) f
}.

(** What every step leaves in place. *)
Record keeps (w w' : World) : Prop := {
  kp_slot : forall s st, slots w !! s = Some st ->
    exists st', slots w' !! s = Some st' /\ bound st' = bound st /\ (mConnected st' = true -> mConnected st = true);
  kp_signal : forall g, is_Some (signals w !! g) -> is_Some (signals w' !! g)
}.

#[export] Instance keeps_refl : Reflexive keeps.
Proof. intros w. split; [|done]. intros s st H. by exists st. Qed.

Lemma frame_ok_keeps (w w' : World) (f : frame) : keeps w w' -> frame_ok w f -> frame_ok w' f.
Proof.
  intros [Hs Hg]. destruct f as [g a|sn todo x a]; cbn; [apply Hg|]. intros (Hd & He & Hx & Hp). split_and!; [done| |done|].
  - intros s Hin. destruct (He s Hin) as [st Hst]. destruct (Hs s st Hst) as (st' & ? & _). by eexists.
  - destruct x as [|s|s|s|s o|s p]; try done; destruct Hp as (st & Hst & Hb);
      destruct (Hs s st Hst) as (st' & ? & E & _); exists st'; by rewrite E.
Qed.

(** *** Frames of all threads *)
Lemma frames_elem (st : gmap thread (list frame)) (f : frame) : f ∈ frames st <-> exists t l, st !! t = Some l /\ f ∈ l.
Proof.
  unfold frames. rewrite list_elem_of_In, in_concat. setoid_rewrite <- list_elem_of_In. split.
  - intros (l & ([t l'] & -> & Hp)%list_elem_of_fmap & Hf). apply elem_of_map_to_list in Hp. by exists t, l'.
  - intros (t & l & Hl & Hf). exists l. split; [|done]. apply list_elem_of_fmap. exists (t, l). by split; [|apply elem_of_map_to_list].
Qed.

Lemma frames_update (st : gmap thread (list frame)) (t : thread) (l : list frame) (f : frame) :
  f ∈ frames (<[t := l]> st) -> f ∈ l \/ f ∈ frames st.
Proof.
  intros (t' & l' & Hl & Hf)%frames_elem. destruct (decide (t' = t)) as [->|].
  - rewrite lookup_insert_eq in Hl. injection Hl as <-. by left.
  - rewrite lookup_insert_ne in Hl by done. right. apply frames_elem. by exists t', l'.
Qed.

Lemma stack_frames (T : Threads) (t : thread) (f : frame) : f ∈ stack T t -> f ∈ frames (stacks T).
Proof.
  unfold stack. destruct (stacks T !! t) as [l|] eqn:E; [|by intros ?%elem_of_nil]. intros Hf. apply frames_elem. by exists t, l.
Qed.

Lemma references_elem (st : gmap thread (list frame)) (cl : gset slot_id) (l : list slot_id) (s : slot_id) :
  l ∈ references st cl -> s ∈ l -> s ∈ cl \/ exists todo x a, Emitting l todo x a ∈ frames st.
Proof.
  unfold references. rewrite elem_of_app, list_elem_of_singleton, list_elem_of_omap.
  intros [(f & Hf & E)| ->] Hs; [right|left; by apply elem_of_elements]. destruct f as [|sn todo x a]; [done|].
  injection E as ->. by exists todo, x, a.
Qed.

(** A step that keeps the shared slots in order and changes one thread's frames keeps the
    invariant. *)
Lemma sync_ok (w : World) (st : gmap thread (list frame)) (cl : gset slot_id) :
  shared_ok cl w -> (forall f, f ∈ frames st -> frame_ok w f) -> threads_ok (sync w st cl).
Proof.
  intros [[H1 H2 H3 H4] Hli Hraw Hcl] Hf. split; [|done|done|].
  - split; cbn; try done. split; cbn; try done. intros l s Hl Hs.
    destruct (references_elem _ _ _ _ Hl Hs) as [Hc|(todo & x & a & Hin)].
    + destruct (Hcl s Hc) as (t & ? & _). by eexists.
    + by apply (Hf _ Hin).
  - intros f Hin. apply (frame_ok_keeps w); [|by apply Hf]. split; [|done]. intros s t Ht. by exists t.
Qed.

Lemma shared_step_ok (T : Threads) (w : World) (cl : gset slot_id) :
  threads_ok T -> shared_ok cl w -> keeps (world T) w -> threads_ok (sync w (stacks T) cl).
Proof. intros HT Hs Hk. apply sync_ok; [done|]. intros f Hf. eapply frame_ok_keeps; [exact Hk|]. by apply HT. Qed.

Lemma thread_update_ok (T : Threads) (t : thread) (w : World) (l : list frame) (cl : gset slot_id) :
  threads_ok T -> shared_ok cl w -> keeps (world T) w -> (forall f, f ∈ l -> frame_ok w f) -> threads_ok (update T t w l cl).
Proof.
  intros HT Hs Hk Hl. apply sync_ok; [done|]. intros f [Hf|Hf]%frames_update; [by apply Hl|].
  eapply frame_ok_keeps; [exact Hk|]. by apply HT.
Qed.

(** ** The shared slots under each operation *)
Lemma shared_ext (cl : gset slot_id) (w w' : World) :
  slots w' = slots w -> signals w' = signals w -> running w' = running w -> next_slot w' = next_slot w -> owners w' = owners w ->
  shared_ok cl w -> shared_ok cl w'.
Proof.
  intros Es Eg Er En Eo [[H1 H2 H3 H4] H5 H6 H7]. split; [split| | |]; rewrite ?Es, ?Eg, ?Er, ?En, ?Eo; try done.
  intros g sig Hg. destruct (H1 g sig Hg) as [Hso Hall]. split; [done|].
  eapply Forall_impl; [exact Hall|]. intros gr Hgr. apply (group_ok_frame w); [done|]. intros s _. by rewrite Es.
Qed.

Lemma log_ok (cl : gset slot_id) (w : World) (s : slot_id) (a : Z) (d : nat) : shared_ok cl w -> shared_ok cl (log w s a d).
Proof. by apply shared_ext. Qed.

Lemma log_keeps (w : World) (s : slot_id) (a : Z) (d : nat) : keeps w (log w s a d).
Proof. split; [|done]. intros x st H. by exists st. Qed.

(** Operations that change no flag and list no other slots. *)
Lemma shared_change (cl : gset slot_id) (w w' : World) :
  shared_ok cl w -> lists_ok w' -> owners w' = owners w ->
  (forall x, (fun st => (bound st, mConnected st)) <$> slots w' !! x = (fun st => (bound st, mConnected st)) <$> slots w !! x) ->
  (forall g sig' x, signals w' !! g = Some sig' -> x ∈ flat (m_slots sig') ->
    exists sig, signals w !! g = Some sig /\ x ∈ flat (m_slots sig)) ->
  (forall g, is_Some (signals w !! g) -> is_Some (signals w' !! g)) ->
  shared_ok cl w' /\ keeps w w'.
Proof.
  intros Hok Hl Ho Hs Hg Hsig.
  assert (Hback : forall x st', slots w' !! x = Some st' ->
    exists st, slots w !! x = Some st /\ bound st' = bound st /\ mConnected st' = mConnected st).
  { intros x st' H. specialize (Hs x). rewrite H in Hs. cbn in Hs. symmetry in Hs.
    apply fmap_Some in Hs as (st & ? & E). injection E as -> ->. by exists st. }
  assert (Hforth : forall x st, slots w !! x = Some st ->
    exists st', slots w' !! x = Some st' /\ bound st' = bound st /\ mConnected st' = mConnected st).
  { intros x st H. specialize (Hs x). rewrite H in Hs. cbn in Hs. apply fmap_Some in Hs as (st' & ? & E).
    injection E as -> ->. by exists st'. }
  split; split; try done.
  - intros g sig' s st' Hg' Hin Hst'. destruct (Hback s st' Hst') as (st & Hst & _ & ->).
    destruct (Hg g sig' s Hg' Hin) as (sig & ? & ?). by apply (sh_listed cl w Hok g sig s).
  - intros s st' o Hst'. destruct (Hback s st' Hst') as (st & Hst & -> & ->). rewrite Ho. by apply (sh_raw cl w Hok s).
  - intros s (st & Hst & Hc)%(sh_cleaning cl w Hok). destruct (Hforth s st Hst) as (st' & ? & _ & E). exists st'. by rewrite E.
  - intros s st Hst. destruct (Hforth s st Hst) as (st' & ? & ? & E). exists st'. by rewrite E.
Qed.

Lemma exchange_ok (cl : gset slot_id) (w : World) (s : slot_id) (st : slot) :
  shared_ok cl w -> slots w !! s = Some st ->
  exists w', exchange w s = Ret (w', mConnected st) /\ shared_ok (after_exchange s (mConnected st) cl) w' /\ keeps w w'.
Proof.
  intros Hok Hs. exists (set_connected w s st false). unfold exchange, upd_slot, slot_at. rewrite Hs. cbn [deref run_bind].
  assert (Hsub : cl ⊆ after_exchange s (mConnected st) cl) by (unfold after_exchange; destruct (mConnected st); set_solver).
  split; [done|]. split; split.
  - apply lists_ok_connected; [by apply (sh_lists cl w Hok)|done].
  - intros g sig x st' Hg Hin. cbn. destruct (decide (x = s)) as [->|].
    + intros _. right. destruct (sh_listed cl w Hok g sig s st Hg Hin Hs) as [Hc|Hc]; [|by apply Hsub].
      unfold after_exchange. rewrite Hc. set_solver.
    + rewrite lookup_insert_ne by done. intros Hx. destruct (sh_listed cl w Hok g sig x st' Hg Hin Hx); [by left|right; by apply Hsub].
  - intros x st' o. cbn. destruct (decide (x = s)) as [->|]; [rewrite lookup_insert_eq; by intros [= <-]|].
    rewrite lookup_insert_ne by done. apply (sh_raw cl w Hok).
  - intros x Hx. cbn. destruct (decide (x = s)) as [->|]; [rewrite lookup_insert_eq; by eexists|].
    rewrite lookup_insert_ne by done. apply (sh_cleaning cl w Hok). unfold after_exchange in Hx. destruct (mConnected st); set_solver.
  - intros x st' Hx. cbn. destruct (decide (x = s)) as [->|].
    + rewrite lookup_insert_eq. eexists. split; [done|]. by simplify_eq.
    + rewrite lookup_insert_ne by done. by exists st'.
  - done.
Qed.

(** A slot is listed by the signal it cleans up in, and no other. *)
Lemma listed_cleaner (w : World) (g : signal_id) (sig : SignalBase) (s : slot_id) (st : slot) :
  lists_ok w -> signals w !! g = Some sig -> s ∈ flat (m_slots sig) -> slots w !! s = Some st -> mCleaner st = g.
Proof.
  intros Hok Hg (gr & Hin & [i Hi]%list_elem_of_lookup_1)%flat_elem Hs. destruct (ok_signal w Hok g sig Hg) as [_ Hall].
  rewrite Forall_forall in Hall. specialize (Hall gr Hin i s Hi). rewrite Hs in Hall. cbn in Hall. by injection Hall.
Qed.

Lemma clean_ok (cl : gset slot_id) (w : World) (s : slot_id) :
  shared_ok cl w -> s ∈ cl ->
  exists st w', slots w !! s = Some st /\ clean w (mCleaner st) s = Ret w' /\ shared_ok (cl ∖ {[s]}) w' /\ keeps w w'.
Proof.
  intros Hok Hin. destruct (sh_cleaning cl w Hok s Hin) as (st & Hs & Hc). pose proof (sh_lists cl w Hok) as Hl.
  destruct (ok_cleaner w Hl s st Hs) as [sig Hg].
  destruct (clean_spec w (mCleaner st) sig s st Hl Hs eq_refl Hg) as (w1 & l' & E & Hri & Hon & Hl').
  exists st, (set_signal w1 (mCleaner st) (mkSignal l' (m_block sig))). split; [done|]. split; [done|].
  assert (Hsig : signals w1 = signals w) by (by rewrite (ri_eq _ _ Hri)).
  assert (Hslot : forall x st', slots w1 !! x = Some st' ->
    exists t, slots w !! x = Some t /\ bound st' = bound t /\ mConnected st' = mConnected t).
  { intros x st' Hx. destruct (ri_slot _ _ Hri x) as [i Ei]. rewrite Hx in Ei. symmetry in Ei.
    apply fmap_Some in Ei as (t & ? & ->). by exists t. }
  split; split; cbn; rewrite ?Hsig.
  - done.
  - intros g0 sig0 x st' Hg0 Hx Hst'. destruct (Hslot x st' Hst') as (t & Ht & _ & ->).
    assert (Hold : exists sig1, signals w !! g0 = Some sig1 /\ x ∈ flat (m_slots sig1) /\ x <> s).
    { destruct (decide (g0 = mCleaner st)) as [->|Hne].
      - rewrite lookup_insert_eq in Hg0. injection Hg0 as <-. cbn in Hx. exists sig.
        destruct (only_flat _ _ _ x Hon Hx) as [? ?]. done.
      - rewrite lookup_insert_ne in Hg0 by done. exists sig0. split_and!; try done. intros ->.
        apply Hne. symmetry. by apply (listed_cleaner w g0 sig0 s st). }
    destruct Hold as (sig1 & H1 & Hx1 & Hne). destruct (sh_listed cl w Hok g0 sig1 x t H1 Hx1 Ht); [by left|right; set_solver].
  - intros x st' o Hst'. destruct (Hslot x st' Hst') as (t & Ht & -> & ->). rewrite (ri_eq _ _ Hri). by apply (sh_raw cl w Hok x).
  - intros x Hx. destruct (sh_cleaning cl w Hok x ltac:(set_solver)) as (t & Ht & Htc). destruct (ri_slot _ _ Hri x) as [i Ei].
    rewrite Ht in Ei. by eexists.
  - intros x t Ht. destruct (ri_slot _ _ Hri x) as [i Ei]. rewrite Ht in Ei. eexists. split; [exact Ei|]. done.
  - intros g0 Hg0. rewrite lookup_insert_is_Some'. by right.
Qed.

Lemma connect_ok (cl : gset slot_id) (w w' : World) (g : signal_id) (b : binding) (f : func_id) (ext : bool) (id : GroupId) (s : slot_id) :
  shared_ok cl w -> (forall o, b = Raw o -> o ∈ owners w) -> connect w g b f ext id = Ret (w', s) -> shared_ok cl w' /\ keeps w w'.
Proof.
  intros Hok Hraw E. pose proof (sh_lists cl w Hok) as Hl. destruct (signals w !! g) as [sig|] eqn:Hg.
  2:{ unfold connect, make_slot, add_slot, slot_at, signal_at in E. cbn in E. by rewrite lookup_insert_eq, Hg in E. }
  rewrite (connect_eq w g sig b f ext id Hg) in E. injection E as <- <-.
  destruct (connected_slots w g sig b f ext id) as (i & Esl & l' & Eadd & Esig).
  pose proof (connected_old w g sig b f ext id Hl) as Hold.
  assert (Hown : owners (connected_world w g sig b f ext id) = owners w) by (unfold connected_world; by destruct (add_in _ _ _)).
  assert (Hcase : forall x st', slots (connected_world w g sig b f ext id) !! x = Some st' ->
    (x = next_slot w /\ bound st' = b /\ mConnected st' = true) \/ slots w !! x = Some st').
  { intros x st'. rewrite Esl. destruct (decide (x = next_slot w)) as [->|].
    - rewrite lookup_insert_eq. intros [= <-]. by left.
    - rewrite lookup_insert_ne by done. by right. }
  split; split.
  - by apply connected_lists_ok.
  - intros g0 sig0 x st' Hg0 Hx [(-> & _ & ->)|Hst']%Hcase; [by left|].
    rewrite Esig in Hg0. destruct (decide (g0 = g)) as [->|].
    + rewrite lookup_insert_eq in Hg0. injection Hg0 as <-. cbn [m_slots] in Hx.
      destruct (add_in_flat _ _ _ _ _ (proj1 (ok_signal w Hl g sig Hg)) Eadd) as (p & q & Hp & Hq & _).
      rewrite Hq, elem_of_app, elem_of_cons in Hx. assert (x <> next_slot w) by (intros ->; by rewrite fresh_slot in Hst').
      apply (sh_listed cl w Hok g sig x st' Hg); [rewrite Hp, elem_of_app; naive_solver|done].
    + rewrite lookup_insert_ne in Hg0 by done. by apply (sh_listed cl w Hok g0 sig0).
  - intros x st' o [(-> & Hb & _)|Hst']%Hcase; rewrite Hown.
    + intros E _. apply Hraw. congruence.
    + by apply (sh_raw cl w Hok x).
  - intros x (st' & Hst' & Hc)%(sh_cleaning cl w Hok). exists st'. by rewrite Hold.
  - intros x st' Hst'. exists st'. by rewrite Hold.
  - intros g0. rewrite Esig, lookup_insert_is_Some'. by right.
Qed.

Lemma set_signal_ok (cl : gset slot_id) (w : World) (g : signal_id) (sig sig' : SignalBase) :
  shared_ok cl w -> signals w !! g = Some sig -> signal_ok w g sig' -> (forall x, x ∈ flat (m_slots sig') -> x ∈ flat (m_slots sig)) ->
  shared_ok cl (set_signal w g sig') /\ keeps w (set_signal w g sig').
Proof.
  intros Hok Hg Hs Hsub. apply shared_change; try done.
  - apply lists_ok_set_signal; [by apply (sh_lists cl w Hok)|done].
  - intros g0 sig0 x. cbn. destruct (decide (g0 = g)) as [->|].
    + rewrite lookup_insert_eq. intros [= <-] Hx. exists sig. auto.
    + rewrite lookup_insert_ne by done. intros H0 Hx. by exists sig0.
  - intros g0 H0. cbn. rewrite lookup_insert_is_Some'. by right.
Qed.

Lemma disconnect_if_ok (cl : gset slot_id) (cond : World -> slot -> bool) `{!Blind cond} (w w' : World) (g : signal_id) (n : nat) :
  shared_ok cl w -> disconnect_if w g cond = Ret (w', n) -> shared_ok cl w' /\ keeps w w'.
Proof.
  intros Hok E. destruct (signals w !! g) as [sig|] eqn:Hg; [|by unfold disconnect_if, signal_at in E; rewrite Hg in E].
  destruct (disconnect_if_lists cond w g sig (sh_lists cl w Hok) Hg) as (w1 & m & l' & E1 & Hl & Hed & _ & _ & _ & _ & Hc).
  rewrite E1 in E. injection E as <- _. apply shared_change; [done|done|by rewrite (ed_eq _ _ Hed)| | |].
  - intros x. specialize (Hc x). destruct (ed_slot _ _ Hed x) as (i & c & Ei). rewrite Ei in Hc |- *.
    destruct (slots w !! x) as [st|]; [|done]. cbn in *. by injection Hc as ->.
  - intros g0 sig0 x Hg0 Hx. pose proof (ed_list _ _ Hed g0) as H. rewrite Hg0 in H.
    destruct (signals w !! g0) as [sig1|]; [|done]. exists sig1. split; [done|]. by apply H.
  - intros g0 [sig0 Hg0]. pose proof (ed_list _ _ Hed g0) as H. rewrite Hg0 in H.
    destruct (signals w1 !! g0); [by eexists|done].
Qed.

Lemma exec_one_ok (cl : gset slot_id) (w w' : World) (x : op) :
  shared_ok cl w -> one_step x = true -> exec_one w x = Ret w' -> shared_ok cl w' /\ keeps w w'.
Proof.
  intros Hok Hx E. pose proof (sh_lists cl w Hok) as Hl. unfold exec_one in E.
  destruct x as [g t f ext id|c| |g f|g o|g id|g|g b|c b|g a]; cbn [exec_op one_step] in *; try done.
  - destruct (connect _ _ _ _ _ _) as [[w1 s]| | |] eqn:E1; try done. injection E as <-. eapply connect_ok; [done| |done]. by destruct t.
  - destruct (disconnect_callable w g f) as [[w1 n]| | |] eqn:E1; try done. injection E as <-.
    by eapply (disconnect_if_ok cl (fun _ => has_callable f)).
  - destruct (disconnect_object w g o) as [[w1 n]| | |] eqn:E1; try done. injection E as <-.
    by eapply (disconnect_if_ok cl (fun w => has_object w o)).
  - unfold disconnect_group, set_slots, signal_at in E. destruct (signals w !! g) as [sig|] eqn:Hg; [|done]. cbn [deref run_bind] in E.
    destruct (disconnect_group_in _ _) as [l' n] eqn:Ed. cbn in E. injection E as <-.
    destruct (disconnect_group_lists w g sig id l' n Hl Hg Ed). by eapply set_signal_ok.
  - unfold disconnect_all, set_slots, signal_at in E. destruct (signals w !! g) as [sig|] eqn:Hg; [|done]. injection E as <-.
    eapply set_signal_ok; [done|done|split; [constructor|done]|]. by intros x ?%elem_of_nil.
  - unfold block, unblock, signal_at in E. destruct (signals w !! g) as [sig|] eqn:Hg; [|by destruct b].
    pose proof (ok_signal w Hl g sig Hg) as Hs. destruct b; injection E as <-; by eapply set_signal_ok.
  - unfold connection_set_blocked in E. destruct (lock w c) as [s|]; [|by injection E as <-]. apply upd_blocked_eq in E as ->.
    apply shared_change; try done; [by apply lists_ok_set_blocked| |by intros g sig y; exists sig].
    intros y. rewrite set_blocked_slot. destruct (slots w !! y); [|done]. cbn. by destruct (decide (y = s)).
Qed.

(** ** Every step keeps the invariant *)
Lemma top_ok (T : Threads) (t : thread) (f : frame) (l : list frame) :
  threads_ok T -> stack T t = f :: l -> frame_ok (world T) f /\ forall f', f' ∈ l -> frame_ok (world T) f'.
Proof.
  intros HT E. split; [|intros f' Hf']; apply (th_frames _ HT), (stack_frames _ t); rewrite E; [by left|by right].
Qed.

(** An emission's frame moved on. *)
Lemma next_ok (T : Threads) (t : thread) (w : World) (sn todo' todo : list slot_id) (x' x : stage) (a : Z) (l : list frame) (cl : gset slot_id) :
  threads_ok T -> stack T t = Emitting sn todo x a :: l -> shared_ok cl w -> keeps (world T) w ->
  (exists k, todo = k ++ todo') -> (forall s, stage_slot x' = Some s -> s ∈ sn) -> stage_pin w x' ->
  threads_ok (update T t w (Emitting sn todo' x' a :: l) cl).
Proof.
  intros HT E Hs Hk [k ->] Hx Hp. destruct (top_ok T t _ _ HT E) as [[(d & Hd) [He _]] Hl].
  apply thread_update_ok; [done|done|done|]. intros f [->|Hf]%elem_of_cons; [|eapply frame_ok_keeps; [exact Hk|by apply Hl]].
  split_and!; [exists (d ++ k); by rewrite <- app_assoc| |done|done].
  intros s Hin. destruct (He s Hin) as [st Hst]. destruct (kp_slot _ _ Hk s st Hst) as (st' & ? & _). by eexists.
Qed.

(** Its slot being called. *)
Lemma inside_ok (T : Threads) (t : thread) (sn todo : list slot_id) (x : stage) (s : slot_id) (st : slot) (a a' : Z) (d : nat) (l : list frame) :
  threads_ok T -> stack T t = Emitting sn todo x a :: l -> stage_slot x = Some s -> slots (world T) !! s = Some st ->
  threads_ok (update T t (log (world T) s a' d) (Emitting sn todo (Inside s (tracks (bound st))) a :: l) (cleaning T)).
Proof.
  intros HT E Hx Hs. destruct (top_ok T t _ _ HT E) as [(_ & _ & Hin & _) _].
  eapply next_ok; [done|exact E|by apply log_ok, HT|apply log_keeps|by exists []| |].
  - intros s' [= <-]. by apply Hin.
  - by exists st.
Qed.

Lemma go_ok (t : thread) (T T' : Threads) : threads_ok T -> go t T = Ret T' -> threads_ok T'.
Proof.
  intros HT E. pose proof (th_shared _ HT) as Hsh. unfold go in E. destruct (stack T t) as [|[g a|sn todo x a] l] eqn:Hst; [done| |].
  - unfold signal_at in E. destruct (signals (world T) !! g) as [sig|] eqn:Hg; [|done]. injection E as <-.
    apply thread_update_ok; [done|done|done|]. intros f [->|Hf]%elem_of_cons; [|by apply (top_ok T t _ _ HT Hst)].
    split_and!; [by exists []| |done|done]. intros s Hs. eapply listed_slot; [apply Hsh|exact Hg|done].
  - destruct (top_ok T t _ _ HT Hst) as [(_ & _ & Hin & Hpin) Hl]. cbn [stage_slot] in Hin.
    destruct x as [|s|s|s|s o|s p]; unfold slot_at in E; cbn [stage_pin] in Hpin.
    + destruct todo as [|s todo]; [injection E as <-; by apply thread_update_ok|].
      destruct (slots (world T) !! s) as [st|]; [|done]. cbn [deref run_bind] in E. injection E as <-.
      eapply next_ok; [done|exact Hst|done|done|by exists [s]| |by destruct (mConnected st)].
      intros s'. destruct (mConnected st); [|done]. intros [= <-].
      destruct (top_ok T t _ _ HT Hst) as [((d & ->) & _) _]. set_solver.
    + destruct (slots (world T) !! s) as [st|]; [|done]. cbn [deref run_bind] in E. injection E as <-.
      eapply next_ok; [done|exact Hst|done|done|by exists []|destruct (mBlocked st); [done|exact Hin]|by destruct (mBlocked st)].
    + destruct (slots (world T) !! s) as [st|] eqn:Hs; [|done]. cbn [deref run_bind] in E.
      destruct (bound st) as [|o|o] eqn:Hb.
      * injection E as <-. replace (@None obj_id) with (tracks (bound st)) by (by rewrite Hb). by eapply inside_ok.
      * destruct (alive _ o); [|done]. injection E as <-. replace (@None obj_id) with (tracks (bound st)) by (by rewrite Hb). by eapply inside_ok.
      * injection E as <-. eapply next_ok; [done|exact Hst|done|done|by exists []|by destruct (alive _ o)|].
        destruct (alive _ o); [|done]. exists st. by rewrite Hb.
    + destruct (slots (world T) !! s) as [st|] eqn:Hs; [|by unfold exchange, slot_at in E; rewrite Hs in E].
      destruct (exchange_ok (cleaning T) (world T) s st Hsh Hs) as (w' & E1 & Hok & Hk). rewrite E1 in E. injection E as <-.
      eapply next_ok; [done|exact Hst|done|done|by exists []|done|done].
    + destruct (slots (world T) !! s) as [st|] eqn:Hs; [|done]. cbn [deref run_bind] in E.
      destruct Hpin as (st' & Hs' & Ht). simplify_eq. destruct (mConnected st'); injection E as <-.
      * rewrite <- Ht. by eapply inside_ok.
      * eapply next_ok; [done|exact Hst|done|done|by exists []|done|done].
    + injection E as <-. eapply next_ok; [done|exact Hst|done|done|by exists []|done|done].
Qed.

Lemma step_ok (T T' : Threads) : threads_ok T -> step T T' -> threads_ok T'.
Proof.
  intros HT. pose proof (th_shared _ HT) as Hsh. intros [t g a T1 E|t T1 E|s T1 Hlock E|s T1 Hs E|g b f ext id w' s Hraw E|x w' Hx E|o Ho].
  - unfold enter, signal_at in E. destruct (may_emit _); [|done]. destruct (signals (world T) !! g) as [sig|] eqn:Hg; [|done].
    cbn [deref run_bind] in E. destruct (m_block sig); injection E as <-; [done|]. apply thread_update_ok; [done|done|done|].
    intros f [->|Hf]%elem_of_cons; [by eexists|]. by apply HT, (stack_frames _ t).
  - by eapply go_ok.
  - unfold disconnect_begin in E. destruct (slots (world T) !! s) as [st|] eqn:Hs; [|by unfold exchange, slot_at in E; rewrite Hs in E].
    destruct (exchange_ok (cleaning T) (world T) s st Hsh Hs) as (w' & E1 & Hok & Hk). rewrite E1 in E. injection E as <-.
    by apply shared_step_ok.
  - unfold disconnect_end, slot_at in E. destruct (clean_ok (cleaning T) (world T) s Hsh Hs) as (st & w' & Hst & E1 & Hok & Hk).
    rewrite Hst in E. cbn [deref run_bind] in E. rewrite E1 in E. injection E as <-. by apply shared_step_ok.
  - destruct (connect_ok _ _ _ _ _ _ _ _ _ Hsh Hraw E). by apply shared_step_ok.
  - destruct (exec_one_ok _ _ _ _ Hsh Hx E). by apply shared_step_ok.
  - apply shared_step_ok; [done| |split; [intros s st H; by exists st|done]].
    destruct Hsh as [[H1 H2 H3 H4] H5 H6 H7]. split; [by split|done| |done]. intros s st o' Hs Hb Hc. apply elem_of_difference.
    split; [exact (H6 s st o' Hs Hb Hc)|]. intros ->%elem_of_singleton. by rewrite (Ho s st Hs Hb) in Hc.
Qed.

(** ** Progress *)

(** The thread is about to call a slot bound by pointer to an object destroyed since the
    slot was found connected. *)
Definition dangling (T : Threads) (t : thread) : Prop :=
  exists sn todo s a l st o, stack T t = Emitting sn todo (Calling s) a :: l /\
    slots (world T) !! s = Some st /\ bound st = Raw o /\ mConnected st = false /\ alive (world T) o = false.

Definition stage_budget (x : stage) : nat :=
  match x with Between => 0 | Found _ => 4 | Calling _ => 3 | Expired _ => 1 | Locked _ _ => 2 | Inside _ _ => 1 end.

(** A bound on the steps a thread's emissions still take by themselves. *)
Definition frame_budget (f : frame) : nat :=
  match f with Entered _ _ => 1 | Emitting _ todo x _ => S (5 * length todo + stage_budget x) end.
Definition budget (l : list frame) : nat := sum_list (frame_budget <$> l).

Definition taking_snapshot (l : list frame) : bool := match l with Entered _ _ :: _ => true | _ => false end.

Lemma stack_update (T : Threads) (t : thread) (w : World) (l : list frame) (cl : gset slot_id) : stack (update T t w l cl) t = l.
Proof. unfold stack, update. cbn. by rewrite lookup_insert_eq. Qed.

Lemma go_budget (t : thread) (T T' : Threads) :
  go t T = Ret T' -> taking_snapshot (stack T t) = false -> (budget (stack T' t) < budget (stack T t))%nat.
Proof.
  unfold go. destruct (stack T t) as [|[g a|sn todo x a] l] eqn:Hst; [done|done|]. intros E _.
  assert (H : forall w todo' x' cl, T' = update T t w (Emitting sn todo' x' a :: l) cl ->
    (5 * length todo' + stage_budget x' < 5 * length todo + stage_budget x)%nat ->
    (budget (stack T' t) < budget (Emitting sn todo x a :: l))%nat).
  { intros w todo' x' cl -> Hlt. rewrite stack_update. unfold budget. cbn. lia. }
  destruct x as [|s|s|s|s o|s p]; unfold slot_at in E.
  - destruct todo as [|s todo]; [injection E as <-; rewrite stack_update; unfold budget; cbn; lia|].
    destruct (slots _ !! s) as [st|]; [|done]. injection E as <-. eapply H; [done|]. destruct (mConnected st); cbn; lia.
  - destruct (slots _ !! s) as [st|]; [|done]. injection E as <-. eapply H; [done|]. destruct (mBlocked st); cbn; lia.
  - destruct (slots _ !! s) as [st|]; [|done]. cbn [deref run_bind] in E. destruct (bound st) as [|o|o].
    + injection E as <-. eapply H; [done|]. cbn; lia.
    + destruct (alive _ o); [|done]. injection E as <-. eapply H; [done|]. cbn; lia.
    + injection E as <-. eapply H; [done|]. destruct (alive _ o); cbn; lia.
  - destruct (exchange _ s) as [[w r]| | |]; try done. injection E as <-. eapply H; [done|]. cbn; lia.
  - destruct (slots _ !! s) as [st|]; [|done]. cbn [deref run_bind] in E. destruct (mConnected st); injection E as <-; (eapply H; [done|]); cbn; lia.
  - injection E as <-. eapply H; [done|]. cbn; lia.
Qed.

Lemma go_progress (t : thread) (T : Threads) :
  threads_ok T -> stack T t <> [] -> (exists T', go t T = Ret T') \/ dangling T t.
Proof.
  intros HT Hne. pose proof (th_shared _ HT) as Hsh. unfold go.
  destruct (stack T t) as [|[g a|sn todo x a] l] eqn:Hst; [done| |].
  - left. destruct (top_ok T t _ _ HT Hst) as [[sig Hg] _]. unfold signal_at. rewrite Hg. by eexists.
  - destruct (top_ok T t _ _ HT Hst) as [(Hd & He & Hin & Hpin) _].
    assert (Hex : forall s, stage_slot x = Some s -> exists st, slots (world T) !! s = Some st) by (intros s Hs; by apply He, Hin).
    destruct x as [|s|s|s|s o|s p]; unfold slot_at.
    + left. destruct todo as [|s todo]; [by eexists|]. destruct Hd as [d Hd]. destruct (He s) as [st ->]; [rewrite Hd; set_solver|]. by eexists.
    + left. destruct (Hex s eq_refl) as [st ->]. by eexists.
    + destruct (Hex s eq_refl) as [st Hs]. rewrite Hs. cbn [deref run_bind]. destruct (bound st) as [|o|o] eqn:Hb; [left; by eexists| |left; by eexists].
      destruct (alive (world T) o) eqn:Ha; [left; by eexists|right]. exists sn, todo, s, a, l, st, o. split_and!; try done.
      destruct (mConnected st) eqn:Hc; [|done]. unfold alive in Ha. rewrite bool_decide_true in Ha; [done|]. exact (sh_raw _ _ Hsh s st o Hs Hb Hc).
    + left. destruct (Hex s eq_refl) as [st Hs]. destruct (exchange_ok _ _ s st Hsh Hs) as (w' & -> & _). by eexists.
    + left. destruct (Hex s eq_refl) as [st ->]. cbn [deref run_bind]. destruct (mConnected st); by eexists.
    + left. by eexists.
Qed.

Lemma cleaning_progress (T : Threads) (s : slot_id) : threads_ok T -> s ∈ cleaning T -> exists T', disconnect_end s T = Ret T'.
Proof.
  intros HT Hs. destruct (clean_ok _ _ s (th_shared _ HT) Hs) as (st & w' & Hst & E & _). unfold disconnect_end, slot_at.
  rewrite Hst. cbn [deref run_bind]. rewrite E. by eexists.
Qed.

(** References keep weak connections valid and tracked objects alive. *)
Lemma reference_locks (T : Threads) (l : list slot_id) (s : slot_id) :
  threads_ok T -> l ∈ references (stacks T) (cleaning T) -> s ∈ l -> lock (world T) (Some s) = Some s.
Proof. intros HT Hl Hs. apply held_lock. exists l. by rewrite (th_running _ HT). Qed.

Lemma snapshot_locks (T : Threads) (t : thread) (sn todo : list slot_id) (x : stage) (a : Z) (s : slot_id) :
  threads_ok T -> Emitting sn todo x a ∈ stack T t -> s ∈ sn -> lock (world T) (Some s) = Some s.
Proof.
  intros HT Hf Hs. apply (reference_locks T sn); [done| |done]. unfold references. apply elem_of_app. left.
  apply list_elem_of_omap. eexists. split; [by apply (stack_frames _ t)|done].
Qed.

Lemma pinned_alive (T : Threads) (t : thread) (f : frame) (o : obj_id) :
  threads_ok T -> f ∈ stack T t -> frame_pin f = Some o -> alive (world T) o = true.
Proof.
  intros HT Hf Hp. unfold alive. apply orb_true_iff. right. apply bool_decide_eq_true. rewrite (th_pins _ HT).
  apply list_elem_of_omap. exists f. split; [by apply (stack_frames _ t)|done].
Qed.

(** ** Steps by name, for concrete runs *)
Inductive action :=
| Enter (t : thread) (g : signal_id) (a : Z)
| Go (t : thread)
| DisconnectBegin (s : slot_id)
| DisconnectEnd (s : slot_id)
| Operate (x : op)
| Destroy (o : obj_id).

Definition safe_to_destroy (w : World) (o : obj_id) : Prop :=
  map_Forall (fun _ st => bound st = Raw o -> mConnected st = false) (slots w).
#[export] Instance safe_to_destroy_dec (w : World) (o : obj_id) : Decision (safe_to_destroy w o).
Proof.
  apply map_Forall_dec. intros s st. destruct (bound st) as [|o'|o'];
    [left; done| |left; done]. destruct (decide (o' = o)) as [->|]; [|left; congruence].
  destruct (mConnected st); [right|left; done]. intros H. by specialize (H eq_refl).
Defined.

Definition act (x : action) (T : Threads) : run Threads :=
  match x with
  | Enter t g a => enter t g a T
  | Go t => go t T
  | DisconnectBegin s => if decide (lock (world T) (Some s) = Some s) then disconnect_begin s T else Fatal
  | DisconnectEnd s => if decide (s ∈ cleaning T) then disconnect_end s T else Fatal
  | Operate x => if one_step x then do w <- exec_one (world T) x; Ret (sync w (stacks T) (cleaning T)) else Fatal
  | Destroy o =>
      if decide (safe_to_destroy (world T) o)
      then Ret (sync (with_owners (world T) (owners (world T) ∖ {[o]})) (stacks T) (cleaning T)) else Fatal
  end.

Fixpoint act_all (l : list action) (T : Threads) : run Threads :=
  match l with [] => Ret T | x :: l => do T <- act x T; act_all l T end.

Lemma act_step (x : action) (T T' : Threads) : act x T = Ret T' -> step T T'.
Proof.
  destruct x as [t g a|t|s|s|x|o]; cbn.
  - apply step_enter.
  - apply step_go.
  - destruct (decide _) as [H|]; [|done]. by apply step_disconnect_begin.
  - destruct (decide _) as [H|]; [|done]. by apply step_disconnect_end.
  - destruct (one_step x) eqn:Hx; [|done]. destruct (exec_one (world T) x) as [w| | |] eqn:E; try done. intros [= <-]. by eapply step_operation.
  - destruct (decide _) as [H|]; [|done]. intros [= <-]. apply step_destroy. intros s st Hs. by apply (H s st Hs).
Qed.

Lemma act_all_steps (l : list action) (T T' : Threads) : act_all l T = Ret T' -> rtc step T T'.
Proof.
  revert T. induction l as [|x l IH]; intros T; cbn; [by intros [= <-]|].
  destruct (act x T) as [T1| | |] eqn:E; try done. cbn. intros E'. eapply rtc_l; [by eapply act_step|by apply IH].
Qed.

(** C14: Under every interleaving of emissions, of the callables they are inside of, of
    connections, of disconnections in their two halves and of orderly destructions: the
    slot lists stay well formed; a slot that is listed is connected, or a thread has
    cleared its flag and is about to take it off the list, so a slot whose disconnect has
    returned is in no list and no later snapshot; the slots of a running emission's
    snapshot are kept alive and their connections valid; a tracked object lives as long as
    a callable of its slot runs; a pending removal can always be made; and a thread inside
    an emission can always make its next step, which brings the emission closer to its
    end, unless it is about to call a slot it found connected before the slot was
    disconnected and the object it is bound to by pointer destroyed. *)
Theorem threads_correct (T T' : Threads) :
  threads_ok T -> rtc step T T' ->
  lists_ok (world T') /\
  (forall g sig s st, signals (world T') !! g = Some sig -> s ∈ flat (m_slots sig) -> slots (world T') !! s = Some st ->
    mConnected st = true \/ s ∈ cleaning T') /\
  (forall t sn todo x a s, Emitting sn todo x a ∈ stack T' t -> s ∈ sn ->
    is_Some (slots (world T') !! s) /\ lock (world T') (Some s) = Some s) /\
  (forall t sn todo s pin a st o, Emitting sn todo (Inside s pin) a ∈ stack T' t -> slots (world T') !! s = Some st ->
    bound st = Tracked o -> alive (world T') o = true) /\
  (forall s, s ∈ cleaning T' -> exists T'', disconnect_end s T' = Ret T'') /\
  (forall t, stack T' t <> [] ->
    (exists T'', go t T' = Ret T'' /\ (taking_snapshot (stack T' t) = false -> (budget (stack T'' t) < budget (stack T' t))%nat)) \/
    dangling T' t).
Proof.
  intros HT Hsteps. assert (HT' : threads_ok T') by (induction Hsteps; [done|]; eauto using step_ok). split_and!.
  - apply HT'.
  - apply (th_shared _ HT').
  - intros t sn todo x a s Hf Hs. split; [|by eapply snapshot_locks]. by apply (th_frames _ HT' _ (stack_frames _ _ _ Hf)).
  - intros t sn todo s pin a st o Hf Hs Hb. apply (pinned_alive T' t _ o HT' Hf). cbn.
    destruct (th_frames _ HT' _ (stack_frames _ _ _ Hf)) as (_ & _ & _ & st' & Hs' & <-). simplify_eq. by rewrite Hb.
  - intros s. by apply cleaning_progress.
  - intros t Hne. destruct (go_progress t T' HT' Hne) as [[T'' E]|]; [left|by right]. exists T''. split; [done|]. by apply go_budget.
Qed.
