(* ===== verification/SignalWitness.v ===== *)
(** * Signals: concrete states

    A signal with slots in two groups, on which the theorems are applied, and short runs
    that show where the code differs from its documentation. *)

From stdpp Require Import prelude list numbers gmap relations.
From Stdlib Require Import ZArith Lia.
From S2P Require Import Prelude CopyOnWrite Signals SignalsFacts SignalCombine SignalEmit SignalScripts SignalThreads.

#[local] Open Scope Z_scope.
#[local] Open Scope cxx_scope.

Definition world_of (m : run World) : World :=
  match m with Ret w => w | _ => mkWorld ∅ ∅ ∅ ∅ [] [] [] 1 end.

Definition empty_world : World := mkWorld ∅ ∅ ∅ ∅ [] [] [] 1.

Lemma empty_world_ok : world_ok empty_world.
Proof.
  split; [split|..]; cbn; intros *; rewrite ?lookup_empty; done || (by intros ?%elem_of_nil) || by intros [].
Qed.

Definition idle : slot_id -> Z -> World -> run World := fun _ _ w => Ret w.
#[export] Instance idle_body : Body idle.
Proof. by intros s a w w' _ [= <-]. Qed.
#[export] Instance idle_returns : Returns idle.
Proof. intros s a w _. by exists w. Qed.

(** Signal 1 with slot 1 in group 5 and slots 2 and 3 in group 0; object 1 is alive. *)
Definition start : World := new_signal (with_owners empty_world {[1%positive]}) 1.

Lemma start_ok : world_ok start.
Proof.
  apply world_ok_set_signal.
  - apply (world_ok_owners empty_world), empty_world_ok. cbn. intros s st o. by rewrite lookup_empty.
  - split; [constructor|done].
  - by intros s st ?%elem_of_nil.
Qed.

Definition connects : list op :=
  [DoConnect 1 None 1 false 5; DoConnect 1 None 2 false 0; DoConnect 1 (Some 1%positive) 3 false 0].
Definition sample : World := world_of (exec_ops idle 1 connects start).

Lemma sample_eq : exec_ops idle 1 connects start = Ret sample.
Proof. vm_compute. reflexivity. Qed.

Lemma sample_signals_ok : world_ok sample.
Proof. exact (ev_ok _ _ (exec_ops_evolves idle 1 connects start sample start_ok sample_eq) start_ok). Qed.

Definition sample_signal : SignalBase := mkSignal [mkGroup [2; 3]%positive 0; mkGroup [1]%positive 5] false.

Lemma sample_signal_eq : signals sample !! 1%positive = Some sample_signal.
Proof. vm_compute. reflexivity. Qed.

Definition sample_slot (s : slot_id) : slot := default (mkSlot Free 1 false 0 0 false false 1) (slots sample !! s).

(** ** Applications *)
Lemma connect_correct_witness : exists w' before after, connect sample 1 Free 9 false 0 = Ret (w', 4%positive) /\ world_ok w' /\
  flat before ++ flat after = [2; 3; 1]%positive /\ forall gr, gr ∈ after -> 0 < gid gr.
Proof.
  destruct (connect_correct sample 1 sample_signal Free 9 false 0 sample_signals_ok sample_signal_eq) as (w' & sig' & p & q & E & Hok & _ & _ & _ & Hf & _ & _ & Hq & _).
  - discriminate.
  - exists w', p, q. split; [exact E|]. split; [exact Hok|]. split; [exact (eq_sym Hf)|exact Hq].
Defined.

Lemma slot_disconnect_correct_witness : exists w', slot_disconnect sample 3 = Ret (w', true) /\ world_ok w' /\
  slot_disconnect w' 3 = Ret (w', false).
Proof.
  destruct (slot_disconnect_correct sample 3 (sample_slot 3) sample_signals_ok) as (w' & E & Hok & _ & _ & E2).
  - vm_compute. reflexivity.
  - exists w'. split; [exact E|]. split; [exact Hok|exact E2].
Defined.

Lemma disconnect_if_correct_witness : exists w', disconnect_object sample 1 (Some 1%positive) = Ret (w', 1%nat) /\ world_ok w'.
Proof.
  destruct (disconnect_if_correct (fun w => has_object w (Some 1%positive)) sample 1 sample_signal sample_signals_ok sample_signal_eq)
    as (w' & n & l' & E & Hok & _).
  exists w'. split; [|exact Hok]. unfold disconnect_object. rewrite E. f_equal. f_equal.
  assert (H : match disconnect_object sample 1 (Some 1%positive) with Ret (_, m) => m = 1%nat | _ => False end) by (vm_compute; reflexivity).
  unfold disconnect_object in H. rewrite E in H. exact H.
Defined.

Lemma move_correct_witness : exists w', move_construct sample 2 1 = Ret w' /\ world_ok w' /\ signals w' !! 2%positive = Some sample_signal.
Proof.
  destruct (move_correct sample 2 1 sample_signal sample_signals_ok) as [H _]; [discriminate|exact sample_signal_eq|].
  destruct H as (w' & E & Hok & Hs & _); [vm_compute; reflexivity|]. exists w'. split; [exact E|]. split; [exact Hok|exact Hs].
Defined.


(** Slot 4 is connected once and emits the signal again from its own call. *)
Definition script_emits (f : func_id) : list op := if bool_decide (f = 9%positive) then [DoEmit 1 7] else [].
Definition once_9 (f : func_id) : bool := bool_decide (f = 9%positive).
Definition with_once : World := world_of (do (w, _) <- connect_once sample 1 9 0; Ret w).
Definition after_once : World := world_of (exec_ops (run_script script_emits once_9 5) 4 [DoEmit 1 7; DoEmit 1 8] with_once).

Lemma connect_once_correct_witness : exists log, calls after_once = calls sample ++ log /\
  (length (filter (fun c => called c = 4%positive) log) <= 1)%nat /\ called <$> log = [2; 3; 4; 2; 3; 1; 1; 2; 3; 1]%positive.
Proof.
  destruct (connect_once_correct script_emits once_9 5 sample with_once after_once 1 9 0 4 4 [DoEmit 1 7; DoEmit 1 8] sample_signals_ok eq_refl)
    as (log & E & Hle & _).
  - vm_compute. reflexivity.
  - vm_compute. reflexivity.
  - exists log. split; [exact E|]. split; [exact Hle|].
    assert (H : called <$> calls after_once = [2; 3; 4; 2; 3; 1; 1; 2; 3; 1]%positive) by (vm_compute; reflexivity).
    rewrite E in H. exact H.
Defined.

Definition negate : slot_id -> Z -> World -> run (World * Z) := fun s a w => Ret (w, a - Z.pos s).

Lemma combiners_correct_witness :
  (exists w', emit_r (maximum negate) sample 1 10 = Ret (w', Some 9)) /\
  (exists w', emit_r (optional_last_value negate) sample 1 10 = Ret (w', Some 9)).
Proof.
  destruct (combiners_correct negate sample 1 sample_signal 10 sample_signal_eq) as [E1 E2].
  split; eexists; [rewrite E2|rewrite E1]; vm_compute; reflexivity.
Defined.

Definition two_threads : Threads := sync sample ∅ ∅.

Lemma still_ok (w : World) : world_ok w -> threads_ok (sync w ∅ ∅).
Proof.
  intros [H1 H2 H3]. apply sync_ok; [split; [done| |done|]|].
  - intros g sig s st Hg Hs Hst. left. by eapply H2.
  - intros s Hs. set_solver.
  - intros f (t & l & Hl & _)%frames_elem. by rewrite lookup_empty in Hl.
Qed.

(** Thread 1 is about to call slot 2, thread 2 has cleared slot 3's flag but not yet taken
    it off the list, where thread 3's snapshot still finds it. *)
Definition midway : list action :=
  [Enter 1 1 7; Go 1; Go 1; Go 1; DisconnectBegin 3; Enter 3 1 8; Go 3].

Lemma threads_correct_witness : exists T', rtc step two_threads T' /\ lists_ok (world T') /\ 3%positive ∈ cleaning T' /\
  num_slots (world T') 1 = Ret 3%nat /\ (exists T'', disconnect_end 3 T' = Ret T'' /\ num_slots (world T'') 1 = Ret 2%nat) /\
  stack T' 1 <> [] /\ stack T' 3 = [Emitting [2; 3; 1] [2; 3; 1] Between 8]%positive.
Proof.
  eexists. assert (H : rtc step two_threads _) by (apply (act_all_steps midway); vm_compute; reflexivity). split; [exact H|].
  destruct (threads_correct two_threads _ (still_ok sample sample_signals_ok) H) as (Hl & _). split; [exact Hl|].
  split; [apply (bool_decide_unpack _); vm_compute; exact I|]. split; [vm_compute; reflexivity|].
  split; [eexists; split; vm_compute; reflexivity|]. split; [vm_compute; discriminate|vm_compute; reflexivity].
Defined.

(** ** Copy-on-write *)
Definition shared : store := mkStore {[1%positive := mkPayload 2 10]} {[1%positive := Some 1%positive; 2%positive := Some 1%positive]} 2%positive.

Lemma shared_ok : store_ok shared.
Proof.
  assert (H0 : store_ok (mkStore ∅ ∅ 1%positive : @store Z)).
  { split_and!; cbn; intros *; rewrite ?lookup_empty; [done| |by intros []]. unfold refs. rewrite map_filter_empty, map_size_empty. lia. }
  destruct (new_payload_ok _ _ 10 H0) as (Hc & _).
  assert (H1 : store_ok (construct (mkStore ∅ ∅ 1%positive) 1%positive 10)) by (apply set_data_new; [done|exact Hc]).
  destruct (copy_construct_ok _ 2%positive 1%positive 10 H1 eq_refl eq_refl) as (s' & E & Hok & _).
  vm_compute in E. injection E as <-. exact Hok.
Qed.

Lemma write_correct_witness : exists s', write shared 1%positive (Z.add 1) = Ret s' /\ store_ok s' /\ val s' 1%positive = Some 11 /\ val s' 2%positive = Some 10.
Proof.
  destruct (write_correct shared 1%positive (Z.add 1) 10 shared_ok eq_refl) as (s' & E & Hok & Hv & _ & _ & Hoth).
  exists s'. split; [exact E|]. split; [exact Hok|]. split; [exact Hv|]. rewrite (Hoth 2%positive) by discriminate. reflexivity.
Defined.

Lemma copies_correct_witness : exists s', destroy shared 1%positive = Ret s' /\ store_ok s' /\ val s' 2%positive = Some 10.
Proof.
  destruct (copies_correct shared 2%positive 1%positive 10 shared_ok eq_refl) as (_ & _ & (s' & E & Hok & _ & Hoth)); [discriminate|].
  exists s'. split; [exact E|]. split; [exact Hok|]. rewrite (Hoth 2%positive) by discriminate. reflexivity.
Defined.

(** ** Where the code differs from its documentation *)

(** A script for slot 2 alone. *)
Definition second_does (x : op) (f : func_id) : list op := if bool_decide (f = 2%positive) then [x] else [].
Definition run_second (x : op) : run World := emit (run_script (second_does x) (fun _ => false) 3) sample 1 7.

(** Disconnecting a slot during an emission before its turn keeps it from being called;
    disconnecting all slots, or a group, or by callable, does not: they leave the list but
    stay marked as connected, and the rest of the snapshot is still called. *)
Theorem bulk_disconnect_still_called :
  called <$> calls (world_of (run_second (DoDisconnect (Some 3%positive)))) = [2; 1]%positive /\
  called <$> calls (world_of (run_second (DoDisconnectAll 1))) = [2; 3; 1]%positive /\
  called <$> calls (world_of (run_second (DoDisconnectGroup 1 0))) = [2; 3; 1]%positive /\
  called <$> calls (world_of (run_second (DoDisconnectCallable 1 3))) = [2; 3; 1]%positive /\
  num_slots (world_of (run_second (DoDisconnectAll 1))) 1 = Ret 0%nat.
Proof. vm_compute. done. Qed.

(** A signal destroyed by one of its slots leaves the later slots of the snapshot with
    a dangling pointer to it: a slot that disconnects itself then reads the dead signal. *)
Theorem destroyed_signal_dangles :
  let body s a w := if bool_decide (s = 2%positive) then delete_signal w 1
                    else do (w, _) <- connection_disconnect w (Some s); Ret w in
  emit body sample 1 7 = Undef /\ emit (fun s a w => if bool_decide (s = 2%positive) then delete_signal w 1 else Ret w) sample 1 7 <> Undef.
Proof. vm_compute. done. Qed.

(** Disconnecting by an object whose weak pointer has expired disconnects every slot
    that has no object, since both are the null pointer. *)
Theorem expired_object_disconnects_others :
  match disconnect_object sample 1 None with Ret (w, n) => n = 2%nat /\ num_slots w 1 = Ret 1%nat | _ => False end.
Proof. vm_compute. done. Qed.

(** A blocker that was moved from unblocks, when it is destroyed, the slot that the
    assignment already released, although it has been blocked again since. *)
Theorem moved_blocker_unblocks_again :
  match (do (w, a) <- blocker sample (Some 1%positive);
         do (w, b) <- blocker w (Some 2%positive);
         do (w, a, b) <- blocker_move_assign w a b;
         do w <- connection_block w (Some 1%positive);
         do before <- connection_blocked w (Some 1%positive);
         do w <- blocker_release w b;
         do after <- connection_blocked w (Some 1%positive); Ret (before, after)) with
  | Ret r => r = (true, false) | _ => False end.
Proof. vm_compute. done. Qed.

(** A slot whose tracked object has died is still counted by [num_slots], which
    promises the number of connected slots. *)
Theorem expired_slot_counted :
  let w := with_owners sample ∅ in
  connection_connected w (Some 3%positive) = Ret false /\ num_slots w 1 = Ret 3%nat.
Proof. vm_compute. done. Qed.

(** Two threads that emit a signal with one slot, and come to its call. *)
Definition one_slot (m : World -> run (World * slot_id)) : Threads := sync (world_of (do (w, _) <- m start; Ret w)) ∅ ∅.
Definition both_at_call : list action := [Enter 1 1 7; Enter 2 1 8; Go 1; Go 2; Go 1; Go 2; Go 1; Go 2].

(** Two threads may both find a slot connected by [connect_once] connected, before
    either disconnects it, and call it twice: the second disconnect reports that the slot
    was not connected any more, which the callable ignores. *)
Theorem connect_once_race : exists T', rtc step (one_slot (fun w => connect_once w 1 9 0)) T' /\
  called <$> calls (world T') = [1; 1]%positive /\ num_slots (world T') 1 = Ret 0%nat.
Proof.
  eexists. split; [apply (act_all_steps (both_at_call ++ [Go 1; Go 2; DisconnectBegin 1; DisconnectBegin 1; DisconnectEnd 1])); vm_compute; reflexivity|].
  vm_compute. done.
Qed.

(** An observer that disconnects all its connections before it dies may still be called
    by a thread that tested its slot before. *)
Theorem observer_called_after_death : exists T', rtc step (one_slot (fun w => connect_observer w 1 1 9 0)) T' /\
  threads_ok (one_slot (fun w => connect_observer w 1 1 9 0)) /\ dangling T' 1 /\ go 1 T' = Undef.
Proof.
  eexists. split; [apply (act_all_steps [Enter 1 1 7; Go 1; Go 1; Go 1; DisconnectBegin 1; DisconnectEnd 1; Destroy 1]); vm_compute; reflexivity|].
  split; [|split; [do 7 eexists; split_and!; vm_compute; reflexivity|vm_compute; reflexivity]].
  assert (Hg : signals start !! 1%positive = Some (mkSignal [] false)) by reflexivity.
  unfold one_slot, connect_observer. rewrite (connect_eq start 1 _ (Raw 1) 9 false 0 Hg). cbn [run_bind world_of].
  apply still_ok. apply (world_ok_ext (connected_world start 1 (mkSignal [] false) (Raw 1) 9 false 0)); [done..|].
  apply connected_world_ok; [exact start_ok|exact Hg|]. intros o [= <-]. apply (bool_decide_unpack _). vm_compute. exact I.
Qed.
