(* ===== verification/Metrics.v ===== *)
(** * Metrics

    Models [src/cxxkit/tools/metrics.cpp] and the recording macros of [metrics.hpp]: the
    registry of histograms, the pointers that call sites keep, and the export. Every
    function holds a mutex for all it does, so it is one step. A name is a view: its
    characters are the first ones of the cells that its pointer leads to. Debug checks are
    on. *)

From stdpp Require Import prelude numbers fin_maps gmap list sorting.
From Stdlib Require Import ZArith Lia.
From S2P Require Import Prelude.

#[local] Open Scope Z_scope.
#[local] Open Scope cxx_scope.

Definition kMaxSampleMapSize : nat := 300.

(** A result of [int] arithmetic *)
Definition int (z : Z) : run Z := if (- 2 ^ 31 <=? z) && (z <? 2 ^ 31) then Ret z else Undef.

(** ** Names *)
Record StringView := mkView { cells : list Z; length_ : nat }.
Definition to_string (v : StringView) : run (list Z) := if (length_ v <=? length (cells v))%nat then Ret (take (length_ v) (cells v)) else Undef.
(** [name.data()] as a C string: up to the next zero *)
Fixpoint c_string (l : list Z) : run (list Z) :=
  match l with
  | [] => Undef
  | c :: l => if c =? 0 then Ret [] else do s <- c_string l; Ret (c :: s)
  end.

(** ** Histograms *)
Record SampleInfo := mkInfo { name : list Z; min : Z; max : Z; bucket_count : Z; samples : gmap Z Z }.
Record RtcHistogram := mkHistogram { mMin : Z; mMax : Z; info_ : SampleInfo }.

Definition with_samples (h : RtcHistogram) (m : gmap Z Z) : RtcHistogram :=
  let i := info_ h in mkHistogram (mMin h) (mMax h) (mkInfo (name i) (min i) (max i) (bucket_count i) m).

Definition new_histogram (name : StringView) (min max bucket_count : Z) : run RtcHistogram :=
  do name <- to_string name;
  do _ <- check (0 <? bucket_count);
  Ret (mkHistogram min max (mkInfo name min max (wrap 64 bucket_count) ∅)).

Definition add (h : RtcHistogram) (sample : Z) : run RtcHistogram :=
  let sample := Z.min sample (mMax h) in
  do underflow <- int (mMin h - 1);
  let sample := Z.max sample underflow in
  let m := samples (info_ h) in
  if bool_decide (size m = kMaxSampleMapSize) && bool_decide (m !! sample = None) then Ret h
  else
    do n <- int (default 0 (m !! sample) + 1);
    Ret (with_samples h (<[sample := n]> m)).

(** The export of one: nothing when there are no samples *)
Definition take_samples (h : RtcHistogram) : option SampleInfo * RtcHistogram :=
  if bool_decide (samples (info_ h) = ∅) then (None, h) else (Some (info_ h), with_samples h ∅).

Definition h_num_events (h : RtcHistogram) (sample : Z) : Z := default 0 (samples (info_ h) !! sample).

(** A [std::map] in the order of its keys *)
Definition before (p q : Z * Z) : Prop := fst p <= fst q.
#[export] Instance before_dec (p q : Z * Z) : Decision (before p q).
Proof. unfold before. apply _. Defined.
Definition ordered (m : gmap Z Z) : list (Z * Z) := merge_sort before (map_to_list m).

Fixpoint sum (l : list (Z * Z)) (n : Z) : run Z :=
  match l with
  | [] => Ret n
  | p :: l => do n <- int (n + snd p); sum l n
  end.
Definition h_num_samples (h : RtcHistogram) : run Z := sum (ordered (samples (info_ h))) 0.
Definition h_min_sample (h : RtcHistogram) : Z := match ordered (samples (info_ h)) with [] => -1 | p :: _ => fst p end.

(** ** The registry *)
Notation ptr := positive.

(** The map once enabled, whether it was asked for, the histograms that are alive, and the
    pointers cached at the call sites *)
Record World := mkWorld {
  g_rtc_histogram_map : option (gmap (list Z) ptr);
  g_rtc_histogram_called : bool;
  heap : gmap ptr RtcHistogram;
  next : ptr;
  sites : gmap nat ptr
}.
Definition with_map (w : World) m := mkWorld m (g_rtc_histogram_called w) (heap w) (next w) (sites w).
Definition with_heap (w : World) h := mkWorld (g_rtc_histogram_map w) (g_rtc_histogram_called w) h (next w) (sites w).
Definition with_site (w : World) s p := mkWorld (g_rtc_histogram_map w) (g_rtc_histogram_called w) (heap w) (next w) (<[s := p]> (sites w)).

Definition initial : World := mkWorld None false ∅ 1%positive ∅.

Definition enable (w : World) : run World :=
  do _ <- check (bool_decide (g_rtc_histogram_map w = None));
  do _ <- check (negb (g_rtc_histogram_called w));
  Ret (match g_rtc_histogram_map w with None => with_map w (Some ∅) | Some _ => w end).

Definition get_map (w : World) : option (gmap (list Z) ptr) * World :=
  (g_rtc_histogram_map w, mkWorld (g_rtc_histogram_map w) true (heap w) (next w) (sites w)).

(** The new histogram belongs to the node that [emplace] makes: when the key is there
    already, both are deleted. *)
Definition emplace (m : gmap (list Z) ptr) (name : StringView) (hist : RtcHistogram) (w : World) : run (ptr * World) :=
  let p := next w in
  do key <- to_string name;
  Ret (p, match m !! key with
          | Some _ => mkWorld (g_rtc_histogram_map w) (g_rtc_histogram_called w) (heap w) (Pos.succ p) (sites w)
          | None => mkWorld (Some (<[key := p]> m)) (g_rtc_histogram_called w) (<[p := hist]> (heap w)) (Pos.succ p) (sites w)
          end).

Definition get_counts_histogram (m : gmap (list Z) ptr) (name : StringView) (min max bucket_count : Z) (w : World) : run (ptr * World) :=
  do key <- c_string (cells name);
  match m !! key with
  | Some p => Ret (p, w)
  | None => do hist <- new_histogram name min max bucket_count; emplace m name hist w
  end.

Definition get_enumeration_histogram (m : gmap (list Z) ptr) (name : StringView) (boundary : Z) (w : World) : run (ptr * World) :=
  do key <- c_string (cells name);
  match m !! key with
  | Some p => Ret (p, w)
  | None => do buckets <- int (boundary + 1); do hist <- new_histogram name 1 boundary buckets; emplace m name hist w
  end.

Definition histogram_factory_get_counts_linear (name : StringView) (min max bucket_count : Z) (w : World) : run (option ptr * World) :=
  let (m, w) := get_map w in
  match m with
  | None => Ret (None, w)
  | Some m => do (p, w) <- get_counts_histogram m name min max bucket_count w; Ret (Some p, w)
  end.
Definition histogram_factory_get_counts := histogram_factory_get_counts_linear.

Definition histogram_factory_get_enumeration (name : StringView) (boundary : Z) (w : World) : run (option ptr * World) :=
  let (m, w) := get_map w in
  match m with
  | None => Ret (None, w)
  | Some m => do (p, w) <- get_enumeration_histogram m name boundary w; Ret (Some p, w)
  end.
Definition sparse_histogram_factory_get_enumeration := histogram_factory_get_enumeration.

Definition histogram_add (p : ptr) (sample : Z) (w : World) : run World :=
  do h <- deref (heap w !! p);
  do h <- add h sample;
  Ret (with_heap w (<[p := h]> (heap w))).

(** ** The macros *)
Definition common_block_slow (sample : Z) (factory_get_invocation : World -> run (option ptr * World)) (w : World) : run World :=
  do (p, w) <- factory_get_invocation w;
  match p with Some p => histogram_add p sample w | None => Ret w end.

(** With a pointer kept at the call site *)
Definition common_block (site : nat) (sample : Z) (factory_get_invocation : World -> run (option ptr * World)) (w : World) : run World :=
  match sites w !! site with
  | Some p => histogram_add p sample w
  | None =>
      do (p, w) <- factory_get_invocation w;
      match p with Some p => histogram_add p sample (with_site w site p) | None => Ret w end
  end.

Definition histogram_counts (site : nat) (name : StringView) (sample min max bucket_count : Z) : World -> run World :=
  common_block site sample (histogram_factory_get_counts name min max bucket_count).
Definition histogram_counts_sparse (name : StringView) (sample min max bucket_count : Z) : World -> run World :=
  common_block_slow sample (histogram_factory_get_counts name min max bucket_count).
Definition histogram_enumeration (name : StringView) (sample boundary : Z) : World -> run World :=
  common_block_slow sample (histogram_factory_get_enumeration name boundary).
Definition histogram_percentage (name : StringView) (sample : Z) := histogram_enumeration name sample 101.
Definition histogram_boolean (name : StringView) (sample : Z) := histogram_enumeration name sample 2.

(** ** The export *)
Fixpoint take_all (l : list (list Z * ptr)) (w : World) (histograms : gmap (list Z) SampleInfo) : run (gmap (list Z) SampleInfo * World) :=
  match l with
  | [] => Ret (histograms, w)
  | (key, p) :: l =>
      do h <- deref (heap w !! p);
      let (info, h) := take_samples h in
      take_all l (with_heap w (<[p := h]> (heap w)))
        (match info with Some i => match histograms !! key with Some _ => histograms | None => <[key := i]> histograms end | None => histograms end)
  end.
Definition get_and_reset (w : World) : run (gmap (list Z) SampleInfo * World) :=
  let (m, w) := get_map w in
  match m with Some m => take_all (map_to_list m) w ∅ | None => Ret (∅, w) end.

Fixpoint reset_all (l : list (list Z * ptr)) (w : World) : run World :=
  match l with
  | [] => Ret w
  | (_, p) :: l => do h <- deref (heap w !! p); reset_all l (with_heap w (<[p := with_samples h ∅]> (heap w)))
  end.
Definition reset (w : World) : run World :=
  let (m, w) := get_map w in
  match m with Some m => reset_all (map_to_list m) w | None => Ret w end.

(** What the tests ask *)
Definition ask {A : Type} (none : A) (f : RtcHistogram -> run A) (name : StringView) (w : World) : run (A * World) :=
  let (m, w) := get_map w in
  match m with
  | None => Ret (none, w)
  | Some m =>
      do key <- c_string (cells name);
      match m !! key with
      | None => Ret (none, w)
      | Some p => do h <- deref (heap w !! p); do a <- f h; Ret (a, w)
      end
  end.
Definition num_events (name : StringView) (sample : Z) := ask 0 (fun h => Ret (h_num_events h sample)) name.
Definition num_samples (name : StringView) := ask 0 h_num_samples name.
Definition min_sample (name : StringView) := ask (-1) (fun h => Ret (h_min_sample h)) name.
Definition samples_of (name : StringView) := ask ∅ (fun h => Ret (samples (info_ h))) name.
