(* ===== verification/MetricsFacts.v ===== *)
(** * Metrics: theorems

    The registry against a book that has, under each name, the samples recorded since the
    last export. *)

From stdpp Require Import prelude numbers fin_maps gmap list sorting.
From Stdlib Require Import ZArith Lia.
From S2P Require Import Prelude Metrics.

#[local] Open Scope Z_scope.
#[local] Open Scope cxx_scope.

(** ** The book *)
Notation key := (list Z).
Record desc := mkDesc { d_min : Z; d_max : Z; d_buckets : Z }.
Record book := mkBook { entries : gmap key (desc * list Z); cached : gmap nat key }.

Definition count (v : Z) (log : list Z) : Z := Z.of_nat (length (filter (fun x => x = v) log)).
Definition distinct (log : list Z) : gset Z := list_to_set log.
Definition clamp (d : desc) (sample : Z) : Z := Z.max (Z.min sample (d_max d)) (d_min d - 1).
(** A new value is dropped when there are as many as there may be. *)
Definition accept (v : Z) (log : list Z) : list Z :=
  if decide (size (distinct log) = kMaxSampleMapSize /\ v ∉ log) then log else v :: log.
Definition least (log : list Z) : Z := match log with [] => -1 | v :: log => foldr Z.min v log end.
Definition log_of (σ : book) (k : key) : list Z := default [] (snd <$> entries σ !! k).

(** What a histogram keeps of the samples *)
Definition tally (log : list Z) : gmap Z Z := foldr (fun v m => <[v := default 0 (m !! v) + 1]> m) ∅ log.
Definition info_of (k : key) (d : desc) (log : list Z) : SampleInfo := mkInfo k (d_min d) (d_max d) (wrap 64 (d_buckets d)) (tally log).
Definition histogram_of (k : key) (d : desc) (log : list Z) : RtcHistogram := mkHistogram (d_min d) (d_max d) (info_of k d log).

(** ** Tallies *)
Lemma count_cons (v x : Z) (log : list Z) : count v (x :: log) = count v log + (if decide (x = v) then 1 else 0).
Proof. unfold count. rewrite filter_cons. repeat case_decide; cbn; try done; lia. Qed.

Lemma count_pos (v : Z) (log : list Z) : v ∈ log <-> 0 < count v log.
Proof.
  induction log as [|x log IH]; [rewrite elem_of_nil; split; [done|unfold count; cbn; lia]|]. rewrite count_cons, elem_of_cons, IH. unfold count.
  destruct (decide (x = v)) as [E|E]; [split; [lia|by left]|]. split; [intros [?|?]; [by subst|lia]|right; lia].
Qed.

Lemma tally_lookup (log : list Z) (v : Z) : tally log !! v = if decide (v ∈ log) then Some (count v log) else None.
Proof.
  induction log as [|x log IH]; [done|]. cbn [tally foldr]. fold (tally log). destruct (decide (x = v)) as [->|Hne].
  - rewrite lookup_insert_eq, decide_True by by left. rewrite count_cons, decide_True, IH by done. case_decide as Hv; [done|]. cbn. f_equal.
    rewrite count_pos in Hv. unfold count in *. lia.
  - rewrite lookup_insert_ne, IH, count_cons, (decide_False (P := x = v)), Z.add_0_r by done.
    destruct (decide (v ∈ log)); [by rewrite decide_True by by right|]. rewrite decide_False; [done|]. by intros [?|?]%elem_of_cons.
Qed.

Lemma tally_default (log : list Z) (v : Z) : default 0 (tally log !! v) = count v log.
Proof. rewrite tally_lookup. case_decide as Hv; [done|]. cbn. rewrite count_pos in Hv. unfold count in *. lia. Qed.

Lemma tally_size (log : list Z) : size (tally log) = size (distinct log).
Proof.
  rewrite <- (size_dom (D := gset Z)). f_equal. apply set_eq. intros v. rewrite elem_of_dom, tally_lookup. unfold distinct. rewrite elem_of_list_to_set.
  case_decide; split; try done; by intros [? ?].
Qed.

Lemma tally_empty (log : list Z) : tally log = ∅ <-> log = [].
Proof.
  split; [|by intros ->]. destruct log as [|x log]; [done|]. intros E. apply (f_equal (fun m => m !! x)) in E.
  rewrite tally_lookup, lookup_empty, decide_True in E by by left. done.
Qed.

Definition total (l : list (Z * Z)) : Z := foldr (fun p a => snd p + a) 0 l.
Lemma total_perm (l l' : list (Z * Z)) : l ≡ₚ l' -> total l = total l'.
Proof. unfold total. induction 1; cbn; lia. Qed.

Lemma total_tally (log : list Z) : total (map_to_list (tally log)) = Z.of_nat (length log).
Proof.
  induction log as [|x log IH]; [done|]. cbn [tally foldr]. fold (tally log). cbn [length].
  rewrite <- insert_delete_eq, (total_perm _ _ (map_to_list_insert _ _ _ (lookup_delete_eq _ _))). cbn [total foldr snd]. fold total.
  destruct (tally log !! x) as [c|] eqn:E; cbn [default].
  - rewrite <- (insert_delete_id _ _ _ E), (total_perm _ _ (map_to_list_insert _ _ _ (lookup_delete_eq _ _))) in IH. cbn [total foldr snd] in IH. fold total in IH.
    unfold total, id in *. lia.
  - rewrite delete_id by done. unfold total, id in *. lia.
Qed.

#[local] Instance before_total : Total before.
Proof. intros p q. unfold before. lia. Qed.
#[local] Instance before_trans : Transitive before.
Proof. intros p q r. unfold before. lia. Qed.

Lemma ordered_perm (m : gmap Z Z) : ordered m ≡ₚ map_to_list m.
Proof. apply merge_sort_Permutation. Qed.

Lemma total_nonneg (l : list (Z * Z)) : Forall (fun p => 0 <= snd p) l -> 0 <= total l.
Proof. unfold total. induction 1; cbn; lia. Qed.

Lemma sum_spec (l : list (Z * Z)) (n : Z) : Forall (fun p => 0 <= snd p) l -> 0 <= n -> n + total l < 2 ^ 31 -> sum l n = Ret (n + total l).
Proof.
  intros H. revert n. induction H as [|p l Hp H IH]; intros n Hn Ht; [cbn; f_equal; lia|]. pose proof (total_nonneg l H) as Hl.
  change (total (p :: l)) with (snd p + total l) in *. cbn [sum]. unfold int. rewrite (proj2 (Z.leb_le _ _)), (proj2 (Z.ltb_lt _ _)) by lia. cbn [andb run_bind].
  rewrite IH by lia. f_equal. lia.
Qed.

Lemma num_samples_spec (k : key) (d : desc) (log : list Z) : Z.of_nat (length log) < 2 ^ 31 -> h_num_samples (histogram_of k d log) = Ret (Z.of_nat (length log)).
Proof.
  intros Hl. unfold h_num_samples. cbn [histogram_of info_ info_of samples]. pose proof (total_perm _ _ (ordered_perm (tally log))) as Ht. rewrite total_tally in Ht.
  rewrite sum_spec; [by rewrite Ht|..|lia|lia]. apply Forall_forall. intros [v c] Hv. rewrite ordered_perm in Hv. apply elem_of_map_to_list in Hv.
  rewrite tally_lookup in Hv. case_decide; [|done]. injection Hv as <-. cbn. unfold count. lia.
Qed.

Lemma least_spec (log : list Z) (x : Z) : x ∈ log -> Forall (fun y => x <= y) log -> least log = x.
Proof.
  destruct log as [|v log]; [by intros ?%not_elem_of_nil|]. intros Hx Hall. apply Forall_cons in Hall as [Hv Hall]. cbn.
  assert (Hle : foldr Z.min v log <= v /\ Forall (fun y => foldr Z.min v log <= y) log /\ x <= foldr Z.min v log).
  { clear Hx. induction Hall as [|y log Hy Hall IH]; [by split_and!|]. destruct IH as (H1 & H2 & H3). cbn. split_and!; [lia| |lia].
    constructor; [lia|]. eapply Forall_impl; [exact H2|]. intros z Hz. cbn in *. lia. }
  destruct Hle as (H1 & H2 & H3). apply elem_of_cons in Hx as [->|Hx]; [lia|]. rewrite Forall_forall in H2. specialize (H2 x Hx). cbn in H2. lia.
Qed.

Lemma min_sample_spec (k : key) (d : desc) (log : list Z) : h_min_sample (histogram_of k d log) = least log.
Proof.
  unfold h_min_sample. cbn [histogram_of info_ info_of samples]. pose proof (ordered_perm (tally log)) as Hp.
  assert (Hs : Sorted before (ordered (tally log))) by (apply Sorted_merge_sort, _). apply Sorted_StronglySorted in Hs; [|apply _].
  assert (Hin : forall v, v ∈ log <-> exists c, (v, c) ∈ ordered (tally log)).
  { intros v. setoid_rewrite Hp. setoid_rewrite elem_of_map_to_list. rewrite tally_lookup. case_decide; split; try done; [by eexists|by intros [? ?]]. }
  destruct (ordered (tally log)) as [|[x c] l].
  - destruct log as [|v log]; [done|]. destruct (proj1 (Hin v)) as [c Hc]; [by left|]. by apply not_elem_of_nil in Hc.
  - symmetry. apply least_spec; [apply Hin; exists c; by left|]. apply Forall_forall. intros y Hy. apply Hin in Hy as [cy Hy].
    apply StronglySorted_inv in Hs as [_ Hs]. apply elem_of_cons in Hy as [[= -> _]|Hy]; [cbn; lia|]. rewrite Forall_forall in Hs. exact (Hs _ Hy).
Qed.

(** Recording *)
Lemma int_in (z : Z) : - 2 ^ 31 <= z < 2 ^ 31 -> int z = Ret z.
Proof. intros H. unfold int. by rewrite (proj2 (Z.leb_le _ _)), (proj2 (Z.ltb_lt _ _)) by lia. Qed.

Definition log_ok (d : desc) (log : list Z) : Prop :=
  - 2 ^ 31 < d_min d < 2 ^ 31 /\ (size (distinct log) <= kMaxSampleMapSize)%nat /\ Z.of_nat (length log) < 2 ^ 31.

Lemma count_le (v : Z) (log : list Z) : count v log <= Z.of_nat (length log).
Proof. unfold count. apply Nat2Z.inj_le, length_filter. Qed.

Lemma add_spec (k : key) (d : desc) (log : list Z) (sample : Z) : log_ok d log -> Z.of_nat (length log) < 2 ^ 31 - 1 ->
  add (histogram_of k d log) sample = Ret (histogram_of k d (accept (clamp d sample) log)) /\ log_ok d (accept (clamp d sample) log).
Proof.
  intros (Hd & Hs & Hl) Hroom. unfold add. cbn [histogram_of mMin mMax info_ info_of samples]. rewrite int_in by lia. cbn [run_bind].
  fold (clamp d sample). set (v := clamp d sample). rewrite tally_size. unfold accept.
  assert (Hm : tally log !! v = None <-> v ∉ log) by (rewrite tally_lookup; case_decide; split; done).
  destruct (decide (size (distinct log) = kMaxSampleMapSize /\ v ∉ log)) as [[H1 H2]|Hno].
  - rewrite bool_decide_true, bool_decide_true by tauto. done.
  - assert (E : bool_decide (size (distinct log) = kMaxSampleMapSize) && bool_decide (tally log !! v = None) = false).
    { apply andb_false_iff. rewrite !bool_decide_eq_false, Hm. destruct (decide (size (distinct log) = kMaxSampleMapSize)); tauto. }
    rewrite E, tally_default, int_in by (pose proof (count_le v log); unfold count in *; lia). cbn [run_bind].
    split; [unfold with_samples; cbn [histogram_of mMin mMax info_ info_of samples name min max bucket_count]; unfold histogram_of, info_of; do 3 f_equal; cbn [tally foldr]; by rewrite tally_default|].
    split; [done|split; [|cbn [length]; lia]]. unfold distinct in *. cbn [list_to_set]. destruct (decide (v ∈ log)) as [Hin|Hnin].
    + replace ({[v]} ∪ list_to_set log : gset Z) with (list_to_set log : gset Z); [done|]. set_solver.
    + rewrite size_union, size_singleton by set_solver. assert (size (list_to_set log : gset Z) <> kMaxSampleMapSize) by tauto. lia.
Qed.

(** ** The registry *)

(** [m]: where the histogram of each name is *)
Record stands (m : gmap key ptr) (w : World) (σ : book) : Prop := {
  st_map : g_rtc_histogram_map w = Some m;
  st_entry : forall k p, m !! k = Some p -> exists d log, entries σ !! k = Some (d, log) /\ heap w !! p = Some (histogram_of k d log) /\ log_ok d log;
  st_known : forall k, is_Some (entries σ !! k) -> is_Some (m !! k);
  st_apart : forall k k' p, m !! k = Some p -> m !! k' = Some p -> k = k';
  st_fresh : forall p h, heap w !! p = Some h -> (p < next w)%positive;
  st_sites : forall s p, sites w !! s = Some p -> exists k, cached σ !! s = Some k /\ m !! k = Some p;
  st_cached : forall s, is_Some (cached σ !! s) -> is_Some (sites w !! s)
}.
Definition represents (w : World) (σ : book) : Prop := exists m, stands m w σ.

(** A view of [k] that a zero follows, as that of a literal is *)
Definition view_of (k : key) (z : list Z) : StringView := mkView (k ++ 0 :: z) (length k).
Definition proper (k : key) : Prop := Forall (fun c => c <> 0) k.

Lemma c_string_spec (k : key) (z : list Z) : proper k -> c_string (k ++ 0 :: z) = Ret k.
Proof. induction 1 as [|c k Hc H IH]; [done|]. cbn. rewrite (proj2 (Z.eqb_neq c 0)) by done. by rewrite IH. Qed.

Lemma to_string_spec (k : key) (z : list Z) : to_string (view_of k z) = Ret k.
Proof. unfold to_string, view_of. cbn. by rewrite (proj2 (Nat.leb_le _ _)), take_app_length by (rewrite length_app; lia). Qed.

Definition touched (w : World) : World := snd (get_map w).

Lemma touched_stands (m : gmap key ptr) (w : World) (σ : book) : stands m w σ -> stands m (touched w) σ.
Proof. intros []. by split. Qed.

Lemma live_next (m : gmap key ptr) (w : World) (σ : book) (k : key) (p : ptr) : stands m w σ -> m !! k = Some p -> p <> next w.
Proof. intros H Hk ->. destruct (st_entry _ _ _ H _ _ Hk) as (d & log & _ & Hp & _). apply (st_fresh _ _ _ H) in Hp. lia. Qed.

(** The histogram of a name, made when there is none *)
Definition opened (σ : book) (k : key) (d : desc) : book := mkBook (<[k := default (d, []) (entries σ !! k)]> (entries σ)) (cached σ).

Lemma opened_known (σ : book) (k : key) (d : desc) (e : desc * list Z) : entries σ !! k = Some e -> opened σ k d = σ.
Proof. intros E. unfold opened. rewrite E. cbn. rewrite insert_id by done. by destruct σ. Qed.

Definition desc_ok (d : desc) : Prop := - 2 ^ 31 < d_min d < 2 ^ 31 /\ 0 < d_buckets d < 2 ^ 31.

Lemma emplace_histogram_spec (m : gmap key ptr) (w : World) (σ : book) (k : key) (z : list Z) (d : desc) : stands m w σ -> m !! k = None -> desc_ok d ->
  exists p w' m', (do hist <- new_histogram (view_of k z) (d_min d) (d_max d) (d_buckets d); emplace m (view_of k z) hist w) = Ret (p, w') /\
    m' !! k = Some p /\ stands m' w' (opened σ k d) /\ sites w' = sites w.
Proof.
  intros H Hk [Hd Hb]. unfold new_histogram. rewrite to_string_spec. cbn [run_bind]. rewrite (proj2 (Z.ltb_lt _ _)) by lia. cbn [check run_bind].
  unfold emplace. rewrite to_string_spec. cbn [run_bind]. rewrite Hk. eexists _, _, (<[k := next w]> m).
  split; [done|]. split; [by rewrite lookup_insert_eq|]. split; [|done].
  assert (Ek : entries σ !! k = None).
  { destruct (entries σ !! k) eqn:E; [|done]. destruct (st_known _ _ _ H k) as [? ?]; [by eexists|congruence]. }
  unfold opened. rewrite Ek. cbn [default]. split; cbn [g_rtc_histogram_map heap next sites entries cached].
  - done.
  - intros k' p [[<- <-]|[Hne Hp]]%lookup_insert_Some.
    + exists d, []. rewrite !lookup_insert_eq. split; [done|]. split; [done|]. split; [done|]. by split; [vm_compute; lia|].
    + destruct (st_entry _ _ _ H _ _ Hp) as (d' & log & H1 & H2 & H3). exists d', log. rewrite lookup_insert_ne by done. split_and!; [done| |done].
      rewrite lookup_insert_ne; [done|]. intros Hn. by apply (live_next m w σ k' p H Hp).
  - intros k' [e He]. apply lookup_insert_Some in He as [[<- _]|[Hne He]]; [rewrite lookup_insert_eq; by eexists|].
    rewrite lookup_insert_ne by done. apply (st_known _ _ _ H). by eexists.
  - intros k1 k2 p Hp1 Hp2. apply lookup_insert_Some in Hp1, Hp2. destruct Hp1 as [[<- <-]|[Hne1 Hp1]], Hp2 as [[<- E]|[Hne2 Hp2]]; [done|..].
    + by destruct (live_next m w σ k2 _ H Hp2).
    + subst p. by destruct (live_next m w σ k1 _ H Hp1).
    + by apply (st_apart _ _ _ H k1 k2 p).
  - intros p h [[<- _]|[Hne Hp]]%lookup_insert_Some; [lia|]. apply (st_fresh _ _ _ H) in Hp. lia.
  - intros s p Hs. destruct (st_sites _ _ _ H s p Hs) as (k' & H1 & H2). exists k'. split; [done|]. rewrite lookup_insert_ne; [done|]. congruence.
  - apply (st_cached _ _ _ H).
Qed.

Lemma known (m : gmap key ptr) (w : World) (σ : book) (k : key) (p : ptr) (d : desc) : stands m w σ -> m !! k = Some p -> opened σ k d = σ.
Proof. intros H Hk. destruct (st_entry _ _ _ H _ _ Hk) as (d' & log & H1 & _). by eapply opened_known. Qed.

(** The two factories *)
Definition factory_ok (factory : World -> run (option ptr * World)) (k : key) (d : desc) : Prop :=
  forall m w σ, stands m w σ -> exists p w' m', factory w = Ret (Some p, w') /\ m' !! k = Some p /\ stands m' w' (opened σ k d) /\ sites w' = sites w.

Lemma counts_factory (k : key) (z : list Z) (d : desc) : proper k -> desc_ok d ->
  factory_ok (histogram_factory_get_counts (view_of k z) (d_min d) (d_max d) (d_buckets d)) k d.
Proof.
  intros Hp Hd m w σ H. unfold histogram_factory_get_counts, histogram_factory_get_counts_linear, get_map. rewrite (st_map _ _ _ H).
  unfold get_counts_histogram. cbn [cells view_of]. rewrite c_string_spec by done. cbn [run_bind]. pose proof (touched_stands m w σ H) as Ht.
  unfold touched, get_map in Ht. cbn [snd] in Ht. rewrite (st_map _ _ _ H) in Ht. destruct (m !! k) as [p|] eqn:E.
  - eexists p, _, m. split; [done|]. split; [done|]. by rewrite (known m w σ k p d H E).
  - destruct (emplace_histogram_spec m _ σ k z d Ht E Hd) as (p & w' & m' & E' & H1 & H2 & H3). rewrite E'. by exists p, w', m'.
Qed.

Lemma enumeration_factory (k : key) (z : list Z) (boundary : Z) : proper k -> 0 <= boundary < 2 ^ 31 - 1 ->
  factory_ok (histogram_factory_get_enumeration (view_of k z) boundary) k (mkDesc 1 boundary (boundary + 1)).
Proof.
  intros Hp Hd m w σ H. unfold histogram_factory_get_enumeration, get_map. rewrite (st_map _ _ _ H).
  unfold get_enumeration_histogram. cbn [cells view_of]. rewrite c_string_spec by done. cbn [run_bind]. pose proof (touched_stands m w σ H) as Ht.
  unfold touched, get_map in Ht. cbn [snd] in Ht. rewrite (st_map _ _ _ H) in Ht. destruct (m !! k) as [p|] eqn:E.
  - eexists p, _, m. split; [done|]. split; [done|]. by rewrite (known m w σ k p _ H E).
  - rewrite int_in by lia. cbn [run_bind].
    destruct (emplace_histogram_spec m _ σ k z (mkDesc 1 boundary (boundary + 1)) Ht E) as (p & w' & m' & E' & H1 & H2 & H3); [split; cbn; lia|].
    cbn [d_min d_max d_buckets] in E'. rewrite E'. by exists p, w', m'.
Qed.

(** Recording a sample *)
Definition recorded (σ : book) (k : key) (sample : Z) : book :=
  mkBook (alter (fun e => (fst e, accept (clamp (fst e) sample) (snd e))) k (entries σ)) (cached σ).
Definition room (σ : book) : Prop := forall k e, entries σ !! k = Some e -> Z.of_nat (length (snd e)) < 2 ^ 31 - 1.

(** A histogram replaced in its place *)
Lemma replace_stands (m : gmap key ptr) (w : World) (σ : book) (k : key) (p : ptr) (d : desc) (log : list Z) :
  stands m w σ -> m !! k = Some p -> log_ok d log ->
  stands m (with_heap w (<[p := histogram_of k d log]> (heap w))) (mkBook (<[k := (d, log)]> (entries σ)) (cached σ)).
Proof.
  intros H Hk Hok. split; cbn [with_heap g_rtc_histogram_map heap next sites entries cached]; try apply H.
  - intros k' p' Hp'. destruct (decide (k' = k)) as [->|Hne].
    + exists d, log. assert (p' = p) as -> by congruence. by rewrite !lookup_insert_eq.
    + destruct (st_entry _ _ _ H _ _ Hp') as (d' & log' & H1 & H2 & H3). exists d', log'. rewrite !lookup_insert_ne; [done| |done].
      intros ->. by apply Hne, (st_apart _ _ _ H k' k p').
  - intros k' [e He]. apply lookup_insert_Some in He as [[<- _]|[_ He]]; [by eexists|]. apply (st_known _ _ _ H). by eexists.
  - intros p' h [[<- _]|[_ Hp]]%lookup_insert_Some; [|by apply (st_fresh _ _ _ H p' h)].
    destruct (st_entry _ _ _ H _ _ Hk) as (? & ? & _ & Hp & _). by apply (st_fresh _ _ _ H) in Hp.
Qed.

Lemma histogram_add_spec (m : gmap key ptr) (w : World) (σ : book) (k : key) (p : ptr) (sample : Z) : stands m w σ -> m !! k = Some p -> room σ ->
  exists w', histogram_add p sample w = Ret w' /\ stands m w' (recorded σ k sample) /\ sites w' = sites w.
Proof.
  intros H Hk Hroom. destruct (st_entry _ _ _ H _ _ Hk) as (d & log & He & Hp & Hok). unfold histogram_add. rewrite Hp. cbn [deref run_bind].
  specialize (Hroom _ _ He). cbn in Hroom. destruct (add_spec k d log sample Hok Hroom) as [-> Hok']. cbn [run_bind].
  eexists. split; [done|]. split; [|done]. unfold recorded.
  replace (alter _ k (entries σ)) with (<[k := (d, accept (clamp d sample) log)]> (entries σ)); [by apply replace_stands|].
  apply map_eq. intros j. destruct (decide (j = k)) as [->|Hne]; [by rewrite lookup_insert_eq, lookup_alter_eq, He|].
  by rewrite lookup_insert_ne, lookup_alter_ne.
Qed.

Lemma room_opened (σ : book) (k : key) (d : desc) : room σ -> room (opened σ k d).
Proof.
  intros H j e He. unfold opened in He. cbn [entries] in He. apply lookup_insert_Some in He as [[<- <-]|[_ He]]; [|by apply (H j)]. destruct (entries σ !! k) as [e|] eqn:E; cbn; [by apply (H k)|lia].
Qed.

(** ** The operations *)
Inductive op :=
  | Counts (site : nat) (k : key) (z : list Z) (d : desc) (sample : Z)
  | CountsSparse (k : key) (z : list Z) (d : desc) (sample : Z)
  | Enumeration (k : key) (z : list Z) (boundary sample : Z)
  | GetAndReset
  | Reset.

Definition perform (o : op) (w : World) : run (gmap key SampleInfo * World) :=
  match o with
  | Counts site k z d sample => do w <- histogram_counts site (view_of k z) sample (d_min d) (d_max d) (d_buckets d) w; Ret (∅, w)
  | CountsSparse k z d sample => do w <- histogram_counts_sparse (view_of k z) sample (d_min d) (d_max d) (d_buckets d) w; Ret (∅, w)
  | Enumeration k z boundary sample => do w <- histogram_enumeration (view_of k z) sample boundary w; Ret (∅, w)
  | GetAndReset => get_and_reset w
  | Reset => do w <- reset w; Ret (∅, w)
  end.

(** What they do to the book: a call site records under the name it was first used with. *)
Definition emptied (σ : book) : book := mkBook ((fun e => (fst e, [])) <$> entries σ) (cached σ).
Definition effect (o : op) (σ : book) : book :=
  match o with
  | Counts site k _ d sample =>
      match cached σ !! site with
      | Some k => recorded σ k sample
      | None => let σ := recorded (opened σ k d) k sample in mkBook (entries σ) (<[site := k]> (cached σ))
      end
  | CountsSparse k _ d sample => recorded (opened σ k d) k sample
  | Enumeration k _ boundary sample => recorded (opened σ k (mkDesc 1 boundary (boundary + 1))) k sample
  | GetAndReset | Reset => emptied σ
  end.
Definition export (o : op) (σ : book) : gmap key SampleInfo :=
  match o with
  | GetAndReset => map_imap (fun k e => if bool_decide (snd e = []) then None else Some (info_of k (fst e) (snd e))) (entries σ)
  | _ => ∅
  end.

Definition admissible (o : op) : Prop :=
  match o with
  | Counts _ k _ d _ | CountsSparse k _ d _ => proper k /\ desc_ok d
  | Enumeration k _ boundary _ => proper k /\ 0 <= boundary < 2 ^ 31 - 1
  | GetAndReset | Reset => True
  end.

Lemma slow_spec (factory : World -> run (option ptr * World)) (k : key) (d : desc) (sample : Z) (w : World) (σ : book) :
  factory_ok factory k d -> represents w σ -> room σ ->
  exists w', common_block_slow sample factory w = Ret w' /\ represents w' (recorded (opened σ k d) k sample).
Proof.
  intros Hf [m H] Hr. destruct (Hf m w σ H) as (p & w1 & m' & E & Hp & H1 & _). unfold common_block_slow. rewrite E. cbn [run_bind].
  destruct (histogram_add_spec m' w1 _ k p sample H1 Hp (room_opened σ k d Hr)) as (w2 & E2 & H2 & _). exists w2. split; [done|by exists m'].
Qed.

Lemma with_site_stands (m : gmap key ptr) (w : World) (σ : book) (s : nat) (k : key) (p : ptr) : stands m w σ -> m !! k = Some p ->
  stands m (with_site w s p) (mkBook (entries σ) (<[s := k]> (cached σ))).
Proof.
  intros H Hk. split; cbn [with_site g_rtc_histogram_map heap next sites entries cached]; try apply H.
  - intros s' p' Hs. destruct (decide (s' = s)) as [->|Hne].
    + rewrite lookup_insert_eq in Hs. injection Hs as <-. exists k. by rewrite lookup_insert_eq.
    + rewrite lookup_insert_ne in Hs by done. destruct (st_sites _ _ _ H s' p' Hs) as (k' & H1 & H2). exists k'. by rewrite lookup_insert_ne.
  - intros s' [k' Hs]. apply lookup_insert_Some in Hs as [[<- _]|[Hne Hs]]; [rewrite lookup_insert_eq; by eexists|].
    rewrite lookup_insert_ne by done. apply (st_cached _ _ _ H). by eexists.
Qed.

Lemma cached_spec (factory : World -> run (option ptr * World)) (site : nat) (k : key) (z : list Z) (d : desc) (sample : Z) (w : World) (σ : book) :
  factory_ok factory k d -> represents w σ -> room σ ->
  exists w', common_block site sample factory w = Ret w' /\ represents w' (effect (Counts site k z d sample) σ).
Proof.
  intros Hf [m H] Hr. unfold common_block. cbn [effect]. destruct (sites w !! site) as [p|] eqn:Es.
  - destruct (st_sites _ _ _ H site p Es) as (k' & -> & Hk'). destruct (histogram_add_spec m w σ k' p sample H Hk' Hr) as (w' & E & H' & _).
    exists w'. split; [done|by exists m].
  - destruct (cached σ !! site) as [k'|] eqn:Ec; [destruct (st_cached _ _ _ H site) as [? ?]; [by eexists|congruence]|].
    destruct (Hf m w σ H) as (p & w1 & m' & E & Hp & H1 & _). rewrite E. cbn [run_bind]. pose proof (with_site_stands m' w1 _ site k p H1 Hp) as H2.
    destruct (histogram_add_spec m' _ _ k p sample H2 Hp) as (w2 & E2 & H3 & _); [apply (room_opened σ k d Hr)|]. exists w2. split; [done|by exists m'].
Qed.

(** The export, entry by entry *)
Definition export_one (k : key) (e : desc * list Z) : option SampleInfo := if bool_decide (snd e = []) then None else Some (info_of k (fst e) (snd e)).

Lemma take_samples_spec (k : key) (d : desc) (log : list Z) : take_samples (histogram_of k d log) = (export_one k (d, log), histogram_of k d []).
Proof.
  unfold take_samples, export_one. cbn [histogram_of info_ info_of samples fst snd]. destruct (decide (log = [])) as [->|Hne]; [done|].
  rewrite (bool_decide_false (log = [])), bool_decide_false by (rewrite ?tally_empty; done). done.
Qed.

Lemma take_all_spec (m : gmap key ptr) (l : list (key * ptr)) (w : World) (σ : book) (acc : gmap key SampleInfo) :
  NoDup l.*1 -> (forall k p, (k, p) ∈ l -> m !! k = Some p) -> stands m w σ -> (forall k, k ∈ l.*1 -> acc !! k = None) ->
  exists acc' w' σ', take_all l w acc = Ret (acc', w') /\ stands m w' σ' /\ cached σ' = cached σ /\
    (forall k, entries σ' !! k = if decide (k ∈ l.*1) then (fun e => (fst e, [])) <$> entries σ !! k else entries σ !! k) /\
    (forall k, acc' !! k = if decide (k ∈ l.*1) then entries σ !! k ≫= export_one k else acc !! k).
Proof.
  intros Hn Hl. revert w σ acc. induction l as [|[k p] l IH]; intros w σ acc H Hacc; [by exists acc, w, σ|].
  apply NoDup_cons in Hn as [Hk Hn]. cbn [take_all fmap list_fmap fst] in *. destruct (st_entry _ _ _ H k p) as (d & log & He & Hp & Hok); [apply Hl; by left|].
  rewrite Hp. cbn [deref run_bind]. rewrite take_samples_spec. set (acc1 := match export_one k (d, log) with Some _ => _ | None => _ end).
  assert (Hok' : log_ok d []) by (destruct Hok as (? & _ & _); split; [done|by split; [vm_compute; lia|]]).
  assert (Hm : m !! k = Some p) by (apply Hl; by left). pose proof (replace_stands m w σ k p d [] H Hm Hok') as H1.
  assert (Ha : forall j, acc1 !! j = if decide (j = k) then export_one k (d, log) else acc !! j).
  { intros j. subst acc1. rewrite (Hacc k) by by left. destruct (export_one k (d, log)); case_decide as E; subst; rewrite ?lookup_insert_eq, ?lookup_insert_ne by done; try done.
    apply Hacc. by left. }
  destruct (IH Hn (fun j q Hj => Hl j q (list_elem_of_further _ _ _ Hj)) _ _ acc1 H1) as (acc' & w' & σ' & E & H2 & H3 & H4 & H5).
  { intros j Hj. rewrite Ha, decide_False by (intros ->; done). apply Hacc. by right. }
  exists acc', w', σ'. split; [done|]. split; [done|]. split; [done|]. split; intros j; rewrite ?H4, ?H5; cbn [entries].
  - destruct (decide (j = k)) as [->|Hne].
    + by rewrite decide_False, decide_True, lookup_insert_eq, He by (done || by left).
    + rewrite lookup_insert_ne by done. destruct (decide (j ∈ l.*1)); [by rewrite decide_True by by right|]. rewrite decide_False; [done|]. by intros [?|?]%elem_of_cons.
  - destruct (decide (j = k)) as [->|Hne].
    + by rewrite decide_False, decide_True, Ha, decide_True, He by (done || by left).
    + rewrite lookup_insert_ne, Ha, (decide_False (P := j = k)) by done. destruct (decide (j ∈ l.*1)); [by rewrite decide_True by by right|].
      rewrite decide_False; [done|]. by intros [?|?]%elem_of_cons.
Qed.

Lemma reset_all_spec (l : list (key * ptr)) (w : World) (acc : gmap key SampleInfo) : reset_all l w = (do (_, w) <- take_all l w acc; Ret w).
Proof.
  revert w acc. induction l as [|[k p] l IH]; intros w acc; [done|]. cbn [reset_all take_all]. destruct (heap w !! p) as [h|]; [|done]. cbn [deref run_bind].
  assert (E : snd (take_samples h) = with_samples h ∅).
  { unfold take_samples. case_bool_decide as Hs; [|done]. destruct h as [mn mx [n a b c s]]. cbn in *. by subst. }
  destruct (take_samples h) as [info h']. cbn [snd] in E. subst h'. apply IH.
Qed.

Lemma take_every (m : gmap key ptr) (w : World) (σ : book) : stands m w σ ->
  exists w', take_all (map_to_list m) w ∅ = Ret (export GetAndReset σ, w') /\ stands m w' (emptied σ).
Proof.
  intros H. destruct (take_all_spec m (map_to_list m) w σ ∅) as (acc & w' & σ' & E & H1 & H2 & H3 & H4); [apply NoDup_fst_map_to_list| |done|done|].
  { intros k p. apply elem_of_map_to_list. }
  assert (Hin : forall k, entries σ !! k <> None -> k ∈ (map_to_list m).*1).
  { intros k He. destruct (st_known _ _ _ H k) as [p Hp]; [by apply not_eq_None_Some|]. apply list_elem_of_fmap. exists (k, p). split; [done|]. by apply elem_of_map_to_list. }
  exists w'. rewrite E. split.
  - do 2 f_equal. apply map_eq. intros k. rewrite H4. cbn [export]. rewrite map_lookup_imap, lookup_empty. case_decide as Hk; [done|].
    destruct (entries σ !! k) eqn:Ek; [|done]. destruct Hk. apply Hin. by rewrite Ek.
  - enough (σ' = emptied σ) as <- by done. destruct σ' as [e c]. cbn [entries cached] in *. unfold emptied. f_equal; [|done].
    apply map_eq. intros k. rewrite H3, lookup_fmap. case_decide as Hk; [done|]. destruct (entries σ !! k) eqn:Ek; [|done]. destruct Hk. apply Hin. by rewrite Ek.
Qed.

Lemma step_spec (o : op) (w : World) (σ : book) : represents w σ -> room σ -> admissible o ->
  exists w', perform o w = Ret (export o σ, w') /\ represents w' (effect o σ).
Proof.
  intros H Hr Ha. destruct o as [site k z d sample|k z d sample|k z boundary sample| |]; cbn [perform export admissible] in *.
  - destruct (cached_spec _ site k z d sample w σ (counts_factory k z d (proj1 Ha) (proj2 Ha)) H Hr) as (w' & E & H'). exists w'. unfold histogram_counts. by rewrite E.
  - destruct (slow_spec _ k d sample w σ (counts_factory k z d (proj1 Ha) (proj2 Ha)) H Hr) as (w' & E & H'). exists w'. unfold histogram_counts_sparse. by rewrite E.
  - destruct (slow_spec _ k _ sample w σ (enumeration_factory k z boundary (proj1 Ha) (proj2 Ha)) H Hr) as (w' & E & H'). exists w'. unfold histogram_enumeration. by rewrite E.
  - destruct H as [m H]. unfold get_and_reset. pose proof (touched_stands m w σ H) as Ht. unfold touched, get_map in *. rewrite (st_map _ _ _ H) in *. cbn [snd] in Ht.
    destruct (take_every m _ σ Ht) as (w' & E & H'). exists w'. split; [done|by exists m].
  - destruct H as [m H]. unfold reset. pose proof (touched_stands m w σ H) as Ht. unfold touched, get_map in *. rewrite (st_map _ _ _ H) in *. cbn [snd] in Ht.
    destruct (take_every m _ σ Ht) as (w' & E & H'). exists w'. rewrite (reset_all_spec _ _ ∅), E. split; [done|by exists m].
Qed.

Lemma queries_spec (w : World) (σ : book) (k : key) (z : list Z) (v : Z) : represents w σ -> room σ -> proper k ->
  let log := log_of σ k in
  num_events (view_of k z) v w = Ret (count v log, touched w) /\
  num_samples (view_of k z) w = Ret (Z.of_nat (length log), touched w) /\
  min_sample (view_of k z) w = Ret (least log, touched w) /\
  samples_of (view_of k z) w = Ret (tally log, touched w) /\ (size (tally log) <= kMaxSampleMapSize)%nat.
Proof.
  intros [m H] Hr Hk log. unfold num_events, num_samples, min_sample, samples_of, ask, touched, get_map. rewrite (st_map _ _ _ H). cbn [snd cells view_of].
  rewrite c_string_spec by done. cbn [run_bind]. subst log. unfold log_of. destruct (m !! k) as [p|] eqn:Ep.
  - destruct (st_entry _ _ _ H k p Ep) as (d & log & He & Hp & _ & Hs & Hl). cbn [heap]. rewrite Hp, He. cbn [deref run_bind fmap option_fmap option_map default snd].
    rewrite num_samples_spec, min_sample_spec, tally_size by done. unfold h_num_events. cbn [histogram_of info_ info_of samples]. by rewrite tally_default.
  - destruct (entries σ !! k) eqn:E; [destruct (st_known _ _ _ H k) as [? ?]; [by eexists|congruence]|]. cbn. split; [done|]. split; [done|]. split; [done|]. split; [done|]. vm_compute. lia.
Qed.

(** ** Programs *)
Fixpoint perform_all (ops : list op) (w : World) : run (list (gmap key SampleInfo) * World) :=
  match ops with
  | [] => Ret ([], w)
  | o :: ops => do (out, w) <- perform o w; do (outs, w) <- perform_all ops w; Ret (out :: outs, w)
  end.
Fixpoint exports (ops : list op) (σ : book) : list (gmap key SampleInfo) :=
  match ops with [] => [] | o :: ops => export o σ :: exports ops (effect o σ) end.
Definition book_after (ops : list op) (σ : book) : book := foldl (fun σ o => effect o σ) σ ops.

Definition at_most (n : Z) (σ : book) : Prop := forall k e, entries σ !! k = Some e -> Z.of_nat (length (snd e)) <= n.

Lemma recorded_at_most (n : Z) (σ : book) (k : key) (sample : Z) : at_most n σ -> at_most (n + 1) (recorded σ k sample).
Proof.
  intros H j e He. unfold recorded in He. cbn [entries] in He. destruct (decide (j = k)) as [->|Hne].
  - rewrite lookup_alter_eq in He. destruct (entries σ !! k) as [e0|] eqn:E; [|done]. injection He as <-. specialize (H k e0 E). cbn. unfold accept. case_decide; cbn [length]; lia.
  - rewrite lookup_alter_ne in He by done. specialize (H j e He). lia.
Qed.

Lemma opened_at_most (n : Z) (σ : book) (k : key) (d : desc) : 0 <= n -> at_most n σ -> at_most n (opened σ k d).
Proof.
  intros Hn H j e He. unfold opened in He. cbn [entries] in He. apply lookup_insert_Some in He as [[<- <-]|[_ He]]; [|by apply (H j)].
  destruct (entries σ !! k) as [e0|] eqn:E; cbn; [by apply (H k)|done].
Qed.

Lemma effect_at_most (n : Z) (o : op) (σ : book) : 0 <= n -> at_most n σ -> at_most (n + 1) (effect o σ).
Proof.
  intros Hn H. assert (Hempty : at_most (n + 1) (emptied σ)).
  { intros k e He. cbn [emptied entries] in He. rewrite lookup_fmap in He. destruct (entries σ !! k) as [e0|]; [|done]. injection He as <-. cbn. lia. }
  destruct o; cbn [effect]; try done.
  - destruct (cached σ !! site); [by apply recorded_at_most|]. intros j e. apply (recorded_at_most n (opened σ k d) k sample); by apply opened_at_most.
  - by apply recorded_at_most, opened_at_most.
  - by apply recorded_at_most, opened_at_most.
Qed.

Lemma session_spec (ops : list op) (n : Z) (w : World) (σ : book) :
  Forall admissible ops -> 0 <= n -> n + Z.of_nat (length ops) < 2 ^ 31 -> at_most n σ -> represents w σ ->
  exists w', perform_all ops w = Ret (exports ops σ, w') /\ represents w' (book_after ops σ) /\ at_most (n + Z.of_nat (length ops)) (book_after ops σ).
Proof.
  intros H. revert n w σ. induction H as [|o ops Ho H IH]; intros n w σ Hn Hlen Hm Hw; cbn [length] in *; [exists w; by rewrite Z.add_0_r|].
  destruct (step_spec o w σ Hw) as (w1 & E1 & H1); [intros k e He; specialize (Hm k e He); lia|done|].
  destruct (IH (n + 1) w1 (effect o σ)) as (w2 & E2 & H2 & H3); [lia|lia|by apply effect_at_most|done|].
  exists w2. cbn [perform_all]. rewrite E1. cbn [run_bind]. rewrite E2. split; [done|]. split; [done|].
  by replace (n + Z.of_nat (S (length ops))) with (n + 1 + Z.of_nat (length ops)) by lia.
Qed.

Definition enabled : World := mkWorld (Some ∅) false ∅ 1%positive ∅.
Definition blank : book := mkBook ∅ ∅.
Lemma enabled_represents : represents enabled blank.
Proof. exists ∅. split; [done|done|by intros k []|done|done|done|by intros s []]. Qed.

(** C27: Refinement: from the call of [enable] on, the registry is the book. The operations are
    [admissible]: names are views of a text that a null byte ends, without one inside, and
    the bounds are those of an [int] with at least one bucket; there are fewer of them than
    an [int] counts. Whatever of these is recorded and exported, every operation returns what the book has, and afterwards the counters of
    every name say how often each value was recorded, how many samples and which is the
    least; no histogram has more than 300 values. *)
Theorem metrics_correct (ops : list op) : Forall admissible ops -> Z.of_nat (length ops) < 2 ^ 31 - 1 ->
  exists w, (do w <- enable initial; perform_all ops w) = Ret (exports ops blank, w) /\
    forall k z v, proper k ->
      let log := log_of (book_after ops blank) k in
      num_events (view_of k z) v w = Ret (count v log, touched w) /\
      num_samples (view_of k z) w = Ret (Z.of_nat (length log), touched w) /\
      min_sample (view_of k z) w = Ret (least log, touched w) /\
      samples_of (view_of k z) w = Ret (tally log, touched w) /\ (size (tally log) <= kMaxSampleMapSize)%nat.
Proof.
  intros Ha Hl. destruct (session_spec ops 0 enabled blank Ha) as (w & E & H & Hm); [lia|lia|done|apply enabled_represents|].
  exists w. split; [done|]. intros k z v Hk. apply queries_spec; [done| |done]. intros j e He. specialize (Hm j e He). lia.
Qed.

(** ** Instances *)

(** Two call sites for one name, a percentage, a site that changes its name, an export *)
Definition rate : key := [114; 97].
Definition loss : key := [108].
Definition range : desc := mkDesc 1 100 50.
Definition session : list op :=
  [Counts 0 rate [] range 7; Counts 1 rate [120] range 400; Enumeration loss [] 101 0; Counts 0 loss [] range 7; GetAndReset; CountsSparse rate [] range 3].

Lemma metrics_correct_witness : exists w, (do w <- enable initial; perform_all session w) = Ret (exports session blank, w) /\
  num_samples (view_of rate []) w = Ret (1, touched w) /\ min_sample (view_of loss []) w = Ret (-1, touched w).
Proof.
  destruct (metrics_correct session) as (w & E & H); [repeat constructor; done|vm_compute; done|]. exists w. split; [exact E|]. split.
  - refine (eq_trans (proj1 (proj2 (H rate [] 0 _))) _); [repeat constructor; done|by vm_compute].
  - refine (eq_trans (proj1 (proj2 (proj2 (H loss [] 0 _)))) _); [repeat constructor; done|by vm_compute].
Defined.

Definition listed (m : gmap key SampleInfo) : list (key * list (Z * Z)) := map (fun e : key * SampleInfo => (fst e, map_to_list (samples (snd e)))) (map_to_list m).
Example session_exports : map listed (exports (take 5 session) blank) =
  [[]; []; []; []; [(loss, [(0, 1)]); (rate, [(7, 2); (100, 1)])]].
Proof. by vm_compute. Qed.

(** A name that goes on after its view is looked up as the longer string and stored as the
    shorter one: when that is there already, the histogram handed out has been deleted. *)
Definition unterminated : StringView := mkView (rate ++ [116; 0]) 2.
Theorem unterminated_name_dangles :
  (do w <- enable initial; do w <- histogram_counts_sparse (view_of rate []) 7 1 100 50 w; histogram_counts_sparse unterminated 7 1 100 50 w) = Undef.
Proof. by vm_compute. Qed.

(** The same view alone makes a histogram that it does not find again. *)
Theorem unterminated_name_not_found :
  (do w <- enable initial; do w <- histogram_counts_sparse unterminated 7 1 100 50 w; do (n, w) <- num_samples unterminated w; Ret n) = Ret 0.
Proof. by vm_compute. Qed.
