(* ===== verification/PercentileFilter.v ===== *)
(** * The percentile filter

    Models [src/cxxkit/numerics/percentile_filter.hpp]: a [std::multiset] with an iterator
    kept at the wanted percentile. An iterator is the identity of a node, so that it stays
    valid while other nodes come and go. The position is computed in single precision: a
    finite float that is not negative is its multiple of [2^-149]. *)

From stdpp Require Import prelude numbers list sorting.
From Stdlib Require Import ZArith Lia.
From S2P Require Import Prelude.

#[local] Open Scope Z_scope.
#[local] Open Scope cxx_scope.

(** ** [float] *)
Definition float := Z.
Definition one : float := 2 ^ 149.

(** [m / 2^k] to the nearest integer, ties to the even one *)
Definition nearest (m k : Z) : Z :=
  let q := m / 2 ^ k in
  let r := m mod 2 ^ k in
  if 2 * r <? 2 ^ k then q
  else if 2 ^ k <? 2 * r then q + 1
  else if Z.even q then q else q + 1.

(** [m * 2^-k] units, rounded to 24 significant bits and to a whole unit *)
Definition round (m k : Z) : float :=
  let e := Z.max 0 (Z.log2 m - k + 1 - 24) in nearest m (k + e) * 2 ^ e.

Definition of_size (n : Z) : float := round (n * 2 ^ 149) 0.
Definition mul (a b : float) : float := round (a * b) 149.
(** [static_cast<int64_t>]: undefined when the value does not fit *)
Definition to_int64 (a : float) : run Z := let z := a / 2 ^ 149 in if z <? 2 ^ 63 then Ret z else Undef.

(** ** [std::multiset] *)
Definition node := positive.
Notation multiset := (list (node * Z)).
Definition iterator := option node.

Definition begin (s : multiset) : iterator := fst <$> head s.
Definition value_of (s : multiset) (it : iterator) : run Z :=
  do n <- deref it; do p <- deref (list_find (fun p => fst p = n) s); Ret (snd (snd p)).

(** [insert]: at the upper bound *)
Fixpoint set_insert (s : multiset) (n : node) (x : Z) : multiset :=
  match s with
  | [] => [(n, x)]
  | (m, y) :: s' => if x <? y then (n, x) :: s else (m, y) :: set_insert s' n x
  end.

(** [lower_bound] *)
Fixpoint lower_bound (s : multiset) (x : Z) : iterator :=
  match s with
  | [] => None
  | (m, y) :: s => if y <? x then lower_bound s x else Some m
  end.

(** [erase(it)]: the set without the node, and the iterator that follows it *)
Definition set_erase (s : multiset) (it : iterator) : run (multiset * iterator) :=
  do n <- deref it;
  do p <- deref (list_find (fun p => fst p = n) s);
  Ret (take (fst p) s ++ drop (S (fst p)) s, begin (drop (S (fst p)) s)).

(** The place of an iterator: the end counts as one past the last. *)
Definition place (s : multiset) (it : iterator) : run nat :=
  match it with
  | None => Ret (length s)
  | Some n => do p <- deref (list_find (fun p => fst p = n) s); Ret (fst p)
  end.

(** [std::advance]: it may stop at the end, not go further or before the beginning. *)
Definition advance (s : multiset) (it : iterator) (d : Z) : run iterator :=
  do i <- place s it;
  let j := Z.of_nat i + d in
  if (0 <=? j) && (j <=? Z.of_nat (length s)) then Ret (fst <$> s !! Z.to_nat j) else Undef.

(** ** [PercentileFilter] *)
Record PercentileFilter := mkFilter {
  mPercentile : float;
  mSet : multiset;
  mPercentileIt : iterator;
  mPercentileIndex : Z;
  next_node : node
}.

Definition new_filter (percentile : float) : run PercentileFilter :=
  do _ <- check (0 <=? percentile);
  do _ <- check (percentile <=? one);
  Ret (mkFilter percentile [] None 0 1%positive).

Definition index_of (percentile : float) (size : Z) : run Z := to_int64 (mul percentile (of_size (size - 1))).

Definition update_percentile_iterator (f : PercentileFilter) : run PercentileFilter :=
  if bool_decide (mSet f = []) then Ret f
  else
    do index <- index_of (mPercentile f) (Z.of_nat (length (mSet f)));
    do it <- advance (mSet f) (mPercentileIt f) (index - mPercentileIndex f);
    Ret (mkFilter (mPercentile f) (mSet f) it index (next_node f)).

Definition insert (f : PercentileFilter) (value : Z) : run PercentileFilter :=
  let set := set_insert (mSet f) (next_node f) value in
  let next := Pos.succ (next_node f) in
  do f <-
    (if Z.of_nat (length set) =? 1 then Ret (mkFilter (mPercentile f) set (begin set) 0 next)
     else
       do at_ <- value_of set (mPercentileIt f);
       Ret (mkFilter (mPercentile f) set (mPercentileIt f) (if value <? at_ then mPercentileIndex f + 1 else mPercentileIndex f) next));
  update_percentile_iterator f.

Definition erase (f : PercentileFilter) (value : Z) : run (PercentileFilter * bool) :=
  let it := lower_bound (mSet f) value in
  do found <- (if bool_decide (it = None) then Ret false else do x <- value_of (mSet f) it; Ret (x =? value));
  if negb found then Ret (f, false)
  else
    do f <-
      (if bool_decide (it = mPercentileIt f) then
         do (set, it) <- set_erase (mSet f) it;
         Ret (mkFilter (mPercentile f) set it (mPercentileIndex f) (next_node f))
       else
         do (set, _) <- set_erase (mSet f) it;
         do at_ <- value_of set (mPercentileIt f);
         Ret (mkFilter (mPercentile f) set (mPercentileIt f) (if value <=? at_ then mPercentileIndex f - 1 else mPercentileIndex f) (next_node f)));
    do f <- update_percentile_iterator f;
    Ret (f, true).

Definition get_percentile_value (f : PercentileFilter) : run Z :=
  if bool_decide (mSet f = []) then Ret 0 else value_of (mSet f) (mPercentileIt f).

Definition reset (f : PercentileFilter) : PercentileFilter := mkFilter (mPercentile f) [] None 0 (next_node f).

(** ** The position *)
Lemma nearest_bounds (m k : Z) : 0 <= k -> m / 2 ^ k <= nearest m k <= m / 2 ^ k + 1.
Proof. intros Hk. unfold nearest. repeat case_match; lia. Qed.

Lemma nearest_le (m k B : Z) : 0 <= k -> m <= B * 2 ^ k -> nearest m k <= B.
Proof.
  intros Hk Hm. pose proof (pow2_pos k Hk) as Hp. pose proof (Z.div_mod m (2 ^ k) ltac:(lia)) as Hd. pose proof (Z.mod_pos_bound m (2 ^ k) Hp) as Hr.
  destruct (Z.eq_dec (m / 2 ^ k) B) as [E|]; [|pose proof (nearest_bounds m k Hk); nia].
  assert (m mod 2 ^ k = 0) as E0 by nia. unfold nearest. rewrite E0, (proj2 (Z.ltb_lt _ _)) by lia. lia.
Qed.

Lemma nearest_exact (m k : Z) : 0 <= k -> nearest (m * 2 ^ k) k = m.
Proof.
  intros Hk. pose proof (pow2_pos k Hk). unfold nearest. rewrite Z.mod_mul, Z.div_mul by lia. by rewrite (proj2 (Z.ltb_lt _ _)) by lia.
Qed.

Lemma nearest_zero (k : Z) : 0 <= k -> nearest 0 k = 0.
Proof. intros Hk. by rewrite <- (nearest_exact 0 k) at 2. Qed.

Lemma of_size_exact (n : Z) : 0 <= n <= 2 ^ 24 -> of_size n = n * 2 ^ 149.
Proof.
  intros Hn. unfold of_size, round. set (e := Z.max 0 _). rewrite Z.add_0_l. destruct (Z.eq_dec n 0) as [->|Hne].
  { change (0 * 2 ^ 149) with 0. rewrite (nearest_zero e); lia. }
  assert (He : 0 <= e <= 149 \/ e = 150 /\ n = 2 ^ 24).
  { subst e. rewrite Z.log2_mul_pow2 by lia. destruct (Z.eq_dec n (2 ^ 24)) as [->|]; [right; by vm_compute|left].
    pose proof (Z.log2_lt_pow2 n 24 ltac:(lia)). lia. }
  destruct He as [He|[-> ->]]; [|by vm_compute].
  replace (n * 2 ^ 149) with (n * 2 ^ (149 - e) * 2 ^ e); [by rewrite nearest_exact by lia|].
  rewrite <- Z.mul_assoc, <- Z.pow_add_r by lia. by replace (149 - e + e) with 149 by lia.
Qed.

Lemma mul_bounds (p n : Z) : 0 <= p <= one -> 0 <= n <= 2 ^ 24 -> 0 <= mul p (n * 2 ^ 149) <= n * 2 ^ 149.
Proof.
  intros Hp Hn. unfold mul, round. set (e := Z.max 0 _). destruct (Z.eq_dec (p * n) 0) as [E0|Hne].
  { rewrite Z.mul_assoc, E0. change (0 * 2 ^ 149) with 0. rewrite (nearest_zero (149 + e)); lia. }
  assert (Hle : p * n <= n * 2 ^ 149) by (unfold one in Hp; nia).
  assert (He : 0 <= e <= 149 \/ e <= 150 /\ n = 2 ^ 24).
  { subst e. rewrite Z.mul_assoc, Z.log2_mul_pow2 by (unfold one in *; nia).
    pose proof (Z.log2_le_mono _ _ Hle) as Hl. rewrite Z.log2_mul_pow2 in Hl by lia.
    destruct (Z.eq_dec n (2 ^ 24)) as [->|]; [right; change (Z.log2 (2 ^ 24)) with 24 in Hl; lia|left].
    pose proof (Z.log2_lt_pow2 n 24 ltac:(lia)). lia. }
  assert (Hpos : 0 <= e) by (subst e; lia). pose proof (pow2_pos e Hpos) as Hpe.
  assert (HB : exists B, n * 2 ^ 149 = B * 2 ^ e).
  { destruct He as [He|[He ->]].
    - exists (n * 2 ^ (149 - e)). rewrite <- Z.mul_assoc, <- Z.pow_add_r by lia. by replace (149 - e + e) with 149 by lia.
    - exists (2 ^ (24 + 149 - e)). rewrite <- !Z.pow_add_r by lia. f_equal. lia. }
  destruct HB as [B HB]. pose proof (nearest_bounds (p * (n * 2 ^ 149)) (149 + e) ltac:(lia)) as Hb.
  assert (0 <= p * (n * 2 ^ 149) / 2 ^ (149 + e)) by (apply Z.div_pos; [unfold one in *; nia|apply pow2_pos; lia]).
  split; [nia|]. rewrite HB. apply Z.mul_le_mono_nonneg_r; [lia|]. apply nearest_le; [lia|].
  assert (HBe : 0 <= B * 2 ^ e) by (rewrite <- HB; lia). rewrite Z.pow_add_r by lia.
  replace (B * (2 ^ 149 * 2 ^ e)) with (2 ^ 149 * (B * 2 ^ e)) by ring. apply Z.mul_le_mono_nonneg_r; [done|]. apply Hp.
Qed.

Lemma index_of_range (p : float) (n : nat) : 0 <= p <= one -> (0 < n)%nat -> Z.of_nat n <= 2 ^ 24 ->
  exists i, index_of p (Z.of_nat n) = Ret (Z.of_nat i) /\ (i < n)%nat.
Proof.
  intros Hp H0 Hn. unfold index_of. rewrite of_size_exact by lia. pose proof (mul_bounds p (Z.of_nat n - 1) Hp ltac:(lia)) as Hm.
  set (x := mul _ _) in *. assert (Hd : 0 <= x / 2 ^ 149 <= Z.of_nat n - 1).
  { split; [apply Z.div_pos; lia|]. apply Z.div_le_upper_bound; lia. }
  unfold to_int64. rewrite (proj2 (Z.ltb_lt _ _)) by lia. exists (Z.to_nat (x / 2 ^ 149)). split; [by rewrite Z2Nat.id by lia|lia].
Qed.

(** ** The multiset *)
Definition values (s : multiset) : list Z := snd <$> s.
Definition sorted (s : multiset) : Prop := StronglySorted Z.le (values s).

Lemma find_node (s : multiset) (i : nat) (n : node) (x : Z) :
  NoDup (fst <$> s) -> s !! i = Some (n, x) -> list_find (fun p => fst p = n) s = Some (i, (n, x)).
Proof.
  intros Hd Hi. apply list_find_Some. split_and!; [done|done|]. intros j [m y] Hj Hlt Hm. cbn in Hm. subst m.
  assert (j = i); [|lia]. apply (NoDup_lookup (fst <$> s) j i n); [done|rewrite list_lookup_fmap, Hj; done|rewrite list_lookup_fmap, Hi; done].
Qed.

Lemma value_of_at (s : multiset) (i : nat) (n : node) (x : Z) : NoDup (fst <$> s) -> s !! i = Some (n, x) -> value_of s (Some n) = Ret x.
Proof. intros Hd Hi. unfold value_of. cbn [deref run_bind]. by rewrite (find_node s i n x). Qed.

(** What is at a position, or the end *)
Definition points (s : multiset) (it : iterator) (i : nat) : Prop := (i <= length s)%nat /\ it = fst <$> s !! i.

Lemma place_at (s : multiset) (it : iterator) (i : nat) : NoDup (fst <$> s) -> points s it i -> place s it = Ret i.
Proof.
  intros Hd [Hi ->]. unfold place. destruct (s !! i) as [[n x]|] eqn:E; cbn.
  - by rewrite (find_node s i n x).
  - apply lookup_ge_None in E. f_equal. lia.
Qed.

Lemma advance_to (s : multiset) (it : iterator) (i j : nat) :
  NoDup (fst <$> s) -> points s it i -> (j <= length s)%nat -> advance s it (Z.of_nat j - Z.of_nat i) = Ret (fst <$> s !! j).
Proof.
  intros Hd Hp Hj. unfold advance. rewrite (place_at s it i) by done. cbn [run_bind].
  replace (Z.of_nat i + (Z.of_nat j - Z.of_nat i)) with (Z.of_nat j) by lia.
  rewrite (proj2 (Z.leb_le 0 _)), (proj2 (Z.leb_le _ _)) by lia. cbn [andb]. by rewrite Nat2Z.id.
Qed.

Lemma set_insert_split (s : multiset) (n : node) (x : Z) : sorted s ->
  exists s1 s2, s = s1 ++ s2 /\ set_insert s n x = s1 ++ (n, x) :: s2 /\ Forall (fun p => snd p <= x) s1 /\ Forall (fun p => x < snd p) s2.
Proof.
  unfold sorted, values. induction s as [|[m y] s IH]; intros Hs; [by exists [], []|]. cbn in Hs. apply StronglySorted_inv in Hs as [Hs Hy].
  cbn [set_insert]. destruct (x <? y) eqn:E; zbool.
  - exists [], ((m, y) :: s). split_and!; [done|done|done|]. constructor; [done|]. rewrite Forall_fmap in Hy.
    eapply Forall_impl; [exact Hy|]. intros p Hp. cbn in *. lia.
  - destruct (IH Hs) as (s1 & s2 & -> & E2 & H1 & H2). exists ((m, y) :: s1), s2. rewrite E2. split_and!; [done|done|by constructor|done].
Qed.

Lemma lower_bound_split (s : multiset) (x : Z) : sorted s ->
  exists s1 s2, s = s1 ++ s2 /\ lower_bound s x = begin s2 /\ Forall (fun p => snd p < x) s1 /\ Forall (fun p => x <= snd p) s2.
Proof.
  unfold sorted, values. induction s as [|[m y] s IH]; intros Hs; [by exists [], []|]. cbn in Hs. apply StronglySorted_inv in Hs as [Hs Hy].
  cbn [lower_bound]. destruct (y <? x) eqn:E; zbool.
  - destruct (IH Hs) as (s1 & s2 & -> & E2 & H1 & H2). exists ((m, y) :: s1), s2. split_and!; [done|done|by constructor|done].
  - exists [], ((m, y) :: s). split_and!; [done|done|done|]. constructor; [done|]. rewrite Forall_fmap in Hy.
    eapply Forall_impl; [exact Hy|]. intros p Hp. cbn in *. lia.
Qed.

Lemma sorted_app (s1 s2 : multiset) : sorted (s1 ++ s2) <->
  sorted s1 /\ sorted s2 /\ forall p q, p ∈ s1 -> q ∈ s2 -> snd p <= snd q.
Proof.
  unfold sorted, values. induction s1 as [|p s1 IH]; cbn.
  - split; [intros H; split_and!; [constructor|done|intros ? ? H'; by apply elem_of_nil in H']|by intros (_ & ? & _)].
  - split.
    + intros [H Hf]%StronglySorted_inv. apply IH in H as (H1 & H2 & H3). rewrite fmap_app, Forall_app, !Forall_fmap in Hf. destruct Hf as [Hf1 Hf2].
      split_and!; [by constructor; [|rewrite Forall_fmap]|done|]. intros u v [->|Hu]%elem_of_cons Hv; [|by apply H3].
      rewrite Forall_forall in Hf2. exact (Hf2 v Hv).
    + intros (H1 & H2 & H3). apply StronglySorted_inv in H1 as [H1 Hf]. constructor.
      * apply IH. split_and!; [done|done|]. intros u v Hu. apply H3. by right.
      * rewrite fmap_app, Forall_app. split; [done|]. rewrite Forall_fmap, Forall_forall. intros v Hv. apply H3; [by left|done].
Qed.

(** ** The filter *)
Record filter_ok (f : PercentileFilter) : Prop := {
  f_percentile : 0 <= mPercentile f <= one;
  f_nodes : NoDup (fst <$> mSet f);
  f_fresh : Forall (fun p => (fst p < next_node f)%positive) (mSet f);
  f_sorted : sorted (mSet f);
  f_index : mSet f <> [] -> exists i, mPercentileIndex f = Z.of_nat i /\ index_of (mPercentile f) (Z.of_nat (length (mSet f))) = Ret (Z.of_nat i) /\
    (i < length (mSet f))%nat /\ points (mSet f) (mPercentileIt f) i
}.

Lemma update_ok (f : PercentileFilter) (i : nat) :
  0 <= mPercentile f <= one -> NoDup (fst <$> mSet f) -> Forall (fun p => (fst p < next_node f)%positive) (mSet f) -> sorted (mSet f) ->
  (mSet f <> [] -> mPercentileIndex f = Z.of_nat i /\ points (mSet f) (mPercentileIt f) i) -> Z.of_nat (length (mSet f)) <= 2 ^ 24 ->
  exists f', update_percentile_iterator f = Ret f' /\ filter_ok f' /\ mSet f' = mSet f /\ mPercentile f' = mPercentile f.
Proof.
  intros Hp Hd Hn Hs Hi Hl. unfold update_percentile_iterator. case_bool_decide as He.
  - exists f. split_and!; [done|by split|done|done].
  - destruct (Hi He) as [Ei Hpt]. assert (H0 : (0 < length (mSet f))%nat) by (by destruct (mSet f); [|cbn; lia]).
    destruct (index_of_range (mPercentile f) (length (mSet f)) Hp H0 Hl) as (j & Ej & Hj). rewrite Ej. cbn [run_bind].
    rewrite Ei, (advance_to _ _ i j) by (done || lia). cbn [run_bind]. eexists. split_and!; [done| |done|done].
    split; cbn; try done. intros _. exists j. split_and!; [done|done|done|]. split; [lia|done].
Qed.

Lemma insert_ok (f : PercentileFilter) (x : Z) : filter_ok f -> Z.of_nat (length (mSet f)) < 2 ^ 24 ->
  exists f', insert f x = Ret f' /\ filter_ok f' /\ values (mSet f') ≡ₚ x :: values (mSet f) /\ mPercentile f' = mPercentile f.
Proof.
  intros [Hp Hd Hn Hs Hi] Hl. destruct (set_insert_split (mSet f) (next_node f) x Hs) as (s1 & s2 & Es & Ei & H1 & H2).
  assert (Hperm : set_insert (mSet f) (next_node f) x ≡ₚ (next_node f, x) :: mSet f) by (rewrite Ei, Es; by rewrite Permutation_middle).
  assert (Hd' : NoDup (fst <$> set_insert (mSet f) (next_node f) x)).
  { rewrite Hperm. cbn. constructor; [|done]. intros (p & E & Hin)%list_elem_of_fmap. rewrite Forall_forall in Hn. specialize (Hn p Hin). cbn in Hn. rewrite E in Hn. by apply Pos.lt_irrefl in Hn. }
  assert (Hn' : Forall (fun p => (fst p < Pos.succ (next_node f))%positive) (set_insert (mSet f) (next_node f) x)).
  { rewrite Hperm. constructor; [cbn; lia|]. eapply Forall_impl; [exact Hn|]. intros p Hlt. cbn in *. lia. }
  assert (Hs' : sorted (set_insert (mSet f) (next_node f) x)).
  { rewrite Ei. rewrite Es in Hs. apply sorted_app in Hs as (Hs1 & Hs2 & Hs3). apply sorted_app. split_and!; [done| |].
    - unfold sorted, values in *. cbn. constructor; [done|]. rewrite Forall_fmap. eapply Forall_impl; [exact H2|]. intros p Hlt. cbn in *. lia.
    - intros p q Hpin [->|Hq]%elem_of_cons; [by rewrite Forall_forall in H1; apply H1|by apply Hs3]. }
  assert (Hlen : length (set_insert (mSet f) (next_node f) x) = S (length (mSet f))) by (rewrite Hperm; done).
  assert (Hv : values (set_insert (mSet f) (next_node f) x) ≡ₚ x :: values (mSet f)) by (unfold values; rewrite Hperm; done).
  unfold insert. destruct (Z.of_nat (length (set_insert (mSet f) (next_node f) x)) =? 1) eqn:E1; zbool; cbn [run_bind].
  - edestruct (update_ok (mkFilter (mPercentile f) (set_insert (mSet f) (next_node f) x) (begin (set_insert (mSet f) (next_node f) x)) 0
      (Pos.succ (next_node f))) 0) as (f' & E & Hok & Eset & Ep); cbn; try done; [|lia|].
    + intros _. split; [done|]. split; [lia|]. by destruct (set_insert _ _ _).
    + exists f'. rewrite E, Eset. by split_and!.
  - assert (Hne : mSet f <> []) by (intros E; rewrite E in *; cbn in *; lia). destruct (Hi Hne) as (i & Eix & _ & Hlt & Hpt & Eit).
    destruct (lookup_lt_is_Some_2 (mSet f) i Hlt) as [[m y] Em]. rewrite Em in Eit. cbn in Eit.
    assert (Hat : exists j, set_insert (mSet f) (next_node f) x !! j = Some (m, y) /\ (if x <? y then Z.of_nat i + 1 else Z.of_nat i) = Z.of_nat j).
    { rewrite Es in Em. rewrite Ei. apply lookup_app_Some in Em as [Em|[Hge Em]].
      - rewrite Forall_lookup in H1. specialize (H1 i _ Em). cbn in H1. rewrite (proj2 (Z.ltb_ge _ _)) by lia. exists i. split; [|done].
        by apply lookup_app_l_Some.
      - rewrite Forall_lookup in H2. specialize (H2 _ _ Em). cbn in H2. rewrite (proj2 (Z.ltb_lt _ _)) by lia. exists (S i). split; [|lia].
        rewrite lookup_app_r by lia. by replace (S i - length s1)%nat with (S (i - length s1)) by lia. }
    destruct Hat as (j & Ej & Ejz). rewrite Eit, (value_of_at _ j m y) by done. cbn [run_bind]. rewrite Eix, Ejz.
    edestruct (update_ok (mkFilter (mPercentile f) (set_insert (mSet f) (next_node f) x) (Some m) (Z.of_nat j) (Pos.succ (next_node f))) j)
      as (f' & E & Hok & Eset & Ep); cbn; try done; [|lia|].
    + intros _. split; [done|]. split; [by apply lookup_lt_Some in Ej; lia|by rewrite Ej].
    + exists f'. rewrite E, Eset. by split_and!.
Qed.

Lemma set_erase_middle (s1 s3 : multiset) (m : node) (x : Z) : NoDup (fst <$> (s1 ++ (m, x) :: s3)) ->
  set_erase (s1 ++ (m, x) :: s3) (Some m) = Ret (s1 ++ s3, begin s3).
Proof.
  intros Hd. unfold set_erase. cbn [deref run_bind]. rewrite (find_node _ (length s1) m x) by (done || by apply list_lookup_middle).
  cbn [deref run_bind fst]. rewrite take_app_length. change ((m, x) :: s3) with ([(m, x)] ++ s3). rewrite (assoc_L (++)).
  rewrite drop_app_length' by (rewrite length_app; cbn; lia). done.
Qed.

Lemma begin_app (s1 s2 : multiset) : begin s2 = fst <$> (s1 ++ s2) !! length s1.
Proof. rewrite lookup_app_r by lia. rewrite Nat.sub_diag. by destruct s2. Qed.

Lemma erase_ok (f : PercentileFilter) (x : Z) : filter_ok f -> Z.of_nat (length (mSet f)) <= 2 ^ 24 ->
  exists f' r, erase f x = Ret (f', r) /\ filter_ok f' /\ mPercentile f' = mPercentile f /\
    (r = true /\ values (mSet f) ≡ₚ x :: values (mSet f') \/ r = false /\ x ∉ values (mSet f) /\ f' = f).
Proof.
  intros Hok Hl. pose proof Hok as [Hp Hd Hn Hs Hi]. unfold erase. destruct (lower_bound_split (mSet f) x Hs) as (s1 & s2 & Es & -> & H1 & H2).
  assert (Hout : forall p, p ∈ s1 -> snd p <> x) by (intros p Hin E; rewrite Forall_forall in H1; specialize (H1 p Hin); lia).
  assert (Habsent : Forall (fun p => x < snd p) s2 -> x ∉ values (mSet f)).
  { intros Hgt. rewrite Es. unfold values. rewrite fmap_app. intros [(p & E & Hin)%list_elem_of_fmap|(p & E & Hin)%list_elem_of_fmap]%elem_of_app.
    - by apply (Hout p Hin).
    - rewrite Forall_forall in Hgt. specialize (Hgt p Hin). lia. }
  destruct s2 as [|[m y] s3].
  { cbn [begin head fmap option_fmap option_map]. rewrite bool_decide_true by done. cbn. exists f, false. split_and!; [done|done|done|right].
    split_and!; [done|by apply Habsent|done]. }
  change (begin ((m, y) :: s3)) with (Some m). rewrite bool_decide_false by done.
  assert (Em : mSet f !! length s1 = Some (m, y)) by (rewrite Es; by apply list_lookup_middle).
  rewrite (value_of_at _ _ _ _ Hd Em). cbn [run_bind]. destruct (y =? x) eqn:Ey; zbool; cbn [negb].
  2:{ exists f, false. split_and!; [done|done|done|right]. split_and!; [done| |done]. apply Habsent. inversion H2 as [|? ? Hy H3]; subst. cbn in Hy.
      assert (Hlt : x < y) by lia. constructor; [done|]. rewrite Es in Hs. apply sorted_app in Hs as (_ & Hs2 & _). unfold sorted, values in Hs2. cbn in Hs2.
      apply StronglySorted_inv in Hs2 as [_ Hall]. rewrite Forall_fmap in Hall. eapply Forall_impl; [exact Hall|]. intros p Hle. cbn in *. lia. }
  subst y. rewrite Es in Hd. pose proof (set_erase_middle s1 s3 m x Hd) as Ee. rewrite <- Es in Hd, Ee. rewrite Ee. cbn [run_bind].
  assert (Hperm : mSet f ≡ₚ (m, x) :: s1 ++ s3) by (rewrite Es; by rewrite Permutation_middle).
  assert (Hd' : NoDup (fst <$> (s1 ++ s3))) by (rewrite Hperm in Hd; by apply NoDup_cons in Hd as [_ ?]).
  assert (Hn' : Forall (fun p => (fst p < next_node f)%positive) (s1 ++ s3)) by (rewrite Hperm in Hn; by inversion Hn).
  assert (Hs' : sorted (s1 ++ s3)).
  { rewrite Es in Hs. apply sorted_app in Hs as (Hs1 & Hs2 & Hs3). apply sorted_app. split_and!; [done|by apply StronglySorted_inv in Hs2 as [? _]|].
    intros p q Hpin Hqin. apply Hs3; [done|by right]. }
  assert (Hlen : length (mSet f) = S (length (s1 ++ s3))) by (rewrite Hperm; done).
  assert (Hv : values (mSet f) ≡ₚ x :: values (s1 ++ s3)) by (unfold values; rewrite Hperm; done).
  destruct (Hi ltac:(by rewrite Es; destruct s1)) as (i & Eix & _ & Hlt & Hpt & Eit).
  destruct (lookup_lt_is_Some_2 (mSet f) i Hlt) as [[n z] En]. rewrite En in Eit. cbn in Eit. rewrite Eit.
  assert (Hsame : m = n <-> i = length s1).
  { split; [intros ->|intros ->; congruence]. apply (NoDup_lookup (fst <$> mSet f) i (length s1) n); [done|by rewrite list_lookup_fmap, En|by rewrite list_lookup_fmap, Em]. }
  case_bool_decide as Hcase.
  - injection Hcase as Hmn. apply Hsame in Hmn as Hil. cbn [run_bind].
    edestruct (update_ok (mkFilter (mPercentile f) (s1 ++ s3) (begin s3) (mPercentileIndex f) (next_node f)) i) as (f' & E & Hok' & Eset & Ep);
      cbn; try done; [|lia|].
    + intros _. split; [done|]. subst i. split; [rewrite length_app; lia|apply begin_app].
    + rewrite E. cbn [run_bind]. exists f', true. split_and!; [done|done|done|left]. by rewrite Eset.
  - assert (Hil : i <> length s1) by (intros Hil%Hsame; congruence). cbn [run_bind].
    assert (Hat : exists j, (s1 ++ s3) !! j = Some (n, z) /\ (if x <=? z then Z.of_nat i - 1 else Z.of_nat i) = Z.of_nat j).
    { rewrite Es in En. apply lookup_app_Some in En as [En|[Hge En]].
      - rewrite Forall_lookup in H1. specialize (H1 i _ En). cbn in H1. rewrite (proj2 (Z.leb_gt _ _)) by lia. exists i. split; [|done].
        by apply lookup_app_l_Some.
      - rewrite Forall_lookup in H2. specialize (H2 _ _ En). cbn in H2. rewrite (proj2 (Z.leb_le _ _)) by lia. exists (i - 1)%nat. split; [|lia].
        rewrite lookup_app_r by lia. replace (i - length s1)%nat with (S (i - 1 - length s1)) in En by lia. done. }
    destruct Hat as (j & Ej & Ejz). rewrite (value_of_at _ j n z) by done. cbn [run_bind]. rewrite Eix, Ejz.
    edestruct (update_ok (mkFilter (mPercentile f) (s1 ++ s3) (Some n) (Z.of_nat j) (next_node f)) j) as (f' & E & Hok' & Eset & Ep);
      cbn; try done; [|lia|].
    + intros _. split; [done|]. split; [by apply lookup_lt_Some in Ej; lia|by rewrite Ej].
    + rewrite E. cbn [run_bind]. exists f', true. split_and!; [done|done|done|left]. by rewrite Eset.
Qed.

(** ** Histories, against the plain list of observations *)
Inductive filter_op := Insert (x : Z) | Erase (x : Z) | Reset.

Definition perform (f : PercentileFilter) (o : filter_op) : run (PercentileFilter * bool) :=
  match o with
  | Insert x => do f <- insert f x; Ret (f, true)
  | Erase x => erase f x
  | Reset => Ret (reset f, true)
  end.
Fixpoint perform_all (f : PercentileFilter) (ops : list filter_op) : run (PercentileFilter * list bool) :=
  match ops with
  | [] => Ret (f, [])
  | o :: ops => do (f, r) <- perform f o; do (f, rs) <- perform_all f ops; Ret (f, r :: rs)
  end.

(** The reference: observations in any order; the percentile is the element at its position
    after sorting. *)
Fixpoint remove_one (x : Z) (l : list Z) : list Z :=
  match l with [] => [] | y :: l => if decide (y = x) then l else y :: remove_one x l end.
Definition observe (l : list Z) (o : filter_op) : list Z * bool :=
  match o with
  | Insert x => (x :: l, true)
  | Erase x => (remove_one x l, bool_decide (x ∈ l))
  | Reset => ([], true)
  end.
Fixpoint observe_all (l : list Z) (ops : list filter_op) : list Z * list bool :=
  match ops with
  | [] => (l, [])
  | o :: ops => let '(l, r) := observe l o in let '(l, rs) := observe_all l ops in (l, r :: rs)
  end.
Definition percentile (p : float) (l : list Z) : run Z :=
  match l with
  | [] => Ret 0
  | _ => do i <- index_of p (Z.of_nat (length l)); deref (merge_sort Z.le l !! Z.to_nat i)
  end.

(** No more than [2^24] observations at a time *)
Fixpoint few (l : list Z) (ops : list filter_op) : Prop :=
  Z.of_nat (length l) <= 2 ^ 24 /\ match ops with [] => True | o :: ops => few (fst (observe l o)) ops end.

Lemma remove_one_in (x : Z) (l : list Z) : x ∈ l -> l ≡ₚ x :: remove_one x l.
Proof.
  induction l as [|y l IH]; [by intros ?%elem_of_nil|]. intros [->|Hin]%elem_of_cons; cbn.
  - by rewrite decide_True.
  - case_decide; [by subst|]. rewrite (IH Hin) at 1. apply Permutation_swap.
Qed.

Lemma remove_one_out (x : Z) (l : list Z) : x ∉ l -> remove_one x l = l.
Proof. induction l as [|y l IH]; [done|]. intros [Hne Hin]%not_elem_of_cons. cbn. rewrite decide_False by done. by rewrite IH. Qed.

Lemma sorted_merge_sort (s : multiset) (l : list Z) : sorted s -> values s ≡ₚ l -> merge_sort Z.le l = values s.
Proof.
  intros Hs Hp. eapply (StronglySorted_unique Z.le); [apply StronglySorted_merge_sort; apply _|done|]. by rewrite merge_sort_Permutation.
Qed.

Lemma value_ok (f : PercentileFilter) (l : list Z) : filter_ok f -> values (mSet f) ≡ₚ l -> get_percentile_value f = percentile (mPercentile f) l.
Proof.
  intros [Hp Hd Hn Hs Hi] Hv. unfold get_percentile_value, percentile. case_bool_decide as He.
  - rewrite He in Hv. by apply Permutation_nil in Hv as ->.
  - destruct l as [|y l']; [apply Permutation_sym, Permutation_nil in Hv; by destruct (mSet f)|]. set (l := y :: l') in *.
    assert (El : length l = length (mSet f)) by (rewrite <- Hv; unfold values; by rewrite length_fmap).
    destruct (Hi He) as (i & Eix & Ei & Hlt & Hpt & Eit). rewrite El, Ei. cbn [run_bind]. rewrite Nat2Z.id, (sorted_merge_sort (mSet f) l) by done.
    destruct (lookup_lt_is_Some_2 (mSet f) i Hlt) as [[n z] En]. rewrite Eit, En. change (fst <$> Some (n, z)) with (Some n). rewrite (value_of_at _ i n z) by done.
    unfold values. by rewrite list_lookup_fmap, En.
Qed.

Lemma perform_ok (f : PercentileFilter) (l : list Z) (o : filter_op) :
  filter_ok f -> values (mSet f) ≡ₚ l -> few l [o] ->
  exists f', perform f o = Ret (f', snd (observe l o)) /\ filter_ok f' /\ values (mSet f') ≡ₚ fst (observe l o) /\ mPercentile f' = mPercentile f.
Proof.
  intros Hok Hv [Hl [Hl' _]]. assert (El : length l = length (mSet f)) by (rewrite <- Hv; unfold values; by rewrite length_fmap).
  destruct o as [x|x|]; cbn [perform observe fst snd] in *.
  - destruct (insert_ok f x Hok) as (f' & E & Hok' & Hv' & Ep); [cbn in Hl'; lia|]. rewrite E. exists f'. split_and!; [done|done|by rewrite Hv', Hv|done].
  - destruct (erase_ok f x Hok) as (f' & r & E & Hok' & Ep & [[-> Hv']|(-> & Hout & ->)]); [lia| |]; rewrite E.
    + assert (Hin : x ∈ l) by (rewrite <- Hv, Hv'; by left). rewrite bool_decide_true by done. exists f'. split_and!; [done|done| |done].
      apply (Permutation_cons_inv (a := x)). by rewrite <- Hv', Hv, <- remove_one_in.
    + rewrite Hv in Hout. rewrite bool_decide_false by done. exists f. split_and!; [done|done| |done]. by rewrite remove_one_out.
  - exists (reset f). split_and!; [done| |done|done]. destruct Hok. split; try done; constructor.
Qed.

Lemma perform_all_ok (ops : list filter_op) (f : PercentileFilter) (l : list Z) :
  filter_ok f -> values (mSet f) ≡ₚ l -> few l ops ->
  exists f', perform_all f ops = Ret (f', snd (observe_all l ops)) /\ filter_ok f' /\ values (mSet f') ≡ₚ fst (observe_all l ops) /\
    mPercentile f' = mPercentile f.
Proof.
  revert f l. induction ops as [|o ops IH]; intros f l Hok Hv Hf; [by exists f|]. destruct Hf as [Hl Hf]. cbn [perform_all observe_all].
  destruct (perform_ok f l o Hok Hv) as (f1 & E1 & Hok1 & Hv1 & Ep1); [split; [done|]; destruct ops; cbn in Hf |- *; by destruct Hf|].
  rewrite E1. cbn [run_bind]. destruct (observe l o) as [l1 r]. cbn [fst snd] in *.
  destruct (IH f1 l1 Hok1 Hv1 Hf) as (f2 & E2 & Hok2 & Hv2 & Ep2). rewrite E2. cbn [run_bind]. destruct (observe_all l1 ops) as [l2 rs]. cbn [fst snd] in *.
  exists f2. split_and!; [done|done|done|congruence].
Qed.

(** C37: Equivalence: whatever is inserted, erased and reset, as long as the filter never has more
    observations than [2 ^ 24], up to which a [float] counts exactly, it answers what sorting
    the observations answers; no iterator is dereferenced or advanced where it may not be. *)
Theorem percentile_filter_correct (p : float) (ops : list filter_op) : 0 <= p <= one -> few [] ops ->
  exists f0 f, new_filter p = Ret f0 /\ perform_all f0 ops = Ret (f, snd (observe_all [] ops)) /\
    get_percentile_value f = percentile p (fst (observe_all [] ops)) /\ get_percentile_value f <> Undef.
Proof.
  intros Hp Hf. unfold new_filter. rewrite (proj2 (Z.leb_le 0 p)), (proj2 (Z.leb_le p one)) by lia. cbn [check run_bind].
  set (f0 := mkFilter p [] None 0 1%positive). assert (H0 : filter_ok f0) by (split; try done; constructor).
  destruct (perform_all_ok ops f0 [] H0 (Permutation_refl _) Hf) as (f & E & Hok & Hv & Ep). exists f0, f. split_and!; [done|done| |].
  - by rewrite (value_ok f _ Hok Hv), Ep.
  - destruct Hok as [_ Hd _ _ Hi]. unfold get_percentile_value. case_bool_decide as He; [done|]. destruct (Hi He) as (i & _ & _ & Hlt & _ & ->).
    destruct (lookup_lt_is_Some_2 (mSet f) i Hlt) as [[n z] En]. rewrite En. change (fst <$> Some (n, z)) with (Some n). by rewrite (value_of_at _ i n z).
Qed.

(** ** What does not hold *)

(** With more than [2^24] observations the position is rounded, and the last one may become
    the end of the set. *)
Theorem top_percentile_dangles (f : PercentileFilter) (i : nat) :
  mPercentile f = one -> Z.of_nat (length (mSet f)) = 16777220 -> NoDup (fst <$> mSet f) ->
  mPercentileIndex f = Z.of_nat i -> points (mSet f) (mPercentileIt f) i ->
  exists f', update_percentile_iterator f = Ret f' /\ get_percentile_value f' = Undef.
Proof.
  intros Hp Hl Hd Hi Hpt. assert (Hne : mSet f <> []) by (intros E; rewrite E in Hl; done). unfold update_percentile_iterator.
  rewrite bool_decide_false by done. rewrite Hp, Hl. change (index_of one 16777220) with (@Ret Z 16777220). cbn [run_bind]. rewrite <- Hl, Hi.
  rewrite (advance_to _ _ i (length (mSet f))) by done. cbn [run_bind]. eexists. split; [done|]. unfold get_percentile_value. cbn [mSet mPercentileIt].
  rewrite bool_decide_false by done. by rewrite lookup_ge_None_2.
Qed.

(** ** Instances *)
Definition median : float := 2 ^ 148.
Definition filter_ops : list filter_op := [Insert 5; Insert 1; Insert 9; Insert 5; Erase 5; Erase 7; Insert 2; Insert 8].

Lemma percentile_filter_correct_witness : exists f0 f, new_filter median = Ret f0 /\
  perform_all f0 filter_ops = Ret (f, snd (observe_all [] filter_ops)) /\
  get_percentile_value f = percentile median (fst (observe_all [] filter_ops)) /\ get_percentile_value f <> Undef.
Proof. apply percentile_filter_correct; [by vm_compute|]. vm_compute. repeat split; discriminate. Defined.

Example filter_median : percentile median (fst (observe_all [] filter_ops)) = Ret 5 /\
  snd (observe_all [] filter_ops) = [true; true; true; true; true; false; true; true].
Proof. by vm_compute. Qed.
