(* ===== verification/DateTime.v ===== *)
(** * Calendar time

    Models [DateTime::tm_to_seconds] of [src/cxxkit/time/date_time.cpp]. The reference is the
    calendar itself: days are counted month by month and year by year, and a second is
    followed by the next one. The fields are 32-bit; a sum of them that does not fit is
    undefined. *)

From stdpp Require Import prelude list.
From Stdlib Require Import ZArith Lia.
From S2P Require Import Prelude.

#[local] Open Scope Z_scope.
#[local] Open Scope cxx_scope.

Record tm := mkTm { tm_year : Z; tm_mon : Z; tm_mday : Z; tm_hour : Z; tm_min : Z; tm_sec : Z }.
Definition fits (t : tm) : Prop :=
  is_s 32 (tm_year t) /\ is_s 32 (tm_mon t) /\ is_s 32 (tm_mday t) /\ is_s 32 (tm_hour t) /\ is_s 32 (tm_min t) /\ is_s 32 (tm_sec t).

(** A result of [int] arithmetic *)
Definition int (z : Z) : run Z := if (- 2 ^ 31 <=? z) && (z <? 2 ^ 31) then Ret z else Undef.

Definition mdays : list Z := [31; 28; 31; 30; 31; 30; 31; 31; 30; 31; 30; 31].
Definition cumul_mdays : list Z := [0; 31; 59; 90; 120; 151; 181; 212; 243; 273; 304; 334].

Definition is_leap (year : Z) : bool :=
  (Z.rem year 4 =? 0) && (negb (Z.rem year 100 =? 0) || (Z.rem year 400 =? 0)).

Definition tm_to_seconds (t : tm) : run Z :=
  do year <- int (tm_year t + 1900);
  let month := tm_mon t in
  do day <- int (tm_mday t - 1);
  let expiry_in_leap_year := is_leap year in
  if year <? 1970 then Ret (-1)
  else if (month <? 0) || (11 <? month) then Ret (-1)
  else
    do md <- deref (mdays !! Z.to_nat month);
    if (day <? 0) || (md + (if expiry_in_leap_year && (month =? 2 - 1) then 1 else 0) <=? day) then Ret (-1)
    else if (tm_hour t <? 0) || (23 <? tm_hour t) then Ret (-1)
    else if (tm_min t <? 0) || (59 <? tm_min t) then Ret (-1)
    else if (tm_sec t <? 0) || (59 <? tm_sec t) then Ret (-1)
    else
      do cd <- deref (cumul_mdays !! Z.to_nat month);
      do day <- int (day + cd);
      do leap_days <- int ((Z.quot year 4 - Z.quot 1970 4) - (Z.quot year 100 - Z.quot 1970 100) + (Z.quot year 400 - Z.quot 1970 400));
      do day <- int (day + leap_days);
      do day <- (if expiry_in_leap_year && (month <=? 2 - 1) then int (day - 1) else Ret day);
      Ret ((((((year - 1970) * 365 + day) * 24 + tm_hour t) * 60 + tm_min t) * 60) + tm_sec t).

(** ** The calendar *)
Definition leap (year : Z) : bool := (year mod 4 =? 0) && (negb (year mod 100 =? 0) || (year mod 400 =? 0)).
Definition year_length (year : Z) : Z := if leap year then 366 else 365.
Definition month_length (year month : Z) : Z :=
  match month with
  | 1 => if leap year then 29 else 28
  | 3 | 5 | 8 | 10 => 30
  | _ => 31
  end.

(** Days before a year and, within a year, before a month *)
Fixpoint days_before_year (n : nat) : Z :=
  match n with O => 0 | S n => days_before_year n + year_length (1970 + Z.of_nat n) end.
Fixpoint days_before_month (year : Z) (m : nat) : Z :=
  match m with O => 0 | S m => days_before_month year m + month_length year (Z.of_nat m) end.

Definition valid (t : tm) : Prop :=
  1970 <= tm_year t + 1900 /\ 0 <= tm_mon t < 12 /\ 1 <= tm_mday t <= month_length (tm_year t + 1900) (tm_mon t) /\
  0 <= tm_hour t < 24 /\ 0 <= tm_min t < 60 /\ 0 <= tm_sec t < 60.
#[export] Instance valid_dec (t : tm) : Decision (valid t).
Proof. unfold valid. apply _. Defined.

Definition days (t : tm) : Z :=
  days_before_year (Z.to_nat (tm_year t + 1900 - 1970)) + days_before_month (tm_year t + 1900) (Z.to_nat (tm_mon t)) + (tm_mday t - 1).
Definition seconds (t : tm) : Z := ((days t * 24 + tm_hour t) * 60 + tm_min t) * 60 + tm_sec t.

(** The next second *)
Definition next (t : tm) : tm :=
  if tm_sec t <? 59 then mkTm (tm_year t) (tm_mon t) (tm_mday t) (tm_hour t) (tm_min t) (tm_sec t + 1)
  else if tm_min t <? 59 then mkTm (tm_year t) (tm_mon t) (tm_mday t) (tm_hour t) (tm_min t + 1) 0
  else if tm_hour t <? 23 then mkTm (tm_year t) (tm_mon t) (tm_mday t) (tm_hour t + 1) 0 0
  else if tm_mday t <? month_length (tm_year t + 1900) (tm_mon t) then mkTm (tm_year t) (tm_mon t) (tm_mday t + 1) 0 0 0
  else if tm_mon t <? 11 then mkTm (tm_year t) (tm_mon t + 1) 1 0 0 0
  else mkTm (tm_year t + 1) 0 1 0 0 0.

(** ** The code against the calendar *)
Lemma leap_eq (year : Z) : 0 <= year -> is_leap year = leap year.
Proof. intros H. unfold is_leap, leap. by rewrite !Z.rem_mod_nonneg by lia. Qed.

(** Leap years up to and including one *)
Definition leaps (year : Z) : Z := year / 4 - year / 100 + year / 400.

Lemma leaps_step (year : Z) : leaps (year + 1) = leaps year + if leap (year + 1) then 1 else 0.
Proof.
  unfold leaps, leap. destruct ((year + 1) mod 4 =? 0) eqn:E4, ((year + 1) mod 100 =? 0) eqn:E100, ((year + 1) mod 400 =? 0) eqn:E400; zbool; cbn [andb orb negb];
    Z.to_euclidean_division_equations; lia.
Qed.

Lemma days_before_year_eq (n : nat) : days_before_year n = 365 * Z.of_nat n + (leaps (1970 + Z.of_nat n - 1) - leaps 1969).
Proof.
  induction n as [|n IH]; [done|]. cbn [days_before_year]. rewrite IH. pose proof (leaps_step (1970 + Z.of_nat n - 1)) as Hs.
  replace (1970 + Z.of_nat n - 1 + 1) with (1970 + Z.of_nat n) in Hs by lia. replace (1970 + Z.of_nat (S n) - 1) with (1970 + Z.of_nat n) by lia.
  unfold year_length. destruct (leap _); lia.
Qed.

Lemma below_12 (m : Z) : 0 <= m < 12 -> In m [0; 1; 2; 3; 4; 5; 6; 7; 8; 9; 10; 11].
Proof. intros H. cbn. lia. Qed.

Ltac each_month H := let Hm := fresh in pose proof (below_12 _ H) as Hm; cbn in Hm; repeat (destruct Hm as [<-|Hm]); [..|done].

Lemma month_tables (year m : Z) : 0 <= m < 12 ->
  exists md cd, mdays !! Z.to_nat m = Some md /\ cumul_mdays !! Z.to_nat m = Some cd /\ 0 <= cd <= 334 /\
    md + (if leap year && (m =? 2 - 1) then 1 else 0) = month_length year m /\ month_length year m <= 31 /\
    cd + (if leap year && negb (m <=? 2 - 1) then 1 else 0) = days_before_month year (Z.to_nat m).
Proof. 
  intros H. each_month H; do 2 eexists; (split; [reflexivity|]); (split; [reflexivity|]); destruct (leap year) eqn:E; cbv -[leap]; rewrite ?E; by repeat split.
Qed.

Lemma int_ok (z : Z) : - 2 ^ 31 <= z < 2 ^ 31 -> int z = Ret z.
Proof. intros H. unfold int. by rewrite (proj2 (Z.leb_le _ _)), (proj2 (Z.ltb_lt _ _)) by lia. Qed.

(** The seconds of every date that exists from 1970 on; [-1] for every other; undefined only
    when a field overflows. *)
Theorem tm_to_seconds_correct (t : tm) : fits t ->
  tm_to_seconds t = if decide (2 ^ 31 <= tm_year t + 1900 \/ tm_mday t = - 2 ^ 31) then Undef
                    else if decide (valid t) then Ret (seconds t) else Ret (-1).
Proof.
  destruct t as [y m d h mi s]. unfold fits, is_s, valid, seconds, days. cbn [tm_year tm_mon tm_mday tm_hour tm_min tm_sec].
  intros (Hy & Hm & Hd & Hh & Hmi & Hs). unfold tm_to_seconds. cbn [tm_year tm_mon tm_mday tm_hour tm_min tm_sec].
  case_decide as Ho.
  { destruct Ho as [Ho| ->]; [unfold int; by rewrite (proj2 (Z.ltb_ge _ _)), andb_false_r by lia|].
    unfold int at 1. destruct (_ && _); done. }
  rewrite int_ok by lia. cbn [run_bind]. rewrite int_ok by lia. cbn [run_bind].
  destruct (y + 1900 <? 1970) eqn:E1; zbool; [by rewrite decide_False by lia|].
  destruct ((m <? 0) || (11 <? m)) eqn:E2; [apply orb_true_iff in E2 as [?|?]; zbool; by rewrite decide_False by lia|]. zbool.
  rewrite leap_eq by lia. destruct (month_tables (y + 1900) m ltac:(lia)) as (md & cd & -> & -> & Hcd & Emd & Hml & Ecd). cbn [deref run_bind].
  rewrite Emd. destruct ((d - 1 <? 0) || _) eqn:E3; [apply orb_true_iff in E3 as [?|?]; zbool; by rewrite decide_False by lia|]. zbool.
  destruct ((h <? 0) || _) eqn:E4; [apply orb_true_iff in E4 as [?|?]; zbool; by rewrite decide_False by lia|]. zbool.
  destruct ((mi <? 0) || _) eqn:E5; [apply orb_true_iff in E5 as [?|?]; zbool; by rewrite decide_False by lia|]. zbool.
  destruct ((s <? 0) || _) eqn:E6; [apply orb_true_iff in E6 as [?|?]; zbool; by rewrite decide_False by lia|]. zbool.
  rewrite decide_True by lia. rewrite int_ok by lia. cbn [run_bind]. rewrite !Z.quot_div_nonneg by lia.
  set (n := Z.to_nat (y + 1900 - 1970)). assert (En : y + 1900 = 1970 + Z.of_nat n) by lia.
  assert (El : (y + 1900) / 4 - 1970 / 4 - ((y + 1900) / 100 - 1970 / 100) + ((y + 1900) / 400 - 1970 / 400) = leaps (y + 1900) - leaps 1970) by (unfold leaps; lia).
  rewrite El. assert (Hl : 0 <= leaps (y + 1900) - leaps 1970 < 2 ^ 30).
  { unfold leaps. change (1970 / 4 - 1970 / 100 + 1970 / 400) with 477. Z.to_euclidean_division_equations. lia. }
  rewrite int_ok by lia. cbn [run_bind]. rewrite int_ok by lia. cbn [run_bind].
  rewrite days_before_year_eq, <- Ecd. pose proof (leaps_step (y + 1900 - 1)) as Hst. replace (y + 1900 - 1 + 1) with (y + 1900) in Hst by lia.
  rewrite En in *. change (leaps 1970) with 477 in *. change (leaps 1969) with 477.
  destruct (leap (1970 + Z.of_nat n)), (m <=? 2 - 1) eqn:E7; zbool; cbn [andb negb]; rewrite ?int_ok by lia; cbn [run_bind]; f_equal; lia.
Qed.

Lemma days_before_month_step (year m : Z) : 0 <= m -> days_before_month year (Z.to_nat (m + 1)) = days_before_month year (Z.to_nat m) + month_length year m.
Proof. intros H. replace (Z.to_nat (m + 1)) with (S (Z.to_nat m)) by lia. cbn [days_before_month]. by rewrite Z2Nat.id by lia. Qed.

Lemma year_of_months (year : Z) : days_before_month year 12 = year_length year.
Proof. unfold year_length. cbv -[leap]. by destruct (leap year). Qed.

Lemma month_length_pos (year m : Z) : 28 <= month_length year m.
Proof. unfold month_length. repeat case_match; lia. Qed.

(** The calendar is counted without a gap: the first second of 1970 is 0, and every second is
    followed by the one with the next number. *)
Theorem seconds_count (t : tm) : fits (next t) -> valid t -> - 2 ^ 31 < tm_mday t /\ tm_year (next t) + 1900 < 2 ^ 31 ->
  valid (next t) /\ (do a <- tm_to_seconds t; do b <- tm_to_seconds (next t); Ret (b - a)) = Ret 1 /\ tm_to_seconds (mkTm 70 0 1 0 0 0) = Ret 0.
Proof.
  intros Hf' Hv [Ho Ho']. assert (Hf : fits t /\ valid (next t) /\ seconds (next t) = seconds t + 1).
  { revert Hf' Ho'. destruct t as [y m d h mi s]. unfold next, fits, is_s, valid, seconds, days in *. cbn [tm_year tm_mon tm_mday tm_hour tm_min tm_sec] in *.
    destruct Hv as (Hy & Hm & Hd & Hh & Hmi & Hs). pose proof (month_length_pos (y + 1900) (m + 1)). pose proof (month_length_pos (y + 1 + 1900) 0).
    assert (month_length (y + 1900) m <= 31) by (unfold month_length; repeat case_match; lia).
    repeat (case_test; cbn [tm_year tm_mon tm_mday tm_hour tm_min tm_sec] in *); intros Hf' Ho'; (split; [lia|split; [lia|]]); try lia.
    - assert (mi = 59 /\ s = 59 /\ h = 23 /\ d = month_length (y + 1900) m) as (-> & -> & -> & ->) by lia. rewrite days_before_month_step by lia. lia.
    - assert (mi = 59 /\ s = 59 /\ h = 23 /\ m = 11) as (-> & -> & -> & ->) by lia.
      replace (Z.to_nat (y + 1 + 1900 - 1970)) with (S (Z.to_nat (y + 1900 - 1970))) by lia. cbn [days_before_year].
      rewrite Z2Nat.id by lia. replace (1970 + (y + 1900 - 1970)) with (y + 1900) by lia. rewrite <- year_of_months.
      change 12%nat with (Z.to_nat (11 + 1)). rewrite days_before_month_step by lia. change (days_before_month _ (Z.to_nat 0)) with 0. lia. }
  destruct Hf as (Hf & Hv' & E). split; [done|]. split; [|by vm_compute].
  rewrite !tm_to_seconds_correct by done. rewrite (decide_False (P := 2 ^ 31 <= tm_year t + 1900 \/ _)).
  2:{ intros [H|H]; [|lia]. unfold next in Ho'. repeat case_match; cbn in *; lia. }
  rewrite decide_True by done. rewrite (decide_False (P := 2 ^ 31 <= tm_year (next t) + 1900 \/ _)).
  2:{ intros [H|H]; [lia|]. destruct Hv' as (_ & _ & ? & _). lia. }
  rewrite decide_True by done. cbn [run_bind]. f_equal. lia.
Qed.

(** ** Instances *)
Definition leap_day : tm := mkTm 124 1 29 23 59 59.

Lemma tm_to_seconds_correct_witness : tm_to_seconds leap_day = if decide (2 ^ 31 <= tm_year leap_day + 1900 \/ tm_mday leap_day = - 2 ^ 31) then Undef
  else if decide (valid leap_day) then Ret (seconds leap_day) else Ret (-1).
Proof. apply tm_to_seconds_correct. by vm_compute. Defined.

Example leap_day_seconds : tm_to_seconds leap_day = Ret 1709251199 /\ tm_to_seconds (mkTm 123 1 29 0 0 0) = Ret (-1).
Proof. by vm_compute. Qed.

Lemma seconds_count_witness : valid (next leap_day) /\ (do a <- tm_to_seconds leap_day; do b <- tm_to_seconds (next leap_day); Ret (b - a)) = Ret 1 /\
  tm_to_seconds (mkTm 70 0 1 0 0 0) = Ret 0.
Proof. apply seconds_count; [by vm_compute|by vm_compute|by vm_compute]. Defined.
