(* ===== verification/SocketTypes.v ===== *)
(** * Sockets: states, errors and status codes

    What the sockets share: [src/cxxkit/network/socket_state.hpp], [socket_error.hpp], the
    mapping of transport errors, and the loops in which the backends wait until libuv has
    closed a handle. The values of libuv's codes are a parameter. *)

From stdpp Require Import prelude.
From Stdlib Require Import ZArith Lia.
From S2P Require Import Prelude.

#[local] Open Scope Z_scope.

Inductive SocketState := kIdle | kConnecting | kConnected | kClosing | kClosed | kBound.
#[export] Instance socket_state_eq_dec : EqDecision SocketState. Proof. solve_decision. Defined.

Inductive SocketError :=
  | kNone | kUnknown | kConnectionRefused | kConnectionReset | kTimedOut | kHostUnreachable | kNetworkUnreachable
  | kAddrNotAvailable | kBrokenPipe | kEof | kTlsHandshakeFailed | kTlsCertificateError | kTlsPeerClosed
  | kTlsProtocolError | kMessageTooLarge | kAddressInUse.
#[export] Instance socket_error_eq_dec : EqDecision SocketError. Proof. solve_decision. Defined.

(** The status codes of libuv *)
Record uv_codes := {
  UV_ECONNREFUSED : Z; UV_ECONNRESET : Z; UV_ETIMEDOUT : Z; UV_EHOSTUNREACH : Z; UV_ENETUNREACH : Z; UV_EADDRNOTAVAIL : Z;
  UV_EPIPE : Z; UV_EMSGSIZE : Z; UV_EADDRINUSE : Z; UV_EINVAL : Z; UV_EOF : Z
}.

Definition kBackendEof : Z := -4095.

Definition map_transport_error (uv : uv_codes) (status : Z) : SocketError :=
  if status =? UV_ECONNREFUSED uv then kConnectionRefused
  else if status =? UV_ECONNRESET uv then kConnectionReset
  else if status =? UV_ETIMEDOUT uv then kTimedOut
  else if status =? UV_EHOSTUNREACH uv then kHostUnreachable
  else if status =? UV_ENETUNREACH uv then kNetworkUnreachable
  else if status =? UV_EADDRNOTAVAIL uv then kAddrNotAvailable
  else if status =? UV_EPIPE uv then kBrokenPipe
  else if status =? UV_EMSGSIZE uv then kMessageTooLarge
  else if status =? UV_EADDRINUSE uv then kAddressInUse
  else kUnknown.

(** ** Waiting for a handle to be closed

    A round of [EventLoop::process_events] runs what was posted and delivers what is queued,
    and gets to the dispatcher only when there was neither. [has_posted s round] tells whether
    there was; such work belongs to the rest of the program and does not use the socket [s].
    The dispatcher stops the program when libuv is already running, which [mInProcessEvents]
    tells: when the wait was started from a callback. [uv_run] is what one iteration of libuv
    does to the socket. *)
Section Loop.
Context {T : Type} (mInProcessEvents : bool) (has_posted : T -> nat -> bool) (uv_run : T -> run T) (has_handle : T -> bool).
#[local] Open Scope cxx_scope.

Definition process_events (round : nat) (s : T) : run T := if has_posted s round then Ret s else do _ <- check (negb mInProcessEvents); uv_run s.

(** Up to [more] rounds, the first with the number [round], as long as there is a handle *)
Fixpoint pump_rounds (more round : nat) (s : T) : run T :=
  match more with
  | O => Ret s
  | S more => if has_handle s then do s <- process_events round s; pump_rounds more (S round) s else Ret s
  end.

Lemma pump_closed (more round : nat) (s : T) : has_handle s = false -> pump_rounds more round s = Ret s.
Proof. intros H. destruct more; cbn; [done|]. by rewrite H. Qed.

(** The dispatcher has its turn in the first round that finds nothing posted. *)
Lemma pump_reaches (more round idle : nat) (s : T) : has_handle s = true -> (idle < more)%nat -> has_posted s (round + idle)%nat = false ->
  exists more' round', pump_rounds more round s = (do s' <- (do _ <- check (negb mInProcessEvents); uv_run s); pump_rounds more' round' s').
Proof.
  intros Hh. revert more round. induction idle as [|idle IH]; intros [|more] round Hl Hp; [lia| |lia|]; cbn [pump_rounds]; rewrite Hh; unfold process_events.
  - rewrite Nat.add_0_r in Hp. rewrite Hp. by exists more, (S round).
  - destruct (has_posted s round); [|by exists more, (S round)]. cbn [run_bind]. apply IH; [lia|]. by rewrite Nat.add_succ_comm.
Qed.
End Loop.

(** One of the 1000 rounds finds nothing posted. *)
Definition gets_idle {T : Type} (has_posted : T -> nat -> bool) : Prop := forall s, exists round, (round < 1000)%nat /\ has_posted s round = false.

Lemma pump_once {T : Type} (has_posted : T -> nat -> bool) (uv_run : T -> run T) (has_handle : T -> bool) (s : T) :
  gets_idle has_posted -> has_handle s = true ->
  pump_rounds true has_posted uv_run has_handle 1000 0 s = Fatal /\
  exists more round, pump_rounds false has_posted uv_run has_handle 1000 0 s = run_bind (uv_run s) (pump_rounds false has_posted uv_run has_handle more round).
Proof.
  intros Hi Hh. destruct (Hi s) as (idle & Hl & Hp). split; [|by apply (pump_reaches false has_posted uv_run has_handle 1000 0 idle)].
  by destruct (pump_reaches true has_posted uv_run has_handle 1000 0 idle s) as (m & r & ->).
Qed.
