(* ===== verification/TcpSocket.v ===== *)
(** * TCP sockets

    Models [TcpSocket] of [src/cxxkit/network/tcp_socket.cpp] over the backend of
    [src/cxxkit/network/detail/stream_backend_uv.cpp]. The two keep their own state and call
    each other through stored callables; callbacks of the user run in the middle of an
    operation and may call the socket again. Such a callback is a finite tree of calls, so
    what it does is part of the state. What libuv answers is a parameter; when it calls back
    is up to the environment.

    A callback may make any of the calls of [op], but it does not destroy the socket, although
    the comments of [tcp_socket.hpp] and [tcp_socket.cpp] allow it to: [connect_done],
    [read_event], [begin_close] and [connect] go on using the socket after a callback, so that
    such a program has no defined behaviour to model. Destruction is [destroy], from outside
    of the socket's callbacks. *)

From stdpp Require Import prelude list.
From Stdlib Require Import ZArith Lia.
From S2P Require Import Prelude SocketTypes.

#[local] Open Scope Z_scope.
#[local] Open Scope cxx_scope.

(** ** Callables

    A callback of the user: a name, and the calls of the socket it makes when it runs; the
    destruction of the socket is not among them. [valid] tells whether the address of a connect can be parsed. *)
Inductive op :=
  | Connect (valid : bool) (on_connected : callback)
  | Write (data : list Z) (on_written : callback)
  | ReadStart (on_data : callback)
  | ReadStop
  | Close
  | SetOnError (on_error : option callback)
  | SetOnStateChange (on_state_change : option callback)
with callback := Callback (name : nat) (body : list op).

Definition cb_name (cb : callback) : nat := let 'Callback n _ := cb in n.
Definition cb_body (cb : callback) : list op := let 'Callback _ l := cb in l.

(** What the backend stores: a callback of the user, or a lambda of the socket *)
Inductive closure := User (cb : callback) | ConnectDone | ReadEvent | SocketClosed.

Inductive argument :=
  | Connected (ok : bool)
  | Written (ok : bool)
  | Data (data : list Z) (nread : Z)
  | Entering (state : SocketState)
  | Failing (error : SocketError)
  | NoArgument.

(** What happened: requests accepted, bytes handed to [uv_write], states entered, calls made *)
Inductive event :=
  | Asked (request : argument) (name : nat)
  | Accepted (data : list Z)
  | Submitted (data : list Z)
  | Entered (state : SocketState)
  | Called (name : nat) (arg : argument).

(** ** State *)
Record PendingWrite := mkPending { mData : list Z; mOnWritten : callback }.

(** libuv's view of a handle *)
Record uv_tcp := mkHandle { closing : bool; reading : bool }.

Record UvStreamBackend := mkBackend {
  mNativeStatus : Z;
  mHandle : option uv_tcp;
  mConnectReq : bool;
  mWriteReq : bool;
  bCloseRequested : bool;
  mReadArmed : bool;
  mPendingWrites : list PendingWrite;
  mInFlight : list Z;
  bOnConnect : option closure;
  mOnWrittenCurrent : option callback;
  bOnData : option closure;
  mOnClosed : option closure
}.

Record TcpSocketPrivate := mkPrivate {
  mState : SocketState;
  mCloseRequested : bool;
  mOnConnect : option callback;
  mOnData : option callback;
  mOnError : option callback;
  mOnStateChange : option callback;
  mLastError : SocketError
}.

(** [asked] counts the calls of libuv that have a result. *)
Record sock := mkSock { d : TcpSocketPrivate; b : UvStreamBackend; asked : nat; trace : list event }.

Definition with_d (s : sock) x := mkSock x (b s) (asked s) (trace s).
Definition with_b (s : sock) x := mkSock (d s) x (asked s) (trace s).
Definition record (e : event) (s : sock) := mkSock (d s) (b s) (asked s) (e :: trace s).

Definition with_state (s : sock) x := let p := d s in with_d s (mkPrivate x (mCloseRequested p) (mOnConnect p) (mOnData p) (mOnError p) (mOnStateChange p) (mLastError p)).
Definition with_close_requested (s : sock) x := let p := d s in with_d s (mkPrivate (mState p) x (mOnConnect p) (mOnData p) (mOnError p) (mOnStateChange p) (mLastError p)).
Definition with_on_connect (s : sock) x := let p := d s in with_d s (mkPrivate (mState p) (mCloseRequested p) x (mOnData p) (mOnError p) (mOnStateChange p) (mLastError p)).
Definition with_on_data (s : sock) x := let p := d s in with_d s (mkPrivate (mState p) (mCloseRequested p) (mOnConnect p) x (mOnError p) (mOnStateChange p) (mLastError p)).
Definition with_on_error (s : sock) x := let p := d s in with_d s (mkPrivate (mState p) (mCloseRequested p) (mOnConnect p) (mOnData p) x (mOnStateChange p) (mLastError p)).
Definition with_on_state_change (s : sock) x := let p := d s in with_d s (mkPrivate (mState p) (mCloseRequested p) (mOnConnect p) (mOnData p) (mOnError p) x (mLastError p)).
Definition with_last_error (s : sock) x := let p := d s in with_d s (mkPrivate (mState p) (mCloseRequested p) (mOnConnect p) (mOnData p) (mOnError p) (mOnStateChange p) x).

Definition with_native_status (s : sock) x := let q := b s in with_b s (mkBackend x (mHandle q) (mConnectReq q) (mWriteReq q) (bCloseRequested q) (mReadArmed q) (mPendingWrites q) (mInFlight q) (bOnConnect q) (mOnWrittenCurrent q) (bOnData q) (mOnClosed q)).
Definition with_handle (s : sock) x := let q := b s in with_b s (mkBackend (mNativeStatus q) x (mConnectReq q) (mWriteReq q) (bCloseRequested q) (mReadArmed q) (mPendingWrites q) (mInFlight q) (bOnConnect q) (mOnWrittenCurrent q) (bOnData q) (mOnClosed q)).
Definition with_connect_req (s : sock) x := let q := b s in with_b s (mkBackend (mNativeStatus q) (mHandle q) x (mWriteReq q) (bCloseRequested q) (mReadArmed q) (mPendingWrites q) (mInFlight q) (bOnConnect q) (mOnWrittenCurrent q) (bOnData q) (mOnClosed q)).
Definition with_write_req (s : sock) x := let q := b s in with_b s (mkBackend (mNativeStatus q) (mHandle q) (mConnectReq q) x (bCloseRequested q) (mReadArmed q) (mPendingWrites q) (mInFlight q) (bOnConnect q) (mOnWrittenCurrent q) (bOnData q) (mOnClosed q)).
Definition with_b_close_requested (s : sock) x := let q := b s in with_b s (mkBackend (mNativeStatus q) (mHandle q) (mConnectReq q) (mWriteReq q) x (mReadArmed q) (mPendingWrites q) (mInFlight q) (bOnConnect q) (mOnWrittenCurrent q) (bOnData q) (mOnClosed q)).
Definition with_read_armed (s : sock) x := let q := b s in with_b s (mkBackend (mNativeStatus q) (mHandle q) (mConnectReq q) (mWriteReq q) (bCloseRequested q) x (mPendingWrites q) (mInFlight q) (bOnConnect q) (mOnWrittenCurrent q) (bOnData q) (mOnClosed q)).
Definition with_pending (s : sock) x := let q := b s in with_b s (mkBackend (mNativeStatus q) (mHandle q) (mConnectReq q) (mWriteReq q) (bCloseRequested q) (mReadArmed q) x (mInFlight q) (bOnConnect q) (mOnWrittenCurrent q) (bOnData q) (mOnClosed q)).
Definition with_in_flight (s : sock) x := let q := b s in with_b s (mkBackend (mNativeStatus q) (mHandle q) (mConnectReq q) (mWriteReq q) (bCloseRequested q) (mReadArmed q) (mPendingWrites q) x (bOnConnect q) (mOnWrittenCurrent q) (bOnData q) (mOnClosed q)).
Definition with_b_on_connect (s : sock) x := let q := b s in with_b s (mkBackend (mNativeStatus q) (mHandle q) (mConnectReq q) (mWriteReq q) (bCloseRequested q) (mReadArmed q) (mPendingWrites q) (mInFlight q) x (mOnWrittenCurrent q) (bOnData q) (mOnClosed q)).
Definition with_current (s : sock) x := let q := b s in with_b s (mkBackend (mNativeStatus q) (mHandle q) (mConnectReq q) (mWriteReq q) (bCloseRequested q) (mReadArmed q) (mPendingWrites q) (mInFlight q) (bOnConnect q) x (bOnData q) (mOnClosed q)).
Definition with_b_on_data (s : sock) x := let q := b s in with_b s (mkBackend (mNativeStatus q) (mHandle q) (mConnectReq q) (mWriteReq q) (bCloseRequested q) (mReadArmed q) (mPendingWrites q) (mInFlight q) (bOnConnect q) (mOnWrittenCurrent q) x (mOnClosed q)).
Definition with_on_closed (s : sock) x := let q := b s in with_b s (mkBackend (mNativeStatus q) (mHandle q) (mConnectReq q) (mWriteReq q) (bCloseRequested q) (mReadArmed q) (mPendingWrites q) (mInFlight q) (bOnConnect q) (mOnWrittenCurrent q) (bOnData q) x).

(** A socket on a loop, and one over a handle that is connected already *)
Definition idle_backend : UvStreamBackend := mkBackend 0 None false false false false [] [] None None None None.
Definition new_socket : sock := mkSock (mkPrivate kIdle false None None None None kNone) idle_backend 0 [].
Definition adopt_backend : sock :=
  record (Entered kConnected) (with_state (with_handle new_socket (Some (mkHandle false false))) kConnected).

Section Socket.
Context (uv : uv_codes) (answer : nat -> Z).

(** The result of a call of libuv *)
Definition ask (s : sock) : Z * sock := (answer (asked s), mkSock (d s) (b s) (S (asked s)) (trace s)).

(** A handle that libuv may be asked to work on: there, and not closing *)
Definition open_handle (s : sock) : run uv_tcp := do h <- deref (mHandle (b s)); if closing h then Undef else Ret h.

Section Calls.
Context (fuel : nat) (invoke : closure -> argument -> sock -> run sock).

(** Calls what is stored, when something is *)
Definition invoke_opt (f : option closure) (a : argument) (s : sock) : run sock :=
  match f with Some f => invoke f a s | None => Ret s end.

(** ** [UvStreamBackend] *)
Definition is_open (s : sock) : bool := bool_decide (mHandle (b s) <> None) && negb (bCloseRequested (b s)).

Definition b_connect (valid : bool) (on_done : closure) (s : sock) : run sock :=
  if negb valid then invoke on_done (Connected false) (with_native_status s (- UV_EINVAL uv))
  else
    let (init_rc, s) := ask s in
    do _ <- check (init_rc =? 0);
    let s := with_b_on_connect (with_handle s (Some (mkHandle false false))) (Some on_done) in
    let (rc, s) := ask s in
    if negb (rc =? 0) then
      let s := with_native_status s rc in
      let cb := bOnConnect (b s) in
      invoke_opt cb (Connected false) (with_b_on_connect s None)
    else Ret (with_connect_req s true).

(** The turns of the recursion are bounded by [fuel]. *)
Fixpoint submit_next_write (turns : nat) (s : sock) : run sock :=
  if mWriteReq (b s) then Ret s
  else
    match mPendingWrites (b s) with
    | [] => Ret s
    | pending :: rest =>
        let s := with_in_flight (with_pending s rest) (mData pending) in
        do _ <- open_handle s;
        let (rc, s) := ask (record (Submitted (mData pending)) s) in
        if negb (rc =? 0) then
          match turns with
          | O => Timeout
          | S turns =>
              do s <- invoke (User (mOnWritten pending)) (Written false) (with_in_flight s []);
              submit_next_write turns s
          end
        else Ret (with_current (with_write_req s true) (Some (mOnWritten pending)))
    end.

Definition b_write (data : list Z) (on_done : callback) (s : sock) : run sock :=
  submit_next_write fuel (record (Accepted data) (with_pending s (mPendingWrites (b s) ++ [mkPending data on_done]))).

Definition b_read_start (on_data : closure) (s : sock) : run sock :=
  if mReadArmed (b s) then Ret (with_b_on_data s (Some on_data))
  else
    let s := with_b_on_data s (Some on_data) in
    do h <- open_handle s;
    let (rc, s) := ask s in
    do _ <- check (rc =? 0);
    Ret (with_read_armed (with_handle s (Some (mkHandle (closing h) true))) true).

(** [uv_read_stop], then the interest is off *)
Definition disarm (s : sock) : run sock :=
  do h <- deref (mHandle (b s));
  Ret (with_read_armed (with_handle s (Some (mkHandle (closing h) false))) false).
Definition b_read_stop (s : sock) : run sock := if negb (mReadArmed (b s)) then Ret s else disarm s.

Fixpoint discard (pending : list PendingWrite) (s : sock) : run sock :=
  match pending with
  | [] => Ret s
  | p :: pending => do s <- invoke (User (mOnWritten p)) (Written false) s; discard pending s
  end.

Definition b_begin_close (s : sock) : run sock :=
  if bCloseRequested (b s) then Ret s
  else
    let s := with_b_close_requested s true in
    let discards := mPendingWrites (b s) in
    do s <- discard discards (with_pending s []);
    do s <-
      (match bOnConnect (b s) with
       | Some cb => invoke cb (Connected false) (with_b_on_connect s None)
       | None => Ret s
       end);
    match mHandle (b s) with
    | None =>
        match mOnClosed (b s) with
        | Some cb => invoke cb NoArgument (with_on_closed s None)
        | None => Ret s
        end
    | Some _ =>
        do s <- (if mReadArmed (b s) then disarm s else Ret s);
        let s := with_b_on_data s None in
        do h <- deref (mHandle (b s));
        if negb (closing h) then Ret (with_handle s (Some (mkHandle true (reading h)))) else Ret s
    end.

Definition b_close (on_closed : option closure) (s : sock) : run sock := b_begin_close (with_on_closed s on_closed).

(** What libuv calls *)
Definition on_connect_done (status : Z) (s : sock) : run sock :=
  let s := with_native_status (with_connect_req s false) status in
  let ok := (status =? 0) && negb (bCloseRequested (b s)) in
  match bOnConnect (b s) with
  | Some cb => invoke cb (Connected ok) (with_b_on_connect s None)
  | None => Ret s
  end.

Definition on_read (nread : Z) (data : list Z) (s : sock) : run sock :=
  if nread =? 0 then Ret s
  else if nread <? 0 then
    let s := with_native_status s nread in
    let code := if nread =? UV_EOF uv then kBackendEof else nread in
    let cb := bOnData (b s) in
    do s <- invoke_opt cb (Data [] code) (with_b_on_data s None);
    b_begin_close s
  else invoke_opt (bOnData (b s)) (Data data nread) s.

Definition on_write_done (status : Z) (s : sock) : run sock :=
  let s := with_native_status s status in
  let cb := mOnWrittenCurrent (b s) in
  let s := with_in_flight (with_write_req (with_current s None) false) [] in
  do s <- (match cb with Some cb => invoke (User cb) (Written (status =? 0)) s | None => Ret s end);
  submit_next_write fuel s.

Definition on_closed (s : sock) : run sock :=
  let s := with_handle s None in
  match mOnClosed (b s) with
  | Some cb => invoke cb NoArgument (with_on_closed s None)
  | None => Ret s
  end.

(** ** [TcpSocketPrivate] *)
Definition set_state (state : SocketState) (s : sock) : run sock :=
  let s := record (Entered state) (with_state s state) in
  match mOnStateChange (d s) with
  | Some cb => invoke (User cb) (Entering state) s
  | None => Ret s
  end.

Definition report_error (error : SocketError) (s : sock) : run sock :=
  let s := with_last_error s error in
  match mOnError (d s) with
  | Some cb => invoke (User cb) (Failing error) s
  | None => Ret s
  end.

Definition begin_close (s : sock) : run sock :=
  if mCloseRequested (d s) then Ret s
  else
    let s := with_close_requested s true in
    if bool_decide (mState (d s) = kClosed) || negb (is_open s) then
      do s <- set_state kClosed s;
      b_close None s
    else
      do s <- set_state kClosing s;
      do s <-
        (match mOnConnect (d s) with
         | Some cb => invoke (User cb) (Connected false) (with_on_connect s None)
         | None => Ret s
         end);
      b_close (Some SocketClosed) (with_on_data s None).

Definition connect_done (ok : bool) (s : sock) : run sock :=
  let closed := mCloseRequested (d s) in
  do s <-
    (if ok && bool_decide (mState (d s) = kConnecting) then set_state kConnected s
     else if negb closed then
       do s <- report_error (map_transport_error uv (mNativeStatus (b s))) s;
       if bool_decide (mState (d s) = kConnecting) then set_state kClosing s else Ret s
     else Ret s);
  do s <-
    (match mOnConnect (d s) with
     | Some cb => invoke (User cb) (Connected ok) (with_on_connect s None)
     | None => Ret s
     end);
  if negb ok && bool_decide (mState (d s) = kClosing) && negb (mCloseRequested (d s)) then
    do s <- begin_close s;
    if bool_decide (mState (d s) = kClosing) then set_state kIdle s else Ret s
  else Ret s.

Definition read_event (data : list Z) (nread : Z) (s : sock) : run sock :=
  if 0 <=? nread then
    match mOnData (d s) with
    | Some cb => invoke (User cb) (Data data nread) s
    | None => Ret s
    end
  else
    let error := if nread =? kBackendEof then kEof else map_transport_error uv nread in
    do s <- report_error error s;
    do s <-
      (match mOnData (d s) with
       | Some cb => invoke (User cb) (Data [] nread) (with_on_data s None)
       | None => Ret s
       end);
    do s <- b_read_stop s;
    begin_close s.

(** The callable that [begin_close] gives the backend *)
Definition socket_closed (s : sock) : run sock :=
  if negb (bool_decide (mState (d s) = kIdle)) then set_state kClosed s else Ret s.

(** ** The calls of [TcpSocket] *)
Definition connect (valid : bool) (on_connected : callback) (s : sock) : run sock :=
  do _ <- check (bool_decide (mState (d s) = kIdle));
  do _ <- check (negb (mCloseRequested (d s)));
  let s := record (Asked (Connected true) (cb_name on_connected)) (with_on_connect s (Some on_connected)) in
  do s <- set_state kConnecting s;
  b_connect valid ConnectDone s.

Definition write (data : list Z) (on_written : callback) (s : sock) : run sock :=
  let s := record (Asked (Written true) (cb_name on_written)) s in
  if mCloseRequested (d s) || bool_decide (mState (d s) = kClosing) || bool_decide (mState (d s) = kClosed) then
    invoke (User on_written) (Written false) s
  else
    do _ <- check (bool_decide (mState (d s) = kConnected));
    b_write data on_written s.

Definition read_start (on_data : callback) (s : sock) : run sock :=
  do _ <- check (negb (mCloseRequested (d s)));
  do _ <- check (bool_decide (mState (d s) = kConnected));
  b_read_start ReadEvent (with_on_data s (Some on_data)).

Definition perform (o : op) (s : sock) : run sock :=
  match o with
  | Connect valid cb => connect valid cb s
  | Write data cb => write data cb s
  | ReadStart cb => read_start cb s
  | ReadStop => b_read_stop s
  | Close => begin_close s
  | SetOnError cb => Ret (with_on_error s cb)
  | SetOnStateChange cb => Ret (with_on_state_change s cb)
  end.

Fixpoint perform_all (ops : list op) (s : sock) : run sock :=
  match ops with
  | [] => Ret s
  | o :: ops => do s <- perform o s; perform_all ops s
  end.
End Calls.

(** ** Calling what is stored: [fuel] bounds the nesting. *)
Fixpoint invoke (fuel : nat) (f : closure) (a : argument) (s : sock) : run sock :=
  match fuel with
  | O => Timeout
  | S fuel =>
      match f, a with
      | User cb, _ => perform_all fuel (invoke fuel) (cb_body cb) (record (Called (cb_name cb) a) s)
      | ConnectDone, Connected ok => connect_done (invoke fuel) ok s
      | ReadEvent, Data data nread => read_event (invoke fuel) data nread s
      | SocketClosed, NoArgument => socket_closed (invoke fuel) s
      | _, _ => Undef
      end
  end.

(** ** The environment

    A call of the user from outside, or a callback of libuv *)
Inductive stimulus :=
  | Call (o : op)
  | ConnectCb (status : Z)
  | WriteCb (status : Z)
  | ReadCb (nread : Z) (data : list Z)
  | CloseCb.

(** When libuv calls back: once for each request it was given, while a handle is read from,
    and at the end of a close when no request is left *)
Definition enabled (e : stimulus) (s : sock) : Prop :=
  match e with
  | Call _ => True
  | ConnectCb _ => mConnectReq (b s) = true
  | WriteCb _ => mWriteReq (b s) = true
  | ReadCb _ _ => exists h, mHandle (b s) = Some h /\ reading h = true /\ closing h = false
  | CloseCb => (exists h, mHandle (b s) = Some h /\ closing h = true) /\ mConnectReq (b s) = false /\ mWriteReq (b s) = false
  end.

Definition react (fuel : nat) (e : stimulus) (s : sock) : run sock :=
  match e with
  | Call o => perform fuel (invoke fuel) o s
  | ConnectCb status => on_connect_done (invoke fuel) status s
  | WriteCb status => on_write_done fuel (invoke fuel) status s
  | ReadCb nread data => on_read (invoke fuel) nread data s
  | CloseCb => on_closed (invoke fuel) s
  end.

(** ** Destruction *)
Definition close_if_open (fuel : nat) (s : sock) : run sock :=
  if negb (bool_decide (mState (d s) = kClosed)) && negb (bool_decide (mState (d s) = kIdle)) then begin_close (invoke fuel) s else Ret s.

Section Destruction.
Context (mInProcessEvents : bool) (has_posted : sock -> nat -> bool) (uv_run : sock -> run sock).

Definition has_handle (s : sock) : bool := bool_decide (mHandle (b s) <> None).

Definition pump_until_closed (fuel : nat) (s : sock) : run sock :=
  do s <- (if has_handle s && negb (bCloseRequested (b s)) then b_begin_close (invoke fuel) s else Ret s);
  pump_rounds mInProcessEvents has_posted uv_run has_handle 1000 0 s.

(** [~TcpSocket], then the destructors of its private part and of the backend *)
Definition destroy (fuel : nat) (s : sock) : run sock :=
  do s <- close_if_open fuel s;
  do s <- pump_until_closed fuel s;
  do _ <- check (mCloseRequested (d s) || negb (is_open s));
  do _ <- check (bool_decide (mHandle (b s) = None));
  Ret s.
End Destruction.
End Socket.
