(* ===== verification/TcpSocketFacts.v ===== *)
(** * TCP sockets: correctness

    One invariant covers the socket and its backend at every point where code of the user may
    run, whatever that code does; a weight of everything that is still to be called bounds
    the nesting. *)

From stdpp Require Import prelude list.
From Stdlib Require Import ZArith Lia.
From S2P Require Import Prelude SocketTypes TcpSocket.

#[local] Open Scope nat_scope.
#[local] Open Scope cxx_scope.

(** ** Weights: how deep calls may nest *)
Fixpoint op_weight (o : op) : nat :=
  match o with
  | Connect _ cb => 3 + cb_weight cb
  | Write _ cb | ReadStart cb => 1 + cb_weight cb
  | ReadStop | Close => 1
  | SetOnError o => 1 + match o with Some cb => cb_weight cb | None => 0 end
  | SetOnStateChange o => 1 + 4 * match o with Some cb => cb_weight cb | None => 0 end
  end
with cb_weight (cb : callback) : nat :=
  let 'Callback _ l := cb in
  1 + (fix sum (l : list op) : nat := match l with [] => 0 | o :: l => op_weight o + sum l end) l.

Definition ops_weight (l : list op) : nat := sum_list_with op_weight l.
Definition opt_weight (o : option callback) : nat := match o with Some cb => cb_weight cb | None => 0 end.
Definition pending_weight (l : list PendingWrite) : nat := sum_list_with (fun p => cb_weight (mOnWritten p)) l.

#[local] Arguments pending_weight _ : simpl never.
#[local] Arguments reverse {_} _ : simpl never.

Lemma pending_weight_cons (p : PendingWrite) (l : list PendingWrite) : pending_weight (p :: l) = cb_weight (mOnWritten p) + pending_weight l.
Proof. done. Qed.

Lemma cb_weight_body (cb : callback) : cb_weight cb = S (ops_weight (cb_body cb)).
Proof. by destruct cb. Qed.

(** How many states a socket may still enter *)
Definition remaining (s : sock) : nat :=
  match mCloseRequested (d s), mState (d s) with
  | false, kIdle => 4
  | false, kConnecting => 3
  | false, (kConnected | kClosing) => 2
  | false, _ => 1
  | true, kClosing => 1
  | true, _ => 0
  end.

#[local] Arguments remaining _ : simpl never.

Definition load (s : sock) : nat :=
  pending_weight (mPendingWrites (b s)) + opt_weight (mOnWrittenCurrent (b s)) + opt_weight (mOnConnect (d s)) +
  opt_weight (mOnData (d s)) + remaining s * opt_weight (mOnStateChange (d s)) +
  (if decide (mLastError (d s) = kNone) then opt_weight (mOnError (d s)) else 0) +
  match bOnConnect (b s) with Some _ => 1 | None => 0 end.

Lemma pending_weight_nil : pending_weight [] = 0.
Proof. done. Qed.

Ltac weigh := unfold load, remaining in *; cbn in *; rewrite ?pending_weight_nil, ?pending_weight_cons in *; lia.

(** ** Histories *)
Inductive request := AConnect | AWrite.
#[export] Instance request_eq_dec : EqDecision request. Proof. solve_decision. Defined.

Definition request_of (a : argument) : option request :=
  match a with Connected _ => Some AConnect | Written _ => Some AWrite | _ => None end.
Definition ticket (a : argument) (name : nat) : list (request * nat) :=
  match request_of a with Some k => [(k, name)] | None => [] end.

(** The requests made, the answers given, newest first *)
Fixpoint asked_for (t : list event) : list (request * nat) :=
  match t with [] => [] | Asked a n :: t => ticket a n ++ asked_for t | _ :: t => asked_for t end.
Fixpoint answered (t : list event) : list (request * nat) :=
  match t with [] => [] | Called n a :: t => ticket a n ++ answered t | _ :: t => answered t end.
Fixpoint accepted (t : list event) : list (list Z) :=
  match t with [] => [] | Accepted x :: t => x :: accepted t | _ :: t => accepted t end.
Fixpoint submitted (t : list event) : list (list Z) :=
  match t with [] => [] | Submitted x :: t => x :: submitted t | _ :: t => submitted t end.
Fixpoint entered (t : list event) : list SocketState :=
  match t with [] => [] | Entered x :: t => x :: entered t | _ :: t => entered t end.

(** The answers that are still due *)
Definition opt_ticket (k : request) (o : option callback) : list (request * nat) :=
  match o with Some cb => [(k, cb_name cb)] | None => [] end.
Definition due (s : sock) : list (request * nat) :=
  map (fun p => (AWrite, cb_name (mOnWritten p))) (mPendingWrites (b s)) ++ opt_ticket AWrite (mOnWrittenCurrent (b s)) ++
  opt_ticket AConnect (mOnConnect (d s)).

Definition legal (x y : SocketState) : bool :=
  match x, y with
  | kIdle, (kConnecting | kConnected | kClosed) => true
  | kConnecting, (kConnected | kClosing | kClosed) => true
  | kConnected, kClosing => true
  | kClosing, (kClosing | kClosed | kIdle) => true
  | _, _ => false
  end.
Fixpoint legal_history (l : list SocketState) : Prop :=
  match l with [] => True | x :: l => legal (default kIdle (head l)) x = true /\ legal_history l end.

(** ** The invariant

    [L] are the requests whose callbacks are in a local variable of a call in progress. *)
Record valid_in (L : list (request * nat)) (s : sock) : Prop := {
  v_closing : forall h, mHandle (b s) = Some h -> closing h = true -> bCloseRequested (b s) = true;
  v_latch : bCloseRequested (b s) = true -> mCloseRequested (d s) = true;
  v_open : mState (d s) = kConnected -> mCloseRequested (d s) = false -> mHandle (b s) <> None;
  v_pending : mPendingWrites (b s) <> [] -> mHandle (b s) <> None /\ bCloseRequested (b s) = false;
  v_reqs : mConnectReq (b s) = true \/ mWriteReq (b s) = true -> mHandle (b s) <> None;
  v_current : mWriteReq (b s) = true <-> mOnWrittenCurrent (b s) <> None;
  v_armed : mReadArmed (b s) = true -> mHandle (b s) <> None;
  v_reading : forall h, mHandle (b s) = Some h -> reading h = true -> mReadArmed (b s) = true;
  v_state : mCloseRequested (d s) = true -> mState (d s) = kClosing \/ mState (d s) = kClosed \/ mState (d s) = kIdle;
  v_going : mCloseRequested (d s) = false ->
    mState (d s) = kIdle \/ mState (d s) = kConnecting \/ mState (d s) = kConnected \/ mState (d s) = kClosing;
  v_idle : mState (d s) = kIdle -> mCloseRequested (d s) = false ->
    mHandle (b s) = None /\ mOnConnect (d s) = None /\ mLastError (d s) = kNone;
  v_closed : forall f, mOnClosed (b s) = Some f -> f = SocketClosed /\ mCloseRequested (d s) = true /\ mHandle (b s) <> None /\
    (mState (d s) = kClosing \/ mState (d s) = kIdle);
  v_connect : forall f, bOnConnect (b s) = Some f -> f = ConnectDone /\ mConnectReq (b s) = true /\ (mCloseRequested (d s) = false -> mState (d s) = kConnecting);
  v_data : forall f, bOnData (b s) = Some f -> f = ReadEvent;
  v_count : asked_for (trace s) ≡ₚ answered (trace s) ++ due s ++ L;
  v_fifo : exists rest, accepted (trace s) = rest ++ reverse (mData <$> mPendingWrites (b s)) ++ submitted (trace s) /\
    (bCloseRequested (b s) = false -> rest = []);
  v_flight : mWriteReq (b s) = true -> head (submitted (trace s)) = Some (mInFlight (b s));
  v_history : legal_history (entered (trace s)) /\ mState (d s) = default kIdle (head (entered (trace s)));
  v_bound : length (entered (trace s)) + remaining s <= 4
}.

(** What holds between stimuli, and what code of the user can break only for good *)
Definition torn_down (s : sock) : Prop := mCloseRequested (d s) = true -> bCloseRequested (b s) = true.
Definition reads_ok (s : sock) : Prop := mReadArmed (b s) = true -> bCloseRequested (b s) = false /\ bOnData (b s) <> None.
Definition no_error_yet (s : sock) : Prop := mCloseRequested (d s) = false -> mLastError (d s) = kNone.
Definition connect_pending (s : sock) : Prop := mOnConnect (d s) <> None -> bOnConnect (b s) <> None.
Definition settled (s : sock) : Prop := torn_down s /\ reads_ok s /\ no_error_yet s /\ connect_pending s.

(** What code of the user leaves alone *)
Definition core (s : sock) :=
  (mState (d s), mCloseRequested (d s), mOnConnect (d s), mOnData (d s), mLastError (d s), closing <$> mHandle (b s), mConnectReq (b s), mWriteReq (b s),
   bCloseRequested (b s), mPendingWrites (b s), bOnConnect (b s), mOnClosed (b s)).

Record evolves (s s' : sock) : Prop := {
  e_closed : mCloseRequested (d s) = true -> core s' = core s;
  e_going : mState (d s) <> kIdle -> mLastError (d s') = mLastError (d s) /\ (mOnConnect (d s') = mOnConnect (d s) \/ mOnConnect (d s') = None) /\
    (bOnConnect (b s') = bOnConnect (b s) \/ bOnConnect (b s') = None) /\ (mCloseRequested (d s') = false -> mState (d s') = mState (d s));
  e_window : mState (d s) = kConnecting -> mHandle (b s) = None -> mCloseRequested (d s) = false ->
    mHandle (b s') = None /\ mOnConnect (d s') = mOnConnect (d s) /\
    (mState (d s') = kConnecting /\ mCloseRequested (d s') = false \/ mState (d s') = kClosed /\ mCloseRequested (d s') = true);
  e_torn : torn_down s -> torn_down s';
  e_reads : reads_ok s -> reads_ok s';
  e_error : no_error_yet s -> no_error_yet s';
  e_pending : connect_pending s -> connect_pending s'
}.

Lemma core_eq (s s' : sock) : core s' = core s ->
  mState (d s') = mState (d s) /\ mCloseRequested (d s') = mCloseRequested (d s) /\ mOnConnect (d s') = mOnConnect (d s) /\
  mOnData (d s') = mOnData (d s) /\ mLastError (d s') = mLastError (d s) /\ closing <$> mHandle (b s') = closing <$> mHandle (b s) /\
  mConnectReq (b s') = mConnectReq (b s) /\ mWriteReq (b s') = mWriteReq (b s) /\ bCloseRequested (b s') = bCloseRequested (b s) /\
  mPendingWrites (b s') = mPendingWrites (b s) /\ bOnConnect (b s') = bOnConnect (b s) /\ mOnClosed (b s') = mOnClosed (b s).
Proof. unfold core. intros E. by injection E. Qed.

Lemma core_none (s s' : sock) : core s' = core s -> mHandle (b s') = None <-> mHandle (b s) = None.
Proof. intros (_ & _ & _ & _ & _ & E & _)%core_eq. by destruct (mHandle (b s')), (mHandle (b s)). Qed.

Lemma evolves_same (s s' : sock) : core s' = core s ->
  (mReadArmed (b s') = true -> mReadArmed (b s) = true) -> bOnData (b s') = bOnData (b s) -> evolves s s'.
Proof.
  intros E Hr Hd. destruct (core_none _ _ E) as [_ Hn]. destruct (core_eq _ _ E) as (E1 & E2 & E3 & E4 & E5 & E6 & E7 & E8 & E9 & E10 & E11 & E12).
  split.
  - done.
  - intros _. rewrite E1, E3, E5, E11. split_and!; [done|by left|by left|done].
  - intros. rewrite E1, E2, E3. split_and!; [by apply Hn|done|by left].
  - unfold torn_down. by rewrite E2, E9.
  - unfold reads_ok. rewrite E9, Hd. auto.
  - unfold no_error_yet. by rewrite E2, E5.
  - unfold connect_pending. by rewrite E3, E11.
Qed.

Lemma evolves_refl (s : sock) : evolves s s.
Proof. by apply evolves_same. Qed.

Lemma evolves_trans (s s1 s2 : sock) : evolves s s1 -> evolves s1 s2 -> evolves s s2.
Proof.
  intros [A1 A2 A3 A4 A5 A6 A7] [B1 B2 B3 B4 B5 B6 B7]. split; auto.
  - intros Hc. specialize (A1 Hc). destruct (core_eq _ _ A1) as (_ & E & _). rewrite B1; [done|congruence].
  - intros Hs. destruct (A2 Hs) as (E1 & H1 & K1 & Hi). destruct (mCloseRequested (d s1)) eqn:Ec.
    + destruct (core_eq _ _ (B1 eq_refl)) as (E2 & E3 & E4 & _ & E5 & _ & _ & _ & _ & _ & E6 & _).
      split_and!; [congruence|destruct H1; [left|right]; congruence|destruct K1; [left|right]; congruence|congruence].
    + specialize (Hi eq_refl). destruct B2 as (E2 & H2 & K2 & H3); [congruence|]. split_and!; [congruence| | |intros; rewrite H3; congruence].
      * destruct H2 as [->| ->]; [done|by right].
      * destruct K2 as [->| ->]; [done|by right].
  - intros Hs Hh Hc. destruct (A3 Hs Hh Hc) as (H1 & H2 & [[H3 H4]|[H3 H4]]).
    + destruct (B3 H3 H1 H4) as (H5 & H6 & H7). split_and!; [done|congruence|done].
    + pose proof (B1 H4) as E. destruct (core_eq _ _ E) as (E1 & E2 & E3 & _). split_and!; [by apply (core_none _ _ E)|congruence|right; split; congruence].
Qed.

(** The two that the state between stimuli and the backend's own calls share *)
Definition keeps (s s' : sock) : Prop := (torn_down s -> torn_down s') /\ (reads_ok s -> reads_ok s').

Lemma evolves_keeps (s s' : sock) : evolves s s' -> keeps s s'.
Proof. intros H. split; apply H. Qed.
Lemma keeps_trans (s s1 s2 : sock) : keeps s s1 -> keeps s1 s2 -> keeps s s2.
Proof. unfold keeps. tauto. Qed.

(** ** Results *)
Definition returns (r : run sock) (P : sock -> Prop) : Prop := match r with Ret s => P s | Fatal => True | Undef | Timeout => False end.

Lemma returns_bind (r : run sock) (k : sock -> run sock) (Q P : sock -> Prop) : returns r Q -> (forall s, Q s -> returns (k s) P) -> returns (run_bind r k) P.
Proof. destruct r; cbn; auto. Qed.
Lemma returns_mono (r : run sock) (P Q : sock -> Prop) : returns r P -> (forall s, P s -> Q s) -> returns r Q.
Proof. destruct r; cbn; auto. Qed.
Lemma returns_check (c : bool) (k : unit -> run sock) (P : sock -> Prop) : (c = true -> returns (k tt) P) -> returns (run_bind (check c) k) P.
Proof. destruct c; cbn; auto. Qed.

(** ** The functions, whatever [invoke] does within the bounds *)
Definition post (L : list (request * nat)) (s : sock) (w : nat) (s' : sock) : Prop := valid_in L s' /\ evolves s s' /\ load s' <= w.

Lemma post_trans (L : list (request * nat)) (s s1 s2 : sock) (w w' : nat) : evolves s s1 -> post L s1 w s2 -> w <= w' -> post L s w' s2.
Proof. intros H (Hv & He & Hl) Hw. split_and!; [done|by apply (evolves_trans s s1)|lia]. Qed.

Lemma cb_weight_pos (cb : callback) : 0 < cb_weight cb.
Proof. rewrite cb_weight_body. lia. Qed.

Lemma load_pending (s : sock) : pending_weight (mPendingWrites (b s)) <= load s.
Proof. unfold load. lia. Qed.

(** Fields that do not matter *)
Lemma valid_same (L : list (request * nat)) (s s' : sock) : d s' = d s -> trace s' = trace s -> core s' = core s ->
  mHandle (b s') = mHandle (b s) -> mReadArmed (b s') = mReadArmed (b s) -> mInFlight (b s') = mInFlight (b s) -> bOnData (b s') = bOnData (b s) ->
  mOnWrittenCurrent (b s') = mOnWrittenCurrent (b s) -> valid_in L s -> valid_in L s'.
Proof.
  intros Ed Et Ec Eh Er Ef Eb Ew []. destruct (core_eq _ _ Ec) as (E1 & E2 & E3 & E4 & E5 & E6 & E7 & E8 & E9 & E10 & E11 & E12).
  split; unfold due, remaining; rewrite ?E1, ?E2, ?E3, ?E5, ?E7, ?E8, ?E9, ?E10, ?E11, ?E12, ?Et, ?Eh, ?Er, ?Ef, ?Eb, ?Ew; done.
Qed.

Lemma disarm_spec (L : list (request * nat)) (s : sock) : valid_in L s -> mHandle (b s) <> None ->
  returns (disarm s) (fun s' => post L s (load s) s' /\ d s' = d s /\ core s' = core s /\ mReadArmed (b s') = false).
Proof.
  intros Hv Hh. unfold disarm. destruct (mHandle (b s)) as [h|] eqn:Eh; [|done]. cbn [deref run_bind returns].
  set (s' := with_read_armed _ _). assert (Ec : core s' = core s) by (unfold core; cbn; by rewrite Eh).
  split_and!; [split_and!|done|done|done].
  - destruct Hv. split; cbn; try done; try (naive_solver (by rewrite Eh)). 
  - by apply evolves_same.
  - done.
Qed.

Lemma b_read_stop_spec (L : list (request * nat)) (s : sock) : valid_in L s -> returns (b_read_stop s) (fun s' => post L s (load s) s' /\ core s' = core s /\ mReadArmed (b s') = false).
Proof.
  intros Hv. unfold b_read_stop. destruct (mReadArmed (b s)) eqn:Ea; cbn [negb].
  - eapply returns_mono; [apply (disarm_spec L s Hv), (v_armed _ _ Hv Ea)|]. intros s' (Hp & _ & Hc & Ha). by split_and!.
  - split_and!; [split_and!; [done|apply evolves_refl|lia]|done|done].
Qed.

Definition enter (state : SocketState) (s : sock) : sock := record (Entered state) (with_state s state).

Lemma enter_valid (L : list (request * nat)) (s : sock) (state : SocketState) :
  valid_in L s -> legal (mState (d s)) state = true -> remaining (enter state s) + 1 <= remaining s ->
  (mCloseRequested (d s) = false -> bOnConnect (b s) = None) ->
  match state with
  | kConnected => mCloseRequested (d s) = false /\ mHandle (b s) <> None
  | kClosing => mCloseRequested (d s) = false
  | kIdle => mCloseRequested (d s) = true
  | kClosed => mCloseRequested (d s) = true /\ mOnClosed (b s) = None
  | _ => False
  end -> valid_in L (enter state s) /\ load (enter state s) + opt_weight (mOnStateChange (d s)) <= load s.
Proof.
  intros Hv Hleg Hrem Hbc Hst. split.
  - destruct Hv. split; try done; cbn.
    + intros ->. naive_solver.
    + intros Hc. destruct state; try done; [by right; right|destruct Hst; congruence|congruence|by right; left].
    + intros Hc. destruct state; try done; [congruence|auto|auto|destruct Hst; congruence].
    + intros -> ?. congruence.
    + intros f Ef. destruct (v_closed0 f Ef) as (? & Hc & ? & ?). split_and!; try done. destruct state; try done; [by right|destruct Hst; congruence|congruence|destruct Hst; congruence].
    + intros f Ef. destruct (v_connect0 f Ef) as (? & ? & ?). split_and!; try done. intros Hc. by rewrite (Hbc Hc) in Ef.
    + destruct v_history0 as [Hh He]. rewrite <- He. by split_and!.
    + lia.
  - unfold load. set (r := remaining (enter state s)) in *. set (r0 := remaining s) in *. cbn. nia.
Qed.

Definition closing_to (state : SocketState) (s : sock) : sock := enter state (with_close_requested s true).

(** Entering a state with the close latched *)
Lemma closing_to_valid (L : list (request * nat)) (s : sock) (state : SocketState) :
  valid_in L s -> mCloseRequested (d s) = false -> state = kClosed /\ mHandle (b s) = None \/ state = kClosing /\ mHandle (b s) <> None ->
  valid_in L (closing_to state s) /\ load (closing_to state s) + opt_weight (mOnStateChange (d s)) <= load s.
Proof.
  intros Hv Hc Hst.
  assert (Hleg : legal (mState (d s)) state = true).
  { destruct Hst as [[-> Hh]|[-> Hh]]; destruct (v_going _ _ Hv Hc) as [E|[E|[E|E]]]; rewrite E; try done.
    - by apply (v_open _ _ Hv) in Hh. - by destruct (v_idle _ _ Hv E Hc). }
  assert (Hrem : remaining (closing_to state s) + 1 <= remaining s).
  { unfold remaining. cbn. rewrite Hc. destruct Hst as [[-> _]|[-> _]], (mState (d s)); cbn; try done; lia. }
  split.
  - assert (Hs : state = kClosed \/ state = kClosing) by (destruct Hst as [[-> _]|[-> _]]; auto).
    destruct Hv. split; try done; cbn.
    + intros _. destruct Hs; auto.
    + intros f Ef. destruct (v_closed0 f Ef) as (_ & ? & _). congruence.
    + intros f Ef. destruct (v_connect0 f Ef) as (? & ? & ?). by split_and!.
    + destruct v_history0 as [Hh He]. rewrite <- He. by split_and!.
    + lia.
  - unfold load. set (r := remaining (closing_to state s)) in *. set (r0 := remaining s) in *. cbn. nia.
Qed.

Lemma is_open_spec (L : list (request * nat)) (s : sock) : valid_in L s -> mCloseRequested (d s) = false -> is_open s = bool_decide (mHandle (b s) <> None).
Proof.
  intros Hv Hc. unfold is_open. destruct (bCloseRequested (b s)) eqn:Eb; [|by rewrite andb_true_r]. pose proof (v_latch _ _ Hv Eb). congruence.
Qed.

Lemma latch_going (L : list (request * nat)) (s : sock) : valid_in L s -> mCloseRequested (d s) = false -> bCloseRequested (b s) = false.
Proof. intros Hv Hc. destruct (bCloseRequested (b s)) eqn:Eb; [pose proof (v_latch _ _ Hv Eb); congruence|done]. Qed.

(** Work on an open connection *)
Lemma evolves_work (s s' : sock) :
  mCloseRequested (d s) = false -> mHandle (b s) <> None -> mState (d s') = mState (d s) -> mCloseRequested (d s') = mCloseRequested (d s) ->
  mOnConnect (d s') = mOnConnect (d s) -> mLastError (d s') = mLastError (d s) -> bOnConnect (b s') = bOnConnect (b s) ->
  (reads_ok s -> reads_ok s') -> evolves s s'.
Proof.
  intros Hc Hh E1 E2 E3 E4 E5 E6. split; try done.
  - congruence.
  - intros _. rewrite E1, E3, E4, E5. split_and!; [done|by left|by left|done].
  - intros _ ?. congruence.
  - unfold no_error_yet. by rewrite E2, E4.
  - unfold connect_pending. by rewrite E3, E5.
Qed.

Lemma asked_valid (L : list (request * nat)) (a : argument) (n : nat) (s : sock) : valid_in L s -> valid_in (ticket a n ++ L) (record (Asked a n) s).
Proof. intros Hv. destruct Hv. split; try done. cbn. rewrite v_count0. unfold due. cbn. solve_Permutation. Qed.

Lemma called_valid (L : list (request * nat)) (a : argument) (n : nat) (s : sock) : valid_in (ticket a n ++ L) s -> valid_in L (record (Called n a) s).
Proof. intros Hv. destruct Hv. split; try done. cbn. rewrite v_count0. unfold due. cbn. solve_Permutation. Qed.

Section Functions.
Context (uv : uv_codes) (answer : nat -> Z) (fuel : nat) (invoke : closure -> argument -> sock -> run sock).
Context (Hcall : forall L cb a s, valid_in (ticket a (cb_name cb) ++ L) s -> cb_weight cb + load s <= fuel ->
  returns (invoke (User cb) a s) (post L s (load s + cb_weight cb - 1))).

Lemma set_state_spec (L : list (request * nat)) (state : SocketState) (s : sock) :
  valid_in L (enter state s) -> load (enter state s) + opt_weight (mOnStateChange (d s)) <= fuel ->
  returns (set_state invoke state s) (post L (enter state s) (load (enter state s) + opt_weight (mOnStateChange (d s)))).
Proof.
  intros Hv Hf. unfold set_state. change (record (Entered state) (with_state s state)) with (enter state s).
  change (mOnStateChange (d (enter state s))) with (mOnStateChange (d s)). destruct (mOnStateChange (d s)) as [cb|].
  - cbn in Hf |- *. eapply returns_mono; [apply (Hcall L cb (Entering state)); [done|lia]|]. intros s' (H1 & H2 & H3). split_and!; [done|done|lia].
  - split_and!; [done|apply evolves_refl|lia].
Qed.

Lemma report_error_spec (L : list (request * nat)) (error : SocketError) (s : sock) :
  valid_in L (with_last_error s error) -> error <> kNone -> mLastError (d s) = kNone -> load s <= fuel ->
  returns (report_error invoke error s) (post L (with_last_error s error) (load s)).
Proof.
  intros Hv He Hn Hf. unfold report_error. cbn [d with_last_error mOnError with_d].
  assert (Hl : load s = load (with_last_error s error) + opt_weight (mOnError (d s))).
  { unfold load. cbn. rewrite Hn, decide_True, decide_False by done. unfold remaining. cbn. lia. }
  destruct (mOnError (d s)) as [cb|].
  - cbn in Hl. eapply returns_mono; [apply (Hcall L cb (Failing error)); [done|lia]|]. intros s' (H1 & H2 & H3). split_and!; [done|done|lia].
  - split_and!; [done|apply evolves_refl|lia].
Qed.

Definition written_tickets (ps : list PendingWrite) : list (request * nat) := map (fun p => (AWrite, cb_name (mOnWritten p))) ps.

Lemma discard_spec (ps : list PendingWrite) (L : list (request * nat)) (s : sock) :
  valid_in (written_tickets ps ++ L) s -> mCloseRequested (d s) = true -> pending_weight ps + load s <= fuel ->
  returns (discard invoke ps s) (fun s' => post L s (load s + pending_weight ps) s').
Proof.
  revert s. induction ps as [|p ps IH]; intros s Hv Hc Hf; cbn [discard].
  { split_and!; [done|apply evolves_refl|cbn; lia]. }
  rewrite pending_weight_cons in *. eapply returns_bind; [apply (Hcall (written_tickets ps ++ L) (mOnWritten p) (Written false)); [done|lia]|].
  intros s1 (Hv1 & He1 & Hl1). pose proof (e_closed _ _ He1 Hc) as Ecore. destruct (core_eq _ _ Ecore) as (_ & E & _).
  pose proof (cb_weight_pos (mOnWritten p)). eapply returns_mono; [apply IH; [done|congruence|lia]|].
  intros s2 Hp. eapply post_trans; [done|done|lia].
Qed.


(** The failure of a connect, told to the socket *)
Definition connect_failed (L : list (request * nat)) (s s' : sock) : Prop :=
  valid_in L s' /\ load s' <= load s /\ mOnConnect (d s') = None /\ mCloseRequested (d s') = true /\ keeps s s' /\
  (mCloseRequested (d s) = true -> core s' = core (with_on_connect s None)).

Context (Hdone : forall L s, valid_in L s -> (mCloseRequested (d s) = false -> mState (d s) = kConnecting /\ mLastError (d s) = kNone) ->
  bOnConnect (b s) = None -> 1 + load s <= fuel -> returns (invoke ConnectDone (Connected false) s) (connect_failed L s)).

Definition backend_closed (L : list (request * nat)) (s s' : sock) : Prop :=
  valid_in L s' /\ load s' <= load s /\ mState (d s') = mState (d s) /\ mCloseRequested (d s') = true /\ mOnConnect (d s') = mOnConnect (d s) /\
  mLastError (d s') = mLastError (d s) /\ bCloseRequested (b s') = true /\ (mHandle (b s') = None <-> mHandle (b s) = None) /\
  (bOnConnect (b s') = bOnConnect (b s) \/ bOnConnect (b s') = None) /\
  (bCloseRequested (b s) = false -> mReadArmed (b s') = false /\ forall h, mHandle (b s') = Some h -> closing h = true).

Lemma b_begin_close_spec (L : list (request * nat)) (s : sock) :
  valid_in L s -> mCloseRequested (d s) = true -> (bOnConnect (b s) = None \/ mOnConnect (d s) = None) -> load s <= fuel ->
  returns (b_begin_close invoke s) (backend_closed L s).
Proof.
  intros Hv Hc Hor Hf. unfold b_begin_close. destruct (bCloseRequested (b s)) eqn:Eb.
  { split_and!; done || congruence || lia || by left. }
  set (s2 := with_pending (with_b_close_requested s true) []).
  assert (Hl2 : load s2 + pending_weight (mPendingWrites (b s)) = load s) by (subst s2; weigh).
  eapply returns_bind; [apply (discard_spec (mPendingWrites (b s)) L s2)|].
  { destruct Hv. split; cbn; try done.
    - rewrite v_count0. unfold due, written_tickets. cbn. rewrite <- !(assoc_L (++)). solve_Permutation.
    - destruct v_fifo0 as (rest & E & Hr). exists (rest ++ reverse (mData <$> mPendingWrites (b s))). split; [|done]. rewrite E. cbn. by rewrite <- (assoc_L (++)). }
  { done. } { lia. }
  intros s3 (Hv3 & He3 & Hl3). pose proof (e_closed _ _ He3 Hc) as Ec3. destruct (core_eq _ _ Ec3) as (E1 & E2 & E3 & E4 & E5 & E6 & E7 & E8 & E9 & E10 & E11 & E12).
  pose proof (core_none _ _ Ec3) as En3. cbn in E1, E2, E3, E4, E5, E6, E7, E8, E9, E10, E11, E12, En3.
  eapply (returns_bind _ _ (fun s4 => valid_in L s4 /\ load s4 <= load s /\ core s4 = core (with_b_on_connect s3 None))).
  { destruct (bOnConnect (b s3)) as [f|] eqn:Ef.
    - destruct (v_connect _ _ Hv3 f Ef) as (-> & _ & _). set (s3' := with_b_on_connect s3 None).
      assert (Hl3' : load s3' + 1 = load s3) by (subst s3'; unfold load, remaining; cbn; rewrite Ef; lia).
      assert (Hn : mOnConnect (d s3) = None) by (destruct Hor; congruence).
      eapply returns_mono; [apply (Hdone L s3')|].
      + destruct Hv3. by split.
      + cbn. congruence.
      + done.
      + lia.
      + intros s4 (Hv4 & Hl4 & _ & _ & _ & H4). pose proof (H4 ltac:(cbn; congruence)) as Ec4. split_and!; [done|lia|]. rewrite Ec4. unfold core. cbn. by rewrite Hn.
    - split_and!; [done|lia|]. unfold core. cbn. by rewrite Ef. }
  intros s4 (Hv4 & Hl4 & Ec4). destruct (core_eq _ _ Ec4) as (F1 & F2 & F3 & F4 & F5 & F6 & F7 & F8 & F9 & F10 & F11 & F12).
  pose proof (core_none _ _ Ec4) as Fn. cbn in F1, F2, F3, F4, F5, F6, F7, F8, F9, F10, F11, F12, Fn.
  destruct (mHandle (b s4)) as [h4|] eqn:Eh4.
  2:{ destruct (mOnClosed (b s4)) as [f|] eqn:Ef; [exfalso; by destruct (v_closed _ _ Hv4 f Ef) as (_ & _ & ? & _)|].
      assert (Ha : mReadArmed (b s4) = false) by (destruct (mReadArmed (b s4)) eqn:Ea; [exfalso; by apply (v_armed _ _ Hv4 Ea)|done]).
      split_and!; try done; try congruence; try (by right); intros; split; congruence || tauto. }
  eapply (returns_bind _ _ (fun s5 => valid_in L s5 /\ load s5 <= load s /\ core s5 = core s4 /\ mReadArmed (b s5) = false)).
  { destruct (mReadArmed (b s4)) eqn:Ea; [|by split_and!]. eapply returns_mono; [apply (disarm_spec L s4 Hv4); congruence|].
    intros s5 ((H1 & H2 & H3) & H4 & H5 & H6). split_and!; [done|lia|done|done]. }
  intros s5 (Hv5 & Hl5 & Ec5 & Ea5). destruct (core_eq _ _ Ec5) as (G1 & G2 & G3 & G4 & G5 & G6 & G7 & G8 & G9 & G10 & G11 & G12).
  rewrite Eh4 in G6. cbn [b with_b_on_data with_b mHandle]. destruct (mHandle (b s5)) as [h5|] eqn:Eh5; [|done]. cbn [deref run_bind]. cbn in G6.
  assert (Hfin : forall h, reading h = reading h5 -> closing h = true -> backend_closed L s (with_handle (with_b_on_data s5 None) (Some h))).
  { intros h Hr Hcl. split_and!; cbn; try congruence; try (right; congruence); try (split; congruence).
    - destruct Hv5. split; cbn; try done; naive_solver congruence.
    - weigh.
    - split; [done|]. intros En. by apply En3, Fn in En. }
  destruct (closing h5) eqn:Ecl; cbn [negb].
  - assert (E0 : with_b_on_data s5 None = with_handle (with_b_on_data s5 None) (Some h5)) by (clear - Eh5; destruct s5 as [? [] ? ?]; cbn in *; by subst).
    cbn [returns]. rewrite E0. by apply Hfin.
  - cbn. by apply Hfin.
Qed.

(** *** [TcpSocketPrivate::begin_close] *)
Definition socket_closing (L : list (request * nat)) (s s' : sock) : Prop :=
  post L s (load s) s' /\ mCloseRequested (d s') = true /\
  (mCloseRequested (d s) = false -> (mState (d s') = kClosing \/ mState (d s') = kClosed) /\ torn_down s' /\ reads_ok s' /\
    forall h, mHandle (b s') = Some h -> closing h = true) /\
  (mHandle (b s) <> None -> mHandle (b s') <> None).

Lemma begin_close_spec (L : list (request * nat)) (s : sock) : valid_in L s -> load s <= fuel -> returns (begin_close invoke s) (socket_closing L s).
Proof.
  intros Hv Hf. unfold begin_close. destruct (mCloseRequested (d s)) eqn:Ec.
  { split_and!; [split_and!; [done|apply evolves_refl|lia]|done|congruence|done]. }
  change (is_open (with_close_requested s true)) with (is_open s). rewrite (is_open_spec L s Hv Ec).
  change (mState (d (with_close_requested s true))) with (mState (d s)).
  assert (Hnc : mState (d s) <> kClosed) by (destruct (v_going _ _ Hv Ec) as [E|[E|[E|E]]]; rewrite E; done).
  rewrite (bool_decide_false (_ = kClosed)) by done. cbn [orb].
  assert (Hb : bCloseRequested (b s) = false) by (destruct (bCloseRequested (b s)) eqn:Eb; [pose proof (v_latch _ _ Hv Eb); congruence|done]).
  destruct (mHandle (b s)) as [h|] eqn:Eh.
  - rewrite bool_decide_true by done. cbn [negb]. destruct (closing_to_valid L s kClosing Hv Ec) as [Hv1 Hl1]; [right; by rewrite Eh|].
    eapply returns_bind; [apply (set_state_spec L kClosing (with_close_requested s true) Hv1); unfold closing_to in *; cbn [d with_close_requested with_d mOnStateChange]; lia|].
    change (enter kClosing (with_close_requested s true)) with (closing_to kClosing s). cbn [d with_close_requested with_d mOnStateChange].
    intros s2 (Hv2 & He2 & Hl2). pose proof (e_closed _ _ He2 eq_refl) as Ec2. destruct (core_eq _ _ Ec2) as (E1 & E2 & E3 & E4 & E5 & E6 & E7 & E8 & E9 & E10 & E11 & E12).
    cbn in E1, E2, E3, E4, E5, E6, E7, E8, E9, E10, E11, E12.
    eapply (returns_bind _ _ (fun s3 => valid_in L s3 /\ load s3 <= load s /\ core s3 = core (with_on_connect s2 None))).
    { destruct (mOnConnect (d s2)) as [cb|] eqn:Em.
      - assert (Hl : load (with_on_connect s2 None) + cb_weight cb = load s2) by (unfold load, remaining; cbn; rewrite Em; cbn; lia).
        eapply returns_mono; [apply (Hcall L cb (Connected false) (with_on_connect s2 None)); [|lia]|].
        + destruct Hv2. split; try done; cbn.
          * intros. congruence.
          * rewrite v_count0. unfold due. cbn. rewrite Em. cbn. rewrite app_nil_r. solve_Permutation.
        + intros s3 (Hv3 & He3 & Hl3). split_and!; [done|lia|]. by apply (e_closed _ _ He3).
      - split_and!; [done|lia|]. unfold core. cbn. by rewrite Em. }
    intros s3 (Hv3 & Hl3 & Ec3). destruct (core_eq _ _ Ec3) as (F1 & F2 & F3 & F4 & F5 & F6 & F7 & F8 & F9 & F10 & F11 & F12).
    cbn in F1, F2, F3, F4, F5, F6, F7, F8, F9, F10, F11, F12.
    assert (Hh3 : mHandle (b s3) <> None) by (rewrite Eh in E6; destruct (mHandle (b s3)), (mHandle (b s2)); done).
    unfold b_close. set (s4 := with_on_closed (with_on_data s3 None) (Some SocketClosed)).
    assert (Hv4 : valid_in L s4).
    { destruct Hv3. split; try done; cbn; try done. intros f [= <-]. split_and!; [done|congruence|done|]. left. congruence. }
    eapply returns_mono; [apply (b_begin_close_spec L s4 Hv4); [cbn; congruence|right; cbn; congruence|]|].
    { subst s4. unfold load, remaining in *. cbn in *. lia. }
    assert (Hl4 : load s4 <= load s3) by (subst s4; unfold load, remaining; cbn; lia).
    intros s5 (Hv5 & Hl5 & G1 & G2 & G3 & G4 & G5 & G6 & Gc & G7). destruct G7 as [Ga Gb]; [cbn; congruence|].
    cbn in G1, G3, G4. assert (Hn5 : mOnConnect (d s5) = None) by congruence.
    assert (Ht5 : torn_down s5) by (by intros _). assert (Hr5 : reads_ok s5) by (intros Hr; congruence).
    split_and!; [split_and!; [done| |lia]|done|intros _; split_and!; [left; congruence|done|done|done]|intros _ E; by apply G6 in E].
    split; try (intros; congruence); try done.
    intros _. split_and!; [congruence|by right| |congruence]. cbn in Gc. destruct Gc as [->| ->]; [left; congruence|by right].
  - rewrite bool_decide_false by (intros H; by apply H). cbn [negb]. destruct (closing_to_valid L s kClosed Hv Ec) as [Hv1 Hl1]; [left; by rewrite Eh|].
    eapply returns_bind; [apply (set_state_spec L kClosed (with_close_requested s true) Hv1); unfold closing_to in *; cbn [d with_close_requested with_d mOnStateChange]; lia|].
    change (enter kClosed (with_close_requested s true)) with (closing_to kClosed s). cbn [d with_close_requested with_d mOnStateChange].
    intros s2 (Hv2 & He2 & Hl2). pose proof (e_closed _ _ He2 eq_refl) as Ec2. destruct (core_eq _ _ Ec2) as (E1 & E2 & E3 & E4 & E5 & E6 & E7 & E8 & E9 & E10 & E11 & E12).
    pose proof (core_none _ _ Ec2) as En2. cbn in E1, E2, E3, E4, E5, E6, E7, E8, E9, E10, E11, E12, En2.
    assert (Hbc : bOnConnect (b s) = None).
    { destruct (bOnConnect (b s)) as [f|] eqn:Ef; [|done]. destruct (v_connect _ _ Hv f Ef) as (_ & Hr & _). by destruct (v_reqs _ _ Hv (or_introl Hr)). }
    unfold b_close. set (s4 := with_on_closed s2 None).
    assert (Hv4 : valid_in L s4) by (destruct Hv2; by split).
    eapply returns_mono; [apply (b_begin_close_spec L s4 Hv4); [cbn; congruence|left; cbn; congruence|]|].
    { subst s4. unfold load, remaining in *. cbn in *. lia. }
    assert (Hl4 : load s4 <= load s2) by (subst s4; unfold load, remaining; cbn; lia).
    intros s5 (Hv5 & Hl5 & G1 & G2 & G3 & G4 & G5 & G6 & Gc & G7). destruct G7 as [Ga Gb]; [cbn; congruence|].
    cbn in G1, G3, G4, G6. assert (Ht5 : torn_down s5) by (by intros _). assert (Hr5 : reads_ok s5) by (intros Hr; congruence).
    split_and!; [split_and!; [done| |lia]|done|intros _; split_and!; [right; congruence|done|done|done]|congruence].
    split; try (intros; congruence); try done.
    + intros _. split_and!; [congruence|left; congruence| |congruence]. cbn in Gc. destruct Gc as [->| ->]; [left; congruence|by right].
    + intros _ _ _. split_and!; [by apply G6, En2|congruence|right; split; congruence].
    + intros Hp Hm. exfalso. by apply Hp; [congruence|].
Qed.

(** *** [TcpSocketPrivate::connect_done] *)
Lemma map_transport_error_some (status : Z) : map_transport_error uv status <> kNone.
Proof. unfold map_transport_error. repeat case_match; done. Qed.

(** The callback of the connect, if it is still there *)
Lemma take_connect_spec (L : list (request * nat)) (ok : bool) (s : sock) :
  valid_in L s -> (mCloseRequested (d s) = false -> mState (d s) <> kIdle) -> load s <= fuel ->
  returns (match mOnConnect (d s) with
           | Some cb => invoke (User cb) (Connected ok) (with_on_connect s None)
           | None => Ret s
           end) (fun s' => valid_in L s' /\ load s' <= load s /\ evolves (with_on_connect s None) s' /\ mOnConnect (d s') = None).
Proof.
  intros Hv Hi Hf. destruct (mOnConnect (d s)) as [cb|] eqn:Em.
  - assert (Hl : load (with_on_connect s None) + cb_weight cb = load s) by (unfold load, remaining; cbn; rewrite Em; cbn; lia).
    eapply returns_mono; [apply (Hcall L cb (Connected ok) (with_on_connect s None)); [|lia]|].
    + destruct Hv. split; try done; cbn.
      * intros. destruct (v_idle0 H H0) as (? & ? & ?). congruence.
      * rewrite v_count0. unfold due. cbn. rewrite Em. cbn. rewrite app_nil_r. solve_Permutation.
    + intros s' (Hv' & He' & Hl'). split_and!; [done|lia|done|]. destruct (mCloseRequested (d s)) eqn:Ec.
      * pose proof (e_closed _ _ He' Ec) as E. by destruct (core_eq _ _ E) as (_ & _ & -> & _).
      * destruct (e_going _ _ He') as (_ & [-> | ->] & _); [by apply Hi|done|done].
  - split_and!; [done|lia| |done]. apply evolves_same; [|done|done]. unfold core. cbn. by rewrite Em.
Qed.

Lemma connect_done_false_spec (L : list (request * nat)) (s : sock) :
  valid_in L s -> (mCloseRequested (d s) = false -> mState (d s) = kConnecting /\ mLastError (d s) = kNone) ->
  bOnConnect (b s) = None -> load s <= fuel -> returns (connect_done uv invoke false s) (connect_failed L s).
Proof.
  intros Hv Hpre Hbc Hf. unfold connect_done. cbn [andb negb]. destruct (mCloseRequested (d s)) eqn:Ec; cbn [negb].
  - cbn [run_bind]. eapply returns_bind; [apply (take_connect_spec L false s Hv); [congruence|done]|].
    intros s' (Hv' & Hl' & He' & Hn'). pose proof (e_closed _ _ He' Ec) as E. destruct (core_eq _ _ E) as (_ & Ec' & _). cbn in Ec'.
    rewrite Ec', Ec, andb_false_r. cbn [returns]. split_and!; [done|done|done|congruence| |].
    + exact (evolves_keeps _ _ He').
    + by intros _.
  - destruct (Hpre eq_refl) as [Est Eerr]. set (err := map_transport_error uv (mNativeStatus (b s))).
    assert (Hv1 : valid_in L (with_last_error s err)) by (destruct Hv; split; try done; cbn; congruence).
    eapply (returns_bind _ _ (fun s3 => valid_in L s3 /\ load s3 <= load s /\ keeps s s3 /\ (mCloseRequested (d s3) = false -> mState (d s3) = kClosing))).
    { eapply returns_bind; [apply (report_error_spec L err s Hv1); [apply map_transport_error_some|done|done]|].
      intros s2 (Hv2 & He2 & Hl2). destruct (e_going _ _ He2) as (_ & _ & Hb2 & Hs2); [cbn; congruence|]. cbn in Hb2, Hs2.
      assert (Hb2' : bOnConnect (b s2) = None) by (destruct Hb2; congruence).
      case_bool_decide as Hst2.
      - assert (Hc2 : mCloseRequested (d s2) = false).
        { destruct (mCloseRequested (d s2)) eqn:E; [|done]. destruct (v_state _ _ Hv2 E) as [?|[?|?]]; congruence. }
        destruct (enter_valid L s2 kClosing Hv2) as [Hv3 Hl3]; [by rewrite Hst2|unfold remaining; cbn; by rewrite Hc2, Hst2|done|done|].
        eapply returns_mono; [apply (set_state_spec L kClosing s2 Hv3); lia|]. intros s3 (Hv4 & He4 & Hl4). split_and!; [done|lia| |].
        + exact (keeps_trans s s2 s3 (evolves_keeps _ _ He2) (evolves_keeps _ _ He4)).
        + intros Hc. destruct (e_going _ _ He4) as (_ & _ & _ & Hs4); [done|]. by apply Hs4.
      - split_and!; [done|lia|exact (evolves_keeps _ _ He2)|]. intros Hc. exfalso. apply Hst2. rewrite Hs2; done. }
    intros s3 (Hv3 & Hl3 & Ht3 & Hs3). eapply returns_bind; [apply (take_connect_spec L false s3 Hv3); [intros Hc; rewrite Hs3; done|lia]|].
    intros s4 (Hv4 & Hl4 & He4 & Hn4). assert (Hs4 : mCloseRequested (d s4) = false -> mState (d s4) = kClosing).
    { intros Hc. assert (Hc3 : mCloseRequested (d s3) = false).
      { destruct (mCloseRequested (d s3)) eqn:E3; [|done]. pose proof (e_closed _ _ He4 E3) as E. destruct (core_eq _ _ E) as (_ & Ec4 & _). cbn in Ec4. congruence. }
      destruct (e_going _ _ He4) as (_ & _ & _ & H); [cbn; rewrite Hs3; done|]. rewrite H by done. by apply Hs3. }
    assert (Ht4 : keeps s s4) by exact (keeps_trans s s3 s4 Ht3 (evolves_keeps _ _ He4)).
    destruct (mCloseRequested (d s4)) eqn:Ec4; cbn [negb].
    { rewrite andb_false_r. cbn [returns]. split_and!; [done|lia|done|done|done|congruence]. }
    rewrite bool_decide_true by auto. cbn [andb]. eapply returns_bind; [apply (begin_close_spec L s4 Hv4); lia|].
    intros s5 ((Hv5 & He5 & Hl5) & Hc5 & H5 & _). destruct (H5 Ec4) as (Hst5 & Ht5 & Hr5 & _). assert (Hk5 : keeps s s5) by (by split).
    assert (Hn5 : mOnConnect (d s5) = None) by (destruct (e_going _ _ He5) as (_ & [?|?] & _); [rewrite Hs4; done|congruence|done]).
    case_bool_decide as Hcl.
    + destruct (enter_valid L s5 kIdle Hv5) as [Hv6 Hl6]; [by rewrite Hcl|unfold remaining; cbn; by rewrite Hc5, Hcl|congruence|done|].
      eapply returns_mono; [apply (set_state_spec L kIdle s5 Hv6); lia|]. intros s6 (Hv7 & He7 & Hl7).
      pose proof (e_closed _ _ He7 Hc5) as E. destruct (core_eq _ _ E) as (_ & E2 & E3 & _). cbn in E2, E3.
      split_and!; [done|lia|congruence|congruence| |congruence]. exact (keeps_trans s s5 s6 Hk5 (evolves_keeps _ _ He7)).
    + split_and!; [done|lia|done|done|done|congruence].
Qed.

(** A connect that succeeded *)
Lemma connect_done_true_spec (L : list (request * nat)) (s : sock) :
  valid_in L s -> mCloseRequested (d s) = false -> mState (d s) = kConnecting -> mLastError (d s) = kNone -> bOnConnect (b s) = None ->
  mHandle (b s) <> None -> load s <= fuel ->
  returns (connect_done uv invoke true s) (fun s' => valid_in L s' /\ load s' <= load s /\ keeps s s' /\ no_error_yet s' /\ mOnConnect (d s') = None).
Proof.
  intros Hv Hc Hst Herr Hbc Hh Hf. unfold connect_done. rewrite bool_decide_true by done. cbn [andb negb].
  destruct (enter_valid L s kConnected Hv) as [Hv1 Hl1]; [by rewrite Hst|unfold remaining; cbn; by rewrite Hc, Hst|done|done|].
  eapply returns_bind; [apply (set_state_spec L kConnected s Hv1); lia|]. intros s2 (Hv2 & He2 & Hl2).
  assert (Hi2 : mCloseRequested (d s2) = false -> mState (d s2) <> kIdle).
  { intros Hc2. destruct (e_going _ _ He2) as (_ & _ & _ & H); [done|]. by rewrite H. }
  eapply returns_bind; [apply (take_connect_spec L true s2 Hv2 Hi2); lia|]. intros s3 (Hv3 & Hl3 & He3 & Hn3). cbn [returns].
  split_and!; [done|lia| | |done].
  - exact (keeps_trans s s2 s3 (evolves_keeps _ _ He2) (evolves_keeps _ _ He3)).
  - apply (e_error _ _ He3). assert (Ht2 : no_error_yet s2) by (apply (e_error _ _ He2); by intros _). exact Ht2.
Qed.

(** *** Writes *)
Lemma submit_next_write_spec (turns : nat) (L : list (request * nat)) (s : sock) :
  valid_in L s -> torn_down s -> load s <= turns -> load s <= fuel -> returns (submit_next_write answer invoke turns s) (post L s (load s)).
Proof.
  revert s. induction turns as [|turns IH]; intros s Hv Ht Hturns Hf; cbn [submit_next_write].
  all: destruct (mWriteReq (b s)) eqn:Ew; [split_and!; [done|apply evolves_refl|lia]|].
  all: destruct (mPendingWrites (b s)) as [|p rest] eqn:Ep; [split_and!; [done|apply evolves_refl|lia]|].
  { exfalso. unfold load in Hturns. rewrite Ep, pending_weight_cons in Hturns. pose proof (cb_weight_pos (mOnWritten p)). lia. }
  assert (Ecur : mOnWrittenCurrent (b s) = None).
  { destruct (mOnWrittenCurrent (b s)) as [cb|] eqn:E; [|done]. assert (mWriteReq (b s) = true) by (apply (v_current _ _ Hv); congruence). congruence. }
  destruct (v_pending _ _ Hv) as [Hh Hb]; [by rewrite Ep|]. assert (Hc : mCloseRequested (d s) = false).
  { destruct (mCloseRequested (d s)) eqn:E; [|done]. specialize (Ht E). congruence. }
  destruct (mHandle (b s)) as [h|] eqn:Eh; [|done].
  assert (Hcl : closing h = false) by (destruct (closing h) eqn:E; [pose proof (v_closing _ _ Hv h Eh E); congruence|done]).
  unfold open_handle. cbn [b with_in_flight with_pending with_b mHandle]. rewrite Eh. cbn [deref run_bind]. rewrite Hcl. cbn [run_bind].
  cbn [ask]. destruct (v_fifo _ _ Hv) as (rest' & Efifo & Hrest). rewrite (Hrest Hb), Ep, fmap_cons, reverse_cons, app_nil_l, <- (assoc_L (++)) in Efifo. cbn in Efifo.
  match goal with |- context [negb ?c] => destruct c; cbn [negb] end.
  - set (s' := with_current _ _). split_and!.
    + destruct Hv. split; try done; cbn.
      * intros _. split; congruence.
      * intros _. congruence.
      * rewrite v_count0. unfold due. cbn. rewrite Ep, Ecur. cbn. solve_Permutation.
      * exists []. split; [|done]. exact Efifo.
    + apply evolves_work; try done. by rewrite Eh.
    + unfold load, remaining. cbn. rewrite Ep, pending_weight_cons, Ecur. cbn. lia.
  - set (s3 := with_in_flight _ []). assert (Hl3 : load s3 + cb_weight (mOnWritten p) = load s).
    { subst s3. unfold load, remaining. cbn. rewrite Ep, pending_weight_cons. lia. }
    pose proof (cb_weight_pos (mOnWritten p)) as Hpos.
    assert (Hv3 : valid_in (ticket (Written false) (cb_name (mOnWritten p)) ++ L) s3).
    { destruct Hv. split; try done; cbn.
      * intros _. split; congruence.
      * rewrite v_count0. unfold due. cbn. rewrite Ep. cbn. solve_Permutation.
      * exists []. split; [|done]. exact Efifo.
      * congruence. }
    assert (He3 : evolves s s3) by (apply evolves_work; try done; by rewrite Eh).
    eapply returns_bind; [apply (Hcall L (mOnWritten p) (Written false) s3 Hv3); lia|]. intros s4 (Hv4 & He4 & Hl4).
    eapply returns_mono; [apply (IH s4 Hv4); [|lia|lia]|].
    + apply (e_torn _ _ He4), (e_torn _ _ He3), Ht.
    + intros s5 Hp. eapply post_trans; [by apply (evolves_trans s s3 s4)|done|lia].
Qed.

Lemma write_spec (L : list (request * nat)) (data : list Z) (cb : callback) (s : sock) :
  valid_in L s -> op_weight (Write data cb) + load s <= fuel -> returns (write answer fuel invoke data cb s) (post L s (load s + op_weight (Write data cb))).
Proof.
  intros Hv Hf. unfold write. cbn [op_weight] in *. set (s1 := record (Asked (Written true) (cb_name cb)) s).
  pose proof (asked_valid L (Written true) (cb_name cb) s Hv) as Hv1. fold s1 in Hv1.
  assert (E1 : evolves s s1) by (by apply evolves_same). assert (Hl1 : load s1 = load s) by done.
  destruct (mCloseRequested (d s1) || bool_decide (mState (d s1) = kClosing) || bool_decide (mState (d s1) = kClosed)) eqn:Ed.
  - eapply returns_mono; [apply (Hcall L cb (Written false) s1 Hv1); lia|]. intros s2 Hp. eapply post_trans; [done|done|lia].
  - apply orb_false_iff in Ed as [[Hc _]%orb_false_iff _]. change (mCloseRequested (d s) = false) in Hc.
    apply returns_check. intros Hst%bool_decide_eq_true. change (mState (d s) = kConnected) in Hst.
    pose proof (latch_going L s Hv Hc) as Hb. pose proof (v_open _ _ Hv Hst Hc) as Hh. unfold b_write. set (s2 := record (Accepted data) _).
    assert (Hl2 : load s2 = load s + cb_weight cb).
    { subst s2. unfold load, remaining. cbn. unfold pending_weight. rewrite sum_list_with_app. cbn. lia. }
    assert (Hv2 : valid_in L s2).
    { subst s1. destruct Hv1. split; try done; cbn.
      - cbn in v_count0. rewrite v_count0. unfold due. cbn. rewrite map_app. cbn. solve_Permutation.
      - destruct v_fifo0 as (rest & E & Hr). rewrite (Hr Hb) in E. exists []. split; [|done]. rewrite fmap_app, reverse_app. cbn in *. by rewrite E. }
    assert (He2 : evolves s s2) by (by apply evolves_work).
    eapply returns_mono; [apply (submit_next_write_spec fuel L s2 Hv2); [intros ?; cbn in *; congruence|lia|lia]|].
    intros s3 Hp. eapply post_trans; [done|done|lia].
Qed.

(** *** Reads *)
Lemma read_start_spec (L : list (request * nat)) (cb : callback) (s : sock) :
  valid_in L s -> returns (read_start answer cb s) (post L s (load s + op_weight (ReadStart cb))).
Proof.
  intros Hv. unfold read_start. apply returns_check. intros Hc%negb_true_iff. apply returns_check. intros Hst%bool_decide_eq_true.
  pose proof (latch_going L s Hv Hc) as Hb. pose proof (v_open _ _ Hv Hst Hc) as Hh. unfold b_read_start.
  change (mReadArmed (b (with_on_data s (Some cb)))) with (mReadArmed (b s)). destruct (mReadArmed (b s)) eqn:Ea.
  - split_and!; [|by apply evolves_work|unfold load, remaining; cbn; lia]. destruct Hv. split; try done; cbn. by intros f [= <-].
  - destruct (mHandle (b s)) as [h|] eqn:Eh; [|done].
    assert (Hcl : closing h = false) by (destruct (closing h) eqn:E; [pose proof (v_closing _ _ Hv h Eh E); congruence|done]).
    unfold open_handle. cbn [b with_b_on_data with_on_data with_b with_d mHandle]. rewrite Eh. cbn [deref run_bind]. rewrite Hcl. cbn [run_bind ask].
    apply returns_check. intros _. cbn [returns]. split_and!; [|apply evolves_work; try done; by rewrite Eh|unfold load, remaining; cbn; lia].
    destruct Hv. split; try done; cbn.
    + intros k [= <-]. cbn. congruence.
    + congruence.
    + intros f Ef. destruct (v_closed0 f Ef) as (? & ? & ? & ?). by split_and!.
    + by intros f [= <-].
Qed.

(** *** Connecting *)
Definition asking (cb : callback) (s : sock) : sock := record (Asked (Connected true) (cb_name cb)) (with_on_connect s (Some cb)).

Lemma asking_valid (L : list (request * nat)) (cb : callback) (s : sock) :
  valid_in L s -> mState (d s) = kIdle -> mCloseRequested (d s) = false ->
  valid_in L (enter kConnecting (asking cb s)) /\ load (enter kConnecting (asking cb s)) + opt_weight (mOnStateChange (d s)) <= load s + cb_weight cb.
Proof.
  intros Hv Hst Hc. destruct (v_idle _ _ Hv Hst Hc) as (Hh & Hm & Herr). split.
  - assert (Hr : remaining s = 4) by (unfold remaining; by rewrite Hc, Hst).
    assert (Hr' : remaining (enter kConnecting (asking cb s)) = 3) by (unfold remaining; cbn; by rewrite Hc).
    destruct Hv. split; try done; cbn.
    + congruence.
    + by auto.
    + intros f Ef. destruct (v_closed0 f Ef) as (_ & ? & _). congruence.
    + intros f Ef. destruct (v_connect0 f Ef) as (? & ? & ?). by split_and!.
    + rewrite v_count0. unfold due. cbn. rewrite Hm. cbn. rewrite app_nil_r. solve_Permutation.
    + destruct v_history0 as [Hl He]. rewrite <- He, Hst. by split_and!.
    + lia.
  - unfold load, remaining. cbn. rewrite Hc, Hst, Hm. cbn. lia.
Qed.

Lemma b_connect_spec (L : list (request * nat)) (valid : bool) (s : sock) :
  valid_in L s -> mHandle (b s) = None -> bOnConnect (b s) = None -> (mCloseRequested (d s) = false -> mState (d s) = kConnecting /\ mLastError (d s) = kNone) ->
  1 + load s <= fuel ->
  returns (b_connect uv answer invoke valid ConnectDone s) (fun s' => valid_in L s' /\ load s' <= 1 + load s /\ keeps s s' /\
    no_error_yet s' /\ connect_pending s').
Proof.
  intros Hv Hh Hbc Hpre Hf. unfold b_connect.
  assert (Hfail : forall s1, valid_in L s1 -> d s1 = d s -> bOnConnect (b s1) = None -> bCloseRequested (b s1) = bCloseRequested (b s) ->
    mReadArmed (b s1) = mReadArmed (b s) -> bOnData (b s1) = bOnData (b s) -> load s1 = load s -> returns (invoke ConnectDone (Connected false) s1) (fun s' => valid_in L s' /\ load s' <= 1 + load s /\ keeps s s' /\
    no_error_yet s' /\ connect_pending s')).
  { intros s1 Hv1 Ed Eb Ebc Ea Eod El. eapply returns_mono; [apply (Hdone L s1 Hv1); [by rewrite Ed|done|lia]|].
    intros s' (H1 & H2 & H3 & H4 & H5 & _). split_and!; [done|lia| |intros ?; congruence|intros ?; congruence].
    revert H5. unfold keeps, torn_down, reads_ok. by rewrite Ed, Ebc, Ea, Eod. }
  destruct valid; cbn [negb].
  2:{ apply Hfail; try done. destruct Hv. by split. }
  cbn [ask]. apply returns_check. intros _. cbn.
  assert (Hna : mReadArmed (b s) = false) by (destruct (mReadArmed (b s)) eqn:Ea; [by destruct (v_armed _ _ Hv Ea)|done]).
  assert (Hnp : mPendingWrites (b s) = []).
  { destruct (mPendingWrites (b s)) as [|p l] eqn:Ep; [done|]. destruct (v_pending _ _ Hv) as [? _]; [by rewrite Ep|done]. }
  assert (Hnc : mOnClosed (b s) = None) by (destruct (mOnClosed (b s)) as [f|] eqn:Ef; [by destruct (v_closed _ _ Hv f Ef) as (_ & _ & ? & _)|done]).
  match goal with |- context [negb ?c] => destruct c; cbn [negb] end.
  - cbn. split_and!.
    + destruct Hv. split; try done; cbn.
      * by intros h [= <-].
      * by intros h [= <-].
      * intros Hs Hc. destruct (Hpre Hc). congruence.
      * by rewrite Hnc.
      * intros f [= <-]. split_and!; [done|done|]. intros Hc. by apply Hpre.
    + unfold load, remaining. cbn. rewrite Hbc. lia.
    + done.
    + intros Hc. by apply Hpre.
    + done.
  - cbn. apply Hfail; try done.
    + destruct Hv. split; try done; cbn.
      * by intros h [= <-].
      * by intros h [= <-].
      * intros Hs Hc. destruct (Hpre Hc). congruence.
      * by rewrite Hnc.
    + unfold load, remaining. cbn. by rewrite Hbc.
Qed.

Lemma connect_spec (L : list (request * nat)) (valid : bool) (cb : callback) (s : sock) :
  valid_in L s -> op_weight (Connect valid cb) + load s <= fuel -> returns (connect uv answer invoke valid cb s) (post L s (load s + op_weight (Connect valid cb))).
Proof.
  intros Hv Hf. cbn [op_weight] in *. unfold connect. apply returns_check. intros Hst%bool_decide_eq_true. apply returns_check. intros Hc%negb_true_iff.
  change (record _ _) with (asking cb s). destruct (asking_valid L cb s Hv Hst Hc) as [Hv1 Hl1]. destruct (v_idle _ _ Hv Hst Hc) as (Hh & Hm & Herr).
  assert (Hbc : bOnConnect (b s) = None).
  { destruct (bOnConnect (b s)) as [f|] eqn:Ef; [|done]. destruct (v_connect _ _ Hv f Ef) as (_ & Hr & _). by destruct (v_reqs _ _ Hv (or_introl Hr)). }
  eapply returns_bind; [apply (set_state_spec L kConnecting (asking cb s) Hv1)|].
  { change (mOnStateChange (d (asking cb s))) with (mOnStateChange (d s)). lia. }
  change (mOnStateChange (d (asking cb s))) with (mOnStateChange (d s)). intros s2 (Hv2 & He2 & Hl2).
  destruct (e_going _ _ He2) as (Herr2 & _ & Hb2 & _); [done|]. destruct (e_window _ _ He2) as (Hh2 & Hm2 & Hst2); [done|done|done|]. cbn in Herr2, Hb2, Hm2.
  eapply returns_mono; [apply (b_connect_spec L valid s2 Hv2 Hh2)|].
  - destruct Hb2; congruence.
  - intros Hc2. split; [destruct Hst2 as [[? ?]|[? ?]]; congruence|congruence].
  - lia.
  - intros s3 (Hv3 & Hl3 & Ht3 & He3 & Hp3). split_and!; [done| |lia]. split; try (intros; congruence); try (by intros _).
    + intros _. apply Ht3, (e_torn _ _ He2). intros ?. cbn in *. congruence.
    + intros Hr. apply Ht3, (e_reads _ _ He2). exact Hr.
Qed.

(** *** Any call of the user *)
Lemma op_spec (L : list (request * nat)) (o : op) (s : sock) :
  valid_in L s -> op_weight o + load s <= fuel -> returns (perform uv answer fuel invoke o s) (post L s (load s + op_weight o)).
Proof.
  intros Hv Hf. destruct o as [valid cb|data cb|cb| | |o|o]; cbn [perform].
  - by apply connect_spec.
  - by apply write_spec.
  - by apply read_start_spec.
  - eapply returns_mono; [by apply b_read_stop_spec|]. intros s' ((H1 & H2 & H3) & _). split_and!; [done|done|cbn; lia].
  - eapply returns_mono; [apply begin_close_spec; [done|cbn in Hf; lia]|]. intros s' ((H1 & H2 & H3) & _). split_and!; [done|done|cbn; lia].
  - split_and!; [destruct Hv; by split|by apply evolves_same|]. unfold load, remaining. cbn. case_decide; destruct o; cbn; lia.
  - split_and!; [destruct Hv; by split|by apply evolves_same|]. unfold load, remaining. cbn. destruct (mCloseRequested (d s)), (mState (d s)), o; cbn; lia.
Qed.

Lemma perform_all_spec (L : list (request * nat)) (l : list op) (s : sock) :
  valid_in L s -> ops_weight l + load s <= fuel -> returns (perform_all uv answer fuel invoke l s) (post L s (load s + ops_weight l)).
Proof.
  revert s. induction l as [|o l IH]; intros s Hv Hf; cbn [perform_all].
  { split_and!; [done|apply evolves_refl|lia]. }
  cbn in Hf. eapply returns_bind; [apply (op_spec L o s Hv); lia|]. intros s1 (Hv1 & He1 & Hl1).
  eapply returns_mono; [apply (IH s1 Hv1); unfold ops_weight; lia|]. intros s2 Hp. eapply post_trans; [done|done|]. cbn. unfold ops_weight in *. lia.
Qed.
End Functions.

(** ** The knot *)
Section Socket.
Context (uv : uv_codes) (answer : nat -> Z).

Lemma invoke_spec (fuel : nat) :
  (forall L cb a s, valid_in (ticket a (cb_name cb) ++ L) s -> cb_weight cb + load s <= fuel ->
    returns (invoke uv answer fuel (User cb) a s) (post L s (load s + cb_weight cb - 1))) /\
  (forall L s, valid_in L s -> (mCloseRequested (d s) = false -> mState (d s) = kConnecting /\ mLastError (d s) = kNone) ->
    bOnConnect (b s) = None -> 1 + load s <= fuel -> returns (invoke uv answer fuel ConnectDone (Connected false) s) (connect_failed L s)).
Proof.
  induction fuel as [|fuel [IH1 IH2]].
  { split; [|lia]. intros L cb a s _ Hf. pose proof (cb_weight_pos cb). lia. }
  split; cbn [invoke].
  - intros L cb a s Hv Hf. rewrite cb_weight_body in *. set (s1 := record (Called (cb_name cb) a) s).
    pose proof (called_valid L a (cb_name cb) s Hv) as Hv1. fold s1 in Hv1. assert (Hl1 : load s1 = load s) by done.
    eapply returns_mono; [apply (perform_all_spec uv answer fuel _ IH1 IH2 L (cb_body cb) s1 Hv1); lia|].
    intros s2 Hp. eapply post_trans; [by apply (evolves_same s s1)|done|lia].
  - intros L s Hv Hpre Hb Hf. apply (connect_done_false_spec uv answer fuel _ IH1 IH2 L s); [done|done|done|lia].
Qed.
End Socket.
