(* ===== verification/TcpSocketRun.v ===== *)
(** * TCP sockets: what any program sees

    Stimuli, calls from outside and callbacks of libuv, as steps from a new or an adopted
    socket. What the invariant of [TcpSocketFacts] says at rest: no request is lost, nothing
    reaches a handle that is gone, states follow each other as they may, and destruction
    ends. *)

From stdpp Require Import prelude list.
From Stdlib Require Import ZArith Lia.
From S2P Require Import Prelude SocketTypes TcpSocket TcpSocketFacts.

#[local] Open Scope nat_scope.
#[local] Open Scope cxx_scope.

#[local] Arguments pending_weight _ : simpl never.
#[local] Arguments remaining _ : simpl never.
#[local] Arguments reverse {_} _ : simpl never.

Section Socket.
Context (uv : uv_codes) (answer : nat -> Z).

(** ** Stimuli *)
Definition socket_ok (s : sock) : Prop := valid_in [] s /\ settled s.

(** The nesting that a stimulus needs *)
Definition stimulus_weight (e : stimulus) (s : sock) : nat :=
  match e with Call o => op_weight o + load s | _ => S (load s + opt_weight (mOnData (d s))) end.

Lemma settled_evolves (s s' : sock) : evolves s s' -> settled s -> settled s'.
Proof. intros H (H1 & H2 & H3 & H4). split_and!; [by apply (e_torn _ _ H)|by apply (e_reads _ _ H)|by apply (e_error _ _ H)|by apply (e_pending _ _ H)]. Qed.

Lemma post_ok (s s' : sock) (w : nat) : post [] s w s' -> settled s -> socket_ok s'.
Proof. intros (H1 & H2 & _) Hs. split; [done|by apply (settled_evolves s)]. Qed.

Lemma call_ok (fuel : nat) (o : op) (s : sock) : socket_ok s -> op_weight o + load s <= fuel -> returns (react uv answer fuel (Call o) s) socket_ok.
Proof.
  intros [Hv Hs] Hf. destruct (invoke_spec uv answer fuel) as [H1 H2]. cbn [react].
  eapply returns_mono; [by apply (op_spec uv answer fuel _ H1 H2 [])|]. intros s' Hp. by eapply post_ok.
Qed.

Lemma connect_cb_ok (fuel : nat) (status : Z) (s : sock) :
  socket_ok s -> mConnectReq (b s) = true -> S (load s) <= fuel -> returns (react uv answer fuel (ConnectCb status) s) (fun s' => socket_ok s' /\ load s' <= load s /\
    (mCloseRequested (d s) = true -> mCloseRequested (d s') = true /\ mConnectReq (b s') = false /\ mWriteReq (b s') = mWriteReq (b s) /\
      closing <$> mHandle (b s') = closing <$> mHandle (b s))).
Proof.
  intros [Hv (Ht & Hr & He & Hp)] Hreq Hf. cbn [react]. unfold on_connect_done. set (s1 := with_native_status (with_connect_req s false) status).
  change (bOnConnect (b s1)) with (bOnConnect (b s)). change (bCloseRequested (b s1)) with (bCloseRequested (b s)).
  destruct (bOnConnect (b s)) as [f|] eqn:Ef.
  2:{ cbn [returns]. split_and!; [|unfold load, remaining; cbn; lia|done]. split; [destruct Hv; split; try done; cbn|].
      - intros [?|?]; [done|]. apply v_reqs. by right.
      - intros f Ef'. congruence.
      - unfold settled, torn_down, reads_ok, no_error_yet, connect_pending in *. cbn. by split_and!. }
  destruct (v_connect _ _ Hv f Ef) as (-> & _ & Hst). set (s2 := with_b_on_connect s1 None).
  assert (Hv2 : valid_in [] s2).
  { destruct Hv. split; try done; cbn. intros [?|?]; [done|]. apply v_reqs. by right. }
  assert (Hl2 : load s2 + 1 = load s) by (subst s2 s1; unfold load, remaining; cbn; rewrite Ef; lia).
  assert (Hh : mHandle (b s) <> None) by (apply (v_reqs _ _ Hv); by left).
  destruct fuel as [|fuel]; [lia|]. destruct (invoke_spec uv answer fuel) as [H1 H2], (invoke_spec uv answer (S fuel)) as [_ H3].
  destruct ((status =? 0)%Z && negb (bCloseRequested (b s))) eqn:Eok.
  - apply andb_true_iff in Eok as [_ Hb%negb_true_iff].
    assert (Hc : mCloseRequested (d s) = false) by (destruct (mCloseRequested (d s)) eqn:E; [specialize (Ht E); congruence|done]).
    cbn [invoke]. eapply returns_mono; [apply (connect_done_true_spec uv fuel _ H1 [] s2 Hv2); try done; [by apply Hst|by apply He|lia]|].
    intros s3 (Hv3 & Hl3 & [Ht3 Hr3] & He3 & Hn3). split_and!; [|lia|congruence]. split; [done|]. split_and!; [by apply Ht3|by apply Hr3|done|intros ?; congruence].
  - eapply returns_mono; [apply (H3 [] s2 Hv2); [|done|lia]|].
    + intros Hc. split; [by apply Hst|by apply He].
    + intros s3 (Hv3 & Hl3 & Hn3 & Hc3 & [Ht3 Hr3] & Hcore). split_and!; [|lia|].
      * split; [done|]. split_and!; [by apply Ht3|by apply Hr3|intros ?; congruence|intros ?; congruence].
      * intros Hc. destruct (core_eq _ _ (Hcore Hc)) as (_ & E2 & _ & _ & _ & E6 & E7 & E8 & _). cbn in E2, E6, E7, E8. by split_and!; [congruence|..].
Qed.

Lemma write_cb_ok (fuel : nat) (status : Z) (s : sock) :
  socket_ok s -> mWriteReq (b s) = true -> S (load s) <= fuel -> returns (react uv answer fuel (WriteCb status) s) (fun s' => socket_ok s' /\ load s' <= load s /\
    (mCloseRequested (d s) = true -> core s' = core (with_write_req s false))).
Proof.
  intros [Hv Hs] Hreq Hf. cbn [react]. unfold on_write_done. set (s1 := with_native_status s status).
  change (mOnWrittenCurrent (b s1)) with (mOnWrittenCurrent (b s)). destruct (invoke_spec uv answer fuel) as [H1 H2].
  destruct (mOnWrittenCurrent (b s)) as [cb|] eqn:Ecur; [|exfalso; by apply (v_current _ _ Hv) in Hreq].
  set (s2 := with_in_flight (with_write_req (with_current s1 None) false) []).
  assert (Hl2 : load s2 + cb_weight cb = load s) by (subst s2 s1; unfold load, remaining; cbn; rewrite Ecur; cbn; lia).
  assert (Hv2 : valid_in (ticket (Written (status =? 0)%Z) (cb_name cb) ++ []) s2).
  { destruct Hv. split; try done; cbn.
    - intros [?|?]; [|done]. apply v_reqs. by left.
    - rewrite v_count. unfold due. cbn. rewrite Ecur. cbn. rewrite app_nil_r. solve_Permutation. }
  assert (Hs2 : settled s2) by exact Hs.
  eapply returns_bind; [apply (H1 [] cb (Written (status =? 0)%Z) s2 Hv2); lia|]. intros s3 (Hv3 & He3 & Hl3).
  pose proof (settled_evolves _ _ He3 Hs2) as Hs3. pose proof (cb_weight_pos cb).
  destruct (mCloseRequested (d s)) eqn:Ec.
  - pose proof (e_closed _ _ He3 Ec) as Ecore. destruct (core_eq _ _ Ecore) as (E1 & E2 & E3 & E4 & E5 & E6 & E7 & E8 & E9 & E10 & E11 & E12).
    cbn in E8, E9, E10. assert (Hnp : mPendingWrites (b s3) = []).
    { destruct (mPendingWrites (b s3)) as [|p l] eqn:Ep; [done|]. destruct (v_pending _ _ Hv3) as [_ Hb]; [by rewrite Ep|].
      destruct Hs as [Ht _]. specialize (Ht Ec). congruence. }
    assert (E : submit_next_write answer (invoke uv answer fuel) fuel s3 = Ret s3).
    { destruct fuel; cbn [submit_next_write]; by rewrite E8, Hnp. }
    rewrite E. cbn [returns]. split_and!; [by split|lia|]. intros _. rewrite Ecore. done.
  - eapply returns_mono; [apply (submit_next_write_spec answer fuel _ H1 fuel [] s3 Hv3); [apply Hs3|lia|lia]|].
    intros s4 Hp. split_and!; [by eapply post_ok|destruct Hp as (_ & _ & ?); lia|done].
Qed.

(** A read that failed ends in a close. *)
Lemma read_failed_spec (fuel : nat) (nread : Z) (s : sock) :
  valid_in [] s -> torn_down s -> connect_pending s -> mCloseRequested (d s) = false -> mLastError (d s) = kNone -> mHandle (b s) <> None ->
  (nread < 0)%Z -> load s <= fuel ->
  returns (read_event uv (invoke uv answer fuel) [] nread s) (fun s' => socket_ok s' /\ load s' <= load s /\ mCloseRequested (d s') = true).
Proof.
  intros Hv Ht Hp Hc He Hh Hn Hf. destruct (invoke_spec uv answer fuel) as [H1 H2]. unfold read_event. rewrite (proj2 (Z.leb_gt 0 nread)) by done.
  set (err := if (nread =? kBackendEof)%Z then kEof else map_transport_error uv nread).
  assert (Herr : err <> kNone) by (subst err; case_match; [done|apply map_transport_error_some]).
  assert (Hv1 : valid_in [] (with_last_error s err)).
  { destruct Hv. split; try done; cbn. intros Hi _. by destruct (v_idle Hi Hc). }
  eapply returns_bind; [apply (report_error_spec fuel _ H1 [] err s Hv1 Herr He Hf)|]. intros s2 (Hv2 & He2 & Hl2).
  pose proof (e_torn _ _ He2 Ht) as Ht2. pose proof (e_pending _ _ He2 Hp) as Hp2.
  eapply (returns_bind _ _ (fun s3 => valid_in [] s3 /\ load s3 <= load s /\ torn_down s3 /\ connect_pending s3)).
  { destruct (mOnData (d s2)) as [cb|] eqn:Ed; [|by split_and!].
    assert (Hl : load (with_on_data s2 None) + cb_weight cb = load s2) by (unfold load, remaining; cbn; rewrite Ed; cbn; lia).
    eapply returns_mono; [apply (H1 [] cb (Data [] nread) (with_on_data s2 None)); [|lia]|].
    - destruct Hv2. by split.
    - intros s3 (Hv3 & He3 & Hl3). split_and!; [done|lia|apply (e_torn _ _ He3), Ht2|apply (e_pending _ _ He3), Hp2]. }
  intros s3 (Hv3 & Hl3 & Ht3 & Hp3). eapply returns_bind; [by apply (b_read_stop_spec [] s3)|]. intros s4 ((Hv4 & He4 & Hl4) & Hc4 & Ha4).
  pose proof (e_torn _ _ He4 Ht3) as Ht4. pose proof (e_pending _ _ He4 Hp3) as Hp4. assert (Hr4 : reads_ok s4) by (intros ?; congruence).
  eapply returns_mono; [apply (begin_close_spec answer fuel _ H1 H2 [] s4 Hv4); lia|]. intros s5 ((Hv5 & He5 & Hl5) & Hc5 & _).
  split_and!; [|lia|done]. split; [done|]. split_and!; [by apply (e_torn _ _ He5)|by apply (e_reads _ _ He5)|intros ?; congruence|by apply (e_pending _ _ He5)].
Qed.

Lemma read_cb_ok (fuel : nat) (nread : Z) (data : list Z) (s : sock) :
  socket_ok s -> enabled (ReadCb nread data) s -> S (load s + opt_weight (mOnData (d s))) <= fuel ->
  returns (react uv answer fuel (ReadCb nread data) s) socket_ok.
Proof.
  intros [Hv Hs] (h & Eh & Hrd & Hcl) Hf. pose proof Hs as (Ht & Hr & He & Hp). cbn [react]. unfold on_read.
  pose proof (v_reading _ _ Hv h Eh Hrd) as Ha. destruct (Hr Ha) as [Hb Hod].
  assert (Hc : mCloseRequested (d s) = false) by (destruct (mCloseRequested (d s)) eqn:E; [specialize (Ht E); congruence|done]).
  destruct (bOnData (b s)) as [f|] eqn:Ef; [|done]. pose proof (v_data _ _ Hv f Ef) as ->.
  destruct (nread =? 0)%Z eqn:E0; [by split|]. destruct fuel as [|fuel]; [lia|]. destruct (nread <? 0)%Z eqn:E1; zbool.
  - set (s1 := with_b_on_data (with_native_status s nread) None). change (bOnData (b (with_native_status s nread))) with (bOnData (b s)).
    rewrite Ef. cbn [invoke_opt invoke].
    eapply returns_bind; [apply (read_failed_spec fuel _ s1); [destruct Hv; by split|done|done|done|by apply He|cbn; congruence|case_match; [done|lia]|]|].
    { assert (load s1 = load s) as -> by done. lia. }
    intros s2 ([Hv2 Hs2] & Hl2 & Hc2). unfold b_begin_close. rewrite (proj1 Hs2 Hc2). by split.
  - cbn [invoke_opt invoke]. unfold read_event. rewrite (proj2 (Z.leb_le 0 nread)) by lia.
    destruct (mOnData (d s)) as [cb|] eqn:Ed; [|by split]. cbn in Hf. destruct (invoke_spec uv answer fuel) as [H1 _].
    eapply returns_mono; [apply (H1 [] cb (Data data nread) s Hv); lia|]. intros s' Hp'. by eapply post_ok.
Qed.

Lemma close_cb_ok (fuel : nat) (s : sock) : socket_ok s -> enabled CloseCb s -> S (load s) <= fuel ->
  returns (react uv answer fuel CloseCb s) (fun s' => socket_ok s' /\ mHandle (b s') = None /\ mCloseRequested (d s') = true).
Proof.
  intros [Hv Hs] ((h & Eh & Hcl) & Hcr & Hwr) Hf. pose proof Hs as (Ht & Hr & He & Hp). cbn [react]. unfold on_closed.
  pose proof (v_closing _ _ Hv h Eh Hcl) as Hb. pose proof (v_latch _ _ Hv Hb) as Hc.
  assert (Ha : mReadArmed (b s) = false) by (destruct (mReadArmed (b s)) eqn:Ea; [destruct (Hr Ea); congruence|done]).
  assert (Hnp : mPendingWrites (b s) = []).
  { destruct (mPendingWrites (b s)) as [|p l] eqn:Ep; [done|]. destruct (v_pending _ _ Hv) as [_ ?]; [by rewrite Ep|congruence]. }
  set (s1 := with_on_closed (with_handle s None) None).
  assert (Hv1 : valid_in [] s1).
  { destruct Hv. split; try done; cbn; try congruence.
    - intros [?|?]; congruence. }
  assert (Hs1 : settled s1) by exact Hs. assert (Hl1 : load s1 = load s) by done. cbn [b with_handle with_b mOnClosed].
  destruct (mOnClosed (b s)) as [f|] eqn:Ef.
  2:{ assert (E : with_handle s None = s1) by (clear - Ef; destruct s as [? [] ? ?]; cbn in *; by subst). rewrite E. by split_and!. }
  destruct (v_closed _ _ Hv f Ef) as (-> & _ & _ & Hst). destruct fuel as [|fuel]; [lia|]. cbn [invoke].
  change (with_on_closed _ None) with s1. unfold socket_closed. destruct (invoke_spec uv answer fuel) as [H1 H2]. case_bool_decide as Hi; cbn [negb].
  - by split_and!.
  - assert (Hst1 : mState (d s1) = kClosing) by (destruct Hst; done).
    destruct (enter_valid [] s1 kClosed Hv1) as [Hv2 Hl2]; [by rewrite Hst1|unfold remaining; cbn; rewrite Hc; change (mState (d s)) with (mState (d s1)); by rewrite Hst1|cbn; congruence|by split|].
    eapply returns_mono; [apply (set_state_spec fuel _ H1 [] kClosed s1 Hv2); lia|]. intros s3 (Hv3 & He3 & Hl3).
    pose proof (e_closed _ _ He3 Hc) as Ecore. destruct (core_eq _ _ Ecore) as (_ & E2 & _). cbn in E2.
    split_and!; [split; [done|]|by apply (core_none _ _ Ecore)|congruence]. by apply (settled_evolves _ _ He3).
Qed.

Lemma react_ok (fuel : nat) (e : stimulus) (s : sock) :
  socket_ok s -> enabled e s -> stimulus_weight e s <= fuel -> returns (react uv answer fuel e s) socket_ok.
Proof.
  intros Hok Hen Hf. destruct e as [o|status|status|nread data|]; cbn [stimulus_weight] in Hf.
  - by apply call_ok.
  - eapply returns_mono; [apply connect_cb_ok; [done|done|lia]|]. by intros s' (? & _).
  - eapply returns_mono; [apply write_cb_ok; [done|done|lia]|]. by intros s' (? & _).
  - by apply read_cb_ok.
  - eapply returns_mono; [apply close_cb_ok; [done|done|lia]|]. by intros s' (? & _).
Qed.

(** ** Reachable sockets *)
Inductive reachable : sock -> Prop :=
  | reach_new : reachable new_socket
  | reach_adopted : reachable adopt_backend
  | reach_react (s s' : sock) (e : stimulus) (fuel : nat) :
      reachable s -> enabled e s -> stimulus_weight e s <= fuel -> react uv answer fuel e s = Ret s' -> reachable s'.

Lemma new_settled (s : sock) : mCloseRequested (d s) = false -> mLastError (d s) = kNone -> mReadArmed (b s) = false -> mOnConnect (d s) = None -> settled s.
Proof. intros Hc He Hr Hm. split_and!; intros ?; congruence. Qed.

Lemma new_ok : socket_ok new_socket.
Proof.
  split; [split; try done; cbn|by apply new_settled].
  - by intros [?|?].
  - by left.
  - by exists [].
Qed.

Lemma adopted_ok : socket_ok adopt_backend.
Proof.
  split; [split; try done; cbn; try (by intros h [= <-])|by apply new_settled].
  - by right; right; left.
  - by exists [].
  - unfold remaining. cbn. lia.
Qed.

Lemma reached_ok (s : sock) : reachable s -> socket_ok s.
Proof.
  induction 1 as [| |s s' e fuel _ IH Hen Hf E]; [apply new_ok|apply adopted_ok|].
  pose proof (react_ok fuel e s IH Hen Hf) as H. by rewrite E in H.
Qed.

(** No answer is due once there is no handle. *)
Lemma nothing_due (s : sock) : socket_ok s -> mHandle (b s) = None -> due s = [].
Proof.
  intros [Hv (_ & _ & _ & Hp)] Hh. unfold due.
  assert (Hw : mPendingWrites (b s) = []).
  { destruct (mPendingWrites (b s)) as [|p l] eqn:E; [done|]. destruct (v_pending _ _ Hv) as [? _]; [by rewrite E|done]. }
  assert (Hc : mOnWrittenCurrent (b s) = None).
  { destruct (mOnWrittenCurrent (b s)) as [cb|] eqn:E; [|done]. destruct (v_reqs _ _ Hv); [|done]. right. apply (v_current _ _ Hv). by rewrite E. }
  assert (Hm : mOnConnect (d s) = None).
  { destruct (mOnConnect (d s)) as [cb|] eqn:E; [|done]. destruct (bOnConnect (b s)) as [f|] eqn:Ef; [|by exfalso; apply Hp; [rewrite E|]].
    destruct (v_connect _ _ Hv f Ef) as (_ & Hr & _). by destruct (v_reqs _ _ Hv (or_introl Hr)). }
  by rewrite Hw, Hc, Hm.
Qed.

(** ** Destruction *)

(** A handle that the backend will not close any more *)
Definition lost (s : sock) : Prop := exists h, mHandle (b s) = Some h /\ closing h = false /\ bCloseRequested (b s) = true.

(** What libuv does for a closing handle in one round of its loop: it cancels what is
    outstanding, with [cancelled] as the status, and then reports the close. *)
Definition close_round (fuel : nat) (cancelled : Z) (s : sock) : run sock :=
  do s <- (if mConnectReq (b s) then react uv answer fuel (ConnectCb cancelled) s else Ret s);
  do s <- (if mWriteReq (b s) then react uv answer fuel (WriteCb cancelled) s else Ret s);
  react uv answer fuel CloseCb s.

Lemma close_round_ok (fuel : nat) (cancelled : Z) (s : sock) (h : uv_tcp) :
  socket_ok s -> mHandle (b s) = Some h -> closing h = true -> S (load s) <= fuel ->
  returns (close_round fuel cancelled s) (fun s' => socket_ok s' /\ mHandle (b s') = None /\ mCloseRequested (d s') = true).
Proof.
  intros Hok Hh Hcl Hf. unfold close_round.
  assert (Hc : mCloseRequested (d s) = true) by (apply (v_latch _ _ (proj1 Hok)), (v_closing _ _ (proj1 Hok) h Hh Hcl)).
  assert (Hcl' : closing <$> mHandle (b s) = Some true) by (rewrite Hh; cbn; by rewrite Hcl).
  eapply (returns_bind _ _ (fun s1 => socket_ok s1 /\ load s1 <= load s /\ mCloseRequested (d s1) = true /\ mConnectReq (b s1) = false /\
    closing <$> mHandle (b s1) = Some true)).
  { destruct (mConnectReq (b s)) eqn:Er; [|by split_and!]. eapply returns_mono; [by apply connect_cb_ok|].
    intros s1 (H1 & H2 & H3). destruct (H3 Hc) as (H4 & H5 & _ & H6). split_and!; [done|done|done|done|congruence]. }
  intros s1 (Hok1 & Hl1 & Hc1 & Hr1 & Hcl1).
  eapply (returns_bind _ _ (fun s2 => socket_ok s2 /\ load s2 <= load s /\ mConnectReq (b s2) = false /\ mWriteReq (b s2) = false /\
    closing <$> mHandle (b s2) = Some true)).
  { destruct (mWriteReq (b s1)) eqn:Ew; [|by split_and!]. eapply returns_mono; [apply write_cb_ok; [done|done|lia]|].
    intros s2 (H1 & H2 & H3). destruct (core_eq _ _ (H3 Hc1)) as (_ & _ & _ & _ & _ & E6 & E7 & E8 & _). cbn in E6, E7, E8.
    split_and!; [done|lia|congruence|done|congruence]. }
  intros s2 (Hok2 & Hl2 & Hr2 & Hw2 & Hcl2). apply close_cb_ok; [done| |lia]. split; [|done].
  destruct (mHandle (b s2)) as [k|]; [|done]. exists k. split; [done|]. by injection Hcl2.
Qed.

Lemma close_ok (fuel : nat) (s : sock) : socket_ok s -> load s <= fuel ->
  returns (begin_close (invoke uv answer fuel) s) (fun s' => socket_ok s' /\ load s' <= load s /\ mCloseRequested (d s') = true /\
    (mCloseRequested (d s) = false -> forall h, mHandle (b s') = Some h -> closing h = true) /\ (mHandle (b s) <> None -> mHandle (b s') <> None)).
Proof.
  intros [Hv Hs] Hf. destruct (invoke_spec uv answer fuel) as [H1 H2].
  eapply returns_mono; [by apply (begin_close_spec answer fuel _ H1 H2 [] s Hv)|]. intros s' (Hp & Hc & H & Hk).
  split_and!; [by eapply post_ok|apply Hp|done| |done]. intros Hn. by destruct (H Hn) as (_ & _ & _ & ?).
Qed.

Lemma bind_same (r : run sock) (k : sock -> run sock) (P : sock -> Prop) : returns r P -> (forall s, P s -> k s = Ret s) -> run_bind r k = r.
Proof. destruct r; cbn; auto. Qed.

(** Libuv, asked to run, does that for a socket that is being closed. *)
Definition closes (fuel : nat) (uv_run : sock -> run sock) : Prop :=
  forall s h, mHandle (b s) = Some h -> closing h = true -> exists cancelled, uv_run s = close_round fuel cancelled s.

Lemma pump_ok (fuel : nat) (has_posted : sock -> nat -> bool) (uv_run : sock -> run sock) (s : sock) :
  gets_idle has_posted -> closes fuel uv_run -> socket_ok s -> S (load s) <= fuel -> (forall h, mHandle (b s) = Some h -> closing h = true) ->
  returns (pump_rounds false has_posted uv_run has_handle 1000 0 s) (fun s' => socket_ok s' /\ mHandle (b s') = None).
Proof.
  intros Hi Hu Hok Hf Hcl. destruct (mHandle (b s)) as [h|] eqn:Eh.
  - assert (Hh : has_handle s = true) by (unfold has_handle; by rewrite Eh; apply bool_decide_true).
    destruct (pump_once has_posted uv_run has_handle s Hi Hh) as (_ & n & r & ->). destruct (Hu s h Eh (Hcl h eq_refl)) as [cancelled ->].
    eapply returns_bind; [by apply (close_round_ok fuel cancelled s h); auto|]. intros s' (Hok' & Hh' & _).
    rewrite pump_closed; [done|]. unfold has_handle. rewrite Hh'. by apply bool_decide_false; intros H.
  - rewrite pump_closed; [done|]. unfold has_handle. rewrite Eh. by apply bool_decide_false; intros H.
Qed.

(** The first step of the destructor leaves a socket that the backend is closing. *)
Lemma close_if_open_ok (fuel : nat) (s : sock) : socket_ok s -> load s <= fuel ->
  returns (close_if_open uv answer fuel s) (fun s' => socket_ok s' /\ load s' <= load s /\ (mHandle (b s') <> None -> bCloseRequested (b s') = true) /\
    (mHandle (b s) <> None -> mHandle (b s') <> None) /\ (~ lost s -> forall h, mHandle (b s') = Some h -> closing h = true)).
Proof.
  intros Hok Hf. assert (Hclosed : ~ lost s -> mCloseRequested (d s) = true -> forall h, mHandle (b s) = Some h -> closing h = true).
  { intros Hl Hc h Hh. destruct (closing h) eqn:E; [done|]. destruct Hl. exists h. split_and!; [done|done|]. by apply (proj1 (proj2 Hok)). }
  assert (Hb : mCloseRequested (d s) = true -> bCloseRequested (b s) = true) by apply (proj1 (proj2 Hok)).
  unfold close_if_open. destruct (negb _ && negb _) eqn:E.
  - destruct (mCloseRequested (d s)) eqn:Ec.
    + unfold begin_close. rewrite Ec. split_and!; auto.
    + eapply returns_mono; [by apply close_ok|]. intros s' (H1 & H2 & H3 & H4 & H5).
      split_and!; [done|done|intros _; by apply (proj1 (proj2 H1))|done|intros _; by apply H4].
  - destruct (mCloseRequested (d s)) eqn:Ec; [split_and!; auto|].
    assert (Hidle : mState (d s) = kIdle).
    { apply andb_false_iff in E as [E%negb_false_iff%bool_decide_eq_true|E%negb_false_iff%bool_decide_eq_true]; [|done].
      destruct (v_going _ _ (proj1 Hok) Ec) as [?|[?|[?|?]]]; congruence. }
    destruct (v_idle _ _ (proj1 Hok) Hidle Ec) as (Hh & _). split_and!; [done|done|by rewrite Hh|done|by rewrite Hh].
Qed.

(** ** Theorems *)

(** C3: Safety and termination: whatever a program has done with a socket and whatever its
    callbacks do short of destroying the socket, a call or a callback of libuv runs to its end or stops at a check of its
    own, with the nesting that [stimulus_weight] counts; libuv is never asked to work on a
    handle that is missing or closing. *)
Theorem socket_runs (s : sock) (e : stimulus) (fuel : nat) :
  reachable s -> enabled e s -> stimulus_weight e s <= fuel ->
  react uv answer fuel e s = Fatal \/
  exists s', react uv answer fuel e s = Ret s' /\ (mConnectReq (b s') = true \/ mWriteReq (b s') = true \/ mReadArmed (b s') = true -> mHandle (b s') <> None) /\
    (mReadArmed (b s') = true -> bCloseRequested (b s') = false).
Proof.
  intros Hr Hen Hf. pose proof (react_ok fuel e s (reached_ok s Hr) Hen Hf) as H.
  destruct (react uv answer fuel e s) as [s'| | |]; try done; [right|by left]. destruct H as [Hv (_ & Hrd & _)].
  exists s'. split; [done|split]; [|intros Ha; by destruct (Hrd Ha)].
  intros [?|[?|?]]; [by apply (v_reqs _ _ Hv); left|by apply (v_reqs _ _ Hv); right|by apply (v_armed _ _ Hv)].
Qed.

(** C4: Exactly once: the requests made are the ones answered and the ones still due, each as
    often; when the handle is gone nothing is due, so every write and every connect has had
    its one answer. *)
Theorem answered_once (s : sock) : reachable s ->
  asked_for (trace s) ≡ₚ answered (trace s) ++ due s /\ (mHandle (b s) = None -> asked_for (trace s) ≡ₚ answered (trace s)).
Proof.
  intros Hr. pose proof (reached_ok s Hr) as Hok. pose proof (v_count _ _ (proj1 Hok)) as Hc. rewrite app_nil_r in Hc.
  split; [done|]. intros Hh. by rewrite Hc, (nothing_due s Hok Hh), app_nil_r.
Qed.

(** C8: Order: what libuv was given is a prefix of what the socket accepted, the queue is what
    follows, and nothing is missing while the socket is open; the bytes of a write in flight
    are those of the last one given. *)
Theorem writes_in_order (s : sock) : reachable s ->
  (exists rest, reverse (accepted (trace s)) = reverse (submitted (trace s)) ++ (mData <$> mPendingWrites (b s)) ++ rest /\
    (bCloseRequested (b s) = false -> rest = [])) /\
  (mWriteReq (b s) = true -> head (submitted (trace s)) = Some (mInFlight (b s))).
Proof.
  intros Hr. destruct (reached_ok s Hr) as [Hv _]. split; [|by apply (v_flight _ _ Hv)].
  destruct (v_fifo _ _ Hv) as (rest & E & Hrest). exists (reverse rest). rewrite E, !reverse_app, reverse_involutive, <- (assoc_L (++)).
  split; [done|]. intros Hb. by rewrite (Hrest Hb).
Qed.

(** Life cycle: the states entered follow each other as they may, the last one is the
    current one, and no more than four are ever entered. *)
Theorem socket_lifecycle (s : sock) : reachable s ->
  legal_history (entered (trace s)) /\ mState (d s) = default kIdle (head (entered (trace s))) /\ length (entered (trace s)) + remaining s <= 4 /\
  (mCloseRequested (d s) = true -> mState (d s) <> kConnecting /\ mState (d s) <> kConnected).
Proof.
  intros Hr. destruct (reached_ok s Hr) as [Hv _]. destruct (v_history _ _ Hv) as [H1 H2]. split_and!; [done|done|apply (v_bound _ _ Hv)|].
  intros Hc. destruct (v_state _ _ Hv Hc) as [E|[E|E]]; by rewrite E.
Qed.

(** C25: Destruction, from outside of the socket's own callbacks: the destructor closes what is
    open and waits in rounds of the event loop, which leave libuv out as long as there is
    posted work. Libuv is not running when it is called. If one of its 1000 rounds is idle, and libuv, when it runs, does what it
    does for a closing handle (it calls back with a status for what is outstanding, then
    reports the close), then the destructor returns or stops at a check that a callback
    fails: neither of its own final checks does, the handle is gone, and every request has
    had its answer. The backend must not have lost its handle. *)
Theorem destroy_correct (s : sock) (fuel : nat) (has_posted : sock -> nat -> bool) (uv_run : sock -> run sock) :
  reachable s -> ~ lost s -> S (load s) <= fuel -> gets_idle has_posted -> closes fuel uv_run ->
  destroy uv answer false has_posted uv_run fuel s = (do s <- close_if_open uv answer fuel s; pump_until_closed uv answer false has_posted uv_run fuel s) /\
  returns (destroy uv answer false has_posted uv_run fuel s) (fun s' => mHandle (b s') = None /\ due s' = [] /\ asked_for (trace s') ≡ₚ answered (trace s')).
Proof.
  intros Hr Hl Hf Hi Hu. pose proof (reached_ok s Hr) as Hok.
  assert (H1 : returns (close_if_open uv answer fuel s) (fun s' => socket_ok s' /\ load s' <= load s /\ (mHandle (b s') <> None -> bCloseRequested (b s') = true) /\
    forall h, mHandle (b s') = Some h -> closing h = true)).
  { eapply returns_mono; [by apply close_if_open_ok; [|lia]|]. intros s' (G1 & G2 & G3 & _ & G4). split_and!; auto. }
  assert (H2 : returns (do s <- close_if_open uv answer fuel s; pump_until_closed uv answer false has_posted uv_run fuel s)
    (fun s' => socket_ok s' /\ mHandle (b s') = None)).
  { eapply returns_bind; [exact H1|]. intros s1 (Hok1 & Hl1 & Hb1 & Hcl1). unfold pump_until_closed.
    replace (has_handle s1 && negb (bCloseRequested (b s1))) with false; [cbn [run_bind]|].
    - apply (pump_ok fuel); [done|done|done|lia|done].
    - symmetry. unfold has_handle. apply andb_false_iff. destruct (mHandle (b s1)) as [h|]; [right; by rewrite Hb1|left; by apply bool_decide_false; intros H]. }
  assert (E : destroy uv answer false has_posted uv_run fuel s = (do s <- close_if_open uv answer fuel s; pump_until_closed uv answer false has_posted uv_run fuel s)).
  { unfold destroy. destruct (close_if_open uv answer fuel s) as [s1| | |]; try done. cbn [run_bind] in H2 |- *.
    eapply bind_same; [exact H2|]. intros s2 (_ & Hh2). unfold is_open. rewrite Hh2. cbn. by rewrite orb_true_r. }
  split; [done|]. rewrite E. eapply returns_mono; [exact H2|]. intros s' [Hok' Hh']. pose proof (nothing_due s' Hok' Hh') as Hd.
  split_and!; [done|done|]. pose proof (v_count _ _ (proj1 Hok')) as Hc. by rewrite Hd, !app_nil_r in Hc.
Qed.

(** A destructor called while libuv is running, so from a callback of this socket or of
    another one, does not return when there is a handle: the round of the loop that it waits
    for is a nested one, at which the dispatcher stops the program. *)
Theorem destroyed_in_callback_stops (s : sock) (fuel : nat) (has_posted : sock -> nat -> bool) (uv_run : sock -> run sock) :
  reachable s -> mHandle (b s) <> None -> load s <= fuel -> gets_idle has_posted ->
  destroy uv answer true has_posted uv_run fuel s = Fatal.
Proof.
  intros Hr Hh Hf Hi. unfold destroy. pose proof (close_if_open_ok fuel s (reached_ok s Hr) Hf) as H.
  destruct (close_if_open uv answer fuel s) as [s1| | |]; try done. cbn [returns run_bind] in H |- *. destruct H as (_ & _ & Hb & Hk & _).
  specialize (Hk Hh). specialize (Hb Hk). assert (E : has_handle s1 = true) by by apply bool_decide_true.
  unfold pump_until_closed. rewrite E, Hb. cbn [andb negb run_bind]. by destruct (pump_once has_posted uv_run has_handle s1 Hi E) as [-> _].
Qed.

(** A handle that is lost stays open whatever happens next, and a destructor that gets that
    far stops at its last check. *)
Lemma lost_same (s s' : sock) : lost s -> closing <$> mHandle (b s') = closing <$> mHandle (b s) -> bCloseRequested (b s') = true -> lost s'.
Proof. intros (h & Eh & Ec & _) E Hb. rewrite Eh in E. destruct (mHandle (b s')) as [k|] eqn:Ek; [|done]. exists k. injection E as E. split_and!; [done|congruence|done]. Qed.

Theorem lost_for_good (s : sock) (e : stimulus) (fuel : nat) :
  reachable s -> lost s -> enabled e s -> stimulus_weight e s <= fuel -> returns (react uv answer fuel e s) lost.
Proof.
  intros Hr Hl Hen Hf. pose proof (reached_ok s Hr) as Hok. destruct Hl as (h & Eh & Ec & Hb). pose proof Hok as [Hv Hs].
  assert (Hl : lost s) by by exists h. pose proof (v_latch _ _ Hv Hb) as Hc. destruct e as [o|status|status|nread data|]; cbn [stimulus_weight] in Hf.
  - destruct (invoke_spec uv answer fuel) as [H1 H2]. cbn [react].
    eapply returns_mono; [by apply (op_spec uv answer fuel _ H1 H2 [])|]. intros s' (_ & He & _).
    destruct (core_eq _ _ (e_closed _ _ He Hc)) as (_ & _ & _ & _ & _ & E6 & _ & _ & E9 & _). apply (lost_same s); [done|done|congruence].
  - eapply returns_mono; [apply connect_cb_ok; [done|done|lia]|]. intros s' ([_ Hs'] & _ & H). destruct (H Hc) as (Hc' & _ & _ & E).
    apply (lost_same s); [done|done|by apply (proj1 Hs')].
  - eapply returns_mono; [apply write_cb_ok; [done|done|lia]|]. intros s' (_ & _ & H).
    destruct (core_eq _ _ (H Hc)) as (_ & _ & _ & _ & _ & E6 & _ & _ & E9 & _). cbn in E6, E9. apply (lost_same s); [done|done|congruence].
  - destruct Hen as (k & Ek & Hrd & _). destruct (proj1 (proj2 Hs) (v_reading _ _ Hv k Ek Hrd)). congruence.
  - destruct Hen as ((k & Ek & Hcl) & _). congruence.
Qed.
End Socket.

(** ** Sockets at work *)
Definition linux : uv_codes := Build_uv_codes (-111) (-104) (-110) (-113) (-101) (-99) (-32) (-90) (-98) (-22) (-4095).
Definition all_well (_ : nat) : Z := 0%Z.

(** A client: connects, and once it is connected writes twice and starts to read *)
Definition client_cb : callback := Callback 1 [Write [1; 2]%Z (Callback 2 []); Write [3]%Z (Callback 3 [Close]); ReadStart (Callback 4 [])].
Definition after (uv : uv_codes) (answer : nat -> Z) (fuel : nat) (l : list stimulus) (s : sock) : run sock :=
  fold_left (fun r e => run_bind r (react uv answer fuel e)) l (Ret s).
Definition result (r : run sock) : sock := match r with Ret s => s | _ => new_socket end.

Definition run_client (l : list stimulus) : sock := result (after linux all_well 100 l new_socket).
Definition dialled : list stimulus := [Call (Connect true client_cb)].
Definition connected : list stimulus := dialled ++ [ConnectCb 0].
Definition first_written : list stimulus := connected ++ [WriteCb 0].
Definition both_written : list stimulus := first_written ++ [WriteCb 0].
Definition closed : list stimulus := both_written ++ [CloseCb].

Ltac react_by s e := apply (reach_react linux all_well s _ e 100); [|vm_compute; repeat split; try (eexists; repeat split)|vm_compute; lia|vm_compute; reflexivity].

Lemma dialled_reachable : reachable linux all_well (run_client dialled).
Proof. react_by new_socket (Call (Connect true client_cb)). apply reach_new. Qed.

Lemma connected_reachable : reachable linux all_well (run_client connected).
Proof. react_by (run_client dialled) (ConnectCb 0). apply dialled_reachable. Qed.

Lemma both_written_reachable : reachable linux all_well (run_client both_written).
Proof. react_by (run_client first_written) (WriteCb 0). react_by (run_client connected) (WriteCb 0). apply connected_reachable. Qed.

Lemma closed_reachable : reachable linux all_well (run_client closed).
Proof. react_by (run_client both_written) CloseCb. apply both_written_reachable. Qed.

(** The connection is made, the callback runs: two writes and a read. *)
Lemma socket_runs_witness :
  react linux all_well 100 (ConnectCb 0) (run_client dialled) = Fatal \/
  exists s', react linux all_well 100 (ConnectCb 0) (run_client dialled) = Ret s' /\
    (mConnectReq (b s') = true \/ mWriteReq (b s') = true \/ mReadArmed (b s') = true -> mHandle (b s') <> None) /\
    (mReadArmed (b s') = true -> bCloseRequested (b s') = false).
Proof. apply socket_runs; [apply dialled_reachable|reflexivity|vm_compute; lia]. Defined.

(** Two writes are due while the first is in flight, none is at the end. *)
Lemma answered_once_witness :
  (asked_for (trace (run_client connected)) ≡ₚ answered (trace (run_client connected)) ++ due (run_client connected)) /\
  (mHandle (b (run_client closed)) = None -> asked_for (trace (run_client closed)) ≡ₚ answered (trace (run_client closed))).
Proof. split; [apply (answered_once linux all_well _ connected_reachable)|apply (answered_once linux all_well _ closed_reachable)]. Defined.

Example client_due : due (run_client connected) = [(AWrite, 3); (AWrite, 2)] /\ mHandle (b (run_client closed)) = None.
Proof. by vm_compute. Qed.

Lemma writes_in_order_witness :
  (exists rest, reverse (accepted (trace (run_client connected))) = reverse (submitted (trace (run_client connected))) ++
      (mData <$> mPendingWrites (b (run_client connected))) ++ rest /\
    (bCloseRequested (b (run_client connected)) = false -> rest = [])) /\
  (mWriteReq (b (run_client connected)) = true -> head (submitted (trace (run_client connected))) = Some (mInFlight (b (run_client connected)))).
Proof. apply (writes_in_order linux all_well _ connected_reachable). Defined.

Example client_order : submitted (trace (run_client connected)) = [[1; 2]%Z] /\ submitted (trace (run_client closed)) = [[3]; [1; 2]]%Z.
Proof. by vm_compute. Qed.

Lemma socket_lifecycle_witness :
  legal_history (entered (trace (run_client closed))) /\ mState (d (run_client closed)) = default kIdle (head (entered (trace (run_client closed)))) /\
  length (entered (trace (run_client closed))) + remaining (run_client closed) <= 4 /\
  (mCloseRequested (d (run_client closed)) = true -> mState (d (run_client closed)) <> kConnecting /\ mState (d (run_client closed)) <> kConnected).
Proof. apply (socket_lifecycle linux all_well _ closed_reachable). Defined.

(** Destroyed while a write is in flight and another one waits; the first three rounds of the
    loop find something posted. *)
Definition busy_at_first (_ : sock) (round : nat) : bool := (round <? 3).
Definition libuv_closes : sock -> run sock := close_round linux all_well 100 (-125).

Lemma destroy_correct_witness :
  destroy linux all_well false busy_at_first libuv_closes 100 (run_client connected) =
    (do s <- close_if_open linux all_well 100 (run_client connected); pump_until_closed linux all_well false busy_at_first libuv_closes 100 s) /\
  returns (destroy linux all_well false busy_at_first libuv_closes 100 (run_client connected)) (fun s' => mHandle (b s') = None /\ due s' = [] /\
    asked_for (trace s') ≡ₚ answered (trace s')).
Proof.
  apply (destroy_correct linux all_well); [apply connected_reachable| |vm_compute; lia| |].
  - intros (h & E & _ & Hb). vm_compute in Hb. discriminate.
  - intros s. exists 3. split; [lia|done].
  - intros s h _ _. by exists (-125)%Z.
Defined.

Example client_destroyed : answered (trace (result (destroy linux all_well false busy_at_first libuv_closes 100 (run_client connected)))) =
  [(AWrite, 2); (AWrite, 3); (AConnect, 1)].
Proof. by vm_compute. Qed.

Example client_destroyed_in_callback : destroy linux all_well true busy_at_first libuv_closes 100 (run_client connected) = Fatal.
Proof.
  apply destroyed_in_callback_stops; [apply connected_reachable|by vm_compute|vm_compute; lia|]. intros s. exists 3. split; [lia|done].
Qed.

(** Work that is posted again and again keeps libuv out of all the 1000 rounds, and the
    destructor stops at its last check. *)
Theorem busy_loop_stops_destructor : destroy linux all_well false (fun _ _ => true) libuv_closes 100 (run_client connected) = Fatal.
Proof. by vm_compute. Qed.

(** ** What does not hold *)

(** A connect that failed brings the socket back to [kIdle], but the request to close stays
    latched: the socket cannot connect again. *)
Definition failed_once : sock := result (after linux all_well 100 [Call (Connect true (Callback 1 [])); ConnectCb (-111); CloseCb] new_socket).
Theorem connect_is_not_retryable : mState (d failed_once) = kIdle /\ mLastError (d failed_once) = kConnectionRefused /\
  react linux all_well 100 (Call (Connect true (Callback 2 []))) failed_once = Fatal.
Proof. by vm_compute. Qed.

(** With an address that cannot be parsed the socket is closed at once, and does not become
    idle again. *)
Theorem bad_address_closes :
  entered (trace (result (after linux all_well 100 [Call (Connect false (Callback 1 []))] new_socket))) = [kClosed; kClosing; kConnecting].
Proof. by vm_compute. Qed.

(** Closing from the notification of [kConnecting] comes before the handle is there: the
    backend counts itself as closed, opens a handle, and never closes it. *)
Definition closed_too_early : sock :=
  result (after linux all_well 100 [Call (SetOnStateChange (Some (Callback 9 [Close]))); Call (Connect true (Callback 1 []))] new_socket).
Theorem closing_while_connecting_leaks : lost closed_too_early /\ enabled (ConnectCb 0) closed_too_early /\
  let s := result (react linux all_well 100 (ConnectCb 0) closed_too_early) in
  lost s /\ mConnectReq (b s) = false /\ destroy linux all_well false (fun _ _ => false) (fun s => Ret s) 100 s = Fatal.
Proof. cbn zeta. split_and!; [eexists; by split_and!|done|eexists; by split_and!|done|by vm_compute]. Qed.

Lemma lost_for_good_witness : returns (react linux all_well 100 (ConnectCb 0) closed_too_early) lost.
Proof.
  apply lost_for_good; [|eexists; by split_and!|done|vm_compute; lia].
  react_by (result (after linux all_well 100 [Call (SetOnStateChange (Some (Callback 9 [Close])))] new_socket)) (Call (Connect true (Callback 1 []))).
  react_by new_socket (Call (SetOnStateChange (Some (Callback 9 [Close])))). apply reach_new.
Defined.
