(* ===== verification/UdpSocket.v ===== *)
(** * UDP sockets

    Models [UdpSocket] of [src/cxxkit/network/udp_socket.cpp] over the backend of
    [src/cxxkit/network/detail/dgram_backend_uv.cpp], in the way of [TcpSocket]: two states
    that call each other, callbacks of the user that are finite trees of calls, libuv as a
    parameter. An address is an integer; which ones can be parsed is a parameter. A
    [std::function] that was moved from is empty. The number of the bound port is left out,
    and so are checks of the calling thread.

    A callback may make any of the calls of [op], but it does not destroy the socket, although
    the comments of [udp_socket.hpp] and [udp_socket.cpp] allow it to: [begin_close],
    [send_done] and [bind] go on using the socket after a callback. Destruction is [destroy],
    from outside of the socket's callbacks. The waits for a handle to be closed are rounds of
    the event loop ([SocketTypes.pump_rounds]). *)

From stdpp Require Import prelude list.
From Stdlib Require Import ZArith Lia.
From S2P Require Import Prelude SocketTypes.

#[local] Open Scope Z_scope.
#[local] Open Scope cxx_scope.

(** ** Callables

    What a callback of the user calls; destroying the socket is not among it. *)
Inductive op :=
  | Bind (addr : Z)
  | SendTo (data : list Z) (addr : Z) (on_done : callback)
  | Send (data : list Z) (on_done : callback)
  | ConnectTo (addr : Z)
  | DisconnectRemote
  | SetBroadcast (enable : bool)
  | SetOnDatagram (on_datagram : callback)
  | Close
  | SetOnError (on_error : option callback)
  | SetOnStateChange (on_state_change : option callback)
with callback := Callback (name : nat) (body : list op).

Definition cb_name (cb : callback) : nat := let 'Callback n _ := cb in n.
Definition cb_body (cb : callback) : list op := let 'Callback _ l := cb in l.

(** A callback of the user, or a lambda of the socket *)
Inductive closure := User (cb : callback) | SendDone | DatagramEvent.

Inductive argument :=
  | Sent (ok : bool)
  | Datagram (data : list Z) (from : Z)
  | Entering (state : SocketState)
  | Failing (error : SocketError).

(** What happened: sends asked for, and whether by [send] during a close; states entered;
    calls made; what a call of the socket returned; and the callbacks that were thrown away *)
Inductive event :=
  | Asked (name : nat) (late : bool)
  | Entered (state : SocketState)
  | Called (name : nat) (arg : argument)
  | Returned (ok : bool)
  | Dropped (name : nat).

(** ** State *)

(** A datagram that libuv has; [mFor] is the callback that was given with it. *)
Record PendingSend := mkSend { mData : list Z; mDest : option Z; mOnDone : closure; mFor : nat }.
Record uv_udp := mkHandle { closing : bool; receiving : bool }.

Record UvDgramBackend := mkBackend {
  mNativeStatus : Z;
  mHandle : option uv_udp;
  bCloseRequested : bool;
  mConnected : bool;
  mRecvArmed : bool;
  bOnDatagram : option closure;
  mSends : list PendingSend
}.

Record UdpSocketPrivate := mkPrivate {
  mState : SocketState;
  mCloseRequested : bool;
  mPendingSendDones : list callback;
  mOnDatagram : option callback;
  mOnError : option callback;
  mOnStateChange : option callback;
  mLastError : SocketError;
  mBroadcastPending : bool;
  mPeer : option Z
}.

(** [asked] counts the calls that have a result. *)
Record sock := mkSock { d : UdpSocketPrivate; b : UvDgramBackend; asked : nat; trace : list event }.

Definition with_d (s : sock) x := mkSock x (b s) (asked s) (trace s).
Definition with_b (s : sock) x := mkSock (d s) x (asked s) (trace s).
Definition record (e : event) (s : sock) := mkSock (d s) (b s) (asked s) (e :: trace s).

Definition with_state (s : sock) x := let p := d s in with_d s (mkPrivate x (mCloseRequested p) (mPendingSendDones p) (mOnDatagram p) (mOnError p) (mOnStateChange p) (mLastError p) (mBroadcastPending p) (mPeer p)).
Definition with_close_requested (s : sock) x := let p := d s in with_d s (mkPrivate (mState p) x (mPendingSendDones p) (mOnDatagram p) (mOnError p) (mOnStateChange p) (mLastError p) (mBroadcastPending p) (mPeer p)).
Definition with_dones (s : sock) x := let p := d s in with_d s (mkPrivate (mState p) (mCloseRequested p) x (mOnDatagram p) (mOnError p) (mOnStateChange p) (mLastError p) (mBroadcastPending p) (mPeer p)).
Definition with_on_datagram (s : sock) x := let p := d s in with_d s (mkPrivate (mState p) (mCloseRequested p) (mPendingSendDones p) x (mOnError p) (mOnStateChange p) (mLastError p) (mBroadcastPending p) (mPeer p)).
Definition with_on_error (s : sock) x := let p := d s in with_d s (mkPrivate (mState p) (mCloseRequested p) (mPendingSendDones p) (mOnDatagram p) x (mOnStateChange p) (mLastError p) (mBroadcastPending p) (mPeer p)).
Definition with_on_state_change (s : sock) x := let p := d s in with_d s (mkPrivate (mState p) (mCloseRequested p) (mPendingSendDones p) (mOnDatagram p) (mOnError p) x (mLastError p) (mBroadcastPending p) (mPeer p)).
Definition with_last_error (s : sock) x := let p := d s in with_d s (mkPrivate (mState p) (mCloseRequested p) (mPendingSendDones p) (mOnDatagram p) (mOnError p) (mOnStateChange p) x (mBroadcastPending p) (mPeer p)).
Definition with_broadcast_pending (s : sock) x := let p := d s in with_d s (mkPrivate (mState p) (mCloseRequested p) (mPendingSendDones p) (mOnDatagram p) (mOnError p) (mOnStateChange p) (mLastError p) x (mPeer p)).
Definition with_peer (s : sock) x := let p := d s in with_d s (mkPrivate (mState p) (mCloseRequested p) (mPendingSendDones p) (mOnDatagram p) (mOnError p) (mOnStateChange p) (mLastError p) (mBroadcastPending p) x).

Definition with_native_status (s : sock) x := let q := b s in with_b s (mkBackend x (mHandle q) (bCloseRequested q) (mConnected q) (mRecvArmed q) (bOnDatagram q) (mSends q)).
Definition with_handle (s : sock) x := let q := b s in with_b s (mkBackend (mNativeStatus q) x (bCloseRequested q) (mConnected q) (mRecvArmed q) (bOnDatagram q) (mSends q)).
Definition with_b_close_requested (s : sock) x := let q := b s in with_b s (mkBackend (mNativeStatus q) (mHandle q) x (mConnected q) (mRecvArmed q) (bOnDatagram q) (mSends q)).
Definition with_connected (s : sock) x := let q := b s in with_b s (mkBackend (mNativeStatus q) (mHandle q) (bCloseRequested q) x (mRecvArmed q) (bOnDatagram q) (mSends q)).
Definition with_recv_armed (s : sock) x := let q := b s in with_b s (mkBackend (mNativeStatus q) (mHandle q) (bCloseRequested q) (mConnected q) x (bOnDatagram q) (mSends q)).
Definition with_b_on_datagram (s : sock) x := let q := b s in with_b s (mkBackend (mNativeStatus q) (mHandle q) (bCloseRequested q) (mConnected q) (mRecvArmed q) x (mSends q)).
Definition with_sends (s : sock) x := let q := b s in with_b s (mkBackend (mNativeStatus q) (mHandle q) (bCloseRequested q) (mConnected q) (mRecvArmed q) (bOnDatagram q) x).

Definition new_socket : sock :=
  mkSock (mkPrivate kIdle false [] None None None kNone false None) (mkBackend 0 None false false false None []) 0 [].

(** The calls of libuv and of the system that have a result *)
Inductive uv_call := uv_udp_init | uv_udp_bind | uv_udp_connect | uv_fileno | setsockopt | uv_udp_send | uv_udp_recv_start.

Section Socket.
Context (uv : uv_codes) (UV_ESHUTDOWN UV_EBADF : Z) (answer : uv_call -> nat -> Z) (fill_sockaddr : Z -> bool) (any_address : Z)
  (mInProcessEvents : bool) (has_posted : sock -> nat -> bool) (uv_run : sock -> run sock).

(** The result of a call *)
Definition ask (c : uv_call) (s : sock) : Z * sock := (answer c (asked s), mkSock (d s) (b s) (S (asked s)) (trace s)).

(** A handle that libuv may be asked to work on *)
Definition open_handle (s : sock) : run uv_udp := do h <- deref (mHandle (b s)); if closing h then Undef else Ret h.

(** [native_handle() != nullptr] *)
Definition has_handle (s : sock) : bool := bool_decide (mHandle (b s) <> None).

(** Rounds of the event loop until libuv has closed the handle, 1000 at most *)
Definition pump (s : sock) : run sock := pump_rounds mInProcessEvents has_posted uv_run has_handle 1000 0 s.

Section Calls.
Context (invoke : closure -> argument -> sock -> run sock).

(** ** [UvDgramBackend] *)
Definition b_bind (addr : Z) (s : sock) : run (bool * sock) :=
  do _ <- check (bool_decide (mHandle (b s) = None));
  if bCloseRequested (b s) then Ret (false, s)
  else if negb (fill_sockaddr addr) then Ret (false, with_native_status s (- UV_EINVAL uv))
  else
    let (init_rc, s) := ask uv_udp_init s in
    if negb (init_rc =? 0) then Ret (false, with_native_status s init_rc)
    else
      let s := with_handle s (Some (mkHandle false false)) in
      let (bind_rc, s) := ask uv_udp_bind s in
      if negb (bind_rc =? 0) then
        do s <- pump (with_handle s (Some (mkHandle true false)));
        Ret (false, with_native_status s bind_rc)
      else Ret (true, s).

Definition b_connect (addr : Z) (s : sock) : run (bool * sock) :=
  if bCloseRequested (b s) || bool_decide (mHandle (b s) = None) then Ret (false, with_native_status s (- UV_ESHUTDOWN))
  else if negb (fill_sockaddr addr) then Ret (false, with_native_status s (- UV_EINVAL uv))
  else
    do _ <- open_handle s;
    let (rc, s) := ask uv_udp_connect s in
    if negb (rc =? 0) then Ret (false, with_native_status s rc) else Ret (true, with_connected s true).

Definition b_disconnect_remote (s : sock) : run sock :=
  if bool_decide (mHandle (b s) <> None) && negb (bCloseRequested (b s)) then
    do _ <- open_handle s;
    Ret (with_connected s false)
  else Ret (with_connected s false).

Definition b_set_broadcast (enable : bool) (s : sock) : run (bool * sock) :=
  if bCloseRequested (b s) || bool_decide (mHandle (b s) = None) then Ret (false, with_native_status s (- UV_ESHUTDOWN))
  else
    do _ <- open_handle s;
    let (rc, s) := ask uv_fileno s in
    if negb (rc =? 0) then Ret (false, with_native_status s (- UV_EBADF))
    else
      let (errno, s) := ask setsockopt s in
      if negb (errno =? 0) then Ret (false, with_native_status s (- errno)) else Ret (true, with_native_status s 0).

Definition b_send_to (data : list Z) (addr : Z) (on_done : closure) (name : nat) (s : sock) : run sock :=
  if bCloseRequested (b s) || bool_decide (mHandle (b s) = None) then invoke on_done (Sent false) (with_native_status s (- UV_ESHUTDOWN))
  else
    let send_on_done := Some on_done in
    let on_done := (None : option closure) in
    if negb (fill_sockaddr addr) then
      let s := with_native_status s (- UV_EINVAL uv) in
      match on_done with Some cb => invoke cb (Sent false) s | None => Ret s end
    else
      do _ <- open_handle s;
      let (rc, s) := ask uv_udp_send s in
      match send_on_done with
      | Some cb =>
          if negb (rc =? 0) then invoke cb (Sent false) (with_native_status s rc)
          else Ret (with_sends s (mSends (b s) ++ [mkSend data (if mConnected (b s) then None else Some addr) cb name]))
      | None => Ret s
      end.

Definition receive_start (on_datagram : closure) (s : sock) : run sock :=
  if bCloseRequested (b s) then Ret s
  else
    let s := with_b_on_datagram s (Some on_datagram) in
    if mRecvArmed (b s) then Ret s
    else
      do h <- open_handle s;
      let (rc, s) := ask uv_udp_recv_start s in
      do _ <- check (rc =? 0);
      Ret (with_recv_armed (with_handle s (Some (mkHandle (closing h) true))) true).

Definition b_begin_close (s : sock) : run sock :=
  if bCloseRequested (b s) then Ret s
  else
    let s := with_b_close_requested s true in
    match mHandle (b s) with
    | None => Ret s
    | Some h =>
        let s := if mRecvArmed (b s) then with_recv_armed (with_handle s (Some (mkHandle (closing h) false))) false else s in
        let s := with_b_on_datagram s None in
        do h <- deref (mHandle (b s));
        if negb (closing h) then Ret (with_handle s (Some (mkHandle true (receiving h)))) else Ret s
    end.

(** What libuv calls *)
Definition on_recv (nread : Z) (data : list Z) (from : option Z) (s : sock) : run sock :=
  if nread =? 0 then Ret s
  else if nread <? 0 then
    let s := with_native_status s nread in
    do h <- deref (mHandle (b s));
    Ret (with_b_on_datagram (with_recv_armed (with_handle s (Some (mkHandle (closing h) false))) false) None)
  else
    match from, bOnDatagram (b s) with
    | Some addr, Some cb => invoke cb (Datagram data addr) s
    | _, _ => Ret s
    end.

Definition on_send_done (status : Z) (s : sock) : run sock :=
  match mSends (b s) with
  | [] => Undef
  | send :: rest => invoke (mOnDone send) (Sent (status =? 0)) (with_native_status (with_sends s rest) status)
  end.

Definition on_closed (s : sock) : run sock := Ret (with_handle s None).

(** ** [UdpSocketPrivate] *)
Definition set_state (state : SocketState) (s : sock) : run sock :=
  let s := record (Entered state) (with_state s state) in
  match mOnStateChange (d s) with Some cb => invoke (User cb) (Entering state) s | None => Ret s end.

Definition report_error (error : SocketError) (s : sock) : run sock :=
  let s := with_last_error s error in
  match mOnError (d s) with Some cb => invoke (User cb) (Failing error) s | None => Ret s end.
Definition report_status (s : sock) : run sock := report_error (map_transport_error uv (mNativeStatus (b s))) s.

Definition apply_pending_broadcast (s : sock) : run sock :=
  if mBroadcastPending (d s) then
    do (ok, s) <- b_set_broadcast true s;
    if (ok : bool) then Ret (with_broadcast_pending s false)
    else if mBroadcastPending (d s) then report_status s else Ret s
  else Ret s.

Definition lazy_bind_for_send (s : sock) : run (bool * sock) :=
  do (ok, s) <- b_bind any_address s;
  if (ok : bool) then do s <- apply_pending_broadcast s; Ret (true, s) else Ret (false, s).

Definition send_done (ok : bool) (s : sock) : run sock :=
  do s <- (if negb ok then report_status s else Ret s);
  match mPendingSendDones (d s) with
  | cb :: rest => invoke (User cb) (Sent ok) (with_dones s rest)
  | [] => Ret s
  end.

Definition datagram_event (data : list Z) (from : Z) (s : sock) : run sock :=
  if bool_decide (mState (d s) = kConnected) && negb (bool_decide (Some from = mPeer (d s))) then Ret s
  else match mOnDatagram (d s) with Some cb => invoke (User cb) (Datagram data from) s | None => Ret s end.

Fixpoint discard (pending : list callback) (s : sock) : run sock :=
  match pending with
  | [] => Ret s
  | cb :: pending => do s <- invoke (User cb) (Sent false) s; discard pending s
  end.

(** [clear]: the callbacks are gone *)
Definition drop_dones (s : sock) : sock :=
  mkSock (d (with_dones s [])) (b s) (asked s) (rev (map (fun cb => Dropped (cb_name cb)) (mPendingSendDones (d s))) ++ trace s).

Definition begin_close (s : sock) : run sock :=
  if mCloseRequested (d s) then Ret s
  else
    let s := with_close_requested s true in
    let pending := mPendingSendDones (d s) in
    do s <- discard pending (with_dones s []);
    let s := with_peer (with_broadcast_pending (with_on_datagram (drop_dones s) None) false) None in
    do s <- b_begin_close s;
    set_state kClosed s.

(** ** The calls of [UdpSocket] *)
Definition bind (addr : Z) (s : sock) : run sock :=
  do _ <- check (negb (mCloseRequested (d s)));
  do _ <- check (bool_decide (mState (d s) = kIdle));
  do (ok, s) <- b_bind addr s;
  if negb ok then do s <- report_status s; Ret (record (Returned false) s)
  else
    do s <- apply_pending_broadcast s;
    do s <- set_state kBound s;
    Ret (record (Returned true) s).

Definition send_to (data : list Z) (addr : Z) (on_done : callback) (s : sock) : run sock :=
  let s := record (Asked (cb_name on_done) false) s in
  if mCloseRequested (d s) || bool_decide (mState (d s) = kClosed) then invoke (User on_done) (Sent false) s
  else
    do _ <- check (negb (bool_decide (mState (d s) = kConnected)));
    do _ <- check (bool_decide (mState (d s) = kIdle) || bool_decide (mState (d s) = kBound));
    do (ok, s) <-
      (if bool_decide (mState (d s) = kIdle) then
         do (ok, s) <- lazy_bind_for_send s;
         if negb ok then
           do s <- report_status s;
           do s <- invoke (User on_done) (Sent false) s;
           Ret (false, s)
         else do s <- set_state kBound s; Ret (true, s)
       else Ret (true, s));
    if negb ok then Ret s
    else b_send_to data addr SendDone (cb_name on_done) (with_dones s (mPendingSendDones (d s) ++ [on_done])).

Definition send (data : list Z) (on_done : callback) (s : sock) : run sock :=
  do _ <- check (bool_decide (mState (d s) = kConnected));
  let s := record (Asked (cb_name on_done) (mCloseRequested (d s))) s in
  b_send_to data (default 0 (mPeer (d s))) SendDone (cb_name on_done) (with_dones s (mPendingSendDones (d s) ++ [on_done])).

(** The bind that the first use of an idle socket makes *)
Definition use (s : sock) : run (bool * sock) :=
  if bool_decide (mState (d s) = kIdle) then
    do (ok, s) <- lazy_bind_for_send s;
    if negb ok then do s <- report_status s; Ret (false, s)
    else do s <- set_state kBound s; Ret (true, s)
  else Ret (true, s).

Definition connect_to (addr : Z) (s : sock) : run sock :=
  do _ <- check (negb (mCloseRequested (d s)));
  do _ <- check (bool_decide (mState (d s) = kIdle) || bool_decide (mState (d s) = kBound));
  do (ok, s) <- use s;
  if negb ok then Ret s
  else
    do (ok, s) <- b_connect addr s;
    if negb ok then report_status s
    else set_state kConnected (with_peer s (Some addr)).

Definition disconnect_remote (s : sock) : run sock :=
  do _ <- check (bool_decide (mState (d s) = kConnected));
  do s <- b_disconnect_remote s;
  set_state kBound (with_peer s None).

Definition set_broadcast (enable : bool) (s : sock) : run sock :=
  if mCloseRequested (d s) || bool_decide (mState (d s) = kClosed) then Ret (record (Returned false) s)
  else if bool_decide (mState (d s) = kIdle) then Ret (record (Returned true) (with_broadcast_pending s enable))
  else
    do (ok, s) <- b_set_broadcast enable s;
    if negb ok then do s <- report_status s; Ret (record (Returned false) s) else Ret (record (Returned true) s).

Definition set_on_datagram (on_datagram : callback) (s : sock) : run sock :=
  do _ <- check (negb (mCloseRequested (d s)));
  do _ <- check (bool_decide (mState (d s) = kIdle) || bool_decide (mState (d s) = kBound) || bool_decide (mState (d s) = kConnected));
  do (ok, s) <- use s;
  if negb ok then Ret s else receive_start DatagramEvent (with_on_datagram s (Some on_datagram)).

Definition perform (o : op) (s : sock) : run sock :=
  match o with
  | Bind addr => bind addr s
  | SendTo data addr cb => send_to data addr cb s
  | Send data cb => send data cb s
  | ConnectTo addr => connect_to addr s
  | DisconnectRemote => disconnect_remote s
  | SetBroadcast enable => set_broadcast enable s
  | SetOnDatagram cb => set_on_datagram cb s
  | Close => begin_close s
  | SetOnError cb => Ret (with_on_error s cb)
  | SetOnStateChange cb => Ret (with_on_state_change s cb)
  end.

Fixpoint perform_all (ops : list op) (s : sock) : run sock :=
  match ops with
  | [] => Ret s
  | o :: ops => do s <- perform o s; perform_all ops s
  end.
End Calls.

(** ** Calling what is stored: [fuel] bounds the nesting. *)
Fixpoint invoke (fuel : nat) (f : closure) (a : argument) (s : sock) : run sock :=
  match fuel with
  | O => Timeout
  | S fuel =>
      match f, a with
      | User cb, _ => perform_all (invoke fuel) (cb_body cb) (record (Called (cb_name cb) a) s)
      | SendDone, Sent ok => send_done (invoke fuel) ok s
      | DatagramEvent, Datagram data from => datagram_event (invoke fuel) data from s
      | _, _ => Undef
      end
  end.

(** ** The environment *)
Inductive stimulus :=
  | Call (o : op)
  | SendCb (status : Z)
  | RecvCb (nread : Z) (data : list Z) (from : option Z)
  | CloseCb.

(** libuv answers for the datagrams in their order, delivers while the handle receives, and
    reports the close at the end. *)
Definition enabled (e : stimulus) (s : sock) : Prop :=
  match e with
  | Call _ => True
  | SendCb _ => mSends (b s) <> []
  | RecvCb _ _ _ => exists h, mHandle (b s) = Some h /\ receiving h = true /\ closing h = false
  | CloseCb => (exists h, mHandle (b s) = Some h /\ closing h = true) /\ mSends (b s) = []
  end.

Definition react (fuel : nat) (e : stimulus) (s : sock) : run sock :=
  match e with
  | Call o => perform (invoke fuel) o s
  | SendCb status => on_send_done (invoke fuel) status s
  | RecvCb nread data from => on_recv (invoke fuel) nread data from s
  | CloseCb => on_closed s
  end.

(** ** Destruction *)
Definition destroy (fuel : nat) (s : sock) : run sock :=
  let s := with_on_state_change (with_on_error (with_on_datagram (drop_dones s) None) None) None in
  do s <- (if negb (bool_decide (mState (d s) = kClosed)) && negb (bool_decide (mState (d s) = kIdle)) then begin_close (invoke fuel) s else Ret s);
  do s <- b_begin_close s;
  do s <- pump s;
  do _ <- check (mCloseRequested (d s) || bool_decide (mState (d s) = kIdle));
  do _ <- check (bool_decide (mHandle (b s) = None));
  Ret s.
End Socket.
