(* ===== verification/UdpSocketFacts.v ===== *)
(** * UDP sockets: correctness

    One invariant at every point where code of the user may run, whatever that code does. A
    call can nest without bound when a handler of errors or of state changes calls the socket
    again; [calm] is about programs whose handlers do not, where a weight bounds the nesting. *)

From stdpp Require Import prelude list.
From Stdlib Require Import ZArith Lia.
From S2P Require Import Prelude SocketTypes UdpSocket.

#[local] Open Scope nat_scope.
#[local] Open Scope cxx_scope.

(** ** Weights *)
Fixpoint op_weight (o : op) : nat :=
  match o with
  | SendTo _ _ cb | Send _ cb => 3 + cb_weight cb
  | _ => 3
  end
with cb_weight (cb : callback) : nat :=
  let 'Callback _ l := cb in
  1 + (fix sum (l : list op) : nat := match l with [] => 0 | o :: l => op_weight o + sum l end) l.
Definition ops_weight (l : list op) : nat := sum_list_with op_weight l.
Definition dones_weight (l : list callback) : nat := sum_list_with cb_weight l.
Definition load (s : sock) : nat := dones_weight (mPendingSendDones (d s)).

Lemma udp_cb_weight_body (cb : callback) : cb_weight cb = S (ops_weight (cb_body cb)).
Proof. by destruct cb. Qed.
Lemma udp_cb_weight_pos (cb : callback) : 0 < cb_weight cb.
Proof. rewrite udp_cb_weight_body. lia. Qed.
Lemma dones_weight_cons (cb : callback) (l : list callback) : dones_weight (cb :: l) = cb_weight cb + dones_weight l.
Proof. done. Qed.
Lemma dones_weight_app (l l' : list callback) : dones_weight (l ++ l') = dones_weight l + dones_weight l'.
Proof. apply sum_list_with_app. Qed.

(** ** Calm programs: their handlers only watch. *)
Definition watches (o : option callback) : bool := match o with Some (Callback _ (_ :: _)) => false | _ => true end.
Fixpoint calm_op (o : op) : bool :=
  match o with
  | SendTo _ _ cb | Send _ cb | SetOnDatagram cb => calm_cb cb
  | SetOnError o | SetOnStateChange o => watches o
  | _ => true
  end
with calm_cb (cb : callback) : bool :=
  let 'Callback _ l := cb in (fix all (l : list op) : bool := match l with [] => true | o :: l => calm_op o && all l end) l.
Definition calm_ops (l : list op) : Prop := Forall (fun o => calm_op o = true) l.

Lemma calm_body (cb : callback) : calm_cb cb = true -> calm_ops (cb_body cb).
Proof. destruct cb as [n l]. cbn. induction l as [|o l IH]; [constructor|]. intros [H1 H2]%andb_true_iff. constructor; [done|by apply IH]. Qed.

Lemma watches_weight (cb : callback) : watches (Some cb) = true -> cb_weight cb = 1 /\ calm_cb cb = true.
Proof. by destruct cb as [n [|o l]]. Qed.

(** ** Histories *)
Fixpoint asked_for (t : list event) : list nat := match t with [] => [] | Asked n _ :: t => n :: asked_for t | _ :: t => asked_for t end.
Fixpoint lates (t : list event) : nat := match t with [] => 0 | Asked _ true :: t => S (lates t) | _ :: t => lates t end.
Definition ticket (a : argument) (n : nat) : list nat := match a with Sent _ => [n] | _ => [] end.
Fixpoint answered (t : list event) : list nat := match t with [] => [] | Called n a :: t => ticket a n ++ answered t | _ :: t => answered t end.
Fixpoint dropped (t : list event) : list nat := match t with [] => [] | Dropped n :: t => n :: dropped t | _ :: t => dropped t end.
Definition due (s : sock) : list nat := cb_name <$> mPendingSendDones (d s).
Definition flights (s : sock) : list nat := mFor <$> mSends (b s).

(** ** The invariant

    [P] are the datagrams that were answered while the callback has yet to be taken off the
    queue, [L] the callbacks in a local variable of a call in progress. *)
Definition calm_state (s : sock) : Prop :=
  Forall (fun cb => calm_cb cb = true) (mPendingSendDones (d s)) /\ (forall cb, mOnDatagram (d s) = Some cb -> calm_cb cb = true) /\
  watches (mOnError (d s)) = true /\ watches (mOnStateChange (d s)) = true.

Section Socket.
Context (calm good : bool).

Record valid_in (P L : list nat) (s : sock) : Prop := {
  v_closing : forall h, mHandle (b s) = Some h -> closing h = bCloseRequested (b s);
  v_latch : bCloseRequested (b s) = true -> mCloseRequested (d s) = true;
  v_live : mState (d s) = kBound \/ mState (d s) = kConnected -> bCloseRequested (b s) = false -> mHandle (b s) <> None;
  v_over : bCloseRequested (b s) = true -> mState (d s) <> kConnected;
  v_final : mState (d s) = kClosed -> mCloseRequested (d s) = true;
  v_sends : mHandle (b s) = None -> mSends (b s) = [];
  v_armed : mRecvArmed (b s) = true -> bCloseRequested (b s) = false /\ mHandle (b s) <> None;
  v_receiving : forall h, mHandle (b s) = Some h -> receiving h = true -> mRecvArmed (b s) = true;
  v_datagram : forall f, bOnDatagram (b s) = Some f -> f = DatagramEvent;
  v_trampolines : Forall (fun p => mOnDone p = SendDone) (mSends (b s));
  v_count : asked_for (trace s) ≡ₚ answered (trace s) ++ due s ++ dropped (trace s) ++ L;
  v_late : length (dropped (trace s)) <= lates (trace s);
  v_window : mCloseRequested (d s) = true -> bCloseRequested (b s) = false -> length (dropped (trace s)) + length (due s) <= lates (trace s);
  v_fifo : good = true -> mCloseRequested (d s) = false -> due s = P ++ flights s;
  v_after : bCloseRequested (b s) = true -> length (due s) <= length P;
  v_calm : calm = true -> calm_state s
}.

(** What code of the user leaves alone *)
Definition torn_down (s : sock) : Prop := mCloseRequested (d s) = true -> bCloseRequested (b s) = true.
Record evolves (s s' : sock) : Prop := {
  e_over : bCloseRequested (b s) = true -> bCloseRequested (b s') = true;
  e_closed : mCloseRequested (d s) = true -> mCloseRequested (d s') = true /\ bCloseRequested (b s') = bCloseRequested (b s);
  e_handle : mHandle (b s) <> None -> mHandle (b s') <> None;
  e_torn : torn_down s -> torn_down s'
}.

Lemma udp_evolves_same (s s' : sock) : bCloseRequested (b s') = bCloseRequested (b s) -> mCloseRequested (d s') = mCloseRequested (d s) ->
  (mHandle (b s) <> None -> mHandle (b s') <> None) -> evolves s s'.
Proof. intros E1 E2 H. split; unfold torn_down; rewrite ?E1, ?E2; auto. Qed.
Lemma udp_evolves_refl (s : sock) : evolves s s.
Proof. by apply udp_evolves_same. Qed.
Lemma udp_evolves_trans (s s1 s2 : sock) : evolves s s1 -> evolves s1 s2 -> evolves s s2.
Proof.
  intros [A1 A2 A3 A4] [B1 B2 B3 B4]. split; auto. intros H. destruct (A2 H) as [H1 E1], (B2 (proj1 (A2 H))) as [H2 E2]. split; [done|congruence].
Qed.

(** ** Results: a calm program does not run out of fuel. *)
Definition returns {A : Type} (r : run A) (P : A -> Prop) : Prop := match r with Ret s => P s | Fatal => True | Timeout => calm = false | Undef => False end.

Lemma udp_returns_bind {A B : Type} (r : run A) (k : A -> run B) (Q : A -> Prop) (P : B -> Prop) : returns r Q -> (forall s, Q s -> returns (k s) P) -> returns (run_bind r k) P.
Proof. destruct r; cbn; auto. Qed.
Lemma udp_returns_mono {A : Type} (r : run A) (P Q : A -> Prop) : returns r P -> (forall s, P s -> Q s) -> returns r Q.
Proof. destruct r; cbn; auto. Qed.
Lemma udp_returns_check {A : Type} (c : bool) (k : unit -> run A) (P : A -> Prop) : (c = true -> returns (k tt) P) -> returns (run_bind (check c) k) P.
Proof. destruct c; cbn; auto. Qed.

Definition post (P L : list nat) (s : sock) (w : nat) (s' : sock) : Prop := valid_in P L s' /\ evolves s s' /\ (calm = true -> load s' <= w).

Lemma udp_post_trans (P L : list nat) (s s1 s2 : sock) (w w' : nat) : evolves s s1 -> post P L s1 w s2 -> w <= w' -> post P L s w' s2.
Proof. intros H (Hv & He & Hl) Hw. split; [done|]. split; [by apply (udp_evolves_trans s s1)|]. intros Hc. specialize (Hl Hc). lia. Qed.

(** Fields that the invariant does not look at *)
Definition core (s : sock) :=
  (mState (d s), mCloseRequested (d s), mPendingSendDones (d s), (mOnDatagram (d s), mOnError (d s), mOnStateChange (d s)),
   (mHandle (b s), bCloseRequested (b s), mRecvArmed (b s), bOnDatagram (b s), mSends (b s)),
   (asked_for (trace s), lates (trace s), answered (trace s), dropped (trace s))).

Lemma core_valid (P L : list nat) (s s' : sock) : core s' = core s -> valid_in P L s -> valid_in P L s'.
Proof.
  intros E []. unfold core in E. injection E as E1 E2 E3 E4 E5 E6 E7 E8 E9 E10 E11 E12 E13 E14 E15.
  split; unfold due, flights, calm_state in *; rewrite ?E1, ?E2, ?E3, ?E4, ?E5, ?E6, ?E7, ?E8, ?E9, ?E10, ?E11, ?E12, ?E13, ?E14, ?E15; done.
Qed.
Lemma core_evolves (s s' : sock) : core s' = core s -> evolves s s'.
Proof. intros E. unfold core in E. injection E as E1 E2 E3 E4 E5 E6 E7 E8 E9 E10 E11 E12 E13 E14 E15. apply udp_evolves_same; congruence. Qed.
Lemma core_load (s s' : sock) : core s' = core s -> load s' = load s.
Proof. intros E. unfold core in E. unfold load. congruence. Qed.

(** ** The functions, whatever [invoke] does within the bounds *)
Section Functions.
Context (uv : uv_codes) (UV_ESHUTDOWN UV_EBADF : Z) (answer : uv_call -> nat -> Z) (fill_sockaddr : Z -> bool) (any_address : Z)
  (mInProcessEvents : bool) (has_posted : sock -> nat -> bool) (uv_run : sock -> run sock) (fuel : nat) (invoke : closure -> argument -> sock -> run sock).

(** Libuv, when it runs, reports the close of a handle with nothing outstanding. *)
Hypothesis Hidle : gets_idle has_posted.
Hypothesis Hpump : forall s h, mHandle (b s) = Some h -> closing h = true -> mSends (b s) = [] -> uv_run s = on_closed s.
Hypothesis Hgood : good = true -> (forall n, answer uv_udp_send n = 0%Z) /\ (forall a, fill_sockaddr a = true).
Hypothesis Hcall : forall P L cb a s, valid_in P (ticket a (cb_name cb) ++ L) s -> (calm = true -> calm_cb cb = true /\ cb_weight cb + load s <= fuel) ->
  returns (invoke (User cb) a s) (post P L s (load s + cb_weight cb - 1)).

(** *** Telling the user *)
Lemma watched (o : option callback) (P L : list nat) (a : argument) (s : sock) :
  (forall n, ticket a n = []) -> valid_in P L s -> (calm = true -> watches o = true /\ 1 + load s <= fuel) ->
  returns (match o with Some cb => invoke (User cb) a s | None => Ret s end) (post P L s (load s)).
Proof.
  intros Ha Hv Hf. destruct o as [cb|]; [|split; [done|]; split; [apply udp_evolves_refl|done]].
  eapply udp_returns_mono; [apply (Hcall P L cb a s); [by rewrite Ha|]|].
  - intros Hc. destruct (Hf Hc) as [[Hw Hq]%watches_weight Hl]. split; [done|lia].
  - intros s' (H1 & H2 & H3). split; [done|]. split; [done|]. intros Hc. specialize (H3 Hc). destruct (Hf Hc) as [[Hw _]%watches_weight _]. lia.
Qed.

Lemma report_status_spec (P L : list nat) (s : sock) : valid_in P L s -> (calm = true -> 1 + load s <= fuel) -> returns (report_status uv invoke s) (post P L s (load s)).
Proof.
  intros Hv Hf. unfold report_status, report_error. set (s1 := with_last_error s _).
  assert (Hv1 : valid_in P L s1) by by apply (core_valid P L s). change (mOnError (d s)) with (mOnError (d s1)).
  eapply udp_returns_mono; [apply (watched (mOnError (d s1)) P L); [done|done|]|].
  - intros Hc. split; [apply (v_calm _ _ _ Hv1 Hc)|by apply Hf].
  - intros s' H. apply (udp_post_trans P L s s1 s' (load s)); [by apply core_evolves|done|lia].
Qed.

Definition enter (state : SocketState) (s : sock) : sock := record (Entered state) (with_state s state).
Lemma udp_set_state_spec (P L : list nat) (state : SocketState) (s : sock) :
  valid_in P L (enter state s) -> (calm = true -> 1 + load s <= fuel) -> returns (set_state invoke state s) (post P L (enter state s) (load s)).
Proof.
  intros Hv Hf. unfold set_state. change (record _ _) with (enter state s). apply (watched _ P L (Entering state) (enter state s)); [done|done|].
  intros Hc. split; [apply (v_calm _ _ _ Hv Hc)|by apply Hf].
Qed.

(** A state that an open socket may enter *)
Lemma udp_enter_valid (P L : list nat) (state : SocketState) (s : sock) :
  valid_in P L s -> (state = kBound -> bCloseRequested (b s) = false -> mHandle (b s) <> None) -> (state = kConnected -> bCloseRequested (b s) = false /\ mHandle (b s) <> None) ->
  state <> kClosed -> valid_in P L (enter state s).
Proof. intros [] Hb Hc Hn. split; try done; cbn; [intros [->| ->] H; [by apply Hb|by apply Hc]|]. intros H ->. destruct (Hc eq_refl). congruence. Qed.
Lemma enter_evolves (state : SocketState) (s : sock) : evolves s (enter state s).
Proof. by apply udp_evolves_same. Qed.

(** *** The backend *)
Definition fails (P L : list nat) (s : sock) (r : bool * sock) : Prop := core (snd r) = core s.

Lemma open_handle_spec {A : Type} (P L : list nat) (k : uv_udp -> run A) (Q : A -> Prop) (s s' : sock) : valid_in P L s' -> mHandle (b s) = mHandle (b s') -> bCloseRequested (b s') = false -> mHandle (b s') <> None ->
  (forall h, mHandle (b s') = Some h -> closing h = false -> returns (k h) Q) -> returns (do h <- open_handle s; k h) Q.
Proof.
  intros Hv E Hb Hh Hk. unfold open_handle. rewrite E. destruct (mHandle (b s')) as [h|] eqn:Eh; [|done]. cbn [deref run_bind].
  pose proof (v_closing _ _ _ Hv h Eh) as Hc. rewrite Hb in Hc. rewrite Hc. cbn [run_bind]. by apply Hk.
Qed.

Lemma b_set_broadcast_spec (P L : list nat) (enable : bool) (s : sock) : valid_in P L s -> returns (b_set_broadcast UV_ESHUTDOWN UV_EBADF answer enable s) (fun r => core (snd r) = core s).
Proof.
  intros Hv. unfold b_set_broadcast. destruct (bCloseRequested (b s)) eqn:Eb; [done|]. case_bool_decide as Eh; [done|]. cbn [orb].
  apply (open_handle_spec P L _ _ s s Hv eq_refl Eb Eh). intros h _ _. cbn [ask]. destruct (negb (answer uv_fileno (asked s) =? 0)%Z); [done|].
  cbn. destruct (negb _); done.
Qed.

Lemma udp_b_connect_spec (P L : list nat) (addr : Z) (s : sock) : valid_in P L s ->
  returns (b_connect uv UV_ESHUTDOWN answer fill_sockaddr addr s) (fun r => core (snd r) = core s /\ (fst r = true -> bCloseRequested (b s) = false /\ mHandle (b s) <> None)).
Proof.
  intros Hv. unfold b_connect. destruct (bCloseRequested (b s)) eqn:Eb; [done|]. case_bool_decide as Eh; [done|]. cbn [orb].
  destruct (negb (fill_sockaddr addr)); [done|]. apply (open_handle_spec P L _ _ s s Hv eq_refl Eb Eh). intros h _ _. cbn [ask]. by destruct (negb _).
Qed.

Lemma b_disconnect_remote_spec (P L : list nat) (s : sock) : valid_in P L s -> returns (b_disconnect_remote s) (fun s' => core s' = core s).
Proof.
  intros Hv. unfold b_disconnect_remote. case_bool_decide as Eh; [|done]. destruct (bCloseRequested (b s)) eqn:Eb; [done|]. cbn [andb negb].
  by apply (open_handle_spec P L _ _ s s Hv eq_refl Eb Eh).
Qed.

(** A handle that was bound, or nothing *)
Lemma b_bind_spec (P L : list nat) (addr : Z) (s : sock) : valid_in P L s ->
  returns (b_bind uv answer fill_sockaddr mInProcessEvents has_posted uv_run addr s) (fun r => valid_in P L (snd r) /\ d (snd r) = d s /\ trace (snd r) = trace s /\ evolves s (snd r) /\
    (fst r = true -> bCloseRequested (b (snd r)) = false /\ mHandle (b (snd r)) <> None)).
Proof.
  intros Hv. unfold b_bind. apply udp_returns_check. intros Eh%bool_decide_eq_true.
  assert (Hsame : forall s', core s' = core s -> d s' = d s -> trace s' = trace s -> returns (Ret (false, s')) (fun r => valid_in P L (snd r) /\ d (snd r) = d s /\ trace (snd r) = trace s /\ evolves s (snd r) /\
    (fst r = true -> bCloseRequested (b (snd r)) = false /\ mHandle (b (snd r)) <> None))).
  { intros s' E Ed Et. cbn [returns fst snd]. split; [by apply (core_valid P L s)|]. split; [done|]. split; [done|]. split; [by apply core_evolves|done]. }
  destruct (bCloseRequested (b s)) eqn:Eb; [by apply Hsame|]. destruct (negb (fill_sockaddr addr)); [by apply Hsame|]. cbn [ask].
  destruct (negb (answer uv_udp_init _ =? 0)%Z); [by apply Hsame|]. cbn [ask].
  assert (Ea : mRecvArmed (b s) = false) by (destruct (mRecvArmed (b s)) eqn:E; [by destruct (v_armed _ _ _ Hv E)|done]).
  pose proof (v_sends _ _ _ Hv Eh) as Es. destruct (negb (answer uv_udp_bind _ =? 0)%Z).
  - set (s1 := with_handle (mkSock _ _ _ _) _). unfold pump. destruct (pump_once has_posted uv_run has_handle s1 Hidle) as (Hstop & n & r & Hround); [done|].
    destruct mInProcessEvents; [by rewrite Hstop|]. rewrite Hround, (Hpump s1 (mkHandle true false)) by done. unfold on_closed. cbn [run_bind]. rewrite pump_closed by done.
    cbn [run_bind]. apply Hsame; [|done|done]. unfold core. cbn. by rewrite Eh.
  - cbn [returns fst snd]. split; [|split; [done|]; split; [done|]; split; [by apply udp_evolves_same|done]].
    destruct Hv. split; try done; cbn; try (by intros h [= <-]); congruence.
Qed.

(** A close, up to the state that is entered after it *)
Lemma udp_b_begin_close_spec (P L : list nat) (s : sock) : valid_in P L s -> mCloseRequested (d s) = true ->
  length (dropped (trace s)) + length (due s) <= lates (trace s) -> length (due s) <= length P ->
  returns (b_begin_close s) (fun s' => (forall st, st <> kConnected -> valid_in P L (with_state s' st)) /\ d s' = d s /\ trace s' = trace s /\ bCloseRequested (b s') = true /\
    (mHandle (b s) <> None -> mHandle (b s') <> None) /\ (forall h, mHandle (b s') = Some h -> closing h = true)).
Proof.
  intros Hv Hc Hl Hp. unfold b_begin_close. destruct (bCloseRequested (b s)) eqn:Eb.
  { cbn. split; [|do 4 (split; [done|]); intros h Hh; by rewrite (v_closing _ _ _ Hv h Hh)]. intros st Hst. destruct Hv. split; try done; cbn. congruence. }
  change (mHandle (b (with_b_close_requested s true))) with (mHandle (b s)). destruct (mHandle (b s)) as [h|] eqn:Eh.
  2:{ cbn. rewrite Eh. split; [|done]. intros st Hst. destruct Hv. split; try done; cbn; rewrite ?Eh; try done. intros Ha. by destruct (v_armed0 Ha). }
  change (mRecvArmed (b (with_b_close_requested s true))) with (mRecvArmed (b s)).
  pose proof (v_closing _ _ _ Hv h Eh) as Hcl. rewrite Eb in Hcl. pose proof (v_receiving _ _ _ Hv h Eh) as Hrec.
  destruct (mRecvArmed (b s)) eqn:Ea; cbn; rewrite ?Eh; cbn; rewrite Hcl; cbn.
  - split; [|do 3 (split; [done|]); split; [done|by intros k [= <-]]]. intros st Hst. destruct Hv. split; try done; cbn; by intros k [= <-].
  - split; [|do 3 (split; [done|]); split; [done|by intros k [= <-]]]. intros st Hst. destruct Hv. split; try done; cbn; try congruence; intros k [= <-]; cbn; [done|]. by intros H%Hrec.
Qed.

Lemma receive_start_spec (P L : list nat) (s : sock) : valid_in P L s -> bCloseRequested (b s) = true \/ mHandle (b s) <> None ->
  returns (receive_start answer DatagramEvent s) (fun s' => valid_in P L s' /\ d s' = d s /\ evolves s s').
Proof.
  intros Hv Hh. unfold receive_start. destruct (bCloseRequested (b s)) eqn:Eb; [split; [done|]; split; [done|apply udp_evolves_refl]|]. destruct Hh as [?|Hh]; [congruence|].
  set (s1 := with_b_on_datagram s _). assert (Hv1 : valid_in P L s1) by (destruct Hv; split; try done; by intros f [= <-]).
  change (mRecvArmed (b s1)) with (mRecvArmed (b s)). destruct (mRecvArmed (b s)) eqn:Ea; [split; [done|]; split; [done|by apply udp_evolves_same]|].
  apply (open_handle_spec P L _ _ s1 s1 Hv1 eq_refl Eb Hh). intros h Eh Hcl. cbn [ask]. apply udp_returns_check. intros _. cbn [returns].
  split; [|split; [done|by apply udp_evolves_same]]. destruct Hv1. split; try done; cbn. intros k [= <-]. cbn. by rewrite Hcl.
Qed.

(** *** Answers *)
Lemma send_done_spec (P P' L : list nat) (ok : bool) (s : sock) : valid_in P' L s -> length P' = S (length P) ->
  (good = true -> mCloseRequested (d s) = true \/ exists x, P' = x :: P) -> (calm = true -> 1 + load s <= fuel) ->
  returns (send_done uv invoke ok s) (post P L s (load s)).
Proof.
  intros Hv Hlen Hgp Hf. unfold send_done.
  eapply (udp_returns_bind _ _ (post P' L s (load s))).
  { destruct ok; cbn [negb]; [split; [done|split; [apply udp_evolves_refl|done]]|by apply report_status_spec]. }
  intros s1 (Hv1 & He1 & Hl1).
  assert (Hfifo : good = true -> mCloseRequested (d s1) = false -> exists x, P' = x :: P /\ due s1 = x :: P ++ flights s1).
  { intros Hg Hc. destruct (Hgp Hg) as [H|[x ->]]; [by destruct (e_closed _ _ He1 H); congruence|]. exists x. split; [done|]. by rewrite (v_fifo _ _ _ Hv1 Hg Hc). }
  destruct (mPendingSendDones (d s1)) as [|cb rest] eqn:Ep.
  - split; [|split; [done|done]]. destruct Hv1. split; try done; unfold due in *; rewrite Ep in *; cbn.
    + intros Hg Hc. by destruct (Hfifo Hg Hc) as (x & _ & H).
    + lia.
  - set (s2 := with_dones s1 rest). assert (Ed : due s1 = cb_name cb :: due s2) by (unfold due; by rewrite Ep).
    assert (Hv2 : valid_in P (ticket (Sent ok) (cb_name cb) ++ L) s2).
    { destruct Hv1. rewrite Ed in *. split; try done; cbn [ticket].
      - change (trace s2) with (trace s1). rewrite v_count0. solve_Permutation.
      - intros Hm Hb. specialize (v_window0 Hm Hb). cbn [length] in v_window0. change (trace s2) with (trace s1). lia.
      - intros Hg Hc. destruct (Hfifo Hg Hc) as (x & _ & H). by injection H.
      - intros Hb. specialize (v_after0 Hb). cbn [length] in v_after0. lia.
      - intros Hc. destruct (v_calm0 Hc) as (H1 & H2). rewrite Ep in H1. apply Forall_cons in H1 as [_ H1]. by split. }
    assert (Hl2 : load s1 = cb_weight cb + load s2) by (unfold load; by rewrite Ep).
    eapply udp_returns_mono; [apply (Hcall P L cb (Sent ok) s2 Hv2)|].
    + intros Hc. destruct (v_calm _ _ _ Hv1 Hc) as (H1 & _). rewrite Ep in H1. apply Forall_cons in H1 as [H1 _]. split; [done|]. specialize (Hl1 Hc). specialize (Hf Hc). lia.
    + intros s' (H1 & H2 & H3). split; [done|]. split; [apply (udp_evolves_trans s s1); [done|apply (udp_evolves_trans s1 s2); [by apply udp_evolves_same|done]]|].
      intros Hc. specialize (H3 Hc). specialize (Hl1 Hc). lia.
Qed.

Hypothesis Hsent : forall P x L s, valid_in (P ++ [x]) L s -> (good = true -> mCloseRequested (d s) = true) -> (calm = true -> 2 + load s <= fuel) ->
  returns (invoke SendDone (Sent false) s) (post P L s (load s)).

Lemma push_valid (P P' L : list nat) (cb : callback) (s : sock) : valid_in P (cb_name cb :: L) s -> (calm = true -> calm_cb cb = true) ->
  (mCloseRequested (d s) = true -> bCloseRequested (b s) = false -> length (dropped (trace s)) + S (length (due s)) <= lates (trace s)) ->
  (good = true -> mCloseRequested (d s) = true) -> (bCloseRequested (b s) = true -> S (length P) <= length P') ->
  valid_in P' L (with_dones s (mPendingSendDones (d s) ++ [cb])).
Proof.
  intros [] Hc Hw Hg Ha. split; try done; unfold due in *; cbn; rewrite ?fmap_app.
  - rewrite v_count0. cbn. solve_Permutation.
  - intros Hm Hb. rewrite length_app. cbn. specialize (Hw Hm Hb). lia.
  - intros Hgd Hm. rewrite (Hg Hgd) in Hm. done.
  - intros Hb. rewrite length_app. cbn. specialize (v_after0 Hb). specialize (Ha Hb). lia.
  - intros H. destruct (v_calm0 H) as (H1 & H2). split; [|done]. cbn. apply Forall_app. split; [done|]. constructor; [by apply Hc|done].
Qed.

Lemma b_send_to_spec (P L : list nat) (data : list Z) (addr : Z) (cb : callback) (s : sock) :
  valid_in P (cb_name cb :: L) s -> bCloseRequested (b s) = true \/ mHandle (b s) <> None ->
  (mCloseRequested (d s) = true -> bCloseRequested (b s) = false -> length (dropped (trace s)) + S (length (due s)) <= lates (trace s)) ->
  (calm = true -> calm_cb cb = true /\ 2 + load s + cb_weight cb <= fuel) ->
  returns (b_send_to uv UV_ESHUTDOWN answer fill_sockaddr invoke data addr SendDone (cb_name cb) (with_dones s (mPendingSendDones (d s) ++ [cb])))
    (post P L s (load s + cb_weight cb)).
Proof.
  intros Hv Hh Hw Hf. set (s1 := with_dones s _). assert (Hl1 : load s1 = load s + cb_weight cb) by (unfold load; cbn; rewrite dones_weight_app; cbn; lia).
  assert (He1 : evolves s s1) by by apply udp_evolves_same.
  assert (Hfail : forall st, (good = true -> mCloseRequested (d s) = true) -> returns (invoke SendDone (Sent false) (with_native_status s1 st)) (post P L s (load s + cb_weight cb))).
  { intros st Hg. eapply udp_returns_mono; [apply (Hsent P (cb_name cb) L (with_native_status s1 st))|].
    - apply (core_valid (P ++ [cb_name cb]) L s1); [done|]. apply (push_valid P); [done|intros H; by destruct (Hf H)|done|done|]. rewrite length_app. cbn. lia.
    - done.
    - intros Hc. destruct (Hf Hc) as [_ H]. change (load (with_native_status s1 st)) with (load s1). lia.
    - intros s' H. eapply udp_post_trans; [|exact H|change (load (with_native_status s1 st)) with (load s1); lia]. apply (udp_evolves_trans s s1); [done|by apply core_evolves]. }
  unfold b_send_to. change (bCloseRequested (b s1)) with (bCloseRequested (b s)). change (mHandle (b s1)) with (mHandle (b s)).
  destruct (bCloseRequested (b s)) eqn:Eb; [apply Hfail; intros _; by apply (v_latch _ _ _ Hv)|]. destruct Hh as [?|Hh]; [congruence|]. rewrite bool_decide_false by done. cbn [orb].
  destruct (fill_sockaddr addr) eqn:Ef; cbn [negb].
  2:{ assert (Hng : good = true -> False) by (intros Hg; destruct (Hgood Hg) as [_ H]; specialize (H addr); congruence). cbn [returns]. split; [|split; [|intros _; change (load (with_native_status s1 _)) with (load s1); lia]].
      - apply (core_valid P L s1); [done|]. apply (push_valid P); [done|intros H; by destruct (Hf H)|intros Hm _; by apply Hw|intros Hg; by destruct (Hng Hg)|congruence].
      - apply (udp_evolves_trans s s1); [done|by apply core_evolves]. }
  destruct (mHandle (b s)) as [h|] eqn:Eh; [|done]. apply (open_handle_spec P (cb_name cb :: L) _ _ s1 s Hv); [done|done|by rewrite Eh|]. intros h' _ _. cbn [ask].
  destruct (negb (answer uv_udp_send (asked s1) =? 0)%Z) eqn:Er.
  { assert (Hng : good = true -> False) by (intros Hg; destruct (Hgood Hg) as [H _]; by rewrite H in Er).
    eapply udp_returns_mono; [apply (Hsent P (cb_name cb) L)|].
    - apply (core_valid (P ++ [cb_name cb]) L s1); [done|]. apply (push_valid P); [done|intros H; by destruct (Hf H)|intros Hm _; by apply Hw|intros Hg; by destruct (Hng Hg)|]. rewrite length_app. cbn. lia.
    - intros Hg. by destruct (Hng Hg).
    - intros Hc. destruct (Hf Hc) as [_ H]. rewrite (core_load s1) by done. lia.
    - intros s' H. eapply udp_post_trans; [|exact H|rewrite (core_load s1) by done; lia]. apply (udp_evolves_trans s s1); [done|by apply core_evolves]. }
  cbn [returns]. split; [|split; [by apply udp_evolves_same|intros _; unfold load in *; cbn in *; lia]].
  destruct Hv. split; try done; unfold due, flights in *; cbn; rewrite ?fmap_app.
  - congruence.
  - apply Forall_app. split; [done|]. by repeat constructor.
  - rewrite v_count0. cbn. solve_Permutation.
  - intros Hm Hb. rewrite length_app. cbn. specialize (Hw Hm eq_refl). lia.
  - intros Hg Hm. rewrite (v_fifo0 Hg Hm). cbn. by rewrite (assoc_L (++)).
  - intros Hb. congruence.
  - intros H. destruct (v_calm0 H) as (H1 & H2). split; [|done]. cbn. apply Forall_app. split; [done|]. constructor; [by apply Hf|done].
Qed.

(** *** Closing *)
Lemma udp_discard_spec (P L : list nat) (l : list callback) (s : sock) : valid_in P (map cb_name l ++ L) s ->
  (calm = true -> Forall (fun cb => calm_cb cb = true) l /\ dones_weight l + load s <= fuel) -> returns (discard invoke l s) (post P L s (load s + dones_weight l)).
Proof.
  revert s. induction l as [|cb l IH]; intros s Hv Hf; cbn [discard]; [split; [done|split; [apply udp_evolves_refl|intros _; lia]]|].
  eapply udp_returns_bind; [apply (Hcall P (map cb_name l ++ L) cb (Sent false) s Hv)|].
  { intros Hc. destruct (Hf Hc) as [[H1 _]%Forall_cons H2]. rewrite dones_weight_cons in H2. split; [done|lia]. }
  intros s1 (Hv1 & He1 & Hl1). pose proof (udp_cb_weight_pos cb). eapply udp_returns_mono; [apply (IH s1 Hv1)|].
  - intros Hc. destruct (Hf Hc) as [[_ H1]%Forall_cons H2]. rewrite dones_weight_cons in H2. specialize (Hl1 Hc). split; [done|lia].
  - intros s2 (Hv2 & He2 & Hl2). split; [done|]. split; [by apply (udp_evolves_trans s s1)|]. intros Hc. specialize (Hl1 Hc). specialize (Hl2 Hc). rewrite dones_weight_cons. lia.
Qed.

Lemma dropped_app (n : list nat) (t : list event) : dropped (rev (map Dropped n) ++ t) = rev n ++ dropped t /\
  asked_for (rev (map Dropped n) ++ t) = asked_for t /\ answered (rev (map Dropped n) ++ t) = answered t /\ lates (rev (map Dropped n) ++ t) = lates t.
Proof.
  revert t. induction n as [|x n IH]; intros t; [done|]. cbn [map rev]. rewrite <- (assoc_L (++)). destruct (IH ([Dropped x] ++ t)) as (H1 & H2 & H3 & H4).
  rewrite H1, H2, H3, H4. cbn. split; [|done]. by rewrite <- (assoc_L (++)).
Qed.

Lemma drop_dones_spec (P L : list nat) (s : sock) : valid_in P L s -> mCloseRequested (d s) = true -> bCloseRequested (b s) = false ->
  valid_in P L (drop_dones s) /\ due (drop_dones s) = [] /\ length (dropped (trace (drop_dones s))) <= lates (trace (drop_dones s)).
Proof.
  intros Hv Hm Hb. pose proof (v_window _ _ _ Hv Hm Hb) as Hw. unfold due in Hw. rewrite length_fmap in Hw.
  destruct (dropped_app (due s) (trace s)) as (H1 & H2 & H3 & H4).
  assert (E : trace (drop_dones s) = rev (map Dropped (due s)) ++ trace s) by (unfold drop_dones, due; cbn; by rewrite map_map).
  assert (Hlen : length (dropped (trace (drop_dones s))) <= lates (trace (drop_dones s))).
  { rewrite E, H1, H4, length_app, length_rev. unfold due. rewrite length_fmap. lia. }
  split; [|done]. destruct Hv. split; rewrite ?E, ?H1, ?H2, ?H3, ?H4; try done.
  - rewrite v_count0, <- (Permutation_rev (due s)). change (due (drop_dones s)) with (@nil nat). solve_Permutation.
  - by rewrite E, H1, H4 in Hlen.
  - intros _ _. rewrite E, H1, H4 in Hlen. change (due (drop_dones s)) with (@nil nat). cbn [length]. lia.
  - intros Hg H. change (mCloseRequested (d (drop_dones s))) with (mCloseRequested (d s)) in H. congruence.
  - intros H. change (bCloseRequested (b (drop_dones s))) with (bCloseRequested (b s)) in H. congruence.
  - intros Hc. destruct (v_calm0 Hc) as (_ & H). by split.
Qed.

Lemma udp_begin_close_spec (P L : list nat) (s : sock) : valid_in P L s -> (calm = true -> 1 + load s <= fuel) ->
  returns (begin_close invoke s) (fun s' => post P L s (load s) s' /\ mCloseRequested (d s') = true /\ (mCloseRequested (d s) = false -> bCloseRequested (b s') = true)).
Proof.
  intros Hv Hf. unfold begin_close. destruct (mCloseRequested (d s)) eqn:Em.
  { split; [|done]. split; [done|]. split; [apply udp_evolves_refl|done]. }
  assert (Eb : bCloseRequested (b s) = false) by (destruct (bCloseRequested (b s)) eqn:E; [pose proof (v_latch _ _ _ Hv E); congruence|done]).
  set (s1 := with_dones (with_close_requested s true) []). change (mPendingSendDones (d (with_close_requested s true))) with (mPendingSendDones (d s)).
  assert (Hv1 : valid_in P (map cb_name (mPendingSendDones (d s)) ++ L) s1).
  { destruct Hv. split; try done; unfold due in *; cbn.
    - rewrite v_count0. change (cb_name <$> mPendingSendDones (d s)) with (map cb_name (mPendingSendDones (d s))). solve_Permutation.
    - intros _ _. lia.
    - intros _. lia.
    - intros Hc. destruct (v_calm0 Hc) as (_ & H). split; [constructor|done]. }
  assert (Hl1 : load s1 = 0) by done.
  eapply udp_returns_bind; [apply (udp_discard_spec P L _ s1 Hv1)|].
  { intros Hc. split; [apply (v_calm _ _ _ Hv Hc)|]. specialize (Hf Hc). unfold load in *. cbn. lia. }
  intros s2 (Hv2 & He2 & Hl2). destruct (e_closed _ _ He2 eq_refl) as [Hm2 Eb2]. change (bCloseRequested (b s1)) with (bCloseRequested (b s)) in Eb2. rewrite Eb in Eb2.
  destruct (drop_dones_spec P L s2 Hv2 Hm2 Eb2) as (Hv3 & Hd3 & Hle3). set (s3 := with_peer _ _).
  assert (Hv3' : valid_in P L s3).
  { destruct Hv3. split; try done. intros Hc. destruct (v_calm0 Hc) as (H1 & H2 & H3). by split. }
  eapply udp_returns_bind; [apply (udp_b_begin_close_spec P L s3 Hv3' Hm2); [change (trace s3) with (trace (drop_dones s2)); change (due s3) with (due (drop_dones s2)); rewrite Hd3; cbn [length]; lia|]|].
  { change (due s3) with (due (drop_dones s2)). rewrite Hd3. cbn. lia. }
  intros s4 (Hv4 & Ed4 & Et4 & Eb4 & Hh4 & _). assert (Hl4 : load s4 = 0) by (unfold load; rewrite Ed4; done).
  assert (Hv4' : valid_in P L (enter kClosed s4)) by (apply (core_valid P L (with_state s4 kClosed)); [done|by apply Hv4]).
  eapply udp_returns_mono; [apply (udp_set_state_spec P L kClosed s4 Hv4')|].
  - intros Hc. specialize (Hf Hc). lia.
  - intros s5 (Hv5 & He5 & Hl5).
    assert (Hb5 : bCloseRequested (b s5) = true) by by apply (e_over _ _ He5).
    split; [|split; [by apply (v_latch _ _ _ Hv5)|done]]. split; [done|]. split; [|intros Hc; specialize (Hl5 Hc); lia].
    split; [congruence|congruence| |by intros _ _]. intros Hh. apply (e_handle _ _ He5). cbn. apply Hh4. change (mHandle (b s3)) with (mHandle (b s2)). by apply (e_handle _ _ He2).
Qed.

(** *** The calls of the user *)
Lemma apply_pending_broadcast_spec (P L : list nat) (s : sock) : valid_in P L s -> (calm = true -> 1 + load s <= fuel) ->
  returns (apply_pending_broadcast uv UV_ESHUTDOWN UV_EBADF answer invoke s) (post P L s (load s)).
Proof.
  intros Hv Hf. unfold apply_pending_broadcast. destruct (mBroadcastPending (d s)); [|split; [done|split; [apply udp_evolves_refl|done]]].
  eapply udp_returns_bind; [by apply (b_set_broadcast_spec P L)|]. intros [ok s1] E. cbn [snd] in E.
  pose proof (core_valid P L s s1 E Hv) as Hv1. pose proof (core_evolves s s1 E) as He1. pose proof (core_load s s1 E) as Hl1.
  destruct ok.
  - split; [by apply (core_valid P L s1)|]. split; [by apply (udp_evolves_trans s s1); [|apply core_evolves]|]. intros _. change (load s1 <= load s). lia.
  - destruct (mBroadcastPending (d s1)); [|split; [done|split; [done|intros _; lia]]].
    eapply udp_returns_mono; [apply (report_status_spec P L s1 Hv1); intros Hc; specialize (Hf Hc); lia|]. intros s2 H. eapply udp_post_trans; [done|exact H|lia].
Qed.

Lemma bound_spec (P L : list nat) (addr : Z) (s : sock) : valid_in P L s -> (calm = true -> 1 + load s <= fuel) ->
  returns (do (ok, s) <- b_bind uv answer fill_sockaddr mInProcessEvents has_posted uv_run addr s; if (ok : bool) then do s <- apply_pending_broadcast uv UV_ESHUTDOWN UV_EBADF answer invoke s; Ret (true, s) else Ret (false, s))
    (fun r => post P L s (load s) (snd r) /\ (fst r = true -> mHandle (b (snd r)) <> None)).
Proof.
  intros Hv Hf. eapply udp_returns_bind; [by apply (b_bind_spec P L)|]. intros [ok s1] (Hv1 & Ed1 & _ & He1 & Hh1). cbn [fst snd] in *.
  assert (Hl1 : load s1 = load s) by (unfold load; by rewrite Ed1). destruct ok; [|split; [|done]; split; [done|split; [done|intros _; cbn [snd]; lia]]].
  eapply udp_returns_bind; [apply (apply_pending_broadcast_spec P L s1 Hv1); by rewrite Hl1|]. intros s2 (Hv2 & He2 & Hl2).
  split; [|intros _; by apply (e_handle _ _ He2), Hh1]. split; [done|]. split; [by apply (udp_evolves_trans s s1)|]. intros Hc. specialize (Hl2 Hc). cbn [snd]. lia.
Qed.

Lemma enter_bound_spec (P L : list nat) (s : sock) : valid_in P L s -> mHandle (b s) <> None -> (calm = true -> 1 + load s <= fuel) ->
  returns (set_state invoke kBound s) (fun s' => post P L s (load s) s' /\ mHandle (b s') <> None).
Proof.
  intros Hv Hh Hf. eapply udp_returns_mono; [apply udp_set_state_spec; [by apply udp_enter_valid|done]|].
  intros s' (H1 & H2 & H3). split; [|by apply (e_handle _ _ H2)]. split; [done|]. split; [|done]. by apply (udp_evolves_trans s (enter kBound s)); [apply enter_evolves|].
Qed.

Lemma bind_spec (P L : list nat) (addr : Z) (s : sock) : valid_in P L s -> (calm = true -> 1 + load s <= fuel) ->
  returns (bind uv UV_ESHUTDOWN UV_EBADF answer fill_sockaddr mInProcessEvents has_posted uv_run invoke addr s) (post P L s (load s)).
Proof.
  intros Hv Hf. unfold bind. apply udp_returns_check. intros _. apply udp_returns_check. intros _.
  eapply udp_returns_bind; [by apply (b_bind_spec P L)|]. intros [ok s1] (Hv1 & Ed1 & _ & He1 & Hh1). cbn [fst snd] in *.
  assert (Hl1 : load s1 = load s) by (unfold load; by rewrite Ed1).
  assert (Hrec : forall ok s', post P L s (load s) s' -> post P L s (load s) (record (Returned ok) s')).
  { intros o s' (H1 & H2 & H3). split; [by apply (core_valid P L s')|]. split; [|done]. by apply (udp_evolves_trans s s'); [|apply core_evolves]. }
  destruct ok; cbn [negb].
  - eapply udp_returns_bind; [apply (apply_pending_broadcast_spec P L s1 Hv1); by rewrite Hl1|]. intros s2 (Hv2 & He2 & Hl2).
    eapply udp_returns_bind; [apply (enter_bound_spec P L s2 Hv2)|].
    + by apply (e_handle _ _ He2), Hh1.
    + intros Hc. specialize (Hl2 Hc). specialize (Hf Hc). lia.
    + intros s3 ((H1 & H2 & H3) & _). apply Hrec. split; [done|]. split; [apply (udp_evolves_trans s s1); [done|by apply (udp_evolves_trans s1 s2)]|].
      intros Hc. specialize (Hl2 Hc). specialize (H3 Hc). lia.
  - eapply udp_returns_bind; [apply (report_status_spec P L s1 Hv1); by rewrite Hl1|]. intros s2 H. apply Hrec. eapply udp_post_trans; [done|exact H|lia].
Qed.

Lemma use_spec (P L : list nat) (s : sock) : valid_in P L s -> (calm = true -> 1 + load s <= fuel) ->
  mState (d s) = kIdle \/ mState (d s) = kBound \/ mState (d s) = kConnected ->
  returns (use uv UV_ESHUTDOWN UV_EBADF answer fill_sockaddr any_address mInProcessEvents has_posted uv_run invoke s)
    (fun r => post P L s (load s) (snd r) /\ (fst r = true -> bCloseRequested (b (snd r)) = true \/ mHandle (b (snd r)) <> None)).
Proof.
  intros Hv Hf Hst. unfold use, lazy_bind_for_send. case_bool_decide as Hi.
  - eapply udp_returns_bind; [by apply (bound_spec P L any_address s)|]. intros [ok s1] ((Hv1 & He1 & Hl1) & Hh1). cbn [fst snd] in *.
    assert (Hf1 : calm = true -> 1 + load s1 <= fuel) by (intros Hc; specialize (Hl1 Hc); specialize (Hf Hc); lia). destruct ok; cbn [negb].
    + eapply udp_returns_bind; [apply (enter_bound_spec P L s1 Hv1); [by apply Hh1|done]|]. intros s2 ((H1 & H2 & H3) & Hh2). cbn [returns fst snd].
      split; [|intros _; by right]. split; [done|]. split; [by apply (udp_evolves_trans s s1)|]. intros Hc. specialize (H3 Hc). specialize (Hl1 Hc). lia.
    + eapply udp_returns_bind; [by apply (report_status_spec P L s1 Hv1)|]. intros s2 (H1 & H2 & H3). cbn [returns fst snd].
      split; [|done]. split; [done|]. split; [by apply (udp_evolves_trans s s1)|]. intros Hc. specialize (H3 Hc). specialize (Hl1 Hc). lia.
  - cbn [returns fst snd]. split; [split; [done|split; [apply udp_evolves_refl|done]]|]. intros _. destruct (bCloseRequested (b s)) eqn:Eb; [by left|right].
    apply (v_live _ _ _ Hv); [|done]. by destruct Hst as [?|?].
Qed.

Lemma udp_asked_valid (P L : list nat) (cb : callback) (late : bool) (s : sock) : valid_in P L s -> valid_in P (cb_name cb :: L) (record (Asked (cb_name cb) late) s).
Proof.
  intros []. split; try done; cbn.
  - rewrite v_count0. unfold due. cbn. solve_Permutation.
  - destruct late; lia.
  - intros Hm Hb. specialize (v_window0 Hm Hb). unfold due in *. cbn. destruct late; lia.
Qed.

Lemma send_spec (P L : list nat) (data : list Z) (cb : callback) (s : sock) :
  valid_in P L s -> (calm = true -> calm_cb cb = true /\ 2 + load s + cb_weight cb <= fuel) ->
  returns (send uv UV_ESHUTDOWN answer fill_sockaddr invoke data cb s) (post P L s (load s + cb_weight cb)).
Proof.
  intros Hv Hf. unfold send. apply udp_returns_check. intros Hst%bool_decide_eq_true. set (s1 := record _ s).
  assert (Hv1 : valid_in P (cb_name cb :: L) s1) by by apply udp_asked_valid.
  eapply udp_returns_mono; [apply (b_send_to_spec P L data _ cb s1 Hv1)|].
  - change (b s1) with (b s). destruct (bCloseRequested (b s)) eqn:Eb; [by left|right]. apply (v_live _ _ _ Hv); [by right|done].
  - intros Hm Hb. change (mCloseRequested (d s) = true) in Hm. pose proof (v_window _ _ _ Hv Hm Hb) as Hw. subst s1. rewrite Hm. unfold due in *. cbn. lia.
  - done.
  - intros s' H. eapply udp_post_trans; [|exact H|done]. by apply udp_evolves_same.
Qed.

Lemma send_to_spec (P L : list nat) (data : list Z) (addr : Z) (cb : callback) (s : sock) :
  valid_in P L s -> (calm = true -> calm_cb cb = true /\ 2 + load s + cb_weight cb <= fuel) ->
  returns (send_to uv UV_ESHUTDOWN UV_EBADF answer fill_sockaddr any_address mInProcessEvents has_posted uv_run invoke data addr cb s) (post P L s (load s + cb_weight cb)).
Proof.
  intros Hv Hf. unfold send_to. set (s0 := record _ s). assert (Hv0 : valid_in P (cb_name cb :: L) s0) by by apply udp_asked_valid.
  assert (He0 : evolves s s0) by by apply udp_evolves_same. assert (Hl0 : load s0 = load s) by done. pose proof (udp_cb_weight_pos cb) as Hpos.
  destruct (mCloseRequested (d s0) || bool_decide (mState (d s0) = kClosed)) eqn:Ec.
  { eapply udp_returns_mono; [apply (Hcall P L cb (Sent false) s0 Hv0)|].
    - intros Hc. destruct (Hf Hc). split; [done|lia].
    - intros s' H. eapply udp_post_trans; [done|exact H|lia]. }
  apply orb_false_iff in Ec as [Hm _]. change (mCloseRequested (d s) = false) in Hm. apply udp_returns_check. intros _. apply udp_returns_check. intros Hst.
  eapply (udp_returns_bind _ _ (fun r : bool * sock => if fst r then post P (cb_name cb :: L) s (load s) (snd r) /\ (bCloseRequested (b (snd r)) = true \/ mHandle (b (snd r)) <> None)
    else post P L s (load s + cb_weight cb) (snd r))).
  - case_bool_decide as Hi.
    + unfold lazy_bind_for_send. eapply udp_returns_bind; [apply (bound_spec P (cb_name cb :: L) any_address s0 Hv0)|].
      { intros Hc. destruct (Hf Hc). lia. }
      intros [ok s1] ((Hv1 & He1 & Hl1) & Hh1). cbn [fst snd] in *.
      assert (Hf1 : calm = true -> 1 + load s1 <= fuel) by (intros Hc; specialize (Hl1 Hc); destruct (Hf Hc); lia). destruct ok; cbn [negb].
      * eapply udp_returns_bind; [apply (enter_bound_spec P (cb_name cb :: L) s1 Hv1); [by apply Hh1|done]|]. intros s2 ((H1 & H2 & H3) & Hh2). cbn [returns fst snd].
        split; [|by right]. split; [done|]. split; [by apply (udp_evolves_trans s s0); [|apply (udp_evolves_trans s0 s1)]|]. intros Hc. specialize (H3 Hc). specialize (Hl1 Hc). lia.
      * eapply udp_returns_bind; [by apply (report_status_spec P (cb_name cb :: L) s1 Hv1)|]. intros s2 (H1 & H2 & H3).
        eapply udp_returns_bind; [apply (Hcall P L cb (Sent false) s2 H1)|].
        -- intros Hc. destruct (Hf Hc). specialize (H3 Hc). specialize (Hl1 Hc). split; [done|lia].
        -- intros s3 (H4 & H5 & H6). cbn [returns fst snd]. split; [done|]. split; [apply (udp_evolves_trans s s0); [done|apply (udp_evolves_trans s0 s1); [done|by apply (udp_evolves_trans s1 s2)]]|].
           intros Hc. specialize (H3 Hc). specialize (Hl1 Hc). specialize (H6 Hc). lia.
    + cbn [returns fst snd]. split; [split; [done|split; [done|by intros _; rewrite Hl0]]|]. change (b s0) with (b s). destruct (bCloseRequested (b s)) eqn:Eb; [by left|right].
      apply (v_live _ _ _ Hv); [|done]. left. by apply bool_decide_eq_true in Hst.
  - intros [ok s1] H. destruct ok; cbn [fst snd negb returns] in *; [|done]. destruct H as [(Hv1 & He1 & Hl1) Hh1].
    eapply udp_returns_mono; [apply (b_send_to_spec P L data addr cb s1 Hv1 Hh1)|].
    + intros Hm1 Hb1. assert (Ht : torn_down s) by (intros H; congruence). pose proof (e_torn _ _ He1 Ht Hm1). congruence.
    + intros Hc. destruct (Hf Hc). specialize (Hl1 Hc). split; [done|lia].
    + intros s' (H1 & H2 & H3). split; [done|]. split; [by apply (udp_evolves_trans s s1)|]. intros Hc. specialize (H3 Hc). specialize (Hl1 Hc). lia.
Qed.

Lemma connect_to_spec (P L : list nat) (addr : Z) (s : sock) : valid_in P L s -> (calm = true -> 1 + load s <= fuel) ->
  returns (connect_to uv UV_ESHUTDOWN UV_EBADF answer fill_sockaddr any_address mInProcessEvents has_posted uv_run invoke addr s) (post P L s (load s)).
Proof.
  intros Hv Hf. unfold connect_to. apply udp_returns_check. intros _. apply udp_returns_check. intros Hst.
  eapply udp_returns_bind; [apply (use_spec P L s Hv Hf); apply orb_true_iff in Hst as [H%bool_decide_eq_true|H%bool_decide_eq_true]; auto|].
  intros [ok s1] ((Hv1 & He1 & Hl1) & _). cbn [fst snd] in *. destruct ok; cbn [negb]; [|by split].
  eapply udp_returns_bind; [by apply (udp_b_connect_spec P L)|]. intros [ok s2] [E Hok]. cbn [fst snd] in *.
  pose proof (core_valid P L s1 s2 E Hv1) as Hv2. pose proof (core_evolves s1 s2 E) as He2. pose proof (core_load s1 s2 E) as Hl2.
  assert (He : evolves s s2) by by apply (udp_evolves_trans s s1).
  assert (Hf2 : calm = true -> 1 + load s2 <= fuel) by (intros Hc; specialize (Hl1 Hc); specialize (Hf Hc); lia). destruct ok; cbn [negb].
  - set (s3 := with_peer s2 (Some addr)). assert (Hv3 : valid_in P L s3) by by apply (core_valid P L s2).
    eapply udp_returns_mono; [apply (udp_set_state_spec P L kConnected s3)|].
    + apply udp_enter_valid; [done|done| |done]. intros _. destruct (Hok eq_refl) as [H1 H2]. unfold core in E. injection E as _ _ _ _ _ _ E1 E2 _ _ _ _ _ _ _.
      change (b s3) with (b s2). by rewrite E1, E2.
    + exact Hf2.
    + intros s4 (H1 & H2 & H3). split; [done|]. split; [apply (udp_evolves_trans s s2); [done|apply (udp_evolves_trans s2 (enter kConnected s3)); [by apply udp_evolves_same|done]]|].
      intros Hc. specialize (H3 Hc). specialize (Hl1 Hc). change (load s3) with (load s2) in H3. lia.
  - eapply udp_returns_mono; [by apply (report_status_spec P L s2 Hv2)|]. intros s3 (H1 & H2 & H3). split; [done|]. split; [by apply (udp_evolves_trans s s2)|].
    intros Hc. specialize (H3 Hc). specialize (Hl1 Hc). lia.
Qed.

Lemma disconnect_remote_spec (P L : list nat) (s : sock) : valid_in P L s -> (calm = true -> 1 + load s <= fuel) -> returns (disconnect_remote invoke s) (post P L s (load s)).
Proof.
  intros Hv Hf. unfold disconnect_remote. apply udp_returns_check. intros Hst%bool_decide_eq_true.
  eapply udp_returns_bind; [by apply (b_disconnect_remote_spec P L)|]. intros s1 E. set (s2 := with_peer s1 None).
  assert (E2 : core s2 = core s) by exact E. pose proof (core_valid P L s s2 E2 Hv) as Hv2. pose proof (core_load s s2 E2) as Hl2.
  eapply udp_returns_mono; [apply (udp_set_state_spec P L kBound s2); [apply udp_enter_valid; [done| |done|done]|by rewrite Hl2]|].
  - intros _ Hb. apply (v_live _ _ _ Hv2); [|done]. right. unfold core in E2. congruence.
  - intros s3 H. eapply udp_post_trans; [|exact H|lia]. apply (udp_evolves_trans s s2); [by apply core_evolves|by apply udp_evolves_same].
Qed.

Lemma set_broadcast_spec (P L : list nat) (enable : bool) (s : sock) : valid_in P L s -> (calm = true -> 1 + load s <= fuel) ->
  returns (set_broadcast uv UV_ESHUTDOWN UV_EBADF answer invoke enable s) (post P L s (load s)).
Proof.
  intros Hv Hf. assert (Hsame : forall s', core s' = core s -> post P L s (load s) s').
  { intros s' E. split; [by apply (core_valid P L s)|]. split; [by apply core_evolves|]. intros _. by rewrite (core_load s s' E). }
  unfold set_broadcast. destruct (_ || _); [by apply Hsame|]. case_bool_decide; [by apply Hsame|].
  eapply udp_returns_bind; [by apply (b_set_broadcast_spec P L)|]. intros [ok s1] E. cbn [snd] in E. destruct ok; cbn [negb]; [by apply Hsame|].
  pose proof (core_load s s1 E) as Hl1. eapply udp_returns_bind; [apply (report_status_spec P L s1 (core_valid P L s s1 E Hv)); by rewrite Hl1|].
  intros s2 (H1 & H2 & H3). split; [by apply (core_valid P L s2)|]. split; [apply (udp_evolves_trans s s1); [by apply core_evolves|by apply (udp_evolves_trans s1 s2); [|apply core_evolves]]|].
  intros Hc. specialize (H3 Hc). change (load s2 <= load s). lia.
Qed.

Lemma set_on_datagram_spec (P L : list nat) (cb : callback) (s : sock) : valid_in P L s -> (calm = true -> calm_cb cb = true /\ 1 + load s <= fuel) ->
  returns (set_on_datagram uv UV_ESHUTDOWN UV_EBADF answer fill_sockaddr any_address mInProcessEvents has_posted uv_run invoke cb s) (post P L s (load s)).
Proof.
  intros Hv Hf. unfold set_on_datagram. apply udp_returns_check. intros _. apply udp_returns_check. intros Hst.
  eapply udp_returns_bind; [apply (use_spec P L s Hv); [intros H; by destruct (Hf H)|]|].
  { apply orb_true_iff in Hst as [[H%bool_decide_eq_true|H%bool_decide_eq_true]%orb_true_iff|H%bool_decide_eq_true]; auto. }
  intros [ok s1] ((Hv1 & He1 & Hl1) & Hh1). cbn [fst snd] in *. destruct ok; cbn [negb]; [|by split].
  set (s2 := with_on_datagram s1 (Some cb)).
  assert (Hv2 : valid_in P L s2).
  { destruct Hv1. split; try done. intros Hc. destruct (v_calm0 Hc) as (H1 & H2 & H3). split; [done|]. split; [|done]. intros k [= <-]. by apply Hf. }
  eapply udp_returns_mono; [apply (receive_start_spec P L s2 Hv2); by apply Hh1|]. intros s3 (H1 & Ed & H2). split; [done|].
  split; [apply (udp_evolves_trans s s1); [done|by apply (udp_evolves_trans s1 s2); [apply udp_evolves_same|]]|]. intros Hc. specialize (Hl1 Hc). unfold load in *. by rewrite Ed.
Qed.

Lemma udp_op_spec (P L : list nat) (o : op) (s : sock) : valid_in P L s -> (calm = true -> calm_op o = true /\ op_weight o + load s <= fuel) ->
  returns (perform uv UV_ESHUTDOWN UV_EBADF answer fill_sockaddr any_address mInProcessEvents has_posted uv_run invoke o s) (post P L s (load s + op_weight o)).
Proof.
  intros Hv Hf.
  assert (Hweaken : forall r w, w <= load s + op_weight o -> returns r (post P L s w) -> returns r (post P L s (load s + op_weight o))).
  { intros r w Hw H. eapply udp_returns_mono; [exact H|]. intros s' (H1 & H2 & H3). split; [done|]. split; [done|]. intros Hc. specialize (H3 Hc). lia. }
  assert (H1f : calm = true -> 1 + load s <= fuel) by (intros Hc; destruct (Hf Hc) as [_ H]; destruct o; cbn in H; lia).
  destruct o as [addr|data addr cb|data cb|addr| |enable|cb| |o|o]; cbn [perform op_weight calm_op] in *.
  - apply (Hweaken _ (load s)); [lia|]. by apply bind_spec.
  - apply (Hweaken _ (load s + cb_weight cb)); [lia|]. apply send_to_spec; [done|]. intros Hc. destruct (Hf Hc). split; [done|lia].
  - apply (Hweaken _ (load s + cb_weight cb)); [lia|]. apply send_spec; [done|]. intros Hc. destruct (Hf Hc). split; [done|lia].
  - apply (Hweaken _ (load s)); [lia|]. by apply connect_to_spec.
  - apply (Hweaken _ (load s)); [lia|]. by apply disconnect_remote_spec.
  - apply (Hweaken _ (load s)); [lia|]. by apply set_broadcast_spec.
  - apply (Hweaken _ (load s)); [lia|]. apply set_on_datagram_spec; [done|]. intros Hc. destruct (Hf Hc). split; [done|lia].
  - apply (Hweaken _ (load s)); [lia|]. eapply udp_returns_mono; [by apply udp_begin_close_spec|]. by intros s' (? & _).
  - split; [|split; [by apply udp_evolves_same|intros _; change (load s <= load s + 3); lia]]. destruct Hv. split; try done. intros Hc. destruct (v_calm0 Hc) as (H1 & H2 & H3 & H4). split; [done|]. split; [done|]. split; [by apply Hf|done].
  - split; [|split; [by apply udp_evolves_same|intros _; change (load s <= load s + 3); lia]]. destruct Hv. split; try done. intros Hc. destruct (v_calm0 Hc) as (H1 & H2 & H3 & H4). split; [done|]. split; [done|]. split; [done|by apply Hf].
Qed.

Lemma udp_perform_all_spec (P L : list nat) (l : list op) (s : sock) : valid_in P L s -> (calm = true -> calm_ops l /\ ops_weight l + load s <= fuel) ->
  returns (perform_all uv UV_ESHUTDOWN UV_EBADF answer fill_sockaddr any_address mInProcessEvents has_posted uv_run invoke l s) (post P L s (load s + ops_weight l)).
Proof.
  revert s. induction l as [|o l IH]; intros s Hv Hf; cbn [perform_all]; [split; [done|split; [apply udp_evolves_refl|intros _; lia]]|].
  change (ops_weight (o :: l)) with (op_weight o + ops_weight l) in *.
  eapply udp_returns_bind; [apply (udp_op_spec P L o s Hv)|].
  { intros Hc. destruct (Hf Hc) as [[H1 _]%Forall_cons H2]. split; [done|lia]. }
  intros s1 (Hv1 & He1 & Hl1). eapply udp_returns_mono; [apply (IH s1 Hv1)|].
  - intros Hc. destruct (Hf Hc) as [[_ H1]%Forall_cons H2]. specialize (Hl1 Hc). split; [done|lia].
  - intros s2 (Hv2 & He2 & Hl2). split; [done|]. split; [by apply (udp_evolves_trans s s1)|]. intros Hc. specialize (Hl1 Hc). specialize (Hl2 Hc). lia.
Qed.
End Functions.

(** ** The knot *)
Section Knot.
Context (uv : uv_codes) (UV_ESHUTDOWN UV_EBADF : Z) (answer : uv_call -> nat -> Z) (fill_sockaddr : Z -> bool) (any_address : Z)
  (mInProcessEvents : bool) (has_posted : sock -> nat -> bool) (uv_run : sock -> run sock).
Hypothesis Hidle : gets_idle has_posted.
Hypothesis Hpump : forall s h, mHandle (b s) = Some h -> closing h = true -> mSends (b s) = [] -> uv_run s = on_closed s.
Hypothesis Hgood : good = true -> (forall n, answer uv_udp_send n = 0%Z) /\ (forall a, fill_sockaddr a = true).
#[local] Notation invoke := (invoke uv UV_ESHUTDOWN UV_EBADF answer fill_sockaddr any_address mInProcessEvents has_posted uv_run).

Lemma udp_invoke_spec (fuel : nat) :
  (forall P L cb a s, valid_in P (ticket a (cb_name cb) ++ L) s -> (calm = true -> calm_cb cb = true /\ cb_weight cb + load s <= fuel) ->
    returns (invoke fuel (User cb) a s) (post P L s (load s + cb_weight cb - 1))) /\
  (forall P x L s, valid_in (P ++ [x]) L s -> (good = true -> mCloseRequested (d s) = true) -> (calm = true -> 2 + load s <= fuel) ->
    returns (invoke fuel SendDone (Sent false) s) (post P L s (load s))).
Proof.
  induction fuel as [|fuel [IH1 IH2]].
  { split; cbn [UdpSocket.invoke returns].
    - intros P L cb a s _ Hf. destruct calm; [|done]. destruct Hf as [_ H]; [done|]. pose proof (udp_cb_weight_pos cb). lia.
    - intros P x L s _ _ Hf. destruct calm; [|done]. specialize (Hf eq_refl). lia. }
  split; cbn [UdpSocket.invoke].
  - intros P L cb a s Hv Hf. rewrite udp_cb_weight_body in *. set (s1 := record (Called (cb_name cb) a) s).
    assert (Hv1 : valid_in P L s1).
    { destruct Hv. split; try done. cbn. rewrite v_count0. change (due s1) with (due s). solve_Permutation. }
    eapply udp_returns_mono; [apply (udp_perform_all_spec uv UV_ESHUTDOWN UV_EBADF answer fill_sockaddr any_address mInProcessEvents has_posted uv_run fuel _ Hidle Hpump Hgood IH1 IH2 P L (cb_body cb) s1 Hv1)|].
    + intros Hc. destruct (Hf Hc) as [H1 H2]. split; [by apply calm_body|]. change (load s1) with (load s). lia.
    + intros s2 H. eapply udp_post_trans; [|exact H|change (load s1) with (load s); lia]. by apply udp_evolves_same.
  - intros P x L s Hv Hg Hf. apply (send_done_spec uv fuel _ IH1 P (P ++ [x]) L false s Hv).
    + rewrite length_app. cbn. lia.
    + intros H. left. by apply Hg.
    + intros Hc. specialize (Hf Hc). lia.
Qed.
End Knot.
End Socket.
