(* ===== verification/UdpSocketRun.v ===== *)
(** * UDP sockets: what any program sees

    Stimuli as steps from a new socket: calls from outside and callbacks of libuv. Nothing
    destroys the socket in between: destruction comes at the end, from outside of its
    callbacks. *)

From stdpp Require Import prelude list.
From Stdlib Require Import ZArith Lia.
From S2P Require Import Prelude SocketTypes UdpSocket UdpSocketFacts.

#[local] Open Scope nat_scope.
#[local] Open Scope cxx_scope.

Section Socket.
Context (uv : uv_codes) (UV_ESHUTDOWN UV_EBADF : Z) (answer : uv_call -> nat -> Z) (fill_sockaddr : Z -> bool) (any_address : Z)
  (has_posted : sock -> nat -> bool) (uv_run : sock -> run sock).

(** When the backend waits for a handle to be closed, one of its 1000 rounds of the event loop
    finds nothing posted, and libuv, which then runs, reports the close of a handle with
    nothing outstanding. *)
Definition reports_close : Prop := gets_idle has_posted /\
  forall s h, mHandle (b s) = Some h -> closing h = true -> mSends (b s) = [] -> uv_run s = on_closed s.
(** Every address can be parsed and libuv takes every datagram. *)
Definition takes_all : Prop := (forall n, answer uv_udp_send n = 0%Z) /\ (forall a, fill_sockaddr a = true).

#[local] Notation invoke m := (UdpSocket.invoke uv UV_ESHUTDOWN UV_EBADF answer fill_sockaddr any_address m has_posted uv_run).
#[local] Notation react m := (UdpSocket.react uv UV_ESHUTDOWN UV_EBADF answer fill_sockaddr any_address m has_posted uv_run).
#[local] Notation destroy m := (UdpSocket.destroy uv UV_ESHUTDOWN UV_EBADF answer fill_sockaddr any_address m has_posted uv_run).

(** ** Stimuli *)
Definition stimulus_weight (e : stimulus) (s : sock) : nat :=
  match e with
  | Call o => op_weight o + load s
  | RecvCb _ _ _ => 2 + load s + match mOnDatagram (d s) with Some cb => cb_weight cb | None => 0 end
  | _ => 2 + load s
  end.
Definition calm_stimulus (e : stimulus) : Prop := match e with Call o => calm_op o = true | _ => True end.

Definition socket_ok (calm good : bool) (s : sock) : Prop := valid_in calm good [] [] s /\ torn_down s.

Section Step.
Context (calm good : bool).
Hypothesis Hpump : reports_close.
Hypothesis Hgood : good = true -> takes_all.

Lemma udp_post_ok (s s1 s' : sock) (w : nat) : evolves s s1 -> torn_down s -> post calm good [] [] s1 w s' -> socket_ok calm good s'.
Proof. intros He Ht (H1 & H2 & _). split; [done|]. by apply (e_torn _ _ H2), (e_torn _ _ He). Qed.

Lemma send_cb_ok (m : bool) (fuel : nat) (status : Z) (s : sock) : socket_ok calm good s -> enabled (SendCb status) s -> (calm = true -> 2 + load s <= fuel) ->
  returns calm (react m fuel (SendCb status) s) (socket_ok calm good).
Proof.
  intros [Hv Ht] Hen Hf. cbn [UdpSocket.react]. unfold on_send_done. cbn [enabled] in Hen. destruct (mSends (b s)) as [|send rest] eqn:Es; [done|].
  pose proof (v_trampolines _ _ _ _ _ Hv) as Htr. rewrite Es in Htr. apply Forall_cons in Htr as [-> Htr]. set (s1 := with_native_status (with_sends s rest) status).
  assert (Hv1 : valid_in calm good [mFor send] [] s1).
  { destruct Hv. split; try done; unfold flights, due in *; rewrite ?Es in *; cbn in *; try done; try lia.
    - intros Hh. by specialize (v_sends Hh).
    - intros Hb. specialize (v_after Hb). lia. }
  destruct fuel as [|fuel]; [cbn; destruct calm; [|done]; specialize (Hf eq_refl); lia|]. cbn [UdpSocket.invoke].
  destruct (udp_invoke_spec calm good uv UV_ESHUTDOWN UV_EBADF answer fill_sockaddr any_address m has_posted uv_run (proj1 Hpump) (proj2 Hpump) Hgood fuel) as [H1 _].
  eapply udp_returns_mono; [apply (send_done_spec calm good uv fuel _ H1 [] [mFor send] [] (status =? 0)%Z s1 Hv1 eq_refl)|].
  - intros _. right. by eexists.
  - intros Hc. specialize (Hf Hc). change (load s1) with (load s). lia.
  - intros s2 H. eapply (udp_post_ok s s1); [by apply udp_evolves_same|done|exact H].
Qed.

Lemma recv_cb_ok (m : bool) (fuel : nat) (nread : Z) (data : list Z) (from : option Z) (s : sock) : socket_ok calm good s -> enabled (RecvCb nread data from) s ->
  (calm = true -> stimulus_weight (RecvCb nread data from) s <= fuel) -> returns calm (react m fuel (RecvCb nread data from) s) (socket_ok calm good).
Proof.
  intros [Hv Ht] (h & Eh & Hrec & Hcl) Hf. cbn [UdpSocket.react]. unfold on_recv. destruct (nread =? 0)%Z; [done|]. destruct (nread <? 0)%Z.
  - change (mHandle (b (with_native_status s nread))) with (mHandle (b s)). rewrite Eh. cbn [deref run_bind returns]. split; [|done].
    destruct Hv. split; try done; cbn; intros k [= <-]; [by apply (v_closing h)|done].
  - destruct from as [from|]; [|done]. destruct (bOnDatagram (b s)) as [f|] eqn:Ef; [|done]. pose proof (v_datagram _ _ _ _ _ Hv f Ef) as ->.
    cbn [stimulus_weight] in Hf. destruct fuel as [|fuel]; [cbn; destruct calm; [|done]; specialize (Hf eq_refl); lia|]. cbn [UdpSocket.invoke]. unfold datagram_event.
    destruct (_ && _); [done|]. destruct (mOnDatagram (d s)) as [cb|] eqn:Ed; [|done].
    destruct (udp_invoke_spec calm good uv UV_ESHUTDOWN UV_EBADF answer fill_sockaddr any_address m has_posted uv_run (proj1 Hpump) (proj2 Hpump) Hgood fuel) as [H1 _].
    eapply udp_returns_mono; [apply (H1 [] [] cb (Datagram data from) s Hv)|].
    + intros Hc. specialize (Hf Hc). split; [|lia]. destruct (v_calm _ _ _ _ _ Hv Hc) as (_ & H & _). by apply H.
    + intros s1 H. eapply (udp_post_ok s s); [apply udp_evolves_refl|done|exact H].
Qed.

Lemma udp_close_cb_ok (s : sock) : socket_ok calm good s -> enabled CloseCb s -> returns calm (on_closed s) (socket_ok calm good).
Proof.
  intros [Hv Ht] ((h & Eh & Hcl) & Hs). cbn. pose proof (v_closing _ _ _ _ _ Hv h Eh) as Hb. rewrite Hcl in Hb. split; [|done].
  destruct Hv. split; try done; cbn; try congruence. intros Ha. destruct (v_armed Ha) as [? _]. congruence.
Qed.

Lemma udp_react_ok (m : bool) (fuel : nat) (e : stimulus) (s : sock) : socket_ok calm good s -> enabled e s -> (calm = true -> calm_stimulus e /\ stimulus_weight e s <= fuel) ->
  returns calm (react m fuel e s) (socket_ok calm good).
Proof.
  intros Hok Hen Hf. destruct e as [o|status|nread data from|].
  - destruct Hok as [Hv Ht]. cbn [UdpSocket.react]. destruct (udp_invoke_spec calm good uv UV_ESHUTDOWN UV_EBADF answer fill_sockaddr any_address m has_posted uv_run (proj1 Hpump) (proj2 Hpump) Hgood fuel) as [H1 H2].
    eapply udp_returns_mono; [by apply (udp_op_spec calm good uv UV_ESHUTDOWN UV_EBADF answer fill_sockaddr any_address m has_posted uv_run fuel _ (proj1 Hpump) (proj2 Hpump) Hgood H1 H2 [] [] o s Hv)|].
    intros s1 H. eapply (udp_post_ok s s); [apply udp_evolves_refl|done|exact H].
  - apply send_cb_ok; [done|done|]. intros H; by destruct (Hf H).
  - apply recv_cb_ok; [done|done|]. intros H; by destruct (Hf H).
  - by apply udp_close_cb_ok.
Qed.

Lemma udp_new_ok : socket_ok calm good new_socket.
Proof. split; [|done]. split; try done; cbn. by intros [?|?]. Qed.
End Step.

(** ** Reachable sockets

    [m] tells whether libuv is running: it is when it calls back, and it may be when the socket
    is called, since that may be from the callback of another handle. *)
Definition comes_while (m : bool) (e : stimulus) : Prop := match e with Call _ => True | _ => m = true end.
Inductive reachable (allowed : stimulus -> sock -> nat -> Prop) : sock -> Prop :=
  | reach_new : reachable allowed new_socket
  | reach_react (s s' : sock) (e : stimulus) (m : bool) (fuel : nat) : reachable allowed s -> allowed e s fuel -> enabled e s -> comes_while m e -> react m fuel e s = Ret s' -> reachable allowed s'.
Definition any_program (_ : stimulus) (_ : sock) (_ : nat) : Prop := True.
Definition calm_program (e : stimulus) (s : sock) (fuel : nat) : Prop := calm_stimulus e /\ stimulus_weight e s <= fuel.

Lemma udp_reached_ok (calm good : bool) (allowed : stimulus -> sock -> nat -> Prop) (s : sock) : reports_close -> (good = true -> takes_all) ->
  (calm = true -> forall e s fuel, allowed e s fuel -> calm_program e s fuel) -> reachable allowed s -> socket_ok calm good s.
Proof.
  intros Hp Hg Hc. induction 1 as [|s s' e m fuel _ IH Ha Hen _ E]; [apply udp_new_ok|]. pose proof (udp_react_ok calm good Hp Hg m fuel e s IH Hen) as H. rewrite E in H.
  apply H. intros Hcalm. by apply Hc.
Qed.

Lemma silent_evolution (calm good : bool) (s : sock) : socket_ok calm good s -> mCloseRequested (d s) = true -> due s = [].
Proof. intros [Hv Ht] Hc. pose proof (v_after _ _ _ _ _ Hv (Ht Hc)) as H. cbn in H. destruct (due s); [done|cbn in H; lia]. Qed.

(** ** Theorems *)

(** C5: Safety: whatever a program has done with a socket and whatever its callbacks do short of
    destroying the socket, libuv is never asked to work on a handle that is missing or
    closing, and afterwards whatever is outstanding or armed has a handle, which is closing
    just when the backend was asked to close. Termination: when the handlers of errors and
    states only watch, a stimulus runs to its end or stops at a check, with the nesting that
    [stimulus_weight] counts. Libuv is taken to report the close of a handle that is being
    closed and has nothing outstanding, and the event loop to have an idle round before. *)
Theorem udp_runs (s : sock) (e : stimulus) (m : bool) (fuel : nat) : reports_close -> enabled e s ->
  (reachable any_program s -> react m fuel e s <> Undef /\ forall s', react m fuel e s = Ret s' ->
    (mSends (b s') <> [] \/ mRecvArmed (b s') = true -> mHandle (b s') <> None) /\
    (forall h, mHandle (b s') = Some h -> closing h = bCloseRequested (b s'))) /\
  (reachable calm_program s -> calm_program e s fuel -> react m fuel e s = Fatal \/ exists s', react m fuel e s = Ret s').
Proof.
  intros Hp Hen. split.
  - intros Hr. pose proof (udp_react_ok false false Hp ltac:(done) m fuel e s (udp_reached_ok false false any_program s Hp ltac:(done) ltac:(done) Hr) Hen ltac:(done)) as H.
    destruct (react m fuel e s) as [s1| | |]; try done. split; [done|]. intros s' [= <-]. destruct H as [Hv _]. split; [|apply (v_closing _ _ _ _ _ Hv)].
    intros [Hs|Ha]; [intros Hh; by apply Hs, (v_sends _ _ _ _ _ Hv)|by apply (v_armed _ _ _ _ _ Hv)].
  - intros Hr Hc. pose proof (udp_react_ok true false Hp ltac:(done) m fuel e s (udp_reached_ok true false calm_program s Hp ltac:(done) ltac:(done) Hr) Hen (fun _ => Hc)) as H.
    destruct (react m fuel e s) as [s'| | |]; try done; [right; by exists s'|by left].
Qed.

(** Exactly once: the sends asked for are the ones answered, the ones in the queue and the
    ones thrown away by a close, each as often. No more are thrown away than [send] took
    during a close, and after a close the queue is empty. *)
Theorem udp_answered_once (s : sock) : reports_close -> reachable any_program s ->
  asked_for (trace s) ≡ₚ answered (trace s) ++ due s ++ dropped (trace s) /\ length (dropped (trace s)) <= lates (trace s) /\
  (mCloseRequested (d s) = true -> due s = []).
Proof.
  intros Hp Hr. pose proof (udp_reached_ok false false any_program s Hp ltac:(done) ltac:(done) Hr) as Hok. pose proof (proj1 Hok) as Hv. split; [|split].
  - pose proof (v_count _ _ _ _ _ Hv) as H. by rewrite app_nil_r in H.
  - apply (v_late _ _ _ _ _ Hv).
  - by apply (silent_evolution false false s).
Qed.

(** C10: The right answers: when every address can be parsed and libuv takes every datagram, the
    queue of an open socket is that of the datagrams libuv has, in their order, so that the
    callback given with a datagram is the one that is told of its success. *)
Theorem udp_right_answers (s : sock) : reports_close -> takes_all -> reachable any_program s -> mCloseRequested (d s) = false ->
  due s = flights s /\
  forall send rest m fuel, mSends (b s) = send :: rest ->
    exists cb s1, cb_name cb = mFor send /\ due s1 = mFor <$> rest /\ react m (S fuel) (SendCb 0) s = invoke m fuel (User cb) (Sent true) s1.
Proof.
  intros Hp Hg Hr Hc. destruct (udp_reached_ok false true any_program s Hp ltac:(done) ltac:(done) Hr) as [Hv _]. pose proof (v_fifo _ _ _ _ _ Hv eq_refl Hc) as Hf. cbn in Hf.
  split; [done|]. intros send rest m fuel Es. unfold due, flights in Hf. rewrite Es in Hf. destruct (mPendingSendDones (d s)) as [|cb dones] eqn:Ed; [done|]. injection Hf as Hn Hrest.
  exists cb, (with_dones (with_native_status (with_sends s rest) 0) dones). split; [done|]. split; [done|]. cbn [UdpSocket.react]. unfold on_send_done. rewrite Es.
  pose proof (v_trampolines _ _ _ _ _ Hv) as Htr. rewrite Es in Htr. apply Forall_cons in Htr as [-> _]. cbn [UdpSocket.invoke]. unfold send_done. cbn. by rewrite Ed.
Qed.

(** ** Destruction *)

(** A socket that calls nobody: the destructor has taken its callbacks away. *)
Definition silent (s : sock) : Prop := mPendingSendDones (d s) = [] /\ mOnError (d s) = None /\ mOnStateChange (d s) = None.

(** What libuv does for a closing handle in one iteration: it calls back once for each datagram
    it still has, with the [statuses], and then reports the close. *)
Definition close_round (fuel : nat) (statuses : list Z) (s : sock) : run sock :=
  do s <- fold_left (fun r status => do s <- r; react true fuel (SendCb status) s) statuses (Ret s);
  react true fuel CloseCb s.
Definition closes (fuel : nat) : Prop := forall s h, mHandle (b s) = Some h -> closing h = true -> silent s -> Forall (fun p => mOnDone p = SendDone) (mSends (b s)) ->
  exists statuses, length statuses = length (mSends (b s)) /\ uv_run s = close_round fuel statuses s.

(** What the answer to the oldest datagram does to a silent socket *)
Definition answered_with (s : sock) (status : Z) : sock :=
  let s := with_native_status (with_sends s (tail (mSends (b s)))) status in
  if (status =? 0)%Z then s else with_last_error s (map_transport_error uv status).

Lemma answer_silent (fuel : nat) (status : Z) (s : sock) (p : PendingSend) (l : list PendingSend) : mSends (b s) = p :: l -> mOnDone p = SendDone -> silent s ->
  react true (S fuel) (SendCb status) s = Ret (answered_with s status).
Proof.
  intros Es Hp (H1 & H2 & H3). cbn [UdpSocket.react]. unfold on_send_done, answered_with. rewrite Es, Hp. cbn [UdpSocket.invoke tail]. unfold send_done.
  destruct (status =? 0)%Z; cbn [negb run_bind].
  - cbn. by rewrite H1.
  - unfold report_status, report_error. cbn. rewrite H2. cbn. by rewrite H1.
Qed.

Lemma drained (fuel : nat) (statuses : list Z) (s : sock) : length statuses = length (mSends (b s)) -> silent s -> Forall (fun p => mOnDone p = SendDone) (mSends (b s)) ->
  close_round (S fuel) statuses s = on_closed (fold_left answered_with statuses s).
Proof.
  unfold close_round. intros Hl Hs Ht. enough (E : fold_left (fun r status => do s <- r; react true (S fuel) (SendCb status) s) statuses (Ret s) =
    Ret (fold_left answered_with statuses s)) by by rewrite E.
  revert s Hl Hs Ht. induction statuses as [|status l IH]; intros s Hl Hs Ht; [done|]. cbn [fold_left run_bind].
  destruct (mSends (b s)) as [|p sends] eqn:Es; [done|]. apply Forall_cons in Ht as [Hp Ht]. rewrite (answer_silent fuel status s p sends Es Hp Hs).
  assert (E : mSends (b (answered_with s status)) = sends) by (unfold answered_with; rewrite Es; by destruct (status =? 0)%Z).
  apply IH; [by rewrite E; injection Hl|unfold answered_with; by destruct (status =? 0)%Z|by rewrite E].
Qed.

(** Nothing else happens to it. *)
Lemma answered_all (statuses : list Z) (s : sock) : length statuses = length (mSends (b s)) ->
  let s' := fold_left answered_with statuses s in
  mSends (b s') = [] /\ trace s' = trace s /\ (silent s -> silent s') /\ mCloseRequested (d s') = mCloseRequested (d s) /\ mState (d s') = mState (d s).
Proof.
  revert s. induction statuses as [|status l IH]; intros s Hl; cbn zeta; cbn [fold_left].
  - by destruct (mSends (b s)).
  - assert (E : mSends (b (answered_with s status)) = tail (mSends (b s))) by (unfold answered_with; by destruct (status =? 0)%Z).
    destruct (IH (answered_with s status)) as (H1 & H2 & H3 & H4 & H5); [rewrite E; destruct (mSends (b s)); [done|by injection Hl]|].
    split; [done|]. rewrite H2, H4, H5. unfold answered_with in *. by destruct (status =? 0)%Z.
Qed.

(** The calls of the user's callbacks *)
Definition calls (t : list event) : list (nat * argument) := omap (fun e => match e with Called n a => Some (n, a) | _ => None end) t.

Lemma dropped_calls (n : list nat) (t : list event) : calls (rev (map Dropped n) ++ t) = calls t.
Proof. revert t. induction n as [|x n IH]; intros t; [done|]. cbn [map rev]. rewrite <- (assoc_L (++)), IH. done. Qed.

(** What the destructor's steps keep of a socket *)
Definition handle_ok (s : sock) : Prop := forall h, mHandle (b s) = Some h -> closing h = bCloseRequested (b s).
Record ends (s s' : sock) : Prop := {
  n_silent : silent s -> silent s';
  n_calls : calls (trace s') = calls (trace s);
  n_requests : asked_for (trace s') = asked_for (trace s) /\ answered (trace s') = answered (trace s) /\ dropped (trace s') = dropped (trace s);
  n_handle : handle_ok s';
  n_sends : mSends (b s') = mSends (b s) /\ (mHandle (b s') = None <-> mHandle (b s) = None);
  n_close : mCloseRequested (d s) = true -> mCloseRequested (d s') = true
}.

Lemma b_begin_close_ends (s : sock) : handle_ok s -> exists s', b_begin_close s = Ret s' /\ ends s s' /\ d s' = d s /\ bCloseRequested (b s') = true.
Proof.
  intros Hh. unfold b_begin_close. destruct (bCloseRequested (b s)) eqn:Eb; [by exists s|].
  change (mHandle (b (with_b_close_requested s true))) with (mHandle (b s)). destruct (mHandle (b s)) as [h|] eqn:Eh.
  2:{ eexists. split; [done|]. split; [|done]. split; try done. by intros h; cbn; rewrite Eh. }
  change (mRecvArmed (b (with_b_close_requested s true))) with (mRecvArmed (b s)). pose proof (Hh h Eh) as Hcl. rewrite Eb in Hcl.
  destruct (mRecvArmed (b s)); cbn; rewrite ?Eh; cbn; rewrite Hcl; cbn; (eexists; split; [done|]; split; [|done]; split; try done; [by intros k [= <-]|by rewrite Eh]).
Qed.

Lemma begin_close_ends (m : bool) (fuel : nat) (s : sock) : handle_ok s -> silent s -> exists s', begin_close (invoke m fuel) s = Ret s' /\ ends s s' /\ mCloseRequested (d s') = true.
Proof.
  intros Hh Hs. unfold begin_close. destruct (mCloseRequested (d s)) eqn:Em; [by exists s|]. destruct Hs as (H1 & H2 & H3). cbn [d with_close_requested with_d mPendingSendDones].
  rewrite H1. cbn [discard run_bind]. set (s1 := with_peer _ _). destruct (b_begin_close_ends s1) as (s2 & -> & He & Ed & _); [done|]. cbn [run_bind].
  unfold set_state. assert (E : mOnStateChange (d (record (Entered kClosed) (with_state s2 kClosed))) = None) by (change (mOnStateChange (d s2) = None); by rewrite Ed).
  rewrite E. eexists. split; [done|]. split; [|change (mCloseRequested (d s2) = true); by rewrite Ed].
  destruct He. split; try done. all: intros ?; try congruence. by apply n_silent0.
Qed.

(** Up to the wait for the handle *)
Definition until_wait (m : bool) (fuel : nat) (s : sock) : run sock :=
  let s := with_on_state_change (with_on_error (with_on_datagram (drop_dones s) None) None) None in
  do s <- (if negb (bool_decide (mState (d s) = kClosed)) && negb (bool_decide (mState (d s) = kIdle)) then begin_close (invoke m fuel) s else Ret s);
  b_begin_close s.

Lemma until_wait_ends (m : bool) (fuel : nat) (s : sock) : socket_ok false false s ->
  exists s', until_wait m fuel s = Ret s' /\ ends (with_on_state_change (with_on_error (with_on_datagram (drop_dones s) None) None) None) s' /\
    silent s' /\ bCloseRequested (b s') = true /\ (mCloseRequested (d s') = true \/ mState (d s') = kIdle).
Proof.
  intros [Hv Ht]. unfold until_wait. set (s0 := with_on_state_change _ None).
  assert (Hs0 : silent s0) by done. assert (Hh0 : handle_ok s0) by exact (v_closing _ _ _ _ _ Hv).
  assert (H1 : exists s1, (if negb (bool_decide (mState (d s0) = kClosed)) && negb (bool_decide (mState (d s0) = kIdle)) then begin_close (invoke m fuel) s0 else Ret s0) = Ret s1 /\
    ends s0 s1 /\ (mCloseRequested (d s1) = true \/ mState (d s1) = kIdle)).
  { destruct (_ && _) eqn:E.
    - destruct (begin_close_ends m fuel s0 Hh0 Hs0) as (s1 & E1 & He & Hc). exists s1. split; [done|]. split; [done|]. by left.
    - exists s0. split; [done|]. split; [by split|]. apply andb_false_iff in E as [E%negb_false_iff%bool_decide_eq_true|E%negb_false_iff%bool_decide_eq_true]; [left|by right].
      by apply (v_final _ _ _ _ _ Hv). }
  destruct H1 as (s1 & -> & He1 & Hst1). cbn [run_bind]. destruct (b_begin_close_ends s1 (n_handle _ _ He1)) as (s2 & -> & He2 & Ed2 & Hb2).
  exists s2. split; [done|]. destruct (n_sends _ _ He1) as [Hs1 Hn1], (n_sends _ _ He2) as [Hs2 Hn2], (n_requests _ _ He1) as (R1 & R2 & R3), (n_requests _ _ He2) as (Q1 & Q2 & Q3).
  split; [split|split; [by apply (n_silent _ _ He2), (n_silent _ _ He1)|by rewrite Ed2]].
  - intros _. by apply (n_silent _ _ He2), (n_silent _ _ He1).
  - by rewrite (n_calls _ _ He2), (n_calls _ _ He1).
  - by rewrite Q1, Q2, Q3.
  - apply (n_handle _ _ He2).
  - rewrite Hs2, Hs1. tauto.
  - intros Hc. by apply (n_close _ _ He2), (n_close _ _ He1).
Qed.

Lemma destroy_waits (m : bool) (fuel : nat) (s : sock) : destroy m fuel s = (do s <- until_wait m fuel s; do s <- pump m has_posted uv_run s;
  do _ <- check (mCloseRequested (d s) || bool_decide (mState (d s) = kIdle)); do _ <- check (bool_decide (mHandle (b s) = None)); Ret s).
Proof. unfold UdpSocket.destroy, until_wait. cbn zeta. set (r := if negb _ && negb _ then _ else _). by destruct r. Qed.

(** C26: The destructor, called from outside of libuv's callbacks, ends: it waits in rounds of the
    event loop, which leave libuv out as long as there is posted work. If one of its 1000
    rounds is idle, and libuv, when it runs, does what it does for a closing handle (it calls
    back once for each datagram it has, with any statuses, then reports the close), then the
    destructor returns, neither of its final checks fails, the handle is gone, libuv has
    nothing of the socket, no callback of the user has run, and the callbacks of the sends
    that had no answer are thrown away. *)
Theorem udp_destroyed (s : sock) (fuel : nat) : reports_close -> closes (S fuel) -> reachable any_program s ->
  exists s', destroy false (S fuel) s = Ret s' /\ mHandle (b s') = None /\ mSends (b s') = [] /\ due s' = [] /\ calls (trace s') = calls (trace s) /\
    answered (trace s') = answered (trace s) /\ asked_for (trace s') ≡ₚ answered (trace s') ++ dropped (trace s').
Proof.
  intros Hp Hc Hr. pose proof (udp_reached_ok false false any_program s Hp ltac:(done) ltac:(done) Hr) as Hok.
  destruct (until_wait_ends false (S fuel) s Hok) as (s2 & E2 & He & Hs2 & Hb2 & Hst2). rewrite destroy_waits, E2. cbn [run_bind]. destruct Hok as [Hv _].
  destruct (dropped_app (due s) (trace s)) as (D1 & D2 & D3 & _). pose proof (dropped_calls (due s) (trace s)) as D4.
  assert (Et : trace (drop_dones s) = rev (map Dropped (due s)) ++ trace s) by (unfold drop_dones, due; cbn; by rewrite map_map). rewrite <- Et in D1, D2, D3, D4.
  assert (Ht2 : calls (trace s2) = calls (trace s) /\ answered (trace s2) = answered (trace s) /\ asked_for (trace s2) ≡ₚ answered (trace s2) ++ dropped (trace s2)).
  { destruct (n_requests _ _ He) as (R1 & R2 & R3). rewrite (n_calls _ _ He), R1, R2, R3. change (trace (with_on_state_change _ None)) with (trace (drop_dones s)). rewrite D1, D2, D3, D4. split; [done|]. split; [done|].
    pose proof (v_count _ _ _ _ _ Hv) as H. rewrite app_nil_r in H. by rewrite H, <- (Permutation_rev (due s)). }
  destruct Ht2 as (T1 & T2 & T3). destruct (n_sends _ _ He) as [Hsends Hnone].
  assert (H3 : exists s3, pump false has_posted uv_run s2 = Ret s3 /\ mHandle (b s3) = None /\ mSends (b s3) = [] /\ silent s3 /\ trace s3 = trace s2 /\
    mCloseRequested (d s3) = mCloseRequested (d s2) /\ mState (d s3) = mState (d s2)).
  { unfold pump. destruct (mHandle (b s2)) as [h|] eqn:Eh.
    - assert (Hh : has_handle s2 = true) by (unfold has_handle; by rewrite Eh; apply bool_decide_true).
      destruct (pump_once has_posted uv_run has_handle s2 (proj1 Hp) Hh) as (_ & n & r & ->).
      assert (Htr : Forall (fun p => mOnDone p = SendDone) (mSends (b s2))) by (rewrite Hsends; apply (v_trampolines _ _ _ _ _ Hv)).
      destruct (Hc s2 h Eh) as (statuses & Hl & ->); [by rewrite (n_handle _ _ He h Eh)|done|done|].
      rewrite (drained fuel statuses s2 Hl Hs2 Htr). destruct (answered_all statuses s2 Hl) as (A1 & A2 & A3 & A4 & A5).
      unfold on_closed. cbn [run_bind]. rewrite pump_closed by done. eexists. split; [done|]. cbn. rewrite A2, A4, A5. split; [done|]. split; [exact A1|]. split; [by apply A3|done].
    - rewrite pump_closed by (unfold has_handle; rewrite Eh; by apply bool_decide_false; intros H).
      exists s2. split; [done|]. split; [done|]. split; [|done]. rewrite Hsends. apply (v_sends _ _ _ _ _ Hv). by apply Hnone. }
  destruct H3 as (s3 & -> & Hh3 & Hs3 & Hsil3 & Ht3 & Hc3 & Hst3). cbn [run_bind]. exists s3.
  rewrite (bool_decide_true (mHandle (b s3) = None)) by done. rewrite Hc3, Hst3, Ht3.
  replace (mCloseRequested (d s2) || bool_decide (mState (d s2) = kIdle)) with true; [|symmetry; apply orb_true_iff; rewrite bool_decide_eq_true; tauto].
  split; [done|]. split; [done|]. split; [done|]. split; [unfold due; by rewrite (proj1 Hsil3)|done].
Qed.

(** From a callback of libuv, of this socket or of another one, it does not end while there is
    a handle: the dispatcher refuses the nested round and stops the program. *)
Theorem udp_destroyed_in_callback_stops (s : sock) (fuel : nat) : reports_close -> reachable any_program s -> mHandle (b s) <> None -> destroy true fuel s = Fatal.
Proof.
  intros Hp Hr Hh. pose proof (udp_reached_ok false false any_program s Hp ltac:(done) ltac:(done) Hr) as Hok.
  destruct (until_wait_ends true fuel s Hok) as (s2 & E2 & He & _). rewrite destroy_waits, E2. cbn [run_bind].
  assert (E : has_handle s2 = true) by (apply bool_decide_true; intros H; by apply Hh, (proj2 (n_sends _ _ He))).
  unfold pump. by destruct (pump_once has_posted uv_run has_handle s2 (proj1 Hp) E) as [-> _].
Qed.
End Socket.

(** ** Sockets at work *)
Definition linux : uv_codes := Build_uv_codes (-111) (-104) (-110) (-113) (-101) (-99) (-32) (-90) (-98) (-22) (-4095).

(** Address 0 cannot be parsed; [answers] are libuv's. The first two rounds of the loop find
    something posted; then libuv cancels what a closing handle has, and reports the close. *)
Definition parses (addr : Z) : bool := negb (addr =? 0)%Z.
Definition busy_at_first (_ : sock) (round : nat) : bool := round <? 2.
Definition libuv_closes (s : sock) : run sock :=
  match mHandle (b s) with
  | Some h => if closing h then on_closed (fold_left (answered_with linux) (repeat (-125)%Z (length (mSends (b s)))) s) else Ret s
  | None => Ret s
  end.
(** Calls come from the program, the callbacks while libuv runs. *)
Definition inside (e : stimulus) : bool := match e with Call _ => false | _ => true end.
#[local] Notation reacts answers parses e := (react linux (-108) (-9) answers parses 1 (inside e) busy_at_first libuv_closes 100 e).
Definition run_with (answers : uv_call -> nat -> Z) (l : list stimulus) : run sock :=
  fold_left (fun r e => run_bind r (reacts answers parses e)) l (Ret new_socket).
Definition result (r : run sock) : sock := match r with Ret s => s | _ => new_socket end.
Definition all_well (_ : uv_call) (_ : nat) : Z := 0%Z.

Lemma loop_reports_close : reports_close busy_at_first libuv_closes.
Proof.
  split; [intros s; exists 2; split; [lia|done]|]. intros s h Hh Hc Hs. unfold libuv_closes. by rewrite Hh, Hc, Hs.
Qed.
Lemma loop_closes (answers : uv_call -> nat -> Z) (parses : Z -> bool) (fuel : nat) :
  closes linux (-108) (-9) answers parses 1 busy_at_first libuv_closes (S fuel).
Proof.
  intros s h Hh Hc Hs Ht. exists (repeat (-125)%Z (length (mSends (b s)))). split; [apply repeat_length|].
  rewrite drained by (apply repeat_length || done). unfold libuv_closes. by rewrite Hh, Hc.
Qed.

#[local] Notation reached answers := (reachable linux (-108) (-9) answers parses 1 busy_at_first libuv_closes).

Lemma reachable_any (answers : uv_call -> nat -> Z) (s : sock) : reached answers calm_program s -> reached answers any_program s.
Proof. induction 1; [apply reach_new|by eapply reach_react]. Qed.

(** A socket that answers what it receives, and sends again when a datagram is out *)
Definition prepared : list stimulus :=
  [Call (SetOnError (Some (Callback 8 []))); Call (SetOnDatagram (Callback 9 [SendTo [4]%Z 7%Z (Callback 4 [])]))].
Definition talking : list stimulus := prepared ++
  [Call (SendTo [1]%Z 5%Z (Callback 1 [SendTo [2]%Z 6%Z (Callback 2 [Close])])); Call (SendTo [3]%Z 5%Z (Callback 3 [])); SendCb 0; RecvCb 1 [9]%Z (Some 7%Z)].
Definition socket_after (l : list stimulus) : sock := result (run_with all_well l).
Definition talker : sock := socket_after talking.

Ltac react_by s e := apply (reach_react linux (-108) (-9) all_well parses 1 busy_at_first libuv_closes calm_program s _ e (inside e) 100);
  [|vm_compute; (split; [exact I || reflexivity|lia])|vm_compute; repeat (split || eexists); discriminate || reflexivity|done|vm_compute; reflexivity].

Lemma talker_reached : reached all_well calm_program talker.
Proof.
  react_by (socket_after (take 5 talking)) (RecvCb 1 [9]%Z (Some 7%Z)). react_by (socket_after (take 4 talking)) (SendCb 0).
  react_by (socket_after (take 3 talking)) (Call (SendTo [3]%Z 5%Z (Callback 3 []))).
  react_by (socket_after (take 2 talking)) (Call (SendTo [1]%Z 5%Z (Callback 1 [SendTo [2]%Z 6%Z (Callback 2 [Close])]))).
  react_by (socket_after (take 1 talking)) (Call (SetOnDatagram (Callback 9 [SendTo [4]%Z 7%Z (Callback 4 [])]))).
  react_by new_socket (Call (SetOnError (Some (Callback 8 [])))). apply reach_new.
Qed.

Example talker_state : due talker = [3; 2; 4] /\ flights talker = [3; 2; 4] /\ mState (d talker) = kBound /\ answered (trace talker) = [1].
Proof. by vm_compute. Qed.

Lemma udp_runs_witness :
  reacts all_well parses (SendCb (-111)) talker = Fatal \/
  exists s', reacts all_well parses (SendCb (-111)) talker = Ret s'.
Proof.
  apply (udp_runs linux (-108) (-9) all_well parses 1 busy_at_first libuv_closes talker (SendCb (-111)) true 100 loop_reports_close); [by vm_compute|apply talker_reached|].
  vm_compute. split; [exact I|lia].
Defined.

Lemma udp_answered_once_witness : asked_for (trace talker) ≡ₚ answered (trace talker) ++ due talker ++ dropped (trace talker) /\
  length (dropped (trace talker)) <= lates (trace talker) /\ (mCloseRequested (d talker) = true -> due talker = []).
Proof. apply (udp_answered_once linux (-108) (-9) all_well parses 1 busy_at_first libuv_closes talker loop_reports_close), reachable_any, talker_reached. Defined.

(** With addresses that can all be parsed *)
Definition parses_all (_ : Z) : bool := true.
Definition one_sent : sock := result (reacts all_well parses_all (Call (SendTo [1]%Z 5%Z (Callback 1 []))) new_socket).

Lemma one_sent_reached : reachable linux (-108) (-9) all_well parses_all 1 busy_at_first libuv_closes any_program one_sent.
Proof. apply (reach_react linux (-108) (-9) all_well parses_all 1 busy_at_first libuv_closes any_program new_socket _ (Call (SendTo [1]%Z 5%Z (Callback 1 []))) false 100); [apply reach_new|done|done|done|by vm_compute]. Qed.

Lemma udp_right_answers_witness : due one_sent = flights one_sent /\ flights one_sent = [1].
Proof.
  split; [|by vm_compute]. apply (udp_right_answers linux (-108) (-9) all_well parses_all 1 busy_at_first libuv_closes one_sent loop_reports_close); [done|apply one_sent_reached|by vm_compute].
Defined.

(** Three datagrams are still out. *)
Lemma udp_destroyed_witness : exists s', destroy linux (-108) (-9) all_well parses 1 false busy_at_first libuv_closes 100 talker = Ret s' /\
  mHandle (b s') = None /\ mSends (b s') = [] /\ due s' = [] /\ calls (trace s') = calls (trace talker) /\ answered (trace s') = answered (trace talker) /\
  asked_for (trace s') ≡ₚ answered (trace s') ++ dropped (trace s').
Proof.
  apply (udp_destroyed linux (-108) (-9) all_well parses 1 busy_at_first libuv_closes talker 99 loop_reports_close); [apply loop_closes|apply reachable_any, talker_reached].
Defined.

Example talker_destroyed :
  let s := result (destroy linux (-108) (-9) all_well parses 1 false busy_at_first libuv_closes 100 talker) in dropped (trace s) = [4; 2; 3] /\ answered (trace s) = [1].
Proof. by vm_compute. Qed.

Example talker_destroyed_in_callback : destroy linux (-108) (-9) all_well parses 1 true busy_at_first libuv_closes 100 talker = Fatal.
Proof.
  apply udp_destroyed_in_callback_stops; [apply loop_reports_close|apply reachable_any, talker_reached|by vm_compute].
Qed.

(** ** What does not hold *)

(** A handler of errors that tries again runs into itself: the call never returns. *)
Definition retry : callback := Callback 8 [Bind 0].
Definition retrying : sock := with_on_error new_socket (Some retry).

Lemma retry_diverges (m : bool) (fuel : nat) (a : argument) (s : sock) :
  mOnError (d s) = Some retry -> mCloseRequested (d s) = false -> mState (d s) = kIdle -> mHandle (b s) = None -> bCloseRequested (b s) = false ->
  invoke linux (-108) (-9) all_well parses 1 m busy_at_first libuv_closes fuel (User retry) a s = Timeout.
Proof.
  revert a s. induction fuel as [|fuel IH]; intros a s He Hc Hs Hh Hb; [done|]. cbn [invoke retry cb_body perform_all perform]. unfold bind. cbn.
  rewrite Hc, Hs. cbn. unfold b_bind. cbn. rewrite Hh, Hb. cbn. unfold report_status, report_error. cbn. rewrite He, IH; done.
Qed.

Theorem error_retry_diverges (m : bool) (fuel : nat) : react linux (-108) (-9) all_well parses 1 m busy_at_first libuv_closes fuel (Call (Bind 0)) retrying = Timeout.
Proof. cbn [react perform]. unfold bind, b_bind. cbn. unfold report_status, report_error. cbn. by rewrite retry_diverges. Qed.

(** A datagram for an address that cannot be parsed is not sent, and its callback stays in the
    queue: the answer to the next datagram goes to it. *)
Theorem bad_address_shifts_answers :
  let s := result (run_with all_well [Call (SendTo [1]%Z 0%Z (Callback 1 [])); Call (SendTo [2]%Z 5%Z (Callback 2 [])); SendCb 0]) in
  head (trace s) = Some (Called 1 (Sent true)) /\ due s = [2] /\ mSends (b s) = [].
Proof. by vm_compute. Qed.

(** When libuv refuses a datagram at once, the oldest callback is told so, and the answer to
    the oldest datagram goes to the one that was refused. *)
Definition refuses_second (c : uv_call) (n : nat) : Z := match c with uv_udp_send => if n =? 2 then 0%Z else (-90)%Z | _ => 0%Z end.
Theorem refusal_blames_oldest :
  let s := result (run_with refuses_second [Call (SendTo [1]%Z 5%Z (Callback 1 [])); Call (SendTo [2]%Z 5%Z (Callback 2 [])); SendCb 0]) in
  trace s = [Called 2 (Sent true); Called 1 (Sent false); Asked 2 false; Entered kBound; Asked 1 false] /\ mLastError (d s) = kMessageTooLarge.
Proof. by vm_compute. Qed.

(** A datagram given to [send] while a close answers the others is sent, and its callback is
    never called. *)
Theorem send_during_close_lost :
  let s := result (run_with all_well [Call (ConnectTo 5); Call (Send [1]%Z (Callback 1 [Send [2]%Z (Callback 2 [])])); Call Close; SendCb 0; SendCb 0; CloseCb]) in
  mHandle (b s) = None /\ asked_for (trace s) = [2; 1] /\ answered (trace s) = [1] /\ dropped (trace s) = [2] /\ due s = [].
Proof. by vm_compute. Qed.

(** A socket that its handler of errors closes while it is being bound is closed, and then
    bound. *)
Definition no_broadcast (c : uv_call) (_ : nat) : Z := match c with setsockopt => 13%Z | _ => 0%Z end.
Theorem closed_then_bound :
  let s := result (run_with no_broadcast [Call (SetBroadcast true); Call (SetOnError (Some (Callback 8 [Close]))); Call (Bind 5)]) in
  trace s = [Returned true; Entered kBound; Entered kClosed; Called 8 (Failing kUnknown); Returned true] /\ mState (d s) = kBound /\ mCloseRequested (d s) = true.
Proof. by vm_compute. Qed.

(** A bind that the system refuses returns false, unless it is made from a callback of libuv:
    there the wait for the handle to be closed is a nested round of the loop, at which the
    dispatcher stops the program. *)
Definition address_in_use (c : uv_call) (_ : nat) : Z := match c with uv_udp_bind => (-98)%Z | _ => 0%Z end.
Theorem refused_bind_in_callback_stops :
  let call m := react linux (-108) (-9) address_in_use parses 1 m busy_at_first libuv_closes 100 (Call (Bind 5)) new_socket in
  trace (result (call false)) = [Returned false] /\ mLastError (d (result (call false))) = kAddressInUse /\ call true = Fatal.
Proof. by vm_compute. Qed.
