(* ===== verification/SpinLock.v ===== *)
(** * Spin locks

    Models [src/cxxkit/thread/spinlock.hpp]: an atomic flag, and threads that take turns with
    one access to it each. [turn i] is the next step of thread [i]; every interleaving is a
    list of turns. The accesses are taken as sequentially consistent. *)

From stdpp Require Import prelude list.
From Stdlib Require Import ZArith Lia.
From S2P Require Import Prelude.

Inductive call := Lock | Unlock.
#[export] Instance call_eq_dec : EqDecision call.
Proof. solve_decision. Defined.

(** Where a thread is: between two calls, or in [lock] about to test the count and load, to
    exchange after a load that found the lock free, or in the second loop *)
Inductive place := Between | Checking (spinCount : Z) | Trying (spinCount : Z) | Exchanging.
Record thread := mkThread { at_ : place; calls : list call }.
Record SpinLock := mkLock { mFlag : bool; threads : list thread }.

Definition lock_step (at_ : place) (mFlag : bool) : option place * bool :=
  match at_ with
  | Between => (Some (Checking 100), mFlag)
  | Checking spinCount =>
      let spinCount := (spinCount - 1)%Z in
      if (0 <? spinCount)%Z then (Some (if mFlag then Checking spinCount else Trying spinCount), mFlag)
      else (Some Exchanging, mFlag)
  | Trying spinCount => (if mFlag then Some (Checking spinCount) else None, true)
  | Exchanging => (if mFlag then Some Exchanging else None, true)
  end.

(** [None] is the return from [lock]. *)
Definition thread_step (t : thread) (mFlag : bool) : option (thread * bool) :=
  match calls t with
  | [] => None
  | Lock :: rest =>
      let (at_, mFlag) := lock_step (at_ t) mFlag in
      Some (match at_ with Some at_ => mkThread at_ (calls t) | None => mkThread Between rest end, mFlag)
  | Unlock :: rest => Some (mkThread Between rest, false)
  end.

Definition turn (i : nat) (s : SpinLock) : option SpinLock :=
  t ← threads s !! i;
  '(t, flag) ← thread_step t (mFlag s);
  Some (mkLock flag (<[i := t]> (threads s))).

Fixpoint turns (schedule : list nat) (s : SpinLock) : option SpinLock :=
  match schedule with
  | [] => Some s
  | i :: schedule => s ← turn i s; turns schedule s
  end.

(** [Locker]: the constructor locks and the destructor unlocks. *)
Inductive locker_call := Relock | UnlockNow.
Definition locker_step (c : locker_call) : call := match c with Relock => Lock | UnlockNow => Unlock end.
Definition locker (body : list locker_call) : list call := Lock :: (locker_step <$> body) ++ [Unlock].

Definition start (programs : list (list call)) : SpinLock := mkLock false (mkThread Between <$> programs).
Definition reachable (programs : list (list call)) (s : SpinLock) : Prop := exists schedule, turns schedule (start programs) = Some s.

(** A program that unlocks what it locked *)
Fixpoint disciplined (locked : bool) (l : list call) : bool :=
  match l with
  | [] => negb locked
  | Lock :: l => negb locked && disciplined true l
  | Unlock :: l => locked && disciplined false l
  end.

Definition holding (t : thread) : Prop := head (calls t) = Some Unlock.
Definition finished (t : thread) : Prop := calls t = [].

Record thread_ok (t : thread) : Prop := {
  ok_calls : exists locked, disciplined locked (calls t) = true;
  ok_at : at_ t <> Between -> head (calls t) = Some Lock
}.
Record lock_ok (s : SpinLock) : Prop := {
  l_threads : Forall thread_ok (threads s);
  l_one : forall i j t u, threads s !! i = Some t -> threads s !! j = Some u -> holding t -> holding u -> i = j;
  l_flag : mFlag s = true <-> exists i t, threads s !! i = Some t /\ holding t
}.

Lemma spin_start_ok (programs : list (list call)) : Forall (fun p => disciplined false p = true) programs -> lock_ok (start programs).
Proof.
  intros Hp. assert (Hn : forall i t, threads (start programs) !! i = Some t -> ~ holding t).
  { intros i t Ht. cbn [start threads] in Ht. rewrite list_lookup_fmap in Ht. apply fmap_Some in Ht as (p & Hp' & ->). rewrite Forall_lookup in Hp. specialize (Hp _ _ Hp'). unfold holding. by destruct p as [|[] p]. }
  split; cbn [mFlag start].
  - apply Forall_fmap. eapply Forall_impl; [exact Hp|]. intros p H. split; [by exists false|done].
  - intros i j t u Hi _ H. by destruct (Hn _ _ Hi).
  - split; [done|]. intros (i & t & Ht & H). by destruct (Hn _ _ Ht).
Qed.

(** A step keeps, takes or gives the lock. *)
Lemma spin_thread_step_spec (t t' : thread) (flag flag' : bool) : thread_ok t -> thread_step t flag = Some (t', flag') ->
  thread_ok t' /\
  ((~ holding t /\ ~ holding t' /\ flag' = flag) \/ (~ holding t /\ holding t' /\ flag = false /\ flag' = true) \/ (holding t /\ ~ holding t' /\ flag' = false)).
Proof.
  unfold thread_step, lock_step, holding. intros [[b Hb] Hat] E. destruct t as [a [|[] l]]; cbn in *; [done| |].
  - assert (Hrest : b = false /\ disciplined true l = true) by (by destruct b). destruct Hrest as [-> Hl].
    assert (Hok : forall a', thread_ok (mkThread a' (Lock :: l))) by (intros a'; split; [by exists false|done]).
    assert (Hin : thread_ok (mkThread Between l)) by (split; [by exists true|done]).
    assert (Hh : head l = Some Unlock) by (by destruct l as [|[] l]).
    destruct a as [|n|n|]; cbn in E; repeat case_match; simplify_eq/=; (split; [done|]);
      try (by left); try (right; left; by split_and!); left; by destruct flag.
  - assert (Hrest : b = true /\ disciplined false l = true) by (by destruct b). destruct Hrest as [-> Hl]. simplify_eq.
    split; [split; [by exists false|done]|]. right; right. split_and!; [done| |done]. by destruct l as [|[] l].
Qed.

Lemma spin_turn_ok (i : nat) (s s' : SpinLock) : lock_ok s -> turn i s = Some s' -> lock_ok s'.
Proof.
  intros [Ht Ho Hf] E. unfold turn in E. destruct (threads s !! i) as [t|] eqn:Hi; [|done]. cbn in E.
  destruct (thread_step t (mFlag s)) as [[t' flag]|] eqn:Es; [|done]. cbn in E. simplify_eq.
  rewrite Forall_lookup in Ht. destruct (spin_thread_step_spec t t' _ _ (Ht _ _ Hi) Es) as [Hok Hcase].
  assert (Hlt : i < length (threads s)) by by eapply lookup_lt_Some.
  assert (Hin : <[i := t']> (threads s) !! i = Some t') by by apply list_lookup_insert_eq.
  assert (Hout : forall j, j <> i -> <[i := t']> (threads s) !! j = threads s !! j) by (intros; by apply list_lookup_insert_ne).
  split; cbn [mFlag threads].
  - apply Forall_insert; [by rewrite Forall_lookup|done].
  - intros j k u v Hj Hk Hu Hv. destruct (decide (j = i)) as [->|Hji], (decide (k = i)) as [->|Hki]; try done.
    + rewrite Hin in Hj. rewrite (Hout k Hki) in Hk. simplify_eq. destruct Hcase as [(?&?&?)|[(?&?&Hff&?)|(?&?&?)]]; try done.
      assert (mFlag s = true) by (apply Hf; by exists k, v). congruence.
    + rewrite Hin in Hk. rewrite (Hout j Hji) in Hj. simplify_eq. destruct Hcase as [(?&?&?)|[(?&?&Hff&?)|(?&?&?)]]; try done.
      assert (mFlag s = true) by (apply Hf; by exists j, u). congruence.
    + rewrite (Hout j Hji) in Hj. rewrite (Hout k Hki) in Hk. by apply (Ho j k u v).
  - destruct Hcase as [(Hn&Hn'&->)|[(Hn&Hn'&Hff&->)|(Hn&Hn'&->)]].
    + rewrite Hf. split; intros (j & u & Hj & Hu).
      * assert (j <> i) by (intros ->; congruence). exists j, u. by rewrite Hout.
      * assert (j <> i) by (intros ->; congruence). exists j, u. by rewrite Hout in Hj.
    + split; [intros _; by exists i, t'|done].
    + split; [done|]. intros (j & u & Hj & Hu). destruct (decide (j = i)) as [->|Hji]; [congruence|].
      rewrite Hout in Hj by done. destruct Hji. by apply (Ho j i u t).
Qed.

Lemma spin_turns_ok (schedule : list nat) (s s' : SpinLock) : lock_ok s -> turns schedule s = Some s' -> lock_ok s'.
Proof.
  revert s. induction schedule as [|i schedule IH]; intros s Hs E; cbn in E; [by simplify_eq|].
  destruct (turn i s) as [s1|] eqn:Et; [|done]. cbn in E. by apply (IH s1); [apply (spin_turn_ok i s)|].
Qed.

Lemma spin_turns_app (l1 l2 : list nat) (s s1 : SpinLock) : turns l1 s = Some s1 -> turns (l1 ++ l2) s = turns l2 s1.
Proof.
  revert s. induction l1 as [|i l1 IH]; intros s E; cbn in *; [by simplify_eq|]. destruct (turn i s) as [s2|]; [|done]. cbn in *. by apply IH.
Qed.

(** ** Progress *)
Lemma spin_turn_of (i : nat) (s : SpinLock) (t t' : thread) (flag : bool) :
  threads s !! i = Some t -> thread_step t (mFlag s) = Some (t', flag) -> turn i s = Some (mkLock flag (<[i := t']> (threads s))).
Proof. intros Hi E. unfold turn. by rewrite Hi; cbn; rewrite E. Qed.

(** A lock that is free is taken by a thread that has three turns. *)
Lemma free_lock_taken (i : nat) (s : SpinLock) (t : thread) (rest : list call) :
  threads s !! i = Some t -> calls t = Lock :: rest -> mFlag s = false ->
  exists n, n <= 3 /\ turns (replicate n i) s = Some (mkLock true (<[i := mkThread Between rest]> (threads s))).
Proof.
  intros Hi Hc Hf. destruct s as [flag ts], t as [a l]. cbn in *. subst flag l.
  assert (Hl : i < length ts) by by eapply lookup_lt_Some.
  assert (Hstep : forall a ts, ts !! i = Some (mkThread a (Lock :: rest)) ->
    turn i (mkLock false ts) = Some (match lock_step a false with (Some a', flag) => mkLock flag (<[i := mkThread a' (Lock :: rest)]> ts)
                                     | (None, flag) => mkLock flag (<[i := mkThread Between rest]> ts) end)).
  { intros a' ts' H. unfold turn. cbn. rewrite H. cbn. unfold thread_step. cbn. by destruct (lock_step a' false) as [[a''|] fl]. }
  assert (Hgo : forall a ts, ts !! i = Some (mkThread a (Lock :: rest)) -> lock_step a false = (None, true) ->
    turns (replicate 1 i) (mkLock false ts) = Some (mkLock true (<[i := mkThread Between rest]> ts))).
  { intros a' ts' H E. cbn [replicate turns]. by rewrite (Hstep _ _ H), E. }
  assert (Hcheck : forall z ts, i < length ts -> ts !! i = Some (mkThread (Checking z) (Lock :: rest)) ->
    turns (replicate 2 i) (mkLock false ts) = Some (mkLock true (<[i := mkThread Between rest]> ts))).
  { intros z ts' Hlt H. cbn [replicate turns]. rewrite (Hstep _ _ H). cbn [lock_step].
    destruct (0 <? z - 1)%Z; cbn [turns mbind option_bind]; erewrite Hstep by (by apply list_lookup_insert_eq); cbn [lock_step]; by rewrite list_insert_insert_eq. }
  destruct a as [|z|z|].
  - exists 3. split; [done|]. change (replicate 3 i) with ([i] ++ replicate 2 i). rewrite (spin_turns_app [i] (replicate 2 i) _ (mkLock false (<[i := mkThread (Checking 100) (Lock :: rest)]> ts))) by (cbn [turns]; by rewrite (Hstep _ _ Hi)).
    rewrite (Hcheck 100%Z); [by rewrite list_insert_insert_eq|by rewrite length_insert|by rewrite list_lookup_insert_eq].
  - exists 2. split; [lia|]. by apply Hcheck with z.
  - exists 1. split; [lia|]. by apply Hgo with (Trying z).
  - exists 1. split; [lia|]. by apply Hgo with Exchanging.
Qed.

Definition remaining (s : SpinLock) : nat := sum_list (length ∘ calls <$> threads s).
Lemma spin_remaining_insert (i : nat) (ts : list thread) (t t' : thread) : ts !! i = Some t -> length (calls t) = S (length (calls t')) ->
  sum_list (length ∘ calls <$> ts) = S (sum_list (length ∘ calls <$> <[i := t']> ts)).
Proof.
  revert i. induction ts as [|u ts IH]; intros [|i] Hi Hl; simplify_eq/=; [lia|]. rewrite (IH i) by done. lia.
Qed.

Lemma spin_all_finish (s : SpinLock) : lock_ok s ->
  exists schedule s', length schedule <= 3 * remaining s /\ turns schedule s = Some s' /\ Forall finished (threads s').
Proof.
  remember (remaining s) as n eqn:En. revert s En. induction n as [n IH] using lt_wf_ind; intros s -> Hs.
  destruct (decide (Forall (fun t => calls t = []) (threads s))) as [Hd|Hd]; [exists [], s; by split_and!; [cbn; lia|done|]|].
  assert (Hone : exists i t c rest, threads s !! i = Some t /\ calls t = c :: rest /\ (mFlag s = false -> c = Lock) /\ (mFlag s = true -> c = Unlock)).
  { destruct (mFlag s) eqn:Ef.
    - apply (l_flag s Hs) in Ef as (i & t & Hi & Ht). unfold holding in Ht. destruct (calls t) as [|c rest] eqn:Ec; [done|]. cbn in Ht. simplify_eq.
      by exists i, t, Unlock, rest.
    - apply not_Forall_Exists in Hd; [|intros t; apply _]. apply Exists_exists in Hd as (t & Hin & Ht). apply list_elem_of_lookup in Hin as [i Hi].
      destruct (calls t) as [|[] rest] eqn:Ec; [done|by exists i, t, Lock, rest|].
      assert (mFlag s = true) by (apply (l_flag s Hs); exists i, t; unfold holding; by rewrite Ec). congruence. }
  destruct Hone as (i & t & c & rest & Hi & Hc & Hfree & Hheld).
  set (s1 := mkLock (negb (mFlag s)) (<[i := mkThread Between rest]> (threads s))).
  assert (Hgo : exists k, k <= 3 /\ turns (replicate k i) s = Some s1).
  { unfold s1. destruct (mFlag s) eqn:Ef.
    - exists 1. split; [lia|]. cbn [replicate turns]. rewrite (spin_turn_of i s t (mkThread Between rest) false Hi); [done|].
      unfold thread_step. by rewrite Hc, (Hheld eq_refl).
    - apply (free_lock_taken i s t rest); [done| |done]. by rewrite Hc, (Hfree eq_refl). }
  destruct Hgo as (k & Hk & Ek).
  assert (Hr : remaining s = S (remaining s1)) by (apply (spin_remaining_insert i _ t); [done|by rewrite Hc]).
  destruct (IH (remaining s1) ltac:(lia) s1 eq_refl (spin_turns_ok _ _ _ Hs Ek)) as (sch & s' & Hl & E & Hf).
  exists (replicate k i ++ sch), s'. split_and!; [|by rewrite (spin_turns_app _ _ _ _ Ek)|done].
  rewrite length_app, length_replicate. lia.
Qed.

(** Mutual exclusion and progress: when every program unlocks what it locked, no two threads
    are ever between [lock] and [unlock], the flag says whether one is, and from wherever the
    threads got to there is a way to the end of all programs, three turns for each call
    that is left. *)
Theorem mutual_exclusion (programs : list (list call)) (s : SpinLock) :
  Forall (fun p => disciplined false p = true) programs -> reachable programs s ->
  (forall i j t u, threads s !! i = Some t -> threads s !! j = Some u -> holding t -> holding u -> i = j) /\
  (mFlag s = true <-> exists i t, threads s !! i = Some t /\ holding t) /\
  exists schedule s', length schedule <= 3 * remaining s /\ turns schedule s = Some s' /\ Forall finished (threads s').
Proof.
  intros Hp [schedule E]. pose proof (spin_turns_ok _ _ _ (spin_start_ok programs Hp) E) as Hs.
  split_and!; [apply (l_one s Hs)|apply (l_flag s Hs)|by apply spin_all_finish].
Qed.

(** A [Locker] that its owner unlocks by hand and leaves so unlocks again when it is
    destroyed: the lock that another thread has by then is released, and a third one gets
    in. *)
Definition careless : list (list call) := [locker [UnlockNow]; locker []; locker []].
Definition first_done : list nat := replicate 3 0 ++ [0] ++ replicate 3 1 ++ [0] ++ replicate 3 2.
Theorem locker_unlocks_another : exists s t u, turns first_done (start careless) = Some s /\
  threads s !! 1 = Some t /\ threads s !! 2 = Some u /\ holding t /\ holding u.
Proof. by do 3 eexists. Qed.

Definition contenders : list (list call) := [locker []; locker [UnlockNow; Relock]; locker []].
Definition contended : list nat := [0; 1; 0; 1; 0; 1; 2; 2].
Lemma mutual_exclusion_witness : exists s, reachable contenders s /\ mFlag s = true /\
  (forall i j t u, threads s !! i = Some t -> threads s !! j = Some u -> holding t -> holding u -> i = j).
Proof.
  destruct (turns contended (start contenders)) as [s|] eqn:E; [|done]. exists s. assert (Hr : reachable contenders s) by by exists contended.
  split_and!; [done|by vm_compute in E; simplify_eq|]. apply (mutual_exclusion contenders s); [by repeat constructor|done].
Defined.
