(* ===== verification/OnceFlag.v ===== *)
(** * Once flags

    Models [src/cxxkit/tools/once_flag.hpp]: an atomic state, and threads that take turns with
    one access to it each, the function that is called being one turn of its own. [turn i] is
    the next step of thread [i]; every interleaving is a list of turns. The accesses are taken
    as sequentially consistent. *)

From stdpp Require Import prelude list.
From Stdlib Require Import ZArith Lia.
From S2P Require Import Prelude.

Inductive State := NeverCalled | InProcess | Done.
#[export] Instance State_eq_dec : EqDecision State.
Proof. solve_decision. Defined.

Inductive op := Call | Reset.
(** Where a thread is: outside, in the loop of [enter], in the function, about to [leave] *)
Inductive place := Outside | Waiting | Inside | Leaving.
Record thread := mkThread { at_ : place; todo : list op }.

(** What happened: the function began and ended, a call returned and whether it had run the
    function, the flag was reset *)
Inductive event := Began (i : nat) | Ended (i : nat) | Returned (i : nat) (ran : bool) | WasReset (i : nat).
Record OnceFlag := mkFlag { mState : State; threads : list thread; trace : list event }.

(** [enter]: the exchange, and one turn of its loop *)
Definition enter (state : State) : State * place := if bool_decide (state = NeverCalled) then (InProcess, Inside) else (state, Waiting).
Definition wait (state : State) : place := if bool_decide (state = Done) then Outside else Waiting.
Definition leave : State := Done.
Definition reset (state : State) : bool * State := if bool_decide (state = Done) then (true, NeverCalled) else (false, state).

Definition thread_step (i : nat) (t : thread) (state : State) : option (thread * State * list event) :=
  match todo t, at_ t with
  | Call :: rest, Outside => let (state, at_) := enter state in Some (mkThread at_ (todo t), state, match at_ with Inside => [Began i] | _ => [] end)
  | Call :: rest, Waiting => match wait state with Outside => Some (mkThread Outside rest, state, [Returned i false]) | at_ => Some (mkThread at_ (todo t), state, []) end
  | Call :: rest, Inside => Some (mkThread Leaving (todo t), state, [Ended i])
  | Call :: rest, Leaving => Some (mkThread Outside rest, leave, [Returned i true])
  | Reset :: rest, _ => let (ok, state) := reset state in Some (mkThread Outside rest, state, if ok : bool then [WasReset i] else [])
  | [], _ => None
  end.

Definition turn (i : nat) (s : OnceFlag) : option OnceFlag :=
  t ← threads s !! i;
  '(t, state, events) ← thread_step i t (mState s);
  Some (mkFlag state (<[i := t]> (threads s)) (events ++ trace s)).

Fixpoint turns (schedule : list nat) (s : OnceFlag) : option OnceFlag :=
  match schedule with
  | [] => Some s
  | i :: schedule => s ← turn i s; turns schedule s
  end.

Definition start (programs : list (list op)) : OnceFlag := mkFlag NeverCalled (mkThread Outside <$> programs) [].
Definition reachable (programs : list (list op)) (s : OnceFlag) : Prop := exists schedule, turns schedule (start programs) = Some s.

Fixpoint begun (l : list event) : nat := match l with [] => 0 | Began _ :: l => S (begun l) | _ :: l => begun l end.
Fixpoint ended (l : list event) : nat := match l with [] => 0 | Ended _ :: l => S (ended l) | _ :: l => ended l end.
Fixpoint resets (l : list event) : nat := match l with [] => 0 | WasReset _ :: l => S (resets l) | _ :: l => resets l end.
(** Every return comes when as many runs have ended as began, one more than the resets. *)
Fixpoint returns_after_run (l : list event) : Prop :=
  match l with
  | [] => True
  | Returned _ _ :: l => ended l = S (resets l) /\ begun l = ended l /\ returns_after_run l
  | _ :: l => returns_after_run l
  end.

Definition busy (t : thread) : Prop := at_ t = Inside \/ at_ t = Leaving.
Definition idle_but (i : nat) (ts : list thread) : Prop := forall j u, j <> i -> ts !! j = Some u -> ~ busy u.
Definition thread_ok (t : thread) : Prop := at_ t <> Outside -> head (todo t) = Some Call.

Record flag_ok (s : OnceFlag) : Prop := {
  f_threads : Forall thread_ok (threads s);
  f_begun : begun (trace s) = resets (trace s) + (if bool_decide (mState s = NeverCalled) then 0 else 1);
  f_idle : mState s <> InProcess -> begun (trace s) = ended (trace s) /\ forall j u, threads s !! j = Some u -> ~ busy u;
  f_busy : mState s = InProcess -> exists i t, threads s !! i = Some t /\ idle_but i (threads s) /\
    (at_ t = Inside /\ begun (trace s) = S (ended (trace s)) \/ at_ t = Leaving /\ begun (trace s) = ended (trace s));
  f_returns : returns_after_run (trace s)
}.

Lemma once_start_ok (programs : list (list op)) : flag_ok (start programs).
Proof.
  assert (H : forall j u, threads (start programs) !! j = Some u -> at_ u = Outside).
  { intros j u Hj. cbn [start threads] in Hj. rewrite list_lookup_fmap in Hj. by apply fmap_Some in Hj as (p & _ & ->). }
  split; cbn [mState trace start]; [|done| |done|done].
  - apply Forall_lookup. intros j u Hj Hu. by destruct Hu; apply (H j).
  - intros _. split; [done|]. intros j u Hj [Hu|Hu]; rewrite (H j u Hj) in Hu; done.
Qed.

Lemma idle_insert (i : nat) (ts : list thread) (t : thread) : idle_but i ts -> idle_but i (<[i := t]> ts).
Proof. intros H j u Hj. rewrite list_lookup_insert_ne by done. by apply H. Qed.
Lemma idle_all (i : nat) (ts : list thread) (t : thread) : i < length ts -> ~ busy t -> idle_but i ts -> forall j u, <[i := t]> ts !! j = Some u -> ~ busy u.
Proof.
  intros Hl Ht H j u. destruct (decide (j = i)) as [->|Hj]; [|rewrite list_lookup_insert_ne by done; by apply H].
  rewrite list_lookup_insert_eq by done. by intros [= <-].
Qed.

(** The thread that is busy is the one that takes the turn, when it is busy. *)
Lemma busy_one (i : nat) (s : OnceFlag) (t : thread) : flag_ok s -> threads s !! i = Some t -> busy t ->
  mState s = InProcess /\ idle_but i (threads s) /\
  (at_ t = Inside /\ begun (trace s) = S (ended (trace s)) \/ at_ t = Leaving /\ begun (trace s) = ended (trace s)).
Proof.
  intros Hs Hi Ht. destruct (decide (mState s = InProcess)) as [E|E]; [|by destruct (proj2 (f_idle s Hs E) i t)].
  split; [done|]. destruct (f_busy s Hs E) as (j & u & Hj & Hn & Hu). destruct (decide (i = j)) as [->|Hij]; [by simplify_eq|].
  by destruct (Hn i t).
Qed.
Lemma others_idle (i : nat) (s : OnceFlag) : flag_ok s -> mState s <> InProcess -> idle_but i (threads s).
Proof. intros Hs E j u _ Hj. by apply (proj2 (f_idle s Hs E) j). Qed.

(** A turn of a thread that is not busy, while the function may be running elsewhere *)
Lemma quiet_turn (i : nat) (s : OnceFlag) (t t' : thread) (events : list event) :
  flag_ok s -> threads s !! i = Some t -> ~ busy t -> ~ busy t' -> thread_ok t' ->
  (events = [] \/ mState s = Done /\ exists ran, events = [Returned i ran]) ->
  flag_ok (mkFlag (mState s) (<[i := t']> (threads s)) (events ++ trace s)).
Proof.
  intros Hs Hi Hb Hb' Hok He. destruct Hs as [H1 H2 H3 H4 H5]. pose proof (lookup_lt_Some _ _ _ Hi) as Hl.
  assert (Hc : begun (events ++ trace s) = begun (trace s) /\ ended (events ++ trace s) = ended (trace s) /\ resets (events ++ trace s) = resets (trace s)).
  { by destruct He as [->|(_ & ran & ->)]. }
  destruct Hc as (Eb & Ee & Er). split; cbn [mState threads trace]; rewrite ?Eb, ?Ee, ?Er; [by apply Forall_insert|done| | |].
  - intros E. destruct (H3 E) as [Hbe Hn]. split; [done|]. apply (idle_all i); [done|done|]. intros j u _. by apply Hn.
  - intros E. destruct (H4 E) as (j & u & Hj & Hn & Hu). assert (Hij : i <> j).
    { intros ->. simplify_eq. apply Hb. destruct Hu as [[? _]|[? _]]; [by left|by right]. }
    exists j, u. rewrite list_lookup_insert_ne by done. split_and!; [done| |done]. intros k v Hk.
    destruct (decide (k = i)) as [->|]; [rewrite list_lookup_insert_eq by done; by intros [= <-]|].
    rewrite list_lookup_insert_ne by done. by apply Hn.
  - destruct He as [->|(E & ran & ->)]; [done|]. cbn. rewrite E, bool_decide_false in H2 by done.
    destruct (H3 ltac:(by rewrite E)) as [Hbe _]. split_and!; [lia|done|done].
Qed.

Lemma once_turn_ok (i : nat) (s s' : OnceFlag) : flag_ok s -> turn i s = Some s' -> flag_ok s'.
Proof.
  intros Hs E. unfold turn in E. destruct (threads s !! i) as [t|] eqn:Hi; [|done]. cbn [mbind option_bind] in E.
  destruct (thread_step i t (mState s)) as [[[t' state] events]|] eqn:Es; [|done]. cbn in E. simplify_eq.
  pose proof (lookup_lt_Some _ _ _ Hi) as Hl. pose proof (proj1 (Forall_lookup _ _) (f_threads s Hs) i t Hi) as Hok.
  unfold thread_step in Es. destruct (todo t) as [|[] rest] eqn:Et; [done| |].
  - destruct (at_ t) eqn:Ea.
    + unfold enter in Es. destruct (bool_decide (mState s = NeverCalled)) eqn:En; cbn in Es; simplify_eq.
      * apply bool_decide_eq_true in En. destruct (f_idle s Hs ltac:(by rewrite En)) as [Hbe Hn].
        pose proof (f_begun s Hs) as Hb. rewrite En, bool_decide_true in Hb by done. split; cbn [mState threads trace app begun ended resets returns_after_run].
        -- apply Forall_insert; [apply (f_threads s Hs)|]. intros _. cbn. by rewrite ?Et.
        -- rewrite bool_decide_false by done. lia.
        -- done.
        -- intros _. exists i, (mkThread Inside (todo t)). rewrite Et. rewrite list_lookup_insert_eq by done.
           split_and!; [done|apply idle_insert; intros j u _; by apply Hn|left; split; [done|lia]].
        -- apply (f_returns s Hs).
      * apply (quiet_turn i s t); [done|done|intros [?|?]; congruence|by intros [?|?]|intros _; cbn; by rewrite ?Et|by left].
    + unfold wait in Es. destruct (bool_decide (mState s = Done)) eqn:En; cbn in Es; simplify_eq.
      * apply bool_decide_eq_true in En. apply (quiet_turn i s t _ [_]); try done; [intros [?|?]; congruence|by intros [?|?]|by intros []|right; split; [done|by exists false]].
      * apply (quiet_turn i s t); [done|done|intros [?|?]; congruence|by intros [?|?]|intros _; cbn; by rewrite ?Et|by left].
    + simplify_eq. destruct (busy_one i s t Hs Hi ltac:(by left)) as (Em & Hn & [[_ Hbe]|[? _]]); [|congruence].
      pose proof (f_begun s Hs) as Hb. split; cbn [mState threads trace app begun ended resets returns_after_run]; [|done|done| |apply (f_returns s Hs)].
      * apply Forall_insert; [apply (f_threads s Hs)|]. intros _. cbn. by rewrite ?Et.
      * intros _. eexists i, _. rewrite list_lookup_insert_eq by done. split_and!; [done|by apply idle_insert|by right].
    + simplify_eq. destruct (busy_one i s t Hs Hi ltac:(by right)) as (Em & Hn & [[? _]|[_ Hbe]]); [congruence|].
      pose proof (f_begun s Hs) as Hb. rewrite Em, bool_decide_false in Hb by done.
      split; cbn [mState threads trace app begun ended resets returns_after_run leave]; [|rewrite bool_decide_false by done; lia| |done|].
      * apply Forall_insert; [apply (f_threads s Hs)|by intros []].
      * intros _. split; [done|]. apply (idle_all i); [done|by intros [?|?]|done].
      * split_and!; [lia|done|apply (f_returns s Hs)].
  - assert (Hnb : ~ busy t). { intros [E|E]; specialize (Hok ltac:(congruence)); by rewrite Et in Hok. }
    unfold reset in Es. destruct (bool_decide (mState s = Done)) eqn:En; simplify_eq.
    + apply bool_decide_eq_true in En. destruct (f_idle s Hs ltac:(by rewrite En)) as [Hbe Hn].
      pose proof (f_begun s Hs) as Hb. rewrite En, bool_decide_false in Hb by done.
      split; cbn [mState threads trace app begun ended resets returns_after_run]; [|rewrite bool_decide_true by done; lia| |done|apply (f_returns s Hs)].
      * apply Forall_insert; [apply (f_threads s Hs)|by intros []].
      * intros _. split; [done|]. apply (idle_all i); [done|by intros [?|?]|]. intros j u _. by apply Hn.
    + apply (quiet_turn i s t); [done|done|done|by intros [?|?]|by intros []|by left].
Qed.

Lemma once_turns_ok (schedule : list nat) (s s' : OnceFlag) : flag_ok s -> turns schedule s = Some s' -> flag_ok s'.
Proof.
  revert s. induction schedule as [|i schedule IH]; intros s Hs E; cbn in E; [by simplify_eq|].
  destruct (turn i s) as [s1|] eqn:Et; [|done]. cbn in E. by apply (IH s1); [apply (once_turn_ok i s)|].
Qed.
Lemma once_turns_app (l1 l2 : list nat) (s s1 : OnceFlag) : turns l1 s = Some s1 -> turns (l1 ++ l2) s = turns l2 s1.
Proof.
  revert s. induction l1 as [|i l1 IH]; intros s E; cbn in *; [by simplify_eq|]. destruct (turn i s) as [s2|]; [|done]. cbn in *. by apply IH.
Qed.

(** ** Progress, while nobody resets *)
Definition no_reset (s : OnceFlag) : Prop :=
  Forall (fun t => Forall (eq Call) (todo t)) (threads s) /\
  (mState s = NeverCalled -> Forall (fun t => at_ t = Outside) (threads s)).
Definition remaining (ts : list thread) : nat := sum_list (length ∘ todo <$> ts).

Lemma once_remaining_insert (i : nat) (ts : list thread) (t : thread) (rest : list op) : ts !! i = Some t -> todo t = Call :: rest ->
  remaining ts = S (remaining (<[i := mkThread Outside rest]> ts)).
Proof.
  intros Hi Ht. revert i Hi. unfold remaining. induction ts as [|u ts IH]; intros [|i] Hi; simplify_eq/=; [by rewrite Ht|]. rewrite (IH i) by done. lia.
Qed.

Lemma once_turn_of (i : nat) (s : OnceFlag) (t : thread) : threads s !! i = Some t ->
  turn i s = '(t, state, events) ← thread_step i t (mState s); Some (mkFlag state (<[i := t]> (threads s)) (events ++ trace s)).
Proof. intros Hi. unfold turn. by rewrite Hi. Qed.

Lemma no_reset_insert (i : nat) (s : OnceFlag) (a : place) (l : list op) (state : State) (tr : list event) :
  no_reset s -> Forall (eq Call) l -> (state = NeverCalled -> mState s = NeverCalled /\ a = Outside) ->
  no_reset (mkFlag state (<[i := mkThread a l]> (threads s)) tr).
Proof.
  intros [H1 H2] Hl Ha. split; cbn; [by apply Forall_insert|]. intros E. destruct (Ha E) as [Hm Hp]. apply Forall_insert; [by apply H2|done].
Qed.

Lemma turn_no_reset (i : nat) (s s' : OnceFlag) : no_reset s -> turn i s = Some s' -> no_reset s'.
Proof.
  intros Hs E. unfold turn in E. destruct (threads s !! i) as [[a l]|] eqn:Hi; [|done]. cbn in E.
  pose proof (proj1 (Forall_lookup _ _) (proj1 Hs) i _ Hi) as Hl. cbn in Hl. unfold thread_step in E. cbn in E.
  destruct l as [|o l]; [done|]. apply Forall_cons in Hl as [<- Hl].
  assert (Ho : mState s = NeverCalled -> a = Outside) by (intros Em; by apply (proj1 (Forall_lookup _ _) (proj2 Hs Em) i _ Hi)).
  destruct a; cbn in E; unfold enter, wait, leave in E; repeat case_bool_decide; simplify_eq/=;
    apply no_reset_insert; try done; try (by constructor); intros Hn; simplify_eq; try congruence; by specialize (Ho Hn).
Qed.

(** A call that may only take its next step *)
Lemma only_calls (i : nat) (s : OnceFlag) (t : thread) : no_reset s -> threads s !! i = Some t -> todo t <> [] -> exists l, todo t = Call :: l.
Proof.
  intros [Hc _] Hi Ht. pose proof (proj1 (Forall_lookup _ _) Hc i t Hi) as H. cbn in H.
  destruct (todo t) as [|o l]; [done|]. apply Forall_cons in H as [<- _]. by exists l.
Qed.
Lemma busy_calls (i : nat) (s : OnceFlag) (t : thread) : flag_ok s -> no_reset s -> threads s !! i = Some t -> at_ t <> Outside -> exists l, todo t = Call :: l.
Proof.
  intros Hs Hn Hi Ha. apply (only_calls i s t Hn Hi). pose proof (proj1 (Forall_lookup _ _) (f_threads s Hs) i t Hi Ha) as H. by destruct (todo t).
Qed.

Definition call_over (s : OnceFlag) (schedule : list nat) : Prop := exists s', turns schedule s = Some s' /\ remaining (threads s) = S (remaining (threads s')).

Lemma over_now (i : nat) (s : OnceFlag) (t : thread) (l : list op) (state : State) (e : list event) :
  threads s !! i = Some t -> todo t = Call :: l -> thread_step i t (mState s) = Some (mkThread Outside l, state, e) -> call_over s [i].
Proof.
  intros Hi Ht E. eexists. split; [cbn [turns]; rewrite (once_turn_of i s t Hi), E; done|]. by apply (once_remaining_insert i _ t).
Qed.
Lemma over_later (i : nat) (s : OnceFlag) (t : thread) (a : place) (state : State) (e : list event) (schedule : list nat) :
  threads s !! i = Some t -> thread_step i t (mState s) = Some (mkThread a (todo t), state, e) ->
  call_over (mkFlag state (<[i := mkThread a (todo t)]> (threads s)) (e ++ trace s)) schedule -> call_over s (i :: schedule).
Proof.
  intros Hi E (s' & E' & Hr). exists s'. split; [cbn [turns]; rewrite (once_turn_of i s t Hi), E; done|]. rewrite <- Hr. unfold remaining. cbn [threads]. f_equal.
  rewrite list_fmap_insert. symmetry. apply list_insert_id. by rewrite list_lookup_fmap, Hi.
Qed.

Lemma over_from (i : nat) (s : OnceFlag) (a : place) (l : list op) : threads s !! i = Some (mkThread a (Call :: l)) ->
  match a with Leaving => call_over s [i] | Inside => call_over s [i; i] | Waiting => mState s = Done -> call_over s [i]
  | Outside => (mState s = NeverCalled -> call_over s [i; i; i]) /\ (mState s = Done -> call_over s [i; i]) end.
Proof.
  intros Hi. pose proof (lookup_lt_Some _ _ _ Hi) as Hl.
  assert (Hleave : forall s, threads s !! i = Some (mkThread Leaving (Call :: l)) -> call_over s [i]) by (intros s0 H; by eapply over_now).
  assert (Hin : forall s, i < length (threads s) -> threads s !! i = Some (mkThread Inside (Call :: l)) -> call_over s [i; i]).
  { intros s0 Hl0 H. eapply over_later; [done|done|]. apply Hleave. by apply list_lookup_insert_eq. }
  assert (Hwait : forall s, threads s !! i = Some (mkThread Waiting (Call :: l)) -> mState s = Done -> call_over s [i]).
  { intros s0 H E. eapply over_now; [done|done|]. unfold thread_step, wait. cbn. by rewrite E, bool_decide_true. }
  destruct a; [split; intros E|by apply Hwait|by apply Hin|by apply Hleave].
  - eapply over_later; [done|unfold thread_step, enter; cbn; by rewrite E, bool_decide_true|].
    apply Hin; [cbn [threads]; by rewrite length_insert|by apply list_lookup_insert_eq].
  - eapply over_later; [done|unfold thread_step, enter; cbn; by rewrite E, bool_decide_false|].
    apply Hwait; [by apply list_lookup_insert_eq|done].
Qed.

(** Some call that is left ends within three turns. *)
Lemma call_ends (s : OnceFlag) : flag_ok s -> no_reset s -> remaining (threads s) <> 0 -> exists schedule, length schedule <= 3 /\ call_over s schedule.
Proof.
  intros Hs Hn Hr.
  assert (Hsome : exists i t l, threads s !! i = Some t /\ todo t = Call :: l).
  { destruct (decide (Forall (fun t => todo t = []) (threads s))) as [Hf|Hf].
    - destruct Hr. unfold remaining. clear -Hf. induction Hf as [|t ts Ht _ IH]; [done|]. cbn. by rewrite Ht, IH.
    - apply not_Forall_Exists in Hf; [|intros t; apply _]. apply Exists_exists in Hf as (t & Hin & Ht). apply list_elem_of_lookup in Hin as [i Hi].
      destruct (only_calls i s t Hn Hi Ht) as [l El]. by exists i, t, l. }
  destruct Hsome as (i & [a l0] & l & Hi & Ht). cbn in Ht. subst l0. pose proof (over_from i s a l Hi) as H. destruct (mState s) eqn:Em.
  - assert (Ea : a = Outside) by (by apply (proj1 (Forall_lookup _ _) (proj2 Hn Em) i _ Hi)). subst a. exists [i; i; i]. split; [done|by apply H].
  - destruct (f_busy s Hs Em) as (j & [b l0] & Hj & _ & Hb). assert (Hb' : b = Inside \/ b = Leaving) by (destruct Hb as [[? _]|[? _]]; [by left|by right]).
    destruct (busy_calls j s _ Hs Hn Hj) as [l' El]; [by destruct Hb' as [-> | ->]|]. cbn in El. subst l0. pose proof (over_from j s b l' Hj) as H'.
    destruct Hb' as [-> | ->]; [exists [j; j]|exists [j]]; (split; [cbn; lia|done]).
  - destruct a; [exists [i; i]|exists [i]|exists [i; i]|exists [i]]; (split; [cbn; lia|]); [by apply H|by apply H|done|done].
Qed.

Lemma turns_no_reset (schedule : list nat) (s s' : OnceFlag) : no_reset s -> turns schedule s = Some s' -> no_reset s'.
Proof.
  revert s. induction schedule as [|i schedule IH]; intros s Hs E; cbn in E; [by simplify_eq|].
  destruct (turn i s) as [s1|] eqn:Et; [|done]. cbn in E. by apply (IH s1); [apply (turn_no_reset i s)|].
Qed.

Lemma all_return (s : OnceFlag) : flag_ok s -> no_reset s ->
  exists schedule s', length schedule <= 3 * remaining (threads s) /\ turns schedule s = Some s' /\ remaining (threads s') = 0.
Proof.
  remember (remaining (threads s)) as n eqn:En. revert s En. induction n as [n IH] using lt_wf_ind; intros s -> Hs Hn.
  destruct (decide (remaining (threads s) = 0)) as [E0|E0]; [exists [], s; by split_and!; [cbn; lia|done|]|].
  destruct (call_ends s Hs Hn E0) as (l1 & Hl1 & s1 & E1 & Hr).
  destruct (IH (remaining (threads s1)) ltac:(lia) s1 eq_refl (once_turns_ok _ _ _ Hs E1) (turns_no_reset _ _ _ Hn E1)) as (l2 & s2 & Hl2 & E2 & Hf).
  exists (l1 ++ l2), s2. split_and!; [rewrite length_app; lia|by rewrite (once_turns_app _ _ _ _ E1)|done].
Qed.

(** Exactly once: however many threads call and reset, the function has begun once more than
    the flag was reset, or as often while it is [NeverCalled]; at most one thread is in it,
    while the flag is [InProcess]; and no call returns before the run it is about is over.
    When nobody resets, every call returns, three turns for each. *)
Theorem once_correct (programs : list (list op)) (s : OnceFlag) : reachable programs s ->
  begun (trace s) = resets (trace s) + (if bool_decide (mState s = NeverCalled) then 0 else 1) /\
  (forall i j t u, threads s !! i = Some t -> threads s !! j = Some u -> busy t -> busy u -> i = j /\ mState s = InProcess) /\
  returns_after_run (trace s) /\
  (Forall (Forall (eq Call)) programs ->
    exists schedule s', length schedule <= 3 * remaining (threads s) /\ turns schedule s = Some s' /\ remaining (threads s') = 0).
Proof.
  intros [schedule E]. pose proof (once_turns_ok _ _ _ (once_start_ok programs) E) as Hs.
  split_and!; [apply (f_begun s Hs)| |apply (f_returns s Hs)|].
  - intros i j t u Hi Hj Ht Hu. destruct (busy_one i s t Hs Hi Ht) as (Em & Hn & _). split; [|done].
  destruct (decide (i = j)) as [|Hij]; [done|]. by destruct (Hn j u).
  - intros Hp. apply all_return; [done|]. apply (turns_no_reset schedule (start programs)); [|done].
    split; cbn [start threads]; [apply Forall_fmap; exact Hp|]. intros _. apply Forall_fmap. by apply Forall_true.
Qed.

(** A reset while another call still waits leaves that call waiting, until somebody calls
    again. *)
Definition resetting : list (list op) := [[Call; Reset]; [Call]].
Theorem reset_strands_waiter : exists s, turns [0; 1; 0; 0; 0] (start resetting) = Some s /\ turn 0 s = None /\ forall n, exists s', turns (replicate n 1) s = Some s' /\ remaining (threads s') = 1.
Proof.
  eexists. split; [done|]. split; [done|]. intros n. eexists. split; [|shelve]. induction n as [|n IH]; [done|exact IH]. Unshelve. done.
Qed.

Definition three_calls : list (list op) := [[Call; Call]; [Call]; [Call; Reset]].
Lemma once_correct_witness : exists s, reachable three_calls s /\ mState s = NeverCalled /\ begun (trace s) = resets (trace s) + 0 /\ returns_after_run (trace s).
Proof.
  destruct (turns [0; 1; 2; 0; 0; 1; 2; 2] (start three_calls)) as [s|] eqn:E; [|done]. exists s.
  assert (Hr : reachable three_calls s) by by exists [0; 1; 2; 0; 0; 1; 2; 2]. pose proof (once_correct three_calls s Hr) as (H & _ & Hret & _).
  assert (Em : mState s = NeverCalled) by by vm_compute in E; simplify_eq. rewrite Em, bool_decide_true in H by done. done.
Defined.
