(* ===== verification/Semaphore.v ===== *)
(** * Semaphores

    Models [CountingSemaphore] of [src/cxxkit/thread/semaphore.hpp]: a count under a mutex and
    a condition variable. What a thread does while it holds the mutex is one turn; a thread
    in a wait sleeps until a notification, a spurious wake-up or its deadline, and then looks
    again. *)

From stdpp Require Import prelude list.
From Stdlib Require Import ZArith Lia.
From S2P Require Import Prelude.

#[local] Open Scope Z_scope.

(** What lets a thread go on: it runs, its wait ends for no reason, or at its deadline *)
Inductive cause := Go | Spurious | TimeOut.

(** A turn that a thread may not take is [Blocked]; a failed assertion is [Failed]. *)
Inductive outcome (A : Type) := Moved (a : A) | Blocked | Failed.
Arguments Moved {A} _.
Arguments Blocked {A}.
Arguments Failed {A}.

Section Semaphore.
Context (LeastMaxValue : Z).

Inductive op := Acquire (n : Z) | TryAcquire (n : Z) | TryAcquireFor (n : Z) | Release (update : Z).
Inductive place := Outside | Asleep | Woken.
Record thread := mkThread { at_ : place; todo : list op }.
Inductive event := Acquired (n : Z) | Refused (n : Z) | Released (n : Z).
Record CountingSemaphore := mkSemaphore { mCount : Z; threads : list thread; trace : list event }.

(** What a turn does to its thread: the place, or the end of the call with what happened *)
Inductive progress := Stays (at_ : place) | Ends (mCount : Z) (e : event) | CannotMove | Asserts.

Definition take (n mCount : Z) : progress := Ends (mCount - n) (Acquired n).
(** A wait for [n]: the condition is tested before it sleeps and whenever it wakes. *)
Definition wait_for (n mCount : Z) : progress := if n <=? mCount then take n mCount else Stays Asleep.

Definition acquire (n : Z) (at_ : place) (c : cause) (mCount : Z) : progress :=
  match at_, c with
  | Asleep, Spurious => Stays Woken
  | Outside, Go | Woken, Go => wait_for n mCount
  | _, _ => CannotMove
  end.
Definition try_acquire (n mCount : Z) : progress := if mCount <? n then Ends mCount (Refused n) else take n mCount.
Definition try_acquire_wait (n : Z) (at_ : place) (c : cause) (mCount : Z) : progress :=
  match at_, c with
  | Asleep, Spurious => Stays Woken
  | Outside, Go | Woken, Go => wait_for n mCount
  | Asleep, TimeOut | Woken, TimeOut => if n <=? mCount then take n mCount else Ends mCount (Refused n)
  | _, _ => CannotMove
  end.
Definition release (update mCount : Z) : progress :=
  if (0 <=? update) && (update <=? LeastMaxValue - mCount) then Ends (mCount + update) (Released update) else Asserts.

Definition perform (o : op) (at_ : place) (c : cause) (mCount : Z) : progress :=
  match o, at_, c with
  | Acquire n, _, _ => acquire n at_ c mCount
  | TryAcquireFor n, _, _ => try_acquire_wait n at_ c mCount
  | TryAcquire n, Outside, Go => try_acquire n mCount
  | Release update, Outside, Go => release update mCount
  | _, _, _ => CannotMove
  end.

Definition wake (t : thread) : thread := match at_ t with Asleep => mkThread Woken (todo t) | _ => t end.
Definition notified (e : event) (ts : list thread) : list thread := match e with Released _ => wake <$> ts | _ => ts end.

Definition turn (i : nat) (c : cause) (s : CountingSemaphore) : outcome CountingSemaphore :=
  match threads s !! i with
  | Some (mkThread at_ (o :: rest)) =>
      match perform o at_ c (mCount s) with
      | Stays at_ => Moved (mkSemaphore (mCount s) (<[i := mkThread at_ (o :: rest)]> (threads s)) (trace s))
      | Ends mCount e => Moved (mkSemaphore mCount (<[i := mkThread Outside rest]> (notified e (threads s))) (e :: trace s))
      | CannotMove => Blocked
      | Asserts => Failed
      end
  | _ => Blocked
  end.

Definition start (desired : Z) (programs : list (list op)) : CountingSemaphore := mkSemaphore desired (mkThread Outside <$> programs) [].

Inductive reachable (desired : Z) (programs : list (list op)) : CountingSemaphore -> Prop :=
  | reach_start : reachable desired programs (start desired programs)
  | reach_turn s s' i c : reachable desired programs s -> turn i c s = Moved s' -> reachable desired programs s'.

(** What went in and out *)
Definition flow (e : event) : Z := match e with Acquired n => - n | Refused _ => 0 | Released n => n end.
Definition balance (l : list event) : Z := foldr (fun e z => flow e + z) 0 l.

Definition wants (o : op) : Z := match o with Acquire n | TryAcquire n | TryAcquireFor n | Release n => n end.
Definition reasonable (o : op) : Prop := 0 <= wants o.

(** A thread that sleeps wants more than there is. *)
Definition thread_ok (count : Z) (t : thread) : Prop :=
  Forall reasonable (todo t) /\
  match at_ t with
  | Outside => True
  | Woken => exists n rest, todo t = Acquire n :: rest \/ todo t = TryAcquireFor n :: rest
  | Asleep => exists n rest, count < n /\ (todo t = Acquire n :: rest \/ todo t = TryAcquireFor n :: rest)
  end.

Record semaphore_ok (desired : Z) (s : CountingSemaphore) : Prop := {
  s_threads : Forall (thread_ok (mCount s)) (threads s);
  s_count : mCount s = desired + balance (trace s);
  s_range : 0 <= mCount s <= LeastMaxValue
}.

Lemma sem_start_ok (desired : Z) (programs : list (list op)) :
  0 <= desired <= LeastMaxValue -> Forall (Forall reasonable) programs -> semaphore_ok desired (start desired programs).
Proof.
  intros Hd Hp. split; cbn; [|lia|done]. apply Forall_fmap. eapply Forall_impl; [exact Hp|]. by intros p H.
Qed.

Lemma thread_less (count count' : Z) (t : thread) : count' <= count -> thread_ok count t -> thread_ok count' t.
Proof. intros Hle [H1 H2]. split; [done|]. destruct (at_ t); [done| |done]. destruct H2 as (n & rest & Hn & H2). exists n, rest. split; [lia|done]. Qed.
Lemma thread_woken (count count' : Z) (t : thread) : thread_ok count t -> thread_ok count' (wake t).
Proof.
  intros [H1 H2]. unfold wake. destruct t as [[] l]; cbn in *; (split; [done|]); cbn; [done| |done].
  destruct H2 as (n & rest & _ & H2). by exists n, rest.
Qed.

(** What a turn may do *)
Lemma sem_perform_spec (o : op) (at_ : place) (c : cause) (count : Z) (rest : list op) :
  0 <= count <= LeastMaxValue -> thread_ok count (mkThread at_ (o :: rest)) ->
  match perform o at_ c count with
  | Stays at_ => thread_ok count (mkThread at_ (o :: rest))
  | Ends count' e => count' = count + flow e /\ 0 <= count' <= LeastMaxValue /\ match e with Released _ => True | _ => count' <= count end
  | CannotMove => True
  | Asserts => exists n, o = Release n /\ LeastMaxValue < count + n
  end.
Proof.
  intros Hc [Hr Hat]. apply Forall_cons in Hr as Hr'. destruct Hr' as [Ho Hrest]. unfold reasonable in Ho. cbn [todo] in *.
  destruct o as [n|n|n|n], at_, c; cbn in *; unfold wait_for, take, try_acquire, release, take; repeat case_match; simplify_eq; zbool; try done; cbn;
    try (split_and!; lia); try (split; [done|]; cbn; first [exists n, rest; by left|exists n, rest; by right|exists n, rest; by split; [lia|left]|exists n, rest; by split; [lia|right]]).
  exists n. split; [done|lia].
Qed.

Lemma sem_turn_ok (desired : Z) (i : nat) (c : cause) (s s' : CountingSemaphore) : semaphore_ok desired s -> turn i c s = Moved s' -> semaphore_ok desired s'.
Proof.
  intros [Ht Hc Hr] E. unfold turn in E. destruct (threads s !! i) as [[a [|o rest]]|] eqn:Hi; [done| |done].
  pose proof (proj1 (Forall_lookup _ _) Ht i _ Hi) as Hok. pose proof (sem_perform_spec o a c (mCount s) rest Hr Hok) as Hp.
  assert (Hrest : forall count, thread_ok count (mkThread Outside rest)) by (intros; split; [by destruct Hok as [[_ ?]%Forall_cons _]|done]).
  destruct (perform o a c (mCount s)) as [a'|count e| |]; simplify_eq.
  - split; cbn; [by apply Forall_insert|done|done].
  - destruct Hp as (Hcount & Hrange & He). split; cbn [mCount trace threads]; [|change (balance (e :: trace s)) with (flow e + balance (trace s)); lia|done]. apply Forall_insert; [|done].
    destruct e; cbn [notified]; [by eapply Forall_impl; [exact Ht|]; intros t; apply thread_less|by eapply Forall_impl; [exact Ht|]; intros t; apply thread_less|].
    apply Forall_fmap. eapply Forall_impl; [exact Ht|]. intros t. apply thread_woken.
Qed.

Lemma sem_reached_ok (desired : Z) (programs : list (list op)) (s : CountingSemaphore) :
  0 <= desired <= LeastMaxValue -> Forall (Forall reasonable) programs -> reachable desired programs s -> semaphore_ok desired s.
Proof. intros Hd Hp Hr. induction Hr; [by apply sem_start_ok|by eapply sem_turn_ok]. Qed.

(** C32: Conservation and no lost wake-up: what is available is what there was at first and was
    released since, less what was acquired, and never negative or above the maximum; an
    assertion fails only for a release above it. When no thread can go on, each one that is
    not done sleeps in a wait for more than is available. *)
Theorem semaphore_correct (desired : Z) (programs : list (list op)) (s : CountingSemaphore) :
  0 <= desired <= LeastMaxValue -> Forall (Forall reasonable) programs -> reachable desired programs s ->
  mCount s = desired + balance (trace s) /\ 0 <= mCount s <= LeastMaxValue /\
  (forall i c, turn i c s = Failed -> exists t n rest, threads s !! i = Some t /\ todo t = Release n :: rest /\ LeastMaxValue < mCount s + n) /\
  ((forall i, turn i Go s = Blocked \/ turn i Go s = Failed) -> forall i t o rest, threads s !! i = Some t -> todo t = o :: rest ->
    mCount s < wants o \/ exists n, o = Release n /\ LeastMaxValue < mCount s + n).
Proof.
  intros Hd Hp Hr. destruct (sem_reached_ok desired programs s Hd Hp Hr) as [Ht Hc Hrange]. split_and!; [done|lia|lia| |].
  - intros i c E. unfold turn in E. destruct (threads s !! i) as [[a [|o rest]]|] eqn:Hi; [done| |done].
    pose proof (sem_perform_spec o a c (mCount s) rest Hrange (proj1 (Forall_lookup _ _) Ht i _ Hi)) as Hs.
    destruct (perform o a c (mCount s)); simplify_eq. destruct Hs as (n & -> & Hn). by exists (mkThread a (Release n :: rest)), n, rest.
  - intros Hstuck i [a l] o rest Hi Hl. cbn in Hl. subst l. specialize (Hstuck i). unfold turn in Hstuck. rewrite Hi in Hstuck.
    pose proof (sem_perform_spec o a Go (mCount s) rest Hrange (proj1 (Forall_lookup _ _) Ht i _ Hi)) as Hs.
    destruct (perform o a Go (mCount s)) as [| | |] eqn:E; [by destruct Hstuck|by destruct Hstuck| |by right]. left.
    destruct (proj1 (Forall_lookup _ _) Ht i _ Hi) as [_ Hok]. cbn in Hok.
    destruct o, a; cbn in E; unfold wait_for, try_acquire, release in E; repeat case_match; try done;
      destruct Hok as (n' & rest' & Hn); try destruct Hn as (Hn & [?|?]); try destruct Hn as [?|?]; simplify_eq/=; done.
Qed.
End Semaphore.

Definition pair_of : list (list op) := [[Acquire 2; Release 1]; [Release 1; TryAcquireFor 5]; [TryAcquire 1; Acquire 1; Release 2]].
Fixpoint run_turns (l : list (nat * cause)) (s : CountingSemaphore) : outcome CountingSemaphore :=
  match l with [] => Moved s | (i, c) :: l => match turn 3 i c s with Moved s => run_turns l s | o => o end end.
Lemma turns_reach (l : list (nat * cause)) (desired : Z) (programs : list (list op)) (s s' : CountingSemaphore) :
  reachable 3 desired programs s -> run_turns l s = Moved s' -> reachable 3 desired programs s'.
Proof.
  revert s. induction l as [|[i c] l IH]; intros s Hr E; cbn in E; [by simplify_eq|].
  destruct (turn 3 i c s) as [s1| |] eqn:Et; [|done|done]. apply (IH s1); [by eapply reach_turn|done].
Qed.
Definition some_turns : list (nat * cause) := [(0, Go); (2, Go); (0, Spurious); (1, Go); (0, Go); (1, Go); (2, Go)]%nat.
Lemma semaphore_correct_witness : exists s, reachable 3 1 pair_of s /\ mCount s = 1 + balance (trace s) /\ 0 <= mCount s <= 3.
Proof.
  destruct (run_turns some_turns (start 1 pair_of)) as [s| |] eqn:E; [|done|done]. exists s.
  assert (Hr : reachable 3 1 pair_of s) by (apply (turns_reach some_turns 1 pair_of (start 1 pair_of)); [apply reach_start|done]).
  split; [done|]. destruct (semaphore_correct 3 1 pair_of s) as (H1 & H2 & _); [lia|by repeat constructor|done|done].
Defined.
