(* ===== verification/Barrier.v ===== *)
(** * Barriers

    Models [src/cxxkit/thread/barrier.hpp]: counts under a mutex and a condition variable.
    What a thread does while it holds the mutex is one turn; a thread in a wait sleeps until
    a notification or a spurious wake-up, and then looks again. *)

From stdpp Require Import prelude list.
From Stdlib Require Import ZArith Lia.
From S2P Require Import Prelude.

#[local] Open Scope Z_scope.

(** What lets a thread go on: it runs, or its wait ends for no reason *)
Inductive cause := Go | Spurious.
#[local] Open Scope nat_scope.

Inductive op := ArriveAndWait | ArriveAndDrop.
#[export] Instance op_eq_dec : EqDecision op.
Proof. solve_decision. Defined.
(** A thread in the wait has the phase that it found. *)
Inductive place := Outside | Asleep (current_phase : Z) | Woken (current_phase : Z).
Record thread := mkThread { at_ : place; todo : list op; arrivals : nat }.
Record Barrier := mkBarrier { mNumThreads : Z; mCount : Z; mPhase : Z; threads : list thread }.

Definition wake (t : thread) : thread := match at_ t with Asleep p => mkThread (Woken p) (todo t) (arrivals t) | _ => t end.

(** The last to arrive opens the barrier. *)
Definition open_barrier (s : Barrier) : Barrier := mkBarrier (mNumThreads s) (mNumThreads s) (wrap 64 (mPhase s + 1)) (wake <$> threads s).
Definition with_thread (s : Barrier) (i : nat) (t : thread) : Barrier := mkBarrier (mNumThreads s) (mCount s) (mPhase s) (<[i := t]> (threads s)).

(** [arrivals] counts the calls of a thread. *)
Definition arrive_and_wait (i : nat) (rest : list op) (arrivals : nat) (s : Barrier) : Barrier :=
  let current_phase := mPhase s in
  let s := mkBarrier (mNumThreads s) (wrap 64 (mCount s - 1)) (mPhase s) (threads s) in
  if (mCount s =? 0)%Z then with_thread (open_barrier s) i (mkThread Outside rest (S arrivals))
  else with_thread s i (mkThread (Asleep current_phase) (ArriveAndWait :: rest) (S arrivals)).
Definition wait_again (i : nat) (current_phase : Z) (rest : list op) (arrivals : nat) (s : Barrier) : Barrier :=
  if (mPhase s =? current_phase)%Z then with_thread s i (mkThread (Asleep current_phase) (ArriveAndWait :: rest) arrivals)
  else with_thread s i (mkThread Outside rest arrivals).
Definition arrive_and_drop (i : nat) (rest : list op) (arrivals : nat) (s : Barrier) : Barrier :=
  let s := mkBarrier (wrap 64 (mNumThreads s - 1)) (wrap 64 (mCount s - 1)) (mPhase s) (threads s) in
  let s := if (mCount s =? 0)%Z then open_barrier s else s in
  with_thread s i (mkThread Outside rest (S arrivals)).

Definition turn (i : nat) (c : cause) (s : Barrier) : option Barrier :=
  match threads s !! i with
  | Some (mkThread Outside (ArriveAndWait :: rest) n) => match c with Go => Some (arrive_and_wait i rest n s) | _ => None end
  | Some (mkThread Outside (ArriveAndDrop :: rest) n) => match c with Go => Some (arrive_and_drop i rest n s) | _ => None end
  | Some (mkThread (Woken p) (ArriveAndWait :: rest) n) => match c with Go => Some (wait_again i p rest n s) | _ => None end
  | Some (mkThread (Asleep p) l n) => match c with Spurious => Some (with_thread s i (mkThread (Woken p) l n)) | _ => None end
  | _ => None
  end.

Fixpoint turns (schedule : list (nat * cause)) (s : Barrier) : option Barrier :=
  match schedule with
  | [] => Some s
  | (i, c) :: schedule => s ← turn i c s; turns schedule s
  end.

(** As many threads as the barrier expects, each of which waits some times and drops out *)
Definition program (waits : nat) : list op := replicate waits ArriveAndWait ++ [ArriveAndDrop].
Definition start (waits : list nat) : Barrier :=
  let n := Z.of_nat (length waits) in mkBarrier n n 0 ((fun w => mkThread Outside (program w) 0) <$> waits).
Definition reachable (waits : list nat) (s : Barrier) : Prop := exists schedule, turns schedule (start waits) = Some s.

(** ** The invariant *)

(** [round] counts the openings; a thread that is in has [round] arrivals, one more when it
    has arrived in this round. *)
Definition active (t : thread) : nat := match todo t with [] => 0 | _ => 1 end.
Definition missing (round : nat) (t : thread) : nat := match todo t with [] => 0 | _ => if arrivals t =? round then 1 else 0 end.
Definition total (f : thread -> nat) (ts : list thread) : nat := sum_list (f <$> ts).
Definition phase (round : nat) : Z := wrap 64 (Z.of_nat round).

Definition thread_ok (round : nat) (t : thread) : Prop :=
  (exists waits, todo t = [] \/ todo t = program waits) /\
  match at_ t with
  | Outside => (todo t <> [] -> arrivals t = round) /\ arrivals t <= S round
  | Asleep p => (exists rest, todo t = ArriveAndWait :: rest) /\ p = phase round /\ arrivals t = S round
  | Woken p => (exists rest, todo t = ArriveAndWait :: rest) /\
      (p = phase round /\ arrivals t = S round \/ exists r, round = S r /\ p = phase r /\ arrivals t = round)
  end.

Record barrier_ok (s : Barrier) (round : nat) : Prop := {
  b_threads : Forall (thread_ok round) (threads s);
  b_few : (Z.of_nat (length (threads s)) < 2 ^ 64)%Z;
  b_num : mNumThreads s = Z.of_nat (total active (threads s));
  b_count : mCount s = Z.of_nat (total (missing round) (threads s));
  b_open : total active (threads s) <> 0 -> total (missing round) (threads s) <> 0;
  b_phase : mPhase s = phase round
}.

Lemma total_insert (f : thread -> nat) (ts : list thread) (i : nat) (t t' : thread) : ts !! i = Some t ->
  total f (<[i := t']> ts) + f t = total f ts + f t'.
Proof. revert i. unfold total. induction ts as [|u ts IH]; intros [|i] Hi; simplify_eq/=; [lia|]. specialize (IH i Hi). lia. Qed.
Lemma total_ext (f g : thread -> nat) (ts : list thread) : (forall t, t ∈ ts -> f t = g t) -> total f ts = total g ts.
Proof.
  unfold total. induction ts as [|t ts IH]; intros H; [done|]. cbn. rewrite (H t), IH; [done| |by left]. intros u Hu. apply H. by right.
Qed.
Lemma total_wake (f : thread -> nat) (ts : list thread) : (forall t, f (wake t) = f t) -> total f (wake <$> ts) = total f ts.
Proof. intros H. unfold total. rewrite <- list_fmap_compose. f_equal. apply list_fmap_ext. intros i t _. apply H. Qed.
Lemma total_at (f : thread -> nat) (ts : list thread) (i : nat) (t : thread) : ts !! i = Some t -> f t <= total f ts.
Proof. revert i. unfold total. induction ts as [|u ts IH]; intros [|i] Hi; simplify_eq/=; [lia|]. specialize (IH i Hi). lia. Qed.
Lemma total_length (f : thread -> nat) (ts : list thread) : (forall t, f t <= 1) -> total f ts <= length ts.
Proof. intros H. unfold total. induction ts as [|t ts IH]; [done|]. cbn. specialize (H t). lia. Qed.

Lemma active_wake (t : thread) : active (wake t) = active t.
Proof. by destruct t as [[] l n]. Qed.
Lemma missing_wake (r : nat) (t : thread) : missing r (wake t) = missing r t.
Proof. by destruct t as [[] l n]. Qed.
Lemma active_le (t : thread) : active t <= 1.
Proof. unfold active. case_match; lia. Qed.
Lemma missing_le (r : nat) (t : thread) : missing r t <= active t.
Proof. unfold missing, active. repeat case_match; lia. Qed.

Lemma program_cases (w : nat) (o : op) (rest : list op) : program w = o :: rest ->
  o = ArriveAndWait /\ (exists w', w = S w' /\ rest = program w') \/ o = ArriveAndDrop /\ rest = [].
Proof. destruct w as [|w]; cbn; intros [= <- <-]; [by right|left; split; [done|by exists w]]. Qed.

Lemma bar_start_ok (waits : list nat) : (Z.of_nat (length waits) < 2 ^ 64)%Z -> barrier_ok (start waits) 0.
Proof.
  intros Hl.
  assert (Hsum : forall f, (forall w, f (mkThread Outside (program w) 0) = 1) -> total f (threads (start waits)) = length waits).
  { intros f Hf. unfold total. cbn [start threads]. rewrite <- list_fmap_compose. clear Hl. induction waits as [|w ws IH]; [done|]. cbn. rewrite Hf. by rewrite IH. }
  assert (Ha : total active (threads (start waits)) = length waits) by (apply Hsum; by intros []).
  assert (Hm : total (missing 0) (threads (start waits)) = length waits) by (apply Hsum; by intros []).
  split; rewrite ?Ha, ?Hm; [|cbn; by rewrite length_fmap|done|done|done|done].
  cbn. apply Forall_fmap, Forall_true. intros w. split; [exists w; by right|]. cbn. split; [done|lia].
Qed.

(** A thread of the round [round] that is not missing any more, in the next round *)
Lemma woken_ok (round : nat) (u : thread) : thread_ok round u -> missing round u = 0 -> thread_ok (S round) (wake u) /\ missing (S round) u = active u.
Proof.
  intros [Hw Hat] Hm. destruct u as [a l n]. unfold missing, active, thread_ok, wake in *. cbn in *.
  assert (Hn : l <> [] -> n = S round).
  { intros Hl. destruct l as [|o l]; [done|]. destruct (Nat.eqb_spec n round) as [|Hne]; [done|].
    destruct a; [by destruct Hat as [H _]; rewrite H in Hne|by destruct Hat as (_ & _ & ?)|]. destruct Hat as (_ & [[_ ?]|(r & _ & _ & ?)]); done. }
  split; [|destruct l; [done|]; by rewrite Hn, Nat.eqb_refl].
  destruct a as [|p|p]; cbn; (split; [done|]).
  - split; [done|lia].
  - destruct Hat as ([rest ->] & -> & _). split; [by exists rest|]. right. exists round. by rewrite Hn.
  - destruct Hat as ([rest ->] & [[-> _]|(r & -> & _ & ->)]); [|specialize (Hn ltac:(done)); lia].
    split; [by exists rest|]. right. exists round. by rewrite Hn.
Qed.

(** The barrier opens when nobody is missing. *)
Lemma opened_ok (round : nat) (num p : Z) (ts : list thread) :
  (forall i u, ts !! i = Some u -> thread_ok (S round) (wake u) /\ missing (S round) u = active u) ->
  (Z.of_nat (length ts) < 2 ^ 64)%Z -> num = Z.of_nat (total active ts) -> p = phase round ->
  barrier_ok (mkBarrier num num (wrap 64 (p + 1)) (wake <$> ts)) (S round).
Proof.
  intros Hu Hf -> ->.
  assert (Hfull : total (missing (S round)) ts = total active ts) by (apply total_ext; intros u [i Hi]%list_elem_of_lookup; by apply (Hu i)).
  split; cbn [threads mNumThreads mCount mPhase]; rewrite ?length_fmap, ?(total_wake _ _ active_wake), ?(total_wake _ _ (missing_wake _)), ?Hfull; [|done|done|done|done|].
  - apply Forall_fmap, Forall_lookup. intros i u Hi. by apply (Hu i).
  - unfold phase, wrap. rewrite Zplus_mod_idemp_l. f_equal. lia.
Qed.

(** One more arrival in a round *)
Lemma arrive_ok (s : Barrier) (round i : nat) (t t' : thread) (num : Z) :
  barrier_ok s round -> threads s !! i = Some t -> todo t <> [] -> arrivals t = round ->
  arrivals t' = S round -> (num = mNumThreads s - Z.of_nat (active t - active t'))%Z -> active t' <= active t ->
  (exists w, todo t' = [] \/ todo t' = program w) ->
  let count := wrap 64 (mCount s - 1) in
  ((count <> 0)%Z -> thread_ok round t' -> barrier_ok (mkBarrier num count (mPhase s) (<[i := t']> (threads s))) round) /\
  ((count = 0)%Z -> at_ t' = Outside -> barrier_ok (mkBarrier num num (wrap 64 (mPhase s + 1)) (<[i := t']> (wake <$> threads s))) (S round)).
Proof.
  intros [Ht Hf Hn Hc Ho Hp] Hi Htodo Harr Harr' -> Hle Hprog count.
  assert (Hmt : missing round t = 1) by (unfold missing; destruct (todo t); [done|]; by rewrite Harr, Nat.eqb_refl).
  assert (Hmt' : missing round t' = 0).
  { unfold missing. rewrite Harr'. destruct (todo t'); [done|]. by destruct (Nat.eqb_spec (S round) round); [lia|]. }
  pose proof (total_insert (missing round) (threads s) i t t' Hi) as Him. pose proof (total_insert active (threads s) i t t' Hi) as Hia.
  assert (Ecount : count = (mCount s - 1)%Z).
  { unfold count. apply wrap_small. pose proof (total_length (missing round) (threads s) (fun u => Nat.le_trans _ _ _ (missing_le round u) (active_le u))). lia. }
  split.
  - intros Hne Htok. split; cbn [threads mNumThreads mCount mPhase]; [by apply Forall_insert|by rewrite length_insert|lia|lia|lia|done].
  - intros He Hout.
    replace (<[i := t']> (wake <$> threads s)) with (wake <$> <[i := t']> (threads s)).
    2:{ rewrite list_fmap_insert. f_equal. unfold wake. by rewrite Hout. }
    assert (Hall : total (missing round) (<[i := t']> (threads s)) = 0) by lia. rewrite Forall_lookup in Ht.
    apply opened_ok; [|by rewrite length_insert|lia|done]. intros k u Hk. pose proof (total_at (missing round) _ k u Hk) as Hz.
    destruct (decide (k = i)) as [->|Hki]; [|rewrite list_lookup_insert_ne in Hk by done; apply woken_ok; [by apply (Ht k)|lia]].
    rewrite list_lookup_insert_eq in Hk by by eapply lookup_lt_Some. simplify_eq. destruct u as [a l n]. cbn in Hout, Harr'. subst a n.
    unfold thread_ok, wake, missing, active. cbn. rewrite Nat.eqb_refl. split; [split; [done|by split; [|lia]]|by destruct l].
Qed.

Lemma phase_step (round : nat) : phase (S round) <> phase round.
Proof.
  unfold phase, wrap. intros E. assert (H : ((Z.of_nat (S round) - Z.of_nat round) mod 2 ^ 64 = 0)%Z) by (rewrite Zminus_mod, E, Z.sub_diag; done).
  replace (Z.of_nat (S round) - Z.of_nat round)%Z with 1%Z in H by lia. done.
Qed.

Lemma todo_program (round : nat) (t : thread) (o : op) (rest : list op) : thread_ok round t -> todo t = o :: rest ->
  o = ArriveAndWait /\ (exists w, rest = program w) \/ o = ArriveAndDrop /\ rest = [].
Proof.
  intros [[w Hw] _] E. rewrite E in Hw. destruct Hw as [|Hw]; [done|]. symmetry in Hw.
  destruct (program_cases w o rest Hw) as [(-> & w' & _ & ->)|(-> & ->)]; [left; split; [done|by exists w']|by right].
Qed.

Lemma stay_ok (s : Barrier) (round i : nat) (t t' : thread) : barrier_ok s round -> threads s !! i = Some t -> thread_ok round t' ->
  active t' = active t -> missing round t' = missing round t -> barrier_ok (with_thread s i t') round.
Proof.
  intros [Ht Hf Hn Hc Ho Hp] Hi Hok Ha Hm. pose proof (total_insert (missing round) (threads s) i t t' Hi) as Him. pose proof (total_insert active (threads s) i t t' Hi) as Hia.
  split; cbn [with_thread threads mNumThreads mCount mPhase]; [by apply Forall_insert|by rewrite length_insert|lia|lia|lia|done].
Qed.

Lemma bar_turn_ok (i : nat) (c : cause) (s s' : Barrier) (round : nat) : barrier_ok s round -> turn i c s = Some s' -> barrier_ok s' round \/ barrier_ok s' (S round).
Proof.
  intros Hs E. unfold turn in E. destruct (threads s !! i) as [[a l n]|] eqn:Hi; [|done].
  pose proof (proj1 (Forall_lookup _ _) (b_threads s round Hs) i _ Hi) as Hok. destruct a as [|p|p].
  - destruct l as [|o rest]; [done|]. destruct (todo_program _ _ _ _ Hok eq_refl) as [(-> & w & ->)|(-> & ->)]; destruct c; simplify_eq;
      destruct Hok as [Hprog [Hn Hle]]; cbn in Hn, Hle; specialize (Hn ltac:(done)); subst n.
    + unfold arrive_and_wait. cbn [mCount mNumThreads mPhase threads].
      destruct (arrive_ok s round i _ (mkThread (Asleep (mPhase s)) (ArriveAndWait :: program w) (S round)) (mNumThreads s) Hs Hi) as [Hstay _];
        [done|done|done|cbn; lia|done|exists (S w); by right|].
      destruct (arrive_ok s round i _ (mkThread Outside (program w) (S round)) (mNumThreads s) Hs Hi) as [_ Hopen];
        [done|done|done|cbn; unfold active; cbn; by destruct w; cbn; lia|apply (active_le _)|exists w; by right|].
      destruct (Z.eqb_spec (wrap 64 (mCount s - 1)) 0) as [Ez|Ez]; [right; by apply Hopen|left; apply Hstay; [done|]].
      split; [exists (S w); by right|]. split_and!; [by eexists|apply (b_phase s round Hs)|done].
    + unfold arrive_and_drop. cbn [mCount mNumThreads mPhase threads].
      destruct (arrive_ok s round i _ (mkThread Outside [] (S round)) (wrap 64 (mNumThreads s - 1)) Hs Hi) as [Hstay Hopen];
        [done|done|done| |cbn; lia|exists 0; by left|].
      { cbn. apply wrap_small. pose proof (total_insert active (threads s) i _ (mkThread Outside [] 0) Hi) as H. cbn in H. rewrite (b_num s round Hs). split; [lia|].
        pose proof (total_length active (threads s) active_le). pose proof (b_few s round Hs). lia. }
      destruct (Z.eqb_spec (wrap 64 (mCount s - 1)) 0) as [Ez|Ez]; [right; by apply Hopen|left; apply Hstay; [done|]].
      split; [exists 0; by left|]. by split.
  - destruct c; simplify_eq. left. apply (stay_ok s round i _ _ Hs Hi); [|done|done].
    destruct Hok as [Hprog (Hrest & Hp & Hn)]. split; [done|]. cbn in *. split; [done|]. by left.
  - destruct Hok as [Hprog ([rest Hrest] & Hcase)]. cbn in Hrest, Hprog, Hcase. subst l. destruct c; simplify_eq. left. unfold wait_again.
    rewrite (b_phase s round Hs). destruct Hcase as [[-> ->]|(r & -> & -> & ->)].
    + rewrite Z.eqb_refl. apply (stay_ok s round i _ _ Hs Hi); [|done|done]. split; [done|]. cbn. split_and!; [by exists rest|done|done].
    + rewrite (proj2 (Z.eqb_neq _ _) (phase_step r)).
      assert (Hw : exists w, rest = program w). { destruct Hprog as [w [?|Hw]]; [done|]. symmetry in Hw. by destruct (program_cases _ _ _ Hw) as [(_ & w' & _ & ->)|[? _]]; [exists w'|]. }
      destruct Hw as [w ->]. apply (stay_ok s (S r) i _ _ Hs Hi); [|unfold active; cbn; by destruct w|unfold missing; cbn; by destruct w].
      split; [exists w; by right|]. cbn. split; [done|lia].
Qed.

Lemma bar_turns_ok (schedule : list (nat * cause)) (s s' : Barrier) (round : nat) : barrier_ok s round -> turns schedule s = Some s' -> exists round', barrier_ok s' round'.
Proof.
  revert s round. induction schedule as [|[i c] schedule IH]; intros s round Hs E; cbn in E; [simplify_eq; by exists round|].
  destruct (turn i c s) as [s1|] eqn:Et; [|done]. cbn in E. by destruct (bar_turn_ok i c s s1 round Hs Et) as [H|H]; eapply IH.
Qed.

(** ** Progress *)
Definition effort (t : thread) : nat := 2 * length (todo t) - match at_ t with Outside => 0 | _ => 1 end.
Lemma effort_wake (t : thread) : effort (wake t) = effort t.
Proof. by destruct t as [[] l n]. Qed.

Lemma total_pos (f : thread -> nat) (ts : list thread) : total f ts <> 0 -> exists i t, ts !! i = Some t /\ f t <> 0.
Proof.
  unfold total. induction ts as [|t ts IH]; [done|]. cbn. intros H. destruct (decide (f t = 0)) as [E|E]; [|by exists 0, t].
  destruct IH as (i & u & Hi & Hu); [lia|]. by exists (S i), u.
Qed.

Lemma somebody_moves (s : Barrier) (round : nat) : barrier_ok s round -> total active (threads s) <> 0 ->
  exists i s', turn i Go s = Some s' /\ total effort (threads s') < total effort (threads s).
Proof.
  intros Hs Ha. destruct (total_pos _ _ (b_open s round Hs Ha)) as (i & [a l n] & Hi & Hm).
  pose proof (proj1 (Forall_lookup _ _) (b_threads s round Hs) i _ Hi) as Hok. unfold missing in Hm. cbn in Hm.
  destruct l as [|o rest]; [done|]. destruct (Nat.eqb_spec n round) as [->|]; [|done].
  assert (Hdown : forall ts t', total effort ts = total effort (threads s) -> ts !! i = Some (mkThread a (o :: rest) round) \/ ts !! i = Some (wake (mkThread a (o :: rest) round)) ->
    effort t' < effort (mkThread a (o :: rest) round) -> total effort (<[i := t']> ts) < total effort (threads s)).
  { intros ts t' Ets Hti Ht'. rewrite <- Ets. destruct Hti as [H|H]; pose proof (total_insert effort ts i _ t' H); rewrite ?effort_wake in *; lia. }
  assert (Hwake : forall x y z, total effort (threads (open_barrier (mkBarrier x y z (threads s)))) = total effort (threads s) /\
    threads (open_barrier (mkBarrier x y z (threads s))) !! i = Some (wake (mkThread a (o :: rest) round))).
  { intros x y z. cbn. split; [apply total_wake, effort_wake|by rewrite list_lookup_fmap, Hi]. }
  destruct a as [|p|p].
  - destruct (todo_program _ _ _ _ Hok eq_refl) as [(-> & w & ->)|(-> & ->)]; exists i; eexists; unfold turn; rewrite Hi; (split; [done|]).
    + unfold arrive_and_wait. cbn [mCount]. case_match; cbn [with_thread threads].
      * apply Hdown; [apply Hwake|right; apply Hwake|cbn; lia].
      * apply Hdown; [done|by left|cbn; lia].
    + unfold arrive_and_drop. cbn [mCount]. case_match; cbn [with_thread threads].
      * apply Hdown; [apply Hwake|right; apply Hwake|cbn; lia].
      * apply Hdown; [done|by left|cbn; lia].
  - destruct Hok as [_ (_ & _ & Hn)]. cbn in Hn. lia.
  - destruct Hok as [_ ([rest' Hr] & [[_ Hn]|(r & -> & -> & _)])]; cbn in *; [lia|]. simplify_eq. exists i. eexists. unfold turn. rewrite Hi. split; [done|].
    unfold wait_again. rewrite (b_phase s _ Hs), (proj2 (Z.eqb_neq _ _) (phase_step r)). cbn [with_thread threads]. apply Hdown; [done|by left|cbn; lia].
Qed.

Lemma bar_all_finish (s : Barrier) (round : nat) : barrier_ok s round ->
  exists schedule s', length schedule <= total effort (threads s) /\ turns schedule s = Some s' /\ Forall (fun t => todo t = []) (threads s').
Proof.
  remember (total effort (threads s)) as n eqn:En. revert s round En. induction n as [n IH] using lt_wf_ind; intros s round -> Hs.
  destruct (decide (total active (threads s) = 0)) as [E0|E0].
  - exists [], s. split_and!; [cbn; lia|done|]. apply Forall_lookup. intros i t Hi. pose proof (total_at active _ i t Hi) as H.
    assert (active t = 0) by lia. unfold active in *. by destruct (todo t).
  - destruct (somebody_moves s round Hs E0) as (i & s1 & E1 & Hlt).
    assert (Hs1 : exists r, barrier_ok s1 r) by (destruct (bar_turn_ok i Go s s1 round Hs E1); by eexists). destruct Hs1 as [r Hs1].
    destruct (IH (total effort (threads s1)) Hlt s1 r eq_refl Hs1) as (sch & s2 & Hl & E2 & Hf).
    exists ((i, Go) :: sch), s2. split_and!; [cbn; lia|cbn; by rewrite E1|done].
Qed.

(** The calls of [arrive_and_wait] that a thread has come back from *)
Definition waits_done (t : thread) : nat := match at_ t, todo t with Outside, _ :: _ => arrivals t | _, _ => pred (arrivals t) end.

(** C33: The barrier: however the threads are scheduled and woken, no thread comes back from its
    k-th wait before every thread that has not dropped out has arrived k times; and from
    wherever they got to, every thread has a way to its end, two turns for each call. *)
Theorem barrier_correct (waits : list nat) (s : Barrier) : (Z.of_nat (length waits) < 2 ^ 64)%Z -> reachable waits s ->
  (forall i j t u, threads s !! i = Some t -> threads s !! j = Some u -> todo u <> [] -> waits_done t <= arrivals u) /\
  exists schedule s', length schedule <= total effort (threads s) /\ turns schedule s = Some s' /\ Forall (fun t => todo t = []) (threads s').
Proof.
  intros Hl [schedule E]. destruct (bar_turns_ok schedule _ _ 0 (bar_start_ok waits Hl) E) as [round Hs]. split; [|by apply (bar_all_finish s round)].
  intros i j [a l n] [b m k] Hi Hj Hne. cbn in Hne. unfold waits_done. cbn.
  destruct (proj1 (Forall_lookup _ _) (b_threads s round Hs) i _ Hi) as [_ Ht]. destruct (proj1 (Forall_lookup _ _) (b_threads s round Hs) j _ Hj) as [_ Hu].
  cbn in Ht, Hu. assert (round <= k).
  { destruct b; [by destruct Hu as [Hu _]; rewrite Hu|by destruct Hu as (_ & _ & ->); lia|]. destruct Hu as (_ & [[_ ->]|(r & _ & _ & ->)]); lia. }
  destruct a; [|by destruct Ht as (_ & _ & ->)|destruct Ht as (_ & [[_ ->]|(r & _ & _ & ->)]); cbn; lia].
  destruct Ht as [Ht Hle]. destruct l; [cbn; lia|]. by rewrite (Ht ltac:(done)).
Qed.

Definition three_waits : list nat := [2; 2; 1].
Definition some_turns : list (nat * cause) := [(0, Go); (1, Go); (0, Spurious); (0, Go); (2, Go); (1, Go); (1, Go); (2, Go)].
Lemma barrier_correct_witness : exists s, reachable three_waits s /\ length (threads s) = 3 /\
  (forall i j t u, threads s !! i = Some t -> threads s !! j = Some u -> todo u <> [] -> waits_done t <= arrivals u).
Proof.
  destruct (turns some_turns (start three_waits)) as [s|] eqn:E; [|done]. exists s. assert (Hr : reachable three_waits s) by by exists some_turns.
  split_and!; [done|by vm_compute in E; simplify_eq|]. apply (barrier_correct three_waits s); [done|done].
Defined.
