(* ===== verification/UvDispatcher.v ===== *)
(** * The event dispatcher over libuv

    Models [UvEventDispatcher] of [src/cxxkit/kernel/uv/detail/uv_event_dispatcher.cpp]: the
    driver behind an event loop, with its timers and socket notifiers as handles of a libuv
    loop. libuv is a parameter: the results of its calls ([answer]), and what a round finds
    (a list of happenings). A handle lives until its close callback has run at the end of a
    round; a timer without a repeat fires once, as libuv documents. The callbacks that the
    user gives are finite trees of calls. Checks of the calling thread are left out. *)

From stdpp Require Import prelude list gmap.
From Stdlib Require Import ZArith Lia.
From S2P Require Import Prelude.

#[local] Open Scope Z_scope.
#[local] Open Scope cxx_scope.

(** ** Masks *)
Definition kRead : Z := 1.
Definition kWrite : Z := 2.
Definition UV_READABLE : Z := 1.
Definition UV_WRITABLE : Z := 2.

Definition to_uv_poll_events (mask : Z) : Z :=
  let events := 0 in
  let events := if negb (Z.land mask kRead =? 0) then Z.lor events UV_READABLE else events in
  if negb (Z.land mask kWrite =? 0) then Z.lor events UV_WRITABLE else events.
Definition to_socket_mask (events : Z) : Z :=
  let mask := 0 in
  let mask := if negb (Z.land events UV_READABLE =? 0) then Z.lor mask kRead else mask in
  if negb (Z.land events UV_WRITABLE =? 0) then Z.lor mask kWrite else mask.

(** ** State *)
Notation handle := positive.

(** What a round of libuv may find *)
Inductive happening := Expires (h : handle) | Ready (h : handle) (status events : Z) | Rings.

Inductive op :=
  | StartTimer (timer_id interval_ms : Z) (fn : callback)
  | StopTimer (timer_id : Z)
  | RegisterNotifier (fd mask : Z) (fn : callback)
  | UnregisterNotifier (fd : Z)
  | WakeUp
  | Interrupt
  | ProcessEvents (found : list happening)
with callback := Callback (name : nat) (body : list op).
Definition cb_name (cb : callback) : nat := let 'Callback n _ := cb in n.
Definition cb_body (cb : callback) : list op := let 'Callback _ l := cb in l.

(** What [handle->data] leads to *)
Inductive uv_data := WakeAsync | TimerCallback (mFn : callback) (mTimerId : Z) (repeat : Z) | PollFdKey (mFd : Z).
Record uv_handle := mkHandle { data : uv_data; active : bool; closing : bool }.
Record PollEntry := mkPoll { mHandle : handle; mFn : callback; mMask : Z }.

Record UvEventDispatcherPrivate := mkPrivate {
  mWakeAsync : handle;
  mTimers : gmap Z handle;
  mInterrupted : bool;
  mClosed : bool;
  mHadEvents : bool;
  mInProcessEvents : bool;
  mPolls : gmap Z PollEntry
}.

(** What is registered, by its key; and what happened *)
Inductive source := Timer (timer_id : Z) | Notifier (fd : Z).
#[export] Instance source_eq_dec : EqDecision source.
Proof. solve_decision. Defined.
Inductive event := Registered (key : source) (name : nat) | Unregistered (key : source) | Called (key : source) (name : nat) (mask : Z) | Processed (result : bool).

Record World := mkWorld { d : UvEventDispatcherPrivate; handles : gmap handle uv_handle; next : handle; asked : nat; trace : list event }.

Definition with_d (s : World) x := mkWorld x (handles s) (next s) (asked s) (trace s).
Definition with_handles (s : World) x := mkWorld (d s) x (next s) (asked s) (trace s).
Definition record (e : event) (s : World) := mkWorld (d s) (handles s) (next s) (asked s) (e :: trace s).
Definition with_timers (s : World) x := let p := d s in with_d s (mkPrivate (mWakeAsync p) x (mInterrupted p) (mClosed p) (mHadEvents p) (mInProcessEvents p) (mPolls p)).
Definition with_interrupted (s : World) x := let p := d s in with_d s (mkPrivate (mWakeAsync p) (mTimers p) x (mClosed p) (mHadEvents p) (mInProcessEvents p) (mPolls p)).
Definition with_closed (s : World) x := let p := d s in with_d s (mkPrivate (mWakeAsync p) (mTimers p) (mInterrupted p) x (mHadEvents p) (mInProcessEvents p) (mPolls p)).
Definition with_had_events (s : World) x := let p := d s in with_d s (mkPrivate (mWakeAsync p) (mTimers p) (mInterrupted p) (mClosed p) x (mInProcessEvents p) (mPolls p)).
Definition with_in_process (s : World) x := let p := d s in with_d s (mkPrivate (mWakeAsync p) (mTimers p) (mInterrupted p) (mClosed p) (mHadEvents p) x (mPolls p)).
Definition with_polls (s : World) x := let p := d s in with_d s (mkPrivate (mWakeAsync p) (mTimers p) (mInterrupted p) (mClosed p) (mHadEvents p) (mInProcessEvents p) x).

(** The constructor, when its two calls succeed *)
Definition new_dispatcher : World :=
  mkWorld (mkPrivate 1 ∅ false false false false ∅) {[1%positive := mkHandle WakeAsync true false]} 2 0 [].

(** ** libuv *)
Inductive uv_call := uv_timer_init | uv_timer_start | uv_poll_init | uv_poll_init_socket | uv_poll_start.

Section Dispatcher.
Context (answer : uv_call -> nat -> Z).

Definition ask (c : uv_call) (s : World) : Z * World := (answer c (asked s), mkWorld (d s) (handles s) (next s) (S (asked s)) (trace s)).

Definition new_handle (x : uv_data) (s : World) : handle * World :=
  (next s, mkWorld (d s) (<[next s := mkHandle x false false]> (handles s)) (Pos.succ (next s)) (asked s) (trace s)).
Definition set_handle (h : handle) (x : uv_data) (active : bool) (s : World) : run World :=
  do u <- deref (handles s !! h);
  if closing u then Undef else Ret (with_handles s (<[h := mkHandle x active false]> (handles s))).
(** [uv_timer_stop] and [uv_poll_stop] *)
Definition uv_stop (h : handle) (s : World) : run World :=
  do u <- deref (handles s !! h);
  Ret (with_handles s (<[h := mkHandle (data u) false (closing u)]> (handles s))).
(** [uv_close], unless it is closing *)
Definition uv_close (h : handle) (s : World) : run World :=
  do u <- deref (handles s !! h);
  if negb (closing u) then Ret (with_handles s (<[h := mkHandle (data u) false true]> (handles s))) else Ret s.
Definition uv_async_send (h : handle) (s : World) : run World := do _ <- deref (handles s !! h); Ret s.

(** ** The calls *)
Definition stop_timer (timer_id : Z) (s : World) : run World :=
  match mTimers (d s) !! timer_id with
  | None => Ret s
  | Some h =>
      let s := with_timers s (delete timer_id (mTimers (d s))) in
      do s <- uv_stop h s;
      do s <- uv_close h s;
      Ret (record (Unregistered (Timer timer_id)) s)
  end.

Definition start_timer (timer_id interval_ms : Z) (fn : callback) (s : World) : run World :=
  if mClosed (d s) then Ret s
  else
    do s <- (if bool_decide (is_Some (mTimers (d s) !! timer_id)) then stop_timer timer_id s else Ret s);
    let (h, s) := new_handle (TimerCallback fn timer_id 0) s in
    let (init_rc, s) := ask uv_timer_init s in
    do _ <- check (init_rc =? 0);
    let (start_rc, s) := ask uv_timer_start s in
    do _ <- check (start_rc =? 0);
    do s <- set_handle h (TimerCallback fn timer_id interval_ms) true s;
    Ret (record (Registered (Timer timer_id) (cb_name fn)) (with_timers s (<[timer_id := h]> (mTimers (d s))))).

Definition register_socket_notifier (fd mask : Z) (fn : callback) (s : World) : run World :=
  if mClosed (d s) then Ret s
  else
    match mPolls (d s) !! fd with
    | Some e =>
        let s := with_polls s (<[fd := mkPoll (mHandle e) fn mask]> (mPolls (d s))) in
        let (rc, s) := ask uv_poll_start s in
        do _ <- check (rc =? 0);
        do s <- set_handle (mHandle e) (PollFdKey fd) true s;
        Ret (record (Registered (Notifier fd) (cb_name fn)) s)
    | None =>
        let (h, s) := new_handle (PollFdKey fd) s in
        let (init_rc, s) := ask uv_poll_init s in
        do s <- (if negb (init_rc =? 0) then let (socket_rc, s) := ask uv_poll_init_socket s in do _ <- check (socket_rc =? 0); Ret s else Ret s);
        let (start_rc, s) := ask uv_poll_start s in
        do _ <- check (start_rc =? 0);
        do s <- set_handle h (PollFdKey fd) true s;
        Ret (record (Registered (Notifier fd) (cb_name fn)) (with_polls s (<[fd := mkPoll h fn mask]> (mPolls (d s)))))
    end.

Definition unregister_socket_notifier (fd : Z) (s : World) : run World :=
  match mPolls (d s) !! fd with
  | None => Ret s
  | Some e =>
      let s := with_polls s (delete fd (mPolls (d s))) in
      do s <- uv_stop (mHandle e) s;
      do s <- uv_close (mHandle e) s;
      Ret (record (Unregistered (Notifier fd)) s)
  end.

Definition wake_up (s : World) : run World := if mClosed (d s) then Ret s else uv_async_send (mWakeAsync (d s)) s.
Definition interrupt (s : World) : run World :=
  let s := with_interrupted s true in
  if negb (mClosed (d s)) then uv_async_send (mWakeAsync (d s)) s else Ret s.

Section Round.
Context (process_events : list happening -> World -> run World).

Definition perform (o : op) (s : World) : run World :=
  match o with
  | StartTimer timer_id interval_ms fn => start_timer timer_id interval_ms fn s
  | StopTimer timer_id => stop_timer timer_id s
  | RegisterNotifier fd mask fn => register_socket_notifier fd mask fn s
  | UnregisterNotifier fd => unregister_socket_notifier fd s
  | WakeUp => wake_up s
  | Interrupt => interrupt s
  | ProcessEvents found => process_events found s
  end.
Fixpoint perform_all (ops : list op) (s : World) : run World :=
  match ops with [] => Ret s | o :: ops => do s <- perform o s; perform_all ops s end.

(** ** What libuv calls *)
Definition on_timer_expired (h : handle) (s : World) : run World :=
  do u <- deref (handles s !! h);
  match data u with
  | TimerCallback fn timer_id _ => perform_all (cb_body fn) (record (Called (Timer timer_id) (cb_name fn) 0) (with_had_events s true))
  | _ => Undef
  end.

Definition on_poll_ready (h : handle) (status events : Z) (s : World) : run World :=
  let s := with_had_events s true in
  do u <- deref (handles s !! h);
  match data u with
  | PollFdKey fd =>
      match mPolls (d s) !! fd with
      | None => Ret s
      | Some e =>
          let fn := mFn e in
          if status <? 0 then Ret s
          else perform_all (cb_body fn) (record (Called (Notifier fd) (cb_name fn) (to_socket_mask events)) s)
      end
  | _ => Undef
  end.

(** libuv delivers to handles that are active; an expired timer is armed again before its
    callback runs, if it repeats. *)
Definition deliver (x : happening) (s : World) : run World :=
  match x with
  | Expires h =>
      match handles s !! h with
      | Some (mkHandle (TimerCallback fn timer_id repeat) true false) =>
          on_timer_expired h (with_handles s (<[h := mkHandle (TimerCallback fn timer_id repeat) (negb (repeat =? 0)) false]> (handles s)))
      | _ => Ret s
      end
  | Ready h status events =>
      match handles s !! h with
      | Some (mkHandle (PollFdKey _) true false) => on_poll_ready h status events s
      | _ => Ret s
      end
  | Rings => Ret s
  end.
Fixpoint deliver_all (found : list happening) (s : World) : run World :=
  match found with [] => Ret s | x :: found => do s <- deliver x s; deliver_all found s end.

(** The close callbacks free the handles that are closing. *)
Definition close_callbacks (s : World) : World := with_handles s (filter (fun p => closing (snd p) = false) (handles s)).

Definition uv_run (found : list happening) (s : World) : run World := do s <- deliver_all found s; Ret (close_callbacks s).
End Round.

(** A call from a callback stops at its check; [fuel] bounds the nesting. *)
Fixpoint process_events (fuel : nat) (found : list happening) (s : World) : run World :=
  match fuel with
  | O => Timeout
  | S fuel =>
      do _ <- check (negb (mInProcessEvents (d s)));
      let s := with_had_events (with_interrupted (with_in_process s true) false) false in
      do s <- uv_run (process_events fuel) found s;
      let s := with_in_process s false in
      Ret (record (Processed (mHadEvents (d s) && negb (mInterrupted (d s)))) s)
  end.

Definition react (fuel : nat) (o : op) (s : World) : run World := perform (process_events fuel) o s.

(** ** The destructor *)
Fixpoint close_all (l : list handle) (s : World) : run World :=
  match l with [] => Ret s | h :: l => do s <- uv_close h s; close_all l s end.

Definition destroy (fuel : nat) (found : list happening) (s : World) : run World :=
  let s := with_closed s true in
  do s <- uv_close (mWakeAsync (d s)) s;
  let timers := mTimers (d s) in
  do s <- close_all (snd <$> map_to_list timers) (with_timers s ∅);
  let polls := mPolls (d s) in
  do s <- close_all ((fun p => mHandle (snd p)) <$> map_to_list polls) (with_polls s ∅);
  do s <- uv_run (process_events fuel) found s;
  do _ <- check (bool_decide (handles s = ∅));
  Ret s.
End Dispatcher.
