(* ===== verification/UvDispatcherFacts.v ===== *)
(** * The event dispatcher over libuv: theorems

    Shows that no call and no round touches a handle that was freed, that what is called is
    what is registered, that a timer that is due is called, and that the destructor leaves
    libuv no handle. *)

From stdpp Require Import prelude list gmap.
From Stdlib Require Import ZArith Lia.
From S2P Require Import Prelude UvDispatcher.

#[local] Open Scope Z_scope.
#[local] Open Scope cxx_scope.

(** ** What is registered, by the history *)
Fixpoint current (l : list event) (k : source) : option nat :=
  match l with
  | [] => None
  | Registered k' n :: l => if decide (k = k') then Some n else current l k
  | Unregistered k' :: l => if decide (k = k') then None else current l k
  | _ :: l => current l k
  end.

(** Every call is of the callback that was registered at that time. *)
Fixpoint faithful (l : list event) : Prop :=
  match l with
  | [] => True
  | Called k n _ :: l => current l k = Some n /\ faithful l
  | _ :: l => faithful l
  end.

(** ** The invariant *)
Record dispatcher_ok (s : World) : Prop := {
  o_async : exists a, handles s !! mWakeAsync (d s) = Some (mkHandle WakeAsync a false);
  o_timer : forall id h, mTimers (d s) !! id = Some h ->
    exists fn repeat a, handles s !! h = Some (mkHandle (TimerCallback fn id repeat) a false) /\ current (trace s) (Timer id) = Some (cb_name fn) /\ (repeat <> 0 -> a = true);
  o_poll : forall fd e, mPolls (d s) !! fd = Some e ->
    handles s !! mHandle e = Some (mkHandle (PollFdKey fd) true false) /\ current (trace s) (Notifier fd) = Some (cb_name (mFn e));
  o_none : (forall id, mTimers (d s) !! id = None -> current (trace s) (Timer id) = None) /\ (forall fd, mPolls (d s) !! fd = None -> current (trace s) (Notifier fd) = None);
  o_known : forall h u, handles s !! h = Some u -> closing u = false ->
    h = mWakeAsync (d s) \/ (exists id, mTimers (d s) !! id = Some h) \/ (exists fd e, mPolls (d s) !! fd = Some e /\ mHandle e = h);
  o_fresh : forall h, is_Some (handles s !! h) -> (h < next s)%positive;
  o_faithful : faithful (trace s);
  o_open : mClosed (d s) = false
}.

Lemma uv_new_ok : dispatcher_ok new_dispatcher.
Proof.
  split; cbn [d handles trace next new_dispatcher mWakeAsync mTimers mPolls mClosed]; try done.
  - exists true. apply lookup_singleton_eq.
  - intros h u Hu _. left. by apply lookup_singleton_Some in Hu as [<- _].
  - intros h [u Hu]. apply lookup_singleton_Some in Hu as [<- _]. done.
Qed.

(** Only the registrations, the handles and the history matter. *)
Definition alike (s s' : World) : Prop :=
  mWakeAsync (d s') = mWakeAsync (d s) /\ mTimers (d s') = mTimers (d s) /\ mPolls (d s') = mPolls (d s) /\ mClosed (d s') = mClosed (d s) /\
  handles s' = handles s /\ next s' = next s /\ trace s' = trace s.
Lemma alike_ok (s s' : World) : alike s s' -> dispatcher_ok s -> dispatcher_ok s'.
Proof.
  intros (E1 & E2 & E3 & E4 & E5 & E6 & E7) [H1 H2 H3 H4 H5 H6 H7 H8].
  split; rewrite ?E1, ?E2, ?E3, ?E4, ?E5, ?E6, ?E7; done.
Qed.

(** A call that returns keeps the latch of [process_events] and the history. *)
Definition keeps (s : World) (r : run World) : Prop :=
  match r with
  | Ret s' => dispatcher_ok s' /\ mInProcessEvents (d s') = mInProcessEvents (d s) /\ trace s `suffix_of` trace s'
  | Fatal => True
  | _ => False
  end.

Lemma keeps_bind (s : World) (r : run World) (k : World -> run World) :
  keeps s r -> (forall s', dispatcher_ok s' -> mInProcessEvents (d s') = mInProcessEvents (d s) -> keeps s' (k s')) -> keeps s (run_bind r k).
Proof.
  intros Hr Hk. destruct r as [s'| | |]; try done. destruct Hr as (Hs & E & Hl). cbn. specialize (Hk s' Hs E).
  unfold keeps in *. destruct (k s'); try done. rewrite E in Hk. destruct Hk as (? & ? & ?). split_and!; [done|done|by trans (trace s')].
Qed.
Lemma keeps_from (s s1 : World) (r : run World) : mInProcessEvents (d s1) = mInProcessEvents (d s) -> trace s `suffix_of` trace s1 -> keeps s1 r -> keeps s r.
Proof. intros E Hl. unfold keeps. destruct r; try done. rewrite E. intros (? & ? & ?). split_and!; [done|done|by trans (trace s1)]. Qed.
Lemma keeps_ret (s : World) : dispatcher_ok s -> keeps s (Ret s).
Proof. intros Hs. by split_and!. Qed.

(** The latch is as it was, and the history goes on. *)
Ltac goes_on := split; [done|]; by repeat first [reflexivity|apply suffix_cons_r].

(** A result that has at least this history *)
Definition keeps_history (t : list event) (r : run World) : Prop := match r with Ret s' => t `suffix_of` trace s' | _ => r = Fatal end.

Section Facts.
Context (answer : uv_call -> nat -> Z).

(** ** Closing a handle *)
Lemma stop_and_close (h : handle) (x : uv_data) (a : bool) (s : World) (k : World -> run World) :
  handles s !! h = Some (mkHandle x a false) ->
  (do s <- uv_stop h s; do s <- uv_close h s; k s) = k (with_handles s (<[h := mkHandle x false true]> (handles s))).
Proof.
  intros Hh. unfold uv_stop, uv_close. rewrite Hh. cbn. rewrite lookup_insert_eq. cbn. by rewrite insert_insert_eq.
Qed.

Lemma timer_handle (s : World) (id : Z) (h : handle) (x : uv_data) (a c : bool) : dispatcher_ok s -> mTimers (d s) !! id = Some h ->
  handles s !! h = Some (mkHandle x a c) -> exists fn repeat, x = TimerCallback fn id repeat /\ c = false.
Proof. intros Hs Ht Hh. destruct (o_timer s Hs id h Ht) as (fn & repeat & b & E & _). rewrite Hh in E. simplify_eq. by exists fn, repeat. Qed.
Lemma poll_handle (s : World) (fd : Z) (e : PollEntry) (x : uv_data) (a c : bool) : dispatcher_ok s -> mPolls (d s) !! fd = Some e ->
  handles s !! mHandle e = Some (mkHandle x a c) -> x = PollFdKey fd /\ c = false.
Proof. intros Hs Hp Hh. destruct (o_poll s Hs fd e Hp) as [E _]. rewrite Hh in E. by simplify_eq. Qed.

Lemma drop_timer_ok (s : World) (id : Z) (h : handle) (x : uv_data) (a : bool) : dispatcher_ok s -> mTimers (d s) !! id = Some h -> handles s !! h = Some (mkHandle x a false) ->
  dispatcher_ok (record (Unregistered (Timer id)) (with_handles (with_timers s (delete id (mTimers (d s)))) (<[h := mkHandle x false true]> (handles s)))).
Proof.
  intros Hs Ht Hh. pose proof Hs as [H1 H2 H3 [H4a H4b] H5 H6 H7 H8]. destruct (timer_handle s id h x a false Hs Ht Hh) as (fn & rep & -> & _).
  split; cbn [record with_handles with_timers with_d d handles trace next mWakeAsync mTimers mPolls mClosed current faithful].
  - destruct H1 as [b Hb]. exists b. rewrite lookup_insert_ne; [done|]. intros ->. congruence.
  - intros id' h'. rewrite lookup_delete_Some. intros [Hne Ht']. destruct (H2 id' h' Ht') as (fn' & rep' & a' & Hh' & Hc & Hr).
    exists fn', rep', a'. rewrite lookup_insert_ne by (intros ->; congruence). rewrite decide_False by congruence. done.
  - intros fd e Hp. destruct (H3 fd e Hp) as [Hh' Hc]. rewrite lookup_insert_ne by (intros ->; congruence). by rewrite decide_False.
  - split; [intros id'|intros fd]; rewrite ?lookup_delete_None; [intros Hn; case_decide; [done|]|intros Hn; rewrite decide_False by done; by apply H4b].
    apply H4a. destruct Hn as [->|]; [congruence|done].
  - intros h' u. rewrite lookup_insert_Some. intros [[<- <-]|[Hne Hu]]; [done|]. intros Hc. destruct (H5 h' u Hu Hc) as [->|[[id' Hid]|Hp]]; [by left|right; left|by right; right].
    exists id'. rewrite lookup_delete_ne; [done|]. intros <-. congruence.
  - intros h'. rewrite lookup_insert_is_Some'. intros [->|Hu]; [apply H6; by rewrite Hh|by apply H6].
  - done.
  - done.
Qed.

Lemma drop_poll_ok (s : World) (fd : Z) (e : PollEntry) (x : uv_data) (a : bool) : dispatcher_ok s -> mPolls (d s) !! fd = Some e -> handles s !! mHandle e = Some (mkHandle x a false) ->
  dispatcher_ok (record (Unregistered (Notifier fd)) (with_handles (with_polls s (delete fd (mPolls (d s)))) (<[mHandle e := mkHandle x false true]> (handles s)))).
Proof.
  intros Hs Ht Hh. pose proof Hs as [H1 H2 H3 [H4a H4b] H5 H6 H7 H8]. destruct (poll_handle s fd e x a false Hs Ht Hh) as [-> _].
  split; cbn [record with_handles with_polls with_d d handles trace next mWakeAsync mTimers mPolls mClosed current faithful].
  - destruct H1 as [b Hb]. exists b. rewrite lookup_insert_ne; [done|]. intros E. congruence.
  - intros id h Hid. destruct (H2 id h Hid) as (fn & rep & a' & Hh' & Hc & Hr). exists fn, rep, a'. rewrite lookup_insert_ne by (intros E; congruence). by rewrite decide_False.
  - intros fd' e'. rewrite lookup_delete_Some. intros [Hne Hp']. destruct (H3 fd' e' Hp') as [Hh' Hc].
    rewrite lookup_insert_ne by (intros E; congruence). rewrite decide_False by congruence. done.
  - split; [intros id Hn; rewrite decide_False by done; by apply H4a|intros fd'; rewrite lookup_delete_None; intros Hn; case_decide; [done|]].
    apply H4b. destruct Hn as [->|]; [congruence|done].
  - intros h' u. rewrite lookup_insert_Some. intros [[<- <-]|[Hne Hu]]; [done|]. intros Hc. destruct (H5 h' u Hu Hc) as [->|[Ht'|(fd' & e' & Hp & He)]]; [by left|by right; left|right; right].
    exists fd', e'. rewrite lookup_delete_ne; [done|]. intros <-. congruence.
  - intros h'. rewrite lookup_insert_is_Some'. intros [<-|Hu]; [apply H6; by rewrite Hh|by apply H6].
  - done.
  - done.
Qed.

(** ** A new handle *)
Lemma fresh_handle (s : World) (h : handle) : dispatcher_ok s -> is_Some (handles s !! h) -> h <> next s.
Proof. intros Hs Hh ->. pose proof (o_fresh s Hs _ Hh). lia. Qed.

Lemma add_timer_ok (s s' : World) (id rep : Z) (fn : callback) : dispatcher_ok s -> mTimers (d s) !! id = None ->
  mWakeAsync (d s') = mWakeAsync (d s) -> mTimers (d s') = <[id := next s]> (mTimers (d s)) -> mPolls (d s') = mPolls (d s) -> mClosed (d s') = false ->
  handles s' = <[next s := mkHandle (TimerCallback fn id rep) true false]> (handles s) -> next s' = Pos.succ (next s) ->
  trace s' = Registered (Timer id) (cb_name fn) :: trace s -> dispatcher_ok s'.
Proof.
  intros Hs Hn E1 E2 E3 E4 E5 E6 E7. pose proof Hs as [H1 H2 H3 [H4a H4b] H5 H6 H7 H8].
  assert (Hnew : forall h u, handles s !! h = Some u -> handles s' !! h = Some u).
  { intros h u Hu. rewrite E5, lookup_insert_ne; [done|]. intros <-. by destruct (fresh_handle s (next s) Hs ltac:(by rewrite Hu)). }
  split; rewrite ?E1, ?E2, ?E3, ?E4, ?E6, ?E7; cbn [current faithful].
  - destruct H1 as [a Ha]. exists a. by apply Hnew.
  - intros id' h. rewrite lookup_insert_Some. intros [[<- <-]|[Hne Ht]].
    + exists fn, rep, true. rewrite E5, lookup_insert_eq, decide_True by done. done.
    + destruct (H2 id' h Ht) as (fn' & rep' & a & Hh & Hc & Hr). exists fn', rep', a. rewrite decide_False by congruence. split_and!; [by apply Hnew|done|done].
  - intros fd e Hp. destruct (H3 fd e Hp) as [Hh Hc]. rewrite decide_False by done. split; [by apply Hnew|done].
  - split; [intros id'; rewrite lookup_insert_None; intros [Hid Hne]; rewrite decide_False by congruence; by apply H4a|intros fd Hfd; rewrite decide_False by done; by apply H4b].
  - intros h u. rewrite E5, lookup_insert_Some. intros [[<- <-]|[Hne Hu]] Hc.
    + right; left. exists id. by rewrite lookup_insert_eq.
    + destruct (H5 h u Hu Hc) as [->|[[id' Hid]|Hp]]; [by left|right; left|by right; right]. exists id'. rewrite lookup_insert_ne; [done|]. intros <-. congruence.
  - intros h. rewrite E5, lookup_insert_is_Some'. intros [<-|Hu]; [lia|]. specialize (H6 h Hu). lia.
  - done.
  - done.
Qed.

Lemma add_poll_ok (s s' : World) (fd mask : Z) (fn : callback) : dispatcher_ok s -> mPolls (d s) !! fd = None ->
  mWakeAsync (d s') = mWakeAsync (d s) -> mTimers (d s') = mTimers (d s) -> mPolls (d s') = <[fd := mkPoll (next s) fn mask]> (mPolls (d s)) -> mClosed (d s') = false ->
  handles s' = <[next s := mkHandle (PollFdKey fd) true false]> (handles s) -> next s' = Pos.succ (next s) ->
  trace s' = Registered (Notifier fd) (cb_name fn) :: trace s -> dispatcher_ok s'.
Proof.
  intros Hs Hn E1 E2 E3 E4 E5 E6 E7. pose proof Hs as [H1 H2 H3 [H4a H4b] H5 H6 H7 H8].
  assert (Hnew : forall h u, handles s !! h = Some u -> handles s' !! h = Some u).
  { intros h u Hu. rewrite E5, lookup_insert_ne; [done|]. intros <-. by destruct (fresh_handle s (next s) Hs ltac:(by rewrite Hu)). }
  split; rewrite ?E1, ?E2, ?E3, ?E4, ?E6, ?E7; cbn [current faithful].
  - destruct H1 as [a Ha]. exists a. by apply Hnew.
  - intros id h Ht. destruct (H2 id h Ht) as (fn' & rep' & a & Hh & Hc & Hr). exists fn', rep', a. rewrite decide_False by done. split_and!; [by apply Hnew|done|done].
  - intros fd' e. rewrite lookup_insert_Some. intros [[<- <-]|[Hne Hp]]; cbn [mHandle mFn].
    + rewrite E5, lookup_insert_eq, decide_True by done. done.
    + destruct (H3 fd' e Hp) as [Hh Hc]. rewrite decide_False by congruence. split; [by apply Hnew|done].
  - split; [intros id Hid; rewrite decide_False by done; by apply H4a|intros fd'; rewrite lookup_insert_None; intros [Hfd Hne]; rewrite decide_False by congruence; by apply H4b].
  - intros h u. rewrite E5, lookup_insert_Some. intros [[<- <-]|[Hne Hu]] Hc.
    + right; right. exists fd, (mkPoll (next s) fn mask). by rewrite lookup_insert_eq.
    + destruct (H5 h u Hu Hc) as [->|[Ht|(fd' & e & Hp & He)]]; [by left|by right; left|right; right]. exists fd', e. rewrite lookup_insert_ne; [done|]. intros <-. congruence.
  - intros h. rewrite E5, lookup_insert_is_Some'. intros [<-|Hu]; [lia|]. specialize (H6 h Hu). lia.
  - done.
  - done.
Qed.

(** A live notifier gets another callback. *)
Lemma again_poll_ok (s s' : World) (fd mask : Z) (fn : callback) (e : PollEntry) : dispatcher_ok s -> mPolls (d s) !! fd = Some e ->
  mWakeAsync (d s') = mWakeAsync (d s) -> mTimers (d s') = mTimers (d s) -> mPolls (d s') = <[fd := mkPoll (mHandle e) fn mask]> (mPolls (d s)) -> mClosed (d s') = false ->
  handles s' = handles s -> next s' = next s -> trace s' = Registered (Notifier fd) (cb_name fn) :: trace s -> dispatcher_ok s'.
Proof.
  intros Hs Hn E1 E2 E3 E4 E5 E6 E7. pose proof Hs as [H1 H2 H3 [H4a H4b] H5 H6 H7 H8].
  split; rewrite ?E1, ?E2, ?E3, ?E4, ?E5, ?E6, ?E7; cbn [current faithful]; try done.
  - intros fd' e'. rewrite lookup_insert_Some. intros [[<- <-]|[Hne Hp]]; cbn [mHandle mFn].
    + rewrite decide_True by done. split; [by apply (H3 fd e)|done].
    + rewrite decide_False by congruence. by apply H3.
  - split; [intros id Hid; rewrite decide_False by done; by apply H4a|intros fd'; rewrite lookup_insert_None; intros [Hfd Hne]; rewrite decide_False by congruence; by apply H4b].
  - intros h u Hu Hc. destruct (H5 h u Hu Hc) as [->|[Ht|(fd' & e' & Hp & He)]]; [by left|by right; left|right; right].
    destruct (decide (fd = fd')) as [<-|Hne]; [exists fd, (mkPoll (mHandle e) fn mask); rewrite lookup_insert_eq; simplify_eq; by split|].
    exists fd', e'. by rewrite lookup_insert_ne.
Qed.

(** ** The calls *)
Lemma stop_timer_returns (id : Z) (s : World) : dispatcher_ok s ->
  exists s', stop_timer id s = Ret s' /\ dispatcher_ok s' /\ mInProcessEvents (d s') = mInProcessEvents (d s) /\ trace s `suffix_of` trace s' /\ mTimers (d s') !! id = None.
Proof.
  intros Hs. unfold stop_timer. destruct (mTimers (d s) !! id) as [h|] eqn:Ht; [|by exists s; split_and!].
  destruct (o_timer s Hs id h Ht) as (fn & rep & a & Hh & _ & _).
  eexists. split; [exact (stop_and_close h _ a (with_timers s (delete id (mTimers (d s)))) (fun s => Ret (record (Unregistered (Timer id)) s)) Hh)|].
  split_and!; [by apply (drop_timer_ok s id h _ a)|done|by apply suffix_cons_r|cbn; apply lookup_delete_eq].
Qed.

Lemma start_timer_keeps (id rep : Z) (fn : callback) (s : World) : dispatcher_ok s -> keeps s (start_timer answer id rep fn s).
Proof.
  intros Hs. unfold start_timer. rewrite (o_open s Hs).
  assert (H : exists s1, (if bool_decide (is_Some (mTimers (d s) !! id)) then stop_timer id s else Ret s) = Ret s1 /\ dispatcher_ok s1 /\
    mInProcessEvents (d s1) = mInProcessEvents (d s) /\ trace s `suffix_of` trace s1 /\ mTimers (d s1) !! id = None).
  { case_bool_decide as E; [by apply stop_timer_returns|]. exists s. split_and!; [done|done|done|done|]. by apply eq_None_not_Some. }
  destruct H as (s1 & -> & H1 & E1 & Hl & Hn). cbn [run_bind new_handle ask].
  destruct (answer uv_timer_init _ =? 0); [|done]. cbn [check run_bind ask asked d handles next trace].
  destruct (answer uv_timer_start _ =? 0); [|done]. cbn [check run_bind]. unfold set_handle. cbn [handles]. rewrite lookup_insert_eq. cbn.
  split; [|split; [done|by apply suffix_cons_r]]. apply (add_timer_ok s1 _ id rep fn); cbn; first [done|apply (o_open s1 H1)|by rewrite insert_insert_eq].
Qed.

Lemma unregister_keeps (fd : Z) (s : World) : dispatcher_ok s -> keeps s (unregister_socket_notifier fd s).
Proof.
  intros Hs. unfold unregister_socket_notifier. destruct (mPolls (d s) !! fd) as [e|] eqn:Hp; [|by apply keeps_ret].
  destruct (o_poll s Hs fd e Hp) as [Hh _].
  pose proof (stop_and_close (mHandle e) _ true (with_polls s (delete fd (mPolls (d s)))) (fun s => Ret (record (Unregistered (Notifier fd)) s)) Hh) as E.
  unfold keeps. rewrite E. split; [by apply (drop_poll_ok s fd e _ true)|goes_on].
Qed.

Lemma register_keeps (fd mask : Z) (fn : callback) (s : World) : dispatcher_ok s -> keeps s (register_socket_notifier answer fd mask fn s).
Proof.
  intros Hs. unfold register_socket_notifier. rewrite (o_open s Hs). destruct (mPolls (d s) !! fd) as [e|] eqn:Hp.
  - destruct (o_poll s Hs fd e Hp) as [Hh _]. cbn [ask]. destruct (answer uv_poll_start _ =? 0); [|done]. cbn [check run_bind].
    unfold set_handle. cbn [with_polls with_d handles]. rewrite Hh. cbn. split; [|goes_on].
    apply (again_poll_ok s _ fd mask fn e); cbn; first [done|apply (o_open s Hs)|by apply insert_id].
  - cbn [new_handle ask].
    assert (Hadd : forall n, keeps s (let (start_rc, s0) := ask answer uv_poll_start (mkWorld (d s) (<[next s := mkHandle (PollFdKey fd) false false]> (handles s)) (Pos.succ (next s)) n (trace s)) in
      do _ <- check (start_rc =? 0); do s0 <- set_handle (next s) (PollFdKey fd) true s0;
      Ret (record (Registered (Notifier fd) (cb_name fn)) (with_polls s0 (<[fd := mkPoll (next s) fn mask]> (mPolls (d s0))))))).
    { intros n. cbn [ask asked]. destruct (answer uv_poll_start _ =? 0); [|done]. cbn [check run_bind]. unfold set_handle. cbn [handles]. rewrite lookup_insert_eq. cbn.
      split; [|goes_on]. apply (add_poll_ok s _ fd mask fn); cbn; first [done|apply (o_open s Hs)|by rewrite insert_insert_eq]. }
    destruct (negb (answer uv_poll_init _ =? 0)); [|apply Hadd]. cbn [ask asked]. destruct (answer uv_poll_init_socket _ =? 0); [|done]. cbn [check run_bind]. apply Hadd.
Qed.

Lemma wake_up_keeps (s : World) : dispatcher_ok s -> keeps s (wake_up s).
Proof. intros Hs. unfold wake_up, uv_async_send. rewrite (o_open s Hs). destruct (o_async s Hs) as [a ->]. by apply keeps_ret. Qed.
Lemma interrupt_keeps (s : World) : dispatcher_ok s -> keeps s (interrupt s).
Proof.
  intros Hs. unfold interrupt, uv_async_send. cbn. rewrite (o_open s Hs). cbn. destruct (o_async s Hs) as [a ->]. cbn.
  split; [|goes_on]. by apply (alike_ok s).
Qed.

Lemma call_keeps (again : list happening -> World -> run World) (o : op) (s : World) : dispatcher_ok s ->
  (forall found, keeps s (again found s)) -> keeps s (perform answer again o s).
Proof.
  intros Hs Ha. destruct o; cbn; [by apply start_timer_keeps| |by apply register_keeps|by apply unregister_keeps|by apply wake_up_keeps|by apply interrupt_keeps|apply Ha].
  destruct (stop_timer_returns timer_id s Hs) as (s' & -> & H & E & Hl & _). by split_and!.
Qed.

(** ** Rounds *)
Section Round.
Context (again : list happening -> World -> run World) (again_keeps : forall found s, dispatcher_ok s -> mInProcessEvents (d s) = true -> keeps s (again found s)).

Lemma perform_keeps (o : op) (s : World) : dispatcher_ok s -> mInProcessEvents (d s) = true -> keeps s (perform answer again o s).
Proof.
  intros Hs Hi. apply call_keeps; [done|]. intros found. by apply again_keeps.
Qed.
Lemma perform_all_keeps (l : list op) (s : World) : dispatcher_ok s -> mInProcessEvents (d s) = true -> keeps s (perform_all answer again l s).
Proof.
  revert s. induction l as [|o l IH]; intros s Hs Hi; [by apply keeps_ret|]. cbn [perform_all]. apply keeps_bind; [by apply perform_keeps|].
  intros s1 H1 E1. apply IH; [done|congruence].
Qed.

(** A call of what is registered *)
Lemma called_keeps (s : World) (k : source) (cb : callback) (mask : Z) : dispatcher_ok s -> mInProcessEvents (d s) = true -> current (trace s) k = Some (cb_name cb) ->
  keeps s (perform_all answer again (cb_body cb) (record (Called k (cb_name cb) mask) (with_had_events s true))).
Proof.
  intros Hs Hi Hc. apply (keeps_from s (record (Called k (cb_name cb) mask) (with_had_events s true))); [done|by apply suffix_cons_r|].
  apply (perform_all_keeps (cb_body cb) (record (Called k (cb_name cb) mask) (with_had_events s true))); [|done].
  destruct Hs as [H1 H2 H3 H4 H5 H6 H7 H8]. by split.
Qed.

(** The timer that expired: with or without a repeat it is registered and is called. *)
Lemma expire_ok (s : World) (h : handle) (fn : callback) (id rep : Z) : dispatcher_ok s -> handles s !! h = Some (mkHandle (TimerCallback fn id rep) true false) ->
  mTimers (d s) !! id = Some h /\ current (trace s) (Timer id) = Some (cb_name fn) /\
  dispatcher_ok (with_handles s (<[h := mkHandle (TimerCallback fn id rep) (negb (rep =? 0)) false]> (handles s))).
Proof.
  intros Hs Hh. pose proof Hs as [H1 H2 H3 H4 H5 H6 H7 H8].
  assert (Ht : mTimers (d s) !! id = Some h).
  { destruct (H5 h _ Hh eq_refl) as [->|[[id' Hid]|(fd & e & Hp & He)]].
    - destruct H1 as [a Ha]. congruence.
    - destruct (H2 id' h Hid) as (fn' & rep' & a & Hh' & _). rewrite Hh in Hh'. by simplify_eq.
    - destruct (H3 fd e Hp) as [Hh' _]. congruence. }
  destruct (H2 id h Ht) as (fn' & rep' & a & Hh' & Hc & _). rewrite Hh in Hh'. simplify_eq. split_and!; [done|done|].
  split; cbn [with_handles d handles trace next]; try done.
  - destruct H1 as [b Hb]. exists b. rewrite lookup_insert_ne; [done|]. intros ->. congruence.
  - intros id' h' Ht'. destruct (H2 id' h' Ht') as (f & r & b & Hh' & Hc' & Hr). destruct (decide (h = h')) as [<-|Hne].
    + rewrite Hh in Hh'. simplify_eq. exists f, r, (negb (r =? 0)). rewrite lookup_insert_eq. split_and!; [done|done|]. intros Hnz. by rewrite (proj2 (Z.eqb_neq _ _)).
    + exists f, r, b. by rewrite lookup_insert_ne.
  - intros fd e Hp. destruct (H3 fd e Hp) as [Hh' Hc']. rewrite lookup_insert_ne; [done|]. intros ->. congruence.
  - intros h' u. rewrite lookup_insert_Some. intros [[<- <-]|[Hne Hu]] Hcl; [by apply (H5 h _ Hh)|by apply (H5 h' u)].
  - intros h'. rewrite lookup_insert_is_Some'. intros [<-|Hu]; [apply H6; by rewrite Hh|by apply H6].
Qed.

Lemma deliver_keeps (x : happening) (s : World) : dispatcher_ok s -> mInProcessEvents (d s) = true -> keeps s (deliver answer again x s).
Proof.
  intros Hs Hi. destruct x as [h|h status events|]; [| |by apply keeps_ret]; cbn [deliver]; destruct (handles s !! h) as [[[|fn id rep|fd] [] []]|] eqn:Hh; try (by apply keeps_ret).
  - destruct (expire_ok s h fn id rep Hs Hh) as (Ht & Hc & Hok). unfold on_timer_expired. cbn [with_handles handles]. rewrite lookup_insert_eq. cbn [deref run_bind data].
    by apply (called_keeps (with_handles s _)).
  - unfold on_poll_ready. cbn [with_had_events with_d handles d mPolls]. rewrite Hh. cbn [deref run_bind data].
    destruct (mPolls (d s) !! fd) as [e|] eqn:Hp; [|split; [by apply (alike_ok s)|goes_on]].
    destruct (status <? 0); [split; [by apply (alike_ok s)|goes_on]|].
    apply (called_keeps s (Notifier fd)); [done|done|]. by apply (o_poll s Hs fd e Hp).
Qed.
Lemma deliver_all_keeps (found : list happening) (s : World) : dispatcher_ok s -> mInProcessEvents (d s) = true -> keeps s (deliver_all answer again found s).
Proof.
  revert s. induction found as [|x found IH]; intros s Hs Hi; [by apply keeps_ret|]. cbn [deliver_all]. apply keeps_bind; [by apply deliver_keeps|].
  intros s1 H1 E1. apply IH; [done|congruence].
Qed.

Lemma close_callbacks_ok (s : World) : dispatcher_ok s -> dispatcher_ok (close_callbacks s).
Proof.
  intros Hs. destruct Hs as [H1 H2 H3 H4 H5 H6 H7 H8].
  split; cbn [close_callbacks with_handles d handles trace next]; try done.
  - destruct H1 as [a Ha]. exists a. by apply map_lookup_filter_Some_2.
  - intros id h Ht. destruct (H2 id h Ht) as (fn & rep & a & Hh & Hc). exists fn, rep, a. split; [by apply map_lookup_filter_Some_2|done].
  - intros fd e Hp. destruct (H3 fd e Hp) as [Hh Hc]. split; [by apply map_lookup_filter_Some_2|done].
  - intros h u Hu. apply map_lookup_filter_Some in Hu as [Hu _]. by apply H5.
  - intros h [u Hu]. apply map_lookup_filter_Some in Hu as [Hu _]. apply H6. by rewrite Hu.
Qed.
End Round.

Lemma nested_stops (fuel : nat) (found : list happening) (s : World) : mInProcessEvents (d s) = true -> process_events answer (S fuel) found s = Fatal.
Proof. intros Hi. cbn. by rewrite Hi. Qed.

Lemma round_keeps (fuel : nat) (found : list happening) (s : World) : (2 <= fuel)%nat -> dispatcher_ok s -> keeps s (process_events answer fuel found s).
Proof.
  intros Hf Hs. destruct fuel as [|[|fuel]]; [lia|lia|]. remember (S fuel) as n eqn:En. cbn [process_events].
  destruct (mInProcessEvents (d s)) eqn:Hi; [done|]. cbn [negb check run_bind]. unfold uv_run.
  pose proof (deliver_all_keeps (process_events answer n)) as H. specialize (H ltac:(intros l s0 _ H0; subst n; by rewrite nested_stops) found (with_had_events (with_interrupted (with_in_process s true) false) false)).
  specialize (H ltac:(by apply (alike_ok s)) eq_refl).
  destruct (deliver_all _ _ _ _) as [s1| | |]; try done. destruct H as (H1 & _ & Hl). cbn. split; [|split; [by rewrite Hi|by apply suffix_cons_r]].
  apply close_callbacks_ok in H1. destruct H1 as [H1 H2 H3 H4 H5 H6 H7 H8]. by split.
Qed.
(** ** Programs *)
Inductive reachable : World -> Prop :=
  | reach_new : reachable new_dispatcher
  | reach_call s s' o fuel : reachable s -> (2 <= fuel)%nat -> react answer fuel o s = Ret s' -> reachable s'.

Lemma react_keeps (fuel : nat) (o : op) (s : World) : (2 <= fuel)%nat -> dispatcher_ok s -> keeps s (react answer fuel o s).
Proof. intros Hf Hs. apply call_keeps; [done|]. intros found. by apply round_keeps. Qed.

Lemma uv_reached_ok (s : World) : reachable s -> dispatcher_ok s /\ mInProcessEvents (d s) = false.
Proof.
  induction 1 as [|s s' o fuel Hr [Hs Hi] Hf E]; [split; [apply uv_new_ok|done]|].
  pose proof (react_keeps fuel o s Hf Hs) as H. rewrite E in H. destruct H as (H & Hi' & _). split; [done|congruence].
Qed.

(** C28: Safety: whatever a program and its callbacks do, a call returns or stops at a check, with
    a nesting of two; it never touches a handle that was freed. The handles that libuv has
    open are the doorbell and those of the registered timers and notifiers, no other. What
    was ever called was the callback registered at the time, so that nothing is called for
    a timer or a notifier that was stopped or replaced. *)
Theorem dispatcher_runs (s : World) (o : op) (fuel : nat) : reachable s -> (2 <= fuel)%nat ->
  (react answer fuel o s = Fatal \/ exists s', react answer fuel o s = Ret s' /\ trace s `suffix_of` trace s') /\
  faithful (trace s) /\
  (forall h, (exists u, handles s !! h = Some u /\ closing u = false) <->
    h = mWakeAsync (d s) \/ (exists id, mTimers (d s) !! id = Some h) \/ (exists fd e, mPolls (d s) !! fd = Some e /\ mHandle e = h)).
Proof.
  intros Hr Hf. destruct (uv_reached_ok s Hr) as [Hs Hi]. split_and!; [|apply (o_faithful s Hs)|].
  - pose proof (react_keeps fuel o s Hf Hs) as H. destruct (react answer fuel o s) as [s'| | |]; try done; [|by left]. right. exists s'. by destruct H as (_ & _ & H).
  - intros h. split; [intros (u & Hu & Hc); by apply (o_known s Hs h u)|]. intros [->|[[id Hid]|(fd & e & Hp & <-)]].
    + destruct (o_async s Hs) as [a Ha]. by eexists.
    + destruct (o_timer s Hs id h Hid) as (fn & rep & a & Hh & _). by eexists.
    + destruct (o_poll s Hs fd e Hp) as [Hh _]. by eexists.
Qed.

(** C29: A registered timer that repeats is called by the first round that finds it expired, and a
    notifier by the first that finds it ready without an error, with the interests found. *)
Theorem expired_is_called (s : World) (fuel : nat) (rest : list happening) : reachable s -> (2 <= fuel)%nat ->
  (forall id h fn rep, mTimers (d s) !! id = Some h -> (exists a, handles s !! h = Some (mkHandle (TimerCallback fn id rep) a false)) -> rep <> 0 ->
    current (trace s) (Timer id) = Some (cb_name fn) /\
    keeps_history (Called (Timer id) (cb_name fn) 0 :: trace s) (process_events answer fuel (Expires h :: rest) s)) /\
  (forall fd e status events, mPolls (d s) !! fd = Some e -> 0 <= status ->
    current (trace s) (Notifier fd) = Some (cb_name (mFn e)) /\
    keeps_history (Called (Notifier fd) (cb_name (mFn e)) (to_socket_mask events) :: trace s) (process_events answer fuel (Ready (mHandle e) status events :: rest) s)).
Proof.
  intros Hr Hf. destruct (uv_reached_ok s Hr) as [Hs Hi]. destruct fuel as [|[|fuel]]; [lia|lia|]. remember (S fuel) as n eqn:En.
  assert (Hagain : forall found s, dispatcher_ok s -> mInProcessEvents (d s) = true -> keeps s (process_events answer n found s)) by (intros l s0 _ H0; subst n; by rewrite nested_stops).
  set (s0 := with_had_events (with_interrupted (with_in_process s true) false) false). assert (H0 : dispatcher_ok s0) by by apply (alike_ok s).
  assert (Hgo : forall x t, keeps_history t (deliver answer (process_events answer n) x s0) -> keeps s0 (deliver answer (process_events answer n) x s0) ->
    keeps_history t (process_events answer (S n) (x :: rest) s)).
  { intros x t Ht Hk. cbn [process_events]. rewrite Hi. cbn [negb check run_bind]. fold s0. unfold uv_run. cbn [deliver_all].
    destruct (deliver _ _ x s0) as [s1| | |]; try done. cbn [run_bind]. destruct Hk as (H1 & E1 & _).
    pose proof (deliver_all_keeps _ Hagain rest s1 H1 ltac:(by rewrite E1)) as H2. destruct (deliver_all _ _ rest s1) as [s2| | |]; try done.
    destruct H2 as (_ & _ & Hl). cbn in *. apply suffix_cons_r. by trans (trace s1). }
  split.
  - intros id h fn rep Ht [a Hh] Hnz. destruct (o_timer s Hs id h Ht) as (fn' & rep' & a' & Hh' & Hc & Ha). rewrite Hh in Hh'. simplify_eq. specialize (Ha Hnz). subst a'.
    split; [done|]. apply Hgo; [|by apply deliver_keeps].
    cbn [deliver]. change (handles s0) with (handles s). rewrite Hh. unfold on_timer_expired. cbn [with_handles handles]. rewrite lookup_insert_eq. cbn [deref run_bind data].
    destruct (expire_ok s0 h fn' id rep' H0 Hh) as (_ & _ & Hok).
    set (s1 := record _ _). assert (H1 : dispatcher_ok s1) by (destruct Hok as [K1 K2 K3 K4 K5 K6 K7 K8]; by split).
    pose proof (perform_all_keeps _ Hagain (cb_body fn') s1 H1 eq_refl) as Hk. unfold keeps in Hk.
    change (Called (Timer id) (cb_name fn') 0 :: trace s) with (trace s1). destruct (perform_all _ _ _ _); try done. by destruct Hk as (_ & _ & ?).
  - intros fd e status events Hp Hst. destruct (o_poll s Hs fd e Hp) as [Hh Hc]. split; [done|]. apply Hgo; [|by apply deliver_keeps].
    cbn [deliver]. change (handles s0) with (handles s). rewrite Hh. unfold on_poll_ready. cbn [with_had_events with_d handles d mPolls]. change (handles s0) with (handles s). rewrite Hh. cbn [deref run_bind data].
    change (mPolls (d s0)) with (mPolls (d s)). rewrite Hp. rewrite (proj2 (Z.ltb_ge _ _)) by done.
    set (s1 := record _ _). assert (H1 : dispatcher_ok s1) by (destruct H0 as [K1 K2 K3 K4 K5 K6 K7 K8]; by split).
    pose proof (perform_all_keeps _ Hagain (cb_body (mFn e)) s1 H1 eq_refl) as Hk. unfold keeps in Hk.
    change (Called (Notifier fd) (cb_name (mFn e)) (to_socket_mask events) :: trace s) with (trace s1). destruct (perform_all _ _ _ _); try done. by destruct Hk as (_ & _ & ?).
Qed.

(** ** Destruction *)
Lemma close_all_spec (l : list handle) (s : World) : (forall h, h ∈ l -> is_Some (handles s !! h)) ->
  exists s', close_all l s = Ret s' /\ d s' = d s /\ trace s' = trace s /\ (forall h, is_Some (handles s' !! h) <-> is_Some (handles s !! h)) /\
    forall h u, handles s' !! h = Some u -> closing u = false -> h ∉ l /\ handles s !! h = Some u.
Proof.
  revert s. induction l as [|h l IH]; intros s Hl; [exists s; split_and!; try done; intros h u Hu _; split; [apply not_elem_of_nil|done]|].
  destruct (Hl h) as [u Hu]; [by left|]. cbn [close_all]. unfold uv_close. rewrite Hu. cbn [deref run_bind].
  set (s1 := if negb (closing u) then with_handles s (<[h := mkHandle (data u) false true]> (handles s)) else s).
  assert (E1 : (if negb (closing u) then Ret (with_handles s (<[h := mkHandle (data u) false true]> (handles s))) else Ret s) = Ret s1) by (unfold s1; by case_match).
  assert (Hd : d s1 = d s /\ trace s1 = trace s) by (unfold s1; by case_match).
  assert (Hdom : forall k, is_Some (handles s1 !! k) <-> is_Some (handles s !! k)).
  { intros k. unfold s1. case_match; [|done]. cbn. rewrite lookup_insert_is_Some'. split; [intros [<-|?]; [by rewrite Hu|done]|by right]. }
  assert (Hopen : forall k v, handles s1 !! k = Some v -> closing v = false -> k <> h /\ handles s !! k = Some v).
  { intros k v Hk Hc. unfold s1 in Hk. destruct (closing u) eqn:Ec; cbn in Hk.
    - split; [|done]. intros ->. congruence.
    - apply lookup_insert_Some in Hk as [[<- <-]|[Hne Hk]]; [done|by split]. }
  rewrite E1. cbn [run_bind]. destruct (IH s1) as (s' & E & Ed & Et & Hdom' & Hop); [intros k Hk; apply Hdom, Hl; by right|].
  exists s'. split_and!; [done|by rewrite Ed; apply Hd|by rewrite Et; apply Hd|intros k; by rewrite Hdom'|].
  intros k v Hk Hc. destruct (Hop k v Hk Hc) as [Hnl Hk1]. destruct (Hopen k v Hk1 Hc) as [Hne Hk0]. split; [by apply not_elem_of_cons|done].
Qed.

(** C30: The destructor: every handle is closed, nothing is called in the last round, whatever it
    finds, and libuv has no handle left when the loop is closed. *)
Theorem dispatcher_destroyed (s : World) (fuel : nat) (found : list happening) : reachable s ->
  exists s', destroy answer fuel found s = Ret s' /\ handles s' = ∅ /\ trace s' = trace s.
Proof.
  intros Hr. destruct (uv_reached_ok s Hr) as [Hs Hi]. unfold destroy.
  destruct (close_all_spec [mWakeAsync (d s)] (with_closed s true)) as (s1 & E1 & Ed1 & Et1 & Hdom1 & Ho1).
  { intros h ->%list_elem_of_singleton. destruct (o_async s Hs) as [a Ha]. by exists (mkHandle WakeAsync a false). }
  cbn [close_all] in E1. change (mWakeAsync (d (with_closed s true))) with (mWakeAsync (d s)).
  destruct (uv_close (mWakeAsync (d s)) (with_closed s true)) as [s1'| | |]; try done. cbn in E1. simplify_eq. cbn [run_bind].
  assert (Em : mTimers (d s1) = mTimers (d s) /\ mPolls (d s1) = mPolls (d s)) by (by rewrite Ed1). destruct Em as [Em Ep]. rewrite Em.
  destruct (close_all_spec (snd <$> map_to_list (mTimers (d s))) (with_timers s1 ∅)) as (s2 & E2 & Ed2 & Et2 & Hdom2 & Ho2).
  { intros h Hh. apply list_elem_of_fmap in Hh as ([id h'] & -> & Hin). apply elem_of_map_to_list in Hin. apply Hdom1.
    destruct (o_timer s Hs id h' Hin) as (fn & rep & a & Hh & _). cbn. by rewrite Hh. }
  rewrite E2. cbn [run_bind]. assert (Ep2 : mPolls (d s2) = mPolls (d s)) by (rewrite Ed2; cbn; exact Ep). rewrite Ep2.
  destruct (close_all_spec ((fun p => mHandle (snd p)) <$> map_to_list (mPolls (d s))) (with_polls s2 ∅)) as (s3 & E3 & Ed3 & Et3 & Hdom3 & Ho3).
  { intros h Hh. apply list_elem_of_fmap in Hh as ([fd e] & -> & Hin). apply elem_of_map_to_list in Hin. apply Hdom2, Hdom1.
    destruct (o_poll s Hs fd e Hin) as [Hh _]. cbn. by rewrite Hh. }
  rewrite E3. cbn [run_bind].
  assert (Hall : forall h u, handles s3 !! h = Some u -> closing u = true).
  { intros h u Hu. destruct (closing u) eqn:Hc; [done|]. destruct (Ho3 h u Hu Hc) as [Hn3 Hu2]. destruct (Ho2 h u Hu2 Hc) as [Hn2 Hu1]. destruct (Ho1 h u Hu1 Hc) as [Hn1 Hu0].
    destruct (o_known s Hs h u Hu0 Hc) as [->|[[id Hid]|(fd & e & Hp & <-)]].
    - destruct Hn1. by left.
    - destruct Hn2. apply list_elem_of_fmap. exists (id, h). split; [done|]. by apply elem_of_map_to_list.
    - destruct Hn3. apply list_elem_of_fmap. exists (fd, e). split; [done|]. by apply elem_of_map_to_list. }
  assert (Hquiet : forall l, deliver_all answer (process_events answer fuel) l s3 = Ret s3).
  { induction l as [|x l IH]; [done|]. cbn [deliver_all]. assert (Hx : deliver answer (process_events answer fuel) x s3 = Ret s3); [|by rewrite Hx].
    destruct x as [h|h st ev|]; cbn [deliver]; [| |done]; destruct (handles s3 !! h) as [[x' [] []]|] eqn:Hh; try (by destruct x'); try done; by specialize (Hall h _ Hh). }
  unfold uv_run. rewrite Hquiet. cbn [run_bind].
  assert (Hnone : handles (close_callbacks s3) = ∅).
  { cbn. apply map_eq. intros h. rewrite lookup_empty. apply map_lookup_filter_None. right. intros u Hu. cbn. by rewrite (Hall h u Hu). }
  rewrite bool_decide_true by done. eexists. split; [done|]. split; [done|]. change (trace s3 = trace s). rewrite Et3. change (trace s2 = trace s). rewrite Et2. change (trace s1 = trace s). by rewrite Et1.
Qed.
End Facts.

(** The interests delivered are those asked for. *)
Theorem masks_agree (m : Z) : to_socket_mask (to_uv_poll_events m) = Z.land m (Z.lor kRead kWrite).
Proof.
  unfold to_uv_poll_events, to_socket_mask, kRead, kWrite, UV_READABLE, UV_WRITABLE.
  assert (H1 : Z.land m 1 = Z.b2z (Z.testbit m 0)) by (rewrite Z.bit0_mod; apply (Z.land_ones m 1); lia).
  assert (H2 : Z.land m 2 = 2 * Z.b2z (Z.testbit m 1)).
  { apply Z.bits_inj'. intros n Hn. rewrite Z.land_spec. destruct (decide (n = 1)) as [->|Hne].
    - rewrite andb_true_r. destruct (Z.testbit m 1); done.
    - replace (Z.testbit 2 n) with false by (symmetry; change 2 with (2 ^ 1); apply Z.pow2_bits_false; lia). rewrite andb_false_r.
      destruct (Z.testbit m 1); cbn [Z.b2z]; [change (2 * 1) with (2 ^ 1); symmetry; apply Z.pow2_bits_false; lia|by rewrite Z.bits_0]. }
  rewrite Z.land_lor_distr_r, H1, H2. by destruct (Z.testbit m 0), (Z.testbit m 1).
Qed.

(** ** Instances *)
Definition all_well (_ : uv_call) (_ : nat) : Z := 0.
Definition result (r : run World) : World := match r with Ret s => s | _ => new_dispatcher end.
Definition run_calls (l : list op) : World := fold_left (fun s o => result (react all_well 2 o s)) l new_dispatcher.

(** Timers that stop and start one another, and a notifier *)
Definition busy : list op :=
  [StartTimer 1 10 (Callback 1 [StopTimer 2; StartTimer 3 5 (Callback 3 [])]); StartTimer 2 10 (Callback 2 []);
   RegisterNotifier 7 3 (Callback 4 [UnregisterNotifier 7; Interrupt])].
Definition busy_after : World := run_calls (busy ++ [ProcessEvents [Expires 2; Expires 3; Ready 4 0 1; Rings]]).

Lemma busy_reachable : reachable all_well (run_calls busy).
Proof.
  apply (reach_call all_well (run_calls (take 2 busy)) _ (RegisterNotifier 7 3 (Callback 4 [UnregisterNotifier 7; Interrupt])) 2); [|lia|by vm_compute].
  apply (reach_call all_well (run_calls (take 1 busy)) _ (StartTimer 2 10 (Callback 2 [])) 2); [|lia|by vm_compute].
  apply (reach_call all_well new_dispatcher _ (StartTimer 1 10 (Callback 1 [StopTimer 2; StartTimer 3 5 (Callback 3 [])])) 2); [apply reach_new|lia|by vm_compute].
Qed.

Lemma dispatcher_runs_witness : (react all_well 2 (ProcessEvents [Expires 2]) (run_calls busy) = Fatal \/
  exists s', react all_well 2 (ProcessEvents [Expires 2]) (run_calls busy) = Ret s' /\ trace (run_calls busy) `suffix_of` trace s') /\
  head (trace busy_after) = Some (Processed false).
Proof. split; [|by vm_compute]. apply (dispatcher_runs all_well (run_calls busy) (ProcessEvents [Expires 2]) 2); [apply busy_reachable|lia]. Defined.

Lemma expired_is_called_witness : keeps_history (Called (Timer 1) 1 0 :: trace (run_calls busy)) (process_events all_well 2 [Expires 2; Rings] (run_calls busy)).
Proof.
  apply (proj1 (expired_is_called all_well (run_calls busy) 2 [Rings] busy_reachable ltac:(lia)) 1 2%positive (Callback 1 [StopTimer 2; StartTimer 3 5 (Callback 3 [])]) 10);
    [by vm_compute|exists true; by vm_compute|done].
Defined.

Lemma dispatcher_destroyed_witness : exists s', destroy all_well 2 [Expires 2; Ready 4 0 1] (run_calls busy) = Ret s' /\ handles s' = ∅ /\ trace s' = trace (run_calls busy).
Proof. apply (dispatcher_destroyed all_well (run_calls busy) 2 [Expires 2; Ready 4 0 1] busy_reachable). Defined.

(** ** What does not hold *)

Lemma quiet_round (s : World) (found : list happening) : mInProcessEvents (d s) = false ->
  (forall h, match handles s !! h with None | Some (mkHandle WakeAsync _ _) | Some (mkHandle _ false _) => True | _ => False end) ->
  exists s', process_events all_well 2 found s = Ret s' /\ trace s' = Processed false :: trace s.
Proof.
  intros Hi Hq. cbn [process_events]. rewrite Hi. cbn [negb check run_bind]. unfold uv_run.
  set (s0 := with_had_events (with_interrupted (with_in_process s true) false) false).
  assert (Hnone : forall again, deliver_all all_well again found s0 = Ret s0).
  { intros again. induction found as [|x found IH]; [done|]. cbn [deliver_all]. assert (Hx : deliver all_well again x s0 = Ret s0); [|by rewrite Hx].
    destruct x as [h|h st ev|]; cbn [deliver]; [| |done]; change (handles s0) with (handles s); specialize (Hq h);
      by destruct (handles s !! h) as [[[] [] []]|]. }
  rewrite Hnone. by eexists.
Qed.

(** A timer of interval zero has no repeat: after its first call it stays registered and is
    never called again, whatever the rounds find. *)
Definition zero_timer : World := run_calls [StartTimer 1 0 (Callback 1 []); ProcessEvents [Expires 2]].
Theorem zero_timer_fires_once : is_Some (mTimers (d zero_timer) !! 1) /\ trace zero_timer = [Processed true; Called (Timer 1) 1 0; Registered (Timer 1) 1] /\
  forall found, exists s, process_events all_well 2 found zero_timer = Ret s /\ trace s = Processed false :: trace zero_timer.
Proof.
  split; [eexists; by vm_compute|]. split; [by vm_compute|]. intros found.
  apply quiet_round; [by vm_compute|]. intros h. replace (handles zero_timer) with
    (<[1%positive := mkHandle WakeAsync true false]> {[2%positive := mkHandle (TimerCallback (Callback 1 []) 1 0) false false]} : gmap handle uv_handle) by by vm_compute.
  destruct (decide (h = 1%positive)) as [->|]; [by rewrite lookup_insert_eq|]. rewrite lookup_insert_ne by done.
  destruct (decide (h = 2%positive)) as [->|]; [by rewrite lookup_singleton_eq|by rewrite lookup_singleton_ne].
Qed.

(** A round that only finds the doorbell has processed nothing. *)
Theorem doorbell_is_no_event : head (trace (run_calls [WakeUp; ProcessEvents [Rings]])) = Some (Processed false).
Proof. by vm_compute. Qed.
