(* ===== verification/FramePool.v ===== *)
(** * The pool of video frame buffers

    Models [VideoFrameBufferPool] of [src/cxxkit/media/video_frame_buffer_pool.cpp] over the
    counted objects of [RefCount]: the pool keeps a reference to every buffer it made, and a
    buffer that nobody else has is handed out again. Of a buffer the model has the size and
    whether its pixels were cleared. Shows that no buffer is handed to two owners. *)

From stdpp Require Import prelude list gmap.
From Stdlib Require Import ZArith Lia.
From S2P Require Import Prelude RefCount.

#[local] Open Scope Z_scope.
#[local] Open Scope cxx_scope.

Record I420Buffer := mkI420 { mWidth : Z; mHeight : Z; cleared : bool }.
Definition heap := RefCount.heap (T := I420Buffer) (M := unit).
Definition destructor (_ : loc) (_ : I420Buffer) (m : unit) : run unit := Ret m.

Record VideoFrameBufferPool := mkPool { mBuffers : list loc; mZeroInitialize : bool; mMaxNumberOfBuffers : Z }.
Definition with_buffers (p : VideoFrameBufferPool) l := mkPool l (mZeroInitialize p) (mMaxNumberOfBuffers p).
Definition with_max (p : VideoFrameBufferPool) n := mkPool (mBuffers p) (mZeroInitialize p) n.

Definition new_pool (zero_initialize : bool) (max_number_of_buffers : Z) : VideoFrameBufferPool := mkPool [] zero_initialize max_number_of_buffers.

(** [clear]: every reference is given back. *)
Fixpoint give_back (h : heap) (l : list loc) : run heap :=
  match l with [] => Ret h | b :: l => do (h, _) <- release destructor h b; give_back h l end.
Definition release_all (h : heap) (p : VideoFrameBufferPool) : run (heap * VideoFrameBufferPool) :=
  do h <- give_back h (mBuffers p); Ret (h, with_buffers p []).

Fixpoint count_used (h : heap) (l : list loc) : run Z :=
  match l with
  | [] => Ret 0
  | b :: l => do one <- has_one_ref h b; do n <- count_used h l; Ret (if one : bool then n else n + 1)
  end.
Fixpoint purge (h : heap) (l : list loc) (buffers_to_purge : Z) : run (heap * list loc) :=
  match l with
  | [] => Ret (h, [])
  | b :: l =>
      if 0 <? buffers_to_purge then
        do one <- has_one_ref h b;
        if one : bool then do (h, _) <- release destructor h b; purge h l (buffers_to_purge - 1)
        else do (h, l) <- purge h l buffers_to_purge; Ret (h, b :: l)
      else Ret (h, b :: l)
  end.

Definition resize (max_number_of_buffers : Z) (h : heap) (p : VideoFrameBufferPool) : run (bool * heap * VideoFrameBufferPool) :=
  do used_buffers_count <- count_used h (mBuffers p);
  if max_number_of_buffers <? used_buffers_count then Ret (false, h, p)
  else
    let p := with_max p max_number_of_buffers in
    let buffers_to_purge := wrap 64 (Z.of_nat (length (mBuffers p)) - mMaxNumberOfBuffers p) in
    do (h, l) <- purge h (mBuffers p) buffers_to_purge;
    Ret (true, h, with_buffers p l).

Fixpoint drop_wrong (width height : Z) (h : heap) (l : list loc) : run (heap * list loc) :=
  match l with
  | [] => Ret (h, [])
  | b :: l =>
      do v <- value_at h b;
      if negb (mWidth v =? width) || negb (mHeight v =? height) then
        do (h, _) <- release destructor h b; drop_wrong width height h l
      else do (h, l) <- drop_wrong width height h l; Ret (h, b :: l)
  end.
Fixpoint find_free (h : heap) (l : list loc) : run (option loc) :=
  match l with
  | [] => Ret None
  | b :: l => do one <- has_one_ref h b; if one : bool then Ret (Some b) else find_free h l
  end.
(** The pointer returned is a copy. *)
Definition get_existing_buffer (width height : Z) (h : heap) (p : VideoFrameBufferPool) : run (SharedRefPtr * heap * VideoFrameBufferPool) :=
  do (h, l) <- drop_wrong width height h (mBuffers p);
  do found <- find_free h l;
  do (h, ptr) <- construct h found;
  Ret (ptr, h, with_buffers p l).

Definition create_i420_buffer (width height : Z) (h : heap) (p : VideoFrameBufferPool) : run (SharedRefPtr * heap * VideoFrameBufferPool) :=
  do (existing_buffer, h, p) <- get_existing_buffer width height h p;
  match existing_buffer with
  | Some raw_buffer =>
      do (h, ptr) <- construct h (Some raw_buffer);
      do h <- destroy destructor h existing_buffer;
      Ret (ptr, h, p)
  | None =>
      if mMaxNumberOfBuffers p <=? Z.of_nat (length (mBuffers p)) then Ret (None, h, p)
      else
        do _ <- check (0 <? width);
        do _ <- check (0 <? height);
        let (h, l) := new_object h (mkI420 width height false) in
        do (h, buffer) <- construct h (Some l);
        do h <- (if mZeroInitialize p then set_value h l (mkI420 width height true) else Ret h);
        do (h, copy) <- copy_construct h buffer;
        Ret (buffer, h, with_buffers p (mBuffers p ++ [l]))
  end.

(** The application makes buffers, drops those it has, and resizes and clears the pool. *)
Inductive op := Create (width height : Z) | Drop (i : nat) | Resize (n : Z) | Release.
Definition state := (heap * VideoFrameBufferPool * list loc)%type.
Definition step (o : op) (s : state) : run state :=
  let '(h, p, app) := s in
  match o with
  | Create width height => do (r, h, p) <- create_i420_buffer width height h p; Ret (h, p, match r : SharedRefPtr with Some l => l :: app | None => app end)
  | Drop i => match app !! i with Some l => do (h, _) <- release destructor h l; Ret (h, p, delete i app) | None => Ret s end
  | Resize n => do (_, h, p) <- resize n h p; Ret (h, p, app)
  | Release => do (h, p) <- release_all h p; Ret (h, p, app)
  end.
Fixpoint steps (os : list op) (s : state) : run state :=
  match os with [] => Ret s | o :: os => do s <- step o s; steps os s end.
Definition op_ok (o : op) : bool :=
  match o with Create width height => (0 <? width) && (0 <? height) | Resize n => (0 <=? n) && (n <? 2 ^ 64) | _ => true end.
Definition empty_heap : heap := mkHeap ∅ 1%positive tt.

(** ** Owners *)
Definition held (ls : list loc) (l : loc) : Z := foldr (fun b z => owner (Some b) l + z) 0 ls.

(** The pool has a reference to each of its buffers, and the application to those of [app]. *)
Record pool_ok (h : heap) (p : VideoFrameBufferPool) (app : list loc) : Prop := {
  p_counted : counted h (fun l => held (mBuffers p) l + held app l);
  p_nodup : NoDup (mBuffers p);
  p_room : Z.of_nat (length (mBuffers p)) <= mMaxNumberOfBuffers p < 2 ^ 64
}.

Lemma held_cons (b : loc) (ls : list loc) (l : loc) : held (b :: ls) l = owner (Some b) l + held ls l.
Proof. done. Qed.
Lemma held_nonneg (ls : list loc) (l : loc) : 0 <= held ls l.
Proof. induction ls as [|b ls IH]; [done|]. rewrite held_cons. pose proof (owner_range (Some b) l). lia. Qed.
Lemma held_elem (ls : list loc) (l : loc) : l ∈ ls <-> held ls l <> 0.
Proof.
  induction ls as [|b ls IH]; [split; [by intros ?%elem_of_nil|done]|]. rewrite elem_of_cons, IH, held_cons. pose proof (held_nonneg ls l).
  destruct (decide (b = l)) as [->|Hne]; [rewrite owner_same; split; [intros _; lia|by left]|]. rewrite owner_other by congruence. split; [intros [->|]; [done|lia]|intros ?; right; lia].
Qed.
Lemma held_none (ls : list loc) (l : loc) : l ∉ ls <-> held ls l = 0.
Proof. rewrite held_elem. destruct (Z.eq_dec (held ls l) 0); tauto. Qed.
Lemma held_app (l1 l2 : list loc) (l : loc) : held (l1 ++ l2) l = held l1 l + held l2 l.
Proof. induction l1 as [|b l1 IH]; [done|]. rewrite <-app_comm_cons, !held_cons, IH. lia. Qed.

Lemma one_ref_spec (h : heap) (refs : loc -> Z) (l : loc) : counted h refs -> refs l <> 0 -> has_one_ref h l = Ret (refs l =? 1).
Proof.
  intros Hc Hr. destruct (cnt_alive _ _ Hc l Hr) as [o Ho]. unfold has_one_ref. rewrite Ho. cbn. by rewrite (proj1 (cnt_exact _ _ Hc l o Ho)).
Qed.
Lemma alive (h : heap) (refs : loc -> Z) (l : loc) : counted h refs -> refs l <> 0 -> exists o, objects h !! l = Some o.
Proof. intros Hc Hr. apply (cnt_alive _ _ Hc l Hr). Qed.

(** What stays: the values of the objects that are still owned *)
Definition same_values (h h' : heap) (refs : loc -> Z) : Prop := forall l, refs l <> 0 -> value <$> objects h' !! l = value <$> objects h !! l.

(** The pool gives one reference back. *)
Lemma drop_spec (h : heap) (b : loc) (others : loc -> Z) : counted h (fun l => owner (Some b) l + others l) -> (forall l, 0 <= others l) ->
  exists h' st, release destructor h b = Ret (h', st) /\ counted h' others /\ same_values h h' others.
Proof.
  intros Hc Ho. destruct (alive _ _ b Hc) as [o Hb]; [rewrite owner_same; pose proof (Ho b); lia|].
  destruct (release_object_spec destructor h others b o) as (h' & st & E & Hc' & _ & Hcase); [by eapply owners_ext; [|exact Hc]; intros l; cbn; lia|done|done|by intros _; exists (world h)|].
  exists h', st. split_and!; [done|done|]. intros l Hl. destruct Hcase as [(Hz & _ & E' & _)|(_ & _ & E' & _)].
  - rewrite E', lookup_delete_ne; [done|]. by intros ->.
  - apply (f_equal (fun m => m !! l)) in E'. by rewrite !lookup_fmap in E'.
Qed.

Lemma list_filter_iff_elem (P Q : loc -> Prop) `{forall l, Decision (P l)} `{forall l, Decision (Q l)} (ls : list loc) :
  (forall l, l ∈ ls -> P l <-> Q l) -> filter P ls = filter Q ls.
Proof.
  induction ls as [|b ls IH]; intros HPQ; [done|]. rewrite !filter_cons, IH by (intros l Hl; apply HPQ; by right).
  destruct (HPQ b ltac:(by left)) as [H1 H2]. case_decide; case_decide; naive_solver.
Qed.

(** ** The loops, with references held elsewhere *)
Definition free (others : loc -> Z) (ls : list loc) : nat := length (filter (fun l => others l = 0) ls).
Definition shifted (others : loc -> Z) (b l : loc) : Z := others l + owner (Some b) l.

Lemma shifted_same (others : loc -> Z) (b l : loc) : l <> b -> shifted others b l = others l.
Proof. intros Hne. unfold shifted. rewrite owner_other by congruence. lia. Qed.
Lemma free_shifted (others : loc -> Z) (b : loc) (ls : list loc) : b ∉ ls -> free (shifted others b) ls = free others ls.
Proof.
  unfold free. induction ls as [|x ls IH]; intros Hb; [done|]. apply not_elem_of_cons in Hb as [Hne Hb]. rewrite !filter_cons.
  rewrite shifted_same by done. case_decide; cbn; by rewrite IH.
Qed.
Lemma free_cons (others : loc -> Z) (b : loc) (ls : list loc) : free others (b :: ls) = ((if decide (others b = 0%Z) then 1 else 0) + free others ls)%nat.
Proof. unfold free. rewrite filter_cons. by case_decide. Qed.

Lemma one_of_head (h : heap) (b : loc) (ls : list loc) (others : loc -> Z) : counted h (fun l => held (b :: ls) l + others l) -> NoDup (b :: ls) -> (forall l, 0 <= others l) ->
  has_one_ref h b = Ret (bool_decide (others b = 0)).
Proof.
  intros Hc [Hb _]%NoDup_cons Ho. pose proof (held_nonneg ls b). pose proof (Ho b). rewrite (one_ref_spec h _ b Hc); cbn beta; rewrite held_cons, owner_same; [|lia].
  apply held_none in Hb. rewrite Hb. f_equal. destruct (Z.eqb_spec (1 + 0 + others b) 1); case_bool_decide; lia || done.
Qed.
Lemma count_tail (h : heap) (b : loc) (ls : list loc) (others : loc -> Z) : counted h (fun l => held (b :: ls) l + others l) -> counted h (fun l => held ls l + shifted others b l).
Proof. intros Hc. eapply owners_ext; [|exact Hc]. intros l. unfold shifted. rewrite held_cons. lia. Qed.
Lemma shifted_nonneg (others : loc -> Z) (b l : loc) : (forall l, 0 <= others l) -> 0 <= shifted others b l.
Proof. intros Ho. unfold shifted. pose proof (owner_range (Some b) l). pose proof (Ho l). lia. Qed.

Lemma count_used_spec (h : heap) (ls : list loc) (others : loc -> Z) : counted h (fun l => held ls l + others l) -> NoDup ls -> (forall l, 0 <= others l) ->
  count_used h ls = Ret (Z.of_nat (length ls) - Z.of_nat (free others ls)).
Proof.
  revert others. induction ls as [|b ls IH]; intros others Hc Hd Ho; [done|]. cbn [count_used]. rewrite (one_of_head h b ls others Hc Hd Ho). cbn [run_bind].
  apply NoDup_cons in Hd as [Hb Hd]. rewrite (IH (shifted others b) (count_tail _ _ _ _ Hc) Hd (fun l => shifted_nonneg others b l Ho)). cbn [run_bind].
  rewrite free_shifted, free_cons by done. f_equal. cbn [length]. case_bool_decide; case_decide; lia || done.
Qed.

Lemma find_free_spec (h : heap) (ls : list loc) (others : loc -> Z) : counted h (fun l => held ls l + others l) -> NoDup ls -> (forall l, 0 <= others l) ->
  exists r, find_free h ls = Ret r /\ match r with Some b => b ∈ ls /\ others b = 0 | None => forall b, b ∈ ls -> others b <> 0 end.
Proof.
  revert others. induction ls as [|b ls IH]; intros others Hc Hd Ho; [exists None; split; [done|by intros b ?%elem_of_nil]|].
  cbn [find_free]. rewrite (one_of_head h b ls others Hc Hd Ho). cbn [run_bind]. case_bool_decide as E; [exists (Some b); split; [done|split; [by left|done]]|].
  apply NoDup_cons in Hd as [Hb Hd]. destruct (IH (shifted others b) (count_tail _ _ _ _ Hc) Hd (fun l => shifted_nonneg others b l Ho)) as (r & Er & Hr).
  exists r. split; [done|]. destruct r as [x|].
  - destruct Hr as [Hx Hz]. rewrite shifted_same in Hz by (intros ->; done). split; [by right|done].
  - intros x [->|Hx]%elem_of_cons; [done|]. specialize (Hr x Hx). by rewrite shifted_same in Hr by (intros ->; done).
Qed.

Lemma purge_spec (ls : list loc) : forall (h : heap) (others : loc -> Z) (k : Z), counted h (fun l => held ls l + others l) -> NoDup ls -> (forall l, 0 <= others l) -> 0 <= k ->
  exists h' ls', purge h ls k = Ret (h', ls') /\ counted h' (fun l => held ls' l + others l) /\ sublist ls' ls /\ (forall l, l ∈ ls -> others l <> 0 -> l ∈ ls') /\
    Z.of_nat (length ls') = Z.of_nat (length ls) - Z.min k (Z.of_nat (free others ls)) /\ same_values h h' (fun l => held ls' l + others l).
Proof.
  induction ls as [|b ls IH]; intros h others k Hc Hd Ho Hk; cbn [purge].
  - exists h, []. split_and!; [done|done|done|done|cbn; lia|done].
  - destruct (Z.ltb_spec 0 k) as [Hk0|Hk0].
    2:{ exists h, (b :: ls). split_and!; [done|done|done|done|lia|done]. }
    rewrite (one_of_head h b ls others Hc Hd Ho). cbn [run_bind]. pose proof Hd as [Hb Hd']%NoDup_cons. case_bool_decide as E.
    + destruct (drop_spec h b (fun l => held ls l + others l)) as (h1 & st & E1 & Hc1 & V1); [eapply owners_ext; [|exact Hc]; intros l; cbn beta; rewrite held_cons; lia|intros l; pose proof (held_nonneg ls l); pose proof (Ho l); lia|].
      rewrite E1. cbn [run_bind]. destruct (IH h1 others (k - 1) Hc1 Hd' Ho ltac:(lia)) as (h2 & ls2 & E2 & Hc2 & S2 & U2 & L2 & V2).
      exists h2, ls2. split_and!; [done|done|by constructor|intros l [->|Hl]%elem_of_cons Hn; [done|by apply U2]| |].
      * rewrite free_cons, decide_True by done. cbn [length]. lia.
      * intros l Hl. rewrite V2 by done. apply V1. pose proof (Ho l). pose proof (held_nonneg ls l). pose proof (held_nonneg ls2 l).
        destruct (decide (others l = 0)) as [Hz|]; [|lia]. rewrite Hz in *. assert (l ∈ ls2) by (apply held_elem; lia). assert (l ∈ ls) by (by eapply elem_of_sublist). rewrite held_elem in *. lia.
    + destruct (IH h (shifted others b) k (count_tail _ _ _ _ Hc) Hd' (fun l => shifted_nonneg others b l Ho) Hk) as (h2 & ls2 & E2 & Hc2 & S2 & U2 & L2 & V2).
      rewrite E2. cbn [run_bind]. assert (Hx : forall l, held (b :: ls2) l + others l = held ls2 l + shifted others b l) by (intros l; unfold shifted; rewrite held_cons; lia).
      exists h2, (b :: ls2). split_and!; [done|by eapply owners_ext; [|exact Hc2]|by constructor| | |].
      * intros l [->|Hl]%elem_of_cons Hn; [by left|]. right. apply U2; [done|]. by rewrite shifted_same by (by intros ->).
      * rewrite free_cons, decide_False by done. rewrite free_shifted in L2 by done. cbn [length]. lia.
      * intros l Hl. apply V2. by rewrite <-Hx.
Qed.

(** Whether a buffer has the size asked for *)
Definition right_size (width height : Z) (h : heap) (l : loc) : bool :=
  match objects h !! l with Some o => (mWidth (value o) =? width) && (mHeight (value o) =? height) | None => false end.

Lemma value_right_size (h h' : heap) (width height : Z) (l : loc) : value <$> objects h' !! l = value <$> objects h !! l -> right_size width height h' l = right_size width height h l.
Proof. unfold right_size. destruct (objects h' !! l), (objects h !! l); cbn; intros [=]; congruence. Qed.

Lemma drop_wrong_spec (width height : Z) (ls : list loc) : forall (h : heap) (others : loc -> Z), counted h (fun l => held ls l + others l) -> NoDup ls -> (forall l, 0 <= others l) ->
  exists h' ls', drop_wrong width height h ls = Ret (h', ls') /\ counted h' (fun l => held ls' l + others l) /\ ls' = filter (fun l => right_size width height h l = true) ls /\
    same_values h h' (fun l => held ls' l + others l).
Proof.
  induction ls as [|b ls IH]; intros h others Hc Hd Ho; cbn [drop_wrong]; [by exists h, []|].
  pose proof Hd as [Hb Hd']%NoDup_cons. pose proof (held_nonneg ls b) as Hn. pose proof (Ho b) as Hob.
  destruct (alive h _ b Hc) as [o Hbo]; [rewrite held_cons, owner_same; lia|]. unfold value_at. rewrite Hbo. cbn [deref run_bind].
  assert (Er : right_size width height h b = (mWidth (value o) =? width) && (mHeight (value o) =? height)) by (unfold right_size; by rewrite Hbo).
  rewrite filter_cons. rewrite <-negb_andb, <-Er. destruct (right_size width height h b) eqn:Eb; cbn [negb].
  - rewrite decide_True by done. destruct (IH h (shifted others b) (count_tail _ _ _ _ Hc) Hd' (fun l => shifted_nonneg others b l Ho)) as (h2 & ls2 & E2 & Hc2 & S2 & V2).
    rewrite E2. cbn [run_bind]. assert (Hx : forall l, held (b :: ls2) l + others l = held ls2 l + shifted others b l) by (intros l; unfold shifted; rewrite held_cons; lia).
    exists h2, (b :: ls2). split_and!; [done|by eapply owners_ext; [|exact Hc2]|by rewrite S2|]. intros l Hl. apply V2. by rewrite <-Hx.
  - rewrite decide_False by done.
    destruct (drop_spec h b (fun l => held ls l + others l)) as (h1 & st & E1 & Hc1 & V1); [eapply owners_ext; [|exact Hc]; intros l; cbn beta; rewrite held_cons; lia|intros l; pose proof (held_nonneg ls l); pose proof (Ho l); lia|].
    rewrite E1. cbn [run_bind]. destruct (IH h1 others Hc1 Hd' Ho) as (h2 & ls2 & E2 & Hc2 & S2 & V2). exists h2, ls2.
    assert (Hf : ls2 = filter (fun l => right_size width height h l = true) ls).
    { rewrite S2. apply list_filter_iff_elem. intros l Hl. rewrite (value_right_size h h1); [done|]. apply V1. apply held_elem in Hl. pose proof (held_nonneg ls l). pose proof (Ho l). lia. }
    split_and!; [done|done|done|]. intros l Hl. rewrite V2 by done. apply V1. pose proof (Ho l). pose proof (held_nonneg ls l). pose proof (held_nonneg ls2 l).
    destruct (decide (others l = 0)) as [Hz|]; [|lia]. rewrite Hz in *. assert (Hl2 : l ∈ ls2) by (apply held_elem; lia). rewrite S2 in Hl2. apply list_elem_of_filter in Hl2 as [_ Hl2]. rewrite held_elem in Hl2. lia.
Qed.

(** ** What the pool promises *)
Lemma take_ref (h : heap) (refs : loc -> Z) (b : loc) : counted h refs -> 0 < refs b < 2 ^ 31 - 1 ->
  exists h', construct h (Some b) = Ret (h', Some b) /\ counted h' (fun l => refs l + owner (Some b) l) /\ (forall l, value <$> objects h' !! l = value <$> objects h !! l).
Proof.
  intros Hc Hr. destruct (add_ref_object_spec h refs b Hc) as (h' & E & Hc' & _ & _ & V); [apply (cnt_alive _ _ Hc); lia|lia|].
  exists h'. unfold construct. rewrite E. split_and!; [done|done|]. intros l. apply (f_equal (fun m => m !! l)) in V. by rewrite !lookup_fmap in V.
Qed.

Lemma reuse_spec (h : heap) (p : VideoFrameBufferPool) (app : list loc) (b : loc) : pool_ok h p app -> b ∈ mBuffers p -> b ∉ app ->
  exists h1 h2 h3, construct h (Some b) = Ret (h1, Some b) /\ construct h1 (Some b) = Ret (h2, Some b) /\ destroy destructor h2 (Some b) = Ret h3 /\
    pool_ok h3 p (b :: app) /\ same_values h h3 (fun l => held (mBuffers p) l + held app l).
Proof.
  intros [Hc Hd Hr] Hb Ha. assert (Hone : held (mBuffers p) b + held app b = 1).
  { apply held_none in Ha. rewrite Ha. clear -Hb Hd. induction Hd as [|x ls Hx Hd IH]; [by apply elem_of_nil in Hb|]. rewrite held_cons. apply elem_of_cons in Hb as [->|Hb].
    - rewrite owner_same. apply held_none in Hx. lia.
    - rewrite owner_other by (intros [= ->]; done). specialize (IH Hb). lia. }
  destruct (take_ref h _ b Hc) as (h1 & E1 & Hc1 & V1); [cbn beta; lia|].
  destruct (take_ref h1 _ b Hc1) as (h2 & E2 & Hc2 & V2); [cbn beta; rewrite owner_same; lia|].
  destruct (drop_spec h2 b (fun l => held (mBuffers p) l + held (b :: app) l)) as (h3 & st & E3 & Hc3 & V3).
  { eapply owners_ext; [|exact Hc2]. intros l. cbn beta. rewrite held_cons. lia. }
  { intros l. pose proof (held_nonneg (mBuffers p) l). pose proof (held_nonneg (b :: app) l). lia. }
  exists h1, h2, h3. split_and!; [done|done| |by split|].
  - unfold destroy. by rewrite E3.
  - intros l Hl. rewrite V3, V2, V1; [done|]. rewrite held_cons. pose proof (owner_range (Some b) l). pose proof (held_nonneg (mBuffers p) l). pose proof (held_nonneg app l). lia.
Qed.

Lemma new_buffer_spec (h : heap) (refs : loc -> Z) (v w : I420Buffer) (zero : bool) : counted h refs ->
  exists h', (forall X (k : heap -> SharedRefPtr -> loc -> run X), (let (h, l) := new_object h v in
     do (h, buffer) <- construct h (Some l);
     do h <- (if zero then set_value h l w else Ret h);
     do (h, copy) <- copy_construct h buffer;
     k h buffer l) = k h' (Some (next_loc h)) (next_loc h)) /\
    counted h' (fun l => refs l + owner (Some (next_loc h)) l + owner (Some (next_loc h)) l) /\
    (forall l, objects h' !! l = if bool_decide (l = next_loc h) then Some (mkObject 2 (if zero then w else v)) else objects h !! l) /\ refs (next_loc h) = 0.
Proof.
  intros Hc. destruct (new_object_spec h refs v Hc) as (h1 & E1 & Hc1 & _ & O1 & F1 & N1). cbn [new_object fst snd] in E1. unfold new_object, construct. rewrite E1. cbn [run_bind].
  assert (Hz : refs (next_loc h) = 0) by (destruct (decide (refs (next_loc h) = 0)) as [|Hn]; [done|]; destruct (cnt_alive _ _ Hc _ Hn) as [? E]; congruence).
  assert (E2 : exists h2, (if zero then set_value h1 (next_loc h) w else Ret h1) = Ret h2 /\ objects h2 = <[next_loc h := mkObject 1 (if zero then w else v)]> (objects h) /\ next_loc h2 = next_loc h1).
  { destruct zero; [|by exists h1]. unfold set_value. rewrite O1, lookup_insert_eq. cbn. eexists. split; [done|]. split; [|done]. cbn. by rewrite insert_insert_eq. }
  destruct E2 as (h2 & E2 & O2 & N2). rewrite E2. cbn [run_bind].
  assert (Hc2 : counted h2 (fun l => refs l + owner (Some (next_loc h)) l)).
  { destruct Hc1 as [H1 H2 H3]. rewrite O1 in *. split; rewrite O2; [|intros l; specialize (H2 l)|intros l; rewrite N2; specialize (H3 l)].
    - intros l o Hl. specialize (H1 l). rewrite lookup_insert in Hl, H1. case_decide; [injection Hl as <-; by apply (H1 _ eq_refl)|by apply H1].
    - intros Hl. specialize (H2 Hl). rewrite lookup_insert in *. by case_decide.
    - intros Hl. apply H3. rewrite lookup_insert in *. by case_decide. }
  unfold copy_construct, construct, add_ref. rewrite O2, lookup_insert_eq. cbn [deref run_bind value mRefCount].
  destruct (add_ref_object_spec h2 _ (next_loc h) Hc2) as (h3 & E3 & Hc3 & _); [by rewrite O2, lookup_insert_eq|rewrite Hz, owner_same; lia|].
  unfold add_ref in E3. rewrite O2, lookup_insert_eq in E3. cbn [deref run_bind value mRefCount] in E3. injection E3 as <-.
  eexists. split; [reflexivity|]. split_and!; [exact Hc3| |done]. intros l. cbn [objects with_objects]. rewrite insert_insert_eq, lookup_insert. case_decide; case_bool_decide; by subst || done.
Qed.

(** A buffer handed out is the application's alone, and of the size asked for; without one, every buffer of that size is in use and the pool is full. *)
Lemma create_spec (width height : Z) (h : heap) (p : VideoFrameBufferPool) (app : list loc) : pool_ok h p app -> 0 < width -> 0 < height ->
  exists r h' p', create_i420_buffer width height h p = Ret (r, h', p') /\ mMaxNumberOfBuffers p' = mMaxNumberOfBuffers p /\
    (forall l, l ∈ app -> value <$> objects h' !! l = value <$> objects h !! l) /\
    (forall l, l ∈ mBuffers p' -> right_size width height h' l = true) /\
    match r with
    | Some l => l ∉ app /\ l ∈ mBuffers p' /\ pool_ok h' p' (l :: app)
    | None => pool_ok h' p' app /\ Z.of_nat (length (mBuffers p')) = mMaxNumberOfBuffers p /\ forall l, l ∈ mBuffers p' -> l ∈ app
    end.
Proof.
  intros [Hc Hd Hr] Hw Hh. unfold create_i420_buffer, get_existing_buffer. pose proof (held_nonneg app) as Ha.
  destruct (drop_wrong_spec width height (mBuffers p) h (held app) Hc Hd Ha) as (h1 & ls & E1 & Hc1 & S1 & V1). rewrite E1. cbn [run_bind].
  assert (Hd1 : NoDup ls) by (rewrite S1; by apply NoDup_filter).
  assert (Hl1 : (length ls <= length (mBuffers p))%nat) by (rewrite S1; apply length_filter).
  assert (Hok : pool_ok h1 (with_buffers p ls) app) by (split; cbn; [done|done|lia]).
  assert (HV1 : forall l, l ∈ app -> value <$> objects h1 !! l = value <$> objects h !! l) by (intros l Hl; apply V1; apply held_elem in Hl; pose proof (held_nonneg ls l); specialize (Ha l); lia).
  assert (HR1 : forall l, l ∈ ls -> right_size width height h1 l = true).
  { intros l Hl. pose proof Hl as Hh1%held_elem. rewrite (value_right_size h); [rewrite S1 in Hl; apply list_elem_of_filter in Hl as [Hl _]; exact Hl|]. apply V1. pose proof (held_nonneg ls l). specialize (Ha l). lia. }
  destruct (find_free_spec h1 ls (held app) Hc1 Hd1 Ha) as (r & Er & Hf). rewrite Er. cbn [run_bind].
  destruct r as [b|].
  - destruct Hf as [Hb Hz]. apply held_none in Hz. destruct (reuse_spec h1 _ app b Hok Hb Hz) as (h2 & h3 & h4 & E2 & E3 & E4 & Hok4 & V4). rewrite E2. cbn [run_bind]. rewrite E3. cbn [run_bind]. rewrite E4. cbn [run_bind].
    exists (Some b), h4, (with_buffers p ls). split_and!; [done|done| | |done|done|done]; intros l Hl.
    + rewrite V4, HV1; [done|done|]. apply held_elem in Hl. pose proof (held_nonneg ls l). specialize (Ha l). cbn [mBuffers with_buffers]. lia.
    + rewrite (value_right_size h1); [by apply HR1|]. apply V4. apply held_elem in Hl. pose proof (held_nonneg ls l). specialize (Ha l). cbn [mBuffers with_buffers] in *. lia.
  - cbn [construct run_bind with_buffers mMaxNumberOfBuffers mBuffers mZeroInitialize]. destruct (Z.leb_spec (mMaxNumberOfBuffers p) (Z.of_nat (length ls))) as [Hm|Hm].
    + exists None, h1, (with_buffers p ls). split_and!; [done|done|done|done|done|cbn; lia|]. intros l Hl. apply held_elem, Hf, Hl.
    + rewrite !(proj2 (Z.ltb_lt _ _)) by done. cbn [check run_bind].
      destruct (new_buffer_spec h1 _ (mkI420 width height false) (mkI420 width height true) (mZeroInitialize p) Hc1) as (h2 & E2 & Hc2 & O2 & Hz2).
      specialize (E2 _ (fun h buffer l => Ret (buffer, h, with_buffers p (ls ++ [l])))). pose proof (held_nonneg ls (next_loc h1)) as Hn1. pose proof (Ha (next_loc h1)) as Hn2.
      assert (Hn : next_loc h1 ∉ app) by (apply held_none; lia). assert (Hnl : next_loc h1 ∉ ls) by (apply held_none; lia).
      exists (Some (next_loc h1)), h2, (with_buffers p (ls ++ [next_loc h1])). split_and!; [exact E2|done| | |done|cbn; apply elem_of_app; right; by left|split; cbn [mBuffers with_buffers mMaxNumberOfBuffers]].
      * intros l Hl. rewrite O2, bool_decide_false by (intros ->; done). by apply HV1.
      * intros l [Hl|Hl%list_elem_of_singleton]%elem_of_app.
        -- rewrite (value_right_size h1); [by apply HR1|]. by rewrite O2, bool_decide_false by (intros ->; done).
        -- subst l. unfold right_size. rewrite O2, bool_decide_true by done. cbn. by destruct (mZeroInitialize p); cbn; rewrite !Z.eqb_refl.
      * eapply owners_ext; [|exact Hc2]. intros l. cbn beta. rewrite held_app, !held_cons. unfold held. cbn. lia.
      * apply NoDup_app. split_and!; [done|intros l Hl ->%list_elem_of_singleton; done|apply NoDup_singleton].
      * rewrite length_app. cbn. lia.
Qed.

Lemma free_le (others : loc -> Z) (ls : list loc) : (free others ls <= length ls)%nat.
Proof. apply length_filter. Qed.
Lemma used_length (app ls : list loc) : length (filter (fun l => l ∈ app) ls) = (length ls - free (held app) ls)%nat.
Proof.
  induction ls as [|b ls IH]; [done|]. pose proof (free_le (held app) ls). rewrite free_cons, filter_cons. cbn [length].
  pose proof (held_elem app b). case_decide; case_decide; cbn [length]; rewrite ?IH; lia || (exfalso; tauto).
Qed.

(** The limit is taken unless more buffers are in use. *)
Lemma pool_resize_spec (n : Z) (h : heap) (p : VideoFrameBufferPool) (app : list loc) : pool_ok h p app -> 0 <= n < 2 ^ 64 ->
  exists h' p', resize n h p = Ret (Z.of_nat (length (filter (fun l => l ∈ app) (mBuffers p))) <=? n, h', p') /\
    if Z.of_nat (length (filter (fun l => l ∈ app) (mBuffers p))) <=? n
    then pool_ok h' p' app /\ mMaxNumberOfBuffers p' = n /\ sublist (mBuffers p') (mBuffers p) /\ (forall l, l ∈ app -> value <$> objects h' !! l = value <$> objects h !! l) /\
         (forall l, l ∈ mBuffers p -> l ∈ app -> l ∈ mBuffers p') /\ (n <= Z.of_nat (length (mBuffers p)) -> Z.of_nat (length (mBuffers p')) = n)
    else h' = h /\ p' = p.
Proof.
  intros [Hc Hd Hr] Hn. unfold resize. pose proof (held_nonneg app) as Ha. rewrite (count_used_spec h (mBuffers p) (held app) Hc Hd Ha). cbn [run_bind].
  pose proof (used_length app (mBuffers p)) as Hu. pose proof (free_le (held app) (mBuffers p)) as Hle. 
  rewrite Hu. rewrite Nat2Z.inj_sub by done. set (u := Z.of_nat (length (mBuffers p)) - Z.of_nat (free (held app) (mBuffers p))).
  destruct (Z.leb_spec u n) as [Hun|Hun]; [rewrite (proj2 (Z.ltb_ge _ _)) by done|by rewrite (proj2 (Z.ltb_lt _ _)) by done; exists h, p].
  cbn [with_max mBuffers mMaxNumberOfBuffers]. set (k := wrap 64 (Z.of_nat (length (mBuffers p)) - n)). assert (Hk : 0 <= k) by (apply wrap_range; lia).
  destruct (purge_spec (mBuffers p) h (held app) k Hc Hd Ha Hk) as (h' & ls & E & Hc' & S & U & L & V). rewrite E. cbn [run_bind].
  assert (Hk' : n <= Z.of_nat (length (mBuffers p)) -> k = Z.of_nat (length (mBuffers p)) - n) by (intros ?; apply wrap_small; lia).
  assert (Hlen : Z.of_nat (length ls) <= n).
  { destruct (Z.le_gt_cases n (Z.of_nat (length (mBuffers p)))); [specialize (Hk' ltac:(done)); subst u; lia|]. apply sublist_length in S. lia. }
  exists h', (with_buffers (with_max p n) ls). split; [done|]. split_and!; [split; cbn; [done|by eapply sublist_NoDup|lia]|done|done| | |].
  - intros l Hl. apply V. apply held_elem in Hl. pose proof (held_nonneg ls l). specialize (Ha l). lia.
  - intros l Hl Hin. apply U; [done|]. by apply held_elem.
  - cbn. intros Hle'. specialize (Hk' Hle'). subst u. lia.
Qed.

(** A larger limit: the count wraps below zero, and every free buffer is dropped. *)
Theorem growing_drops_free (n : Z) (h : heap) (p : VideoFrameBufferPool) (app : list loc) : pool_ok h p app -> Z.of_nat (length (mBuffers p)) < n < 2 ^ 63 ->
  exists h' p', resize n h p = Ret (true, h', p') /\ length (mBuffers p') = length (filter (fun l => l ∈ app) (mBuffers p)).
Proof.
  intros [Hc Hd Hr] Hn. unfold resize. pose proof (held_nonneg app) as Ha. rewrite (count_used_spec h (mBuffers p) (held app) Hc Hd Ha). cbn [run_bind].
  pose proof (used_length app (mBuffers p)) as Hu. pose proof (free_le (held app) (mBuffers p)) as Hle.
  rewrite (proj2 (Z.ltb_ge _ _)) by lia. cbn [with_max mBuffers mMaxNumberOfBuffers].
  set (k := wrap 64 (Z.of_nat (length (mBuffers p)) - n)).
  assert (Hk : k = Z.of_nat (length (mBuffers p)) - n + 2 ^ 64).
  { unfold k, wrap. symmetry. apply Zmod_unique with (q := -1); lia. }
  destruct (purge_spec (mBuffers p) h (held app) k Hc Hd Ha ltac:(lia)) as (h' & ls & E & Hc' & S & U & L & V). rewrite E. cbn [run_bind].
  exists h', (with_buffers (with_max p n) ls). split; [done|]. cbn. lia.
Qed.

Lemma give_back_spec (ls : list loc) : forall (h : heap) (others : loc -> Z), counted h (fun l => held ls l + others l) -> (forall l, 0 <= others l) ->
  exists h', give_back h ls = Ret h' /\ counted h' others.
Proof.
  induction ls as [|b ls IH]; intros h others Hc Ho; cbn [give_back]; [by exists h|].
  destruct (drop_spec h b (fun l => held ls l + others l)) as (h1 & st & E1 & Hc1 & _); [eapply owners_ext; [|exact Hc]; intros l; cbn beta; rewrite held_cons; lia|intros l; pose proof (held_nonneg ls l); pose proof (Ho l); lia|].
  rewrite E1. cbn [run_bind]. by apply IH.
Qed.
Lemma held_delete (ls : list loc) (i : nat) (b l : loc) : ls !! i = Some b -> held ls l = owner (Some b) l + held (delete i ls) l.
Proof.
  revert i. induction ls as [|x ls IH]; intros [|i] Hi; [done|done|injection Hi as <-; done|]. cbn [delete list_delete]. rewrite !held_cons, (IH i Hi). change (delete i ls) with (list_delete i ls). lia.
Qed.

Definition state_ok (s : state) : Prop := let '(h, p, app) := s in pool_ok h p app /\ NoDup app.

Lemma pool_step_ok (o : op) (s : state) : op_ok o -> state_ok s -> exists s', step o s = Ret s' /\ state_ok s'.
Proof.
  destruct s as [[h p] app]. intros Hop [Hok Hda]. destruct o as [w ht|i|n|]; cbn [step op_ok] in *.
  - apply andb_prop_elim in Hop as [Hw Hh]. apply Is_true_true in Hw, Hh. zbool.
    destruct (create_spec w ht h p app Hok) as (r & h' & p' & E & _ & _ & _ & Hr); [done|done|]. rewrite E. cbn [run_bind].
    eexists. split; [reflexivity|]. destruct r as [l|]; [destruct Hr as (? & _ & ?); split; [done|by constructor]|by destruct Hr].
  - destruct (app !! i) as [l|] eqn:Ei; [|by exists (h, p, app)]. destruct Hok as [Hc Hd Hr].
    destruct (drop_spec h l (fun k => held (mBuffers p) k + held (delete i app) k)) as (h' & st & E & Hc' & _).
    { eapply owners_ext; [|exact Hc]. intros k. cbn beta. rewrite (held_delete app i l k Ei). lia. }
    { intros k. pose proof (held_nonneg (mBuffers p) k). pose proof (held_nonneg (delete i app) k). lia. }
    rewrite E. cbn [run_bind]. eexists. split; [reflexivity|]. split; [by split|]. eapply sublist_NoDup; [done|apply sublist_delete].
  - apply andb_prop_elim in Hop as [H1 H2]. apply Is_true_true in H1, H2. zbool.
    destruct (pool_resize_spec n h p app Hok) as (h' & p' & E & Hr); [lia|]. rewrite E. cbn [run_bind]. eexists. split; [reflexivity|].
    case_match; [by destruct Hr|by destruct Hr as [-> ->]].
  - destruct Hok as [Hc Hd Hr]. unfold release_all. destruct (give_back_spec _ _ _ Hc (held_nonneg app)) as (h' & E & Hc'). rewrite E. cbn [run_bind].
    eexists. split; [reflexivity|]. split; [|done]. split; cbn; [eapply owners_ext; [|exact Hc']; intros l; done|constructor|lia].
Qed.

(** C31: Whatever the application does with the pool, no count fails and no two of its pointers
    are to the same buffer; and a buffer it asks for next is one it does not have, of the size
    asked for, its other buffers untouched; no buffer comes only from a full pool whose buffers
    are all in use. *)
Theorem pool_runs (os : list op) (zero_initialize : bool) (n : Z) (width height : Z) : 0 <= n < 2 ^ 64 -> Forall op_ok os -> 0 < width -> 0 < height ->
  exists h p app r h' p', steps os (empty_heap, new_pool zero_initialize n, []) = Ret (h, p, app) /\ pool_ok h p app /\ NoDup app /\
    create_i420_buffer width height h p = Ret (r, h', p') /\ (forall l, l ∈ app -> value <$> objects h' !! l = value <$> objects h !! l) /\
    match r with
    | Some l => l ∉ app /\ right_size width height h' l = true
    | None => Z.of_nat (length (mBuffers p')) = mMaxNumberOfBuffers p' /\ forall l, l ∈ mBuffers p' -> l ∈ app
    end.
Proof.
  intros Hn Hos Hw Hh. assert (H : forall s, state_ok s -> exists s', steps os s = Ret s' /\ state_ok s').
  { induction Hos as [|o os Ho _ IH]; intros s Hs; cbn [steps]; [by exists s|]. destruct (pool_step_ok o s Ho Hs) as (s1 & E & H1). rewrite E. cbn [run_bind]. by apply IH. }
  destruct (H (empty_heap, new_pool zero_initialize n, [])) as ([[h p] app] & E & Hs & Ha).
  { split; [|constructor]. split; cbn; [|constructor|lia]. split; cbn; [|done|].
    - intros l o Hl. by rewrite lookup_empty in Hl.
    - intros l [o Hl]. by rewrite lookup_empty in Hl. }
  destruct (create_spec width height h p app Hs Hw Hh) as (r & h' & p' & E' & Em & V & R & Hr). exists h, p, app, r, h', p'. split_and!; [done..|].
  destruct r as [l|]; [destruct Hr as (? & ? & _); by auto|destruct Hr as (_ & ? & ?); by rewrite Em].
Qed.

Lemma pool_runs_witness : Forall op_ok [Create 4 2; Create 4 2; Drop 1; Create 4 2; Resize 3; Create 8 6; Release] /\
  exists h p app r h' p', steps [Create 4 2; Create 4 2; Drop 1; Create 4 2; Resize 3; Create 8 6; Release] (empty_heap, new_pool true 2, []) = Ret (h, p, app) /\ pool_ok h p app /\ NoDup app /\
    create_i420_buffer 4 2 h p = Ret (r, h', p') /\ (forall l, l ∈ app -> value <$> objects h' !! l = value <$> objects h !! l) /\
    match r with
    | Some l => l ∉ app /\ right_size 4 2 h' l = true
    | None => Z.of_nat (length (mBuffers p')) = mMaxNumberOfBuffers p' /\ forall l, l ∈ mBuffers p' -> l ∈ app
    end.
Proof. split; [by repeat constructor|]. apply (pool_runs _ true 2 4 2); [lia|by repeat constructor|lia|lia]. Defined.
